(* ===== verification/_CoqProject ===== *)
-Q . S2P
Prelude.v
GoStrings.v
Regex.v
GoFloat.v
GoTime.v
FloatInt.v
Json.v
Canonical.v
Ids.v
Values.v
Bounds.v
BoundMeet.v
JsonText.v
JsonStruct.v
Utf.v
NumberText.v
CanonicalText.v
GoTimeText.v
Grants.v
Constraints.v
Ceilings.v
Authorize.v
Containment.v
Decisions.v
Composition.v
Obligations.v
Resolve.v
Evidence.v
Sha256.v
Requirement.v
Sources.v
Context.v
ActionMatch.v
RecordJson.v
RecordFreeze.v
Record.v
Envelope.v
Challenge.v
Domains.v
DomainsProofs.v
SchemeArtifacts.v
SchemeState.v
SchemeConfirm.v
SchemeConfirmProofs.v
Report.v
ReportData.v
ReportLifecycle.v
ReportValidate.v
ReportDecode.v
ReportRead.v
ReportSigned.v
Projection.v
ProjectionProofs.v
RuleExec.v
RuleExecProofs.v
Gateway.v
SqlGen.v
Catalog.v
CatalogTrust.v
CatalogExchange.v
CatalogProofs.v
CatalogHistory.v
CatalogAdmission.v
CatalogDirectory.v
SchemaDigest.v
RuleRead.v
CatalogFiles.v
JsonSchema.v
Registry.v
Claims.v
Clock.v
RegistryProofs.v
GenAuthz.v
RuleValidate.v
RulePublish.v
HttpGateway.v
Ocmp.v
RawParams.v
RawParamsProofs.v
RegistryLock.v
