(* ===== verification/Prelude.v ===== *)
(** * A verification development for [varwof/register]

    The repository implements CLC-v1, a capability language: grants say which
    operations an agent may perform and within which parameters and constraints,
    and the language decides operations against grants, composes grants along a
    delegation chain, and turns the decision into obligations, records and
    evidence that other parties can check.  Around the language stand a rule
    executor (signed rules with conditions and a flow), a registry of schemes, a
    catalog of published schemes, the administration of scheme packages (signed
    transitions of a registry) and a projection layer.  This development models
    the decision language, the rule executor, the scheme registry and its
    administration, the catalog and the evidence reports of the projection layer;
    what is left out is listed at the end.

    ** How the source is represented

    - A Go string is a Rocq [string] of bytes; [strings], [strconv], [sort],
      [unicode/utf8], [regexp] functions are in GoStrings.v and Regex.v (the
      matcher is proved to decide the language of the expression).
    - [float64] is the Standard Library's [spec_float] with correctly rounded
      operations and decimal conversions (GoFloat.v; FloatInt.v characterises
      rounding and proves integers below 2^53 exact).  An int64 whose overflow matters is a [Z] with its
      wrap-around written out ([wrap64] of GoTime.v).
    - An interface value is an [any] (Json.v); a [map[string]T] is the list of
      its entries in the order in which the runtime happens to iterate over it
      ([gomap], this file), so that a theorem about every list holds for every
      iteration order.
    - A function that returns [error] or [(bool, reason)] returns a [check] (the
      text of the error, [None] for success); [(T, error)] is a [result T].
    - Text decoded by [encoding/json] is read by JsonText.v.

    ** The files

    - Prelude.v, GoStrings.v, Regex.v, GoFloat.v, FloatInt.v: the base above;
      GoTime.v: instants, durations and the RFC 3339 reader.
    - Json.v, Canonical.v: values and canonical JSON (semantics/canonical.go).
    - JsonText.v: the reader of JSON text.
    - Ids.v: capability identifiers, coverage, revisions (semantics/semantics.go).
    - Values.v: parameter values, the subset relation, the meet of values.
    - Bounds.v, BoundMeet.v: extended bounds (semantics/parambounds.go).
    - Grants.v: grants, operations, decisions, scheme defaults.
    - Constraints.v, Ceilings.v: the constraint grammar and the core evaluators.
    - Authorize.v: [Entails], [Contains], [Intersect], [AuthorizeSet],
      [AuthorizeWithChain], [ConstraintUnion]; Containment.v, Decisions.v and
      Composition.v hold their theorems.
    - Obligations.v: semantics/obligations.go and combine.go, with the class
      [DecisionSource] that states what a deciding component promises to the code
      that combines and discharges decisions; grant sets, chains and either of
      them are its instances.
    - Resolve.v: semantics/resolve.go.
    - Evidence.v, Requirement.v: semantics/evidence.go and requirement.go, with
      Sha256.v for the digests.
    - Sources.v, Context.v: semantics/sources.go and context.go.
    - RuleExec.v, RuleExecProofs.v: the executor of ruleexec/.
    - Gateway.v: the plugin over its life, and the publication boundary
      (ruleexec/gateway_plugin.go, signer_grant.go).
    - SqlGen.v: the database scheme's contract (params_validate.go) and SQL
      generation (ruleexec/sqlgen.go).
    - Utf.v, NumberText.v, CanonicalText.v: the canonical text is read back as
      the value it was written from (NumberText.v proves that the shortest digits
      of a binary64 value are read back as that value); GoTimeText.v: the text
      form of instants.
    - ActionMatch.v: semantics/match.go; RecordJson.v, RecordFreeze.v, Record.v:
      decision records (record.go) with their JSON form; Envelope.v: envelope.go;
      Challenge.v: challenge.go.
    - Report.v, ReportData.v: evidence reports and native checks (projection/
      typed.go, projector.go, evidence.go, report.go); ReportValidate.v:
      building, validating and the deployer's policy (validate.go,
      derivation.go); ReportLifecycle.v: snapshots, replay and the persisted
      state (lifecycle.go, state.go); ReportDecode.v, ReportRead.v: the closed
      decoder of a report, which inverts its encoder; ReportSigned.v: signed
      envelopes, timestamps and attestations (envelope.go, timestamp.go,
      attestation.go, reportauth.go).
    - Projection.v, ProjectionProofs.v: the projectors (registry.go, normalize.go,
      clc_native.go, emilia_aec.go, Project of report.go).
    - Domains.v, DomainsProofs.v: declared parameter domains
      (semantics/domains.go).
    - JsonStruct.v: decoding into interface values and structs, the closed
      decoder, and internal/jsonstrict.
    - SchemeArtifacts.v: scheme packages, transitions and declarations
      (schemeadmin/schemeadmin.go, package.go, transition.go,
      internal/schemedecl); SchemeState.v: the trust policy and the registry
      state (policy.go, state.go); SchemeConfirm.v, SchemeConfirmProofs.v: the
      deployer's decision (confirm.go, signed.go, approval.go, delegation.go).
    - Catalog.v: the artifacts of the catalog plane (catalog/catalog.go, delta.go,
      discovery.go); CatalogTrust.v: policy, admission, accepted state and trust
      rotation (policy.go, verify.go, signed.go, rotation.go); CatalogExchange.v:
      signed deltas, bundles, shards, index and cache (delta_signed.go,
      exchange.go, compose.go, index.go, cache.go) with a sample deployment;
      CatalogProofs.v, CatalogHistory.v, CatalogAdmission.v,
      CatalogDirectory.v: their theorems.
    - RawParams.v, RawParamsProofs.v: parameters as JSON text (ValidateRawParams
      and AuthorizeJSONText of semantics/semantics.go, the surrogate scan of
      canonical.go).
    - JsonSchema.v: the parameter schema validator
      (jsonschema.go); Registry.v: scheme definitions, names, the registry and its
      loading (schema.go, registry.go, loader.go, MatchCapability of
      validator.go); Claims.v: capability sets, flat parameters and claims
      (validator.go, flatparams.go, mincap.go); RegistryProofs.v: their theorems;
      RegistryLock.v: the lock calls of the registry and their interleavings;
      RuleValidate.v: Rule.Validate (ruleexec/rule.go); GenAuthz.v: the
      authorization document (genauthz.go); SchemaDigest.v: the digest backfill
      (schema_digest.go); Clock.v: clock.go.
    - RuleRead.v: rule files and database parameters from their JSON text
      (LoadRuleBytes of ruleexec/rule.go, defaults.go, the structs of
      params_validate.go and sqlgen.go); RulePublish.v: detached signatures over
      files, publishing, loading and registering rules (sign.go,
      ruleexec/publish.go, ruleplugin_load.go); HttpGateway.v: the gateway handler
      (ruleexec/request.go, httpgateway.go).
    - CatalogFiles.v: catalog/io.go and ParseState of schemeadmin/state.go; Ocmp.v:
      the offline profile (ocmp/ocmp.go).

    ** What the theorems show

    - Decision: [AuthorizeSet] admits exactly the valid operations one grant
      permits, reports exactly the obligations of the permitting grants, does not
      depend on the order of the grants, and is monotone in them (Decisions.v).
    - Delegation: containment, intersection and chains only narrow, under side
      conditions whose necessity is shown by counterexamples (Containment.v,
      Composition.v); the row ceiling and the daily windows are exact
      (Ceilings.v).
    - Obligations: combination is a conjunction, drops no obligation (except
      first-applicable, shown), and discharge is exact (Obligations.v); resolving
      them is monotone and its outcome is characterised (Resolve.v).
    - Evidence: freshness is exact, ineligible facts never count, the verdict of
      a requirement is characterised and always produced, and the expression
      parser inverts the printer (Evidence.v, Requirement.v).
    - Sources: validation terminates and accepts exactly the acyclic, backed
      chains; the walk always ends with the path (Sources.v).
    - Rules: every operation runs at most once, runs are bounded by the size of
      the rule, an adequate budget is never exceeded, nothing dereferences nil
      (RuleExecProofs.v); a published rule stays within its signer (Gateway.v);
      the generated SQL cannot be injected into and stays within the scheme's
      contract (SqlGen.v).
    - Records and evidence: the canonical form is canonical (CanonicalText.v);
      a record the program makes verifies, a verified record reproduces its
      decision and its digest binds its inputs (Record.v); the envelope of a
      record opens to it and an accepted envelope is bound to one decision
      (Envelope.v); actions match when their material fields do (ActionMatch.v);
      a challenge names everything that is missing and nothing else
      (Challenge.v).
    - Evidence reports: every fact of a valid report has an artifact and a
      check, an accepted report left no required check out, what is built is
      accepted (ReportValidate.v); accepted snapshots only advance and survive
      being persisted (ReportLifecycle.v); an accepted signed report is what its
      verifier signed and the deployer pinned, and the envelope adds nothing to
      the deployer's checks (ReportSigned.v); a projection drops no obligation of
      the document it reads (ProjectionProofs.v).
    - Domains: containment under a declaration is sound for entailment under
      it, paths are compared by segments, the verdict does not depend on the
      iteration order; adding a grant can revoke a permission (DomainsProofs.v).
    - Scheme administration: every reachable registry state is an append-only
      ledger and revocation is permanent (SchemeState.v); an accepted publication
      is authorized inside the root authority, a root rotation carries a
      threshold of distinct current-root signatures, approvals are counted by
      distinct principals and keys, what is confirmed can be persisted, and
      delegation stays inside the root (SchemeConfirmProofs.v).
    - Catalogs: a delta is applied exactly as the map update it describes
      (CatalogProofs.v); the accepted generations form a chain of catalogs that
      only grows (CatalogHistory.v); whichever way a catalog is installed, all of
      it passed the admission check, and a rotation retires the old roots
      (CatalogAdmission.v); the index is the scan, shards compose to their union,
      a served bundle is fetched back (CatalogDirectory.v).
    - Input boundary: an operation whose parameters arrive as text is admitted
      only when the text is one object without repeated members, unusable numbers
      or lone surrogates, and the limits on the text are those on the decoded
      value (RawParamsProofs.v).
    - Registry: the schema validator terminates on every schema and implements
      the declarative meaning of its keywords, stated on the JSON values and without
      the validator's own helpers, wherever the branches of a oneOf exclude each
      other (JsonSchema.v); parameters are closed on the schema path and the flat
      path alike, the pattern matcher agrees with the language, a minimal report is characterised, and a registry loaded from
      disk holds the last file of every scheme (RegistryProofs.v); the rule path is
      no laxer than the claims path (RuleValidate.v); goroutines that use the
      registry finish, unless they call Summary, which can deadlock
      (RegistryLock.v); a generated document grants what its verified schemes
      define (GenAuthz.v); the digest backfill only inserts digests and drops white
      space (SchemaDigest.v); the clock check is exact up to its overflow
      (Clock.v).
    - Rules in service: what is published loads again, up to the check of the
      signer's own grant, and the default is the highest minor of its major version
      (RulePublish.v); the gateway executes a statement only for a verified client whose rule
      allowed the request, and only on the table it names (HttpGateway.v).
    - Files: an artifact is written completely or not at all, whatever fails and
      wherever the machine stops (CatalogFiles.v).
    - Offline: the profile allows exactly what its rules permit, and a counter is
      consumed once (Ocmp.v).
    ** Fuel

    Recursion that is not structural takes fuel: the JSON reader (twice the
    length of the text: each call is below a consumed byte or one grammar level),
    the requirement parser ([parse_fuel], proved enough by [parse_tokens_total]),
    the depth-first search and the walk of a source chain (one unit per source
    and one more, proved enough by [chain_Validate_iff] and [StandingOn_path]),
    UTF-8 scans (the length of the text), the schema validator (100 levels of
    references plus the height of the schema, proved enough by
    [schema_validation_terminates]), the walk over parameter text (that of the
    reader), the digest backfill (the length of the text, proved enough by
    [backfill_keeps_bytes]), the raw members of a rule file (the length of the
    text) and the certificates of a PEM file (the length of the file, proved enough
    by [cert_blocks_fuel]).

    ** Not modelled

    Commands, demonstrations, vector runners and the documentation generator,
    which emit text; the generation of signer certificates; HTTP routing, the TLS
    handshake and the database adapter of the gateway; [WriteScheme] and the
    decoder of scheme files.  Where such code feeds a modelled operation its result
    is a parameter ([load] of Registry.v and GenAuthz.v, [exec] of HttpGateway.v,
    the directory walks of RulePublish.v).
    PKCS#7 signatures, certificate chains and the identity extension are code of
    other repositories: they are parameters (the records [PKI] of SchemeState.v
    and [ReportPKI] of ReportSigned.v, the contexts of Gateway.v and
    CatalogTrust.v), without assumptions; [published_rules_load] of RulePublish.v
    assumes that PEM and PKCS#7 read back what they wrote.
*)

From Stdlib Require Export ZArith Lia Ascii.
From stdpp Require Export base tactics sets list strings sorting numbers.

#[global] Open Scope Z_scope.

(** ** Notations and the error monad *)

Declare Scope go_scope.
Delimit Scope go_scope with go.
#[global] Open Scope go_scope.

(** A Go [error] is represented by the text its [Error()] method returns; a
    function that returns [error] (or [(bool, reason)]) returns a [check]:
    [None] is the nil error (success), [Some e] a failure. *)
Abbreviation error := string (only parsing).
Abbreviation check := (option string) (only parsing).

(** [c1 ;;? c2] is [if err := c1; err != nil { return err }; c2]. *)
Definition check_seq {E} (c1 c2 : option E) : option E :=
  match c1 with None => c2 | Some e => Some e end.
Notation "c1 ;;? c2" := (check_seq c1 c2)
  (at level 100, right associativity) : go_scope.

(** [guard b e] is [if b { return e }]. *)
Definition guard {E} (b : bool) (e : E) : option E := if b then Some e else None.

(** [for _, x := range l { if err := f(x); err != nil { return err } }]. *)
Section check_all.
Context {A E : Type} (f : A → option E).
Fixpoint check_all (l : list A) : option E :=
match l with
| [] => None
| x :: l' => f x ;;? check_all l'
end.
End check_all.

(** [(T, error)] results. *)
Abbreviation result A := (sum A string) (only parsing).
Definition rbind {A B} (r : result A) (f : A → result B) : result B :=
  match r with inl a => f a | inr e => inr e end.
Notation "'let!' x := r 'in' k" := (rbind r (λ x, k))
  (at level 10, x pattern, r at level 100, k at level 200) : go_scope.
Definition rguard {A} (c : check) (k : result A) : result A :=
  match c with None => k | Some e => inr e end.

(** [fmt.Errorf("%w: %s", e, d)]. *)
Definition wrap (e d : string) : error := (e +:+ ": " +:+ d)%string.

(** ** Automation *)

Create HintDb go.
Create Rewrite HintDb go.

(** Split the boolean and Prop connectives of the context. *)
Ltac go_bool :=
  repeat match goal with
  | H : _ && _ = true |- _ => apply andb_true_iff in H as [??]
  | H : _ || _ = false |- _ => apply orb_false_iff in H as [??]
  | H : negb _ = true |- _ => apply negb_true_iff in H
  | H : negb _ = false |- _ => apply negb_false_iff in H
  | H : bool_decide _ = true |- _ => apply bool_decide_eq_true in H
  | H : bool_decide _ = false |- _ => apply bool_decide_eq_false in H
  | H : String.eqb _ _ = true |- _ => apply String.eqb_eq in H
  | H : String.eqb _ _ = false |- _ => apply String.eqb_neq in H
  end.

(** Case split on the scrutinee of a match in the goal or in a hypothesis. *)
Ltac go_match :=
  repeat (case_match; simplify_eq/=; try done).

(** ** Checks *)

Lemma check_seq_None {E} (c1 c2 : option E) : (c1 ;;? c2) = None ↔ c1 = None ∧ c2 = None.
Proof. destruct c1; naive_solver. Qed.

Lemma check_seq_Some {E} (c1 c2 : option E) e :
  (c1 ;;? c2) = Some e ↔ c1 = Some e ∨ (c1 = None ∧ c2 = Some e).
Proof. destruct c1; naive_solver. Qed.

Lemma guard_None {E} b (e : E) : guard b e = None ↔ b = false.
Proof. destruct b; naive_solver. Qed.

Lemma guard_Some {E} b (e e' : E) : guard b e = Some e' ↔ b = true ∧ e' = e.
Proof. destruct b; naive_solver. Qed.

(** The verdict of a loop of checks does not depend on the iteration order. *)
Lemma check_all_None {A E} (f : A → option E) l :
  check_all f l = None ↔ ∀ x, x ∈ l → f x = None.
Proof.
  induction l as [|x l IH]; simpl.
  - split; [intros _ x Hx; inversion Hx | done].
  - rewrite check_seq_None, IH. set_solver.
Qed.

Lemma check_all_Some {A E} (f : A → option E) l e :
  check_all f l = Some e → ∃ x, x ∈ l ∧ f x = Some e.
Proof.
  induction l as [|x l IH]; simpl; [done|].
  rewrite check_seq_Some. intros [H|[_ H]].
  - exists x. set_solver.
  - destruct (IH H) as (y & ? & ?). exists y. set_solver.
Qed.

Lemma check_all_ext {A E} (f g : A → option E) l :
  (∀ x, x ∈ l → f x = g x) → check_all f l = check_all g l.
Proof.
  induction l as [|x l IH]; simpl; intros H; [done|].
  rewrite H by set_solver. by rewrite IH by set_solver.
Qed.

Lemma rguard_inl {A} c (k : result A) a : rguard c k = inl a ↔ c = None ∧ k = inl a.
Proof. destruct c; naive_solver. Qed.

Lemma rbind_inl {A B} (r : result A) (f : A → result B) b :
  rbind r f = inl b ↔ ∃ a, r = inl a ∧ f a = inl b.
Proof. destruct r; naive_solver. Qed.

#[export] Hint Rewrite @check_seq_None @guard_None : go.

(** ** Go maps

    A [map[string]A] is the list of its entries in the order in which the
    runtime iterates over it.  Go leaves that order unspecified, so a theorem
    about every map quantifies over every list whose keys are distinct
    ([wf_map]), whatever its order; [map_equiv] relates two orders of the same
    map. *)

Abbreviation gomap A := (list (string * A)) (only parsing).

(** [v, ok := m[k]]. *)
Fixpoint mget {A} (k : string) (m : gomap A) : option A :=
  match m with
  | [] => None
  | (k', v) :: m' => if String.eqb k k' then Some v else mget k m'
  end.

Definition mhas {A} (k : string) (m : gomap A) : bool :=
  match mget k m with Some _ => true | None => false end.

Definition mkeys {A} (m : gomap A) : list string := m.*1.

(** [f m[k]] where the key is present, [d] otherwise; the form in which a
    recursive function descends into one member of an object. *)
Section mget_with.
Context {A R : Type} (key : string) (f : A → R) (d : R).
Fixpoint mget_with (m : gomap A) : R :=
match m with
| [] => d
| kv :: m' => if String.eqb key kv.1 then f kv.2 else mget_with m'
end.
End mget_with.

Lemma mget_with_mget {A R} key (f : A → R) d m :
  mget_with key f d m = match mget key m with Some v => f v | None => d end.
Proof. induction m as [|[k v] m IH]; simpl; [done|]. by destruct (String.eqb key k). Qed.

(** [m[k] = v]. *)
Fixpoint mset {A} (k : string) (v : A) (m : gomap A) : gomap A :=
  match m with
  | [] => [(k, v)]
  | (k', v') :: m' => if String.eqb k k' then (k, v) :: m' else (k', v') :: mset k v m'
  end.

(** [delete(m, k)]. *)
Definition mdel {A} (k : string) (m : gomap A) : gomap A :=
  filter (λ kv, kv.1 ≠ k) m.

Definition wf_map {A} (m : gomap A) : Prop := NoDup (mkeys m).

Lemma mget_elem {A} k (v : A) m : mget k m = Some v → (k, v) ∈ m.
Proof.
  induction m as [|[k' v'] m IH]; simpl; [done|].
  destruct (String.eqb_spec k k'); intros; simplify_eq; set_solver.
Qed.

Lemma mget_None {A} k (m : gomap A) : mget k m = None ↔ k ∉ mkeys m.
Proof.
  unfold mkeys. induction m as [|[k' v'] m IH]; simpl; [set_solver|].
  destruct (String.eqb_spec k k'); set_solver.
Qed.

Lemma elem_mget {A} k (v : A) m : wf_map m → (k, v) ∈ m → mget k m = Some v.
Proof.
  unfold wf_map, mkeys. induction m as [|[k' v'] m IH]; simpl; [set_solver|].
  intros [Hk Hnd]%list.NoDup_cons Hin. destruct (String.eqb_spec k k') as [->|Hne].
  - apply elem_of_cons in Hin as [Heq|Hin]; [by simplify_eq|].
    destruct Hk. apply list_elem_of_fmap. by exists (k', v).
  - apply IH; [done|]. set_solver.
Qed.

Lemma mhas_true {A} k (m : gomap A) : mhas k m = true ↔ k ∈ mkeys m.
Proof.
  unfold mhas. destruct (mget k m) eqn:E.
  - split; [|done]. intros _. apply mget_elem in E. apply list_elem_of_fmap. by exists (k, a).
  - apply mget_None in E. naive_solver.
Qed.

Lemma mhas_false {A} k (m : gomap A) : mhas k m = false ↔ k ∉ mkeys m.
Proof. rewrite <- mhas_true. destruct (mhas k m); naive_solver. Qed.

Lemma mget_mset {A} k k' (v : A) m :
  mget k' (mset k v m) = if String.eqb k' k then Some v else mget k' m.
Proof.
  induction m as [|[k0 v0] m IH]; simpl; [done|].
  destruct (String.eqb_spec k k0) as [->|]; simpl.
  - by destruct (String.eqb_spec k' k0).
  - rewrite IH. destruct (String.eqb_spec k' k0), (String.eqb_spec k' k); congruence.
Qed.

Lemma mkeys_elem {A} k (v : A) m : (k, v) ∈ m → k ∈ mkeys m.
Proof. intros H. apply list_elem_of_fmap. by exists (k, v). Qed.

Lemma mkeys_mset {A} k (v : A) m k' : k' ∈ mkeys (mset k v m) ↔ k' = k ∨ k' ∈ mkeys m.
Proof.
  rewrite <- !mhas_true. unfold mhas. rewrite mget_mset.
  destruct (String.eqb_spec k' k); [naive_solver|]. destruct (mget k' m); naive_solver.
Qed.

Lemma wf_mset {A} k (v : A) m : wf_map m → wf_map (mset k v m).
Proof.
  unfold wf_map. induction m as [|[k0 v0] m IH]; simpl.
  - intros _. apply NoDup_singleton.
  - intros [Hk Hnd]%list.NoDup_cons. destruct (String.eqb_spec k k0) as [->|Hne].
    + by constructor.
    + apply list.NoDup_cons. split; [|by apply IH]. intros [?|?]%mkeys_mset; [by subst|done].
Qed.

(** Two iteration orders of one map. *)
Definition map_equiv {A} (m1 m2 : gomap A) : Prop := m1 ≡ₚ m2.

Lemma mget_perm {A} (m1 m2 : gomap A) k :
  wf_map m1 → m1 ≡ₚ m2 → mget k m1 = mget k m2.
Proof.
  intros Hwf Hp. assert (wf_map m2) as Hwf2.
  { unfold wf_map, mkeys in *. by rewrite <- Hp. }
  destruct (mget k m1) eqn:E1.
  - symmetry. apply elem_mget; [done|]. rewrite <- Hp. by apply mget_elem.
  - destruct (mget k m2) eqn:E2; [|done].
    apply mget_elem in E2. rewrite <- Hp in E2. apply elem_mget in E2; [congruence|done].
Qed.
