(* ===== verification/GoStrings.v ===== *)
(** * Go strings

    The parts of Go's [strings], [strconv], [sort], [unicode/utf8] and
    [unicode/utf16] packages that the modelled code calls.  A Go string is a
    sequence of bytes; it is represented by Rocq's [string] of 8-bit [ascii]
    characters. *)

From Stdlib Require Import DecimalString DecimalZ.
From S2P Require Import Prelude.

(** The byte value of a character. *)
Definition code (c : ascii) : Z := Z.of_N (N_of_ascii c).
Definition chr (z : Z) : ascii := ascii_of_N (Z.to_N z).

Lemma code_range c : 0 <= code c < 256.
Proof. unfold code. pose proof (N_ascii_bounded c). lia. Qed.

Lemma chr_code c : chr (code c) = c.
Proof. unfold chr, code. rewrite N2Z.id. apply ascii_N_embedding. Qed.

Definition in_range (lo hi : Z) (c : ascii) : bool := (lo <=? code c) && (code c <=? hi).
Definition is_digit : ascii → bool := in_range 48 57.
Definition is_lower : ascii → bool := in_range 97 122.
Definition is_upper : ascii → bool := in_range 65 90.
Definition is_alnum (c : ascii) : bool := is_lower c || is_upper c || is_digit c.

Fixpoint str_forallb (p : ascii → bool) (s : string) : bool :=
  match s with EmptyString => true | String c s' => p c && str_forallb p s' end.

Fixpoint str_existsb (p : ascii → bool) (s : string) : bool :=
  match s with EmptyString => false | String c s' => p c || str_existsb p s' end.

(** [s[n:]] and [s[:n]]. *)
Fixpoint sdrop (n : nat) (s : string) : string :=
  match n, s with S n', String _ s' => sdrop n' s' | O, _ => s | _, EmptyString => s end.
Fixpoint stake (n : nat) (s : string) : string :=
  match n, s with S n', String c s' => String c (stake n' s') | _, _ => EmptyString end.

(** [strings.Split(s, sep)] for a one-byte separator; never empty. *)
Fixpoint split_aux (sep : ascii) (s : string) : string * list string :=
  match s with
  | EmptyString => (EmptyString, [])
  | String c s' =>
      let '(h, t) := split_aux sep s' in
      if Ascii.eqb c sep then (EmptyString, h :: t) else (String c h, t)
  end.
Definition Split (sep : ascii) (s : string) : list string :=
  let '(h, t) := split_aux sep s in h :: t.

(** [strings.Join(parts, sep)] for a one-byte separator. *)
Fixpoint Join (sep : ascii) (l : list string) : string :=
  match l with
  | [] => EmptyString
  | [x] => x
  | x :: l' => (x +:+ String sep (Join sep l'))%string
  end.

Definition HasPrefix (s p : string) : bool := String.prefix p s.
Definition HasSuffix (s p : string) : bool :=
  let n := String.length s in let k := String.length p in
  (k <=? n)%nat && String.eqb (sdrop (n - k) s) p.
Definition TrimPrefix (s p : string) : string :=
  if HasPrefix s p then sdrop (String.length p) s else s.
Definition TrimSuffix (s p : string) : string :=
  if HasSuffix s p then stake (String.length s - String.length p) s else s.

(** [strings.Contains(s, sub)]. *)
Fixpoint Contains_str (s sub : string) : bool :=
  String.prefix sub s ||
  match s with EmptyString => false | String _ s' => Contains_str s' sub end.

Definition contains_char (c : ascii) (s : string) : bool := str_existsb (Ascii.eqb c) s.

(** [strings.IndexByte]: the position of the first [c]. *)
Fixpoint IndexByte (c : ascii) (s : string) : option nat :=
  match s with
  | EmptyString => None
  | String d s' => if Ascii.eqb c d then Some O else S <$> IndexByte c s'
  end.

(** [strings.LastIndex] of a one-byte string. *)
Fixpoint LastIndexByte (c : ascii) (s : string) : option nat :=
  match s with
  | EmptyString => None
  | String d s' =>
      match LastIndexByte c s' with
      | Some n => Some (S n)
      | None => if Ascii.eqb c d then Some O else None
      end
  end.

(** The position of the first character satisfying [p] ([strings.IndexAny]). *)
Fixpoint IndexFunc (p : ascii → bool) (s : string) : option nat :=
  match s with
  | EmptyString => None
  | String d s' => if p d then Some O else S <$> IndexFunc p s'
  end.

(** [strings.TrimLeft] / [strings.TrimRight] with a one-byte cut set. *)
Fixpoint TrimLeft (c : ascii) (s : string) : string :=
  match s with
  | EmptyString => EmptyString
  | String d s' => if Ascii.eqb c d then TrimLeft c s' else s
  end.
Fixpoint TrimRight (c : ascii) (s : string) : string :=
  match s with
  | EmptyString => EmptyString
  | String d s' =>
      let r := TrimRight c s' in
      match r with
      | EmptyString => if Ascii.eqb c d then EmptyString else String d r
      | _ => String d r
      end
  end.

(** ** [unicode/utf8] and [unicode/utf16] *)

(** One continuation byte in the given range. *)
Definition cont (lo hi : Z) (c : ascii) : option Z :=
  if in_range lo hi c then Some (Z.land (code c) 63) else None.

Definition b2 (lo hi : Z) (x : Z) (s : string) : option (Z * nat) :=
  match s with
  | String c1 _ => y ← cont lo hi c1; Some (Z.lor (Z.shiftl x 6) y, 2%nat)
  | _ => None
  end.
Definition b3 (lo hi : Z) (x : Z) (s : string) : option (Z * nat) :=
  match s with
  | String c1 (String c2 _) =>
      y ← cont lo hi c1; z ← cont 128 191 c2;
      Some (Z.lor (Z.shiftl (Z.lor (Z.shiftl x 6) y) 6) z, 3%nat)
  | _ => None
  end.
Definition b4 (lo hi : Z) (x : Z) (s : string) : option (Z * nat) :=
  match s with
  | String c1 (String c2 (String c3 _)) =>
      y ← cont lo hi c1; z ← cont 128 191 c2; w ← cont 128 191 c3;
      Some (Z.lor (Z.shiftl (Z.lor (Z.shiftl (Z.lor (Z.shiftl x 6) y) 6) z) 6) w, 4%nat)
  | _ => None
  end.

(** [utf8.DecodeRuneInString] on a non-empty string: the rune and its width,
    [None] where Go returns [(RuneError, 1)]. *)
Definition decode_rune (s : string) : option (Z * nat) :=
  match s with
  | EmptyString => None
  | String c s' =>
      let b := code c in
      if b <? 128 then Some (b, 1%nat)
      else if b <? 194 then None
      else if b <=? 223 then b2 128 191 (Z.land b 31) s'
      else if b =? 224 then b3 160 191 (Z.land b 15) s'
      else if b =? 237 then b3 128 159 (Z.land b 15) s'
      else if b <=? 239 then b3 128 191 (Z.land b 15) s'
      else if b =? 240 then b4 144 191 (Z.land b 7) s'
      else if b <=? 243 then b4 128 191 (Z.land b 7) s'
      else if b =? 244 then b4 128 143 (Z.land b 7) s'
      else None
  end.

Definition RuneError : Z := 65533.

(** The runes of a string, as a [for _, r := range s] loop sees them; the fuel
    is the length of the string and one step consumes at least one byte. *)
Fixpoint runes_aux (fuel : nat) (s : string) : list (Z * bool) :=
  match fuel, s with
  | S fuel', String _ s' =>
      match decode_rune s with
      | Some (r, n) => (r, true) :: runes_aux fuel' (sdrop n s)
      | None => (RuneError, false) :: runes_aux fuel' s'
      end
  | _, _ => []
  end.
Definition runes (s : string) : list (Z * bool) := runes_aux (String.length s) s.

(** [utf8.ValidString]. *)
Definition ValidString (s : string) : bool := forallb snd (runes s).

(** [utf16.Encode([]rune(s))]. *)
Definition utf16_units (r : Z) : list Z :=
  if r <? 65536 then [r]
  else [55296 + Z.shiftr (r - 65536) 10; 56320 + Z.land (r - 65536) 1023].
Definition utf16_Encode (s : string) : list Z := runes s ≫= (λ rv, utf16_units rv.1).

(** ** [strings.TrimSpace], over [unicode.IsSpace] *)

Definition IsSpace (r : Z) : bool :=
  ((9 <=? r) && (r <=? 13)) || (r =? 32) || (r =? 133) || (r =? 160) || (r =? 5760)
  || ((8192 <=? r) && (r <=? 8202)) || (r =? 8232) || (r =? 8233) || (r =? 8239)
  || (r =? 8287) || (r =? 12288).

Fixpoint trim_left_space (fuel : nat) (s : string) : string :=
  match fuel, decode_rune s with
  | S fuel', Some (r, n) => if IsSpace r then trim_left_space fuel' (sdrop n s) else s
  | _, _ => s
  end.
Fixpoint trim_right_space (fuel : nat) (s : string) : string :=
  match fuel, s with
  | S fuel', String _ _ =>
      let '(r, n) := default (RuneError, 1%nat) (decode_rune s) in
      let rest := trim_right_space fuel' (sdrop n s) in
      if IsSpace r && String.eqb rest EmptyString then EmptyString
      else (stake n s +:+ rest)%string
  | _, _ => s
  end.
Definition TrimSpace (s : string) : string :=
  let n := String.length s in trim_right_space n (trim_left_space n s).

(** ** [strconv] *)

Fixpoint digits_val (acc : Z) (s : string) : Z :=
  match s with
  | EmptyString => acc
  | String c s' => digits_val (10 * acc + (code c - 48)) s'
  end.

Definition max_int64 : Z := 9223372036854775807.
Definition min_int64 : Z := -9223372036854775808.

(** [strconv.Atoi]: the value and whether the error is nil.  A syntax error
    returns 0, a range error the clipped value. *)
Definition Atoi (s : string) : Z * bool :=
  let '(neg, body) :=
    match s with
    | String "-" s' => (true, s')
    | String "+" s' => (false, s')
    | _ => (false, s)
    end%char in
  if String.eqb body EmptyString || negb (str_forallb is_digit body) then (0, false)
  else
    let v := digits_val 0 body in
    let z := if neg then - v else v in
    if z <? min_int64 then (min_int64, false)
    else if max_int64 <? z then (max_int64, false)
    else (z, true).

(** [strconv.Itoa]. *)
Definition Itoa (z : Z) : string := NilZero.string_of_int (Z.to_int z).

Definition hex_digit (z : Z) : ascii := chr (if z <? 10 then 48 + z else 87 + z).

(** [strconv.Quote], the [%q] verb: exact on ASCII text; bytes above 0x7f are
    copied, as Go does for printable runes. *)
Definition quote_char (c : ascii) : string :=
  let z := code c in
  let esc (d : Z) := String "\"%char (String (chr d) EmptyString) in
  if z =? 34 then esc 34 else if z =? 92 then esc 92
  else if z =? 7 then esc 97 else if z =? 8 then esc 98
  else if z =? 12 then esc 102 else if z =? 10 then esc 110
  else if z =? 13 then esc 114 else if z =? 9 then esc 116
  else if z =? 11 then esc 118
  else if (z <? 32) || (z =? 127)
  then String "\"%char (String "x"%char
         (String (hex_digit (Z.shiftr z 4)) (String (hex_digit (Z.land z 15)) EmptyString)))
  else String c EmptyString.
Fixpoint quote_body (s : string) : string :=
  match s with
  | EmptyString => EmptyString
  | String c s' => (quote_char c +:+ quote_body s')%string
  end.
Definition dquote : ascii := chr 34.
Definition Quote (s : string) : string :=
  (String dquote (quote_body s) +:+ String dquote EmptyString)%string.

(** A text between double quotes. *)
Definition quoted (s : string) : string := String dquote (s +:+ String dquote "").

(** ** [sort.Strings] over a deduplicating set *)

(** Sorting a list by a key commutes with a map that keeps the key. *)
Section merge_sort.
Context {A B} (R : relation A) (S : relation B) `{!RelDecision R} `{!RelDecision S}.
Context (f : A → B) (Hf : ∀ x y, R x y ↔ S (f x) (f y)).

Lemma list_merge_fmap l1 l2 : list_merge S (f <$> l1) (f <$> l2) = f <$> list_merge R l1 l2.
Proof.
revert l2. induction l1 as [|x l1 IH1]; intros l2; [by destruct l2|].
induction l2 as [|y l2 IH2]; [done|].
rewrite !fmap_cons, !list_merge_cons. destruct (decide (R x y)) as [E|E].
- rewrite decide_True by (by apply Hf). by rewrite fmap_cons, <- IH1, fmap_cons.
- rewrite decide_False by (by rewrite <- Hf). by rewrite fmap_cons, <- IH2, fmap_cons.
Qed.

Definition stack_map (st : list (option (list A))) : list (option (list B)) :=
map (option_map (map f)) st.

Lemma merge_list_to_stack_fmap st (l : list A) :
merge_list_to_stack S (stack_map st) (f <$> l) = stack_map (merge_list_to_stack R st l).
Proof.
revert l. induction st as [|[l'|] st IH]; intros l; [done| |done].
cbn. rewrite list_merge_fmap. f_equal. apply IH.
Qed.

Lemma merge_stack_fmap st : merge_stack S (stack_map st) = f <$> merge_stack R st.
Proof.
induction st as [|[l|] st IH]; [done| |done].
change (list_merge S (f <$> l) (merge_stack S (stack_map st)) = f <$> list_merge R l (merge_stack R st)).
by rewrite IH, list_merge_fmap.
Qed.

Lemma merge_sort_fmap (l : list A) : merge_sort S (f <$> l) = f <$> merge_sort R l.
Proof.
unfold merge_sort. change (@nil (option (list B))) with (stack_map []).
generalize (@nil (option (list A))). induction l as [|x l IH]; intros st; [apply merge_stack_fmap|].
cbn [merge_sort_aux fmap list_fmap]. rewrite <- (IH (merge_list_to_stack R st [x])).
by rewrite <- merge_list_to_stack_fmap.
Qed.
End merge_sort.

(** [sort.Strings]: bytewise lexicographic order. *)
Definition sort_Strings (l : list string) : list string := merge_sort String.le l.

(** Collect into a [map[string]bool] and sort: the result does not depend on
    the order in which the runtime iterates over the map. *)
Definition sorted_dedup (l : list string) : list string := sort_Strings (remove_dups l).

Lemma sorted_dedup_elem x l : x ∈ sorted_dedup l ↔ x ∈ l.
Proof.
  unfold sorted_dedup, sort_Strings. rewrite merge_sort_Permutation. apply elem_of_remove_dups.
Qed.

Lemma sorted_dedup_NoDup l : NoDup (sorted_dedup l).
Proof.
  unfold sorted_dedup, sort_Strings. rewrite merge_sort_Permutation. apply NoDup_remove_dups.
Qed.

Lemma sorted_dedup_sorted l : Sorted String.le (sorted_dedup l).
Proof. apply (Sorted_merge_sort _). Qed.

(** A sorted duplicate-free list is determined by its elements. *)
Lemma sorted_NoDup_unique l1 l2 :
  Sorted String.le l1 → Sorted String.le l2 → NoDup l1 → NoDup l2 →
  (∀ x, x ∈ l1 ↔ x ∈ l2) → l1 = l2.
Proof.
  intros. apply (Sorted_unique String.le); [done..|]. by apply NoDup_Permutation.
Qed.

Lemma sorted_dedup_ext l1 l2 :
  (∀ x, x ∈ l1 ↔ x ∈ l2) → sorted_dedup l1 = sorted_dedup l2.
Proof.
  intros H. apply sorted_NoDup_unique;
    auto using sorted_dedup_sorted, sorted_dedup_NoDup.
  intros x. by rewrite !sorted_dedup_elem.
Qed.

Lemma sorted_dedup_id l : Sorted String.le l → NoDup l → sorted_dedup l = l.
Proof.
  intros. apply sorted_NoDup_unique;
    auto using sorted_dedup_sorted, sorted_dedup_NoDup, sorted_dedup_elem.
Qed.

Lemma sorted_dedup_nil l : sorted_dedup l = [] ↔ l = [].
Proof.
  split; [|by intros ->]. intros H. destruct l as [|x l]; [done|].
  assert (x ∈ sorted_dedup (x :: l)) as Hx by (apply sorted_dedup_elem; set_solver).
  rewrite H in Hx. inversion Hx.
Qed.

#[export] Hint Resolve sorted_dedup_sorted sorted_dedup_NoDup : go.

(** ** Splitting and joining *)

Lemma Split_cons sep s : ∃ h t, Split sep s = h :: t.
Proof. unfold Split. destruct (split_aux sep s). eauto. Qed.

Lemma Split_not_nil sep s : Split sep s ≠ [].
Proof. destruct (Split_cons sep s) as (? & ? & ->). done. Qed.

Lemma Split_sep sep s : Split sep (String sep s) = EmptyString :: Split sep s.
Proof.
  unfold Split. simpl. destruct (split_aux sep s). by rewrite Ascii.eqb_refl.
Qed.

Lemma Split_char sep c s h t :
  c ≠ sep → Split sep s = h :: t → Split sep (String c s) = String c h :: t.
Proof.
  unfold Split. simpl. destruct (split_aux sep s) as [h' t']. intros Hc ?; simplify_eq.
  by apply Ascii.eqb_neq in Hc as ->.
Qed.

Lemma Join_cons sep x l : l ≠ [] → Join sep (x :: l) = (x +:+ String sep (Join sep l))%string.
Proof. by destruct l. Qed.

Lemma append_cons c s t : (String c s +:+ t)%string = String c (s +:+ t)%string.
Proof. done. Qed.

Lemma str_app_assoc s t u : (s +:+ t +:+ u) = ((s +:+ t) +:+ u).
Proof. induction s as [|c s IH]; [done|]. by rewrite !append_cons, IH. Qed.

Lemma str_length_app s t : String.length (s +:+ t) = (String.length s + String.length t)%nat.
Proof. induction s as [|c s IH]; [done|]. rewrite append_cons. simpl. by rewrite IH. Qed.

Lemma sdrop_length n s : (String.length (sdrop n s) = String.length s - n)%nat.
Proof. revert s. induction n as [|n IH]; intros [|c s]; cbn; [done..|apply IH]. Qed.

Lemma stake_sdrop n s : stake n s +:+ sdrop n s = s.
Proof. revert s. induction n as [|n IH]; intros [|c s]; cbn; [done..|]. rewrite append_cons. by rewrite IH. Qed.

Lemma sdrop_app u t : sdrop (String.length u) (u +:+ t) = t.
Proof. by induction u. Qed.

Lemma stake_app u t : stake (String.length u) (u +:+ t) = u.
Proof. induction u as [|c u IH]; [done|]. rewrite append_cons. cbn. by rewrite IH. Qed.

(** [strings.Join(strings.Split(s, sep), sep) == s]. *)
Lemma Join_Split sep s : Join sep (Split sep s) = s.
Proof.
  induction s as [|c s IH]; [done|].
  destruct (Split_cons sep s) as (h & t & E).
  destruct (decide (c = sep)) as [->|Hc].
  - rewrite Split_sep, Join_cons by apply Split_not_nil. by rewrite IH.
  - rewrite (Split_char _ _ _ _ _ Hc E). rewrite E in IH. rewrite <- IH. clear.
    destruct t; [done|]. rewrite !Join_cons by done. apply append_cons.
Qed.

Lemma Split_inj sep s1 s2 : Split sep s1 = Split sep s2 → s1 = s2.
Proof. intros H. by rewrite <- (Join_Split sep s1), <- (Join_Split sep s2), H. Qed.

(** A string without the separator. *)
Definition no_sep (sep : ascii) (s : string) : Prop := contains_char sep s = false.

Lemma Split_no_sep sep s : Forall (no_sep sep) (Split sep s).
Proof.
  unfold no_sep, contains_char. induction s as [|c s IH]; [by repeat constructor|].
  destruct (Split_cons sep s) as (h & t & E). rewrite E in IH.
  destruct (decide (c = sep)) as [->|Hc].
  - rewrite Split_sep, E. by constructor.
  - rewrite (Split_char _ _ _ _ _ Hc E). inversion IH; subst. constructor; [|done].
    simpl. apply orb_false_iff. split; [|done]. apply Ascii.eqb_neq. congruence.
Qed.

Lemma Split_app sep x s : no_sep sep x → Split sep (x +:+ String sep s) = x :: Split sep s.
Proof.
  unfold no_sep, contains_char. induction x as [|c x IH]; simpl; intros H.
  - apply Split_sep.
  - go_bool. rewrite append_cons. apply Split_char; [|by apply IH].
    intros ->. by rewrite Ascii.eqb_refl in *.
Qed.

Lemma Split_single sep x : no_sep sep x → Split sep x = [x].
Proof.
  unfold no_sep, contains_char. induction x as [|c x IH]; simpl; intros H; [done|].
  go_bool. apply Split_char; [|by apply IH]. intros ->. by rewrite Ascii.eqb_refl in *.
Qed.

(** [strings.Split(strings.Join(l, sep), sep)] gives the parts back. *)
Lemma Split_Join sep l : l ≠ [] → Forall (no_sep sep) l → Split sep (Join sep l) = l.
Proof.
  intros Hl H. induction H as [|x l Hx Hf IH]; [done|].
  destruct (decide (l = [])) as [->|Hne].
  - by apply Split_single.
  - rewrite Join_cons by done. rewrite Split_app by done. by rewrite IH.
Qed.

(** ** Prefixes *)

Lemma HasPrefix_app s p : HasPrefix s p = true ↔ ∃ t, s = p +:+ t.
Proof.
  unfold HasPrefix. revert s. induction p as [|c p IH]; intros s.
  - destruct s; cbn; naive_solver.
  - destruct s as [|d s]; cbn; [naive_solver|]. destruct (ascii_dec c d) as [->|Hne].
    + rewrite IH. split; intros [t Ht]; exists t; [by rewrite Ht|]. by injection Ht.
    + split; [done|]. intros [t Ht]. by injection Ht.
Qed.

Lemma TrimPrefix_app p t : TrimPrefix (p +:+ t) p = t.
Proof.
  unfold TrimPrefix. rewrite (proj2 (HasPrefix_app (p +:+ t) p)) by eauto.
  induction p as [|c p IH]; [done|]. cbn [String.length sdrop]. exact IH.
Qed.
