(* ===== verification/Regex.v ===== *)
(** * Regular expressions

    Go's [regexp.MatchString] on an anchored pattern [^...$], by Brzozowski
    derivatives, with the theorem that the matcher decides the language of the
    expression.  The patterns of the modelled code are values of [re]. *)

From S2P Require Import Prelude GoStrings.

Inductive re :=
  | Void
  | Eps
  | Chr (p : ascii → bool)
  | Cat (r1 r2 : re)
  | Alt (r1 r2 : re)
  | Star (r : re).

(** Pattern combinators: [lit "x"], [r+], [r?], [r{n}], [r{1,3}]. *)
Fixpoint lit (s : string) : re :=
  match s with
  | EmptyString => Eps
  | String c EmptyString => Chr (Ascii.eqb c)
  | String c s' => Cat (Chr (Ascii.eqb c)) (lit s')
  end.
Definition Plus (r : re) : re := Cat r (Star r).
Definition Opt (r : re) : re := Alt r Eps.
Fixpoint Rep (n : nat) (r : re) : re :=
  match n with O => Eps | S n' => Cat r (Rep n' r) end.
Definition digit : re := Chr is_digit.

Fixpoint nullable (r : re) : bool :=
  match r with
  | Void | Chr _ => false
  | Eps | Star _ => true
  | Cat r1 r2 => nullable r1 && nullable r2
  | Alt r1 r2 => nullable r1 || nullable r2
  end.

(** Smart constructors keep derivatives small. *)
Definition cat (r1 r2 : re) : re :=
  match r1, r2 with
  | Void, _ | _, Void => Void
  | Eps, r => r
  | _, _ => Cat r1 r2
  end.
Definition alt (r1 r2 : re) : re :=
  match r1, r2 with
  | Void, r | r, Void => r
  | _, _ => Alt r1 r2
  end.

Fixpoint deriv (c : ascii) (r : re) : re :=
  match r with
  | Void | Eps => Void
  | Chr p => if p c then Eps else Void
  | Cat r1 r2 =>
      if nullable r1 then alt (cat (deriv c r1) r2) (deriv c r2) else cat (deriv c r1) r2
  | Alt r1 r2 => alt (deriv c r1) (deriv c r2)
  | Star r' => cat (deriv c r') (Star r')
  end.

(** [regexp.MustCompile("^r$").MatchString(s)]. *)
Fixpoint matches (r : re) (s : string) : bool :=
  match s with
  | EmptyString => nullable r
  | String c s' => matches (deriv c r) s'
  end.

(** ** The language of an expression *)

Inductive lang : re → string → Prop :=
  | lang_eps : lang Eps EmptyString
  | lang_chr p c : p c = true → lang (Chr p) (String c EmptyString)
  | lang_cat r1 r2 s1 s2 : lang r1 s1 → lang r2 s2 → lang (Cat r1 r2) (s1 +:+ s2)%string
  | lang_alt_l r1 r2 s : lang r1 s → lang (Alt r1 r2) s
  | lang_alt_r r1 r2 s : lang r2 s → lang (Alt r1 r2) s
  | lang_star_nil r : lang (Star r) EmptyString
  | lang_star r s1 s2 : lang r s1 → lang (Star r) s2 → lang (Star r) (s1 +:+ s2)%string.

#[local] Hint Constructors lang : core.

Lemma str_app_nil s : (s +:+ EmptyString)%string = s.
Proof. induction s as [|c s IH]; [done|]. by rewrite append_cons, IH. Qed.

Lemma str_app_empty s1 s2 :
  (s1 +:+ s2)%string = EmptyString → s1 = EmptyString ∧ s2 = EmptyString.
Proof. by destruct s1. Qed.

Lemma nullable_lang r : nullable r = true ↔ lang r EmptyString.
Proof.
  split.
  - induction r; simpl; intros H; try done; auto; go_bool.
    + change EmptyString with (EmptyString +:+ EmptyString)%string. auto.
    + apply orb_true_iff in H as [?|?]; auto.
  - remember EmptyString as s eqn:E. intros H. revert E.
    induction H; intros E; simpl; try done.
    + apply str_app_empty in E as [-> ->]. by rewrite IHlang1, IHlang2.
    + by rewrite IHlang.
    + rewrite IHlang by done. apply orb_true_r.
Qed.

Lemma cat_lang r1 r2 s : lang (cat r1 r2) s ↔ lang (Cat r1 r2) s.
Proof.
  assert (∀ s, lang r2 s ↔ lang (Cat Eps r2) s) as HE.
  { intros s'. split.
    - intros H. change s' with (EmptyString +:+ s')%string. auto.
    - inversion 1 as [|?| ? ? ? ? He| | | |]; subst. by inversion He. }
  assert (∀ r s, lang (Cat Void r) s ↔ lang Void s) as HV1.
  { split; inversion 1 as [|?| ? ? ? ? He| | | |]; subst. inversion He. }
  assert (∀ r s, lang (Cat r Void) s ↔ lang Void s) as HV2.
  { split; inversion 1 as [|?| ? ? ? ? _ He| | | |]; subst. inversion He. }
  destruct r1, r2; simpl; try done; by rewrite ?HV1, ?HV2, <-?HE.
Qed.

Lemma alt_lang r1 r2 s : lang (alt r1 r2) s ↔ lang r1 s ∨ lang r2 s.
Proof.
  assert (∀ s, ¬ lang Void s) as HV by (intros ? H; inversion H).
  assert (lang (Alt r1 r2) s ↔ lang r1 s ∨ lang r2 s) as HA.
  { split; [inversion 1; subst; auto|intros [?|?]; auto]. }
  destruct r1, r2; simpl; try done; naive_solver.
Qed.

Lemma star_cons r c s :
  lang (Star r) (String c s) →
  ∃ s1 s2, s = (s1 +:+ s2)%string ∧ lang r (String c s1) ∧ lang (Star r) s2.
Proof.
  remember (Star r) as R eqn:ER. remember (String c s) as S eqn:ES. intros H.
  revert r c s ER ES. induction H as [| | | | | |r s1 s2 H1 _ H2 IH2]; intros; simplify_eq.
  destruct s1 as [|c1 s1].
  - by apply (IH2 _ _ _ eq_refl).
  - rewrite append_cons in ES. simplify_eq. eauto.
Qed.

Lemma deriv_lang r c s : lang (deriv c r) s ↔ lang r (String c s).
Proof.
  revert s. induction r as [| |p|r1 IH1 r2 IH2|r1 IH1 r2 IH2|r IH]; intros s; simpl.
  - split; inversion 1.
  - split; inversion 1.
  - destruct (p c) eqn:E; split; intros H; inversion H; subst; auto. congruence.
  - assert (lang (Cat (deriv c r1) r2) s ∨ (lang r1 EmptyString ∧ lang r2 (String c s))
            ↔ lang (Cat r1 r2) (String c s)) as HC.
    { split.
      - intros [H|[Hn H]].
        + inversion H as [| |? ? s1 s2 H1 H2| | | |]; subst.
          rewrite <- append_cons. apply lang_cat; [by apply IH1|done].
        + change (String c s) with (EmptyString +:+ String c s)%string. auto.
      - inversion 1 as [| |? ? s1 s2 H1 H2 E| | | |]; subst.
        destruct s1 as [|c1 s1]; [by right|]. rewrite append_cons in H3. simplify_eq.
        left. apply lang_cat; [by apply IH1|done]. }
    rewrite <- HC. destruct (nullable r1) eqn:Hn.
    + rewrite alt_lang, cat_lang, IH2. apply nullable_lang in Hn. naive_solver.
    + rewrite cat_lang. assert (¬ lang r1 EmptyString); [|naive_solver].
      rewrite <- nullable_lang. congruence.
  - rewrite alt_lang, IH1, IH2. split; [intros [?|?]; auto|inversion 1; auto].
  - rewrite cat_lang. split.
    + inversion 1 as [| |? ? s1 s2 H1 H2| | | |]; subst.
      rewrite <- append_cons. apply lang_star; [by apply IH|done].
    + intros (s1 & s2 & -> & H1 & H2)%star_cons. apply lang_cat; [by apply IH|done].
Qed.

(** The matcher decides the language of the pattern. *)
Lemma matches_lang r s : matches r s = true ↔ lang r s.
Proof.
  revert r. induction s as [|c s IH]; intros r; simpl.
  - apply nullable_lang.
  - by rewrite IH, deriv_lang.
Qed.

(** ** The characters of an expression *)

(** Every character class of the expression lies within [q]. *)
Fixpoint re_within (q : ascii → bool) (r : re) : bool :=
  match r with
  | Void | Eps => true
  | Chr p => forallb (λ n, negb (p (chr (Z.of_nat n))) || q (chr (Z.of_nat n))) (seq 0 256)
  | Cat r1 r2 | Alt r1 r2 => re_within q r1 && re_within q r2
  | Star r => re_within q r
  end.

Lemma str_forallb_app q s t : str_forallb q (s +:+ t) = str_forallb q s && str_forallb q t.
Proof. induction s as [|c s IH]; [done|]. rewrite append_cons. cbn. by rewrite IH, andb_assoc. Qed.

Lemma chr_class_within q p c : re_within q (Chr p) = true → p c = true → q c = true.
Proof.
  cbn [re_within]. rewrite forallb_forall. intros Hr Hp. pose proof (code_range c) as Hc.
  specialize (Hr (Z.to_nat (code c)) ltac:(apply in_seq; lia)).
  by rewrite Z2Nat.id, chr_code, Hp in Hr by lia.
Qed.

Lemma re_within_lang q r s : re_within q r = true → lang r s → str_forallb q s = true.
Proof.
  intros Hr H. induction H as [|p c Hp|r1 r2 s1 s2 _ IH1 _ IH2|r1 r2 s _ IH|r1 r2 s _ IH|r|r s1 s2 _ IH1 _ IH2].
  - done.
  - cbn [str_forallb]. by rewrite (chr_class_within q p).
  - cbn [re_within] in Hr. go_bool. rewrite str_forallb_app, IH1, IH2; done.
  - cbn [re_within] in Hr. go_bool. auto.
  - cbn [re_within] in Hr. go_bool. auto.
  - done.
  - rewrite str_forallb_app, IH1, IH2; done.
Qed.
