(* ===== verification/GoFloat.v ===== *)
(** * IEEE-754 floating point as Go uses it

    [float64] (and [float32]) values are the [spec_float]s of the Standard
    Library: every operation below computes the correctly rounded result on
    integers.  The decimal conversions are those of [strconv.ParseFloat] and
    [strconv.FormatFloat(f, 'e', -1, bits)]: the nearest binary value of a
    decimal, and the shortest decimal that reads back as the same value. *)

From Stdlib Require Import Floats.SpecFloat.
From S2P Require Import Prelude GoStrings.

Definition float64 := spec_float.
#[global] Instance spec_float_eq_dec : EqDecision spec_float.
Proof. solve_decision. Defined.

(** Formats: precision and largest exponent. *)
Record fmt := Fmt { f_prec : Z; f_emax : Z }.
Definition binary64 : fmt := Fmt 53 1024.
Definition binary32 : fmt := Fmt 24 128.

Definition fzero : float64 := S754_zero false.
Definition of_Z (z : Z) : float64 := binary_normalize 53 1024 z 0 false.

Definition flt (a b : float64) : bool := SFltb a b.
Definition fgt (a b : float64) : bool := SFltb b a.
Definition fle (a b : float64) : bool := SFleb a b.
Definition feq (a b : float64) : bool := SFeqb a b.
Definition fabs (a : float64) : float64 := SFabs a.
Definition fdiv (a b : float64) : float64 := SFdiv 53 1024 a b.
Definition fmul (a b : float64) : float64 := SFmul 53 1024 a b.

Definition IsNaN (a : float64) : bool := match a with S754_nan => true | _ => false end.
Definition IsInf (a : float64) : bool := match a with S754_infinity _ => true | _ => false end.
Definition isFinite (a : float64) : bool := negb (IsNaN a) && negb (IsInf a).
Definition Signbit (a : float64) : bool :=
  match a with S754_zero s | S754_infinity s | S754_finite s _ _ => s | S754_nan => false end.

(** [math.Trunc]: the bits below the point are cleared. *)
Definition Trunc (a : float64) : float64 :=
  match a with
  | S754_finite s m e =>
      if 0 <=? e then a
      else match Z.pos m / 2 ^ (- e) * 2 ^ (- e) with
           | Z.pos q => S754_finite s q e
           | _ => S754_zero s
           end
  | _ => a
  end.

(** ** Decimal to binary *)

(** The value [±m * 10^e] rounded to the nearest value of the format.  The
    exponent is clipped first: outside the window the result is an infinity or
    a zero in both formats. *)
Definition num_digits10 (m : Z) : Z := Z.of_nat (String.length (Itoa m)).
Definition dec_to_float (f : fmt) (neg : bool) (m e : Z) : float64 :=
  match m with
  | Z.pos p =>
      if 400 <? num_digits10 m + e then S754_infinity neg
      else if num_digits10 m + e <? -400 then S754_zero neg
      else if 0 <=? e then
        match m * 10 ^ e with
        | Z.pos q => binary_round (f_prec f) (f_emax f) neg q 0
        | _ => S754_zero neg
        end
      else
        let '(mz, ez, lz) := SFdiv_core_binary (f_prec f) (f_emax f) m 0 (10 ^ (- e)) 0 in
        binary_round_aux (f_prec f) (f_emax f) neg mz ez lz
  | _ => S754_zero neg
  end.

(** A decimal literal: sign, integer mantissa and decimal exponent. *)
Record decimal := Decimal { d_neg : bool; d_mant : Z; d_exp : Z }.

(** Splits [s] into its leading digits and the rest. *)
Fixpoint take_digits (s : string) : string * string :=
  match s with
  | String c s' =>
      if is_digit c then let '(d, r) := take_digits s' in (String c d, r) else (EmptyString, s)
  | EmptyString => (EmptyString, EmptyString)
  end.

(** The exponent suffix [[eE][+-]?[0-9]+] or nothing. *)
Definition read_exp (s : string) : option Z :=
  match s with
  | EmptyString => Some 0
  | String c s' =>
      if (code c =? 101) || (code c =? 69) then
        let '(neg, body) :=
          match s' with
          | String "-" t => (true, t)
          | String "+" t => (false, t)
          | _ => (false, s')
          end%char in
        if String.eqb body EmptyString || negb (str_forallb is_digit body) then None
        else Some (if neg then - digits_val 0 body else digits_val 0 body)
      else None
  end.

(** Reads [[+-]? digits [. digits]? exponent?]; at least one digit. *)
Definition read_decimal (s : string) : option decimal :=
  let '(neg, body) :=
    match s with
    | String "-" t => (true, t)
    | String "+" t => (false, t)
    | _ => (false, s)
    end%char in
  let '(ip, rest) := take_digits body in
  let '(fp, rest) :=
    match rest with
    | String "." t => take_digits t
    | _ => (EmptyString, rest)
    end%char in
  if String.eqb ip EmptyString && String.eqb fp EmptyString then None
  else e ← read_exp rest;
       Some (Decimal neg (digits_val 0 (ip +:+ fp)%string) (e - Z.of_nat (String.length fp))).

(** [strconv.ParseFloat(s, 64)] on decimal literals: [None] is an error, the
    range error of an overflowing literal included. *)
Definition ParseFloat (s : string) : option float64 :=
  d ← read_decimal s;
  let v := dec_to_float binary64 (d_neg d) (d_mant d) (d_exp d) in
  if isFinite v then Some v else None.

(** ** Binary to shortest decimal *)

(** [floor(m * 2^e * 10^k)] and whether the product is exactly an integer, less
    than, equal to or greater than half way to the next one. *)
Definition scaled (m e k : Z) : Z * Z * Z :=
  let num := m * (if 0 <=? e then 2 ^ e else 1) * (if 0 <=? k then 10 ^ k else 1) in
  let den := (if 0 <=? e then 1 else 2 ^ (- e)) * (if 0 <=? k then 1 else 10 ^ (- k)) in
  (num / den, num mod den, den).

(** The decimal exponent [x] with [10^(x-1) <= m * 2^e < 10^x], searched
    upwards from an underestimate ([fuel] steps are enough: the estimate is
    within two of the answer). *)
Fixpoint find_exp10 (fuel : nat) (m e x : Z) : Z :=
  match fuel with
  | O => x
  | S fuel' =>
      let '(q, _, _) := scaled m e (- x) in
      if q =? 0 then x else find_exp10 fuel' m e (x + 1)
  end.
Definition exp10_of (m e : Z) : Z :=
  find_exp10 8 m e ((Z.log2 m + e) * 30103 / 100000 - 1).

(** The candidates with [n] significant digits that read back as the value:
    the nearer one, ties to even. *)
Definition shortest_at (f : fmt) (m e x : Z) (n : nat) : option Z :=
  let k := Z.of_nat n - x in
  let '(lo, r, den) := scaled m e k in
  let back d := match dec_to_float f false d (- k) with
                | S754_finite false m' e' => (Z.pos m' =? m) && (e' =? e)
                | _ => false
                end in
  let okl := back lo in let okh := back (lo + 1) in
  if okl && okh then
    Some (match Z.compare (2 * r) den with
          | Lt => lo | Gt => lo + 1 | Eq => if Z.even lo then lo else lo + 1 end)
  else if okl then Some lo else if okh then Some (lo + 1) else None.

Fixpoint shortest_from (fuel : nat) (f : fmt) (m e x : Z) (n : nat) : Z * Z :=
  match fuel with
  | O => let '(q, _, _) := scaled m e (17 - x) in (q, x - 17)
  | S fuel' =>
      match shortest_at f m e x n with
      | Some d => (d, x - Z.of_nat n)
      | None => shortest_from fuel' f m e x (S n)
      end
  end.

(** Drops the trailing zeros of the digits. *)
Fixpoint strip_zeros (fuel : nat) (d p : Z) : Z * Z :=
  match fuel with
  | O => (d, p)
  | S fuel' => if d mod 10 =? 0 then strip_zeros fuel' (d / 10) (p + 1) else (d, p)
  end.

(** [strconv.FormatFloat(|v|, 'e', -1, bits)] as digits and exponent: the value
    is [d * 10^p] and [d] does not end in a zero.  Seventeen digits identify
    every [float64]. *)
Definition shortest (f : fmt) (m : positive) (e : Z) : Z * Z :=
  let '(d, p) := shortest_from 17 f (Z.pos m) e (exp10_of (Z.pos m) e) 1 in
  strip_zeros 18 d p.

(** ** The order on floats *)

(** [SFcompare] is the lexicographic order on this key. *)
Definition fkey (a : float64) : Z * Z * Z :=
  match a with
  | S754_infinity false => (2, 0, 0)
  | S754_infinity true => (-2, 0, 0)
  | S754_zero _ | S754_nan => (0, 0, 0)
  | S754_finite false m e => (1, e, Z.pos m)
  | S754_finite true m e => (-1, - e, - Z.pos m)
  end.

Definition lexlt (a b : Z * Z * Z) : Prop :=
  let '(a1, a2, a3) := a in let '(b1, b2, b3) := b in
  a1 < b1 ∨ (a1 = b1 ∧ (a2 < b2 ∨ (a2 = b2 ∧ a3 < b3))).

Lemma flt_lex a b :
  flt a b = true ↔ IsNaN a = false ∧ IsNaN b = false ∧ lexlt (fkey a) (fkey b).
Proof.
  unfold flt, SFltb.
  destruct a as [[]|[]| |[] m1 e1], b as [[]|[]| |[] m2 e2]; simpl;
    try (split; [intros; try done; repeat split; lia | intros (? & ? & ?); try done; lia]).
  all: destruct (Z.compare_spec e1 e2); subst; simpl;
    change (Pos.compare_cont Eq m1 m2) with (Pos.compare m1 m2) in *;
    try (destruct (Pos.compare_spec m1 m2); subst; simpl);
    (split; [intros; try done; repeat split; lia | intros (? & ? & ?); try done; lia]).
Qed.

(** [¬ (a > b)] composes through a middle value that is not NaN: the comparison
    the code uses for upper bounds is transitive there. *)
Lemma not_fgt_trans a b c :
  IsNaN b = false → fgt a b = false → fgt b c = false → fgt a c = false.
Proof.
  unfold fgt. intros Hb H1 H2. apply not_true_iff_false. intros H3.
  apply flt_lex in H3 as (Hc & Ha & H3).
  apply not_true_iff_false in H1, H2. rewrite flt_lex in H1, H2.
  assert (¬ lexlt (fkey b) (fkey a)) as N1 by naive_solver.
  assert (¬ lexlt (fkey c) (fkey b)) as N2 by naive_solver.
  destruct (fkey a) as [[??]?], (fkey b) as [[??]?], (fkey c) as [[??]?].
  unfold lexlt in *. lia.
Qed.

Lemma fgt_flip a b : fgt a b = flt b a.
Proof. done. Qed.

Lemma not_fgt_refl a : fgt a a = false.
Proof.
  apply not_true_iff_false. unfold fgt. rewrite flt_lex. intros (_ & _ & H).
  destruct (fkey a) as [[??]?]. unfold lexlt in H. lia.
Qed.

Lemma flt_fgt_false a b : flt a b = true → fgt a b = false.
Proof.
  rewrite flt_lex. intros (_ & _ & H). apply not_true_iff_false. unfold fgt.
  rewrite flt_lex. intros (_ & _ & H').
  destruct (fkey a) as [[??]?], (fkey b) as [[??]?]. unfold lexlt in *. lia.
Qed.

#[export] Hint Resolve not_fgt_refl flt_fgt_false : go.

(** ** Rounding never yields NaN *)

Definition nonneg_rec (r : shr_record) : Prop := 0 <= shr_m r.

Lemma shr_1_nonneg r : nonneg_rec r → nonneg_rec (shr_1 r).
Proof. destruct r as [[|[]|[]] ? ?]; unfold nonneg_rec; simpl; lia. Qed.

Lemma iter_pos_nonneg (p : positive) r : nonneg_rec r → nonneg_rec (SpecFloat.iter_pos shr_1 p r).
Proof. revert r. induction p; simpl; auto using shr_1_nonneg. Qed.

Lemma shr_fexp_nonneg prec emax m e l :
  0 <= m → nonneg_rec (shr_fexp prec emax m e l).1.
Proof.
  intros Hm. unfold shr_fexp, shr.
  assert (nonneg_rec (shr_record_of_loc m l)) by (by destruct l as [|[]]).
  case_match; simpl; auto using iter_pos_nonneg.
Qed.

Lemma binary_round_aux_not_nan prec emax s m e l :
  0 <= m → IsNaN (binary_round_aux prec emax s m e l) = false.
Proof.
  intros Hm. unfold binary_round_aux.
  pose proof (shr_fexp_nonneg prec emax m e l Hm) as H1.
  destruct (shr_fexp prec emax m e l) as [r1 e1]. simpl in H1.
  assert (0 <= round_nearest_even (shr_m r1) (loc_of_shr_record r1)) as H2.
  { unfold round_nearest_even, nonneg_rec in *. repeat case_match; lia. }
  pose proof (shr_fexp_nonneg prec emax _ e1 loc_Exact H2) as H3.
  destruct (shr_fexp _ _ _ e1 loc_Exact) as [r2 e2]. simpl in H3. unfold nonneg_rec in H3.
  destruct (shr_m r2); [done| |lia]. by case_match.
Qed.

Lemma of_Z_not_nan z : IsNaN (of_Z z) = false.
Proof.
  unfold of_Z, binary_normalize, binary_round. destruct z; [done| |];
    case_match; apply binary_round_aux_not_nan; lia.
Qed.

(** ** Sanity checks against known values *)

Example parse_tenth : ParseFloat "0.1" = Some (S754_finite false 7205759403792794 (-56)).
Proof. vm_compute. reflexivity. Qed.
Example parse_overflow : ParseFloat "1e400" = None.
Proof. vm_compute. reflexivity. Qed.
Example shortest_tenth : shortest binary64 7205759403792794 (-56) = (1, -1).
Proof. vm_compute. reflexivity. Qed.
Example shortest_denormal : shortest binary64 1 (-1074) = (5, -324).
Proof. vm_compute. reflexivity. Qed.
Example shortest_third :
  (λ v, match v with Some (S754_finite _ m e) => shortest binary64 m e | _ => (0, 0) end)
    (ParseFloat "0.3333333333333333") = (3333333333333333, -16).
Proof. vm_compute. reflexivity. Qed.
Example shortest_max :
  (λ v, match v with Some (S754_finite _ m e) => shortest binary64 m e | _ => (0, 0) end)
    (ParseFloat "1.7976931348623157e308") = (17976931348623157, 292).
Proof. vm_compute. reflexivity. Qed.
Example shortest_even_tie :
  (λ v, match v with Some (S754_finite _ m e) => shortest binary64 m e | _ => (0, 0) end)
    (ParseFloat "1125899906842624.25") = (11258999068426242, -1).
Proof. vm_compute. reflexivity. Qed.
