(* ===== verification/GoTime.v ===== *)
(** * Instants and durations

    The parts of Go's [time] package the code uses: a [time.Time] is the number of
    nanoseconds since the zero time, a [time.Duration] is an int64. *)

From S2P Require Import Prelude GoStrings GoFloat.

(** ** Machine integers and instants *)

(** Two's complement wrap-around of an int64. *)
Definition wrap64 (z : Z) : Z := (z + 2 ^ 63) mod 2 ^ 64 - 2 ^ 63.

Definition Time := Z.
Definition IsZero (t : Time) : bool := t =? 0.
Definition After (t u : Time) : bool := u <? t.

(** [t.Sub(u)] saturates at the limits of a Duration. *)
Definition Sub (t u : Time) : Z := Z.min max_int64 (Z.max min_int64 (t - u)).

Definition Second : Z := 1000000000.

(** [time.Duration(n) * time.Second]. *)
Definition seconds (n : Z) : Z := wrap64 (n * Second).

(** ** [time.Parse(time.RFC3339, s)] *)

(** [getnum(s, true)] and, for the hour, [getnum(s, false)]: two digits, or one
    digit where the width is not fixed. *)
Definition digit_of (c : ascii) : option Z := if is_digit c then Some (code c - 48) else None.
Definition getnum (fixed : bool) (s : string) : option (Z * string) :=
  match s with
  | String a rest =>
      x ← digit_of a;
      match rest with
      | String b rest' =>
          match digit_of b with
          | Some y => Some (10 * x + y, rest')
          | None => if fixed then None else Some (x, rest)
          end
      | EmptyString => if fixed then None else Some (x, rest)
      end
  | EmptyString => None
  end.

Definition skip_char (c : ascii) (s : string) : option string :=
  match s with String c' s' => if Ascii.eqb c c' then Some s' else None | EmptyString => None end.

(** Four digits of a year. *)
Definition getyear (s : string) : option (Z * string) :=
  '(a, s) ← getnum true s; '(b, s) ← getnum true s; Some (100 * a + b, s).

Definition is_leap (y : Z) : bool := (y mod 4 =? 0) && (negb (y mod 100 =? 0) || (y mod 400 =? 0)).
Definition daysIn (m y : Z) : Z :=
  if m =? 2 then (if is_leap y then 29 else 28)
  else if (m =? 4) || (m =? 6) || (m =? 9) || (m =? 11) then 30 else 31.

(** A fraction of a second, which the layout does not mention but the parser
    accepts: a period or comma followed by at least one digit, of which nine
    count. *)
Definition fraction (s : string) : Z * string :=
  match s with
  | String c (String d _ as rest) =>
      if (Ascii.eqb c "." || Ascii.eqb c ",") && is_digit d then
        let '(ds, rest') := take_digits rest in
        let n := stake 9 ds in
        (digits_val 0 n * 10 ^ (9 - Z.of_nat (String.length n)), rest')
      else (0, s)
  | _ => (0, s)
  end.

(** The zone: [Z], or a signed hour and minute; the offset in seconds. *)
Definition zone_offset (s : string) : option (Z * string) :=
  match s with
  | String sign rest =>
      if Ascii.eqb sign "Z" then Some (0, rest) else
      '(hr, rest) ← getnum true rest;
      rest ← skip_char ":" rest;
      '(mm, rest) ← getnum true rest;
      if (24 <? hr) || (60 <? mm) then None
      else if Ascii.eqb sign "+" then Some ((hr * 60 + mm) * 60, rest)
      else if Ascii.eqb sign "-" then Some (- ((hr * 60 + mm) * 60), rest)
      else None
  | EmptyString => None
  end.

(** The fields of a parsed instant; the offset is in seconds. *)
Record civil := mkCivil {
  cv_year : Z; cv_month : Z; cv_day : Z; cv_hour : Z; cv_min : Z; cv_sec : Z; cv_nsec : Z; cv_off : Z
}.

Definition parse_rfc3339 (s : string) : option civil :=
  '(year, s) ← getyear s; s ← skip_char "-" s;
  '(month, s) ← getnum true s;
  if (month <? 1) || (12 <? month) then None else
  s ← skip_char "-" s; '(day, s) ← getnum true s; s ← skip_char "T" s;
  '(hour, s) ← getnum false s;
  if 24 <=? hour then None else
  s ← skip_char ":" s; '(min, s) ← getnum true s;
  if 60 <=? min then None else
  s ← skip_char ":" s; '(sec, s) ← getnum true s;
  if 60 <=? sec then None else
  let '(nsec, s) := fraction s in
  '(off, rest) ← zone_offset s;
  if negb (String.eqb rest "") then None
  else if (day <? 1) || (daysIn month year <? day) then None
  else Some (mkCivil year month day hour min sec nsec off).

(** The second of the UTC day. *)
Definition rfc3339_sod (s : string) : option Z :=
  c ← parse_rfc3339 s; Some ((cv_hour c * 3600 + cv_min c * 60 + cv_sec c - cv_off c) mod 86400).

(** Days from 1 January of year 1 to a date. *)
Definition days_before_month (m y : Z) : Z :=
  fold_left (λ acc i, acc + daysIn (Z.of_nat i) y) (seq 1 (Z.to_nat (m - 1))) 0.
Definition days_to (y m d : Z) : Z :=
  let p := y - 1 in 365 * p + p / 4 - p / 100 + p / 400 + days_before_month m y + (d - 1).

(** The instant, in nanoseconds since the zero time. *)
Definition rfc3339_time (s : string) : option Time :=
  c ← parse_rfc3339 s;
  Some ((days_to (cv_year c) (cv_month c) (cv_day c) * 86400
         + cv_hour c * 3600 + cv_min c * 60 + cv_sec c - cv_off c) * Second + cv_nsec c).

Example instant_utc : rfc3339_sod "2026-02-28T09:30:05Z" = Some 34205.
Proof. reflexivity. Qed.
Example instant_zone : rfc3339_sod "2024-02-29T00:15:00.25+01:00" = Some 83700.
Proof. reflexivity. Qed.
Example instant_bad_day : rfc3339_sod "2026-02-29T09:30:05Z" = None.
Proof. reflexivity. Qed.

Example instant_epoch : rfc3339_time "1970-01-01T00:00:00Z" = Some (62135596800 * Second).
Proof. reflexivity. Qed.
Example instant_fraction : rfc3339_time "2000-03-01T00:00:00.5+00:30" = Some (63087463800 * Second + 500000000).
Proof. reflexivity. Qed.
