(* ===== verification/FloatInt.v ===== *)
(** * Integers in binary64

    Every integer of magnitude below 2^53 is represented exactly by a float64,
    so that the comparisons the code makes on float64 values decide the order of
    the integers. *)

From Stdlib Require Import Floats.SpecFloat.
From S2P Require Import Prelude GoStrings GoFloat.

Definition exact_int (z : Z) : Prop := Z.abs z < 2 ^ 53.

(** ** Bit lengths *)

Lemma digits2_pos_bounds p : 2 ^ (Z.pos (digits2_pos p) - 1) <= Z.pos p < 2 ^ Z.pos (digits2_pos p).
Proof.
  induction p as [p IH|p IH|]; [| |done].
  all: cbn [digits2_pos]; rewrite Pos2Z.inj_succ;
    replace (Z.succ (Z.pos (digits2_pos p)) - 1) with (Z.succ (Z.pos (digits2_pos p) - 1)) by lia;
    rewrite !Z.pow_succ_r by lia; lia.
Qed.

Lemma digits2_pos_iter p n : digits2_pos (Pos.iter xO p n) = (n + digits2_pos p)%positive.
Proof.
  induction n as [|n IH] using Pos.peano_ind; [simpl; lia|].
  rewrite Pos.iter_succ. cbn [digits2_pos]. rewrite IH. lia.
Qed.

Lemma iter_xO_value p n : Z.pos (Pos.iter xO p n) = Z.pos p * 2 ^ Z.pos n.
Proof.
  induction n as [|n IH] using Pos.peano_ind; [simpl; lia|].
  rewrite Pos.iter_succ. rewrite Pos2Z.inj_succ, Z.pow_succ_r by lia.
  rewrite Pos2Z.inj_xO, IH. lia.
Qed.

Lemma digits_small p : Z.pos p < 2 ^ 53 → Z.pos (digits2_pos p) <= 53.
Proof.
  intros Hp. destruct (digits2_pos_bounds p) as [Hlo _].
  apply Z.lt_succ_r. apply Z.nle_gt. intros Hd.
  assert (2 ^ 53 <= 2 ^ (Z.pos (digits2_pos p) - 1)) by (apply Z.pow_le_mono_r; lia). lia.
Qed.

(** ** Rounding an integer that fits *)

(** A mantissa of exactly 53 bits is kept as it is. *)
Lemma round_full s m e :
  Z.pos (digits2_pos m) = 53 → -1074 <= e <= 971 →
  binary_round_aux 53 1024 s (Z.pos m) e loc_Exact = S754_finite s m e.
Proof.
  intros Hd He. assert (shr_fexp 53 1024 (Z.pos m) e loc_Exact = (Build_shr_record (Z.pos m) false false, e)) as E.
  { unfold shr_fexp, fexp, emin. simpl Zdigits2. rewrite Hd.
    replace (Z.max _ _ - e) with 0 by lia. done. }
  unfold binary_round_aux. rewrite E. simpl shr_m. simpl loc_of_shr_record. simpl round_nearest_even.
  rewrite E. simpl shr_m. cbv iota. replace (e <=? 1024 - 53) with true by (symmetry; apply Z.leb_le; lia).
  done.
Qed.

(** The representation: 53 significant bits, scaled. *)
Definition scale_of (p : positive) : Z := 53 - Z.pos (digits2_pos p).

Lemma round_int s p :
  Z.pos p < 2 ^ 53 →
  ∃ m, binary_round 53 1024 s p 0 = S754_finite s m (- scale_of p) ∧
       Z.pos m = Z.pos p * 2 ^ scale_of p ∧ 0 <= scale_of p.
Proof.
  intros Hp. pose proof (digits_small p Hp) as Hd. unfold binary_round, shl_align, scale_of.
  unfold fexp, emin. replace (Z.max (Z.pos (digits2_pos p) + 0 - 53) (3 - 1024 - 53) - 0)
    with (- (53 - Z.pos (digits2_pos p))) by lia.
  destruct (53 - Z.pos (digits2_pos p)) as [|n|n] eqn:En; [| |lia].
  - exists p. change (- 0) with 0. cbv iota. rewrite round_full by lia. split; [done|]. simpl. lia.
  - exists (Pos.iter xO p n). change (- Z.pos n) with (Z.neg n). cbv iota.
    replace (Z.max (Z.pos (digits2_pos p) + 0 - 53) (3 - 1024 - 53)) with (Z.neg n) by lia.
    rewrite round_full; [|rewrite digits2_pos_iter; lia|lia]. split; [done|].
    rewrite iter_xO_value. split; [done|lia].
Qed.

Lemma fkey_pos p : Z.pos p < 2 ^ 53 → fkey (of_Z (Z.pos p)) = (1, - scale_of p, Z.pos p * 2 ^ scale_of p).
Proof. intros Hp. unfold of_Z. simpl. destruct (round_int false p Hp) as (m & -> & <- & _). done. Qed.

Lemma fkey_neg p : Z.pos p < 2 ^ 53 → fkey (of_Z (Z.neg p)) = (-1, scale_of p, - (Z.pos p * 2 ^ scale_of p)).
Proof.
  intros Hp. unfold of_Z. simpl. destruct (round_int true p Hp) as (m & -> & <- & _). simpl.
  by rewrite Z.opp_involutive.
Qed.

(** The scaled representations are ordered as the integers are. *)
Lemma scaled_order p q :
  Z.pos p < 2 ^ 53 → Z.pos q < 2 ^ 53 →
  Z.pos p < Z.pos q ↔
  (- scale_of p < - scale_of q ∨
   (- scale_of p = - scale_of q ∧ Z.pos p * 2 ^ scale_of p < Z.pos q * 2 ^ scale_of q)).
Proof.
  intros Hp Hq. pose proof (digits_small p Hp). pose proof (digits_small q Hq). unfold scale_of.
  destruct (digits2_pos_bounds p) as [P1 P2], (digits2_pos_bounds q) as [Q1 Q2].
  destruct (Z.lt_trichotomy (Z.pos (digits2_pos p)) (Z.pos (digits2_pos q))) as [L|[E|G]].
  - assert (2 ^ Z.pos (digits2_pos p) <= 2 ^ (Z.pos (digits2_pos q) - 1)) by (apply Z.pow_le_mono_r; lia). lia.
  - rewrite E in *. assert (0 < 2 ^ (53 - Z.pos (digits2_pos q))) by (apply Z.pow_pos_nonneg; lia).
    rewrite <- Z.mul_lt_mono_pos_r by done. lia.
  - assert (2 ^ Z.pos (digits2_pos q) <= 2 ^ (Z.pos (digits2_pos p) - 1)) by (apply Z.pow_le_mono_r; lia). lia.
Qed.

(** The float order of two exact integers is their order. *)
Lemma of_Z_lt a b : exact_int a → exact_int b → flt (of_Z a) (of_Z b) = (a <? b).
Proof.
  unfold exact_int. intros Ha Hb. apply eq_true_iff_eq. rewrite flt_lex, !of_Z_not_nan, Z.ltb_lt.
  assert (lexlt (fkey (of_Z a)) (fkey (of_Z b)) ↔ a < b) as ->; [|naive_solver].
  destruct a as [|p|p], b as [|q|q];
    rewrite ?fkey_pos, ?fkey_neg by lia; simpl (fkey (of_Z 0)); unfold lexlt; try lia.
  - rewrite (scaled_order p q) by lia. lia.
  - pose proof (scaled_order q p ltac:(lia) ltac:(lia)). lia.
Qed.

Lemma of_Z_finite z : exact_int z → isFinite (of_Z z) = true.
Proof.
  unfold exact_int. intros H. unfold of_Z. destruct z as [|p|p]; [done| |]; simpl.
  - by destruct (round_int false p) as (m & -> & _); [lia|].
  - by destruct (round_int true p) as (m & -> & _); [lia|].
Qed.

Lemma feq_refl a : IsNaN a = false → feq a a = true.
Proof.
  unfold feq, SFeqb. destruct a as [[]|[]| |[] m e]; simpl; try done; intros _;
    rewrite Z.compare_refl; change (Pos.compare_cont Eq m m) with (Pos.compare m m); by rewrite Pos.compare_refl.
Qed.

(** A number equals its truncation when it has no bits below the point. *)
Definition integral (f : float64) : Prop :=
  match f with
  | S754_nan => False
  | S754_finite _ m e => e < 0 → (2 ^ (- e) | Z.pos m)
  | _ => True
  end.

Lemma feq_finite s m e s' m' e' : feq (S754_finite s m e) (S754_finite s' m' e') = true ↔ s = s' ∧ m = m' ∧ e = e'.
Proof.
  split; [|by intros (-> & -> & ->); apply feq_refl]. unfold feq, SFeqb. destruct s, s'; cbn; try done;
    destruct (Z.compare_spec e e'); try done; change (Pos.compare_cont Eq m m') with (Pos.compare m m');
    destruct (Pos.compare_spec m m'); naive_solver.
Qed.

Lemma Trunc_integral f : feq (Trunc f) f = true ↔ integral f.
Proof.
  destruct f as [s|s| |s m e]; [done|by destruct s|done|]. cbn [Trunc integral].
  destruct (Z.leb_spec 0 e) as [He|He]; [rewrite feq_refl by done; split; [lia|done]|].
  assert (0 < 2 ^ (- e)) as Hp by (apply Z.pow_pos_nonneg; lia).
  assert ((e < 0 → (2 ^ (- e) | Z.pos m)) ↔ Z.pos m / 2 ^ (- e) * 2 ^ (- e) = Z.pos m) as ->.
  { split.
    - intros [q ->]%(λ H, H He). by rewrite Z.div_mul by lia.
    - intros E _. exists (Z.pos m / 2 ^ (- e)). by rewrite E. }
  destruct (Z.pos m / 2 ^ (- e) * 2 ^ (- e)) as [|q|q]; [by destruct s| |by destruct s].
  rewrite feq_finite. naive_solver.
Qed.

(** An exact integer is its own truncation. *)
Lemma Trunc_of_Z z : exact_int z → Trunc (of_Z z) = of_Z z.
Proof.
  unfold exact_int. intros H. destruct z as [|p|p]; [done| |]; unfold of_Z; simpl.
  - destruct (round_int false p) as (m & E & Em & Hs); [lia|]. rewrite E. simpl.
    destruct (0 <=? - scale_of p); [done|]. rewrite Z.opp_involutive, Em, Z.div_mul, <- Em; [done|].
    apply Z.pow_nonzero; lia.
  - destruct (round_int true p) as (m & E & Em & Hs); [lia|]. rewrite E. simpl.
    destruct (0 <=? - scale_of p); [done|]. rewrite Z.opp_involutive, Em, Z.div_mul, <- Em; [done|].
    apply Z.pow_nonzero; lia.
Qed.

(** ** Rounding to nearest, ties to even *)

(** A positive rational is a fraction [N / D] in units of [2^-1076], so that a
    quarter of the smallest spacing of binary64 is an integer; [spacing D e] is
    [2^e] over the same denominator. *)
Definition spacing (D e : Z) : Z := D * 2 ^ (e + 1076).

(** Where [N] lies above [m] units [u]. *)
Definition located (N u m : Z) (l : location) : Prop :=
  match l with
  | loc_Exact => N = m * u
  | loc_Inexact Lt => 2 * m * u < 2 * N < (2 * m + 1) * u
  | loc_Inexact Eq => 2 * N = (2 * m + 1) * u
  | loc_Inexact Gt => (2 * m + 1) * u < 2 * N < (2 * m + 2) * u
  end.

Definition rec_located (N u : Z) (r : shr_record) : Prop :=
  0 <= shr_m r ∧ located N u (shr_m r) (loc_of_shr_record r).

Lemma shr_1_located N u r :
  0 < u → rec_located N u r → rec_located N (2 * u) (shr_1 r) ∧ shr_m (shr_1 r) = shr_m r / 2.
Proof.
  unfold rec_located. intros Hu [Hm Hl].
  assert (∃ q b, shr_m r = 2 * q + Z.b2z b ∧ 0 <= q ∧ shr_1 r = Build_shr_record q b (shr_r r || shr_s r)) as
    (q & b & E & Hq & ->).
  { destruct r as [[|[p|p|]|p] rr rs]; cbn in *; [exists 0, false|exists (Z.pos p), true|exists (Z.pos p), false|
      exists 0, true|lia]; (split; [cbn; lia|]); done. }
  split; [|cbn; rewrite E; destruct b; cbn [Z.b2z]; Z.to_euclidean_division_equations; lia].
  split; [done|]. destruct r as [m rr rs]. cbn [shr_m shr_r shr_s] in *. subst m.
  destruct b, rr, rs; cbn [located loc_of_shr_record orb Z.b2z] in *; nia.
Qed.

Lemma iter_shr_located N p : ∀ u r,
  0 < u → rec_located N u r →
  rec_located N (2 ^ Z.pos p * u) (SpecFloat.iter_pos shr_1 p r) ∧
  shr_m (SpecFloat.iter_pos shr_1 p r) = shr_m r / 2 ^ Z.pos p.
Proof.
  induction p as [p IH|p IH|]; intros u r Hu Hr; cbn [SpecFloat.iter_pos].
  - apply shr_1_located in Hr as [Hr E]; [|done]. apply IH in Hr as [Hr E']; [|lia].
    assert (0 < 2 ^ Z.pos p) by (apply Z.pow_pos_nonneg; lia).
    apply IH in Hr as [Hr E'']; [|nia]. rewrite E'', E', E, !Z.div_div by lia.
    replace (2 ^ Z.pos p~1) with (2 * 2 ^ Z.pos p * 2 ^ Z.pos p); [|replace (Z.pos p~1) with (1 + Z.pos p + Z.pos p) by lia; by rewrite !Z.pow_add_r by lia].
    split; [|f_equal; lia]. by replace (2 * 2 ^ Z.pos p * 2 ^ Z.pos p * u) with (2 ^ Z.pos p * (2 ^ Z.pos p * (2 * u))) by lia.
  - apply IH in Hr as [Hr E']; [|lia]. assert (0 < 2 ^ Z.pos p) by (apply Z.pow_pos_nonneg; lia).
    apply IH in Hr as [Hr E'']; [|nia]. rewrite E'', E', Z.div_div by lia.
    replace (2 ^ Z.pos p~0) with (2 ^ Z.pos p * 2 ^ Z.pos p); [|replace (Z.pos p~0) with (Z.pos p + Z.pos p) by lia; by rewrite !Z.pow_add_r by lia].
    split; [|done]. by rewrite <- Z.mul_assoc.
  - change (2 ^ 1) with 2. by apply shr_1_located.
Qed.

Lemma record_of_loc m l : shr_m (shr_record_of_loc m l) = m ∧ loc_of_shr_record (shr_record_of_loc m l) = l.
Proof. by destruct l as [|[]]. Qed.

Lemma spacing_pos D e : 0 < D → -1076 <= e → 0 < spacing D e.
Proof. intros. unfold spacing. apply Z.mul_pos_pos; [done|apply Z.pow_pos_nonneg; lia]. Qed.

Lemma spacing_add D e k : 0 <= k → -1076 <= e → spacing D (e + k) = 2 ^ k * spacing D e.
Proof.
  intros. unfold spacing. replace (e + k + 1076) with (k + (e + 1076)) by lia. rewrite Z.pow_add_r by lia. lia.
Qed.

(** Shifting a mantissa to the exponent of the format keeps track of the value. *)
Lemma shr_fexp_located N D m e l :
  0 < D → -1076 <= e → 0 <= m → located N (spacing D e) m l →
  let e' := Z.max e (fexp 53 1024 (Zdigits2 m + e)) in
  ∃ r, shr_fexp 53 1024 m e l = (r, e') ∧ rec_located N (spacing D e') r ∧ shr_m r = m / 2 ^ (e' - e).
Proof.
  intros HD He Hm Hl e'. unfold shr_fexp. destruct (record_of_loc m l) as [Em El].
  assert (rec_located N (spacing D e) (shr_record_of_loc m l)) as Hr by (unfold rec_located; by rewrite Em, El).
  destruct (fexp 53 1024 (Zdigits2 m + e) - e) as [|p|p] eqn:Ek; cbn [shr]; unfold e'.
  - rewrite Z.max_l by lia. eexists. split; [done|]. split; [done|]. by rewrite Z.sub_diag, Z.div_1_r.
  - rewrite Z.max_r by lia. replace (fexp 53 1024 (Zdigits2 m + e)) with (e + Z.pos p) in * by lia.
    rewrite spacing_add by lia. replace (e + Z.pos p - e) with (Z.pos p) by lia. eexists. split; [done|].
    destruct (iter_shr_located N p _ _ (spacing_pos D e HD He) Hr) as [H1 H2]. by rewrite H2, Em.
  - rewrite Z.max_l by lia. eexists. split; [done|]. split; [done|]. by rewrite Z.sub_diag, Z.div_1_r.
Qed.

(** [N / D] rounds to [m * 2^e]: it is within half a spacing, a tie only for an
    even mantissa; below the least mantissa of a binade the spacing is halved. *)
Definition inside (N D : Z) (m e : Z) : Prop :=
  let u := spacing D e in
  2 * N <= (2 * m + 1) * u ∧ (2 * N = (2 * m + 1) * u → Z.even m = true) ∧
  if (m =? 2 ^ 52) && (-1074 <? e) then (4 * m - 1) * u <= 4 * N
  else (2 * m - 1) * u <= 2 * N ∧ ((2 * m - 1) * u = 2 * N → Z.even m = true).

(** The mantissa and the exponent of a binary64 value, whatever its magnitude. *)
Definition canonical (m e : Z) : Prop := 0 < m < 2 ^ 53 ∧ -1074 <= e ∧ (-1074 < e → 2 ^ 52 <= m).

Lemma Zdigits2_bounds z : 0 < z → 2 ^ (Zdigits2 z - 1) <= z < 2 ^ Zdigits2 z.
Proof. intros Hz. destruct z as [|p|p]; [lia| |lia]. apply digits2_pos_bounds. Qed.

Lemma Zdigits2_le z n : 0 <= n → 0 <= z < 2 ^ n → Zdigits2 z <= n.
Proof.
  intros Hn Hz. destruct (decide (z = 0)) as [->|]; [done|]. destruct (Zdigits2_bounds z) as [H _]; [lia|].
  destruct (Z.le_gt_cases (Zdigits2 z) n) as [|Hgt]; [done|].
  assert (2 ^ n <= 2 ^ (Zdigits2 z - 1)) by (apply Z.pow_le_mono_r; lia). lia.
Qed.

Lemma Zdigits2_ge z n : 2 ^ n <= z → 0 < z → n < Zdigits2 z.
Proof.
  intros Hn Hz. destruct (Zdigits2_bounds z) as [_ H]; [lia|].
  destruct (Z.le_gt_cases (Zdigits2 z) n) as [Hle|]; [|done].
  assert (2 ^ Zdigits2 z <= 2 ^ n) by (apply Z.pow_le_mono_r; lia). lia.
Qed.

Lemma Zdigits2_nonneg z : 0 <= Zdigits2 z.
Proof. by destruct z. Qed.

(** The mantissa at the exponent of the format has at most 53 bits, and exactly 53
    above the least exponent. *)
Lemma fexp_mantissa m e :
  0 <= m → e <= fexp 53 1024 (Zdigits2 m + e) →
  let e' := fexp 53 1024 (Zdigits2 m + e) in
  -1074 <= e' ∧ 0 <= m / 2 ^ (e' - e) < 2 ^ 53 ∧ (-1074 < e' → 2 ^ 52 <= m / 2 ^ (e' - e)).
Proof.
  unfold fexp, emin. change (3 - 1024 - 53) with (-1074). intros Hm He.
  set (d := Zdigits2 m) in *. set (e' := Z.max _ _) in *. cbv zeta.
  assert (0 < 2 ^ (e' - e)) by (apply Z.pow_pos_nonneg; lia). split; [lia|].
  destruct (decide (m = 0)) as [->|Hm0].
  { rewrite Z.div_0_l by lia. split; [lia|]. change d with 0 in *. lia. }
  destruct (Zdigits2_bounds m ltac:(lia)) as [Hlo Hhi]. fold d in Hlo, Hhi. split; [split|].
  - apply Z.div_pos; lia.
  - apply Z.div_lt_upper_bound; [done|]. rewrite <- Z.pow_add_r by lia.
    apply Z.lt_le_trans with (2 ^ d); [done|]. apply Z.pow_le_mono_r; lia.
  - intros Hgt. apply Z.div_le_lower_bound; [done|]. rewrite <- Z.pow_add_r by lia.
    replace (e' - e + 52) with (d - 1) by lia. done.
Qed.

(** What rounding the mantissa gives. *)
Lemma round_nearest_bounds N u m l :
  0 < u → located N u m l → let m' := round_nearest_even m l in
  m <= m' <= m + 1 ∧ m * u <= N ∧ (2 * m' - 1) * u <= 2 * N <= (2 * m' + 1) * u ∧
  (2 * N = (2 * m' + 1) * u ∨ 2 * N = (2 * m' - 1) * u → Z.even m' = true).
Proof.
  intros Hu. destruct l as [|[]]; cbn [located round_nearest_even]; [nia| |nia|nia].
  destruct (Z.even m) eqn:E; intros H.
  - repeat split; try nia. intros _. done.
  - repeat split; try nia. intros _. rewrite Z.even_add, E. done.
Qed.

(** The second normalisation moves only the carry out of 53 bits. *)
Lemma shr_carry m e :
  -1074 <= e → 0 <= m <= 2 ^ 53 → (-1074 < e → 2 ^ 52 <= m) →
  shr_fexp 53 1024 m e loc_Exact =
  if m =? 2 ^ 53 then (Build_shr_record (2 ^ 52) false false, e + 1) else (Build_shr_record m false false, e).
Proof.
  intros He Hm Hn. destruct (Z.eqb_spec m (2 ^ 53)) as [->|Hne].
  - unfold shr_fexp, fexp, emin. change (Zdigits2 (2 ^ 53)) with 54.
    replace (Z.max (54 + e - 53) (3 - 1024 - 53) - e) with 1 by lia. reflexivity.
  - unfold shr_fexp, fexp, emin. pose proof (Zdigits2_nonneg m).
    assert (Zdigits2 m <= 53) by (apply Zdigits2_le; lia).
    assert (-1074 < e → 52 < Zdigits2 m) by (intros; apply Zdigits2_ge; [auto|specialize (Hn ltac:(done)); lia]).
    replace (Z.max (Zdigits2 m + e - 53) (3 - 1024 - 53) - e) with 0 by lia. reflexivity.
Qed.

(** The result of rounding [N / D]: a zero, or the value whose interval it lies
    in (an infinity beyond the largest exponent). *)
Lemma round_cases s N D m e l :
  0 < D → 0 <= m → -1074 <= e → e <= fexp 53 1024 (Zdigits2 m + e) → located N (spacing D e) m l →
  (binary_round_aux 53 1024 s m e l = S754_zero s ∧ 2 * N <= spacing D (-1074)) ∨
  ∃ m' e', canonical (Z.pos m') e' ∧ inside N D (Z.pos m') e' ∧
    binary_round_aux 53 1024 s m e l = if e' <=? 971 then S754_finite s m' e' else S754_infinity s.
Proof.
  intros HD Hm He Hf Hl. destruct (shr_fexp_located N D m e l) as (r & Er & [Hr0 Hr] & Em); [lia..|done|].
  rewrite Z.max_r in * by done. destruct (fexp_mantissa m e Hm Hf) as (He' & Hb & Hn).
  set (e' := fexp 53 1024 (Zdigits2 m + e)) in *. rewrite <- Em in *.
  pose proof (spacing_pos D e' HD ltac:(lia)) as Hu.
  destruct (round_nearest_bounds _ _ _ _ Hu Hr) as (B1 & B2 & [B3 B4] & B5).
  unfold binary_round_aux. rewrite Er. set (m2 := round_nearest_even (shr_m r) (loc_of_shr_record r)) in *.
  rewrite shr_carry by lia. destruct (Z.eqb_spec m2 (2 ^ 53)) as [Ec|Hc].
  - right. exists (Z.to_pos (2 ^ 52)), (e' + 1). change (Z.pos (Z.to_pos (2 ^ 52))) with (2 ^ 52).
    split; [unfold canonical; lia|]. split; [|done]. unfold inside. rewrite Z.eqb_refl.
    rewrite (proj2 (Z.ltb_lt (-1074) (e' + 1))) by lia. cbn [andb]. rewrite spacing_add by lia. change (2 ^ 1) with 2.
    split; [nia|]. split; [done|]. nia.
  - destruct m2 as [|p|p] eqn:Em2; [|right; exists p, e'|lia].
    + left. split; [done|]. assert (e' = -1074) as <- by lia. lia.
    + split; [unfold canonical; lia|]. split; [|done]. unfold inside. split; [lia|]. split; [auto|].
      destruct (Z.eqb_spec (Z.pos p) (2 ^ 52)) as [Ep|]; [|split; [lia|]; intros; apply B5; lia].
      destruct (Z.ltb_spec (-1074) e'); [|split; [lia|]; intros; apply B5; lia]. cbn [andb]. nia.
Qed.

(** The intervals of two values are disjoint. *)
Lemma inside_exponent_le N D m e m' e' :
  0 < D → canonical m e → canonical m' e' → inside N D m e → inside N D m' e' → e' <= e.
Proof.
  intros HD Hc Hc' (Hu & Ht & _) H'. destruct (Z.le_gt_cases e' e) as [|Hlt]; [done|exfalso].
  destruct Hc as (Hm & He & _), Hc' as (Hm' & He' & Hn'). specialize (Hn' ltac:(lia)).
  pose proof (spacing_pos D e HD ltac:(lia)) as Hs.
  assert (2 * spacing D e <= spacing D e') as Hsp.
  { replace e' with (e + (e' - e)) by lia. rewrite spacing_add by lia.
    assert (2 ^ 1 <= 2 ^ (e' - e)) by (apply Z.pow_le_mono_r; lia). nia. }
  assert ((2 ^ 54 - 1) * (2 * spacing D e) <= 4 * N) as Hlow.
  { destruct H' as (_ & _ & H'). destruct (Z.eqb_spec m' (2 ^ 52)) as [->|].
    - rewrite (proj2 (Z.ltb_lt (-1074) e')) in H' by lia. cbn [andb] in H'. nia.
    - cbn [andb] in H'. nia. }
  assert (m = 2 ^ 53 - 1 ∧ 2 * N = (2 * m + 1) * spacing D e) as [-> E]; [|by specialize (Ht E)].
  assert (m = 2 ^ 53 - 1) as -> by nia. lia.
Qed.

Lemma inside_unique N D m e m' e' :
  0 < D → canonical m e → canonical m' e' → inside N D m e → inside N D m' e' → m = m' ∧ e = e'.
Proof.
  intros HD Hc Hc' H H'. assert (e = e') as <- by (apply Z.le_antisymm; eapply inside_exponent_le; eauto).
  split; [|done]. destruct Hc as (Hm & He & _), Hc' as (Hm' & _ & _).
  pose proof (spacing_pos D e HD ltac:(lia)) as Hs. set (u := spacing D e) in *.
  assert (∀ a b, inside N D a e → inside N D b e → b <= a) as Hle; [|apply Z.le_antisymm; auto].
  clear -Hs. intros a b (Hu & Ht & _) (_ & _ & Hl). fold u in Hu, Ht, Hl.
  destruct (Z.le_gt_cases b a) as [|Hlt]; [done|exfalso]. case_match.
  - nia.
  - destruct Hl as [Hl Ht']. assert (b = a + 1 ∧ 2 * N = (2 * a + 1) * u) as [-> E].
    { assert (b = a + 1) as -> by nia. nia. }
    specialize (Ht E). specialize (Ht' ltac:(lia)). rewrite Z.even_add, Ht in Ht'. done.
Qed.

Lemma inside_not_tiny N D m e :
  0 < D → canonical m e → inside N D m e → spacing D (-1074) < 2 * N.
Proof.
  intros HD (Hm & He & _) (_ & _ & Hl). pose proof (spacing_pos D (-1074) HD ltac:(lia)) as Hs.
  assert (spacing D (-1074) <= spacing D e) as Hle.
  { replace e with (-1074 + (e + 1074)) by lia. rewrite spacing_add by lia.
    assert (2 ^ 0 <= 2 ^ (e + 1074)) by (apply Z.pow_le_mono_r; lia). nia. }
  case_match; [nia|]. destruct Hl as [Hl Ht].
  destruct (decide (m = 1)) as [->|]; [|nia].
  destruct (decide ((2 * 1 - 1) * spacing D e = 2 * N)) as [E|]; [by specialize (Ht E)|lia].
Qed.

(** Rounding [N / D] gives a value exactly when the value is of the format and
    [N / D] lies in its interval. *)
Lemma round_iff s N D m e l m' e' :
  0 < D → 0 <= m → -1074 <= e → e <= fexp 53 1024 (Zdigits2 m + e) → located N (spacing D e) m l →
  binary_round_aux 53 1024 s m e l = S754_finite s m' e' ↔
  canonical (Z.pos m') e' ∧ e' <= 971 ∧ inside N D (Z.pos m') e'.
Proof.
  intros HD Hm He Hf Hl. destruct (round_cases s N D m e l HD Hm He Hf Hl) as [[-> Hz]|(m2 & e2 & Hc & Hi & ->)].
  - split; [done|]. intros (Hc & _ & Hi). pose proof (inside_not_tiny N D _ _ HD Hc Hi). lia.
  - destruct (Z.leb_spec e2 971) as [Hle|Hgt].
    + split; [intros [= <- <-]; done|]. intros (Hc' & _ & Hi').
      destruct (inside_unique N D _ _ _ _ HD Hc Hc' Hi Hi') as [E ->]. by simplify_eq.
    + split; [done|]. intros (Hc' & Hle & Hi').
      destruct (inside_unique N D _ _ _ _ HD Hc Hc' Hi Hi') as [_ ->]. lia.
Qed.

(** The intervals are those of the rational, not of the fraction. *)
Lemma inside_scale c N D m e : 0 < c → inside (c * N) (c * D) m e ↔ inside N D m e.
Proof.
  intros Hc. unfold inside. assert (spacing (c * D) e = c * spacing D e) as -> by (unfold spacing; lia).
  set (u := spacing D e). clearbody u.
  assert (2 * (c * N) <= (2 * m + 1) * (c * u) ↔ 2 * N <= (2 * m + 1) * u) as E1 by nia.
  assert (2 * (c * N) = (2 * m + 1) * (c * u) ↔ 2 * N = (2 * m + 1) * u) as E2 by nia.
  assert ((2 * m - 1) * (c * u) <= 2 * (c * N) ↔ (2 * m - 1) * u <= 2 * N) as E3 by nia.
  assert ((2 * m - 1) * (c * u) = 2 * (c * N) ↔ (2 * m - 1) * u = 2 * N) as E4 by nia.
  assert ((4 * m - 1) * (c * u) <= 4 * (c * N) ↔ (4 * m - 1) * u <= 4 * N) as E5 by nia.
  rewrite E1, E2. destruct (_ && _); [by rewrite E5|by rewrite E3, E4].
Qed.

Lemma inside_cross N D N' D' m e : 0 < D → 0 < D' → N * D' = N' * D → inside N D m e ↔ inside N' D' m e.
Proof.
  intros HD HD' E. rewrite <- (inside_scale D' N D), <- (inside_scale D N' D') by done.
  by replace (D' * N) with (D * N') by lia; replace (D' * D) with (D * D') by lia.
Qed.

(** The values of the format. *)
Lemma bounded_canonical m e : bounded 53 1024 m e = true ↔ canonical (Z.pos m) e ∧ e <= 971.
Proof.
  unfold bounded, canonical_mantissa, canonical, fexp, emin. rewrite andb_true_iff, Z.eqb_eq, Z.leb_le.
  change (1024 - 53) with 971. destruct (digits2_pos_bounds m) as [Hlo Hhi].
  set (d := Z.pos (digits2_pos m)) in *. assert (0 < d) by done. split.
  - intros [E He]. split; [|done]. split; [|split; [lia|]].
    + split; [lia|]. apply Z.lt_le_trans with (2 ^ d); [done|]. apply Z.pow_le_mono_r; lia.
    + intros. replace 52 with (d - 1) by lia. done.
  - intros [(Hm & He & Hn) Hx]. split; [|done]. assert (d <= 53) by (apply digits_small; lia).
    assert (-1074 < e → 52 < d) as Hd; [|lia]. intros Hgt. specialize (Hn Hgt).
    apply (Zdigits2_ge (Z.pos m) 52); lia.
Qed.

(** ** Integers and quotients are rounded correctly *)

Lemma binary_round_iff s q m e :
  binary_round 53 1024 s q 0 = S754_finite s m e ↔
  bounded 53 1024 m e = true ∧ inside (Z.pos q * 2 ^ 1076) 1 (Z.pos m) e.
Proof.
  rewrite bounded_canonical, Logic.and_assoc. unfold binary_round, shl_align. rewrite Z.sub_0_r, Z.add_0_r.
  set (d := Z.pos (digits2_pos q)). assert (-1074 <= fexp 53 1024 d) by (unfold fexp, emin; lia).
  assert (Zdigits2 (Z.pos q) = d) as Hd by done.
  destruct (fexp 53 1024 d) as [|k|k] eqn:Ef; cbv beta iota zeta.
  - apply round_iff; [lia..| |rewrite Hd, Z.add_0_r, Ef; lia|]. lia. unfold spacing. cbn [located]. lia.
  - apply round_iff; [lia..| |rewrite Hd, Z.add_0_r, Ef; lia|]. lia. unfold spacing. cbn [located]. lia.
  - apply round_iff; [lia..| |].
    + assert (Zdigits2 (Z.pos (Pos.iter xO q k)) = d + Z.pos k) as -> by (cbn [Zdigits2]; rewrite digits2_pos_iter; unfold d; lia).
      replace (d + Z.pos k + Z.neg k) with d by lia. lia.
    + cbn [located]. unfold spacing. rewrite iter_xO_value.
      replace 1076 with (Z.pos k + (Z.neg k + 1076)) at 1 by lia. rewrite Z.pow_add_r by lia. lia.
Qed.

Lemma new_location_spec w b q r :
  0 < w → 0 <= r < b → located ((q * b + r) * w) (b * w) q (new_location b r).
Proof.
  intros Hw Hr. unfold new_location. destruct (Z.even b) eqn:Ev.
  - unfold new_location_even. destruct (Z.eqb_spec r 0) as [->|]; [cbn; lia|].
    destruct (Z.compare_spec (2 * r) b); cbn [located]; nia.
  - unfold new_location_odd. destruct (Z.eqb_spec r 0) as [->|]; [cbn; lia|].
    assert (2 * r ≠ b) as Hne by (intros <-; rewrite Z.even_mul in Ev; done).
    destruct (Z.compare_spec (2 * r + 1) b); cbn [located]; nia.
Qed.

Lemma div_round_iff s a b m e :
  0 < a → 0 < b →
  (let '(mz, ez, lz) := SFdiv_core_binary 53 1024 a 0 b 0 in binary_round_aux 53 1024 s mz ez lz) = S754_finite s m e ↔
  bounded 53 1024 m e = true ∧ inside (a * 2 ^ 1076) b (Z.pos m) e.
Proof.
  intros Ha Hb. rewrite bounded_canonical, Logic.and_assoc. unfold SFdiv_core_binary. rewrite !Z.add_0_r, Z.sub_0_r.
  set (d := Zdigits2 a - Zdigits2 b). set (e0 := Z.min (fexp 53 1024 d) 0).
  assert (-1074 <= e0 <= 0) as He0 by (unfold e0, fexp, emin; lia).
  assert (match 0 - e0 with Z0 => a | Z.pos _ => Z.shiftl a (0 - e0) | Z.neg _ => 0 end = a * 2 ^ (- e0)) as ->.
  { destruct (0 - e0) eqn:E; [replace e0 with 0 by lia; cbn; lia| |lia].
    rewrite <- E, Z.shiftl_mul_pow2 by lia. f_equal. }
  rewrite (surjective_pairing (Z.div_eucl _ b)).
  pose proof (Z.div_mod (a * 2 ^ (- e0)) b ltac:(lia)) as Hdm.
  pose proof (Z.mod_pos_bound (a * 2 ^ (- e0)) b Hb) as Hr.
  assert (0 < 2 ^ (- e0)) as Hp by (apply Z.pow_pos_nonneg; lia).
  unfold Z.div, Z.modulo in Hdm, Hr. destruct (Z.div_eucl (a * 2 ^ (- e0)) b) as [q r]. cbn [fst snd].
  assert (0 <= q) as Hq by nia.
  assert (d - e0 <= Zdigits2 q) as Hdig.
  { destruct (Z.le_gt_cases (d - e0) 0); [pose proof (Zdigits2_nonneg q); lia|].
    destruct (Zdigits2_bounds a Ha) as [Halo _], (Zdigits2_bounds b Hb) as [_ Hbhi].
    assert (2 ^ (d - e0 - 1) <= q) as Hql; [|pose proof (Zdigits2_ge q (d - e0 - 1) Hql); 
      assert (0 < 2 ^ (d - e0 - 1)) by (apply Z.pow_pos_nonneg; lia); lia].
    assert (2 ^ (d - e0 - 1) * 2 ^ Zdigits2 b = 2 ^ (Zdigits2 a - 1) * 2 ^ (- e0)) as E.
    { rewrite <- !Z.pow_add_r; unfold d in *; pose proof (Zdigits2_nonneg b); try lia; [f_equal; lia|].
      assert (1 <= Zdigits2 a) by (destruct a; cbn; lia). lia. }
    assert (0 < 2 ^ (d - e0 - 1)) by (apply Z.pow_pos_nonneg; lia).
    destruct (Z.le_gt_cases (2 ^ (d - e0 - 1)) q) as [|Hlt]; [done|exfalso]. nia. }
  apply round_iff; [done|done|lia| |].
  - assert (fexp 53 1024 d <= fexp 53 1024 (Zdigits2 q + e0)) by (unfold fexp; lia). lia.
  - replace (a * 2 ^ 1076) with ((q * b + r) * 2 ^ (e0 + 1076)).
    + apply new_location_spec; [apply Z.pow_pos_nonneg; lia|done].
    + replace (q * b + r) with (a * 2 ^ (- e0)) by lia. rewrite <- Z.mul_assoc, <- Z.pow_add_r by lia. do 2 f_equal. lia.
Qed.
