(* ===== verification/Json.v ===== *)
(** * JSON values and their canonical form

    [any] is the Go interface value a decoded JSON document consists of, with
    every host numeric carrier the code distinguishes.  The canonical
    serialisation is that of semantics/canonical.go (RFC 8785, JCS). *)

From Stdlib Require Import Floats.SpecFloat.
From S2P Require Import Prelude GoStrings GoFloat.

(** The Go integer types the code distinguishes by a type switch. *)
Inductive int_kind :=
  | KInt | KInt8 | KInt16 | KInt32 | KInt64
  | KUint | KUint8 | KUint16 | KUint32 | KUint64.

#[global] Instance int_kind_eq_dec : EqDecision int_kind.
Proof. solve_decision. Defined.

(** A dynamically typed Go value: [nil], [bool], [string], the numeric carriers,
    [[]any] and [map[string]any]. *)
Inductive any :=
  | ANil
  | ABool (b : bool)
  | AStr (s : string)
  | AFloat (f : float64)
  | AFloat32 (f : float64)
  | AInt (k : int_kind) (z : Z)
  | AList (l : list any)
  | AMap (m : list (string * any)).

(** Induction with hypotheses for the elements of arrays and objects. *)
Section any_ind.
Context (P : any → Prop)
(Hnil : P ANil) (Hbool : ∀ b, P (ABool b)) (Hstr : ∀ s, P (AStr s))
(Hfloat : ∀ f, P (AFloat f)) (Hfloat32 : ∀ f, P (AFloat32 f)) (Hint : ∀ k z, P (AInt k z))
(Hlist : ∀ l, Forall P l → P (AList l))
(Hmap : ∀ m, Forall (λ kv, P kv.2) m → P (AMap m)).

Fixpoint any_nested_ind (v : any) : P v :=
match v with
| ANil => Hnil
| ABool b => Hbool b
| AStr s => Hstr s
| AFloat f => Hfloat f
| AFloat32 f => Hfloat32 f
| AInt k z => Hint k z
| AList l => Hlist l
    ((fix go l : Forall P l :=
        match l with [] => Forall_nil_2 _ | x :: l' => Forall_cons_2 _ _ _ (any_nested_ind x) (go l') end) l)
| AMap m => Hmap m
    ((fix go m : Forall (λ kv, P kv.2) m :=
        match m with
        | [] => Forall_nil_2 _
        | kv :: m' => Forall_cons_2 _ kv m' (any_nested_ind kv.2) (go m')
        end) m)
end.
End any_ind.

(** Proper subvalues, and induction over all of them. *)
Inductive subvalue : any → any → Prop :=
  | sub_elem x l : x ∈ l → subvalue x (AList l)
  | sub_elem_trans w x l : x ∈ l → subvalue w x → subvalue w (AList l)
  | sub_member k x m : (k, x) ∈ m → subvalue x (AMap m)
  | sub_member_trans k w x m : (k, x) ∈ m → subvalue w x → subvalue w (AMap m).

Lemma any_strong_ind (P : any → Prop) :
  (∀ v, (∀ w, subvalue w v → P w) → P v) → ∀ v, P v.
Proof.
  intros H. assert (∀ v w, subvalue w v → P w) as HA; [|eauto].
  intros v. induction v as [| | | | | |l IH|m IH] using any_nested_ind;
    intros w Hw; inversion Hw as [? ? Hx|? ? ? Hx Hs|? ? ? Hx|? ? ? ? Hx Hs]; subst;
    rewrite list.Forall_forall in IH; specialize (IH _ Hx); simpl in IH; auto.
Qed.

(** [v == nil] on an interface value. *)
Definition is_nil (v : any) : bool := match v with ANil => true | _ => false end.

(** ** Canonical strings *)

(** The sentinel errors of canonical.go, with the detail text. *)
Inductive canon_error :=
  | ErrCanonicalInvalidUTF8 (detail : string)
  | ErrCanonicalSurrogate (detail : string)
  | ErrCanonicalNumber (detail : string)
  | ErrCanonicalOther.

Definition canon_error_text (e : canon_error) : string :=
  let suffix (d : string) := match d with EmptyString => d | _ => (": " +:+ d)%string end in
  match e with
  | ErrCanonicalInvalidUTF8 d => ("canonical_invalid_utf8" +:+ suffix d)%string
  | ErrCanonicalSurrogate d => ("canonical_lone_surrogate" +:+ suffix d)%string
  | ErrCanonicalNumber d => ("canonical_invalid_number" +:+ suffix d)%string
  | ErrCanonicalOther => "json: unsupported value"%string
  end.

(** A three-byte surrogate encoding ED A0..BF 80..BF at the head. *)
Definition surrogate_head (s : string) : bool :=
  match s with
  | String c0 (String c1 (String c2 _)) =>
      (code c0 =? 237) && in_range 160 191 c1 && in_range 128 191 c2
  | _ => false
  end.

(** The first undecodable position names the error. *)
Fixpoint first_invalid (fuel : nat) (s : string) : option canon_error :=
  match fuel, s with
  | S fuel', String _ _ =>
      match decode_rune s with
      | Some (_, n) => first_invalid fuel' (sdrop n s)
      | None => Some (if surrogate_head s then ErrCanonicalSurrogate "" else ErrCanonicalInvalidUTF8 "")
      end
  | _, _ => Some (ErrCanonicalInvalidUTF8 "")
  end.
Definition checkCanonicalString (s : string) : option canon_error :=
  if ValidString s then None else first_invalid (String.length s) s.

(** [validateCanonicalStrings]: every string and key is valid UTF-8 and the
    value nests at most 1000 levels. *)
Definition maxCanonicalDepth : Z := 1000.
Fixpoint validateCanonicalStrings (v : any) (depth : Z) : option canon_error :=
  guard (maxCanonicalDepth <? depth) (ErrCanonicalInvalidUTF8 "value nests deeper than 1000") ;;?
  match v with
  | AStr s => checkCanonicalString s
  | AMap m =>
      check_all (λ kv, checkCanonicalString kv.1 ;;? validateCanonicalStrings kv.2 (depth + 1)) m
  | AList l => check_all (λ x, validateCanonicalStrings x (depth + 1)) l
  | _ => None
  end.

(** [json.Encoder] refuses NaN and the infinities. *)
Fixpoint encodable (v : any) : bool :=
  match v with
  | AFloat f | AFloat32 f => isFinite f
  | AMap m => forallb (λ kv, encodable kv.2) m
  | AList l => forallb encodable l
  | _ => true
  end.

Fixpoint repeat_char (c : ascii) (n : nat) : string :=
  match n with O => EmptyString | S n' => String c (repeat_char c n') end.

(** [formatCanonicalFloat]: ECMAScript Number::toString of a finite value. *)
Definition formatCanonicalFloat (f : float64) : string :=
  match f with
  | S754_finite neg m e =>
      let '(d, p) := shortest binary64 m e in
      let digits := Itoa d in
      let nd := Z.of_nat (String.length digits) in
      let exp10 := p + nd - 1 in
      let fracLen := nd - 1 in
      let k := nd in
      let n := k + exp10 - fracLen in
      let body : string :=
        if (k <=? n) && (n <=? 21) then
          digits +:+ repeat_char "0" (Z.to_nat (n - k))
        else if (0 <? n) && (n <=? 21) then
          stake (Z.to_nat n) digits +:+ "." +:+ sdrop (Z.to_nat n) digits
        else if (-6 <? n) && (n <=? 0) then
          "0." +:+ repeat_char "0" (Z.to_nat (- n)) +:+ digits
        else
          (if k =? 1 then digits else stake 1 digits +:+ "." +:+ sdrop 1 digits) +:+
          "e" +:+ (if 0 <=? n - 1 then "+" else "") +:+ Itoa (n - 1) in
      (if neg then "-" else "") +:+ body
  | _ => "0"
  end.

(** The number a carrier denotes after the encode/decode round trip of
    [CanonicalJSON]: an integer is read back as the nearest float64, a float32
    through its own shortest decimal. *)
Definition canon_number (v : any) : float64 :=
  match v with
  | AFloat f => f
  | AFloat32 (S754_finite s m e) =>
      let '(d, p) := shortest binary32 m e in dec_to_float binary64 s d p
  | AInt _ z => of_Z z
  | _ => fzero
  end.

(** [writeCanonicalString]. *)
Definition canonical_char (c : ascii) : string :=
  let z := code c in
  let esc (d : Z) := String "\"%char (String (chr d) EmptyString) in
  if z =? 34 then esc 34 else if z =? 92 then esc 92
  else if z =? 8 then esc 98 else if z =? 12 then esc 102
  else if z =? 10 then esc 110 else if z =? 13 then esc 114
  else if z =? 9 then esc 116
  else if z <? 32
  then ("\u00" +:+ String (hex_digit (Z.shiftr z 4)) (String (hex_digit (Z.land z 15)) EmptyString))%string
  else String c EmptyString.
Fixpoint canonical_body (s : string) : string :=
  match s with
  | EmptyString => EmptyString
  | String c s' => (canonical_char c +:+ canonical_body s')%string
  end.
Definition writeCanonicalString (s : string) : string :=
  String dquote (canonical_body s +:+ String dquote EmptyString)%string.

(** [utf16Less] and the order of object members. *)
Fixpoint units_less (a b : list Z) : bool :=
  match a, b with
  | x :: a', y :: b' => if x =? y then units_less a' b' else x <? y
  | [], _ :: _ => true
  | _, _ => false
  end.
Definition utf16Less (a b : string) : bool := units_less (utf16_Encode a) (utf16_Encode b).

Definition member_le (a b : string * string) : Prop := utf16Less b.1 a.1 = false.
#[global] Instance member_le_dec : RelDecision member_le.
Proof. intros a b. unfold member_le. apply _. Defined.
Definition sortMembersUTF16 (l : list (string * string)) : list (string * string) :=
  merge_sort member_le l.

(** [writeCanonicalJSON]. *)
Fixpoint writeCanonicalJSON (v : any) : string :=
  match v with
  | ANil => "null"
  | ABool b => if b then "true" else "false"
  | AStr s => writeCanonicalString s
  | AFloat _ | AFloat32 _ | AInt _ _ => formatCanonicalFloat (canon_number v)
  | AList l => "[" +:+ Join "," (writeCanonicalJSON <$> l) +:+ "]"
  | AMap m =>
      let members := (λ kv, (kv.1, writeCanonicalJSON kv.2)) <$> m in
      "{" +:+ Join "," ((λ kx, writeCanonicalString kx.1 +:+ ":" +:+ kx.2)%string
                          <$> sortMembersUTF16 members) +:+ "}"
  end%string.

(** [CanonicalJSON]. *)
Definition CanonicalJSON (v : any) : string + canon_error :=
  match validateCanonicalStrings v 0 with
  | Some e => inr e
  | None => if encodable v then inl (writeCanonicalJSON v) else inr ErrCanonicalOther
  end.

(** ** [fmt.Sprintf("%v", v)] *)

Definition format_exp (e : Z) : string :=
  "e" +:+ (if e <? 0 then "-" else "+") +:+ (if Z.abs e <? 10 then "0" else "") +:+ Itoa (Z.abs e).

(** [strconv.FormatFloat(f, 'g', -1, bits)]. *)
Definition format_g (fm : fmt) (f : float64) : string :=
  match f with
  | S754_nan => "NaN"
  | S754_infinity s => if s then "-Inf" else "+Inf"
  | S754_zero s => if s then "-0" else "0"
  | S754_finite s m e =>
      let '(d, p) := shortest fm m e in
      let digits := Itoa d in
      let nd := Z.of_nat (String.length digits) in
      let dp := nd + p in
      let body : string :=
        if (dp - 1 <? -4) || (6 <=? dp - 1) then
          (if nd =? 1 then digits else stake 1 digits +:+ "." +:+ sdrop 1 digits) +:+
          format_exp (dp - 1)
        else if nd <=? dp then digits +:+ repeat_char "0" (Z.to_nat (dp - nd))
        else if 0 <? dp then stake (Z.to_nat dp) digits +:+ "." +:+ sdrop (Z.to_nat dp) digits
        else "0." +:+ repeat_char "0" (Z.to_nat (- dp)) +:+ digits in
      (if s then "-" else "") +:+ body
  end.

Definition key_le (a b : string * string) : Prop := String.le a.1 b.1.
#[global] Instance key_le_dec : RelDecision key_le.
Proof. intros a b. unfold key_le. apply _. Defined.

Fixpoint Sprint_v (v : any) : string :=
  match v with
  | ANil => "<nil>"
  | ABool b => if b then "true" else "false"
  | AStr s => s
  | AFloat f => format_g binary64 f
  | AFloat32 f => format_g binary32 f
  | AInt _ z => Itoa z
  | AList l => "[" +:+ Join " " (Sprint_v <$> l) +:+ "]"
  | AMap m =>
      let members := (λ kv, (kv.1, Sprint_v kv.2)) <$> m in
      "map[" +:+ Join " " ((λ kx, kx.1 +:+ ":" +:+ kx.2)%string <$> merge_sort key_le members) +:+ "]"
  end%string.

(** ** Examples: the JCS form of numbers, strings and objects *)

Definition jnum (s : string) : any := AFloat (default fzero (ParseFloat s)).

Example canon_numbers :
  formatCanonicalFloat <$> [of_Z 1000; of_Z 0; canon_number (jnum "1e23"); canon_number (jnum "1e-6");
    canon_number (jnum "-1.5e-7"); canon_number (jnum "123456789.125"); canon_number (jnum "1e21")]
  = ["1000"; "0"; "1e+23"; "0.000001"; "-1.5e-7"; "123456789.125"; "1e+21"]%string.
Proof. vm_compute. reflexivity. Qed.

Example canon_object :
  CanonicalJSON (AMap [("b", AList [jnum "1.0"; ABool true]); ("a", AStr "x&y")])
  = inl ("{" +:+ quoted "a" +:+ ":" +:+ quoted "x&y" +:+ "," +:+ quoted "b" +:+ ":[1,true]}").
Proof. vm_compute. reflexivity. Qed.

Example sprint_values :
  Sprint_v (AMap [("b", jnum "1e6"); ("a", AList [ANil; jnum "0.5"; AInt KInt 7])])
  = "map[a:[<nil> 0.5 7] b:1e+06]".
Proof. vm_compute. reflexivity. Qed.

(** ** Deep equality

    [reflect.DeepEqual] on decoded values: the dynamic types must agree, floats
    compare with [==], arrays compare element by element and maps by their
    members. *)

Section deep_lists.
Context (eqv : any → any → bool).
Fixpoint deep_list (l l' : list any) : bool :=
match l, l' with
| [], [] => true
| x :: l, y :: l' => eqv x y && deep_list l l'
| _, _ => false
end.
End deep_lists.

Fixpoint DeepEqual (a b : any) {struct a} : bool :=
  match a, b with
  | ANil, ANil => true
  | ABool x, ABool y => Bool.eqb x y
  | AStr x, AStr y => String.eqb x y
  | AFloat x, AFloat y => feq x y
  | AFloat32 x, AFloat32 y => feq x y
  | AInt k x, AInt k' y => bool_decide (k = k') && (x =? y)
  | AList l, AList l' => deep_list DeepEqual l l'
  | AMap m, AMap m' =>
      (length m =? length m')%nat &&
      forallb (λ kv, match mget kv.1 m' with Some y => DeepEqual kv.2 y | None => false end) m
  | _, _ => false
  end.
