(* ===== verification/Canonical.v ===== *)
(** * Properties of the canonical form

    The escaping of strings is injective and self-delimiting, and the first
    byte of a canonical text tells the JSON type of the value. *)

From Stdlib Require Import Floats.SpecFloat DecimalString DecimalZ.
From S2P Require Import Prelude GoStrings GoFloat Json.

(** ** Self-delimiting escapes *)

Lemma prefix_app s t : String.prefix s (s +:+ t) = true.
Proof.
  induction s as [|c s IH]; [by destruct t|]. rewrite append_cons. simpl.
  by destruct (ascii_dec c c).
Qed.

Lemma app_eq_prefix x y t u :
  x +:+ t = y +:+ u → String.prefix x y = true ∨ String.prefix y x = true.
Proof.
  revert y. induction x as [|c x IH]; intros y H; [left; by destruct y|].
  destruct y as [|d y]; [by right|]. rewrite !append_cons in H. simplify_eq. simpl.
  destruct (ascii_dec d d); [|done]. eauto.
Qed.

Lemma str_app_inj_l x t u : x +:+ t = x +:+ u → t = u.
Proof. induction x as [|c x IH]; [done|]. rewrite !append_cons. intros; simplify_eq. auto. Qed.

Definition all_chars : list ascii := ascii_of_nat <$> seq 0 256.

Lemma all_chars_elem c : In c all_chars.
Proof.
  unfold all_chars. apply in_map_iff. exists (nat_of_ascii c).
  split; [apply ascii_nat_embedding|]. apply in_seq. split; [lia|]. apply nat_ascii_bounded.
Qed.

(** No escape is a prefix of another one, or starts with the closing quote. *)
Definition escapes_separated : bool :=
  forallb (λ c1, negb (String.prefix (String dquote "") (canonical_char c1)) &&
    negb (String.prefix (canonical_char c1) (String dquote "")) &&
    forallb (λ c2, Ascii.eqb c1 c2 ||
      negb (String.prefix (canonical_char c1) (canonical_char c2))) all_chars) all_chars.

Lemma escapes_separated_true : escapes_separated = true.
Proof. vm_compute. reflexivity. Qed.

Lemma canonical_char_prefix c1 c2 :
  String.prefix (canonical_char c1) (canonical_char c2) = true → c1 = c2.
Proof.
  pose proof escapes_separated_true as H. unfold escapes_separated in H.
  rewrite forallb_forall in H. specialize (H c1 (all_chars_elem c1)). go_bool.
  match goal with H : forallb _ _ = true |- _ =>
    rewrite forallb_forall in H; specialize (H c2 (all_chars_elem c2)) end.
  intros Hp. rewrite Hp, orb_false_r in *. by apply Ascii.eqb_eq.
Qed.

Lemma canonical_char_quote c t u : canonical_char c +:+ t ≠ String dquote u.
Proof.
  intros E. change (String dquote u) with (String dquote "" +:+ u) in E.
  pose proof escapes_separated_true as H. unfold escapes_separated in H.
  rewrite forallb_forall in H. specialize (H c (all_chars_elem c)). go_bool.
  apply app_eq_prefix in E as [E|E]; congruence.
Qed.

Lemma canonical_body_inj s1 s2 t1 t2 :
  canonical_body s1 +:+ String dquote t1 = canonical_body s2 +:+ String dquote t2 →
  s1 = s2 ∧ t1 = t2.
Proof.
  revert s2. induction s1 as [|c1 s1 IH]; intros [|c2 s2]; simpl; intros E.
  - by simplify_eq/=.
  - rewrite <- str_app_assoc in E. symmetry in E. by apply canonical_char_quote in E.
  - rewrite <- str_app_assoc in E. by apply canonical_char_quote in E.
  - rewrite <- !str_app_assoc in E. assert (c1 = c2) as ->.
    { pose proof E as E'. apply app_eq_prefix in E' as [E'|E'];
        apply canonical_char_prefix in E'; congruence. }
    apply str_app_inj_l, IH in E as [-> ->]. done.
Qed.

(** [writeCanonicalString] is injective. *)
Lemma writeCanonicalString_inj s1 s2 : writeCanonicalString s1 = writeCanonicalString s2 → s1 = s2.
Proof.
  unfold writeCanonicalString. intros E. simplify_eq.
  by apply (canonical_body_inj s1 s2 "" "") in E as [? _].
Qed.

(** ** The first byte of a canonical text *)

Definition first_char (s : string) : option ascii :=
  match s with EmptyString => None | String c _ => Some c end.

Definition number_head (c : ascii) : bool := is_digit c || Ascii.eqb c "-".

Lemma first_char_app s t : s ≠ "" → first_char (s +:+ t) = first_char s.
Proof. by destruct s. Qed.

Lemma first_char_stake n s : (0 < n)%nat → first_char (stake n s) = first_char s.
Proof. destruct n, s; simpl; (done || lia). Qed.

Lemma Itoa_head z : ∃ c, first_char (Itoa z) = Some c ∧ number_head c = true.
Proof.
  unfold Itoa. destruct (Z.to_int z) as [d|d]; [|by eexists].
  destruct d; by eexists.
Qed.

Lemma formatCanonicalFloat_head f :
  ∃ c, first_char (formatCanonicalFloat f) = Some c ∧ number_head c = true.
Proof.
  destruct f as [| | |neg m e]; try (by eexists). unfold formatCanonicalFloat.
  destruct (shortest binary64 m e) as [d p]. cbv zeta.
  destruct neg; [by eexists|]. change ("" +:+ ?x) with x.
  destruct (Itoa_head d) as (c & Hc & Hn).
  assert (Itoa d ≠ "") as Hne by (intros E; rewrite E in Hc; done).
  repeat case_match; try (by eexists);
    try (exists c; split; [|done]; rewrite ?first_char_app; rewrite ?first_char_stake; try done; go_bool; lia).
  all: exists c; split; [|done]; destruct (Itoa d) as [|c' r]; simplify_eq/=; go_bool; try done.
  all: match goal with H : (0 <? ?n) = true |- _ => apply Z.ltb_lt in H; destruct (Z.to_nat n) eqn:En; [lia|done] end.
Qed.

Inductive json_type := TNull | TTrue | TFalse | TString | TNumber | TArray | TObject.

Definition type_of (v : any) : json_type :=
  match v with
  | ANil => TNull
  | ABool b => if b then TTrue else TFalse
  | AStr _ => TString
  | AFloat _ | AFloat32 _ | AInt _ _ => TNumber
  | AList _ => TArray
  | AMap _ => TObject
  end.

(** The JSON type a first byte announces. *)
Definition type_of_head (c : ascii) : option json_type :=
  if number_head c then Some TNumber
  else if Ascii.eqb c dquote then Some TString
  else if Ascii.eqb c "n" then Some TNull
  else if Ascii.eqb c "t" then Some TTrue
  else if Ascii.eqb c "f" then Some TFalse
  else if Ascii.eqb c "[" then Some TArray
  else if Ascii.eqb c "{" then Some TObject
  else None.

Lemma writeCanonicalJSON_head v :
  ∃ c, first_char (writeCanonicalJSON v) = Some c ∧ type_of_head c = Some (type_of v).
Proof.
  destruct v as [|[]| | | | | |]; try (by eexists); simpl;
    match goal with |- context[formatCanonicalFloat ?f] =>
      destruct (formatCanonicalFloat_head f) as (c & Hc & Hn) end;
    exists c; (split; [done|]); unfold type_of_head; by rewrite Hn.
Qed.

(** Values of different JSON types have different canonical texts. *)
Lemma writeCanonicalJSON_type a b :
  writeCanonicalJSON a = writeCanonicalJSON b → type_of a = type_of b.
Proof.
  intros E. destruct (writeCanonicalJSON_head a) as (c & Hc & Ha).
  destruct (writeCanonicalJSON_head b) as (c' & Hc' & Hb).
  rewrite E in Hc. congruence.
Qed.

Lemma writeCanonicalJSON_str s b : writeCanonicalJSON (AStr s) = writeCanonicalJSON b → b = AStr s.
Proof.
  intros E. pose proof (writeCanonicalJSON_type _ _ E) as Ht.
  destruct b as [|[]| | | | | |]; simpl in Ht; try done. simpl in E.
  by apply writeCanonicalString_inj in E as ->.
Qed.

Lemma writeCanonicalJSON_bool x b : writeCanonicalJSON (ABool x) = writeCanonicalJSON b → b = ABool x.
Proof.
  intros E. pose proof (writeCanonicalJSON_type _ _ E) as Ht.
  destruct x, b as [|[]| | | | | |]; simpl in Ht; done.
Qed.
