(* ===== verification/Ids.v ===== *)
(** * Capability identifiers

    The identifier grammar, path coverage and language revisions of
    semantics/semantics.go, with the coverage relation they implement. *)

From S2P Require Import Prelude GoStrings Regex.

(** ** Reason codes (the sentinel errors of semantics.go) *)

Definition ErrUnsupportedWildcard : error := "unsupported_wildcard".
Definition ErrInvalidCapabilityID : error := "invalid_capability_id".
Definition ErrMissingCapabilityID : error := "missing_capability_id".
Definition ErrInvalidConstraint : error := "invalid_constraint".
Definition ErrInvalidParamsNull : error := "invalid_params_null".
Definition ErrParamsMissing : error := "params_missing".
Definition ErrParamsUndeclared : error := "undeclared_param".
Definition ErrCapabilityNotAuth : error := "capability_not_authorized".
Definition ErrUnknownConstraint : error := "unknown_constraint".
Definition ErrDifferentNamespace : error := "different_namespace".
Definition ErrLiteralMismatch : error := "literal_mismatch".
Definition ErrWildcardNoTrailing : error := "wildcard_requires_trailing_segment".
Definition ErrParamsExceedGrant : error := "params_exceed_grant".
Definition ErrEmptyBoundDenies : error := "empty_bound_denies_class".
Definition ErrNotInEnum : error := "not_in_enum".
Definition ErrNoOverlap : error := "no_overlap".
Definition ErrAbsentSource : error := "absent_source".
Definition ErrInvalidParamsDupKey : error := "invalid_params_duplicate_key".
Definition ErrInvalidParamsNumber : error := "invalid_params_number".
Definition ErrInvalidParamsSize : error := "invalid_params_size".
Definition ErrInvalidParamsBinding : error := "invalid_params_binding".
Definition ErrParamsCardinality : error := "params_cardinality".
Definition ErrParamsOutOfRange : error := "params_out_of_range".
Definition ErrParamsNotMultiple : error := "params_not_multiple".
Definition ErrUnsupportedLangRev : error := "unsupported_language_revision".
Definition ErrChildExceedsParent : error := "child_exceeds_parent".
Definition ErrParamsNotNarrower : error := "params_not_narrower".

Definition colon : ascii := ":".

(** [^[a-zA-Z0-9-]+/[a-zA-Z0-9-]+-v[0-9]+$] *)
Definition alnum_dash : re := Chr (λ c, is_alnum c || Ascii.eqb c "-").
Definition capabilitySchemeRE : re :=
  Cat (Plus alnum_dash) (Cat (lit "/") (Cat (Plus alnum_dash) (Cat (lit "-v") (Plus digit)))).

(** The segment loop of [ValidateCapabilityID]: a segment that contains a star
    is exactly the star, and it is the last one. *)
Fixpoint check_wildcards (parts : list string) : check :=
  match parts with
  | [] => None
  | p :: rest =>
      (if contains_char "*" p
       then guard (negb (String.eqb p "*")) ErrUnsupportedWildcard ;;?
            guard (match rest with [] => false | _ => true end) ErrUnsupportedWildcard
       else None) ;;?
      check_wildcards rest
  end.

Definition ValidateCapabilityID (id : string) : check :=
  guard (String.eqb id "") ErrMissingCapabilityID ;;?
  guard (String.eqb id "*") ErrUnsupportedWildcard ;;?
  guard (Contains_str id "**") ErrUnsupportedWildcard ;;?
  guard (Contains_str id "{" || Contains_str id "}") ErrUnsupportedWildcard ;;?
  guard (Contains_str id "[" || Contains_str id "]") ErrUnsupportedWildcard ;;?
  let parts := Split colon id in
  check_wildcards parts ;;?
  guard (length parts <? 2)%nat ErrInvalidCapabilityID ;;?
  guard (negb (matches capabilitySchemeRE (default "" (head parts)))) ErrInvalidCapabilityID.

(** [namespaceOf]: scheme and action class. *)
Definition namespaceOf (id : string) : string :=
  match Split colon id with
  | p0 :: p1 :: _ => p0 +:+ ":" +:+ p1
  | _ => id
  end.

(** The prefix loop of a shorter wildcard grant. *)
Fixpoint match_prefix (g o : list string) : check :=
  match g, o with
  | x :: ((_ :: _) as g'), y :: o' =>
      guard (negb (String.eqb x y)) ErrLiteralMismatch ;;? match_prefix g' o'
  | _, _ => None
  end.

(** The segment loop over identifiers of the same length. *)
Fixpoint match_segments (g o : list string) : check :=
  match g, o with
  | x :: g', y :: o' =>
      if String.eqb x "*" then
        match g' with [] => None | _ => Some ErrLiteralMismatch end
      else guard (negb (String.eqb x y)) ErrLiteralMismatch ;;? match_segments g' o'
  | _, _ => None
  end.

Definition last_segment (l : list string) : string := default "" (list.last l).

(** [matchID]: [None] is coverage, [Some reason] the refusal. *)
Definition matchID (grantID opID : string) : check :=
  let gParts := Split colon grantID in
  let oParts := Split colon opID in
  guard (negb (String.eqb (namespaceOf grantID) (namespaceOf opID))) ErrDifferentNamespace ;;?
  if negb (length gParts =? length oParts)%nat then
    if String.eqb (last_segment gParts) "*" then
      guard (length oParts <=? length gParts - 1)%nat ErrWildcardNoTrailing ;;?
      match_prefix gParts oParts
    else Some ErrLiteralMismatch
  else match_segments gParts oParts.

(** ** The coverage relation *)

(** A grant path covers an operation path when they are the same, or when the
    grant ends in a star and the operation extends its prefix by one or more
    segments; the first two segments (the namespace) agree in any case. *)
Inductive covers_path : list string → list string → Prop :=
  | covers_exact p : covers_path p p
  | covers_star p rest : rest ≠ [] → covers_path (p ++ ["*"]) (p ++ rest).

Definition covers (g o : list string) : Prop := take 2 g = take 2 o ∧ covers_path g o.

(** Segments of a valid identifier: a star only in the last position. *)
Fixpoint star_last (l : list string) : Prop :=
  match l with
  | [] => True
  | p :: rest => (p = "*" → rest = []) ∧ star_last rest
  end.

Lemma check_wildcards_star_last l : check_wildcards l = None → star_last l.
Proof.
  induction l as [|p l IH]; [done|]. cbn [check_wildcards star_last].
  rewrite check_seq_None. intros [H1 H2]. split; [|by apply IH]. intros ->. simpl in H1.
  by destruct l.
Qed.

Lemma ValidateCapabilityID_parts id :
  ValidateCapabilityID id = None →
  star_last (Split colon id) ∧ (2 <= length (Split colon id))%nat.
Proof.
  unfold ValidateCapabilityID. rewrite !check_seq_None, !guard_None.
  intros (_ & _ & _ & _ & _ & Hw & Hl & _).
  apply Nat.ltb_ge in Hl. auto using check_wildcards_star_last.
Qed.

(** Two identifiers with at least two segments share the namespace exactly
    when their first two segments agree. *)
Lemma namespaceOf_take a b :
  (2 <= length (Split colon a))%nat → (2 <= length (Split colon b))%nat →
  namespaceOf a = namespaceOf b ↔ take 2 (Split colon a) = take 2 (Split colon b).
Proof.
  unfold namespaceOf. intros Ha Hb.
  pose proof (Split_no_sep colon a) as Na. pose proof (Split_no_sep colon b) as Nb.
  destruct (Split colon a) as [|a0 [|a1 ?]]; simpl in *; try lia.
  destruct (Split colon b) as [|b0 [|b1 ?]]; simpl in *; try lia.
  inversion Na as [|?? Na0 Na']; inversion Na' as [|?? Na1 _]; subst.
  inversion Nb as [|?? Nb0 Nb']; inversion Nb' as [|?? Nb1 _]; subst.
  split; [|intros; by simplify_eq]. intros H.
  assert (Split colon (a0 +:+ ":" +:+ a1) = Split colon (b0 +:+ ":" +:+ b1)) as HS by congruence.
  change (":" +:+ a1) with (String colon a1) in HS. change (":" +:+ b1) with (String colon b1) in HS.
  rewrite !Split_app, !Split_single in HS by done. by simplify_eq.
Qed.

Lemma covers_path_cons x g o : covers_path g o → covers_path (x :: g) (x :: o).
Proof.
  destruct 1 as [p|p rest H]; [constructor|].
  change (x :: p ++ ["*"]) with ((x :: p) ++ ["*"]). change (x :: p ++ rest) with ((x :: p) ++ rest).
  by constructor.
Qed.

Lemma covers_path_cons_inv x g o :
  star_last (x :: g) → x ≠ "*" → covers_path (x :: g) o →
  ∃ o', o = x :: o' ∧ covers_path g o'.
Proof.
  intros _ Hx H. inversion H as [p|p rest Hr E]; subst.
  - eexists. split; [done|constructor].
  - destruct p as [|x' p]; simpl in *; simplify_eq.
    eexists. split; [done|]. by constructor.
Qed.

Lemma match_segments_covers g o :
  star_last g → length g = length o → match_segments g o = None ↔ covers_path g o.
Proof.
  revert o. induction g as [|x g IH]; intros [|y o] Hs Hl; simpl in *; try done.
  - split; [constructor|done].
  - destruct Hs as [Hx Hs]. destruct (String.eqb_spec x "*") as [->|Hne].
    + rewrite (Hx eq_refl) in *. destruct o; [|done]. split; [|done]. intros _.
      by apply (covers_star []).
    + rewrite check_seq_None, guard_None, IH by (done || lia). split.
      * intros [?%negb_false_iff%String.eqb_eq ?]; subst. by apply covers_path_cons.
      * intros (o' & E & H)%covers_path_cons_inv; [|done..]. simplify_eq.
        by rewrite String.eqb_refl.
Qed.

Lemma match_prefix_covers g o :
  (length g <= length o)%nat → last_segment g = "*" → g ≠ [] →
  match_prefix g o = None ↔ ∃ p rest, g = p ++ ["*"] ∧ o = p ++ rest ∧ rest ≠ [].
Proof.
  revert o. induction g as [|x g IH]; intros o Hl Hla Hne; [done|].
  destruct g as [|x2 g].
  - unfold last_segment in Hla. simpl in *. subst. split; [intros _|by destruct o].
    exists [], o. by destruct o; simpl in *; [lia|].
  - destruct o as [|y o]; [simpl in Hl; lia|].
    change (match_prefix (x :: x2 :: g) (y :: o)) with
      (guard (negb (String.eqb x y)) ErrLiteralMismatch ;;? match_prefix (x2 :: g) o).
    assert (last_segment (x2 :: g) = "*") by done.
    rewrite check_seq_None, guard_None, IH by (simpl in *; done || lia). split.
    + intros [?%negb_false_iff%String.eqb_eq (p & rest & -> & -> & ?)]; subst.
      by exists (y :: p), rest.
    + intros (p & rest & E1 & E2 & Hr). destruct p as [|z p]; simpl in *; [by simplify_eq|].
      simplify_eq. rewrite String.eqb_refl. split; [done|]. by exists p, rest.
Qed.

Lemma covers_path_last g o :
  covers_path g o → length g ≠ length o →
  ∃ p rest, g = p ++ ["*"] ∧ o = p ++ rest ∧ rest ≠ [].
Proof. destruct 1; [done|]. eauto. Qed.

Lemma last_segment_snoc p : last_segment (p ++ ["*"]) = "*".
Proof. unfold last_segment. by rewrite last_snoc. Qed.

(** [matchID] decides the coverage relation on valid identifiers. *)
Lemma matchID_covers g o :
  ValidateCapabilityID g = None → ValidateCapabilityID o = None →
  matchID g o = None ↔ covers (Split colon g) (Split colon o).
Proof.
  intros [Hsg Hlg]%ValidateCapabilityID_parts [_ Hlo]%ValidateCapabilityID_parts.
  unfold matchID, covers. rewrite check_seq_None, guard_None, negb_false_iff, String.eqb_eq.
  rewrite namespaceOf_take by done. apply and_iff_compat_l.
  destruct (Nat.eqb_spec (length (Split colon g)) (length (Split colon o))) as [E|E]; simpl.
  - by apply match_segments_covers.
  - destruct (String.eqb_spec (last_segment (Split colon g)) "*") as [El|El].
    + rewrite check_seq_None, guard_None, Nat.leb_gt. split.
      * intros [Hlt Hm]. apply match_prefix_covers in Hm as (p & rest & -> & -> & Hr);
          [by constructor|lia|done|apply Split_not_nil].
      * intros H. pose proof (covers_path_last _ _ H E) as (p & rest & Eg & Eo & Hr).
        assert (length (Split colon g) <= length (Split colon o))%nat as Hle.
        { rewrite Eg, Eo, !length_app. destruct rest; simpl; [done|lia]. }
        split; [lia|]. apply match_prefix_covers; eauto using Split_not_nil.
    + split; [done|]. intros H. destruct El.
      destruct (covers_path_last _ _ H E) as (p & rest & -> & _). apply last_segment_snoc.
Qed.

Lemma covers_trans a b c : covers a b → covers b c → covers a c.
Proof.
  intros [T1 H1] [T2 H2]. split; [congruence|]. clear T1 T2.
  inversion H1 as [|p rest Hr]; subst; [done|]. inversion H2 as [q|q rest' Hr' E]; subst; [done|].
  destruct (exists_last Hr) as (r' & z & ->). rewrite app_assoc in E.
  apply app_inj_tail in E as [-> <-]. rewrite <- app_assoc. constructor.
  destruct r'; simpl; [done|by destruct rest'].
Qed.

Lemma covers_refl a : covers a a.
Proof. split; [done|constructor]. Qed.

#[export] Hint Resolve covers_trans covers_refl : go.

(** ** Language revisions *)

Definition CLCRevision : string := "CLC-1.19".

(** [parseRevision]: [CLC-<major>.<minor>], both non-negative integers. *)
Definition parseRevision (rev : string) : option (Z * Z) :=
  if HasPrefix rev "CLC-" then
    let rest := TrimPrefix rev "CLC-" in
    match IndexByte "." rest with
    | None => None
    | Some i =>
        let '(maj, ok1) := Atoi (stake i rest) in
        let '(min, ok2) := Atoi (sdrop (S i) rest) in
        if negb ok1 || negb ok2 || (maj <? 0) || (min <? 0) then None else Some (maj, min)
    end
  else None.

Definition RevisionCompatible (inputRevision : string) : bool :=
  match parseRevision inputRevision with
  | None => false
  | Some (iMaj, iMin) =>
      let '(maj, min) := default (0, 0) (parseRevision CLCRevision) in
      (iMaj =? maj) && (iMin <=? min)
  end.
