(* ===== verification/Values.v ===== *)
(** * Parameter values

    Parameter validation and the value-level relations of
    semantics/semantics.go: [valueSubset] (an operation value stays within a
    grant value), [enumEqual] (exact JSON equality) and [intersectValue] (the
    meet of two grant values). *)

From Stdlib Require Import Floats.SpecFloat.
From S2P Require Import Prelude GoStrings GoFloat Json Canonical Ids.

(** ** Input-boundary checks *)

Definition ijsonMaxInteger : Z := 2 ^ 53 - 1.
Definition maxParamsSerializedBytes : Z := 512.
Definition maxParamsNesting : Z := 32.

Fixpoint rejectNonFinite (v : any) : check :=
  match v with
  | AFloat f =>
      guard (IsNaN f || IsInf f) ErrInvalidParamsNumber ;;?
      guard (feq f (Trunc f) && fgt (fabs f) (of_Z ijsonMaxInteger)) ErrInvalidParamsNumber
  | AInt (KInt | KInt64) z =>
      guard ((ijsonMaxInteger <? z) || (z <? - ijsonMaxInteger)) ErrInvalidParamsNumber
  | AInt (KUint | KUint64) z => guard (ijsonMaxInteger <? z) ErrInvalidParamsNumber
  | AList l => check_all rejectNonFinite l
  | AMap m => check_all (λ kv, rejectNonFinite kv.2) m
  | _ => None
  end.

(** [paramsDepth]: a container counts one level, a scalar none. *)
Fixpoint paramsDepth (v : any) (depth : Z) : Z :=
  match v with
  | AMap m => fold_right (λ kv acc, Z.max (paramsDepth kv.2 (depth + 1)) acc) depth m
  | AList l => fold_right (λ x acc, Z.max (paramsDepth x (depth + 1)) acc) depth l
  | _ => depth - 1
  end.

Definition validateObjectParams (params : gomap any) : check :=
  guard (maxParamsNesting <? paramsDepth (AMap params) 1) ErrInvalidParamsSize ;;?
  match CanonicalJSON (AMap params) with
  | inr ErrCanonicalOther => Some ErrInvalidParamsNumber
  | inr e => Some (wrap ErrInvalidParamsNumber (canon_error_text e))
  | inl b => guard (maxParamsSerializedBytes <? Z.of_nat (String.length b)) ErrInvalidParamsSize
  end.

Definition param_entry_ok (kv : string * any) : check :=
  guard (is_nil kv.2) (wrap ErrInvalidParamsNull kv.1) ;;? rejectNonFinite kv.2.

Definition ValidateGrantParams (params : gomap any) : check :=
  validateObjectParams params ;;? check_all param_entry_ok params.

Definition ValidateOperationParams (params : gomap any) : check :=
  validateObjectParams params ;;? check_all param_entry_ok params.

(** ** Value relations *)

(** [numericValue]: every host carrier of a JSON number, as a float64. *)
Definition numericValue (v : any) : option float64 :=
  match v with
  | AFloat f | AFloat32 f => Some f
  | AInt _ z => Some (of_Z z)
  | _ => None
  end.

Definition enumEqual (a b : any) : bool :=
  match CanonicalJSON a, CanonicalJSON b with
  | inl ca, inl cb => String.eqb ca cb
  | _, _ => String.eqb (Sprint_v a) (Sprint_v b)
  end.

Definition isEmptyBound (v : any) : bool :=
  match v with AList [] | AMap [] => true | _ => false end.

Definition hasEmptyBound (params : gomap any) : bool := existsb (λ kv, isEmptyBound kv.2) params.

(** The elements an array-valued grant is compared with: a scalar request is a
    singleton. *)
Definition request_elems (v : any) : list any := match v with AList l => l | _ => [v] end.

Definition enum_covered (gv : list any) (o : any) : bool := existsb (enumEqual o) gv.

(** Key closure: every key of the request is declared. *)
Definition closed_keys (op declared : gomap any) : check :=
  check_all (λ kv, guard (negb (mhas kv.1 declared)) (wrap ErrParamsUndeclared kv.1)) op.

Fixpoint valueSubset (opVal grantVal : any) {struct grantVal} : check :=
  guard (is_nil opVal) ErrInvalidParamsNull ;;?
  match grantVal with
  | ANil => Some ErrEmptyBoundDenies
  | AStr gv =>
      match opVal with AStr ov => guard (negb (String.eqb ov gv)) ErrParamsExceedGrant | _ => Some ErrParamsExceedGrant end
  | ABool gv =>
      match opVal with ABool ov => guard (negb (Bool.eqb ov gv)) ErrParamsExceedGrant | _ => Some ErrParamsExceedGrant end
  | AList gv =>
      guard (match gv with [] => true | _ => false end) ErrEmptyBoundDenies ;;?
      check_all (λ o, guard (negb (enum_covered gv o)) ErrNotInEnum) (request_elems opVal)
  | AMap gv =>
      match opVal with
      | AMap ov =>
          match gv with
          | [] => None
          | _ =>
              check_all (λ kv, match mget kv.1 ov with
                               | None => Some ErrParamsMissing
                               | Some ovv => valueSubset ovv kv.2
                               end) gv ;;?
              closed_keys ov gv
          end
      | _ => Some ErrParamsExceedGrant
      end
  | AFloat _ | AFloat32 _ | AInt _ _ =>
      match numericValue grantVal, numericValue opVal with
      | Some gn, Some on => guard (fgt on gn) ErrParamsExceedGrant
      | _, _ => Some ErrParamsExceedGrant
      end
  end.

(** [paramsSubset]: layers 5-9 of the decision over [params] alone.  A nil map
    is [None]. *)
Definition paramsSubset (opParams : option (gomap any)) (grantParams : gomap any) : check :=
  match grantParams with
  | [] => None
  | _ =>
      guard (hasEmptyBound grantParams) ErrEmptyBoundDenies ;;?
      check_all (λ kv, guard (is_nil kv.2) (wrap ErrInvalidParamsNull kv.1)) grantParams ;;?
      match opParams with
      | None => Some ErrParamsMissing
      | Some op =>
          check_all (λ kv, guard (is_nil kv.2) (wrap ErrInvalidParamsNull kv.1)) op ;;?
          check_all (λ kv, guard (negb (mhas kv.1 op)) ErrParamsMissing) grantParams ;;?
          closed_keys op grantParams ;;?
          check_all (λ kv, valueSubset (default ANil (mget kv.1 op)) kv.2) grantParams
      end
  end.

(** [ConstraintWithin] and [containsWithin]: an absent bound admits anything. *)
Definition ConstraintWithin (value bound : any) : check :=
  guard (is_nil value) ErrInvalidParamsNull ;;?
  if is_nil bound then None else valueSubset value bound.
Definition containsWithin (childVal parentBound : any) : check :=
  guard (is_nil childVal) ErrInvalidParamsNull ;;?
  if is_nil parentBound then None else valueSubset childVal parentBound.

(** The meet of two membership sets, in the order of the first. *)
Definition enum_inter (av bv : list any) : list any := List.filter (enum_covered bv) av.

(** The member loop of the object case: every key of the first object is met
    with the second's value, in the first's order. *)
Section meet_members.
Context (meet : any → any → result any) (bv : gomap any).
Fixpoint meet_members (l : gomap any) : result (gomap any) :=
match l with
| [] => inl []
| kv :: l' =>
    match mget kv.1 bv with
    | None => inr ErrNoOverlap
    | Some bvv =>
        let! v := meet kv.2 bvv in
        let! r := meet_members l' in inl ((kv.1, v) :: r)
    end
end.
End meet_members.

Fixpoint intersectValue (a b : any) {struct a} : result any :=
  match a with
  | AFloat av =>
      match b with
      | AFloat bv => inl (if flt av bv then AFloat av else AFloat bv)
      | _ => inr ErrNoOverlap
      end
  | AList av =>
      match b with
      | AList bv =>
          match enum_inter av bv with [] => inr ErrNoOverlap | r => inl (AList r) end
      | _ => inr ErrNoOverlap
      end
  | AMap av =>
      match b with
      | AMap bv =>
          if negb (length av =? length bv)%nat then inr ErrNoOverlap
          else
            let! r := meet_members intersectValue bv av in
            match r with [] => inr ErrNoOverlap | _ => inl (AMap r) end
      | _ => inr ErrNoOverlap
      end
  | _ => if enumEqual a b then inl a else inr ErrNoOverlap
  end.

(** ** Values with a canonical form *)

(** Every subterm of an accepted parameter object has a canonical form, so its
    members are compared by their JCS text. *)
Definition canonical_ok (v : any) : Prop :=
  validateCanonicalStrings v 0 = None ∧ encodable v = true.

Lemma CanonicalJSON_inl v t : CanonicalJSON v = inl t ↔ canonical_ok v ∧ t = writeCanonicalJSON v.
Proof.
  unfold CanonicalJSON, canonical_ok.
  destruct (validateCanonicalStrings v 0), (encodable v); naive_solver.
Qed.

Lemma validateCanonicalStrings_mono v d d' :
  d' <= d → validateCanonicalStrings v d = None → validateCanonicalStrings v d' = None.
Proof.
  revert d d'. induction v as [| | | | | |l IH|m IH] using any_nested_ind; intros d d' Hd;
    simpl; rewrite !check_seq_None, !guard_None, !Z.ltb_ge; try (intros [? ?]; split; [lia|done]).
  - rewrite !check_all_None. intros [? H]. split; [lia|]. intros x Hx.
    rewrite list.Forall_forall in IH. apply (IH x Hx (d + 1)); [lia|auto].
  - rewrite !check_all_None. intros [? H]. split; [lia|]. intros kv Hkv.
    specialize (H kv Hkv). rewrite check_seq_None in *. split; [tauto|].
    rewrite list.Forall_forall in IH. apply (IH kv Hkv (d + 1)); [lia|tauto].
Qed.

Lemma canonical_ok_list l x : canonical_ok (AList l) → x ∈ l → canonical_ok x.
Proof.
  unfold canonical_ok. simpl. rewrite check_all_None, forallb_forall.
  intros [H1 H2] Hx. split.
  - apply validateCanonicalStrings_mono with (d := 1); [lia|]. by apply H1.
  - apply H2. by apply list_elem_of_In.
Qed.

Lemma canonical_ok_map m kv : canonical_ok (AMap m) → kv ∈ m → canonical_ok kv.2.
Proof.
  unfold canonical_ok. simpl. rewrite check_all_None, forallb_forall.
  intros [H1 H2] Hx. split.
  - apply validateCanonicalStrings_mono with (d := 1); [lia|].
    specialize (H1 kv Hx). rewrite check_seq_None in H1. tauto.
  - apply H2. by apply list_elem_of_In.
Qed.

Lemma canonical_ok_mget m k v : canonical_ok (AMap m) → mget k m = Some v → canonical_ok v.
Proof. intros H1 H2%mget_elem. by apply (canonical_ok_map m (k, v)). Qed.

Lemma canonical_ok_number v f : canonical_ok v → numericValue v = Some f → IsNaN f = false.
Proof.
  intros [_ He]. destruct v; simpl in *; intros; simplify_eq;
    try (unfold isFinite in He; by go_bool). apply of_Z_not_nan.
Qed.

#[export] Hint Resolve canonical_ok_list canonical_ok_mget : go.

Lemma enumEqual_canonical a b :
  canonical_ok a → canonical_ok b →
  enumEqual a b = true ↔ writeCanonicalJSON a = writeCanonicalJSON b.
Proof.
  intros Ha Hb. unfold enumEqual.
  rewrite (proj2 (CanonicalJSON_inl a _) (conj Ha eq_refl)).
  rewrite (proj2 (CanonicalJSON_inl b _) (conj Hb eq_refl)). apply String.eqb_eq.
Qed.

Lemma enumEqual_refl a : enumEqual a a = true.
Proof. unfold enumEqual. destruct (CanonicalJSON a); apply String.eqb_refl. Qed.

Lemma enumEqual_trans a b c :
  canonical_ok a → canonical_ok b → canonical_ok c →
  enumEqual a b = true → enumEqual b c = true → enumEqual a c = true.
Proof. intros. rewrite enumEqual_canonical in *; congruence. Qed.

Lemma enum_covered_true gv o : enum_covered gv o = true ↔ ∃ g, g ∈ gv ∧ enumEqual o g = true.
Proof.
  unfold enum_covered. rewrite existsb_exists. split; intros (g & Hg & He); exists g.
  - by apply list_elem_of_In in Hg.
  - by rewrite <- list_elem_of_In.
Qed.

(** Membership composes: an element covered by a set whose members are covered
    by a larger set is covered by the larger set. *)
Lemma enum_covered_trans (cv pv : list any) o :
  canonical_ok o → (∀ c, c ∈ cv → canonical_ok c) → (∀ p, p ∈ pv → canonical_ok p) →
  (∀ c, c ∈ cv → enum_covered pv c = true) → enum_covered cv o = true → enum_covered pv o = true.
Proof.
  intros Ho Hc Hp Hcp. rewrite enum_covered_true. intros (c & Hin & He).
  pose proof (Hcp c Hin) as (p & Hpin & He')%enum_covered_true.
  apply enum_covered_true. exists p. split; [done|].
  apply (enumEqual_trans o c p); [done|by apply Hc|by apply Hp|done|done].
Qed.

Lemma request_elems_canonical v o : canonical_ok v → o ∈ request_elems v → canonical_ok o.
Proof.
  intros Hv. destruct v; simpl; try (intros ->%list_elem_of_singleton; done).
  by apply canonical_ok_list.
Qed.

(** ** When a value is within another *)

Lemma closed_keys_None op declared :
  closed_keys op declared = None ↔ ∀ k, k ∈ mkeys op → k ∈ mkeys declared.
Proof.
  unfold closed_keys. rewrite check_all_None. unfold mkeys. split.
  - intros H k (kv & -> & Hkv)%list_elem_of_fmap. specialize (H kv Hkv).
    rewrite guard_None, negb_false_iff, mhas_true in H. done.
  - intros H kv Hkv. rewrite guard_None, negb_false_iff, mhas_true. apply H.
    by apply list_elem_of_fmap_2.
Qed.

Lemma valueSubset_not_nil o g : valueSubset o g = None → is_nil o = false ∧ is_nil g = false.
Proof.
  intros H. destruct g; simpl in H; try (apply check_seq_None in H as [H%guard_None H2]; done).
Qed.

Lemma valueSubset_list o gv :
  valueSubset o (AList gv) = None ↔
  is_nil o = false ∧ gv ≠ [] ∧ ∀ x, x ∈ request_elems o → enum_covered gv x = true.
Proof.
  simpl. rewrite !check_seq_None, !guard_None, check_all_None.
  setoid_rewrite guard_None. setoid_rewrite negb_false_iff. destruct gv; naive_solver.
Qed.

Lemma valueSubset_map o gv :
  valueSubset o (AMap gv) = None ↔
  ∃ ov, o = AMap ov ∧
    (gv = [] ∨
     (∀ k g, (k, g) ∈ gv → ∃ x, mget k ov = Some x ∧ valueSubset x g = None) ∧
     ∀ k, k ∈ mkeys ov → k ∈ mkeys gv).
Proof.
  destruct o as [| | | | | |l|ov]; simpl; try (split; [done|naive_solver]).
  destruct gv as [|kv0 gv0]; [split; naive_solver|]. remember (kv0 :: gv0) as gv eqn:E.
  rewrite check_seq_None, check_all_None, closed_keys_None. split.
  - intros [H1 H2]. exists ov. split; [done|]. right. split; [|done]. intros k g Hin.
    specialize (H1 _ Hin). simpl in H1. destruct (mget k ov) eqn:Eg; [eauto|done].
  - intros (ov' & ? & [->|[H1 H2]]); simplify_eq/=. split; [|done]. intros [k g] Hin.
    destruct (H1 _ _ Hin) as (x & Hx & Hs). simpl. by rewrite Hx.
Qed.

Lemma valueSubset_number o g gn :
  numericValue g = Some gn →
  valueSubset o g = None ↔ ∃ on, numericValue o = Some on ∧ fgt on gn = false.
Proof.
  intros Hg. destruct g; simpl in *; simplify_eq;
    destruct o; simpl; rewrite ?guard_None; naive_solver.
Qed.

(** ** Narrowing composes *)

(** The representation difference under which narrowing is not behavioural: a
    child number (an upper bound) or object listed as a member of a parent's
    enumeration.  [narrows_shape p c] excludes it, at every depth. *)
Fixpoint narrows_shape (p c : any) {struct p} : bool :=
  match p with
  | AList _ => match c with AList _ | AStr _ | ABool _ => true | _ => false end
  | AMap pm =>
      match c with
      | AMap cm =>
          forallb (λ kv, match mget kv.1 cm with
                         | Some cv => narrows_shape kv.2 cv
                         | None => true
                         end) pm
      | _ => true
      end
  | _ => true
  end.

Lemma narrows_shape_map pm cm k p c :
  narrows_shape (AMap pm) (AMap cm) = true → (k, p) ∈ pm → mget k cm = Some c →
  narrows_shape p c = true.
Proof.
  simpl. rewrite forallb_forall. intros H Hin Hc.
  specialize (H (k, p) (proj1 (list_elem_of_In _ _) Hin)). simpl in H. by rewrite Hc in H.
Qed.

(** A scalar child of an enumeration is one of its members, and it admits only
    itself. *)
Lemma scalar_child_covered o c pv :
  match c with AStr _ | ABool _ => True | _ => False end →
  valueSubset o c = None → valueSubset c (AList pv) = None → valueSubset o (AList pv) = None.
Proof.
  intros Hc H1 H2. destruct c as [|b|s| | | | |]; try done; destruct o; simpl in H1;
    try done; apply guard_None in H1; go_bool; subst;
    [apply eqb_prop in H1; by subst|done].
Qed.

Lemma number_trans p pn o c :
  numericValue p = Some pn → canonical_ok c →
  valueSubset o c = None → valueSubset c p = None → valueSubset o p = None.
Proof.
  intros Hp Hc Hoc Hcp. destruct (proj1 (valueSubset_number c p pn Hp) Hcp) as (cn & Ecn & Hcn).
  destruct (proj1 (valueSubset_number o c cn Ecn) Hoc) as (on & Eon & Hon).
  apply (valueSubset_number _ _ _ Hp). exists on. split; [done|].
  eauto using not_fgt_trans, canonical_ok_number.
Qed.

Lemma valueSubset_trans p : ∀ o c,
  canonical_ok o → canonical_ok c → canonical_ok p → narrows_shape p c = true →
  valueSubset o c = None → valueSubset c p = None → valueSubset o p = None.
Proof.
  induction p as [|b|s|f|f|k z|pl _|pm IH] using any_nested_ind; intros o c Ho Hc Hp Hn Hoc Hcp.
  - by apply valueSubset_not_nil in Hcp as [_ ?].
  - destruct c; simpl in Hcp; try done. apply guard_None in Hcp. go_bool.
    apply eqb_prop in Hcp. by subst.
  - destruct c; simpl in Hcp; try done. apply guard_None in Hcp. go_bool. by subst.
  - by apply (number_trans (AFloat f) f o c).
  - by apply (number_trans (AFloat32 f) f o c).
  - by apply (number_trans (AInt k z) (of_Z z) o c).
  - destruct c as [|b|s| | | |cl|]; try done;
      try (by eapply scalar_child_covered; [|exact Hoc|]).
    apply valueSubset_list in Hoc as (? & _ & Hoc). apply valueSubset_list in Hcp as (_ & ? & Hcp).
    apply valueSubset_list. split; [done|]. split; [done|]. intros x Hx.
    apply (enum_covered_trans cl pl); eauto using request_elems_canonical, canonical_ok_list.
  - apply valueSubset_map in Hcp as (cm & -> & Hcp). apply valueSubset_map in Hoc as (om & -> & Hoc).
    apply valueSubset_map. exists om. split; [done|]. destruct Hcp as [->|[Hcp1 Hcp2]]; [by left|].
    destruct pm as [|[k0 p0] pm']; [by left|]. remember ((k0, p0) :: pm') as pm eqn:Epm. right.
    destruct Hoc as [->|[Hoc1 Hoc2]].
    { destruct (Hcp1 k0 p0) as (x & Hx & _); [rewrite Epm; set_solver|done]. }
    split; [|eauto]. intros k p Hin. destruct (Hcp1 k p Hin) as (c & Hgc & Hsc).
    destruct (Hoc1 k c (mget_elem _ _ _ Hgc)) as (o & Hgo & Hso).
    exists o. split; [done|]. rewrite list.Forall_forall in IH.
    apply (IH (k, p) Hin o c); eauto using canonical_ok_mget, narrows_shape_map.
    by apply (canonical_ok_map pm (k, p)).
Qed.

(** ** The meet of two values narrows both *)

(** Values as the JSON decoder produces them: numbers are float64 and object
    keys are distinct. *)
Fixpoint decoded (v : any) : bool :=
  match v with
  | AFloat32 _ | AInt _ _ => false
  | AList l => forallb decoded l
  | AMap m => bool_decide (NoDup (mkeys m)) && forallb (λ kv, decoded kv.2) m
  | _ => true
  end.

Lemma decoded_map m k v : decoded (AMap m) = true → (k, v) ∈ m → decoded v = true.
Proof.
  simpl. rewrite andb_true_iff, forallb_forall. intros [_ H] Hin.
  by apply (H (k, v)), list_elem_of_In.
Qed.

Lemma decoded_wf m : decoded (AMap m) = true → wf_map m.
Proof. simpl. rewrite andb_true_iff, bool_decide_eq_true. by intros [? _]. Qed.

Lemma meet_members_inv meet bv l r :
  meet_members meet bv l = inl r →
  mkeys r = mkeys l ∧
  (∀ k a, (k, a) ∈ l → ∃ b v, mget k bv = Some b ∧ meet a b = inl v ∧ (k, v) ∈ r).
Proof.
  revert r. induction l as [|[k a] l IH]; intros r; simpl.
  - intros; simplify_eq. split; [done|]. intros ?? H. inversion H.
  - destruct (mget k bv) as [b|] eqn:Eb; [|done]. rewrite rbind_inl. intros (v & Hv & Hr).
    apply rbind_inl in Hr as (r' & Hr' & ?). simplify_eq/=. destruct (IH _ Hr') as [Hk Hm].
    split; [by rewrite Hk|]. intros k' a' [Heq|Hin]%elem_of_cons.
    + simplify_eq. exists b, v. set_solver.
    + destruct (Hm _ _ Hin) as (b' & v' & ? & ? & ?). exists b', v'. set_solver.
Qed.

(** Two maps of the same size, the keys of one among the keys of the other,
    have the same keys. *)
Lemma same_keys {A B} (m1 : gomap A) (m2 : gomap B) k :
  wf_map m1 → wf_map m2 → length m1 = length m2 →
  (∀ x, x ∈ mkeys m1 → x ∈ mkeys m2) → k ∈ mkeys m2 → k ∈ mkeys m1.
Proof.
  intros H1 H2 Hl Hsub Hk. assert (mkeys m1 ≡ₚ mkeys m2) as Hp; [|by rewrite Hp].
  apply submseteq_length_Permutation; [by apply NoDup_submseteq|].
  unfold mkeys. rewrite !length_fmap. lia.
Qed.

Lemma enum_inter_elem x av bv : x ∈ enum_inter av bv ↔ x ∈ av ∧ enum_covered bv x = true.
Proof. unfold enum_inter. by rewrite !list_elem_of_In, filter_In. Qed.

Lemma enum_inter_narrows o av bv :
  canonical_ok o → canonical_ok (AList av) → canonical_ok (AList bv) →
  valueSubset o (AList (enum_inter av bv)) = None →
  valueSubset o (AList av) = None ∧ valueSubset o (AList bv) = None.
Proof.
  intros Ho Ha Hb H. apply valueSubset_list in H as (Hn & Hne & Hc).
  assert (∃ x, x ∈ enum_inter av bv) as [x0 Hx0].
  { destruct (enum_inter av bv) as [|y l]; [done|]. exists y. set_solver. }
  apply enum_inter_elem in Hx0 as [Hx0 Hx0'].
  assert (av ≠ []) by (intros ->; inversion Hx0).
  assert (bv ≠ []) by (intros ->; apply enum_covered_true in Hx0' as (? & H' & _); inversion H').
  rewrite !valueSubset_list. split; (split; [done|]; split; [done|]); intros x Hx.
  - destruct (proj1 (enum_covered_true _ _) (Hc x Hx)) as (g & [Hg _]%enum_inter_elem & He).
    apply enum_covered_true. eauto.
  - apply (enum_covered_trans (enum_inter av bv) bv); eauto using request_elems_canonical, canonical_ok_list.
    + intros c [Hc' _]%enum_inter_elem. by apply (canonical_ok_list av).
    + intros c Hin. by apply enum_inter_elem in Hin as [_ ?].
Qed.

Lemma number_meet_narrows o av bv :
  canonical_ok (AFloat av) → canonical_ok (AFloat bv) →
  valueSubset o (if flt av bv then AFloat av else AFloat bv) = None →
  valueSubset o (AFloat av) = None ∧ valueSubset o (AFloat bv) = None.
Proof.
  intros Ha Hb H. destruct (flt av bv) eqn:E; (split; [|try done]; try done).
  - apply (number_trans (AFloat bv) bv o (AFloat av)); [done..|].
    apply (valueSubset_number _ _ bv); [done|]. eauto using flt_fgt_false.
  - apply (number_trans (AFloat av) av o (AFloat bv)); [done..|].
    apply (valueSubset_number _ _ av); [done|]. exists bv. split; [done|]. by rewrite fgt_flip.
Qed.

(** Composition narrows only: whatever the meet of two grant values admits,
    both values admit. *)
Lemma intersectValue_narrows a : ∀ b r o,
  decoded a = true → decoded b = true →
  canonical_ok a → canonical_ok b → canonical_ok o →
  intersectValue a b = inl r → valueSubset o r = None →
  valueSubset o a = None ∧ valueSubset o b = None.
Proof.
  induction a as [|x|s|f|f|k z|av _|am IH] using any_nested_ind;
    intros b r o Da Db Ha Hb Ho Hi Hs; simpl in Hi; try done.
  - destruct (enumEqual ANil b); simplify_eq. by apply valueSubset_not_nil in Hs as [_ ?].
  - destruct (enumEqual (ABool x) b) eqn:E; simplify_eq.
    apply enumEqual_canonical, writeCanonicalJSON_bool in E; [|done..]. by subst.
  - destruct (enumEqual (AStr s) b) eqn:E; simplify_eq.
    apply enumEqual_canonical, writeCanonicalJSON_str in E; [|done..]. by subst.
  - destruct b; simplify_eq. by apply number_meet_narrows.
  - destruct b as [| | | | | |bv|]; simplify_eq. apply enum_inter_narrows; [done..|].
    destruct (enum_inter av bv); by simplify_eq.
  - destruct b as [| | | | | | |bm]; simplify_eq.
    destruct (Nat.eqb_spec (length am) (length bm)) as [El|]; [|done]. simpl in Hi.
    apply rbind_inl in Hi as (rm & Hm & Hr). destruct (meet_members_inv _ _ _ _ Hm) as [Hk Hmem].
    destruct rm as [|e rm0]; [done|]. simplify_eq. remember (e :: rm0) as rm eqn:Erm.
    apply valueSubset_map in Hs as (om & -> & [->|[Hv Hcl]]); [done|].
    assert (∀ k, k ∈ mkeys am → k ∈ mkeys bm) as Hsub.
    { intros k (kv & -> & Hin)%list_elem_of_fmap. destruct kv as [k a].
      destruct (Hmem _ _ Hin) as (b & ? & Hg%mget_elem & _). by eapply mkeys_elem. }
    assert (∀ k a b, (k, a) ∈ am → mget k bm = Some b → ∃ x, mget k om = Some x ∧
              valueSubset x a = None ∧ valueSubset x b = None) as Hboth.
    { intros k a b Hin Hb'. destruct (Hmem _ _ Hin) as (b0 & v & Hg & Hv' & Hin').
      simplify_eq. destruct (Hv _ _ Hin') as (x & Hx & Hxs). exists x. split; [done|].
      rewrite list.Forall_forall in IH.
      apply (IH (k, a) Hin b v x); eauto using decoded_map, mget_elem, canonical_ok_mget.
      by apply (canonical_ok_map am (k, a)). }
    rewrite !valueSubset_map. split; exists om; (split; [done|]); right.
    + split; [|by rewrite <- Hk]. intros k a Hin.
      destruct (Hmem _ _ Hin) as (b & ? & Hg & _). destruct (Hboth k a b) as (y & ? & ? & _); eauto.
    + split; [|intros k Hko; apply Hsub; rewrite <- Hk; auto]. intros k b Hin.
      pose proof (elem_mget _ _ _ (decoded_wf _ Db) Hin) as Hg.
      assert (k ∈ mkeys am) as (kv & -> & Ha')%list_elem_of_fmap.
      { apply (same_keys am bm); eauto using decoded_wf, mkeys_elem. }
      destruct kv as [k a]. destruct (Hboth k a b) as (y & ? & _ & ?); eauto.
Qed.
