(* ===== verification/Bounds.v ===== *)
(** * Extended parameter bounds

    semantics/parambounds.go: the grammar of a Bound object, the relation of a
    request value to a Bound ([boundSubset]), the containment of Bounds
    ([boundWithin]) and their meet ([boundMeet]). *)

From Stdlib Require Import Floats.SpecFloat.
From S2P Require Import Prelude GoStrings GoFloat Json Canonical Ids Values.

(** ** Members of a Bound *)

(** [m[k].(float64)], [m[k].([]any)], [m[k].(map[string]any)]. *)
Definition getF (k : string) (m : gomap any) : option float64 :=
  match mget k m with Some (AFloat f) => Some f | _ => None end.
Definition getL (k : string) (m : gomap any) : option (list any) :=
  match mget k m with Some (AList l) => Some l | _ => None end.
Definition getM (k : string) (m : gomap any) : option (gomap any) :=
  match mget k m with Some (AMap x) => Some x | _ => None end.

Definition boundOptional (b : any) : bool :=
  match b with
  | AMap m => match mget "optional" m with Some (ABool v) => v | _ => false end
  | _ => false
  end.

(** ** The Bound grammar *)

Definition numeric_members : list string := ["min"; "max"; "step"].
Definition enum_members : list string := ["enum"; "min_items"; "max_items"].

Definition mem_key (k : string) (l : list string) : bool := existsb (String.eqb k) l.

(** The member loop: every member is known and [optional] is a boolean. *)
Definition check_member (kv : string * any) : check :=
  if mem_key kv.1 numeric_members || mem_key kv.1 enum_members || String.eqb kv.1 "nested" then None
  else if String.eqb kv.1 "optional" then
    match kv.2 with
    | ABool _ => None
    | _ => Some (wrap ErrInvalidParamsBinding "optional is not a boolean")
    end
  else Some (wrap ErrInvalidParamsBinding ("unknown Bound member " +:+ Quote kv.1)).

Definition has_any (keys : list string) (m : gomap any) : bool := existsb (λ k, mhas k m) keys.

Definition check_number (m : gomap any) (k : string) : check :=
  match mget k m with
  | None | Some (AFloat _) => None
  | Some _ => Some (wrap ErrInvalidParamsBinding (k +:+ " is not a number"))
  end.

Definition check_items (m : gomap any) (k : string) : check :=
  let e := wrap ErrInvalidParamsBinding (k +:+ " is not a non-negative integer") in
  match mget k m with
  | None => None
  | Some (AFloat n) => guard (flt n fzero || negb (feq n (Trunc n))) e
  | Some _ => Some e
  end.

(** [lo > hi] for two declared members. *)
Definition crossed (m : gomap any) (lo hi : string) : bool :=
  match getF lo m, getF hi m with Some a, Some b => fgt a b | _, _ => false end.

Fixpoint validateBound (b : any) : check :=
  match b with
  | AMap m =>
      check_all check_member m ;;?
      guard (1 <? (if has_any numeric_members m then 1 else 0) +
                  (if has_any enum_members m then 1 else 0) +
                  (if mhas "nested" m then 1 else 0))
        (wrap ErrInvalidParamsBinding "mixed bound families") ;;?
      check_all (check_number m) numeric_members ;;?
      guard (match getF "step" m with Some st => fle st fzero | None => false end)
        (wrap ErrInvalidParamsBinding "step must be positive") ;;?
      guard (crossed m "min" "max") (wrap ErrInvalidParamsBinding "min > max") ;;?
      guard (mhas "enum" m && match getL "enum" m with Some _ => false | None => true end)
        (wrap ErrInvalidParamsBinding "enum is not an array") ;;?
      check_all (check_items m) ["min_items"; "max_items"] ;;?
      guard (crossed m "min_items" "max_items")
        (wrap ErrInvalidParamsBinding "min_items > max_items") ;;?
      mget_with "nested"
        (λ v, match v with
              | AMap nm => check_all (λ kv, validateBound kv.2) nm
              | _ => Some (wrap ErrInvalidParamsBinding "nested is not an object")
              end) None m
  | _ => Some ErrInvalidParamsBinding
  end.

(** [ValidateParamBounds]; a nil map is [None]. *)
Definition ValidateParamBounds (bounds params : option (gomap any)) : check :=
  match bounds with
  | None => None
  | Some bs =>
      validateObjectParams bs ;;?
      check_all (λ kv,
        guard (String.eqb kv.1 "") (wrap ErrInvalidParamsBinding "empty key") ;;?
        guard (mhas kv.1 (default [] params))
          (wrap ErrInvalidParamsBinding (kv.1 +:+ " in both params and param_bounds")) ;;?
        validateBound kv.2) bs
  end.

(** ** A request value against a Bound *)

Definition requestCardinality (v : any) : Z :=
  match v with AList l => Z.of_nat (length l) | _ => 1 end.

Definition isMultipleOf (v step : float64) : bool :=
  if feq step fzero then false
  else let q := fdiv v step in feq q (Trunc q) && feq (fmul q step) v.

Definition numericBound (opVal : any) (b : gomap any) : check :=
  match opVal with
  | AFloat f =>
      guard (match getF "min" b with Some mn => flt f mn | None => false end) ErrParamsOutOfRange ;;?
      guard (match getF "max" b with Some mx => fgt f mx | None => false end) ErrParamsOutOfRange ;;?
      guard (match getF "step" b with Some st => negb (isMultipleOf f st) | None => false end)
        ErrParamsNotMultiple
  | _ => Some ErrParamsExceedGrant
  end.

(** The enum family: membership, an explicitly empty enum denies. *)
Definition enumBound (opVal : any) (b : gomap any) : check :=
  match mget "enum" b with
  | None => None
  | Some raw =>
      let gv := match raw with AList l => l | _ => [] end in
      guard (match gv with [] => true | _ => false end) ErrEmptyBoundDenies ;;?
      check_all (λ o, guard (negb (enum_covered gv o)) ErrNotInEnum) (request_elems opVal)
  end.

Definition cardinalityBound (opVal : any) (b : gomap any) : check :=
  let n := of_Z (requestCardinality opVal) in
  guard (match getF "min_items" b with Some mn => flt n mn | None => false end) ErrParamsCardinality ;;?
  guard (match getF "max_items" b with Some mx => fgt n mx | None => false end) ErrParamsCardinality.

(** The loops of [nestedSubset] over the declared bounds and over the request. *)
Definition nested_with (sub : any → any → check) (op nested : gomap any) : check :=
  check_all (λ kv, match mget kv.1 op with
                   | None => guard (negb (boundOptional kv.2)) ErrParamsMissing
                   | Some ov => sub ov kv.2
                   end) nested ;;?
  closed_keys op nested.

Fixpoint boundSubset (opVal bound : any) {struct bound} : check :=
  match bound with
  | AMap b =>
      enumBound opVal b ;;?
      cardinalityBound opVal b ;;?
      if mhas "nested" b then
        match opVal with
        | AMap om =>
            mget_with "nested"
              (λ raw, match raw with
                      | AMap nm => nested_with boundSubset om nm
                      | _ => nested_with (λ _ _, None) om []
                      end) None b
        | _ => Some ErrParamsExceedGrant
        end
      else if has_any numeric_members b then numericBound opVal b
      else None
  | _ => Some ErrInvalidParamsBinding
  end.

Definition nestedSubset (op nested : gomap any) : check := nested_with boundSubset op nested.

(** [entailsDeclared]: layers 5-9 over the declared keys. *)
Definition not_nil_entries (m : gomap any) : check :=
  check_all (λ kv, guard (is_nil kv.2) (wrap ErrInvalidParamsNull kv.1)) m.

Definition entailsDeclared (opParams : option (gomap any)) (grantParams grantBounds : gomap any) : check :=
  let op := default [] opParams in
  guard (hasEmptyBound grantParams) ErrEmptyBoundDenies ;;?
  not_nil_entries grantParams ;;?
  not_nil_entries op ;;?
  check_all (λ kv, guard (negb (mhas kv.1 op)) ErrParamsMissing) grantParams ;;?
  check_all (λ kv, if boundOptional kv.2 then None
                   else guard (negb (mhas kv.1 op)) ErrParamsMissing) grantBounds ;;?
  check_all (λ kv, guard (negb (mhas kv.1 grantParams || mhas kv.1 grantBounds))
                     (wrap ErrParamsUndeclared kv.1)) op ;;?
  check_all (λ kv, valueSubset (default ANil (mget kv.1 op)) kv.2) grantParams ;;?
  check_all (λ kv, match mget kv.1 op with
                   | None => None
                   | Some ov => boundSubset ov kv.2
                   end) grantBounds.

(** ** Containment of Bounds *)

(** A parent member is declared by the child too, in the given relation. *)
Definition tighter (rel : float64 → float64 → bool) (k : string) (cb pb : gomap any) : check :=
  match getF k pb with
  | None => None
  | Some p => match getF k cb with
              | Some c => guard (negb (rel c p)) ErrParamsNotNarrower
              | None => Some ErrParamsNotNarrower
              end
  end.

Definition enumWithin (cb pb : gomap any) : check :=
  match getL "enum" pb with
  | None => None
  | Some pe =>
      match getL "enum" cb with
      | None => Some ErrParamsNotNarrower
      | Some ce => check_all (λ e, guard (negb (enum_covered pe e)) ErrParamsNotNarrower) ce
      end
  end.

Fixpoint boundWithin (child parent : any) {struct parent} : check :=
  match child with
  | AMap cb =>
      match parent with
      | AMap pb =>
          guard (negb (boundOptional (AMap pb)) && boundOptional (AMap cb)) ErrParamsNotNarrower ;;?
          tighter (λ c p, negb (flt c p)) "min" cb pb ;;?
          tighter (λ c p, negb (fgt c p)) "max" cb pb ;;?
          tighter isMultipleOf "step" cb pb ;;?
          enumWithin cb pb ;;?
          tighter (λ c p, negb (flt c p)) "min_items" cb pb ;;?
          tighter (λ c p, negb (fgt c p)) "max_items" cb pb ;;?
          mget_with "nested"
            (λ raw, match raw with
                    | AMap pn =>
                        match getM "nested" cb with
                        | None => Some ErrParamsNotNarrower
                        | Some cn =>
                            check_all (λ kv, match mget kv.1 cn with
                                             | None => Some ErrParamsNotNarrower
                                             | Some c => boundWithin c kv.2
                                             end) pn ;;?
                            check_all (λ kv, guard (negb (mhas kv.1 pn)) ErrParamsNotNarrower) cn
                        end
                    | _ => None
                    end) None pb
      | _ => Some ErrParamsNotNarrower
      end
  | _ => Some ErrParamsNotNarrower
  end.

(** ** The meet of Bounds *)

Inductive family := FInvalid | FNested | FEnum | FNumeric | FNone.

Definition boundFamily (b : any) : family :=
  match b with
  | AMap m =>
      if mhas "nested" m then FNested
      else if has_any enum_members m then FEnum
      else if has_any numeric_members m then FNumeric
      else FNone
  | _ => FInvalid
  end.

(** [canonicalEnumMembers]: deduplicated by and ordered by the JCS rendering. *)
Definition enum_key (v : any) : string :=
  match CanonicalJSON v with inl t => t | inr _ => Sprint_v v end.

Fixpoint dedup_by_key (seen : list string) (l : list any) : list (string * any) :=
  match l with
  | [] => []
  | v :: l' =>
      let k := enum_key v in
      if mem_key k seen then dedup_by_key seen l' else (k, v) :: dedup_by_key (k :: seen) l'
  end.

Definition enum_key_le (a b : string * any) : Prop := String.le a.1 b.1.
#[global] Instance enum_key_le_dec : RelDecision enum_key_le.
Proof. intros a b. unfold enum_key_le. apply _. Defined.

Definition canonicalEnumMembers (members : list any) : list any :=
  (merge_sort enum_key_le (dedup_by_key [] members)).*2.

Definition cloneBound (b : any) : option (gomap any) :=
  match b with AMap m => Some m | _ => None end.
Definition cloneBoundMap (m : gomap any) : gomap any := m.

Fixpoint boundDeniesClass (b : any) : bool :=
  match b with
  | AMap m =>
      match getL "enum" m with Some [] => true | _ => false end ||
      mget_with "nested"
        (λ v, match v with AMap nm => existsb (λ kv, boundDeniesClass kv.2) nm | _ => false end)
        false m
  | _ => false
  end.
Definition boundsDenyClass (bounds : gomap any) : bool := existsb (λ kv, boundDeniesClass kv.2) bounds.

(** The greater / lesser of two declared members; [pick] is the comparison that
    keeps the first. *)
Definition pickOf (pick : float64 → float64 → bool) (a b : option float64) : option float64 :=
  match a, b with
  | Some av, Some bv => Some (if pick av bv then av else bv)
  | Some av, None => Some av
  | None, o => o
  end.
Definition maxOf : option float64 → option float64 → option float64 := pickOf fgt.
Definition minOf : option float64 → option float64 → option float64 := pickOf flt.

(** [res[k] = v] where a value was picked. *)
Definition put (k : string) (v : option float64) (m : gomap any) : gomap any :=
  match v with Some f => mset k (AFloat f) m | None => m end.

Definition stepMeet (a b : option float64) : result (option float64) :=
  match a, b with
  | Some x, Some y =>
      if isMultipleOf x y then inl (Some x)
      else if isMultipleOf y x then inl (Some y)
      else inr ErrInvalidParamsBinding
  | Some x, None => inl (Some x)
  | None, o => inl o
  end.

Definition numericMeet (a b : gomap any) : result (gomap any) :=
  let mn := maxOf (getF "min" a) (getF "min" b) in
  let mx := minOf (getF "max" a) (getF "max" b) in
  let! st := stepMeet (getF "step" a) (getF "step" b) in
  let res := put "step" st (put "max" mx (put "min" mn [])) in
  if crossed res "min" "max" then inr ErrNoOverlap else inl res.

Definition enumMeet (a b : gomap any) : result (gomap any) :=
  let! e :=
    match getL "enum" a, getL "enum" b with
    | Some ae, Some be =>
        match enum_inter ae be with
        | [] => inr ErrNoOverlap
        | inter => inl (Some (canonicalEnumMembers inter))
        end
    | Some ae, None => inl (Some ae)
    | None, o => inl o
    end in
  let r0 : gomap any := match e with Some l => [("enum", AList l)] | None => [] end in
  let res := put "max_items" (minOf (getF "max_items" a) (getF "max_items" b))
               (put "min_items" (maxOf (getF "min_items" a) (getF "min_items" b)) r0) in
  if crossed res "min_items" "max_items" then inr ErrNoOverlap else inl res.

(** [if opt { res["optional"] = true }]. *)
Definition set_optional (opt : bool) (m : gomap any) : gomap any :=
  if opt then mset "optional" (ABool true) m else m.

Definition lift_map (r : result (gomap any)) : result any :=
  match r with inl m => inl (AMap m) | inr e => inr e end.

(** [nestedMeet], over the meet of the member bounds. *)
Definition nestedMeet_with (meet : any → any → result any) (an bn : gomap any) : result (gomap any) :=
  if negb (length an =? length bn)%nat then inr ErrNoOverlap
  else let! r := meet_members meet bn an in inl [("nested", AMap r)].

Fixpoint boundMeet (a b : any) {struct a} : result any :=
  match a, cloneBound b with
  | AMap am, Some bm =>
      let opt := boundOptional (AMap am) && boundOptional (AMap bm) in
      let fin (r : result (gomap any)) : result any :=
        let! res := r in inl (AMap (set_optional opt (mdel "optional" res))) in
      match boundFamily (AMap am), boundFamily (AMap bm) with
      | FInvalid, _ | _, FInvalid => inr ErrInvalidParamsBinding
      | FNone, _ => inl (AMap (set_optional opt (mdel "optional" bm)))
      | _, FNone => inl (AMap (set_optional opt (mdel "optional" am)))
      | FNumeric, FNumeric => fin (numericMeet am bm)
      | FEnum, FEnum => fin (enumMeet am bm)
      | FNested, FNested =>
          fin (mget_with "nested"
                 (λ raw, match raw with
                         | AMap an => nestedMeet_with boundMeet an (default [] (getM "nested" bm))
                         | _ => nestedMeet_with (λ _ _, inr ErrNoOverlap) []
                                  (default [] (getM "nested" bm))
                         end) (inr ErrNoOverlap) am)
      | _, _ => inr ErrInvalidParamsBinding
      end
  | _, _ => inr ErrInvalidParamsBinding
  end.

(** [intersectBounds]: keys are united, a shared key is met. *)
Fixpoint meet_into (out b : gomap any) : result (gomap any) :=
  match b with
  | [] => inl out
  | kv :: b' =>
      match mget kv.1 out with
      | Some av => let! m := boundMeet av kv.2 in meet_into (mset kv.1 m out) b'
      | None => meet_into (mset kv.1 kv.2 out) b'
      end
  end.
Definition intersectBounds (a b : gomap any) : result (gomap any) :=
  match a, b with
  | [], _ => inl (cloneBoundMap b)
  | _, [] => inl (cloneBoundMap a)
  | _, _ => meet_into (cloneBoundMap a) b
  end.

(** ** Valid Bounds *)

Lemma mem_key_true k l : mem_key k l = true ↔ k ∈ l.
Proof.
  unfold mem_key. rewrite existsb_exists. setoid_rewrite String.eqb_eq. rewrite list_elem_of_In. naive_solver.
Qed.

(** What the grammar guarantees about an accepted Bound. *)
Record bound_ok (m : gomap any) : Prop := {
  ok_numeric : ∀ k, k ∈ numeric_members → mhas k m = true → is_Some (getF k m);
  ok_enum : mhas "enum" m = true → is_Some (getL "enum" m);
  ok_families : has_any numeric_members m = true → mhas "nested" m = false;
  ok_nested : ∀ v, mget "nested" m = Some v →
    ∃ nm, v = AMap nm ∧ ∀ k b, (k, b) ∈ nm → validateBound b = None
}.

Lemma validateBound_ok b : validateBound b = None → ∃ m, b = AMap m ∧ bound_ok m.
Proof.
  destruct b as [| | | | | | |m]; try done. intros H. exists m. split; [done|]. cbn [validateBound] in H.
  rewrite !check_seq_None, !guard_None, mget_with_mget in H.
  destruct H as (_ & Hf & Hn & _ & _ & He & _ & _ & Hne). split.
  - intros k Hk Hh. rewrite check_all_None in Hn. specialize (Hn k Hk).
    unfold check_number, mhas, getF in *. repeat case_match; naive_solver.
  - intros Hh. rewrite Hh in He. simpl in He. destruct (getL "enum" m); naive_solver.
  - intros Hh. rewrite Hh in Hf. apply Z.ltb_ge in Hf. destruct (mhas "nested" m); [|done].
    destruct (has_any enum_members m); lia.
  - intros v Hv. rewrite Hv in Hne. destruct v as [| | | | | | |nm]; try done.
    exists nm. split; [done|]. intros k x Hin. rewrite check_all_None in Hne. by apply (Hne (k, x)).
Qed.

Lemma getF_mhas k m f : getF k m = Some f → mhas k m = true.
Proof. unfold getF, mhas. by destruct (mget k m). Qed.

Lemma getF_canonical k m f : canonical_ok (AMap m) → getF k m = Some f → IsNaN f = false.
Proof.
  unfold getF. intros Hc. destruct (mget k m) as [v|] eqn:E; [|done].
  destruct v; intros; simplify_eq. apply (canonical_ok_number (AFloat f)); [|done].
  by eapply canonical_ok_mget.
Qed.

Lemma has_any_true keys m : has_any keys m = true ↔ ∃ k, k ∈ keys ∧ mhas k m = true.
Proof.
  unfold has_any. rewrite existsb_exists. split; intros (k & Hk & H); exists k.
  - by apply list_elem_of_In in Hk.
  - by rewrite <- list_elem_of_In.
Qed.

(** ** Containment of Bounds is behavioural *)

(** The step rule is evaluated in binary64, where "is a multiple of" does not
    compose; [step_safe p c] asks that the child repeats the parent's step
    wherever the parent declares one. *)
Definition step_safe_here (pb cb : gomap any) : bool :=
  match getF "step" pb with
  | None => true
  | Some ps => bool_decide (getF "step" cb = Some ps)
  end.
Fixpoint step_safe (p c : any) {struct p} : bool :=
  match p, c with
  | AMap pb, AMap cb =>
      step_safe_here pb cb &&
      mget_with "nested"
        (λ raw, match raw with
                | AMap pn =>
                    forallb (λ kv, match mget kv.1 (default [] (getM "nested" cb)) with
                                   | Some c' => step_safe kv.2 c'
                                   | None => true
                                   end) pn
                | _ => true
                end) true pb
  | _, _ => true
  end.

Lemma tighter_None rel k cb pb p :
  tighter rel k cb pb = None → getF k pb = Some p → ∃ c, getF k cb = Some c ∧ rel c p = true.
Proof.
  unfold tighter. intros H Hp. rewrite Hp in H. destruct (getF k cb) as [c|]; [|done].
  exists c. split; [done|]. by apply guard_None, negb_false_iff in H.
Qed.

(** A lower bound of the child implies the parent's. *)
Lemma lower_within k cb pb n :
  canonical_ok (AMap cb) → tighter (λ c p, negb (flt c p)) k cb pb = None →
  match getF k cb with Some mn => flt n mn | None => false end = false →
  match getF k pb with Some mn => flt n mn | None => false end = false.
Proof.
  intros Hc Ht Hn. destruct (getF k pb) as [p|] eqn:Ep; [|done].
  destruct (tighter_None _ _ _ _ _ Ht Ep) as (c & Ec & Hr). rewrite Ec in Hn.
  apply negb_true_iff in Hr. apply (not_fgt_trans p c n); eauto using getF_canonical.
Qed.

Lemma upper_within k cb pb n :
  canonical_ok (AMap cb) → tighter (λ c p, negb (fgt c p)) k cb pb = None →
  match getF k cb with Some mx => fgt n mx | None => false end = false →
  match getF k pb with Some mx => fgt n mx | None => false end = false.
Proof.
  intros Hc Ht Hn. destruct (getF k pb) as [p|] eqn:Ep; [|done].
  destruct (tighter_None _ _ _ _ _ Ht Ep) as (c & Ec & Hr). rewrite Ec in Hn.
  apply negb_true_iff in Hr. apply (not_fgt_trans n c p); eauto using getF_canonical.
Qed.

Lemma getL_mget k m l : getL k m = Some l → mget k m = Some (AList l).
Proof. unfold getL. by repeat case_match; intros; simplify_eq. Qed.

Lemma getM_mget k m x : getM k m = Some x → mget k m = Some (AMap x).
Proof. unfold getM. by repeat case_match; intros; simplify_eq. Qed.

Lemma enumBound_None o b :
  (mhas "enum" b = true → is_Some (getL "enum" b)) →
  enumBound o b = None ↔
  ∀ l, getL "enum" b = Some l → l ≠ [] ∧ ∀ x, x ∈ request_elems o → enum_covered l x = true.
Proof.
  intros Hok. unfold enumBound, getL, mhas in *. destruct (mget "enum" b) as [v|]; [|naive_solver].
  destruct (Hok eq_refl) as [l Hl]. destruct v; simplify_eq.
  rewrite check_seq_None, guard_None, check_all_None.
  setoid_rewrite guard_None. setoid_rewrite negb_false_iff. destruct l; naive_solver.
Qed.

Lemma enumBound_within o cb pb :
  canonical_ok o → canonical_ok (AMap cb) → canonical_ok (AMap pb) → bound_ok cb → bound_ok pb →
  enumWithin cb pb = None → enumBound o cb = None → enumBound o pb = None.
Proof.
  intros Ho Hc Hp Kc Kp Hw. rewrite !enumBound_None by eauto using ok_enum.
  intros Hb pe Hpe. unfold enumWithin in Hw. rewrite Hpe in Hw.
  destruct (getL "enum" cb) as [ce|] eqn:Ece; [|done]. rewrite check_all_None in Hw.
  setoid_rewrite guard_None in Hw. setoid_rewrite negb_false_iff in Hw.
  destruct (Hb ce eq_refl) as [Hne Hcov]. split.
  - intros ->. destruct ce as [|e ce]; [done|]. specialize (Hw e ltac:(set_solver)). done.
  - intros x Hx. apply (enum_covered_trans ce pe); eauto using request_elems_canonical.
    + intros e He. apply (canonical_ok_list ce); [|done]. by apply (canonical_ok_mget cb "enum"), getL_mget.
    + intros e He. apply (canonical_ok_list pe); [|done]. by apply (canonical_ok_mget pb "enum"), getL_mget.
Qed.

Lemma cardinality_within o cb pb :
  canonical_ok (AMap cb) →
  tighter (λ c p, negb (flt c p)) "min_items" cb pb = None →
  tighter (λ c p, negb (fgt c p)) "max_items" cb pb = None →
  cardinalityBound o cb = None → cardinalityBound o pb = None.
Proof.
  unfold cardinalityBound. rewrite !check_seq_None, !guard_None.
  intros Hc H1 H2 [H3 H4]. eauto using lower_within, upper_within.
Qed.

Lemma numeric_within o cb pb :
  canonical_ok (AMap cb) → step_safe_here pb cb = true →
  tighter (λ c p, negb (flt c p)) "min" cb pb = None →
  tighter (λ c p, negb (fgt c p)) "max" cb pb = None →
  numericBound o cb = None → numericBound o pb = None.
Proof.
  unfold numericBound. intros Hc Hs H1 H2. destruct o; try done.
  rewrite !check_seq_None, !guard_None. intros (H3 & H4 & H5).
  split; [eauto using lower_within|]. split; [eauto using upper_within|].
  unfold step_safe_here in Hs. destruct (getF "step" pb) as [ps|]; [|done].
  apply bool_decide_eq_true in Hs. by rewrite Hs in H5.
Qed.

(** A numeric parent has a numeric child, which is then no object bound. *)
Lemma numeric_child cb pb :
  bound_ok cb → bound_ok pb → has_any numeric_members pb = true →
  tighter (λ c p, negb (flt c p)) "min" cb pb = None →
  tighter (λ c p, negb (fgt c p)) "max" cb pb = None →
  tighter isMultipleOf "step" cb pb = None →
  has_any numeric_members cb = true ∧ mhas "nested" cb = false.
Proof.
  intros Kc Kp (k & Hk & Hh)%has_any_true H1 H2 H3.
  destruct (ok_numeric _ Kp _ Hk Hh) as [p Hp].
  assert (∃ c, getF k cb = Some c) as [c Hc].
  { unfold numeric_members in Hk. set_unfold in Hk. destruct Hk as [->|[->|[->|[]]]];
      [destruct (tighter_None _ _ _ _ _ H1 Hp)|destruct (tighter_None _ _ _ _ _ H2 Hp)
      |destruct (tighter_None _ _ _ _ _ H3 Hp)]; naive_solver. }
  assert (has_any numeric_members cb = true) as Hn.
  { apply has_any_true. eauto using getF_mhas. }
  split; [done|]. by apply ok_families.
Qed.

Lemma boundSubset_None o b :
  boundSubset o (AMap b) = None ↔
  enumBound o b = None ∧ cardinalityBound o b = None ∧
  if mhas "nested" b then
    ∃ om raw, o = AMap om ∧ mget "nested" b = Some raw ∧
      match raw with AMap nm => nestedSubset om nm | _ => nested_with (λ _ _, None) om [] end = None
  else if has_any numeric_members b then numericBound o b = None else True.
Proof.
  cbn [boundSubset]. rewrite !check_seq_None. do 2 apply and_iff_compat_l.
  unfold mhas. destruct (mget "nested" b) as [raw|] eqn:E.
  - destruct o; try naive_solver. rewrite mget_with_mget, E. destruct raw; naive_solver.
  - destruct (has_any numeric_members b); naive_solver.
Qed.

Lemma nestedSubset_None op nested :
  nestedSubset op nested = None ↔
  (∀ k b, (k, b) ∈ nested → match mget k op with
                            | None => boundOptional b = true
                            | Some ov => boundSubset ov b = None
                            end) ∧
  (∀ k, k ∈ mkeys op → k ∈ mkeys nested).
Proof.
  unfold nestedSubset, nested_with. rewrite check_seq_None, check_all_None, closed_keys_None.
  apply and_iff_compat_r. split.
  - intros H k b Hin. specialize (H _ Hin). simpl in H. destruct (mget k op); [done|].
    by apply guard_None, negb_false_iff in H.
  - intros H [k b] Hin. specialize (H _ _ Hin). simpl. destruct (mget k op); [done|].
    by apply guard_None, negb_false_iff.
Qed.

Lemma boundWithin_None cb pb :
  boundWithin (AMap cb) (AMap pb) = None ↔
  (boundOptional (AMap cb) = true → boundOptional (AMap pb) = true) ∧
  tighter (λ c p, negb (flt c p)) "min" cb pb = None ∧
  tighter (λ c p, negb (fgt c p)) "max" cb pb = None ∧
  tighter isMultipleOf "step" cb pb = None ∧
  enumWithin cb pb = None ∧
  tighter (λ c p, negb (flt c p)) "min_items" cb pb = None ∧
  tighter (λ c p, negb (fgt c p)) "max_items" cb pb = None ∧
  (∀ pn, getM "nested" pb = Some pn → ∃ cn, getM "nested" cb = Some cn ∧
     (∀ k b, (k, b) ∈ pn → ∃ c, mget k cn = Some c ∧ boundWithin c b = None) ∧
     (∀ k, k ∈ mkeys cn → k ∈ mkeys pn)).
Proof.
  cbn [boundWithin]. rewrite !check_seq_None, guard_None, mget_with_mget.
  assert ((negb (boundOptional (AMap pb)) && boundOptional (AMap cb) = false) ↔
    (boundOptional (AMap cb) = true → boundOptional (AMap pb) = true)) as Ho.
  { destruct (boundOptional (AMap pb)), (boundOptional (AMap cb)); naive_solver. }
  rewrite Ho. do 7 apply and_iff_compat_l. unfold getM at 2.
  destruct (mget "nested" pb) as [raw|]; [|naive_solver].
  destruct raw as [| | | | | | |pn]; try naive_solver.
  destruct (getM "nested" cb) as [cn|]; [|naive_solver].
  rewrite check_seq_None, !check_all_None. split.
  - intros [H1 H2] pn' ?; simplify_eq. exists cn. split; [done|]. split.
    + intros k b Hin. specialize (H1 _ Hin). simpl in H1. destruct (mget k cn); naive_solver.
    + intros k (kv & -> & Hin)%list_elem_of_fmap. specialize (H2 _ Hin).
      by apply guard_None, negb_false_iff, mhas_true in H2.
  - intros H. destruct (H pn eq_refl) as (cn' & ? & H1 & H2); simplify_eq. split.
    + intros [k b] Hin. destruct (H1 _ _ Hin) as (c & Hc & Hw). simpl. by rewrite Hc.
    + intros [k b] Hin. apply guard_None, negb_false_iff, mhas_true, H2. by eapply mkeys_elem.
Qed.

Lemma step_safe_nested pb cb pn cn k p c :
  step_safe (AMap pb) (AMap cb) = true → getM "nested" pb = Some pn → getM "nested" cb = Some cn →
  (k, p) ∈ pn → mget k cn = Some c → step_safe p c = true.
Proof.
  cbn [step_safe]. rewrite andb_true_iff, mget_with_mget. intros [_ H] Hpn Hcn Hin Hc.
  rewrite (getM_mget _ _ _ Hpn), Hcn in H. simpl in H. rewrite forallb_forall in H.
  specialize (H (k, p) (proj1 (list_elem_of_In _ _) Hin)). simpl in H. by rewrite Hc in H.
Qed.

(** A request within a Bound is within every Bound that contains it. *)
Lemma boundSubset_trans p : ∀ o c,
  canonical_ok o → canonical_ok c → canonical_ok p →
  validateBound c = None → validateBound p = None → step_safe p c = true →
  boundSubset o c = None → boundWithin c p = None → boundSubset o p = None.
Proof.
  induction p as [p IH] using any_strong_ind. intros o c Ho Hc Hp Vc Vp Hst Hoc Hcp.
  destruct (validateBound_ok _ Vc) as (cb & -> & Kc). destruct (validateBound_ok _ Vp) as (pb & -> & Kp).
  apply boundSubset_None in Hoc as (He & Hcard & Hoc).
  apply boundWithin_None in Hcp as (Hopt & Hmin & Hmax & Hstep & Hen & Hmni & Hmxi & Hnest).
  apply boundSubset_None. split; [by apply (enumBound_within o cb pb)|].
  split; [by apply (cardinality_within o cb pb)|].
  destruct (mhas "nested" pb) eqn:En.
  - unfold mhas in En. destruct (mget "nested" pb) as [raw|] eqn:Eraw; [|done].
    destruct (ok_nested _ Kp _ Eraw) as (pn & -> & Vpn).
    assert (getM "nested" pb = Some pn) as Epn by (unfold getM; by rewrite Eraw).
    destruct (Hnest _ Epn) as (cn & Ecn & Hsub & Hcl). pose proof (getM_mget _ _ _ Ecn) as Ecn'.
    destruct (ok_nested _ Kc _ Ecn') as (cn' & [= <-] & Vcn).
    assert (mhas "nested" cb = true) as Hh by (unfold mhas; by rewrite Ecn'). rewrite Hh in Hoc.
    destruct Hoc as (om & raw & -> & Eraw' & Hoc). rewrite Ecn' in Eraw'. injection Eraw' as <-.
    apply nestedSubset_None in Hoc as [Hv Hk]. exists om, (AMap pn). do 2 (split; [done|]).
    apply nestedSubset_None. split; [|eauto]. intros k b Hin.
    destruct (Hsub _ _ Hin) as (c & Hgc & Hwc). specialize (Hv k c (mget_elem _ _ _ Hgc)).
    destruct (mget k om) as [ov|] eqn:Eov.
    + apply (IH b) with c; eauto using canonical_ok_mget, mget_elem, step_safe_nested.
      * eapply sub_member_trans; [by apply mget_elem|]. by eapply sub_member.
      * eapply (canonical_ok_map pn (k, b)); [|done]. by eapply canonical_ok_mget.
    + destruct (validateBound_ok _ (Vcn _ _ (mget_elem _ _ _ Hgc))) as (cm & -> & _).
      destruct (validateBound_ok _ (Vpn _ _ Hin)) as (pm & -> & _).
      apply boundWithin_None in Hwc as [Ho' _]. auto.
  - destruct (has_any numeric_members pb) eqn:Ehn; [|done].
    destruct (numeric_child cb pb) as [Hn1 Hn2]; [done..|]. rewrite Hn1, Hn2 in Hoc.
    cbn [step_safe] in Hst. go_bool. by apply (numeric_within o cb pb).
Qed.
