(* ===== verification/BoundMeet.v ===== *)
(** * The meet of Bounds narrows

    [boundMeet] of semantics/parambounds.go: whatever the meet of two Bounds
    admits, both admit, and the meet is again a well-formed Bound. *)

From Stdlib Require Import Floats.SpecFloat.
From S2P Require Import Prelude GoStrings GoFloat Json Canonical Ids Values Bounds.

(** ** Well-formed Bounds *)

Definition bound_numbers : list string := ["min"; "max"; "min_items"; "max_items"].

(** What the grammar ([validateBound]) and the decoder guarantee of a Bound, and
    that its steps follow a given assignment of steps to member paths.  Binary64
    division does not make divisibility transitive, so a meet of two different
    steps is not a common refinement; Bounds whose steps follow one assignment
    agree wherever both declare a step. *)
Inductive bound_wf : (list string → float64) → any → Prop :=
  | BWF steps m :
      (∀ k g, k ∈ bound_numbers → getF k m = Some g → IsNaN g = false) →
      (∀ k, k ∈ numeric_members → mhas k m = true → is_Some (getF k m)) →
      (mhas "enum" m = true → ∃ l, getL "enum" m = Some l ∧ ∀ x, x ∈ l → canonical_ok x) →
      (∀ st, getF "step" m = Some st → st = steps []) →
      (has_any numeric_members m = true → has_any enum_members m = false ∧ mhas "nested" m = false) →
      (has_any enum_members m = true → mhas "nested" m = false) →
      (∀ v, mget "nested" m = Some v →
         ∃ nm, v = AMap nm ∧ wf_map nm ∧ ∀ k b, (k, b) ∈ nm → bound_wf (λ p, steps (k :: p)) b) →
      bound_wf steps (AMap m).

(** The steps of a Bound follow an assignment. *)
Inductive steps_follow : (list string → float64) → any → Prop :=
  | SF steps m :
      (∀ st, getF "step" m = Some st → st = steps []) →
      (∀ nm, getM "nested" m = Some nm → ∀ k b, (k, b) ∈ nm → steps_follow (λ p, steps (k :: p)) b) →
      steps_follow steps (AMap m).

Lemma validateBound_wf b : ∀ steps,
  validateBound b = None → canonical_ok b → decoded b = true → steps_follow steps b → bound_wf steps b.
Proof.
  induction b as [b IH] using any_strong_ind. intros steps Hv Hc Hd Hs.
  inversion Hs as [? m Hst Hsn]; subst.
  destruct (validateBound_ok _ Hv) as (m' & [= <-] & [Kn Ke Kf Kx]).
  assert (((if has_any numeric_members m then 1 else 0) + (if has_any enum_members m then 1 else 0)
            + (if mhas "nested" m then 1 else 0)) <= 1) as Hfam.
  { cbn [validateBound] in Hv. rewrite !check_seq_None, !guard_None in Hv. destruct Hv as (_ & Hf & _).
    by apply Z.ltb_ge in Hf. }
  constructor; [|done| |done| | |].
  - intros k g _. by apply getF_canonical.
  - intros Hh. destruct (Ke Hh) as [l Hl]. exists l. split; [done|]. intros x Hx.
    apply getL_mget in Hl. eauto using canonical_ok_list, canonical_ok_mget.
  - intros Hh. rewrite Hh in Hfam. destruct (has_any enum_members m), (mhas "nested" m); done || lia.
  - intros Hh. rewrite Hh in Hfam. destruct (has_any numeric_members m), (mhas "nested" m); done || lia.
  - intros v Hv'. destruct (Kx v Hv') as (nm & -> & Hn). pose proof (mget_elem _ _ _ Hv') as Hin.
    pose proof (decoded_map _ _ _ Hd Hin) as Hdn. exists nm. split; [done|].
    split; [by apply decoded_wf|]. intros k b Hkb. apply IH.
    + eapply sub_member_trans; [done|]. by eapply sub_member.
    + eauto.
    + apply (canonical_ok_map nm (k, b)); [|done]. by apply (canonical_ok_map m ("nested", AMap nm)).
    + by apply (decoded_map nm k b).
    + eapply Hsn; [|done]. unfold getM. by rewrite Hv'.
Qed.

(** ** Members that decide *)

(** Everything but [optional] is read by key, so a Bound may be replaced by one
    with the same members. *)
Definition same_members (m m' : gomap any) : Prop := ∀ k, k ≠ "optional" → mget k m = mget k m'.

Lemma same_members_getters m m' : same_members m m' →
  (∀ k, k ≠ "optional" → getF k m = getF k m' ∧ getL k m = getL k m' ∧ mhas k m = mhas k m') ∧
  has_any numeric_members m = has_any numeric_members m' ∧
  has_any enum_members m = has_any enum_members m'.
Proof.
  intros H. assert (∀ k, k ≠ "optional" → mhas k m = mhas k m') as Hh.
  { intros k Hk. unfold mhas. by rewrite H. }
  split; [|unfold has_any; simpl; by rewrite !Hh].
  intros k Hk. unfold getF, getL. rewrite !H by done. auto.
Qed.

Lemma boundSubset_same o m m' :
  same_members m m' → boundSubset o (AMap m) = boundSubset o (AMap m').
Proof.
  intros H. destruct (same_members_getters _ _ H) as (Hg & Hn & He). cbn [boundSubset].
  destruct (Hg "nested") as (_ & _ & ->); [done|]. rewrite Hn.
  unfold enumBound, cardinalityBound, numericBound. rewrite (H "enum") by done.
  assert (∀ k, k ≠ "optional" → getF k m = getF k m') as HF by (intros k Hk; by apply Hg).
  rewrite !HF by done.
  destruct o; try done. by rewrite !mget_with_mget, (H "nested").
Qed.

Lemma bound_wf_same steps m m' : same_members m m' → bound_wf steps (AMap m) → bound_wf steps (AMap m').
Proof.
  intros H Hw. inversion Hw as [? ? W1 W2 W3 W4 W5 W6 W7]; subst.
  destruct (same_members_getters _ _ H) as (Hg & Hn & He).
  assert (∀ k, k ∈ bound_numbers ++ numeric_members ++ ["enum"; "nested"] → k ≠ "optional") as Hk.
  { intros k Hin ->. revert Hin. rewrite list_elem_of_In. simpl. intuition discriminate. }
  constructor.
  - intros k g Hin. destruct (Hg k) as (<- & _); [apply Hk; set_solver|]. by apply W1.
  - intros k Hin. destruct (Hg k) as (<- & _ & <-); [apply Hk; set_solver|]. by apply W2.
  - destruct (Hg "enum") as (_ & <- & <-); done.
  - destruct (Hg "step") as (<- & _ & _); done.
  - rewrite <- Hn, <- He. destruct (Hg "nested") as (_ & _ & <-); done.
  - rewrite <- He. destruct (Hg "nested") as (_ & _ & <-); done.
  - rewrite <- H by done. done.
Qed.

Lemma mget_mdel {A} k k' (m : gomap A) : mget k (mdel k' m) = if String.eqb k k' then None else mget k m.
Proof.
  unfold mdel. induction m as [|[k0 v0] m IH]; [by destruct (String.eqb k k')|].
  rewrite filter_cons. simpl. destruct (decide (k0 ≠ k')) as [Hne|He].
  - simpl. rewrite IH. destruct (String.eqb_spec k k0), (String.eqb_spec k k'); congruence.
  - assert (k0 = k') as -> by (by destruct (decide (k0 = k'))). rewrite IH.
    by destruct (String.eqb_spec k k').
Qed.

Lemma same_members_optional opt m : same_members (set_optional opt (mdel "optional" m)) m.
Proof.
  intros k Hk. unfold set_optional. apply String.eqb_neq in Hk.
  destruct opt; rewrite ?mget_mset, ?mget_mdel, ?Hk; done.
Qed.

Lemma boundOptional_set opt m : boundOptional (AMap (set_optional opt (mdel "optional" m))) = opt.
Proof.
  unfold boundOptional, set_optional. destruct opt; rewrite ?mget_mset, ?mget_mdel; done.
Qed.

(** ** Numeric and cardinality members *)

Lemma mget_put k k' v m :
  mget k (put k' v m) = if String.eqb k k' then match v with Some f => Some (AFloat f) | None => mget k m end
                        else mget k m.
Proof.
  unfold put. destruct v; [apply mget_mset|]. by destruct (String.eqb k k').
Qed.

Lemma lower_pick a b n :
  (∀ x, a = Some x → IsNaN x = false) → (∀ x, b = Some x → IsNaN x = false) →
  match maxOf a b with Some mn => flt n mn | None => false end = false →
  match a with Some mn => flt n mn | None => false end = false ∧
  match b with Some mn => flt n mn | None => false end = false.
Proof.
  intros Ha Hb. destruct a as [x|], b as [y|]; simpl; try done.
  specialize (Ha x eq_refl). specialize (Hb y eq_refl). destruct (fgt x y) eqn:E; intros H; (split; [|try done]; try done).
  - apply (not_fgt_trans y x n); [done| |done]. by apply flt_fgt_false.
  - by apply (not_fgt_trans x y n).
Qed.

Lemma upper_pick a b n :
  (∀ x, a = Some x → IsNaN x = false) → (∀ x, b = Some x → IsNaN x = false) →
  match minOf a b with Some mx => fgt n mx | None => false end = false →
  match a with Some mx => fgt n mx | None => false end = false ∧
  match b with Some mx => fgt n mx | None => false end = false.
Proof.
  intros Ha Hb. destruct a as [x|], b as [y|]; simpl; try done.
  specialize (Ha x eq_refl). specialize (Hb y eq_refl). destruct (flt x y) eqn:E; intros H; (split; [|try done]; try done).
  - apply (not_fgt_trans n x y); [done|done|]. by apply flt_fgt_false.
  - by apply (not_fgt_trans n y x).
Qed.

Lemma pickOf_cases pick a b : pickOf pick a b = a ∨ pickOf pick a b = b.
Proof. destruct a as [x|], b as [y|]; simpl; auto. destruct (pick x y); auto. Qed.

Lemma pickOf_NaN pick a b g :
  (∀ x, a = Some x → IsNaN x = false) → (∀ x, b = Some x → IsNaN x = false) →
  pickOf pick a b = Some g → IsNaN g = false.
Proof. intros Ha Hb H. destruct (pickOf_cases pick a b) as [E|E]; rewrite E in H; eauto. Qed.

Lemma stepMeet_cases a b st steps :
  (∀ x, a = Some x → x = steps) → (∀ x, b = Some x → x = steps) → stepMeet a b = inl st →
  (∀ x, st = Some x → x = steps) ∧ (is_Some a ∨ is_Some b → st = Some steps).
Proof.
  intros Ha Hb. destruct a as [x|], b as [y|]; simpl.
  - rewrite (Ha x eq_refl), (Hb y eq_refl). destruct (isMultipleOf steps steps); [|done].
    intros; simplify_eq. naive_solver.
  - rewrite (Ha x eq_refl). intros; simplify_eq. naive_solver.
  - rewrite (Hb y eq_refl). intros; simplify_eq. naive_solver.
  - intros; simplify_eq. split; [done|]. intros [[? ?]|[? ?]]; done.
Qed.

(** ** The relation by family *)

Lemma mhas_getF k m : mhas k m = false → getF k m = None.
Proof. unfold mhas, getF. by destruct (mget k m). Qed.

Lemma has_any_false keys m : has_any keys m = false ↔ ∀ k, k ∈ keys → mhas k m = false.
Proof.
  rewrite <- not_true_iff_false, has_any_true. split.
  - intros H k Hk. destruct (mhas k m) eqn:E; [|done]. destruct H. eauto.
  - intros H (k & Hk & E). by rewrite H in E.
Qed.

(** Without enum-family members the membership layers accept. *)
Lemma no_enum_members o m :
  has_any enum_members m = false → enumBound o m = None ∧ cardinalityBound o m = None.
Proof.
  rewrite has_any_false. intros H. unfold enumBound, cardinalityBound.
  rewrite (mhas_getF "min_items"), (mhas_getF "max_items") by (apply H; set_solver). split; [|done].
  assert (mhas "enum" m = false) as He by (apply H; set_solver). unfold mhas in He.
  by destruct (mget "enum" m).
Qed.

Lemma boundSubset_numeric o m :
  mhas "nested" m = false → has_any enum_members m = false → has_any numeric_members m = true →
  boundSubset o (AMap m) = numericBound o m.
Proof.
  intros H1 H2 H3. cbn [boundSubset]. destruct (no_enum_members o m H2) as [-> ->].
  by rewrite H1, H3.
Qed.

Lemma boundSubset_enum o m :
  mhas "nested" m = false → has_any numeric_members m = false →
  boundSubset o (AMap m) = (enumBound o m ;;? cardinalityBound o m).
Proof.
  intros H1 H2. cbn [boundSubset]. rewrite H1, H2.
  by destruct (enumBound o m), (cardinalityBound o m).
Qed.

Lemma boundSubset_nested o m nm :
  has_any enum_members m = false → mget "nested" m = Some (AMap nm) →
  boundSubset o (AMap m) = None ↔ ∃ om, o = AMap om ∧ nestedSubset om nm = None.
Proof.
  intros H1 H2. rewrite boundSubset_None. destruct (no_enum_members o m H1) as [-> ->].
  unfold mhas. rewrite H2. naive_solver.
Qed.

(** ** The meet of each family *)

(** What a meet promises: well-formed, and within both operands. *)
Definition meet_ok (steps : list string → float64) (r a b : any) : Prop :=
  bound_wf steps r ∧
  ∀ o, canonical_ok o → boundSubset o r = None → boundSubset o a = None ∧ boundSubset o b = None.

(** The members a sequence of [put]s leaves. *)
Lemma mget_put_inv k k' f m v :
  mget k (put k' f m) = Some v → (k = k' ∧ ∃ x, v = AFloat x) ∨ mget k m = Some v.
Proof.
  rewrite mget_put. destruct (String.eqb_spec k k') as [->|]; [|auto]. destruct f; [|auto].
  intros; simplify_eq. eauto.
Qed.

Lemma getF_put k k' f m :
  getF k (put k' f m) = if String.eqb k k' then match f with Some x => Some x | None => getF k m end
                        else getF k m.
Proof. unfold getF. rewrite mget_put. destruct (String.eqb k k'); [|done]. by destruct f. Qed.

Lemma pickOf_nil pick k a b (m : gomap any) :
  mget k m = None →
  match pickOf pick a b with Some x => Some x | None => getF k m end = pickOf pick a b.
Proof. intros H. destruct (pickOf pick a b); [done|]. unfold getF. by rewrite H. Qed.

Lemma numericMeet_members a b res :
  numericMeet a b = inl res →
  stepMeet (getF "step" a) (getF "step" b) = inl (getF "step" res) ∧
  getF "min" res = maxOf (getF "min" a) (getF "min" b) ∧
  getF "max" res = minOf (getF "max" a) (getF "max" b) ∧
  ∀ k v, mget k res = Some v → k ∈ numeric_members ∧ ∃ x, v = AFloat x.
Proof.
  unfold numericMeet. rewrite rbind_inl. intros (st & Hst & H). destruct (crossed _ _ _); [done|].
  injection H as <-. rewrite !getF_put. simpl. split_and!.
  - by destruct st.
  - by destruct (maxOf _ _).
  - by destruct (minOf _ _).
  - intros k v [[-> ?]|[[-> ?]|[[-> ?]|?]%mget_put_inv]%mget_put_inv]%mget_put_inv; [set_solver..|done].
Qed.

(** Members of another family are absent from a meet. *)
Lemma members_absent (keys : list string) (res : gomap any) k :
  (∀ k v, mget k res = Some v → k ∈ keys) → bool_decide (k ∈ keys) = false → mhas k res = false.
Proof.
  intros H Hk. apply bool_decide_eq_false in Hk. unfold mhas.
  destruct (mget k res) eqn:E; [|done]. by apply H in E.
Qed.

Lemma family_absent (keys other : list string) (res : gomap any) :
  (∀ k v, mget k res = Some v → k ∈ keys) → forallb (λ k, negb (bool_decide (k ∈ keys))) other = true →
  has_any other res = false.
Proof.
  intros H Hf. apply has_any_false. intros k Hk. apply (members_absent keys); [done|].
  rewrite forallb_forall in Hf. apply negb_true_iff, Hf. by apply list_elem_of_In.
Qed.

(** A declared member of the first operand is declared by the pick. *)
Lemma pickOf_Some pick a b : is_Some a → is_Some (pickOf pick a b).
Proof. intros [x ->]. destruct b; by eexists. Qed.

Lemma numericMeet_has steps a b res :
  bound_wf steps (AMap a) → has_any numeric_members a = true →
  stepMeet (getF "step" a) (getF "step" b) = inl (getF "step" res) →
  getF "min" res = maxOf (getF "min" a) (getF "min" b) →
  getF "max" res = minOf (getF "max" a) (getF "max" b) → has_any numeric_members res = true.
Proof.
  intros Wa Na Est Emn Emx. inversion Wa as [? ? _ A2 _ _ _ _ _]; subst.
  apply has_any_true in Na as (k & Hk & Hh). pose proof (A2 k Hk Hh) as Hx. apply has_any_true.
  exists k. split; [done|]. assert (is_Some (getF k res)) as [y Hy]; [|by eapply getF_mhas].
  rewrite list_elem_of_In in Hk. simpl in Hk. destruct Hk as [<-|[<-|[<-|[]]]].
  - rewrite Emn. by apply pickOf_Some.
  - rewrite Emx. by apply pickOf_Some.
  - destruct Hx as [x Hx]. rewrite Hx in Est. destruct (getF "step" b); simpl in Est;
      repeat case_match; by simplify_eq.
Qed.

Lemma numericMeet_wf steps a b res :
  bound_wf steps (AMap a) → bound_wf steps (AMap b) →
  numericMeet a b = inl res → bound_wf steps (AMap res).
Proof.
  intros Wa Wb H. destruct (numericMeet_members _ _ _ H) as (Est & Emn & Emx & Hm).
  inversion Wa as [? ? A1 _ _ A4 _ _ _]; inversion Wb as [? ? B1 _ _ B4 _ _ _]; subst.
  assert (∀ k v, mget k res = Some v → k ∈ numeric_members) as Hk by (intros k v Hv; by eapply Hm).
  pose proof (family_absent _ enum_members _ Hk eq_refl) as Re.
  pose proof (members_absent _ _ "nested" Hk eq_refl) as Rn.
  constructor; try done.
  - intros k g Hin. rewrite list_elem_of_In in Hin. simpl in Hin. destruct Hin as [<-|[<-|[<-|[<-|[]]]]].
    + rewrite Emn. apply pickOf_NaN; intros ?; [apply A1|apply B1]; set_solver.
    + rewrite Emx. apply pickOf_NaN; intros ?; [apply A1|apply B1]; set_solver.
    + by rewrite (mhas_getF "min_items") by (by apply (members_absent _ _ _ Hk)).
    + by rewrite (mhas_getF "max_items") by (by apply (members_absent _ _ _ Hk)).
  - intros k _. unfold mhas, getF. destruct (mget k res) as [v|] eqn:E; [|done].
    destruct (Hm _ _ E) as (_ & x & ->). eauto.
  - by rewrite (members_absent _ _ "enum" Hk eq_refl).
  - by apply (stepMeet_cases _ _ _ _ A4 B4 Est).
  - intros v Hv. unfold mhas in Rn. by rewrite Hv in Rn.
Qed.

Lemma numericMeet_ok steps a b res :
  bound_wf steps (AMap a) → bound_wf steps (AMap b) →
  has_any numeric_members a = true → has_any numeric_members b = true →
  numericMeet a b = inl res → meet_ok steps (AMap res) (AMap a) (AMap b).
Proof.
  intros Wa Wb Na Nb H. split; [by apply (numericMeet_wf steps a b)|]. intros o Ho.
  destruct (numericMeet_members _ _ _ H) as (Est & Emn & Emx & Hm).
  assert (∀ k v, mget k res = Some v → k ∈ numeric_members) as Hk by (intros k v Hv; by eapply Hm).
  pose proof (numericMeet_has steps a b res Wa Na Est Emn Emx) as Nr.
  inversion Wa as [? ? A1 _ _ A4 A5 _ _]; inversion Wb as [? ? B1 _ _ B4 B5 _ _]; subst.
  destruct (A5 Na) as [? ?], (B5 Nb) as [? ?].
  rewrite !boundSubset_numeric by (eauto using family_absent, members_absent).
  destruct (stepMeet_cases _ _ _ _ A4 B4 Est) as [_ Hst].
  unfold numericBound. destruct o; try done. rewrite !check_seq_None, !guard_None, Emn, Emx.
  intros (Hlo & Hhi & Hse).
  apply lower_pick in Hlo as [? ?]; [|intros x; apply (A1 "min" x); set_solver|intros x; apply (B1 "min" x); set_solver].
  apply upper_pick in Hhi as [? ?]; [|intros x; apply (A1 "max" x); set_solver|intros x; apply (B1 "max" x); set_solver].
  split; (do 2 (split; [done|])).
  - destruct (getF "step" a) as [x|] eqn:E; [|done]. rewrite Hst in Hse by eauto. by rewrite (A4 x).
  - destruct (getF "step" b) as [x|] eqn:E; [|done]. rewrite Hst in Hse by eauto. by rewrite (B4 x).
Qed.

(** ** Enumerations *)

Lemma dedup_by_key_elem seen l kv : kv ∈ dedup_by_key seen l → kv.2 ∈ l.
Proof.
  revert seen. induction l as [|v l IH]; intros seen; simpl; [set_solver|].
  destruct (mem_key _ _); [intros H%IH; set_solver|].
  intros [->|H%IH]%elem_of_cons; simpl; set_solver.
Qed.

Lemma canonicalEnumMembers_elem l x : x ∈ canonicalEnumMembers l → x ∈ l.
Proof.
  unfold canonicalEnumMembers. intros (kv & -> & Hin)%list_elem_of_fmap.
  rewrite merge_sort_Permutation in Hin. by apply dedup_by_key_elem in Hin.
Qed.

(** The enumeration of a meet: its members belong to both sides. *)
Definition enum_of (m : gomap any) : option (list any) := getL "enum" m.

Definition enum_both (ea eb er : option (list any)) : Prop :=
  match er with
  | None => ea = None ∧ eb = None
  | Some l =>
      (is_Some ea ∨ is_Some eb) ∧
      (∀ la, ea = Some la → l ⊆ la) ∧
      (∀ lb, eb = Some lb → ∀ x, x ∈ l → enum_covered lb x = true ∨ x ∈ lb) ∧
      (ea = None → eb = Some l)
  end.

Lemma enumMeet_members a b res :
  enumMeet a b = inl res →
  enum_both (getL "enum" a) (getL "enum" b) (getL "enum" res) ∧
  getF "min_items" res = maxOf (getF "min_items" a) (getF "min_items" b) ∧
  getF "max_items" res = minOf (getF "max_items" a) (getF "max_items" b) ∧
  (∀ k v, mget k res = Some v → k ∈ enum_members) ∧
  mget "enum" res = AList <$> getL "enum" res.
Proof.
  unfold enumMeet. rewrite rbind_inl. intros (e & He & H). destruct (crossed _ _ _); [done|].
  injection H as <-. unfold getL at 3 4. rewrite !getF_put, !mget_put. simpl. split_and!.
  - destruct (getL "enum" a) as [ae|], (getL "enum" b) as [be|]; simplify_eq/=.
    + destruct (enum_inter ae be) as [|x0 l0] eqn:Ei; simplify_eq/=.
      set (L := canonicalEnumMembers _).
      assert (∀ x, x ∈ L → x ∈ ae ∧ enum_covered be x = true) as HL.
      { intros x Hx%canonicalEnumMembers_elem. rewrite <- Ei in Hx. by apply enum_inter_elem. }
      split_and!; [eauto|intros ? [= <-] x Hx; by apply HL| |done].
      intros lb [= <-] x Hx. left. by apply HL.
    + split_and!; [eauto|naive_solver|done|done].
    + split_and!; [eauto|done|naive_solver|done].
    + done.
  - destruct (maxOf _ _); [done|]. by destruct e.
  - destruct (minOf _ _); [done|]. by destruct e.
  - intros k v [[-> ?]|[[-> ?]|H]%mget_put_inv]%mget_put_inv; [set_solver..|].
    destruct e; simpl in H; [|done]. destruct (String.eqb_spec k "enum") as [->|]; [set_solver|done].
  - by destruct e.
Qed.

(** Acceptance by an enumeration, when it is well formed. *)
Definition enum_accepts (o : any) (e : option (list any)) : Prop :=
  ∀ l, e = Some l → l ≠ [] ∧ ∀ x, x ∈ request_elems o → enum_covered l x = true.

Lemma enum_both_accepts o ea eb er :
  canonical_ok o →
  (∀ l, ea = Some l → ∀ x, x ∈ l → canonical_ok x) → (∀ l, eb = Some l → ∀ x, x ∈ l → canonical_ok x) →
  enum_both ea eb er → enum_accepts o er → enum_accepts o ea ∧ enum_accepts o eb.
Proof.
  intros Ho Ka Kb Hb Hr. destruct er as [l|]; [|destruct Hb as [-> ->]; done].
  destruct Hb as (Hs & H1 & H2 & H3). destruct (Hr l eq_refl) as [Hne Hc].
  assert (∃ x0, x0 ∈ l) as [x0 Hx0] by (destruct l as [|x0 l]; [done|exists x0; set_solver]).
  assert (∀ x, x ∈ l → canonical_ok x) as Kl.
  { intros x Hx. destruct ea as [la|]; [by eapply Ka, H1|]. rewrite (H3 eq_refl) in *. eauto. }
  split.
  - intros la ->. specialize (H1 la eq_refl). split; [intros ->; set_solver|]. intros x Hx.
    destruct (proj1 (enum_covered_true _ _) (Hc x Hx)) as (g & Hg & He). apply enum_covered_true. eauto.
  - intros lb ->. specialize (H2 lb eq_refl). specialize (Kb lb eq_refl). split.
    { intros ->. destruct (H2 x0 Hx0) as [(? & ? & _)%enum_covered_true|]; set_solver. }
    intros x Hx. apply (enum_covered_trans l lb); eauto using request_elems_canonical.
    intros c Hcin. destruct (H2 c Hcin) as [|Hin]; [done|]. apply enum_covered_true. exists c.
    split; [done|]. by apply enumEqual_refl.
Qed.

Lemma enumBound_accepts o m :
  (mhas "enum" m = true → is_Some (getL "enum" m)) →
  enumBound o m = None ↔ enum_accepts o (getL "enum" m).
Proof. apply enumBound_None. Qed.

Lemma bound_wf_enum steps m l x :
  getL "enum" m = Some l → x ∈ l → bound_wf steps (AMap m) → canonical_ok x.
Proof.
  intros Hl Hx W. inversion W as [? ? W1 W2 W3 W4 W5 W6 W7]; subst.
  assert (mhas "enum" m = true) as Hh by (unfold mhas; by rewrite (getL_mget _ _ _ Hl)).
  destruct (W3 Hh) as (l' & Hl' & H). simplify_eq. auto.
Qed.

Lemma bound_wf_enum_list steps m : bound_wf steps (AMap m) → mhas "enum" m = true → is_Some (getL "enum" m).
Proof. intros W H. inversion W as [? ? W1 W2 W3 W4 W5 W6 W7]; subst. destruct (W3 H) as (l & ? & _). eauto. Qed.

Lemma bound_wf_number steps m k x :
  getF k m = Some x → bool_decide (k ∈ bound_numbers) = true → bound_wf steps (AMap m) → IsNaN x = false.
Proof. intros Hx Hk%bool_decide_eq_true W. inversion W; subst. eauto. Qed.

Lemma enumMeet_wf steps a b res :
  bound_wf steps (AMap a) → bound_wf steps (AMap b) →
  enumMeet a b = inl res → bound_wf steps (AMap res).
Proof.
  intros Wa Wb H. destruct (enumMeet_members _ _ _ H) as (He & Emn & Emx & Hk & Hl).
  pose proof (family_absent _ numeric_members _ Hk eq_refl) as Rnum.
  pose proof (members_absent _ _ "nested" Hk eq_refl) as Rn.
  constructor; try done.
  - intros k g Hin. rewrite list_elem_of_In in Hin. simpl in Hin. destruct Hin as [<-|[<-|[<-|[<-|[]]]]].
    + by rewrite (mhas_getF "min") by (by apply (members_absent _ _ _ Hk)).
    + by rewrite (mhas_getF "max") by (by apply (members_absent _ _ _ Hk)).
    + rewrite Emn. apply pickOf_NaN; intros ? ?; by eapply bound_wf_number.
    + rewrite Emx. apply pickOf_NaN; intros ? ?; by eapply bound_wf_number.
  - intros k Hin Hh. rewrite has_any_false in Rnum. by rewrite Rnum in Hh.
  - unfold mhas. rewrite Hl. destruct (getL "enum" res) as [l|]; [|done]. intros _. exists l.
    split; [done|]. intros x Hx. destruct He as (_ & H1 & _ & H3).
    destruct (getL "enum" a) as [la|] eqn:Ea.
    + apply (bound_wf_enum steps a la); [done| |done]. by apply H1.
    + apply (bound_wf_enum steps b l); [by apply H3|done..].
  - by rewrite (mhas_getF "step") by (by apply (members_absent _ _ _ Hk)).
  - by rewrite Rnum.
  - intros v Hv. unfold mhas in Rn. by rewrite Hv in Rn.
Qed.

Lemma enumMeet_ok steps a b res :
  bound_wf steps (AMap a) → bound_wf steps (AMap b) →
  has_any enum_members a = true → has_any enum_members b = true →
  enumMeet a b = inl res → meet_ok steps (AMap res) (AMap a) (AMap b).
Proof.
  intros Wa Wb Na Nb H. assert (bound_wf steps (AMap res)) as Wr by (by apply (enumMeet_wf steps a b)).
  split; [done|]. intros o Ho. destruct (enumMeet_members _ _ _ H) as (He & Emn & Emx & Hk & Hl).
  assert (∀ m, bound_wf steps (AMap m) → has_any enum_members m = true →
     mhas "nested" m = false ∧ has_any numeric_members m = false) as Hfam.
  { intros m Wm Nm. inversion Wm as [? ? W1 W2 W3 W4 W5 W6 W7]; subst. split; [auto|].
    destruct (has_any numeric_members m) eqn:E; [|done]. destruct (W5 eq_refl) as [W5' _]. congruence. }
  destruct (Hfam a) as [? ?], (Hfam b) as [? ?]; try done.
  rewrite !boundSubset_enum by (done || by eapply family_absent || by eapply members_absent).
  rewrite !check_seq_None, !enumBound_accepts by (by eapply bound_wf_enum_list).
  intros [Hen Hca].
  assert (∀ l, getL "enum" a = Some l → ∀ x, x ∈ l → canonical_ok x) as Ka by (intros; by eapply bound_wf_enum).
  assert (∀ l, getL "enum" b = Some l → ∀ x, x ∈ l → canonical_ok x) as Kb by (intros; by eapply bound_wf_enum).
  destruct (enum_both_accepts o _ _ _ Ho Ka Kb He Hen) as [? ?].
  unfold cardinalityBound in *. rewrite !check_seq_None, !guard_None, Emn, Emx in *.
  destruct Hca as [Hlo Hhi].
  apply lower_pick in Hlo as [? ?]; [|intros x Hx; by eapply bound_wf_number..].
  apply upper_pick in Hhi as [? ?]; [|intros x Hx; by eapply bound_wf_number..].
  auto.
Qed.

(** ** Objects and the meet itself *)

(** The member meets of two nested objects. *)
Lemma nestedMeet_ok steps meet an bn r :
  wf_map an → wf_map bn → length an = length bn → meet_members meet bn an = inl r →
  (∀ k a b m, (k, a) ∈ an → mget k bn = Some b → meet a b = inl m →
     meet_ok (λ p, steps (k :: p)) m a b ∧
     (boundOptional m = true → boundOptional a = true ∧ boundOptional b = true)) →
  wf_map r ∧ (∀ k m, (k, m) ∈ r → bound_wf (λ p, steps (k :: p)) m) ∧
  ∀ om, canonical_ok (AMap om) → nestedSubset om r = None →
    nestedSubset om an = None ∧ nestedSubset om bn = None.
Proof.
  intros Wa Wb Hlen Hm Hok. destruct (meet_members_inv _ _ _ _ Hm) as [Hk Hmem].
  assert (wf_map r) as Wr by (unfold wf_map; by rewrite Hk). split; [done|].
  assert (∀ k m, (k, m) ∈ r → ∃ a b, (k, a) ∈ an ∧ mget k bn = Some b ∧ meet a b = inl m) as Hinv.
  { intros k m Hin. assert (k ∈ mkeys an) as ([k' a] & -> & Ha)%list_elem_of_fmap.
    { rewrite <- Hk. by eapply mkeys_elem. }
    destruct (Hmem _ _ Ha) as (b & v & Hb & Hv & Hin'). exists a, b. simpl in *.
    apply (elem_mget _ _ _ Wr) in Hin, Hin'. by simplify_eq. }
  split.
  { intros k m Hin. destruct (Hinv _ _ Hin) as (a & b & Ha & Hb & Hmt). by apply (Hok k a b m). }
  intros om Hom Hs. apply nestedSubset_None in Hs as [Hv Hcl].
  assert (∀ k a b, (k, a) ∈ an → mget k bn = Some b →
     match mget k om with None => boundOptional a = true ∧ boundOptional b = true
                        | Some ov => boundSubset ov a = None ∧ boundSubset ov b = None end) as Hboth.
  { intros k a b Ha Hb. destruct (Hmem _ _ Ha) as (b' & m & Hb' & Hmt & Hin). simplify_eq.
    destruct (Hok k a b m) as [[_ Hnar] Hopt]; [done..|]. specialize (Hv _ _ Hin).
    destruct (mget k om) eqn:E; [|auto]. apply Hnar; [|done]. by eapply canonical_ok_mget. }
  assert (∀ k, k ∈ mkeys an → k ∈ mkeys bn) as Hsub.
  { intros k ([k' a] & -> & Hin)%list_elem_of_fmap. destruct (Hmem _ _ Hin) as (b & ? & Hg%mget_elem & _).
    by eapply mkeys_elem. }
  rewrite !nestedSubset_None. split; split.
  - intros k a Ha. destruct (Hmem _ _ Ha) as (b & m & Hb & _). specialize (Hboth k a b Ha Hb).
    destruct (mget k om); naive_solver.
  - intros k Hin. rewrite <- Hk. auto.
  - intros k b Hb. assert (k ∈ mkeys an) as ([k' a] & -> & Ha)%list_elem_of_fmap.
    { apply (same_keys an bn); eauto using mkeys_elem. }
    apply (elem_mget _ _ _ Wb) in Hb. specialize (Hboth k' a b Ha Hb). simpl. destruct (mget k' om); naive_solver.
  - intros k Hin. apply Hsub. rewrite <- Hk. auto.
Qed.

(** A Bound without a family accepts every request. *)
Lemma boundSubset_free o m : boundFamily (AMap m) = FNone → boundSubset o (AMap m) = None.
Proof.
  unfold boundFamily. destruct (mhas "nested" m) eqn:E1; [done|]. destruct (has_any enum_members m) eqn:E2; [done|].
  destruct (has_any numeric_members m) eqn:E3; [done|]. intros _.
  rewrite boundSubset_enum by done. by destruct (no_enum_members o m E2) as [-> ->].
Qed.

Lemma meet_ok_same steps r r' a b : same_members r r' → meet_ok steps (AMap r) a b → meet_ok steps (AMap r') a b.
Proof.
  intros H [W N]. split; [by eapply bound_wf_same|]. intros o Ho. rewrite <- (boundSubset_same o r r') by done.
  by apply N.
Qed.

Lemma nested_only_wf steps r :
  wf_map r → (∀ k m, (k, m) ∈ r → bound_wf (λ p, steps (k :: p)) m) →
  bound_wf steps (AMap [("nested", AMap r)]).
Proof.
  intros Wr H. constructor; try done.
  - intros k g Hin. rewrite list_elem_of_In in Hin. simpl in Hin. by destruct Hin as [<-|[<-|[<-|[<-|[]]]]].
  - intros k Hin. rewrite list_elem_of_In in Hin. simpl in Hin. by destruct Hin as [<-|[<-|[<-|[]]]].
  - simpl. intros v [= <-]. eauto.
Qed.

Lemma boundFamily_cases m :
  match boundFamily (AMap m) with
  | FInvalid => False
  | FNested => mhas "nested" m = true
  | FEnum => has_any enum_members m = true
  | FNumeric => has_any numeric_members m = true
  | FNone => True
  end.
Proof. unfold boundFamily. by repeat case_match. Qed.

(** The meet of two well-formed Bounds is well formed and within both; it is
    optional only where both are. *)
Lemma boundMeet_ok a : ∀ steps b r,
  bound_wf steps a → bound_wf steps b → boundMeet a b = inl r →
  meet_ok steps r a b ∧
  (boundOptional r = true → boundOptional a = true ∧ boundOptional b = true).
Proof.
  induction a as [a IH] using any_strong_ind. intros steps b r Wa Wb H.
  inversion Wa as [? am A1 A2 A3 A4 A5 A6 A7]; inversion Wb as [? bm B1 B2 B3 B4 B5 B6 B7]; subst.
  cbn [boundMeet cloneBound] in H.
  pose proof (boundFamily_cases am) as Fa. pose proof (boundFamily_cases bm) as Fb.
  set (opt := boundOptional (AMap am) && boundOptional (AMap bm)) in *.
  assert (∀ res, r = AMap (set_optional opt (mdel "optional" res)) → meet_ok steps (AMap res) (AMap am) (AMap bm) →
     meet_ok steps r (AMap am) (AMap bm) ∧
     (boundOptional r = true → boundOptional (AMap am) = true ∧ boundOptional (AMap bm) = true)) as Hfin.
  { intros res -> Hm. split.
    - eapply meet_ok_same; [|done]. intros k Hk. symmetry. by apply same_members_optional.
    - rewrite boundOptional_set. subst opt. by rewrite andb_true_iff. }
  destruct (boundFamily (AMap am)) eqn:Ea, (boundFamily (AMap bm)) eqn:Eb; try done;
    try (injection H as <-; (eapply Hfin; [done|]);
         (split; [done|]); intros o Ho Hs; split; [done|]; by apply boundSubset_free);
    try (injection H as <-; (eapply Hfin; [done|]);
         (split; [done|]); intros o Ho Hs; split; [|done]; by apply boundSubset_free);
    apply rbind_inl in H as (res & Hres & [= <-]); (eapply Hfin; [done|]).
  - rewrite mget_with_mget in Hres. unfold mhas in Fa, Fb.
    destruct (mget "nested" am) as [va|] eqn:Na; [|done]. destruct (mget "nested" bm) as [vb|] eqn:Nb; [|done].
    destruct (A7 va eq_refl) as (an & -> & Wan & Han). destruct (B7 vb eq_refl) as (bn & -> & Wbn & Hbn).
    unfold getM in Hres. rewrite Nb in Hres. simpl in Hres. unfold nestedMeet_with in Hres.
    destruct (Nat.eqb_spec (length an) (length bn)) as [El|]; [|done]. simpl in Hres.
    apply rbind_inl in Hres as (rm & Hm & [= <-]).
    destruct (nestedMeet_ok steps boundMeet an bn rm) as (Wr & Hrw & Hnar); [done..| |].
    { intros k a b m Ha Hb Hmt. apply IH; [|auto|by eapply Hbn, mget_elem|done].
      eapply sub_member_trans; [by apply mget_elem|]. by eapply sub_member. }
    assert (has_any enum_members am = false ∧ has_any enum_members bm = false) as [Xa Xb].
    { unfold mhas in A6, B6. rewrite Na in A6. rewrite Nb in B6. split.
      - by destruct (has_any enum_members am); [specialize (A6 eq_refl)|].
      - by destruct (has_any enum_members bm); [specialize (B6 eq_refl)|]. }
    split; [by apply nested_only_wf|]. intros o Ho.
    rewrite (boundSubset_nested o am an), (boundSubset_nested o bm bn) by done.
    rewrite (boundSubset_nested o [("nested", AMap rm)] rm) by done.
    intros (om & -> & Hs). destruct (Hnar om Ho Hs) as [? ?]. split; eauto.
  - by apply enumMeet_ok.
  - by apply numericMeet_ok.
Qed.

(** ** The meet of two maps of Bounds *)

(** Bounds of a whole map follow a step assignment keyed by their names. *)
Definition bounds_wf (steps : list string → float64) (m : gomap any) : Prop :=
  wf_map m ∧ ∀ k b, (k, b) ∈ m → bound_wf (λ p, steps (k :: p)) b.

(** Where a key of [src] is declared, [out] admits only what [src] admits. *)
Definition bounds_within (out src : gomap any) : Prop :=
  ∀ k s, mget k src = Some s → ∃ r, mget k out = Some r ∧
    (boundOptional r = true → boundOptional s = true) ∧
    ∀ o, canonical_ok o → boundSubset o r = None → boundSubset o s = None.

Lemma bounds_within_refl m : bounds_within m m.
Proof. intros k s Hs. eauto. Qed.

Lemma bounds_within_trans a b c : bounds_within a b → bounds_within b c → bounds_within a c.
Proof.
  intros H1 H2 k s Hs. destruct (H2 k s Hs) as (r & Hr & Ho & Hn).
  destruct (H1 k r Hr) as (r' & Hr' & Ho' & Hn'). exists r'. eauto 7.
Qed.

Lemma bounds_wf_mset steps k b m :
  bounds_wf steps m → bound_wf (λ p, steps (k :: p)) b → bounds_wf steps (mset k b m).
Proof.
  intros [W H] Hb. split; [by apply wf_mset|]. intros k' b' Hin%elem_mget; [|by apply wf_mset].
  rewrite mget_mset in Hin. destruct (String.eqb_spec k' k) as [->|]; [by simplify_eq|].
  by apply H, mget_elem.
Qed.

Lemma bounds_within_mset out k r :
  (∀ s, mget k out = Some s → (boundOptional r = true → boundOptional s = true) ∧
     ∀ o, canonical_ok o → boundSubset o r = None → boundSubset o s = None) →
  bounds_within (mset k r out) out.
Proof.
  intros H k' s Hs. rewrite mget_mset. destruct (String.eqb_spec k' k) as [->|]; [|eauto].
  destruct (H s Hs). eauto.
Qed.

Lemma meet_into_ok steps b : ∀ out r,
  bounds_wf steps out → bounds_wf steps b → meet_into out b = inl r →
  bounds_wf steps r ∧ bounds_within r out ∧ bounds_within r b ∧
  ∀ k, k ∈ mkeys r ↔ k ∈ mkeys out ∨ k ∈ mkeys b.
Proof.
  induction b as [|[k v] b IH]; intros out r Wo [Wb Hb] H; cbn [meet_into] in H.
  { simplify_eq. split_and!; [done|apply bounds_within_refl|done|set_solver]. }
  pose proof (Hb k v ltac:(set_solver)) as Wv. cbn [fst snd] in *. apply list.NoDup_cons in Wb as [Hk Wb].
  assert (bounds_wf steps b) as Wb' by (split; [done|]; intros; apply Hb; set_solver).
  set (x := match mget k out with Some av => boundMeet av v | None => inl v end).
  assert (∃ m, x = inl m ∧ meet_into (mset k m out) b = inl r) as (m & Hx & Hr).
  { subst x. destruct (mget k out); [by apply rbind_inl in H|eauto]. }
  assert (bound_wf (λ p, steps (k :: p)) m ∧ (boundOptional m = true → boundOptional v = true) ∧
     (∀ o, canonical_ok o → boundSubset o m = None → boundSubset o v = None) ∧
     bounds_within (mset k m out) out) as (Wm & Hov & Hnv & Hout).
  { subst x. destruct (mget k out) as [av|] eqn:E.
    - destruct (boundMeet_ok av (λ p, steps (k :: p)) v m) as [[? Hn] Ho]; [|done..|].
      { by apply Wo, mget_elem. }
      split_and!; [done|by intros [? ?]%Ho|intros o ? ?; by apply (Hn o)|].
      apply bounds_within_mset. intros s Hs. simplify_eq. split; [by intros [? ?]%Ho|intros o ? ?; by apply (Hn o)].
    - simplify_eq. split_and!; [done..|]. apply bounds_within_mset. congruence. }
  destruct (IH (mset k m out) r) as (Wr & H1 & H2 & H3); [by apply bounds_wf_mset|done..|].
  split_and!; [done|by apply (bounds_within_trans r (mset k m out) out)| |].
  - intros k' s. simpl. destruct (String.eqb_spec k' k) as [->|]; [|by apply H2]. intros [= <-].
    destruct (H1 k m) as (r' & Hr' & Ho & Hn); [by rewrite mget_mset, String.eqb_refl|]. exists r'. split; [done|]. split; [by intros ?%Ho%Hov|]. intros o ? ?. by apply Hnv, Hn.
  - intros k'. rewrite H3, mkeys_mset. simpl. set_solver.
Qed.

Lemma intersectBounds_ok steps a b r :
  bounds_wf steps a → bounds_wf steps b → intersectBounds a b = inl r →
  bounds_wf steps r ∧ bounds_within r a ∧ bounds_within r b ∧
  ∀ k, k ∈ mkeys r ↔ k ∈ mkeys a ∨ k ∈ mkeys b.
Proof.
  intros Wa Wb H. unfold intersectBounds, cloneBoundMap in H.
  destruct a as [|ka a]; [simplify_eq; split_and!; [done|done|apply bounds_within_refl|set_solver]|].
  destruct b as [|kb b]; [simplify_eq; split_and!; [done|apply bounds_within_refl|done|set_solver]|].
  by apply meet_into_ok.
Qed.
