(* ===== verification/JsonText.v ===== *)
(** * JSON text

    A reader for JSON text as [encoding/json] accepts it, producing a tree that
    keeps duplicate keys and number literals, and the decoders the constraint
    grammar uses. *)

From S2P Require Import Prelude GoStrings Regex.

Inductive jtext :=
  | JNull
  | JBool (b : bool)
  | JNum (lit : string)
  | JStr (s : string)
  | JArr (l : list jtext)
  | JObj (m : list (string * jtext)).

Definition is_ws (c : ascii) : bool :=
  let z := code c in (z =? 32) || (z =? 9) || (z =? 10) || (z =? 13).
Fixpoint skip_ws (s : string) : string :=
  match s with
  | String c s' => if is_ws c then skip_ws s' else s
  | EmptyString => s
  end.

(** [utf8.AppendRune]. *)
Definition encode_rune (r : Z) : string :=
  let b (z : Z) (t : string) := String (chr z) t in
  if r <? 128 then b r ""
  else if r <? 2048 then b (192 + Z.shiftr r 6) (b (128 + Z.land r 63) "")
  else if r <? 65536 then
    b (224 + Z.shiftr r 12) (b (128 + Z.land (Z.shiftr r 6) 63) (b (128 + Z.land r 63) ""))
  else b (240 + Z.shiftr r 18) (b (128 + Z.land (Z.shiftr r 12) 63)
         (b (128 + Z.land (Z.shiftr r 6) 63) (b (128 + Z.land r 63) ""))).

Definition hex_val (c : ascii) : option Z :=
  if is_digit c then Some (code c - 48)
  else if in_range 97 102 c then Some (code c - 87)
  else if in_range 65 70 c then Some (code c - 55)
  else None.

(** Four hex digits and what follows them. *)
Definition hex4 (s : string) : option (Z * string) :=
  match s with
  | String a (String b (String c (String d r))) =>
      x ← hex_val a; y ← hex_val b; z ← hex_val c; w ← hex_val d;
      Some (4096 * x + 256 * y + 16 * z + w, r)
  | _ => None
  end.

Definition is_low (r : Z) : bool := (56320 <=? r) && (r <=? 57343).
Definition is_high (r : Z) : bool := (55296 <=? r) && (r <=? 56319).

(** The rune a [\u] escape denotes: a surrogate pair is combined, a lone
    surrogate becomes U+FFFD. *)
Definition unicode_escape (s : string) : option (Z * string) :=
  '(r, rest) ← hex4 s;
  if is_high r then
    match rest with
    | String "\" (String "u" t) =>
        match hex4 t with
        | Some (lo, rest') =>
            if is_low lo then Some (65536 + 1024 * (r - 55296) + (lo - 56320), rest')
            else Some (RuneError, rest)
        | None => None
        end
    | _ => Some (RuneError, rest)
    end%char
  else if is_low r then Some (RuneError, rest) else Some (r, rest).

Definition simple_escape (c : ascii) : option ascii :=
  let z := code c in
  if (z =? 34) || (z =? 92) || (z =? 47) then Some c
  else if z =? 98 then Some (chr 8) else if z =? 102 then Some (chr 12)
  else if z =? 110 then Some (chr 10) else if z =? 114 then Some (chr 13)
  else if z =? 116 then Some (chr 9) else None.

(** The body of a string literal up to the closing quote; the fuel is the length
    of the text and each step consumes a byte. *)
Fixpoint read_string (fuel : nat) (s : string) : option (string * string) :=
  match fuel, s with
  | S fuel', String c s' =>
      if code c =? 34 then Some ("", s')
      else if code c =? 92 then
        match s' with
        | String "u" t =>
            '(r, rest) ← unicode_escape t;
            '(out, rest') ← read_string fuel' rest; Some (encode_rune r +:+ out, rest')
        | String e t =>
            d ← simple_escape e; '(out, rest') ← read_string fuel' t; Some (String d out, rest')
        | EmptyString => None
        end%char
      else if code c <? 32 then None
      else
        match decode_rune s with
        | Some (_, n) =>
            '(out, rest') ← read_string fuel' (sdrop n s); Some (stake n s +:+ out, rest')
        | None => '(out, rest') ← read_string fuel' s'; Some (encode_rune RuneError +:+ out, rest')
        end
  | _, _ => None
  end.

(** The JSON number grammar: an optional minus sign, an integer without leading
    zeros, an optional fraction and an optional exponent. *)
Definition numericLiteralRE : re :=
  Cat (Opt (lit "-"))
    (Cat (Alt (lit "0") (Cat (Chr (in_range 49 57)) (Star digit)))
       (Cat (Opt (Cat (lit ".") (Plus digit)))
          (Opt (Cat (Chr (λ c, Ascii.eqb c "e" || Ascii.eqb c "E"))
                  (Cat (Opt (Chr (λ c, Ascii.eqb c "+" || Ascii.eqb c "-"))) (Plus digit)))))).

Definition number_char (c : ascii) : bool :=
  is_digit c || Ascii.eqb c "-" || Ascii.eqb c "+" || Ascii.eqb c "." || Ascii.eqb c "e" || Ascii.eqb c "E".
Fixpoint span (p : ascii → bool) (s : string) : string * string :=
  match s with
  | String c s' => if p c then let '(a, b) := span p s' in (String c a, b) else (EmptyString, s)
  | EmptyString => (EmptyString, EmptyString)
  end.
Definition read_number (s : string) : option (jtext * string) :=
  let '(l, rest) := span number_char s in
  if matches numericLiteralRE l then Some (JNum l, rest) else None.

Definition read_literal (s : string) : option (jtext * string) :=
  if HasPrefix s "null" then Some (JNull, sdrop 4 s)
  else if HasPrefix s "true" then Some (JBool true, sdrop 4 s)
  else if HasPrefix s "false" then Some (JBool false, sdrop 5 s)
  else read_number s.

(** The scanner's nesting limit. *)
Definition maxJSONDepth : Z := 10000.

Fixpoint read_value (fuel : nat) (depth : Z) (s : string) {struct fuel} : option (jtext * string) :=
  match fuel with
  | O => None
  | S fuel' =>
      match skip_ws s with
      | String c s' =>
          if code c =? 34 then
            '(v, rest) ← read_string (String.length s') s'; Some (JStr v, rest)
          else if code c =? 91 then
            if maxJSONDepth <? depth + 1 then None
            else match skip_ws s' with
                 | String "]" t => Some (JArr [], t)
                 | _ => '(l, rest) ← read_elems fuel' (depth + 1) s'; Some (JArr l, rest)
                 end%char
          else if code c =? 123 then
            if maxJSONDepth <? depth + 1 then None
            else match skip_ws s' with
                 | String "}" t => Some (JObj [], t)
                 | _ => '(m, rest) ← read_members fuel' (depth + 1) s'; Some (JObj m, rest)
                 end%char
          else read_literal (String c s')
      | EmptyString => None
      end
  end
with read_elems (fuel : nat) (depth : Z) (s : string) {struct fuel} : option (list jtext * string) :=
  match fuel with
  | O => None
  | S fuel' =>
      '(v, rest) ← read_value fuel' depth s;
      match skip_ws rest with
      | String "," t => '(l, r) ← read_elems fuel' depth t; Some (v :: l, r)
      | String "]" t => Some ([v], t)
      | _ => None
      end%char
  end
with read_members (fuel : nat) (depth : Z) (s : string) {struct fuel} : option (list (string * jtext) * string) :=
  match fuel with
  | O => None
  | S fuel' =>
      match skip_ws s with
      | String q s' =>
          if code q =? 34 then
            '(k, rest) ← read_string (String.length s') s';
            match skip_ws rest with
            | String ":" t =>
                '(v, rest) ← read_value fuel' depth t;
                match skip_ws rest with
                | String "," t => '(l, r) ← read_members fuel' depth t; Some ((k, v) :: l, r)
                | String "}" t => Some ([(k, v)], t)
                | _ => None
                end%char
            | _ => None
            end%char
          else None
      | EmptyString => None
      end
  end.

(** One value and nothing but white space after it: [dec.Decode] followed by
    [dec.Token] at the end of input.  Every recursive call is below a consumed
    byte or one level of the grammar, so twice the length is enough fuel. *)
Definition read_document (s : string) : option jtext :=
  '(v, rest) ← read_value (S (2 * String.length s)) 0 s;
  if String.eqb (skip_ws rest) "" then Some v else None.

(** ** Decoding into Go types *)

(** A JSON object as a [map[string]json.RawMessage]: the last duplicate wins. *)
Definition raw_map (m : list (string * jtext)) : gomap jtext :=
  fold_left (λ acc kv, mset kv.1 kv.2 acc) m [].

(** Into a [string]: null leaves the zero value. *)
Definition into_string (j : jtext) : option string :=
  match j with JStr s => Some s | JNull => Some "" | _ => None end.

(** Into a [map[string]json.RawMessage]. *)
Definition into_raw_map (j : jtext) : option (gomap jtext) :=
  match j with JObj m => Some (raw_map m) | JNull => Some [] | _ => None end.

Definition into_list {A} (f : jtext → option A) (j : jtext) : option (list A) :=
  match j with JArr l => mapM f l | JNull => Some [] | _ => None end.

Example read_sample :
  read_document ("[{" +:+ quoted "a" +:+ ": -1.5e3, " +:+ quoted "b" +:+ ": [true, null]} , "
                 +:+ quoted "\u0041\n" +:+ "]") =
  Some (JArr [JObj [("a", JNum "-1.5e3"); ("b", JArr [JBool true; JNull])];
              JStr (String "A" (String (chr 10) ""))]).
Proof. vm_compute. reflexivity. Qed.
