(* ===== verification/JsonStruct.v ===== *)
(** * Decoding JSON into Go types

    [json.Unmarshal] into interface values and into structs, the closed decoder
    (a single value, no unknown member) and internal/jsonstrict, the scan that
    refuses a document in which an object repeats a member. *)

From S2P Require Import Prelude GoStrings GoFloat Json JsonText.

(** ** Decoding into interface values *)

(** [json.Unmarshal] into an [any]: numbers become float64 (an out-of-range
    literal is an error), the last of duplicate keys wins. *)
Fixpoint unmarshal_any (j : jtext) : option any :=
  match j with
  | JNull => Some ANil
  | JBool b => Some (ABool b)
  | JNum l => AFloat <$> ParseFloat l
  | JStr s => Some (AStr s)
  | JArr l =>
      AList <$> (fix go (l : list jtext) : option (list any) :=
        match l with
        | [] => Some []
        | x :: l' => v ← unmarshal_any x; vs ← go l'; Some (v :: vs)
        end) l
  | JObj m =>
      AMap <$> (fix go (acc : gomap any) (m : list (string * jtext)) : option (gomap any) :=
        match m with
        | [] => Some acc
        | (k, x) :: m' => v ← unmarshal_any x; go (mset k v acc) m'
        end) [] m
  end.

(** Into a fresh [any] and a fresh [map[string]any]. *)
Definition unmarshal_value (raw : string) : option any := j ← read_document raw; unmarshal_any j.
Definition unmarshal_object (raw : string) : option (option (gomap any)) :=
  v ← unmarshal_value raw;
  match v with ANil => Some None | AMap m => Some (Some m) | _ => None end.

(** An optional raw message: an absent one leaves the nil map. *)
Definition raw_object (raw : string) : option (option (gomap any)) :=
  if String.eqb raw "" then Some None else unmarshal_object raw.

(** ** The duplicate-member scan (internal/jsonstrict)

    [json.Decoder.Token] yields the tokens of the document; [Check] runs a stack
    of open containers over them. *)

Inductive token := TOpenObj | TOpenArr | TCloseObj | TCloseArr | TString (s : string) | TScalar.

Section tokens.
Context (tokens : jtext → list token).
Fixpoint elem_tokens (l : list jtext) : list token :=
match l with [] => [] | x :: l' => tokens x ++ elem_tokens l' end.
Fixpoint member_tokens (m : list (string * jtext)) : list token :=
match m with [] => [] | (k, x) :: m' => TString k :: tokens x ++ member_tokens m' end.
End tokens.

Fixpoint tokens (j : jtext) : list token :=
  match j with
  | JStr s => [TString s]
  | JArr l => TOpenArr :: elem_tokens tokens l ++ [TCloseArr]
  | JObj m => TOpenObj :: member_tokens tokens m ++ [TCloseObj]
  | _ => [TScalar]
  end.

Record container := mkContainer { cn_object : bool; cn_expectKey : bool; cn_keys : list string }.

(** The parent of a closed or scalar value expects a key again. *)
Definition value_done (stack : list container) : list container :=
  match stack with
  | top :: rest => if cn_object top then mkContainer true true (cn_keys top) :: rest else stack
  | [] => []
  end.

(** One token: the new stack, [None] where [Check] returns an error. *)
Definition check_token (stack : list container) (t : token) : option (list container) :=
  match t with
  | TOpenObj => Some (mkContainer true true [] :: stack)
  | TOpenArr => Some (mkContainer false false [] :: stack)
  | TCloseObj | TCloseArr => match stack with [] => None | _ :: rest => Some (value_done rest) end
  | TString s =>
      match stack with
      | top :: rest =>
          if cn_object top && cn_expectKey top then
            if existsb (String.eqb s) (cn_keys top) then None
            else Some (mkContainer true false (s :: cn_keys top) :: rest)
          else Some (value_done stack)
      | [] => Some stack
      end
  | TScalar => Some (value_done stack)
  end.

Fixpoint check_tokens (stack : list container) (ts : list token) : option (list container) :=
  match ts with
  | [] => Some stack
  | t :: ts' => stack' ← check_token stack t; check_tokens stack' ts'
  end.

(** The values of a stream up to the end of input.  The token reader has no
    nesting limit, so the depth starts below zero. *)
Fixpoint read_stream (fuel : nat) (s : string) : option (list jtext) :=
  match fuel with
  | O => None
  | S fuel' =>
      if String.eqb (skip_ws s) "" then Some []
      else
        '(v, rest) ← read_value (S (2 * String.length s)) (- Z.of_nat (String.length s)) s;
        vs ← read_stream fuel' rest; Some (v :: vs)
  end.

(** [jsonstrict.Check]: true is the nil error. *)
Definition Check_dups (raw : string) : bool :=
  match read_stream (S (String.length raw)) raw with
  | None => false
  | Some vs =>
      match check_tokens [] (elem_tokens tokens vs) with
      | Some [] => true
      | _ => false
      end
  end.

(** The specification: no object of the document, at any depth, repeats a
    member. *)
Fixpoint distinct_members (j : jtext) : bool :=
  match j with
  | JArr l => forallb distinct_members l
  | JObj m => bool_decide (NoDup (mkeys m)) && forallb (λ kv, distinct_members kv.2) m
  | _ => true
  end.

(** *** The scan decides the specification *)

Section jtext_ind.
Context (P : jtext → Prop) (Hnull : P JNull) (Hbool : ∀ b, P (JBool b)) (Hnum : ∀ l, P (JNum l))
(Hstr : ∀ s, P (JStr s)) (Harr : ∀ l, Forall P l → P (JArr l))
(Hobj : ∀ m, Forall (λ kv, P kv.2) m → P (JObj m)).
Fixpoint jtext_nested_ind (j : jtext) : P j :=
match j with
| JNull => Hnull
| JBool b => Hbool b
| JNum l => Hnum l
| JStr s => Hstr s
| JArr l => Harr l
    ((fix go l : Forall P l :=
        match l with [] => Forall_nil_2 _ | x :: l' => Forall_cons_2 _ _ _ (jtext_nested_ind x) (go l') end) l)
| JObj m => Hobj m
    ((fix go m : Forall (λ kv, P kv.2) m :=
        match m with
        | [] => Forall_nil_2 _
        | kv :: m' => Forall_cons_2 _ kv m' (jtext_nested_ind kv.2) (go m')
        end) m)
end.
End jtext_ind.

(** A stack on which a value may come next. *)
Definition expects_value (stack : list container) : bool :=
  match stack with top :: _ => negb (cn_object top && cn_expectKey top) | [] => true end.

(** What the scan of the members requires, given the keys already seen. *)
Fixpoint members_ok (seen : list string) (m : list (string * jtext)) : bool :=
  match m with
  | [] => true
  | (k, x) :: m' => negb (existsb (String.eqb k) seen) && distinct_members x && members_ok (k :: seen) m'
  end.

Lemma members_ok_spec seen m :
  members_ok seen m = true ↔
  NoDup (mkeys m) ∧ (∀ k, k ∈ mkeys m → k ∉ seen) ∧ forallb (λ kv, distinct_members kv.2) m = true.
Proof.
  revert seen. induction m as [|[k x] m IH]; intros seen.
  - split; [|done]. intros _. split; [constructor|]. split; [|done]. by intros k ?%not_elem_of_nil.
  - cbn [members_ok forallb snd]. unfold mkeys. rewrite fmap_cons, list.NoDup_cons. cbn [fst].
    change (fst <$> m) with (mkeys m).
    rewrite !andb_true_iff, IH, negb_true_iff, <- not_true_iff_false.
    assert (existsb (String.eqb k) seen = true ↔ k ∈ seen) as ->.
    { rewrite existsb_exists. setoid_rewrite String.eqb_eq. rewrite list_elem_of_In. naive_solver. }
    set_solver.
Qed.

Definition scans (j : jtext) : Prop :=
  ∀ stack ts, expects_value stack = true →
    check_tokens stack (tokens j ++ ts) =
    if distinct_members j then check_tokens (value_done stack) ts else None.

Lemma scan_elems l :
  Forall scans l → ∀ stack ts, match stack with top :: _ => cn_object top = false | [] => True end →
  check_tokens stack (elem_tokens tokens l ++ ts) =
  if forallb distinct_members l then check_tokens stack ts else None.
Proof.
  induction 1 as [|x l Hx Hl IH]; intros stack ts Hs; [done|]. cbn [elem_tokens forallb].
  rewrite <- app_assoc, Hx.
  2:{ destruct stack as [|[[] ? ?] ?]; done. }
  assert (value_done stack = stack) as -> by (destruct stack as [|[[] ? ?] ?]; done).
  destruct (distinct_members x); [|done]. by apply IH.
Qed.

Lemma scan_members m :
  Forall (λ kv, scans kv.2) m → ∀ seen stack ts,
  check_tokens (mkContainer true true seen :: stack) (member_tokens tokens m ++ ts) =
  if members_ok seen m then check_tokens (mkContainer true true (rev (mkeys m) ++ seen) :: stack) ts else None.
Proof.
  induction 1 as [|[k x] m Hx Hm IH]; intros seen stack ts; [done|]. cbn [member_tokens members_ok app].
  cbn [check_tokens check_token cn_object cn_expectKey cn_keys andb].
  destruct (existsb (String.eqb k) seen); [done|]. cbn [mbind option_bind negb andb].
  rewrite <- app_assoc, Hx by done. cbn [snd]. destruct (distinct_members x); [|done]. cbn [value_done cn_object cn_keys andb].
  rewrite IH. destruct (members_ok (k :: seen) m); [|done].
  unfold mkeys. rewrite fmap_cons. cbn [rev fst]. by rewrite <- app_assoc.
Qed.

Lemma scans_all j : scans j.
Proof.
  induction j as [|b|l|s|l IH|m IH] using jtext_nested_ind; intros stack ts Hs.
  1-3: destruct stack as [|[[] [] ?] ?]; done.
  - cbn. destruct stack as [|[[] [] ?] ?]; done.
  - cbn [tokens distinct_members]. cbn [app check_tokens check_token mbind option_bind].
    rewrite <- app_assoc, (scan_elems l IH) by done. by destruct (forallb _ _).
  - cbn [tokens distinct_members]. cbn [app check_tokens check_token mbind option_bind].
    rewrite <- app_assoc, (scan_members m IH).
    replace (members_ok [] m) with (bool_decide (NoDup (mkeys m)) && forallb (λ kv, distinct_members kv.2) m).
    { by destruct (_ && _). }
    apply eq_iff_eq_true. rewrite members_ok_spec, andb_true_iff, bool_decide_eq_true. set_solver.
Qed.

(** The scan accepts a stream of values exactly when no object of any of them,
    at any depth, repeats a member. *)
Lemma Check_dups_spec raw vs :
  read_stream (S (String.length raw)) raw = Some vs → Check_dups raw = forallb distinct_members vs.
Proof.
  intros H. unfold Check_dups. rewrite H. rewrite <- (app_nil_r (elem_tokens tokens vs)).
  rewrite scan_elems; [by destruct (forallb _ _)| |done]. apply list.Forall_forall. intros j _. apply scans_all.
Qed.

(** ** Structs

    The kinds of struct members the code decodes, the values they hold, and the
    decoder of [encoding/json]: a member name is matched exactly, else up to case
    folding; a null leaves a string, number, boolean or struct unchanged and
    clears a pointer, slice or map; an object decoded into a map or a struct adds
    to it. *)

Inductive fkind := FStr | FInt64 | FPtrInt64 | FBool | FStrings | FObject | FStruct.
Inductive fval :=
  | VStr (s : string) | VInt (z : Z) | VPtr (z : option Z) | VBool (b : bool)
  | VStrings (l : list string) | VObject (m : option (list (string * jtext))).

(** [foldName]: ASCII letters in upper case; of the other runes only the long s
    and the Kelvin sign fold into ASCII. *)
Definition fold_rune (r : Z) : Z :=
  if (97 <=? r) && (r <=? 122) then r - 32
  else if r =? 383 then 83 else if r =? 8490 then 75 else r.
Definition fold_name (s : string) : list Z := map (λ rv, fold_rune rv.1) (runes s).

Definition find_field {A} (fields : gomap A) (key : string) : option (string * A) :=
  match List.find (λ f, String.eqb f.1 key) fields with
  | Some f => Some f
  | None => List.find (λ f, bool_decide (fold_name f.1 = fold_name key)) fields
  end.

(** An integer literal in the range of int64. *)
Definition into_int64 (l : string) : option Z := let '(z, ok) := Atoi l in if ok then Some z else None.

(** One member: the new value of the field, [None] for a type error. *)
Definition decode_field (k : fkind) (old : option fval) (j : jtext) : option (option fval) :=
  match k, j with
  | FStr, JStr s => Some (Some (VStr s))
  | FInt64, JNum l => z ← into_int64 l; Some (Some (VInt z))
  | FPtrInt64, JNum l => z ← into_int64 l; Some (Some (VPtr (Some z)))
  | FPtrInt64, JNull => Some (Some (VPtr None))
  | FBool, JBool b => Some (Some (VBool b))
  | FStrings, JArr l => ss ← mapM into_string l; Some (Some (VStrings ss))
  | FStrings, JNull => Some (Some (VStrings []))
  | (FObject | FStruct), JObj m => Some (Some (VObject (Some (match old with Some (VObject (Some m')) => m' ++ m | _ => m end))))
  | FObject, JNull => Some (Some (VObject None))
  | (FStr | FInt64 | FBool | FStruct), JNull => Some old
  | _, _ => None
  end.

Section decode_members.
Context (fields : gomap fkind).
Fixpoint decode_members (m : list (string * jtext)) (t : gomap fval) : option (gomap fval) :=
match m with
| [] => Some t
| (key, j) :: m' =>
    '(name, k) ← find_field fields key;
    v ← decode_field k (mget name t) j;
    decode_members m' (match v with Some v => mset name v t | None => t end)
end.
End decode_members.

Definition decode_struct (fields : gomap fkind) (j : jtext) : option (gomap fval) :=
  match j with JObj m => decode_members fields m [] | JNull => Some [] | _ => None end.

Definition get_str (k : string) (t : gomap fval) : string :=
  match mget k t with Some (VStr s) => s | _ => "" end.
Definition get_int (k : string) (t : gomap fval) : Z := match mget k t with Some (VInt z) => z | _ => 0 end.
Definition get_ptr (k : string) (t : gomap fval) : option Z :=
  match mget k t with Some (VPtr z) => z | _ => None end.
Definition get_bool (k : string) (t : gomap fval) : bool := match mget k t with Some (VBool b) => b | _ => false end.
Definition get_strs (k : string) (t : gomap fval) : list string :=
  match mget k t with Some (VStrings l) => l | _ => [] end.
(** A nil map is [None]. *)
Definition get_obj (k : string) (t : gomap fval) : option (list (string * jtext)) :=
  match mget k t with Some (VObject m) => m | _ => None end.

(** [decodeClosed] of schemeadmin: bounded, no repeated member, no unknown
    member, nothing after the value. *)
Definition maxArtifactBytes : Z := 8 * 2 ^ 20.

Definition decodeClosed (fields : gomap fkind) (raw : string) : option (gomap fval) :=
  if maxArtifactBytes <? Z.of_nat (String.length raw) then None
  else if negb (Check_dups raw) then None
  else j ← read_document raw; decode_struct fields j.

(** A struct member list as a JSON object, without the members that are empty
    and marked [omitempty]. *)
Definition omitempty (l : list (option (string * any))) : any := AMap (omap id l).
Definition member (k : string) (v : any) : option (string * any) := Some (k, v).
Definition member_str (k s : string) : option (string * any) :=
  if String.eqb s "" then None else Some (k, AStr s).
Definition member_int (k : string) (z : Z) : option (string * any) :=
  if z =? 0 then None else Some (k, AInt KInt64 z).
Definition member_ptr (k : string) (z : option Z) : option (string * any) :=
  (λ z, (k, AInt KInt64 z)) <$> z.
Definition member_strs (k : string) (l : list string) : option (string * any) :=
  match l with [] => None | _ => Some (k, AList (map AStr l)) end.
