(* ===== verification/Utf.v ===== *)
(** * UTF-8 and UTF-16

    The decoder of [unicode/utf8] inverts the encoder, a valid string is the
    concatenation of the encodings of its runes, and [utf16.Encode] is injective
    on valid strings: the order of object members that RFC 8785 prescribes is a
    total order on the keys of a canonical document. *)

From S2P Require Import Prelude GoStrings Regex JsonText.

(** ** One rune *)

(** A Unicode scalar value. *)
Definition scalar (r : Z) : Prop := 0 <= r < 55296 ∨ 57344 <= r < 1114112.

Lemma land_ones6 z : Z.land z 63 = z mod 64.
Proof. change 63 with (Z.ones 6). by rewrite Z.land_ones. Qed.
Lemma land_ones5 z : Z.land z 31 = z mod 32.
Proof. change 31 with (Z.ones 5). by rewrite Z.land_ones. Qed.
Lemma land_ones4 z : Z.land z 15 = z mod 16.
Proof. change 15 with (Z.ones 4). by rewrite Z.land_ones. Qed.
Lemma land_ones3 z : Z.land z 7 = z mod 8.
Proof. change 7 with (Z.ones 3). by rewrite Z.land_ones. Qed.

Lemma lor_shift6 x y : 0 <= y < 64 → Z.lor (Z.shiftl x 6) y = 64 * x + y.
Proof.
  intros Hy. pose proof (Z.add_lor_land (Z.shiftl x 6) y) as H.
  rewrite Z.shiftl_mul_pow2 in * by lia. change (2 ^ 6) with 64 in *.
  assert (Z.land (x * 64) y = 0) as E; [|lia]. apply Z.bits_inj'. intros n Hn.
  rewrite Z.land_spec, Z.bits_0. change 64 with (2 ^ 6). destruct (Z.ltb_spec n 6).
  - by rewrite Z.mul_pow2_bits_low.
  - rewrite andb_false_iff. right. destruct (decide (y = 0)) as [->|]; [apply Z.bits_0|].
    apply Z.bits_above_log2; [lia|]. apply Z.log2_lt_pow2; [lia|].
    apply Z.lt_le_trans with (2 ^ 6); [lia|]. apply Z.pow_le_mono_r; lia.
Qed.

Lemma cont_Some lo hi c y : cont lo hi c = Some y → lo <= code c <= hi ∧ y = code c mod 64.
Proof.
  unfold cont, in_range. destruct (_ && _) eqn:E; [|done]. intros; simplify_eq. go_bool.
  rewrite land_ones6. lia.
Qed.

(** The bytes of a decoded rune are its encoding. *)
Definition decoded_as (s : string) (r : Z) (n : nat) : Prop :=
  scalar r ∧ stake n s = encode_rune r ∧ (0 < n)%nat.

Ltac rune_arith :=
  rewrite ?lor_shift6, ?land_ones5, ?land_ones4, ?land_ones3 in * by (apply Z.mod_pos_bound; lia).

Lemma decode2 c c1 s r n :
  194 <= code c <= 223 → b2 128 191 (Z.land (code c) 31) (String c1 s) = Some (r, n) →
  decoded_as (String c (String c1 s)) r n.
Proof.
  intros Hc. cbn [b2]. destruct (cont _ _ c1) as [y|] eqn:E; [|done]. cbn. intros; simplify_eq.
  apply cont_Some in E as [H1 ->]. rune_arith. set (r := 64 * _ + _).
  assert (code c = 192 + r / 64 ∧ code c1 = 128 + r mod 64 ∧ 128 <= r < 2048) as (E0 & E1 & Hr).
  { unfold r. Z.to_euclidean_division_equations. lia. }
  split; [left; lia|]. split; [|lia]. unfold encode_rune.
  rewrite (proj2 (Z.ltb_ge r 128)), (proj2 (Z.ltb_lt r 2048)) by lia. cbn [stake].
  rewrite Z.shiftr_div_pow2, land_ones6 by lia. change (2 ^ 6) with 64.
  rewrite <- E0, <- E1, !chr_code. done.
Qed.

Lemma decode3 lo hi c c1 c2 s r n :
  224 <= code c <= 239 → 128 <= lo → hi <= 191 → (code c = 224 → 160 <= lo) → (code c = 237 → hi <= 159) →
  b3 lo hi (Z.land (code c) 15) (String c1 (String c2 s)) = Some (r, n) →
  decoded_as (String c (String c1 (String c2 s))) r n.
Proof.
  intros Hc Hlo Hhi H224 H237. cbn [b3]. destruct (cont _ _ c1) as [y|] eqn:E; [|done]. cbn.
  destruct (cont _ _ c2) as [z|] eqn:E'; [|done]. cbn. intros; simplify_eq.
  apply cont_Some in E as [H1 ->], E' as [H2 ->]. rune_arith. set (r := 64 * _ + _).
  assert (code c = 224 + r / 4096 ∧ code c1 = 128 + (r / 64) mod 64 ∧ code c2 = 128 + r mod 64 ∧
          2048 <= r < 65536 ∧ (r < 55296 ∨ 57344 <= r)) as (E0 & E1 & E2 & Hr & Hs).
  { unfold r. Z.to_euclidean_division_equations. lia. }
  split; [unfold scalar; lia|]. split; [|lia]. unfold encode_rune.
  rewrite (proj2 (Z.ltb_ge r 128)), (proj2 (Z.ltb_ge r 2048)), (proj2 (Z.ltb_lt r 65536)) by lia. cbn [stake].
  rewrite !Z.shiftr_div_pow2, !land_ones6 by lia. change (2 ^ 6) with 64. change (2 ^ 12) with 4096.
  rewrite <- E0, <- E1, <- E2, !chr_code. done.
Qed.

Lemma decode4 lo hi c c1 c2 c3 s r n :
  240 <= code c <= 244 → 128 <= lo → hi <= 191 → (code c = 240 → 144 <= lo) → (code c = 244 → hi <= 143) →
  b4 lo hi (Z.land (code c) 7) (String c1 (String c2 (String c3 s))) = Some (r, n) →
  decoded_as (String c (String c1 (String c2 (String c3 s)))) r n.
Proof.
  intros Hc Hlo Hhi H240 H244. cbn [b4]. destruct (cont _ _ c1) as [y|] eqn:E; [|done]. cbn.
  destruct (cont _ _ c2) as [z|] eqn:E'; [|done]. cbn. destruct (cont _ _ c3) as [w|] eqn:E''; [|done].
  cbn. intros; simplify_eq. apply cont_Some in E as [H1 ->], E' as [H2 ->], E'' as [H3 ->]. rune_arith.
  set (r := 64 * _ + _).
  assert (code c = 240 + r / 262144 ∧ code c1 = 128 + (r / 4096) mod 64 ∧ code c2 = 128 + (r / 64) mod 64 ∧
          code c3 = 128 + r mod 64 ∧ 65536 <= r < 1114112) as (E0 & E1 & E2 & E3 & Hr).
  { unfold r. Z.to_euclidean_division_equations. lia. }
  split; [unfold scalar; lia|]. split; [|lia]. unfold encode_rune.
  rewrite (proj2 (Z.ltb_ge r 128)), (proj2 (Z.ltb_ge r 2048)), (proj2 (Z.ltb_ge r 65536)) by lia. cbn [stake].
  rewrite !Z.shiftr_div_pow2, !land_ones6 by lia.
  change (2 ^ 6) with 64. change (2 ^ 12) with 4096. change (2 ^ 18) with 262144.
  rewrite <- E0, <- E1, <- E2, <- E3, !chr_code. done.
Qed.

Lemma decode_rune_encode s r n : decode_rune s = Some (r, n) → decoded_as s r n.
Proof.
  destruct s as [|c s]; [done|]. cbn [decode_rune]. pose proof (code_range c) as Hc.
  destruct (Z.ltb_spec (code c) 128).
  { intros; simplify_eq. split; [left; lia|]. split; [|lia]. unfold encode_rune.
    rewrite (proj2 (Z.ltb_lt _ 128)) by lia. cbn. by rewrite chr_code. }
  destruct (Z.ltb_spec (code c) 194); [done|].
  destruct (Z.leb_spec (code c) 223).
  { destruct s as [|c1 s]; [done|]. apply decode2. lia. }
  assert (∀ lo hi, b3 lo hi (Z.land (code c) 15) s = Some (r, n) →
            ∃ c1 c2 s', s = String c1 (String c2 s')) as Hb3.
  { intros lo hi. destruct s as [|c1 [|c2 s]]; [done..|eauto]. }
  assert (∀ lo hi, b4 lo hi (Z.land (code c) 7) s = Some (r, n) →
            ∃ c1 c2 c3 s', s = String c1 (String c2 (String c3 s'))) as Hb4.
  { intros lo hi. destruct s as [|c1 [|c2 [|c3 s]]]; [done..|eauto]. }
  repeat match goal with |- context [if ?b then _ else _] => destruct b eqn:? end; try done;
    intros H'; first [destruct (Hb3 _ _ H') as (c1 & c2 & s' & ->); eapply decode3; [..|done]
                     |destruct (Hb4 _ _ H') as (c1 & c2 & c3 & s' & ->); eapply decode4; [..|done]]; lia.
Qed.

(** ** Strings *)

Lemma runes_fuel f g s :
  (String.length s <= f)%nat → (String.length s <= g)%nat → runes_aux f s = runes_aux g s.
Proof.
  revert g s. induction f as [|f IH]; intros [|g] [|c s] Hf Hg; cbn in Hf, Hg; try lia; try done.
  cbn [runes_aux]. destruct (decode_rune (String c s)) as [[r n]|] eqn:E.
  - f_equal. pose proof (decode_rune_encode _ _ _ E) as (_ & _ & Hn).
    apply IH; rewrite sdrop_length; cbn; lia.
  - f_equal. apply IH; lia.
Qed.

Lemma runes_cons c s :
  runes (String c s) = match decode_rune (String c s) with
                       | Some (r, n) => (r, true) :: runes (sdrop n (String c s))
                       | None => (RuneError, false) :: runes s
                       end.
Proof.
  unfold runes at 1. cbn [String.length runes_aux]. destruct (decode_rune (String c s)) as [[r n]|] eqn:E; [|done].
  f_equal. pose proof (decode_rune_encode _ _ _ E) as (_ & _ & Hn). apply runes_fuel; rewrite sdrop_length; cbn; lia.
Qed.

(** A valid string is empty or a rune followed by a valid string. *)
Lemma valid_ind (P : string → Prop) :
  P "" →
  (∀ s r n, decode_rune s = Some (r, n) → scalar r → stake n s = encode_rune r → (0 < n)%nat →
     ValidString (sdrop n s) = true → P (sdrop n s) → P s) →
  ∀ s, ValidString s = true → P s.
Proof.
  intros H0 HS s. remember (String.length s) as k eqn:E. revert s E.
  induction k as [k IH] using lt_wf_ind. intros [|c s] E Hv; [done|].
  unfold ValidString in Hv. rewrite runes_cons in Hv.
  destruct (decode_rune (String c s)) as [[r n]|] eqn:Ed; [|done].
  pose proof (decode_rune_encode _ _ _ Ed) as (Hr & Hs & Hn). cbn [forallb snd andb] in Hv.
  apply (HS _ r n); try done. eapply IH; [|done|done]. rewrite sdrop_length. cbn in *. lia.
Qed.

(** ** UTF-16 *)

Lemma utf16_units_cancel r1 r2 t1 t2 :
  scalar r1 → scalar r2 → utf16_units r1 ++ t1 = utf16_units r2 ++ t2 → r1 = r2 ∧ t1 = t2.
Proof.
  unfold utf16_units, scalar. change 1023 with (Z.ones 10). rewrite !Z.land_ones, !Z.shiftr_div_pow2 by lia.
  change (2 ^ 10) with 1024. intros H1 H2.
  destruct (Z.ltb_spec r1 65536), (Z.ltb_spec r2 65536); cbn [app]; intros E; simplify_eq.
  - done.
  - Z.to_euclidean_division_equations. lia.
  - Z.to_euclidean_division_equations. lia.
  - split; [|done]. Z.to_euclidean_division_equations. lia.
Qed.

Lemma utf16_cons s r n :
  decode_rune s = Some (r, n) → utf16_Encode s = utf16_units r ++ utf16_Encode (sdrop n s).
Proof.
  intros E. destruct s as [|c s]; [done|]. unfold utf16_Encode. rewrite runes_cons, E. done.
Qed.

Lemma utf16_units_cons r : ∃ u t, utf16_units r = u :: t.
Proof. unfold utf16_units. case_match; eauto. Qed.

Lemma utf16_Encode_inj s t :
  ValidString s = true → ValidString t = true → utf16_Encode s = utf16_Encode t → s = t.
Proof.
  intros Hs. revert s Hs t. refine (valid_ind _ _ _).
  - intros t Ht. pattern t. revert t Ht. refine (valid_ind _ _ _); [done|].
    intros t r n Et _ _ _ _ _ E. rewrite (utf16_cons t r n Et) in E.
    destruct (utf16_units_cons r) as (u & us & Hu). by rewrite Hu in E.
  - intros s r n Es Hr Ers _ _ IH t Ht. pattern t. revert t Ht. refine (valid_ind _ _ _).
    + intros E. rewrite (utf16_cons s r n Es) in E.
      destruct (utf16_units_cons r) as (u & us & Hu). by rewrite Hu in E.
    + intros t r' m Et Hr' Ert _ Hvt _ E. rewrite (utf16_cons s r n Es), (utf16_cons t r' m Et) in E.
      apply utf16_units_cancel in E as [-> E]; [|done..]. apply IH in E; [|done].
      by rewrite <- (stake_sdrop n s), <- (stake_sdrop m t), Ers, Ert, E.
Qed.
