(* ===== verification/NumberText.v ===== *)
(** * Decimal text

    The digits of an integer, and that the canonical form of every binary64
    number is a literal of the JSON grammar. *)

From Stdlib Require Import Floats.SpecFloat DecimalString DecimalZ DecimalPos DecimalFacts.
From S2P Require Import Prelude GoStrings Regex GoFloat FloatInt Json JsonText.

(** ** [strconv.Itoa] *)

Definition all_digits (s : string) : Prop := str_forallb is_digit s = true.
(** A decimal without a leading zero. *)
Definition leads_nonzero (s : string) : Prop :=
  ∃ c t, s = String c t ∧ in_range 49 57 c = true ∧ all_digits t.

Lemma uint_digits d : all_digits (NilEmpty.string_of_uint d).
Proof. induction d; done. Qed.

Lemma to_uint_head p d : Pos.to_uint p ≠ Decimal.D0 d.
Proof.
  intros E. pose proof (DecimalPos.Unsigned.to_of (Pos.to_uint p)) as H.
  rewrite DecimalPos.Unsigned.of_to in H. cbn in H. rewrite E in H.
  unfold Decimal.unorm in H. destruct (Decimal.nzhead (Decimal.D0 d)) eqn:En; try done.
  - apply (DecimalPos.Unsigned.to_uint_nonzero p). rewrite E, H. done.
  - by apply nzhead_nonzero in En.
Qed.

Lemma Itoa_pos z : 0 < z → leads_nonzero (Itoa z).
Proof.
  intros Hz. unfold Itoa. destruct z as [|p|p]; try lia. cbn [Z.to_int NilZero.string_of_int].
  pose proof (to_uint_head p) as Hh. pose proof (DecimalPos.Unsigned.to_uint_nonnil p) as Hn.
  unfold NilZero.string_of_uint. destruct (Pos.to_uint p) as [|d|d|d|d|d|d|d|d|d|d]; try done;
    try (by destruct (Hh d)); do 2 eexists; (split; [reflexivity|]); (split; [done|apply uint_digits]).
Qed.

Lemma Itoa_neg z : z < 0 → Itoa z = String "-" (Itoa (- z)).
Proof. intros Hz. by destruct z. Qed.

Lemma leads_digits s : leads_nonzero s → all_digits s ∧ s ≠ "".
Proof.
  intros (c & t & -> & Hc & Ht). split; [|done]. unfold all_digits in *. cbn. rewrite Ht.
  unfold is_digit, in_range in *. lia.
Qed.

Lemma Itoa_digits z : 0 <= z → all_digits (Itoa z) ∧ Itoa z ≠ "".
Proof.
  intros Hz. destruct (decide (z = 0)) as [->|]; [done|]. apply leads_digits, Itoa_pos. lia.
Qed.

(** The digits denote the integer. *)
Lemma digits_val_acc d acc :
  digits_val (Z.pos acc) (NilEmpty.string_of_uint d) = Z.pos (Pos.of_uint_acc d acc).
Proof.
  revert acc. induction d as [|d IH|d IH|d IH|d IH|d IH|d IH|d IH|d IH|d IH|d IH]; intros acc; [done|..];
    cbn [NilEmpty.string_of_uint digits_val Pos.of_uint_acc]; rewrite <- IH; f_equal;
    match goal with |- context [code ?c] => let z := eval vm_compute in (code c) in change (code c) with z end; lia.
Qed.

Lemma digits_val_uint d : digits_val 0 (NilEmpty.string_of_uint d) = Z.of_N (Pos.of_uint d).
Proof.
  induction d as [|d IH|d IH|d IH|d IH|d IH|d IH|d IH|d IH|d IH|d IH]; [done|exact IH|..]; exact (digits_val_acc d _).
Qed.

Lemma digits_val_Itoa z : 0 <= z → digits_val 0 (Itoa z) = z.
Proof.
  intros Hz. destruct z as [|p|p]; [done| |lia]. unfold Itoa. cbn [Z.to_int NilZero.string_of_int].
  pose proof (DecimalPos.Unsigned.to_uint_nonnil p) as Hn.
  assert (NilZero.string_of_uint (Pos.to_uint p) = NilEmpty.string_of_uint (Pos.to_uint p)) as ->
    by (destruct (Pos.to_uint p); done).
  by rewrite digits_val_uint, DecimalPos.Unsigned.of_to.
Qed.

(** ** Literals *)

Lemma lang_digits s : all_digits s → lang (Star digit) s.
Proof.
  unfold all_digits. induction s as [|c s IH]; cbn; intros H; [constructor|]. go_bool.
  change (String c s) with (String c "" +:+ s). constructor; [by constructor|auto].
Qed.

Lemma lang_digits1 s : all_digits s → s ≠ "" → lang (Plus digit) s.
Proof.
  unfold all_digits. destruct s as [|c s]; [done|]. cbn. intros H _. go_bool.
  change (String c s) with (String c "" +:+ s). constructor; [by constructor|by apply lang_digits].
Qed.

Lemma lang_Opt_none r : lang (Opt r) "".
Proof. apply lang_alt_r. constructor. Qed.

(** The parts of a literal. *)
Definition int_part (s : string) : Prop := s = "0" ∨ leads_nonzero s.
Definition frac_part (s : string) : Prop := s = "" ∨ ∃ t, s = String "." t ∧ all_digits t ∧ t ≠ "".
Definition exp_part (s : string) : Prop :=
  s = "" ∨ ∃ sign t, s = String "e" (sign +:+ t) ∧ sign ∈ [""; "+"; "-"] ∧ all_digits t ∧ t ≠ "".

Lemma literal_lang sign i f e :
  sign ∈ [""; "-"] → int_part i → frac_part f → exp_part e →
  matches numericLiteralRE (sign +:+ i +:+ f +:+ e) = true.
Proof.
  intros Hs Hi Hf He. apply matches_lang. unfold numericLiteralRE. apply lang_cat; [|apply lang_cat; [|apply lang_cat]].
  - apply list_elem_of_In in Hs. destruct Hs as [<-|[<-|[]]]; [apply lang_Opt_none|].
    apply lang_alt_l. by constructor.
  - destruct Hi as [->|(c & t & -> & Hc & Ht)]; [apply lang_alt_l; by constructor|].
    apply lang_alt_r. change (String c t) with (String c "" +:+ t).
    constructor; [by constructor|by apply lang_digits].
  - destruct Hf as [->|(t & -> & Ht & Hne)]; [apply lang_Opt_none|]. apply lang_alt_l.
    change (String "." t) with ("." +:+ t). constructor; [by constructor|by apply lang_digits1].
  - destruct He as [->|(sg & t & -> & Hsg & Ht & Hne)]; [apply lang_Opt_none|]. apply lang_alt_l.
    change (String "e" (sg +:+ t)) with ("e" +:+ (sg +:+ t)).
    constructor; [by constructor|]. constructor; [|by apply lang_digits1].
    apply list_elem_of_In in Hsg. destruct Hsg as [<-|[<-|[<-|[]]]];
      [apply lang_Opt_none|apply lang_alt_l; by constructor..].
Qed.

(** ** The shortest digits are positive *)

(** [m * 2^e * 10^k >= 1]. *)
Definition at_least_one (m e k : Z) : Prop :=
  (if 0 <=? e then 1 else 2 ^ (- e)) * (if 0 <=? k then 1 else 10 ^ (- k)) <=
  m * (if 0 <=? e then 2 ^ e else 1) * (if 0 <=? k then 10 ^ k else 1).

Lemma pow_pos b n : 0 < b → 0 <= n → 0 < b ^ n.
Proof. apply Z.pow_pos_nonneg. Qed.

Lemma scaled_pos m e k : (scaled m e k).1.1 ≠ 0 ∧ 0 < m ↔ at_least_one m e k ∧ 0 < m.
Proof.
  unfold scaled, at_least_one. cbn [fst]. set (n := m * _ * _). set (d := (_ * _)).
  assert (0 < d) as Hd.
  { unfold d. repeat case_match; try lia; rewrite ?Z.mul_1_l, ?Z.mul_1_r;
      repeat apply Z.mul_pos_pos; apply pow_pos; lia. }
  split; intros [H Hm]; (split; [|done]).
  - destruct (Z.le_gt_cases d n) as [|Hlt]; [done|]. destruct H. apply Z.div_small. split; [|done].
    unfold n. repeat apply Z.mul_nonneg_nonneg; [lia|..]; case_match; try lia; apply Z.pow_nonneg; lia.
  - pose proof (Z.div_le_mono d n d Hd H) as H'. rewrite Z.div_same in H' by lia. lia.
Qed.

Lemma at_least_one_mono m e k k' : 0 < m → k <= k' → at_least_one m e k → at_least_one m e k'.
Proof.
  intros Hm Hk. unfold at_least_one. set (n := m * _). set (d := if 0 <=? e then 1 else _).
  assert (0 < d) by (unfold d; case_match; [lia|apply pow_pos; lia]).
  assert (0 < n) by (unfold n; apply Z.mul_pos_pos; [lia|]; case_match; [apply pow_pos; lia|lia]).
  destruct (Z.leb_spec 0 k), (Z.leb_spec 0 k'); try lia; intros Hone.
  - pose proof (Z.pow_le_mono_r 10 k k'). pose proof (pow_pos 10 k). nia.
  - pose proof (pow_pos 10 (- k)). pose proof (pow_pos 10 k'). nia.
  - pose proof (Z.pow_le_mono_r 10 (- k') (- k)). nia.
Qed.

(** The exponents of binary64. *)
Definition exp_in_range (m e : Z) : Prop := 0 < m ∧ -1074 <= Z.log2 m + e <= 1024.

(** The decimal estimate of the search is never too large: checked for each power
    of two. *)
Definition estimate (K : Z) : Z := K * 30103 / 100000 - 1.
Definition estimate_fits (K : Z) : bool :=
  let k := 1 - estimate K in
  (if 0 <=? K then 1 else 2 ^ (- K)) * (if 0 <=? k then 1 else 10 ^ (- k)) <=?
  1 * (if 0 <=? K then 2 ^ K else 1) * (if 0 <=? k then 10 ^ k else 1).

Lemma estimate_pow2 K : -1074 <= K <= 1024 → at_least_one 1 K (1 - estimate K).
Proof.
  intros HK. assert (forallb (λ n, estimate_fits (Z.of_nat n - 1074)) (seq 0 2099) = true) as H by (vm_compute; reflexivity).
  rewrite forallb_forall in H. specialize (H (Z.to_nat (K + 1074))). apply Z.leb_le.
  replace (Z.of_nat (Z.to_nat (K + 1074)) - 1074) with K in H by lia. apply H, in_seq. lia.
Qed.

Lemma estimate_ok m e : exp_in_range m e → at_least_one m e (1 - estimate (Z.log2 m + e)).
Proof.
  intros [Hm HK]. pose proof (estimate_pow2 _ HK) as H. pose proof (proj1 (Z.log2_spec m Hm)) as HL.
  pose proof (Z.log2_nonneg m) as HL0. set (L := Z.log2 m) in *. unfold at_least_one in *.
  set (k := 1 - estimate (L + e)) in *. set (B := if 0 <=? k then 10 ^ k else 1) in *.
  set (B' := if 0 <=? k then 1 else 10 ^ (- k)) in *.
  assert (0 < B ∧ 0 < B') as [HB HB'] by (unfold B, B'; destruct (Z.leb_spec 0 k); split; try lia; apply pow_pos; lia).
  apply Z.le_trans with (2 ^ L * (if 0 <=? e then 2 ^ e else 1) * B).
  - destruct (Z.leb_spec 0 (L + e)), (Z.leb_spec 0 e); try lia.
    + rewrite Z.pow_add_r in H by lia. lia.
    + replace L with ((L + e) + - e) by lia. rewrite (Z.pow_add_r 2 (L + e)) by lia.
      pose proof (pow_pos 2 (- e)). nia.
    + replace (- e) with (L + - (L + e)) by lia. rewrite Z.pow_add_r by lia. pose proof (pow_pos 2 L). nia.
  - apply Z.mul_le_mono_nonneg_r; [lia|]. apply Z.mul_le_mono_nonneg_r; [|done].
    destruct (Z.leb_spec 0 e); [apply Z.pow_nonneg; lia|lia].
Qed.

(** The search stops at a power of ten above the value; the one below is not. *)
Lemma find_exp10_ok fuel : ∀ m e x,
  0 < m → at_least_one m e (1 - x) → at_least_one m e (1 - find_exp10 fuel m e x).
Proof.
  induction fuel as [|fuel IH]; intros m e x Hm H; [done|]. cbn [find_exp10].
  destruct (scaled m e (- x)) as [[q r] d] eqn:E. destruct (Z.eqb_spec q 0); [done|]. apply IH; [done|].
  replace (1 - (x + 1)) with (- x) by lia. apply (scaled_pos m e (- x)). rewrite E. done.
Qed.

Lemma exp10_of_ok m e : exp_in_range m e → at_least_one m e (1 - exp10_of m e).
Proof. intros H. apply find_exp10_ok; [apply H|]. by apply estimate_ok. Qed.

Lemma shortest_at_pos f m e x n d : shortest_at f m e x n = Some d → 0 < d.
Proof.
  unfold shortest_at. set (k := Z.of_nat n - x). destruct (scaled m e k) as [[lo r] den].
  assert (∀ d m' e', dec_to_float f false d (- k) = S754_finite false m' e' → 0 < d) as Hb
    by (intros [|p|p] m' e' H; [done|lia|done]).
  destruct (dec_to_float f false lo (- k)) as [| | |[] m1 e1] eqn:El;
    destruct (dec_to_float f false (lo + 1) (- k)) as [| | |[] m2 e2] eqn:Eh; cbn [andb]; try done;
    repeat case_match; intros ?; simplify_eq; eauto.
  all: apply Hb in El; lia.
Qed.

Lemma shortest_from_pos fuel : ∀ f m e x n,
  0 < m → at_least_one m e (17 - x) → 0 < (shortest_from fuel f m e x n).1.
Proof.
  induction fuel as [|fuel IH]; intros f m e x n Hm H; cbn [shortest_from].
  - pose proof (proj2 (scaled_pos m e (17 - x)) (conj H Hm)) as [Hq _].
    assert (0 <= (scaled m e (17 - x)).1.1) as H0.
    { unfold scaled. cbn [fst]. apply Z.div_pos.
      - repeat apply Z.mul_nonneg_nonneg; [lia|..]; case_match; try lia; apply Z.pow_nonneg; lia.
      - repeat case_match; rewrite ?Z.mul_1_l, ?Z.mul_1_r; try lia; repeat apply Z.mul_pos_pos; apply pow_pos; lia. }
    destruct (scaled m e (17 - x)) as [[q r] d]. cbn [fst] in *. lia.
  - destruct (shortest_at f m e x n) as [d|] eqn:E; [by apply shortest_at_pos in E|]. by apply IH.
Qed.

Lemma strip_zeros_pos fuel : ∀ d p, 0 < d → 0 < (strip_zeros fuel d p).1.
Proof.
  induction fuel as [|fuel IH]; intros d p Hd; [done|]. cbn [strip_zeros].
  destruct (Z.eqb_spec (d mod 10) 0); [|done]. apply IH. Z.to_euclidean_division_equations. lia.
Qed.

Lemma shortest_pos f m e : exp_in_range (Z.pos m) e → 0 < (shortest f m e).1.
Proof.
  intros H. unfold shortest.
  pose proof (shortest_from_pos 17 f (Z.pos m) e (exp10_of (Z.pos m) e) 1 ltac:(lia)) as Hp.
  destruct (shortest_from 17 f (Z.pos m) e _ 1) as [d p]. apply strip_zeros_pos, Hp.
  apply (at_least_one_mono _ _ (1 - exp10_of (Z.pos m) e)); [lia|lia|]. by apply exp10_of_ok.
Qed.

(** ** The canonical form of a number is a literal *)

(** A value of the binary64 format (or an infinity, or NaN). *)
Definition in_binary64 (f : float64) : bool :=
  match f with
  | S754_finite _ m e => (Z.pos m <? 2 ^ 53) && (-1074 <=? e) && (e <=? 971)
  | _ => true
  end.

Lemma in_binary64_range s m e : in_binary64 (S754_finite s m e) = true → exp_in_range (Z.pos m) e.
Proof.
  cbn [in_binary64]. rewrite !andb_true_iff, Z.ltb_lt, !Z.leb_le. intros [[Hm He] He'].
  split; [lia|]. pose proof (Z.log2_nonneg (Z.pos m)).
  assert (Z.log2 (Z.pos m) < 53) by (by apply Z.log2_lt_pow2). lia.
Qed.

Lemma all_digits_app s t : all_digits (s +:+ t) ↔ all_digits s ∧ all_digits t.
Proof. unfold all_digits. rewrite str_forallb_app. apply andb_true_iff. Qed.

Lemma zeros_digits n : all_digits (repeat_char "0" n).
Proof. by induction n. Qed.

Lemma leads_app s t : leads_nonzero s → all_digits t → leads_nonzero (s +:+ t).
Proof.
  intros (c & u & -> & Hc & Hu) Ht. exists c, (u +:+ t). split; [done|]. split; [done|]. by apply all_digits_app.
Qed.

Lemma leads_split s n :
  leads_nonzero s → (0 < n < String.length s)%nat →
  leads_nonzero (stake n s) ∧ all_digits (sdrop n s) ∧ sdrop n s ≠ "".
Proof.
  intros (c & u & -> & Hc & Hu) [H0 Hn]. destruct n as [|n]; [lia|]. cbn [stake sdrop].
  rewrite <- (stake_sdrop n u), all_digits_app in Hu. destruct Hu as [H1 H2].
  split; [by exists c, (stake n u)|]. split; [done|]. intros E. apply (f_equal String.length) in E.
  rewrite sdrop_length in E. cbn in *. lia.
Qed.

Lemma exp_text z : exp_part ("e" +:+ (if 0 <=? z then "+" else "") +:+ Itoa z).
Proof.
  right. destruct (Z.leb_spec 0 z).
  - exists "+", (Itoa z). split; [done|]. split; [set_solver|]. by apply Itoa_digits.
  - rewrite Itoa_neg by done. exists "-", (Itoa (- z)). split; [done|]. split; [set_solver|]. apply Itoa_digits. lia.
Qed.

(** ** Reading a decimal rounds it correctly *)

Lemma digits_val_app s t acc : digits_val acc (s +:+ t) = digits_val (digits_val acc s) t.
Proof. revert acc. induction s as [|c s IH]; intros acc; [done|]. rewrite append_cons. cbn. apply IH. Qed.

Lemma digits_val_bounds s acc :
  all_digits s → let n := Z.of_nat (String.length s) in acc * 10 ^ n <= digits_val acc s < (acc + 1) * 10 ^ n.
Proof.
  unfold all_digits. revert acc. induction s as [|c s IH]; intros acc H; [cbn; lia|]. cbn [str_forallb] in H. go_bool.
  cbn [digits_val String.length]. specialize (IH (10 * acc + (code c - 48)) ltac:(done)). cbv zeta in *.
  rewrite Nat2Z.inj_succ, Z.pow_succ_r by lia. unfold is_digit, in_range in H. go_bool.
  pose proof (pow_pos 10 (Z.of_nat (String.length s))). nia.
Qed.

Lemma num_digits10_bounds d : 0 < d → 10 ^ (num_digits10 d - 1) <= d < 10 ^ num_digits10 d ∧ 1 <= num_digits10 d.
Proof.
  intros Hd. unfold num_digits10. destruct (Itoa_digits d) as [Ha _]; [lia|].
  pose proof (digits_val_bounds (Itoa d) 0 Ha) as [_ Hhi]. pose proof (digits_val_Itoa d ltac:(lia)) as Ev.
  destruct (Itoa_pos d Hd) as (c & t & E & Hc & Ht). rewrite E in *. cbn [digits_val String.length] in *.
  rewrite Nat2Z.inj_succ in *. pose proof (digits_val_bounds t (10 * 0 + (code c - 48)) Ht) as [Hlo _].
  cbv zeta in *. replace (Z.succ (Z.of_nat (String.length t)) - 1) with (Z.of_nat (String.length t)) by lia.
  split; [|lia]. rewrite Ev in *. split; [|lia]. unfold in_range in Hc. go_bool.
  pose proof (pow_pos 10 (Z.of_nat (String.length t))). nia.
Qed.

(** [d * 10^p] as a fraction in the units of the rounding. *)
Definition dec_num (d p : Z) : Z := d * 10 ^ Z.max 0 p * 2 ^ 1076.
Definition dec_den (p : Z) : Z := 10 ^ Z.max 0 (- p).

Lemma dec_den_pos p : 0 < dec_den p.
Proof. apply pow_pos; lia. Qed.

(** The window in which a decimal is rounded holds every value of the format. *)
Lemma inside_window d p m e :
  0 < d → canonical m e → e <= 971 → inside (dec_num d p) (dec_den p) m e → -400 <= num_digits10 d + p <= 400.
Proof.
  intros Hd Hc He Hi. destruct (num_digits10_bounds d Hd) as [[Hlo Hhi] HL]. set (L := num_digits10 d) in *.
  pose proof (inside_not_tiny _ _ _ _ (dec_den_pos p) Hc Hi) as Ht. destruct Hi as (Hu & _ & _), Hc as (Hm & He' & _).
  unfold spacing, dec_num, dec_den in *. set (P := Z.max 0 p) in *. set (P' := Z.max 0 (- p)) in *.
  pose proof (pow_pos 10 P ltac:(lia) ltac:(lia)). pose proof (pow_pos 10 P' ltac:(lia) ltac:(lia)). split.
  - destruct (Z.le_gt_cases (-400) (L + p)) as [|Hlt]; [done|exfalso].
    assert (10 ^ 401 * (10 ^ L * 10 ^ P) <= 10 ^ P') as H1 by (rewrite <- !Z.pow_add_r by lia; apply Z.pow_le_mono_r; lia).
    assert (d * 10 ^ P * 10 ^ 401 <= 10 ^ P') as H2 by nia. change (-1074 + 1076) with 2 in Ht.
    assert (2 ^ 1076 < 10 ^ 401) as H3 by (by vm_compute). clear -H2 H3 Ht H H0 Hd.
    set (X := d * 10 ^ P) in *. assert (0 < X) by (unfold X; nia). clearbody X.
    change (2 ^ 2) with 4 in Ht. revert H2 H3 Ht H0. generalize (10 ^ 401) (2 ^ 1076) (10 ^ P').
    intros G B Q H2 H3 Ht HQ. assert (X * B < X * G) by (by apply Z.mul_lt_mono_pos_l). lia.
  - destruct (Z.le_gt_cases (L + p) 400) as [|Hlt]; [done|exfalso].
    assert (10 ^ 400 * 10 ^ P' <= 10 ^ (L - 1) * 10 ^ P) as H1 by (rewrite <- !Z.pow_add_r by lia; apply Z.pow_le_mono_r; lia).
    assert (2 ^ (e + 1076) <= 2 ^ (971 + 1076)) as H2 by (apply Z.pow_le_mono_r; lia).
    assert (10 ^ 400 * 10 ^ P' <= d * 10 ^ P) as H3 by nia. set (X := d * 10 ^ P) in *. clearbody X.
    assert (2 ^ 53 * 2 ^ (971 + 1076) < 10 ^ 400 * 2 ^ 1076) as H4 by (by vm_compute). clear -H0 Hu Hm He' H2 H3 H4.
    revert Hu H2 H3 H4. change (2 ^ 53) with 9007199254740992 in *.
    assert (0 < 2 ^ 1076) as HA by (by vm_compute). revert HA.
    pose proof (pow_pos 2 (e + 1076) ltac:(lia) ltac:(lia)) as HE. revert HE H0.
    generalize (10 ^ 400) (2 ^ 1076) (2 ^ (971 + 1076)) (10 ^ P') (2 ^ (e + 1076)). clear -Hm.
    intros G A B Q E HE HQ HA Hu H2 H3 H4. assert (G * Q * A <= X * A) by nia. assert (Q * E <= Q * B) by nia.
    assert ((2 * m + 1) * (Q * E) <= 18014398509481984 * (Q * E)) by nia.
    assert (9007199254740992 * B * Q < G * A * Q) by (by apply Z.mul_lt_mono_pos_r). lia.
Qed.

Lemma dec_to_float_iff s d p m e :
  0 < d →
  dec_to_float binary64 s d p = S754_finite s m e ↔
  bounded 53 1024 m e = true ∧ inside (dec_num d p) (dec_den p) (Z.pos m) e.
Proof.
  intros Hd. destruct d as [|d|d]; [lia| |lia]. unfold dec_to_float.
  destruct (Z.ltb_spec 400 (num_digits10 (Z.pos d) + p)).
  { split; [done|]. rewrite bounded_canonical. intros [[Hc He] Hi]. pose proof (inside_window _ _ _ _ Hd Hc He Hi). lia. }
  destruct (Z.ltb_spec (num_digits10 (Z.pos d) + p) (-400)).
  { split; [done|]. rewrite bounded_canonical. intros [[Hc He] Hi]. pose proof (inside_window _ _ _ _ Hd Hc He Hi). lia. }
  unfold dec_num, dec_den. destruct (Z.leb_spec 0 p).
  - rewrite (Z.max_r 0 p), (Z.max_l 0 (- p)) by lia. pose proof (pow_pos 10 p ltac:(lia) ltac:(lia)).
    destruct (Z.pos d * 10 ^ p) as [|q|q] eqn:E; [lia| |lia]. apply binary_round_iff.
  - rewrite (Z.max_l 0 p), (Z.max_r 0 (- p)) by lia. change (10 ^ 0) with 1. rewrite Z.mul_1_r.
    apply div_round_iff; [done|]. apply pow_pos; lia.
Qed.

(** ** Seventeen digits identify a value *)

(** The decimal [d * 10^p] is read as [m * 2^e]. *)
Definition reads_as (m e d p : Z) : Prop := 0 < d ∧ inside (dec_num d p) (dec_den p) m e.

Lemma reads_as_value m e d p d' p' :
  0 < d' → d * 10 ^ Z.max 0 p * 10 ^ Z.max 0 (- p') = d' * 10 ^ Z.max 0 p' * 10 ^ Z.max 0 (- p) →
  reads_as m e d p → reads_as m e d' p'.
Proof.
  intros Hd E [_ H]. split; [done|]. revert H. apply inside_cross; [apply dec_den_pos..|].
  unfold dec_num, dec_den. lia.
Qed.

(** The two parts of a power: numerator and denominator. *)
Lemma pow_parts b k :
  (if 0 <=? k then b ^ k else 1) = b ^ Z.max 0 k ∧ (if 0 <=? k then 1 else b ^ (- k)) = b ^ Z.max 0 (- k).
Proof.
  destruct (Z.leb_spec 0 k); [rewrite Z.max_r, Z.max_l by lia|rewrite Z.max_l, Z.max_r by lia]; done.
Qed.

Definition unit_num (e k : Z) : Z := 2 ^ Z.max 0 e * 10 ^ Z.max 0 k.
Definition unit_den (e k : Z) : Z := 2 ^ Z.max 0 (- e) * 10 ^ Z.max 0 (- k).

Lemma unit_pos e k : 0 < unit_num e k ∧ 0 < unit_den e k.
Proof. split; apply Z.mul_pos_pos; apply pow_pos; lia. Qed.

Lemma scaled_eq m e k :
  scaled m e k = (m * unit_num e k / unit_den e k, (m * unit_num e k) mod unit_den e k, unit_den e k).
Proof.
  unfold scaled, unit_num, unit_den. destruct (pow_parts 2 e) as [-> ->], (pow_parts 10 k) as [-> ->].
  by rewrite Z.mul_assoc.
Qed.

Lemma at_least_one_eq m e k : at_least_one m e k ↔ unit_den e k <= m * unit_num e k.
Proof.
  unfold at_least_one, unit_num, unit_den. destruct (pow_parts 2 e) as [-> ->], (pow_parts 10 k) as [-> ->].
  by rewrite Z.mul_assoc.
Qed.

(** A decimal close enough to the value is read as it. *)
Lemma near_inside m e k d :
  canonical m e → let num := m * unit_num e k in let den := unit_den e k in
  2 * (d * den) < 2 * num + unit_num e k → 2 * num < 2 * (d * den) + unit_num e k →
  (m = 2 ^ 52 → 4 * num < 4 * (d * den) + unit_num e k) →
  inside (dec_num d (- k)) (dec_den (- k)) m e.
Proof.
  intros (_ & He & _) num den Hup Hlo Hq. unfold num, den, unit_num, unit_den in *. clear num den.
  unfold inside, spacing, dec_num, dec_den. rewrite Z.opp_involutive.
  assert (2 ^ Z.max 0 (- e) * 2 ^ (e + 1076) = 2 ^ Z.max 0 e * 2 ^ 1076) as E.
  { rewrite <- !Z.pow_add_r by lia. f_equal. lia. }
  pose proof (pow_pos 2 1076 ltac:(lia) ltac:(lia)) as HW. pose proof (pow_pos 2 (Z.max 0 (- e)) ltac:(lia) ltac:(lia)) as HA'.
  revert Hup Hlo Hq E HW HA'. generalize (2 ^ 1076) (2 ^ (e + 1076)) (2 ^ Z.max 0 e) (2 ^ Z.max 0 (- e))
    (10 ^ Z.max 0 k) (10 ^ Z.max 0 (- k)). intros W V A A' B B' Hup Hlo Hq E HW HA'.
  assert (∀ y, A' * (y * V) = y * A * W) as EV by (intros y; transitivity (y * (A' * V)); [ring|rewrite E; ring]).
  assert (∀ x y, x * A' * W < y * A * W → x * W < y * V) as Hlt
    by (intros x y ?; apply (Z.mul_lt_mono_pos_l A'); [done|]; rewrite EV; lia).
  assert (∀ x y, y * A * W < x * A' * W → y * V < x * W) as Hgt
    by (intros x y ?; apply (Z.mul_lt_mono_pos_l A'); [done|]; rewrite EV; lia).
  assert (2 * (d * B') * W < (2 * m + 1) * B * V) as H1 by (apply Hlt, Z.mul_lt_mono_pos_r; [done|]; lia).
  assert ((2 * m - 1) * B * V < 2 * (d * B') * W) as H2 by (apply Hgt, Z.mul_lt_mono_pos_r; [done|]; lia).
  split; [lia|]. split; [lia|]. destruct (Z.eqb_spec m (2 ^ 52)) as [Em|]; [|split; lia].
  destruct (-1074 <? e); cbn [andb]; [|split; lia]. specialize (Hq Em).
  assert ((4 * m - 1) * B * V < 4 * (d * B') * W) as H3 by (apply Hgt, Z.mul_lt_mono_pos_r; [done|]; lia). lia.
Qed.

(** A decimal with at least seventeen digits is nearer to the value than half the
    spacing. *)
Lemma near_digit m e k :
  canonical m e → 10 ^ 16 * unit_den e k <= m * unit_num e k →
  ∃ d, (d = m * unit_num e k / unit_den e k ∨ d = m * unit_num e k / unit_den e k + 1) ∧ reads_as m e d (- k).
Proof.
  intros Hc Hbig. destruct (unit_pos e k) as [HU HD]. set (U := unit_num e k) in *. set (D := unit_den e k) in *.
  pose proof (Z.div_mod (m * U) D ltac:(lia)) as Hdm. pose proof (Z.mod_pos_bound (m * U) D HD) as Hr.
  set (lo := m * U / D) in *. set (r := (m * U) mod D) in *. clearbody lo r.
  assert (D < U) as Hgap by (destruct Hc as (Hm & _); change (2 ^ 53) with 9007199254740992 in *;
    change (10 ^ 16) with 10000000000000000 in *; nia).
  assert (m = 2 ^ 52 → 2 * D < U) as Hgap2.
  { intros ->. change (2 ^ 52) with 4503599627370496 in *. change (10 ^ 16) with 10000000000000000 in *. lia. }
  assert (0 < lo) as Hlo by (change (10 ^ 16) with 10000000000000000 in *; nia).
  destruct (Z.le_gt_cases (2 * r) D).
  - exists lo. split; [by left|]. split; [done|]. apply near_inside; [done|fold U D..]; [lia|lia|].
    intros Em. specialize (Hgap2 Em). lia.
  - exists (lo + 1). split; [by right|]. split; [lia|]. apply near_inside; [done|fold U D..]; [lia|lia|].
    intros Em. specialize (Hgap2 Em). lia.
Qed.

Lemma back_spec m e d p :
  bounded 53 1024 m e = true →
  match dec_to_float binary64 false d p with
  | S754_finite false m' e' => (Z.pos m' =? Z.pos m) && (e' =? e)
  | _ => false
  end = true ↔ reads_as (Z.pos m) e d p.
Proof.
  intros Hb. unfold reads_as. destruct (Z.le_gt_cases d 0) as [Hd|Hd].
  { destruct d; [|lia|]; cbn; (split; [done|]); lia. }
  pose proof (dec_to_float_iff false d p m e Hd) as H. rewrite Hb in H.
  assert (match dec_to_float binary64 false d p with
          | S754_finite false m' e' => (Z.pos m' =? Z.pos m) && (e' =? e) | _ => false end = true ↔
          dec_to_float binary64 false d p = S754_finite false m e) as E; [|rewrite E, H; tauto].
  destruct (dec_to_float binary64 false d p) as [| | |[] m' e']; try (split; done).
  rewrite andb_true_iff, !Z.eqb_eq. split; [intros [? ->]; by simplify_eq|]. intros; by simplify_eq.
Qed.

Lemma shortest_at_reads m e x n d :
  bounded 53 1024 m e = true → shortest_at binary64 (Z.pos m) e x n = Some d →
  reads_as (Z.pos m) e d (x - Z.of_nat n).
Proof.
  intros Hb. unfold shortest_at. replace (x - Z.of_nat n) with (- (Z.of_nat n - x)) by lia.
  set (k := Z.of_nat n - x). destruct (scaled (Z.pos m) e k) as [[lo r] den]. cbv zeta.
  pose proof (back_spec m e lo (- k) Hb) as H1. pose proof (back_spec m e (lo + 1) (- k) Hb) as H2.
  destruct (match dec_to_float binary64 false lo (- k) with S754_finite _ _ _ => _ | _ => _ end);
    destruct (match dec_to_float binary64 false (lo + 1) (- k) with S754_finite _ _ _ => _ | _ => _ end); cbn [andb];
    repeat case_match; intros; simplify_eq; naive_solver.
Qed.

Lemma shortest_at_17 m e x :
  bounded 53 1024 m e = true → at_least_one (Z.pos m) e (1 - x) → is_Some (shortest_at binary64 (Z.pos m) e x 17).
Proof.
  intros Hb H1. unfold shortest_at. change (Z.of_nat 17) with 17. set (k := 17 - x). rewrite scaled_eq.
  set (lo := Z.pos m * unit_num e k / unit_den e k). cbv zeta.
  assert (10 ^ 16 * unit_den e k <= Z.pos m * unit_num e k) as Hbig.
  { apply at_least_one_eq in H1. unfold unit_num, unit_den, k in *.
    assert (10 ^ 16 * 10 ^ Z.max 0 (- (17 - x)) * 10 ^ Z.max 0 (1 - x) = 10 ^ Z.max 0 (17 - x) * 10 ^ Z.max 0 (- (1 - x))) as E.
    { rewrite <- !Z.pow_add_r by lia. f_equal. lia. }
    pose proof (pow_pos 10 (Z.max 0 (1 - x)) ltac:(lia) ltac:(lia)) as HP.
    pose proof (pow_pos 10 (Z.max 0 (17 - x)) ltac:(lia) ltac:(lia)) as HQ.
    revert H1 E HP HQ. generalize (10 ^ 16) (10 ^ Z.max 0 (1 - x)) (10 ^ Z.max 0 (17 - x)) (10 ^ Z.max 0 (- (1 - x)))
      (10 ^ Z.max 0 (- (17 - x))) (2 ^ Z.max 0 e) (2 ^ Z.max 0 (- e)). intros G P Q P' Q' A A' H1 E HP HQ.
    apply (Z.mul_le_mono_pos_r _ _ P HP). replace (G * (A' * Q') * P) with (A' * P' * Q) by (transitivity (A' * (G * Q' * P)); [rewrite E|]; ring).
    replace (Z.pos m * (A * Q) * P) with (Z.pos m * (A * P) * Q) by ring. by apply Z.mul_le_mono_pos_r. }
  pose proof Hb as Hc. apply bounded_canonical in Hc as [Hc _].
  destruct (near_digit (Z.pos m) e k Hc Hbig) as (d & Hd & Hr). fold lo in Hd.
  apply (back_spec m e d (- k) Hb) in Hr. destruct Hd as [->| ->]; rewrite Hr; cbn [andb]; by repeat case_match.
Qed.

Lemma shortest_from_reads m e x : bounded 53 1024 m e = true → at_least_one (Z.pos m) e (1 - x) → ∀ fuel n,
  (S fuel + n = 18)%nat →
  reads_as (Z.pos m) e (shortest_from (S fuel) binary64 (Z.pos m) e x n).1 (shortest_from (S fuel) binary64 (Z.pos m) e x n).2.
Proof.
  intros Hb H1. induction fuel as [|fuel IH]; intros n Hn; cbn [shortest_from].
  - assert (n = 17%nat) as -> by lia. destruct (shortest_at_17 m e x Hb H1) as [d E]. rewrite E.
    by apply shortest_at_reads.
  - destruct (shortest_at binary64 (Z.pos m) e x n) as [d|] eqn:E; [by apply shortest_at_reads|].
    apply IH. lia.
Qed.

Lemma strip_zeros_reads m e fuel : ∀ d p,
  reads_as m e d p → reads_as m e (strip_zeros fuel d p).1 (strip_zeros fuel d p).2.
Proof.
  induction fuel as [|fuel IH]; intros d p H; [done|]. cbn [strip_zeros].
  destruct (Z.eqb_spec (d mod 10) 0) as [E|]; [|done]. apply IH.
  assert (d = 10 * (d / 10)) as Ed by (pose proof (Z.div_mod d 10); lia). assert (0 < d / 10) by (destruct H; lia).
  apply (reads_as_value m e d p); [done| |done]. rewrite Ed at 1.
  assert (10 * 10 ^ Z.max 0 p * 10 ^ Z.max 0 (- (p + 1)) = 10 ^ Z.max 0 (p + 1) * 10 ^ Z.max 0 (- p)) as E10.
  { rewrite <- Z.pow_succ_r, <- !Z.pow_add_r by lia. f_equal. lia. }
  transitivity (d / 10 * (10 * 10 ^ Z.max 0 p * 10 ^ Z.max 0 (- (p + 1)))); [ring|rewrite E10; ring].
Qed.

(** The shortest digits of a value are read as the value. *)
Lemma shortest_reads m e :
  bounded 53 1024 m e = true → reads_as (Z.pos m) e (shortest binary64 m e).1 (shortest binary64 m e).2.
Proof.
  intros Hb. unfold shortest. assert (at_least_one (Z.pos m) e (1 - exp10_of (Z.pos m) e)) as H1.
  { apply exp10_of_ok, (in_binary64_range false). apply bounded_canonical in Hb as [(? & ? & _) ?].
    cbn [in_binary64]. rewrite !andb_true_iff, Z.ltb_lt, !Z.leb_le. lia. }
  pose proof (shortest_from_reads m e _ Hb H1 16 1 eq_refl) as H. destruct (shortest_from 17 _ _ _ _ _) as [d p].
  by apply strip_zeros_reads.
Qed.

(** ** The text of a number is read back *)

Lemma take_digits_stop s rest :
  all_digits s → match rest with EmptyString => True | String c _ => is_digit c = false end →
  take_digits (s +:+ rest) = (s, rest).
Proof.
  unfold all_digits. induction s as [|c s IH]; cbn [str_forallb]; intros Hs Hr.
  - change ("" +:+ rest) with rest. destruct rest as [|c r]; [done|]. cbn. by rewrite Hr.
  - go_bool. rewrite append_cons. cbn [take_digits]. by rewrite H, IH.
Qed.

Definition frac_digits (f : string) : string := match f with String _ t => t | EmptyString => EmptyString end.

Lemma exp_part_head e : exp_part e → match e with EmptyString => True | String c _ => c = "e"%char end.
Proof. intros [->|(sg & t & -> & _)]; done. Qed.

(** The parts of a literal are read one by one. *)
Lemma read_decimal_parts (neg : bool) i f e x :
  all_digits i → i ≠ "" → frac_part f → exp_part e → read_exp e = Some x →
  read_decimal ((if neg then "-" else "") +:+ i +:+ f +:+ e) =
  Some (Decimal neg (digits_val 0 (i +:+ frac_digits f)) (x - Z.of_nat (String.length (frac_digits f)))).
Proof.
  intros Hi Hne Hf He Hx. pose proof (exp_part_head e He) as Hh.
  assert (∀ rest, match rest with EmptyString => True | String c _ => is_digit c = false end →
    take_digits (i +:+ rest) = (i, rest)) as Ht by (intros; by apply take_digits_stop).
  assert (read_decimal ((if neg then "-" else "") +:+ i +:+ f +:+ e) =
    let '(fp, rest) := match f +:+ e with String "." t => take_digits t | _ => (EmptyString, f +:+ e) end%char in
    if String.eqb i EmptyString && String.eqb fp EmptyString then None
    else e ← read_exp rest; Some (Decimal neg (digits_val 0 (i +:+ fp)%string) (e - Z.of_nat (String.length fp)))) as ->.
  { unfold read_decimal.
    assert (∀ u, u = (if neg then "-" else "") +:+ i +:+ f +:+ e →
      match u with String "-" t => (true, t) | String "+" t => (false, t) | _ => (false, u) end%char =
      (neg, i +:+ f +:+ e)) as Hsign; [|rewrite (Hsign _ eq_refl)].
    { intros u ->. destruct neg; [done|]. change ("" +:+ ?y) with y. destruct i as [|c i]; [done|]. rewrite append_cons.
      unfold all_digits in Hi. cbn in Hi. apply andb_true_iff in Hi as [Hc _].
      destruct c as [[] [] [] [] [] [] [] []]; first [discriminate Hc|reflexivity]. }
    cbv iota beta. rewrite Ht; [done|]. destruct Hf as [->|(t & -> & _)]; [|done].
    change ("" +:+ e) with e. destruct e as [|c e]; [done|]. by subst c. }
  assert (String.eqb i "" = false) as Ei by (by apply String.eqb_neq).
  destruct Hf as [->|(t & -> & Hd & _)]; cbn [frac_digits].
  - change ("" +:+ e) with e. assert (match e with String "." t => take_digits t | _ => (EmptyString, e) end%char = (EmptyString, e)) as ->.
    { destruct e as [|c e]; [done|]. by subst c. }
    by rewrite Ei, Hx.
  - rewrite append_cons. cbv iota. rewrite take_digits_stop; [by rewrite Ei, Hx|done|].
    destruct e as [|c e]; [done|]. by subst c.
Qed.

Lemma read_exp_text z : read_exp ("e" +:+ (if 0 <=? z then "+" else "") +:+ Itoa z) = Some z.
Proof.
  assert (∀ z, 0 <= z → String.eqb (Itoa z) "" || negb (str_forallb is_digit (Itoa z)) = false) as Hd.
  { intros z' Hz. destruct (Itoa_digits z' Hz) as [-> Hne]. apply String.eqb_neq in Hne. by rewrite Hne. }
  destruct (Z.leb_spec 0 z).
  - change (read_exp _) with (if String.eqb (Itoa z) "" || negb (str_forallb is_digit (Itoa z)) then None
      else Some (digits_val 0 (Itoa z))). by rewrite Hd, digits_val_Itoa by done.
  - rewrite Itoa_neg by done. change (read_exp _) with
      (if String.eqb (Itoa (- z)) "" || negb (str_forallb is_digit (Itoa (- z))) then None
       else Some (- digits_val 0 (Itoa (- z)))). rewrite Hd, digits_val_Itoa by lia. f_equal. lia.
Qed.

Lemma digits_val_zeros n acc : digits_val acc (repeat_char "0" n) = acc * 10 ^ Z.of_nat n.
Proof.
  revert acc. induction n as [|n IH]; intros acc; [cbn; lia|]. cbn [repeat_char digits_val]. rewrite IH.
  rewrite Nat2Z.inj_succ, Z.pow_succ_r by lia. change (code "0"%char) with 48. lia.
Qed.

Lemma int_part_digits i : int_part i → all_digits i ∧ i ≠ "".
Proof. intros [->|H]; [done|]. by apply leads_digits. Qed.

(** The unsigned body of [formatCanonicalFloat]: the parts of a literal, which
    denotes the digits scaled to have [n] places before the point. *)
Lemma body_parts digits n :
  leads_nonzero digits →
  let k := Z.of_nat (String.length digits) in
  ∃ i f e x, int_part i ∧ frac_part f ∧ exp_part e ∧ read_exp e = Some x ∧
  (let mant := digits_val 0 (i +:+ frac_digits f) in let exp := x - Z.of_nat (String.length (frac_digits f)) in
   (mant = digits_val 0 digits ∧ exp = n - k) ∨ (0 <= n - k ∧ mant = digits_val 0 digits * 10 ^ (n - k) ∧ exp = 0)) ∧
  (if (k <=? n) && (n <=? 21) then digits +:+ repeat_char "0" (Z.to_nat (n - k))
   else if (0 <? n) && (n <=? 21) then stake (Z.to_nat n) digits +:+ "." +:+ sdrop (Z.to_nat n) digits
   else if (-6 <? n) && (n <=? 0) then "0." +:+ repeat_char "0" (Z.to_nat (- n)) +:+ digits
   else (if k =? 1 then digits else stake 1 digits +:+ "." +:+ sdrop 1 digits) +:+
        "e" +:+ (if 0 <=? n - 1 then "+" else "") +:+ Itoa (n - 1)) = i +:+ f +:+ e.
Proof.
  intros Hd k. pose proof (leads_digits _ Hd) as [Ha Hne].
  assert (0 < k) as Hk by (unfold k; destruct digits; [done|cbn; lia]).
  destruct (_ && _) eqn:E1; [|destruct ((0 <? n) && _) eqn:E2; [|destruct ((-6 <? n) && _) eqn:E3]].
  - exists (digits +:+ repeat_char "0" (Z.to_nat (n - k))), "", "", 0. go_bool. apply Z.leb_le in H.
    split; [right; apply leads_app; [done|apply zeros_digits]|]. do 2 (split; [by left|]). split; [done|].
    split; [right|by rewrite str_app_nil]. cbn [frac_digits]. rewrite str_app_nil, digits_val_app, digits_val_zeros.
    rewrite Z2Nat.id by lia. split; [lia|done].
  - destruct (leads_split digits (Z.to_nat n) Hd) as (H1 & H2 & H3); [unfold k in *; lia|].
    exists (stake (Z.to_nat n) digits), (String "." (sdrop (Z.to_nat n) digits)), "", 0.
    split; [by right|]. split; [right; eauto|]. split; [by left|]. split; [done|].
    split; [left|by rewrite str_app_nil]. cbn [frac_digits]. rewrite stake_sdrop, sdrop_length. split; [done|].
    unfold k in *. lia.
  - exists "0", (String "." (repeat_char "0" (Z.to_nat (- n)) +:+ digits)), "", 0.
    split; [by left|]. split; [right; eexists; split; [done|]; split; [apply all_digits_app; split; [apply zeros_digits|done]|]|].
    { destruct (repeat_char _ _); done. }
    split; [by left|]. split; [done|]. split; [left|by rewrite str_app_nil]. cbn [frac_digits].
    rewrite !digits_val_app, digits_val_zeros, str_length_app.
    assert (∀ m, String.length (repeat_char "0" m) = m) as -> by (clear; induction m; cbn; congruence).
    split; [done|]. unfold k in *. lia.
  - destruct (Z.eqb_spec k 1) as [E|E].
    + exists digits, "", ("e" +:+ (if 0 <=? n - 1 then "+" else "") +:+ Itoa (n - 1)), (n - 1).
      split; [by right|]. split; [by left|]. split; [apply exp_text|]. split; [apply read_exp_text|].
      split; [left|done]. cbn [frac_digits]. rewrite str_app_nil. split; [done|]. cbn. lia.
    + destruct (leads_split digits 1 Hd) as (H1 & H2 & H3); [unfold k in *; lia|].
      exists (stake 1 digits), (String "." (sdrop 1 digits)), ("e" +:+ (if 0 <=? n - 1 then "+" else "") +:+ Itoa (n - 1)), (n - 1).
      split; [by right|]. split; [right; eauto|]. split; [apply exp_text|]. split; [apply read_exp_text|].
      split; [left|by rewrite <- str_app_assoc]. cbn [frac_digits]. rewrite stake_sdrop, sdrop_length. split; [done|].
      unfold k in *. lia.
Qed.

Lemma formatCanonicalFloat_literal f :
  in_binary64 f = true → matches numericLiteralRE (formatCanonicalFloat f) = true.
Proof.
  destruct f as [| | |neg m e]; try done. intros Hr%in_binary64_range. unfold formatCanonicalFloat.
  pose proof (shortest_pos binary64 m e Hr) as Hd. destruct (shortest binary64 m e) as [d p]. cbn [fst] in Hd. cbv zeta.
  apply Itoa_pos in Hd. set (k := Z.of_nat (String.length (Itoa d))).
  destruct (body_parts (Itoa d) (k + (p + k - 1) - (k - 1)) Hd) as (i & fr & ex & x & Hi & Hf & He & _ & _ & E).
  fold k in E. rewrite E. apply literal_lang; [|done..]. destruct neg; set_solver.
Qed.

(** The number that the text of a value denotes. *)
Definition plus_zero (f : float64) : float64 := match f with S754_zero _ => fzero | _ => f end.

(** A finite value of the binary64 format. *)
Definition is_binary64 (f : float64) : bool := isFinite f && valid_binary 53 1024 f.

Lemma is_binary64_range f : is_binary64 f = true → in_binary64 f = true.
Proof.
  unfold is_binary64. intros [_ H]%andb_true_iff. destruct f as [| | |s m e]; try done. cbn [valid_binary] in H.
  apply bounded_canonical in H as [(? & ? & _) ?]. cbn [in_binary64]. rewrite !andb_true_iff, Z.ltb_lt, !Z.leb_le. lia.
Qed.

(** [ParseFloat] reads the canonical text of a number as the number. *)
Lemma ParseFloat_format f : is_binary64 f = true → ParseFloat (formatCanonicalFloat f) = Some (plus_zero f).
Proof.
  unfold is_binary64. intros [Hfin Hv]%andb_true_iff. destruct f as [s|s| |neg m e]; [done|done|done|].
  cbn [valid_binary] in Hv. unfold formatCanonicalFloat. destruct (shortest_reads m e Hv) as [Hd Hr].
  destruct (shortest binary64 m e) as [d p]. cbn [fst snd] in Hd, Hr. cbv zeta.
  pose proof (Itoa_pos d Hd) as Hl. set (k := Z.of_nat (String.length (Itoa d))).
  destruct (body_parts (Itoa d) (k + (p + k - 1) - (k - 1)) Hl) as (i & fr & ex & x & Hi & Hf & He & Hx & Hval & E).
  fold k in E, Hval. rewrite E. destruct (int_part_digits i Hi) as [Hid Hin]. unfold ParseFloat.
  rewrite (read_decimal_parts neg i fr ex x) by done. cbn [mbind option_bind d_neg d_mant d_exp].
  rewrite digits_val_Itoa in Hval by lia. replace (k + (p + k - 1) - (k - 1) - k) with p in Hval by lia.
  set (mant := digits_val 0 (i +:+ frac_digits fr)) in *. set (ex' := x - _) in *.
  assert (reads_as (Z.pos m) e mant ex') as [Hm Hi'].
  { destruct Hval as [[-> ->]|(Hp & -> & ->)]; [done|]. pose proof (pow_pos 10 p ltac:(lia) ltac:(lia)).
    apply (reads_as_value _ _ d p); [lia| |done]. rewrite (Z.max_r 0 p), (Z.max_l 0 (- p)) by lia.
    change (10 ^ Z.max 0 (- 0)) with 1. change (10 ^ Z.max 0 0) with 1. change (10 ^ 0) with 1. lia. }
  assert (dec_to_float binary64 neg mant ex' = S754_finite neg m e) as -> by (by apply dec_to_float_iff). done.
Qed.

(** What is read is a value of the format, with the sign of the literal. *)
Lemma round_sign s m e l s' m' e' : binary_round_aux 53 1024 s m e l = S754_finite s' m' e' → s' = s.
Proof. unfold binary_round_aux. repeat case_match; intros; by simplify_eq. Qed.

Lemma dec_to_float_sign s d p s' m e : dec_to_float binary64 s d p = S754_finite s' m e → s' = s.
Proof.
  unfold dec_to_float, binary_round. repeat case_match; try done; cbn [f_prec f_emax binary64]; apply round_sign.
Qed.

Lemma dec_to_float_valid s d p :
  isFinite (dec_to_float binary64 s d p) = true → is_binary64 (dec_to_float binary64 s d p) = true.
Proof.
  intros Hfin. unfold is_binary64. rewrite Hfin. destruct (dec_to_float binary64 s d p) as [| | |s' m e] eqn:E; try done.
  destruct (Z.le_gt_cases d 0) as [|Hd]; [destruct d; done|].
  pose proof (dec_to_float_sign _ _ _ _ _ _ E) as ->. by apply dec_to_float_iff in E as [].
Qed.

Lemma ParseFloat_valid s f : ParseFloat s = Some f → is_binary64 f = true.
Proof.
  unfold ParseFloat. destruct (read_decimal s) as [d|]; [|done]. cbn. case_match; [|done]. intros; simplify_eq.
  by apply dec_to_float_valid.
Qed.

(** An integer is rounded to a value of the format. *)
Lemma binary_round_sign s q s' m e : binary_round 53 1024 s q 0 = S754_finite s' m e → s' = s.
Proof. unfold binary_round. case_match. apply round_sign. Qed.

Lemma of_Z_valid z : isFinite (of_Z z) = true → is_binary64 (of_Z z) = true.
Proof.
  intros Hfin. unfold is_binary64. rewrite Hfin. unfold of_Z, binary_normalize in *.
  destruct z as [|q|q]; [done|..]; destruct (binary_round 53 1024 _ q 0) as [| | |s m e] eqn:E; try done;
    pose proof (binary_round_sign _ _ _ _ _ E) as ->; by apply binary_round_iff in E as [].
Qed.
