(* ===== verification/CanonicalText.v ===== *)
(** * Reading canonical text back

    [CanonicalJSON] writes text that a JSON decoder reads back as the same
    document: the members of every object in UTF-16 order, every number as the
    literal that was written.  The text does not depend on the iteration order of
    the Go maps, and decoding and encoding it again leaves it as it is. *)

From Stdlib Require Import Floats.SpecFloat.
From S2P Require Import Prelude GoStrings Regex GoFloat Json Canonical JsonText JsonStruct Utf.
From S2P Require Import NumberText.

(** ** The order of the members *)

Definition units_le (a b : list Z) : Prop := units_less b a = false.
#[global] Instance units_le_dec : RelDecision units_le.
Proof. intros a b. unfold units_le. apply _. Defined.

#[global] Instance units_le_total : Total units_le.
Proof.
  intros a. unfold units_le. induction a as [|x a IH]; intros [|y b]; cbn; auto.
  destruct (Z.eqb_spec x y) as [->|]; [rewrite Z.eqb_refl; apply IH|].
  rewrite (proj2 (Z.eqb_neq y x)) by lia. rewrite !Z.ltb_ge. lia.
Qed.

#[global] Instance units_le_trans : Transitive units_le.
Proof.
  intros a. unfold units_le. induction a as [|x a IH]; intros [|y b] [|z c]; cbn; try done.
  destruct (Z.eqb_spec y x), (Z.eqb_spec z y); subst; rewrite ?Z.ltb_ge; intros H1 H2.
  all: try match goal with |- (if ?u =? ?v then _ else _) = _ =>
    destruct (Z.eqb_spec u v); subst; [|apply Z.ltb_ge; lia] end.
  all: (by eauto) || lia.
Qed.

#[global] Instance units_le_antisymm : AntiSymm eq units_le.
Proof.
  intros a. unfold units_le. induction a as [|x a IH]; intros [|y b]; cbn; try done.
  destruct (Z.eqb_spec y x) as [->|]; [rewrite Z.eqb_refl; intros; f_equal; eauto|].
  rewrite (proj2 (Z.eqb_neq x y)), !Z.ltb_ge by lia. lia.
Qed.

(** The members of an object in the order in which they are written. *)
Definition key16_le {A} (a b : string * A) : Prop := utf16Less b.1 a.1 = false.
#[global] Instance key16_le_dec {A} : RelDecision (@key16_le A).
Proof. intros a b. unfold key16_le. apply _. Defined.
#[global] Instance key16_le_total {A} : Total (@key16_le A).
Proof. intros a b. apply units_le_total. Qed.
Definition sorted16 {A} (m : gomap A) : gomap A := merge_sort key16_le m.

Lemma sorted16_fmap {A B} (g : A → B) (m : gomap A) :
  sorted16 ((λ kv : string * A, (kv.1, g kv.2)) <$> m) = (λ kv, (kv.1, g kv.2)) <$> sorted16 m.
Proof. by apply merge_sort_fmap. Qed.

#[global] Instance key16_le_trans {A} : Transitive (@key16_le A).
Proof. intros a b c. apply units_le_trans. Qed.

(** Keys that a canonical document may have. *)
Definition good_keys {A} (m : gomap A) : Prop := wf_map m ∧ ∀ k, k ∈ mkeys m → ValidString k = true.

Lemma good_keys_perm {A} (m1 m2 : gomap A) : m1 ≡ₚ m2 → good_keys m1 → good_keys m2.
Proof.
  unfold good_keys, wf_map, mkeys. intros Hp [H1 H2]. split; [by rewrite <- Hp|].
  intros k. rewrite <- Hp. apply H2.
Qed.

Lemma sorted16_unique {A} (l1 l2 : gomap A) :
  good_keys l1 → Sorted key16_le l1 → Sorted key16_le l2 → l1 ≡ₚ l2 → l1 = l2.
Proof.
  intros [Hnd Hv] H1 H2 Hp. apply (Sorted_unique_strong key16_le); [|done..].
  intros [k x] [k' x'] Hx Hy Hle Hge. rewrite <- Hp in Hy.
  assert (k = k') as ->.
  { apply utf16_Encode_inj; [eapply Hv, mkeys_elem; done..|]. by apply (anti_symm units_le). }
  apply elem_mget in Hx, Hy; [|done..]. congruence.
Qed.

Lemma sorted16_perm_self {A} (m : gomap A) : sorted16 m ≡ₚ m.
Proof. apply merge_sort_Permutation. Qed.

Lemma sorted16_perm {A} (m1 m2 : gomap A) : good_keys m1 → m1 ≡ₚ m2 → sorted16 m1 = sorted16 m2.
Proof.
  intros Hg Hp. apply sorted16_unique; [|apply (Sorted_merge_sort _)..|by rewrite !sorted16_perm_self].
  by eapply good_keys_perm; [symmetry; apply sorted16_perm_self|].
Qed.

Lemma sorted16_id {A} (m : gomap A) : good_keys m → sorted16 (sorted16 m) = sorted16 m.
Proof. intros Hg. symmetry. apply sorted16_perm; [done|]. symmetry. apply sorted16_perm_self. Qed.

(** ** Strings *)

Definition is_high_byte (c : ascii) : bool := 128 <=? code c.

(** What a continuation decoder reads, it reads from its bytes alone, and they
    are above ASCII. *)
Definition local (k : nat) (b : string → option (Z * nat)) : Prop :=
  ∀ s r n, b s = Some (r, n) →
    n = S k ∧ String.length (stake k s) = k ∧ str_forallb is_high_byte (stake k s) = true ∧ ∀ t, b (stake k s +:+ t) = Some (r, n).

Lemma cont_high lo hi c y : 128 <= lo → cont lo hi c = Some y → is_high_byte c = true.
Proof. intros Hlo [H _]%cont_Some. unfold is_high_byte. apply Z.leb_le. lia. Qed.

Lemma b2_local lo hi x : 128 <= lo → local 1 (b2 lo hi x).
Proof.
  intros Hlo [|c1 s] r n; [done|]. cbn [b2]. destruct (cont lo hi c1) eqn:E; [|done]. cbn. intros; simplify_eq.
  rewrite (cont_high _ _ _ _ Hlo E). do 3 (split; [done|]). intros t. rewrite append_cons. cbn. by rewrite E.
Qed.

Lemma b3_local lo hi x : 128 <= lo → local 2 (b3 lo hi x).
Proof.
  intros Hlo [|c1 [|c2 s]] r n; [done..|]. cbn [b3]. destruct (cont lo hi c1) eqn:E; [|done]. cbn.
  destruct (cont 128 191 c2) eqn:E2; [|done]. cbn. intros; simplify_eq.
  rewrite (cont_high _ _ _ _ Hlo E), (cont_high 128 191 c2 _ ltac:(lia) E2). do 3 (split; [done|]).
  intros t. rewrite !append_cons. cbn. by rewrite E, E2.
Qed.

Lemma b4_local lo hi x : 128 <= lo → local 3 (b4 lo hi x).
Proof.
  intros Hlo [|c1 [|c2 [|c3 s]]] r n; [done..|]. cbn [b4]. destruct (cont lo hi c1) eqn:E; [|done]. cbn.
  destruct (cont 128 191 c2) eqn:E2; [|done]. cbn. destruct (cont 128 191 c3) eqn:E3; [|done]. cbn.
  intros; simplify_eq. rewrite (cont_high _ _ _ _ Hlo E), (cont_high 128 191 c2 _ ltac:(lia) E2),
    (cont_high 128 191 c3 _ ltac:(lia) E3). do 3 (split; [done|]).
  intros t. rewrite !append_cons. cbn. by rewrite E, E2, E3.
Qed.

Lemma decode_rune_high c s r n :
  (code c <? 128) = false → decode_rune (String c s) = Some (r, n) →
  String.length (stake n (String c s)) = n ∧ str_forallb is_high_byte (stake n (String c s)) = true ∧
  ∀ t, decode_rune (stake n (String c s) +:+ t) = Some (r, n).
Proof.
  intros Hc. assert (is_high_byte c = true) as Hh by (unfold is_high_byte; lia).
  assert (∀ k b, local k b → b s = Some (r, n) → (∀ t, decode_rune (String c t) = b t) →
    String.length (stake n (String c s)) = n ∧ str_forallb is_high_byte (stake n (String c s)) = true ∧
    ∀ t, decode_rune (stake n (String c s) +:+ t) = Some (r, n)) as Hloc.
  { intros k b Hl Hb Hd. apply Hl in Hb as (-> & Hk & Hs & Ht). cbn [stake str_forallb String.length].
    rewrite Hh, Hk. do 2 (split; [done|]).
    intros t. by rewrite append_cons, Hd. }
  cbn [decode_rune]. rewrite Hc.
  repeat match goal with |- context [if ?b then _ else _] => destruct b eqn:? end; try done; intros H.
  all: refine (Hloc _ _ _ H _); [first [apply b2_local|apply b3_local|apply b4_local]; lia|].
  all: intros t; cbn [decode_rune]; rewrite Hc;
    repeat match goal with H : ?b = true |- context [if ?b then _ else _] => rewrite H
                         | H : ?b = false |- context [if ?b then _ else _] => rewrite H end; done.
Qed.

Lemma canonical_body_high u t :
  str_forallb is_high_byte u = true → canonical_body (u +:+ t) = u +:+ canonical_body t.
Proof.
  induction u as [|c u IH]; [done|]. cbn [str_forallb]. rewrite append_cons. intros [Hc Hu]%andb_true_iff.
  cbn [canonical_body]. rewrite IH by done. unfold is_high_byte in Hc. apply Z.leb_le in Hc.
  unfold canonical_char. cbv zeta. repeat (case_match; [lia|]). done.
Qed.

(** An ASCII character is read from its escape. *)
Lemma read_string_char c fuel t :
  (code c <? 128) = true →
  read_string (S fuel) (canonical_char c +:+ t) =
  '(out, rest) ← read_string fuel t; Some (String c out, rest).
Proof. intros H. destruct c as [[] [] [] [] [] [] [] []]; try discriminate H; reflexivity. Qed.



Lemma read_string_high c s fuel rest r n :
  (code c <? 128) = false → decode_rune (String c s) = Some (r, n) →
  read_string (S fuel) (stake n (String c s) +:+ rest) =
  '(o, rest') ← read_string fuel rest; Some (stake n (String c s) +:+ o, rest').
Proof.
  intros Hc Hd. destruct (decode_rune_high c s r n Hc Hd) as (Hlen & _ & Hl). specialize (Hl rest).
  pose proof (sdrop_app (stake n (String c s)) rest) as E1. pose proof (stake_app (stake n (String c s)) rest) as E2.
  rewrite Hlen in E1, E2. pose proof (decode_rune_encode _ _ _ Hd) as (_ & _ & Hn).
  assert (∃ u, stake n (String c s) = String c u) as [u Hu] by (destruct n; [lia|by eexists]).
  rewrite Hu, append_cons in *. cbn [read_string].
  rewrite (proj2 (Z.eqb_neq (code c) 34)), (proj2 (Z.eqb_neq (code c) 92)), (proj2 (Z.ltb_ge (code c) 32)) by lia.
  by rewrite Hl, E1, E2.
Qed.

(** The body of a string literal is read up to its closing quote. *)
Lemma read_string_canonical s :
  ValidString s = true → ∀ fuel rest, (String.length (canonical_body s) < fuel)%nat →
  read_string fuel (canonical_body s +:+ String dquote rest) = Some (s, rest).
Proof.
  revert s. refine (valid_ind _ _ _).
  - intros [|fuel] rest H; [cbn in H; lia|]. done.
  - intros s r n Hd _ _ Hn _ IH fuel rest Hf. destruct s as [|c s]; [done|].
    destruct (code c <? 128) eqn:Hc.
    + cbn [decode_rune] in Hd. rewrite Hc in Hd. simplify_eq. cbn [sdrop canonical_body] in *.
      rewrite <- str_app_assoc. rewrite str_length_app in Hf.
      assert (0 < String.length (canonical_char c))%nat by (clear; destruct c as [[] [] [] [] [] [] [] []]; apply Nat.lt_0_succ).
      destruct fuel as [|fuel]; [lia|]. rewrite read_string_char, IH by (done || lia). done.
    + destruct (decode_rune_high c s r n Hc Hd) as (Hlen & Hh & _).
      rewrite <- (stake_sdrop n (String c s)), canonical_body_high in Hf |- * by done.
      rewrite str_length_app in Hf. rewrite stake_sdrop. rewrite <- str_app_assoc.
      destruct fuel as [|fuel]; [lia|]. rewrite (read_string_high c s fuel _ r n), IH by (done || lia).
      cbn. by rewrite stake_sdrop.
Qed.

(** ** Documents *)

(** The tree that the canonical text of a value denotes. *)
Fixpoint jtext_of (v : any) : jtext :=
  match v with
  | ANil => JNull
  | ABool b => JBool b
  | AStr s => JStr s
  | AFloat _ | AFloat32 _ | AInt _ _ => JNum (formatCanonicalFloat (canon_number v))
  | AList l => JArr (jtext_of <$> l)
  | AMap m => JObj (sorted16 ((λ kv, (kv.1, jtext_of kv.2)) <$> m))
  end.

(** Every number of the value is one of binary64. *)
Fixpoint numbers_in_range (v : any) : bool :=
  match v with
  | AFloat _ | AFloat32 _ | AInt _ _ => in_binary64 (canon_number v)
  | AList l => forallb numbers_in_range l
  | AMap m => forallb (λ kv, numbers_in_range kv.2) m
  | _ => true
  end.

(** What may follow a number. *)
Definition delimited (rest : string) : Prop :=
  match rest with EmptyString => True | String c _ => number_char c = false end.

Lemma span_app p s rest :
  str_forallb p s = true → match rest with EmptyString => True | String c _ => p c = false end →
  span p (s +:+ rest) = (s, rest).
Proof.
  induction s as [|c s IH]; cbn [str_forallb]; intros Hs Hr.
  - destruct rest as [|c r]; [done|]. change ("" +:+ ?x) with x. cbn. by rewrite Hr.
  - go_bool. rewrite append_cons. cbn [span]. by rewrite H, IH.
Qed.

Lemma read_value_number fuel d c s :
  number_head c = true → read_value (S fuel) d (String c s) = read_number (String c s).
Proof. intros H. destruct c as [[] [] [] [] [] [] [] []]; try discriminate H; reflexivity. Qed.

Lemma read_number_canonical f fuel d rest :
  in_binary64 f = true → delimited rest →
  read_value (S fuel) d (formatCanonicalFloat f +:+ rest) = Some (JNum (formatCanonicalFloat f), rest).
Proof.
  intros Hf Hr. pose proof (formatCanonicalFloat_literal f Hf) as Hm.
  destruct (formatCanonicalFloat_head f) as (c & Hc & Hh).
  assert (read_value (S fuel) d (formatCanonicalFloat f +:+ rest) = read_number (formatCanonicalFloat f +:+ rest)) as ->.
  { destruct (formatCanonicalFloat f) as [|c' s]; [done|]. cbn in Hc. simplify_eq. rewrite append_cons.
    by apply read_value_number. }
  unfold read_number. rewrite span_app; [by rewrite Hm| |done].
  apply (re_within_lang number_char numericLiteralRE); [by vm_compute|by apply matches_lang].
Qed.

(** The first byte of a value is neither white space nor a closing bracket. *)
Lemma value_first v rest :
  ∃ c s, writeCanonicalJSON v +:+ rest = String c s ∧ is_ws c = false ∧ code c ≠ 93 ∧ code c ≠ 125.
Proof.
  destruct (writeCanonicalJSON_head v) as (c & Hc & Ht).
  destruct (writeCanonicalJSON v) as [|c' s]; [done|]. cbn in Hc. simplify_eq.
  exists c, (s +:+ rest). split; [done|]. clear -Ht.
  destruct c as [[] [] [] [] [] [] [] []]; first [discriminate Ht|repeat split; done].
Qed.

Lemma not_close_array {A} c t (x : string → A) (y : A) :
  code c ≠ 93 → match String c t with String "]" u => x u | _ => y end%char = y.
Proof. intros H. destruct c as [[] [] [] [] [] [] [] []]; try done. Qed.

Lemma not_close_object {A} c t (x : string → A) (y : A) :
  code c ≠ 125 → match String c t with String "}" u => x u | _ => y end%char = y.
Proof. intros H. destruct c as [[] [] [] [] [] [] [] []]; try done. Qed.

Definition reads_back (v : any) : Prop := ∀ fuel d rest,
  validateCanonicalStrings v d = None → numbers_in_range v = true → delimited rest →
  (2 * String.length (writeCanonicalJSON v) <= fuel)%nat →
  read_value fuel d (writeCanonicalJSON v +:+ rest) = Some (jtext_of v, rest).

Lemma read_elems_canonical l : Forall reads_back l → l ≠ [] → ∀ fuel d rest,
  check_all (λ x, validateCanonicalStrings x d) l = None → forallb numbers_in_range l = true →
  (2 * String.length (Join "," (writeCanonicalJSON <$> l)) < fuel)%nat →
  read_elems fuel d (Join "," (writeCanonicalJSON <$> l) +:+ String "]" rest) = Some (jtext_of <$> l, rest).
Proof.
  induction 1 as [|v l Hv Hl IH]; [done|]. intros _ fuel d rest Hs Hn Hf.
  cbn [check_all forallb] in Hs, Hn. apply check_seq_None in Hs as [Hs Hs']. go_bool.
  rewrite fmap_cons in *. destruct (decide (l = [])) as [->|Hne].
  - cbn [fmap list_fmap Join] in *. destruct fuel as [|fuel]; [lia|]. cbn [read_elems].
    rewrite Hv by (done || lia). reflexivity.
  - rewrite Join_cons in * by (by destruct l). rewrite <- str_app_assoc, append_cons.
    rewrite str_length_app in Hf. cbn [String.length] in Hf. destruct fuel as [|fuel]; [lia|]. cbn [read_elems].
    rewrite Hv by (done || lia). cbn [mbind option_bind skip_ws]. change (is_ws ",") with false. cbv iota.
    rewrite IH by (done || lia). reflexivity.
Qed.

(** A member of an object. *)
Definition member_text (kv : string * any) : string :=
  writeCanonicalString kv.1 +:+ String ":" (writeCanonicalJSON kv.2).

Lemma canonical_key_ok k : checkCanonicalString k = None ↔ ValidString k = true.
Proof.
  unfold checkCanonicalString. destruct (ValidString k); [done|]. split; [|done].
  destruct (first_invalid (String.length k) k) eqn:E; [done|]. intros _. exfalso.
  revert E. generalize (String.length k). intros n. revert k.
  induction n as [|n IH]; intros [|c k]; cbn [first_invalid]; try done.
  destruct (decode_rune (String c k)) as [[r w]|]; [apply IH|done].
Qed.

Lemma read_members_canonical m : Forall (λ kv, reads_back kv.2) m → m ≠ [] → ∀ fuel d rest,
  check_all (λ kv : string * any, checkCanonicalString kv.1 ;;? validateCanonicalStrings kv.2 d) m = None →
  forallb (λ kv, numbers_in_range kv.2) m = true →
  (2 * String.length (Join "," (member_text <$> m)) < fuel)%nat →
  read_members fuel d (Join "," (member_text <$> m) +:+ String "}" rest) =
  Some ((λ kv, (kv.1, jtext_of kv.2)) <$> m, rest).
Proof.
  induction 1 as [|[k v] m Hv Hm IH]; [done|]. intros _ fuel d rest Hs Hn Hf.
  cbn [check_all forallb fst snd] in Hs, Hn, Hv. apply check_seq_None in Hs as [[Hk%canonical_key_ok Hs]%check_seq_None Hs'].
  apply andb_true_iff in Hn as [Hn Hn']. rewrite fmap_cons in *.
  assert (∀ fuel tail, delimited tail → (2 * String.length (member_text (k, v)) < S fuel)%nat →
    read_members (S fuel) d (member_text (k, v) +:+ tail) =
    match skip_ws tail with
    | String "," t => '(l, r) ← read_members fuel d t; Some ((k, jtext_of v) :: l, r)
    | String "}" t => Some ([(k, jtext_of v)], t)
    | _ => None
    end%char) as Hone.
  { clear fuel Hf rest. intros fuel tail Ht Hf. unfold member_text, writeCanonicalString in *. cbn [fst snd] in *.
    rewrite <- !str_app_assoc, !append_cons in *. rewrite <- !str_app_assoc, !append_cons in *.
    change ("" +:+ ?x) with x in *. cbn [read_members skip_ws]. change (is_ws dquote) with false. cbv iota. change (code dquote =? 34) with true. cbv iota.
    rewrite read_string_canonical; [|done|rewrite str_length_app; cbn; lia].
    cbn [mbind option_bind skip_ws]. change (is_ws ":") with false. cbv iota.
    cbn [String.length] in Hf. rewrite str_length_app in Hf. cbn [String.length] in Hf.
    by rewrite Hv by (done || lia). }
  destruct (decide (m = [])) as [->|Hne].
  - cbn [fmap list_fmap Join] in *. destruct fuel as [|fuel]; [lia|]. rewrite Hone by (done || lia). reflexivity.
  - rewrite Join_cons in * by (by destruct m). rewrite <- str_app_assoc, append_cons.
    rewrite str_length_app in Hf. cbn [String.length] in Hf. destruct fuel as [|fuel]; [lia|].
    rewrite Hone by (done || lia). cbn [skip_ws]. change (is_ws ",") with false. cbv iota.
    rewrite IH by (done || lia). reflexivity.
Qed.

Lemma member_text_sorted m :
  (λ kx : string * string, writeCanonicalString kx.1 +:+ ":" +:+ kx.2)
    <$> sortMembersUTF16 ((λ kv : string * any, (kv.1, writeCanonicalJSON kv.2)) <$> m) =
  member_text <$> sorted16 m.
Proof.
  unfold sortMembersUTF16. rewrite (merge_sort_fmap key16_le member_le) by done.
  rewrite <- list_fmap_compose. done.
Qed.

Lemma check_all_perm {A E} (f : A → option E) l l' : l ≡ₚ l' → check_all f l = None → check_all f l' = None.
Proof. intros Hp. rewrite !check_all_None. intros H x Hx. apply H. by rewrite Hp. Qed.

Lemma forallb_perm {A} (f : A → bool) l l' : l ≡ₚ l' → forallb f l = true → forallb f l' = true.
Proof.
  intros Hp. rewrite !forallb_forall. intros H x Hx. apply H. rewrite <- list_elem_of_In in *. by rewrite Hp.
Qed.

Lemma read_word fuel d w j rest :
  (w, j) ∈ [("null", JNull); ("true", JBool true); ("false", JBool false)] →
  read_value (S fuel) d (w +:+ rest) = Some (j, rest).
Proof.
  intros Hw%list_elem_of_In. destruct Hw as [E|[E|[E|[]]]]; injection E as <- <-.
  all: match goal with |- read_value _ _ ?s = _ => trans (read_literal s); [reflexivity|] end.
  all: unfold read_literal, HasPrefix; rewrite ?prefix_app.
  - reflexivity.
  - change (String.prefix "null" ("true" +:+ rest)) with false. reflexivity.
  - change (String.prefix "null" ("false" +:+ rest)) with false.
    change (String.prefix "true" ("false" +:+ rest)) with false. reflexivity.
Qed.

Lemma read_value_canonical v : reads_back v.
Proof.
  induction v as [|b|s|f|f|k z|l IH|m IH] using any_nested_ind; intros fuel d rest Hs Hn Hr Hf;
    (destruct fuel as [|fuel]; [match type of Hf with (2 * String.length (writeCanonicalJSON ?v) <= _)%nat =>
       destruct (writeCanonicalJSON_head v) as (? & ? & _); destruct (writeCanonicalJSON v); [done|cbn in Hf; lia] end|]);
    cbn [writeCanonicalJSON jtext_of] in *; try (by apply read_number_canonical).
  - apply (read_word fuel d "null" JNull rest). by left.
  - destruct b; [apply (read_word fuel d "true" (JBool true) rest)|apply (read_word fuel d "false" (JBool false) rest)];
      set_solver.
  - unfold writeCanonicalString in *. rewrite append_cons, <- str_app_assoc, append_cons. cbn [read_value skip_ws].
    change (is_ws dquote) with false. cbv iota. change (code dquote =? 34) with true. cbv iota.
    change (String dquote ("" +:+ rest)) with (String dquote rest).
    rewrite read_string_canonical; [done| |rewrite str_length_app; cbn; lia].
    cbn in Hs. apply check_seq_None in Hs as [_ Hs]. by apply canonical_key_ok.
  - cbn [validateCanonicalStrings numbers_in_range] in Hs, Hn. apply check_seq_None in Hs as [Hd Hs]. apply guard_None in Hd.
    unfold maxCanonicalDepth in Hd. change ("[" +:+ ?x) with (String "[" x) in *. rewrite append_cons, <- str_app_assoc.
    change ("]" +:+ rest) with (String "]" rest). cbn [read_value skip_ws]. change (is_ws "[") with false. cbv iota.
    change (code "[" =? 34) with false. change (code "[" =? 91) with true. cbv iota.
    rewrite (proj2 (Z.ltb_ge maxJSONDepth (d + 1))) by (unfold maxJSONDepth; lia). cbv iota.
    destruct (decide (l = [])) as [->|Hne]; [reflexivity|].
    assert (∃ c t, Join "," (writeCanonicalJSON <$> l) +:+ String "]" rest = String c t ∧ is_ws c = false ∧ code c ≠ 93) as
      (c & t & Ec & Hw & Hc).
    { destruct l as [|x l]; [done|]. rewrite fmap_cons. destruct (decide (l = [])) as [->|Hne'].
      - cbn [fmap list_fmap Join]. destruct (value_first x (String "]" rest)) as (c & t & ? & ? & ? & _). eauto.
      - rewrite Join_cons by (by destruct l). rewrite <- str_app_assoc.
        destruct (value_first x (String "," (Join "," (writeCanonicalJSON <$> l)) +:+ String "]" rest))
          as (c & t & ? & ? & ? & _). eauto. }
    assert (skip_ws (String c t) = String c t) as Esk by (cbn; by rewrite Hw).
    rewrite Ec, Esk. etrans; [exact (not_close_array c t (λ t, Some (JArr [], t)) _ Hc)|]. rewrite <- Ec.
    cbn [String.length] in Hf. rewrite str_length_app in Hf. cbn [String.length] in Hf.
    rewrite read_elems_canonical by (done || lia). reflexivity.
  - cbn [validateCanonicalStrings numbers_in_range] in Hs, Hn. apply check_seq_None in Hs as [Hd Hs]. apply guard_None in Hd.
    unfold maxCanonicalDepth in Hd. rewrite member_text_sorted in *.
    change ("{" +:+ ?x) with (String "{" x) in *. rewrite append_cons, <- str_app_assoc.
    change ("}" +:+ rest) with (String "}" rest). cbn [read_value skip_ws]. change (is_ws "{") with false. cbv iota.
    change (code "{" =? 34) with false. change (code "{" =? 91) with false. change (code "{" =? 123) with true. cbv iota.
    rewrite (proj2 (Z.ltb_ge maxJSONDepth (d + 1))) by (unfold maxJSONDepth; lia). cbv iota.
    pose proof (sorted16_perm_self m) as Hp. rewrite (sorted16_fmap jtext_of).
    set (m' := sorted16 m) in *. clearbody m'. destruct (decide (m' = [])) as [->|Hne]; [reflexivity|].
    assert (∃ t, Join "," (member_text <$> m') +:+ String "}" rest = String dquote t) as [t Et].
    { destruct m' as [|kv m']; [done|]. rewrite fmap_cons. destruct (decide (m' = [])) as [->|Hne']; [by eexists|].
      rewrite Join_cons by (by destruct m'). by eexists. }
    rewrite Et. etrans; [exact (not_close_object dquote t (λ t, Some (JObj [], t)) _ ltac:(done))|]. rewrite <- Et.
    cbn [String.length] in Hf. rewrite str_length_app in Hf. cbn [String.length] in Hf.
    rewrite read_members_canonical; [reflexivity|by rewrite Hp|done| | |lia].
    + by eapply check_all_perm.
    + by eapply forallb_perm.
Qed.

(** ** Round trips *)

Lemma CanonicalJSON_ok v text :
  CanonicalJSON v = inl text ↔ validateCanonicalStrings v 0 = None ∧ encodable v = true ∧ text = writeCanonicalJSON v.
Proof. unfold CanonicalJSON. destruct (validateCanonicalStrings v 0), (encodable v); naive_solver. Qed.

(** The canonical text is JSON, and denotes the document that was written. *)
Lemma CanonicalJSON_document v text :
  CanonicalJSON v = inl text → numbers_in_range v = true → read_document text = Some (jtext_of v).
Proof.
  intros (Hs & _ & ->)%CanonicalJSON_ok Hn. unfold read_document.
  pose proof (read_value_canonical v (S (2 * String.length (writeCanonicalJSON v))) 0 "" Hs Hn I ltac:(lia)) as H.
  rewrite str_app_nil in H. by rewrite H.
Qed.

(** Values with one canonical text denote one document. *)
Lemma CanonicalJSON_inj v w text :
  CanonicalJSON v = inl text → CanonicalJSON w = inl text →
  numbers_in_range v = true → numbers_in_range w = true → jtext_of v = jtext_of w.
Proof.
  intros Hv Hw Nv Nw. apply CanonicalJSON_document in Hv, Hw; [|done..]. congruence.
Qed.

(** The value that decoding the canonical text yields. *)
Fixpoint normal (v : any) : any :=
  match v with
  | AFloat _ | AFloat32 _ | AInt _ _ => AFloat (plus_zero (canon_number v))
  | AList l => AList (normal <$> l)
  | AMap m => AMap (sorted16 ((λ kv, (kv.1, normal kv.2)) <$> m))
  | _ => v
  end.

(** The values that decoding may yield: every number is a finite value of the
    binary64 format, and the keys of every map are distinct. *)
Fixpoint stable (v : any) : bool :=
  match v with
  | AFloat _ | AFloat32 _ | AInt _ _ => is_binary64 (canon_number v)
  | AList l => forallb stable l
  | AMap m => bool_decide (wf_map m) && forallb (λ kv, stable kv.2) m
  | _ => true
  end.

Lemma stable_in_range v : stable v = true → numbers_in_range v = true.
Proof.
  induction v as [| | | | | |l IH|m IH] using any_nested_ind; cbn [stable numbers_in_range]; intros H;
    go_bool; try done; try (by apply is_binary64_range).
  - rewrite forallb_forall in *. intros x Hx. rewrite list.Forall_forall in IH. apply IH; [by apply list_elem_of_In|auto].
  - match goal with H : forallb _ _ = true |- _ => rename H into Hf end. rewrite forallb_forall in *.
    intros x Hx. rewrite list.Forall_forall in IH. apply IH; [by apply list_elem_of_In|auto].
Qed.

(** Decoding the members of an object with distinct keys keeps their order. *)
Lemma unmarshal_members (f : jtext → option any) (g : string * any → jtext) m : ∀ acc,
  Forall (λ kv, f (g kv) = Some (normal kv.2)) m → NoDup (mkeys acc ++ mkeys m) →
  (fix go (acc : gomap any) (m : list (string * jtext)) : option (gomap any) :=
     match m with [] => Some acc | (k, x) :: m' => v ← f x; go (mset k v acc) m' end)
    acc ((λ kv, (kv.1, g kv)) <$> m) = Some (acc ++ ((λ kv, (kv.1, normal kv.2)) <$> m)).
Proof.
  induction m as [|[k v] m IH]; intros acc Hm Hn; [by rewrite app_nil_r|].
  apply list.Forall_cons in Hm as [Hv Hm]. cbn [snd] in Hv. rewrite !fmap_cons. cbn [fst snd].
  rewrite Hv. cbn [mbind option_bind].
  assert (mset k (normal v) acc = acc ++ [(k, normal v)]) as E.
  { assert (k ∉ mkeys acc) as Hk.
    { apply list.NoDup_app in Hn as (_ & Hn & _). intros Hin. apply (Hn k Hin). unfold mkeys. rewrite fmap_cons. set_solver. }
    clear -Hk. induction acc as [|[k0 v0] acc IH]; [done|]. cbn [mset app]. unfold mkeys in *. rewrite fmap_cons in Hk.
    cbn [fst] in Hk. destruct (String.eqb_spec k k0) as [->|]; [set_solver|]. rewrite IH by set_solver. done. }
  rewrite E, IH; [by rewrite <- app_assoc|done|].
  unfold mkeys in *. rewrite fmap_app, <- app_assoc. done.
Qed.

Lemma wf_sorted16 {A} (m : gomap A) : wf_map m → wf_map (sorted16 m).
Proof. unfold wf_map, mkeys. by rewrite sorted16_perm_self. Qed.

Lemma unmarshal_number f :
  is_binary64 f = true → unmarshal_any (JNum (formatCanonicalFloat f)) = Some (AFloat (plus_zero f)).
Proof. intros H. cbn. by rewrite ParseFloat_format. Qed.

Lemma unmarshal_canonical v : stable v = true → unmarshal_any (jtext_of v) = Some (normal v).
Proof.
  induction v as [| | | | | |l IH|m IH] using any_nested_ind; cbn [stable jtext_of normal]; intros H;
    try done; try (by apply unmarshal_number).
  - cbn [unmarshal_any]. assert (∀ l, Forall (λ v, stable v = true → unmarshal_any (jtext_of v) = Some (normal v)) l →
      forallb stable l = true →
      (fix go (l : list jtext) : option (list any) :=
         match l with [] => Some [] | x :: l' => v ← unmarshal_any x; vs ← go l'; Some (v :: vs) end)
        (jtext_of <$> l) = Some (normal <$> l)) as Hl; [|by rewrite Hl].
    clear. induction l as [|x l IH]; intros Hf Hs; [done|]. cbn [forallb] in Hs. go_bool.
    apply list.Forall_cons in Hf as [Hx Hf]. rewrite !fmap_cons. rewrite Hx by done. cbn [mbind option_bind].
    by rewrite IH.
  - apply andb_true_iff in H as [Hw Hs]. apply bool_decide_eq_true in Hw. cbn [unmarshal_any].
    rewrite (sorted16_fmap jtext_of m), (sorted16_fmap normal m).
    change ((λ kv : string * any, (kv.1, jtext_of kv.2)) <$> sorted16 m)
      with ((λ kv, (kv.1, (λ kv : string * any, jtext_of kv.2) kv)) <$> sorted16 m).
    etrans; [apply (f_equal (fmap AMap)), (unmarshal_members unmarshal_any (λ kv, jtext_of kv.2) (sorted16 m) [])|done];
      [|by apply wf_sorted16].
    rewrite sorted16_perm_self. rewrite list.Forall_forall in *. intros kv Hkv. apply IH; [done|].
    rewrite forallb_forall in Hs. by apply (Hs kv), list_elem_of_In.
Qed.

Lemma canonical_string_map m d :
  validateCanonicalStrings (AMap m) d = None → wf_map m → good_keys m.
Proof.
  cbn [validateCanonicalStrings]. rewrite check_seq_None, check_all_None. intros [_ H] Hw. split; [done|].
  intros k Hk. unfold mkeys in Hk. apply list_elem_of_fmap in Hk as ([k' v] & -> & Hin).
  specialize (H _ Hin). apply check_seq_None in H as [H _]. by apply canonical_key_ok in H.
Qed.

Lemma good_keys_fmap {A B} (g : A → B) (m : gomap A) :
  good_keys m → good_keys ((λ kv : string * A, (kv.1, g kv.2)) <$> m).
Proof.
  unfold good_keys, wf_map. assert (mkeys ((λ kv : string * A, (kv.1, g kv.2)) <$> m) = mkeys m) as ->; [|done].
  unfold mkeys. rewrite <- list_fmap_compose. done.
Qed.

Lemma validate_normal v : ∀ d, validateCanonicalStrings v d = None → validateCanonicalStrings (normal v) d = None.
Proof.
  induction v as [| | | | | |l IH|m IH] using any_nested_ind; intros d; cbn [normal]; try done.
  - cbn [validateCanonicalStrings]. rewrite !check_seq_None, !check_all_None. intros [Hd H]. split; [done|].
    intros y (x & -> & Hx)%list_elem_of_fmap. rewrite list.Forall_forall in IH. auto.
  - cbn [validateCanonicalStrings]. rewrite !check_seq_None, !check_all_None. intros [Hd H]. split; [done|].
    intros y Hy. rewrite sorted16_perm_self in Hy. apply list_elem_of_fmap in Hy as (kv & -> & Hkv).
    specialize (H kv Hkv). rewrite check_seq_None in *. rewrite list.Forall_forall in IH. naive_solver.
Qed.

Lemma encodable_normal v : stable v = true → encodable (normal v) = true.
Proof.
  assert (∀ f, is_binary64 f = true → isFinite (plus_zero f) = true) as Hfin.
  { unfold is_binary64. intros f [H _]%andb_true_iff. by destruct f. }
  induction v as [| | | | | |l IH|m IH] using any_nested_ind; cbn [stable normal encodable]; intros H; try done; auto.
  - rewrite forallb_forall in *. intros y Hy%list_elem_of_In. apply list_elem_of_fmap in Hy as (x & -> & Hx).
    rewrite list.Forall_forall in IH. apply IH; [done|]. by apply H, list_elem_of_In.
  - apply andb_true_iff in H as [_ Hs]. rewrite forallb_forall in *. intros y Hy%list_elem_of_In.
    rewrite sorted16_perm_self in Hy. apply list_elem_of_fmap in Hy as (kv & -> & Hkv).
    rewrite list.Forall_forall in IH. apply IH; [done|]. by apply Hs, list_elem_of_In.
Qed.

Lemma write_normal v : ∀ d,
  validateCanonicalStrings v d = None → stable v = true → writeCanonicalJSON (normal v) = writeCanonicalJSON v.
Proof.
  assert (∀ f, formatCanonicalFloat (plus_zero f) = formatCanonicalFloat f) as Hz by (by intros []).
  induction v as [| | | | | |l IH|m IH] using any_nested_ind; intros d Hv Hs; cbn [normal writeCanonicalJSON]; try done;
    try (by apply Hz).
  - assert (writeCanonicalJSON <$> (normal <$> l) = writeCanonicalJSON <$> l) as ->; [|done].
    rewrite <- list_fmap_compose. apply list_fmap_ext. intros i x Hx%list_elem_of_lookup_2.
    cbn in Hv, Hs. rewrite check_seq_None, check_all_None in Hv. rewrite forallb_forall in Hs.
    rewrite list.Forall_forall in IH. apply (IH x Hx (d + 1)); [by apply Hv|by apply Hs, list_elem_of_In].
  - pose proof Hs as Hs'. cbn in Hs. apply andb_true_iff in Hs as [Hw Hs]. apply bool_decide_eq_true in Hw.
    pose proof (canonical_string_map _ _ Hv Hw) as Hg. rewrite !member_text_sorted.
    rewrite sorted16_id by (by apply good_keys_fmap). rewrite (sorted16_fmap normal).
    assert (member_text <$> ((λ kv, (kv.1, normal kv.2)) <$> sorted16 m) = member_text <$> sorted16 m) as ->; [|done].
    rewrite <- list_fmap_compose.
    apply list_fmap_ext. intros i [k x] Hx%list_elem_of_lookup_2. rewrite sorted16_perm_self in Hx.
    unfold member_text. cbn. cbn in Hv. rewrite check_seq_None, check_all_None in Hv. destruct Hv as [_ Hv].
    specialize (Hv _ Hx). apply check_seq_None in Hv as [_ Hv]. rewrite forallb_forall in Hs.
    rewrite list.Forall_forall in IH. specialize (IH _ Hx (d + 1)). cbn in IH.
    rewrite IH; [done|done|]. by apply (Hs (k, x)), list_elem_of_In.
Qed.

(** A decoded value survives the canonical form. *)
Lemma stable_normal v : stable v = true → stable (normal v) = true.
Proof.
  assert (∀ f, is_binary64 f = true → is_binary64 (plus_zero f) = true) as Hz.
  { intros [s|s| |s m e] H; cbn [plus_zero] in *; done. }
  induction v as [| | | | | |l IH|m IH] using any_nested_ind; cbn [stable normal]; intros H; try done; try (by apply Hz).
  - rewrite forallb_forall in *. intros y Hy%list_elem_of_In. apply list_elem_of_fmap in Hy as (x & -> & Hx).
    rewrite list.Forall_forall in IH. apply IH; [done|]. by apply H, list_elem_of_In.
  - apply andb_true_iff in H as [Hw%bool_decide_eq_true Hs]. apply andb_true_iff. split.
    + apply bool_decide_eq_true, wf_sorted16. unfold wf_map, mkeys in *. by rewrite <- list_fmap_compose.
    + rewrite forallb_forall in *. intros y Hy%list_elem_of_In.
      rewrite sorted16_perm_self in Hy. apply list_elem_of_fmap in Hy as (kv & -> & Hkv).
      rewrite list.Forall_forall in IH. apply IH; [done|]. by apply Hs, list_elem_of_In.
Qed.

(** Decoding canonical text and encoding the result gives the same text. *)
Lemma CanonicalJSON_roundtrip v text :
  CanonicalJSON v = inl text → stable v = true →
  unmarshal_value text = Some (normal v) ∧ CanonicalJSON (normal v) = inl text.
Proof.
  intros Hc Hs. split.
  - unfold unmarshal_value. rewrite (CanonicalJSON_document v text Hc) by (by apply stable_in_range).
    cbn. by apply unmarshal_canonical.
  - apply CanonicalJSON_ok in Hc as (Hv & He & ->). apply CanonicalJSON_ok.
    split; [by apply validate_normal|]. split; [by apply encodable_normal|]. symmetry. by eapply write_normal.
Qed.

(** ** Independence of the iteration order of maps *)

(** The same value with the members of its maps, at any depth, in another
    order. *)
Inductive reordered : any → any → Prop :=
  | reordered_refl v : reordered v v
  | reordered_list l l' : Forall2 reordered l l' → reordered (AList l) (AList l')
  | reordered_map m m' m'' :
      m ≡ₚ m' → Forall2 (λ a b, a.1 = b.1 ∧ reordered a.2 b.2) m' m'' → reordered (AMap m) (AMap m'').

(** The keys of every map are distinct: true of every Go value. *)
Fixpoint keyed (v : any) : bool :=
  match v with
  | AList l => forallb keyed l
  | AMap m => bool_decide (wf_map m) && forallb (λ kv, keyed kv.2) m
  | _ => true
  end.

Definition order_free (v : any) : Prop := ∀ w d,
  reordered v w → keyed v = true → validateCanonicalStrings v d = None → encodable v = true →
  validateCanonicalStrings w d = None ∧ encodable w = true ∧ writeCanonicalJSON w = writeCanonicalJSON v.

Lemma order_free_elems l l' d :
  Forall order_free l → Forall2 reordered l l' → forallb keyed l = true →
  check_all (λ x, validateCanonicalStrings x d) l = None → forallb encodable l = true →
  check_all (λ x, validateCanonicalStrings x d) l' = None ∧ forallb encodable l' = true ∧
  writeCanonicalJSON <$> l' = writeCanonicalJSON <$> l.
Proof.
  intros Hf H2. induction H2 as [|x y l l' Hxy H2 IH]; [done|]. apply list.Forall_cons in Hf as [Hx Hf].
  cbn [forallb check_all]. rewrite !andb_true_iff, !check_seq_None, !fmap_cons. intros [K K'] [V V'] [E E'].
  destruct (Hx y d Hxy K V E) as (? & ? & ->), (IH Hf K' V' E') as (? & ? & ->). done.
Qed.

Lemma order_free_members (m m' : gomap any) d :
  Forall (λ kv, order_free kv.2) m → Forall2 (λ a b, a.1 = b.1 ∧ reordered a.2 b.2) m m' →
  forallb (λ kv, keyed kv.2) m = true →
  check_all (λ kv : string * any, checkCanonicalString kv.1 ;;? validateCanonicalStrings kv.2 d) m = None →
  forallb (λ kv, encodable kv.2) m = true →
  check_all (λ kv : string * any, checkCanonicalString kv.1 ;;? validateCanonicalStrings kv.2 d) m' = None ∧
  forallb (λ kv, encodable kv.2) m' = true ∧
  (λ kv, (kv.1, writeCanonicalJSON kv.2)) <$> m' = (λ kv, (kv.1, writeCanonicalJSON kv.2)) <$> m.
Proof.
  intros Hf H2. induction H2 as [|[k x] [k' y] m m' [Hk Hxy] H2 IH]; [done|]. cbn in Hk. subst k'.
  apply list.Forall_cons in Hf as [Hx Hf]. cbn [snd] in Hx, Hxy. cbn [forallb check_all fst snd].
  rewrite !andb_true_iff, !check_seq_None, !fmap_cons. intros [K K'] [[V0 V] V'] [E E'].
  destruct (Hx y d Hxy K V E) as (? & ? & Hw), (IH Hf K' V' E') as (? & ? & ->). cbn [fst snd]. by rewrite Hw.
Qed.

Lemma order_free_all v : order_free v.
Proof.
  induction v as [| | | | | |l IH|m IH] using any_nested_ind; intros w d Hr; inversion Hr; subst; try done;
    intros K V E.
  - cbn in K, V, E. apply check_seq_None in V as [Vd V].
    destruct (order_free_elems l l' (d + 1)) as (V' & E' & W); [done..|]. cbn. by rewrite Vd, V', E', W.
  - pose proof V as V0. cbn in K, V, E. apply check_seq_None in V as [Vd V]. apply andb_true_iff in K as [Kw K].
    apply bool_decide_eq_true in Kw. pose proof (canonical_string_map _ _ V0 Kw) as Hg.
    destruct (order_free_members m' m'' (d + 1)) as (V' & E' & W).
    { match goal with H : m ≡ₚ m' |- _ => by rewrite <- H end. }
    { done. }
    { by eapply forallb_perm. }
    { by eapply check_all_perm. }
    { by eapply forallb_perm. }
    cbn. rewrite Vd, V', E'. split; [done|]. split; [done|].
    assert (∀ l : gomap any, sortMembersUTF16 ((λ kv, (kv.1, writeCanonicalJSON kv.2)) <$> l) =
      (λ kv, (kv.1, writeCanonicalJSON kv.2)) <$> sorted16 l) as Es.
    { intros l. unfold sortMembersUTF16. by rewrite (merge_sort_fmap key16_le member_le) by done. }
    rewrite W, !Es. by rewrite (sorted16_perm m m').
Qed.

(** The canonical text, and with it every digest, does not depend on the order in
    which Go iterates over its maps. *)
Lemma CanonicalJSON_reordered v w text :
  reordered v w → keyed v = true → CanonicalJSON v = inl text → CanonicalJSON w = inl text.
Proof.
  intros Hr K (V & E & ->)%CanonicalJSON_ok. apply CanonicalJSON_ok.
  by destruct (order_free_all v w 0 Hr K V E) as (? & ? & ->).
Qed.

(** ** The duplicate scan accepts canonical text *)

Lemma validate_shallower v : ∀ d d', d' <= d → validateCanonicalStrings v d = None → validateCanonicalStrings v d' = None.
Proof.
  induction v as [| | | | | |l IH|m IH] using any_nested_ind; intros d d' Hd; cbn [validateCanonicalStrings];
    rewrite !check_seq_None, !guard_None; intros [H1 H2]; (split; [apply Z.ltb_ge in H1; apply Z.ltb_ge; lia|]); try done.
  - rewrite check_all_None in *. intros x Hx. rewrite list.Forall_forall in IH. eapply IH; [done| |by apply H2]. lia.
  - rewrite check_all_None in *. intros kv Hkv. specialize (H2 kv Hkv). rewrite check_seq_None in *. destruct H2 as [H2 H3].
    split; [done|]. rewrite list.Forall_forall in IH. eapply IH; [done| |done]. lia.
Qed.

Lemma keyed_distinct v : keyed v = true → distinct_members (jtext_of v) = true.
Proof.
  induction v as [| | | | | |l IH|m IH] using any_nested_ind; cbn [keyed jtext_of distinct_members]; intros H; try done.
  - rewrite forallb_forall in *. intros y Hy%list_elem_of_In. apply list_elem_of_fmap in Hy as (x & -> & Hx).
    rewrite list.Forall_forall in IH. apply IH; [done|]. by apply H, list_elem_of_In.
  - apply andb_true_iff in H as [Hw%bool_decide_eq_true Hs]. apply andb_true_iff. split.
    + apply bool_decide_eq_true. apply (wf_sorted16 ((λ kv, (kv.1, jtext_of kv.2)) <$> m)). unfold wf_map, mkeys in *.
      by rewrite <- list_fmap_compose.
    + rewrite forallb_forall in *. intros y Hy%list_elem_of_In.
      rewrite sorted16_perm_self in Hy. apply list_elem_of_fmap in Hy as (kv & -> & Hkv).
      rewrite list.Forall_forall in IH. apply IH; [done|]. by apply Hs, list_elem_of_In.
Qed.

Lemma CanonicalJSON_Check_dups v text :
  CanonicalJSON v = inl text → numbers_in_range v = true → keyed v = true → Check_dups text = true.
Proof.
  intros (Hs & _ & ->)%CanonicalJSON_ok Hn Hk. set (text := writeCanonicalJSON v).
  assert (read_value (S (2 * String.length text)) (- Z.of_nat (String.length text)) text = Some (jtext_of v, "")) as Hr.
  { pose proof (read_value_canonical v (S (2 * String.length text)) (- Z.of_nat (String.length text)) "") as H.
    rewrite str_app_nil in H. apply H; [|done|done|unfold text; lia]. eapply validate_shallower; [|done]. lia. }
  rewrite (Check_dups_spec text [jtext_of v]).
  - cbn. by rewrite (keyed_distinct v Hk).
  - cbn [read_stream]. destruct (String.eqb_spec (skip_ws text) "") as [E|E].
    { cbn [read_value] in Hr. rewrite E in Hr. done. }
    rewrite Hr. cbn [mbind option_bind]. destruct (String.length text) as [|n] eqn:El; [|done].
    destruct text; [|done]. by destruct E.
Qed.

(** The canonical text of a document is determined by its tree. *)
Fixpoint render (j : jtext) : string :=
  match j with
  | JNull => "null"
  | JBool b => if b then "true" else "false"
  | JNum l => l
  | JStr s => writeCanonicalString s
  | JArr l => "[" +:+ Join "," (render <$> l) +:+ "]"
  | JObj m => "{" +:+ Join "," ((λ kv, writeCanonicalString kv.1 +:+ ":" +:+ render kv.2) <$> m) +:+ "}"
  end.

Lemma render_jtext v : render (jtext_of v) = writeCanonicalJSON v.
Proof.
  induction v as [| | | | | |l IH|m IH] using any_nested_ind; try done.
  - cbn. assert (render <$> (jtext_of <$> l) = writeCanonicalJSON <$> l) as ->; [|done].
    rewrite <- list_fmap_compose. apply list_fmap_ext. intros i x Hx%list_elem_of_lookup_2.
    rewrite list.Forall_forall in IH. by apply IH.
  - cbn. rewrite member_text_sorted, (sorted16_fmap jtext_of), <- list_fmap_compose.
    assert (∀ l, (∀ kv, kv ∈ l → kv ∈ m) →
      ((λ kv : string * jtext, writeCanonicalString kv.1 +:+ ":" +:+ render kv.2) ∘ (λ kv, (kv.1, jtext_of kv.2))) <$> l =
      member_text <$> l) as ->; [|done|by intros kv; rewrite sorted16_perm_self].
    intros l Hl. apply list_fmap_ext. intros i [k x] Hx%list_elem_of_lookup_2%Hl. unfold member_text. cbn.
    rewrite list.Forall_forall in IH. specialize (IH _ Hx). cbn in IH. by rewrite IH.
Qed.

Lemma jtext_write v w : jtext_of v = jtext_of w → writeCanonicalJSON v = writeCanonicalJSON w.
Proof. intros E. by rewrite <- !render_jtext, E. Qed.

Lemma AMap_text_eq (vs1 vs2 : gomap any) :
  (λ kv, (kv.1, writeCanonicalJSON kv.2)) <$> vs1 = (λ kv, (kv.1, writeCanonicalJSON kv.2)) <$> vs2 →
  writeCanonicalJSON (AMap vs1) = writeCanonicalJSON (AMap vs2).
Proof. cbn. by intros ->. Qed.

(** Every decoded document is such a value. *)
Lemma forallb_mset {A} (P : string * A → bool) k v m : P (k, v) = true → forallb P m = true → forallb P (mset k v m) = true.
Proof.
  intros Hv. induction m as [|[k' x] m IH]; cbn [mset forallb]; [by rewrite Hv|]. intros [Hx Hm]%andb_true_iff.
  destruct (String.eqb_spec k k') as [->|]; cbn [forallb]; [by rewrite Hv, Hm|by rewrite Hx, IH].
Qed.

Lemma unmarshal_any_stable j : ∀ v, unmarshal_any j = Some v → stable v = true.
Proof.
  induction j as [|b|l|s|l IH|m IH] using jtext_nested_ind; intros v; cbn [unmarshal_any]; intros E.
  1, 2, 4: by simplify_eq.
  - apply fmap_Some in E as (f & Hf & ->). cbn [stable canon_number]. by eapply ParseFloat_valid.
  - apply fmap_Some in E as (vs & Hvs & ->). cbn [stable]. revert vs Hvs.
    induction IH as [|x l Hx Hl IHl]; intros vs Hvs; [by simplify_eq|].
    apply bind_Some in Hvs as (y & Hy & (ys & Hys & E)%bind_Some). injection E as <-. cbn [forallb]. by rewrite (Hx y Hy), (IHl ys Hys).
  - apply fmap_Some in E as (vs & Hvs & ->). cbn [stable].
    cut (∀ acc, wf_map acc → forallb (λ kv, stable kv.2) acc = true →
      (fix go (acc : gomap any) (m : list (string * jtext)) : option (gomap any) :=
         match m with [] => Some acc | (k, x) :: m' => v ← unmarshal_any x; go (mset k v acc) m' end) acc m = Some vs →
      bool_decide (wf_map vs) && forallb (λ kv, stable kv.2) vs = true).
    { intros H. apply (H []); [constructor|done..]. }
    clear Hvs. induction IH as [|[k x] m Hx Hm IHm]; intros acc Hw Hs Hgo.
    { simplify_eq. by rewrite bool_decide_true, Hs. }
    apply bind_Some in Hgo as (y & Hy & Hgo). eapply IHm; [| |done]; [by apply wf_mset|].
    apply forallb_mset; [|done]. by apply Hx.
Qed.

Lemma stable_keyed v : stable v = true → keyed v = true.
Proof.
  induction v as [| | | | | |l IH|m IH] using any_nested_ind; cbn [stable keyed]; intros H; try done.
  - rewrite forallb_forall in *. intros x Hx. rewrite list.Forall_forall in IH. apply IH; [by apply list_elem_of_In|auto].
  - apply andb_true_iff in H as [Hw Hs]. rewrite Hw. cbn [andb]. rewrite forallb_forall in *. intros x Hx.
    rewrite list.Forall_forall in IH. apply IH; [by apply list_elem_of_In|auto].
Qed.

Lemma unmarshal_value_stable raw v : unmarshal_value raw = Some v → stable v = true.
Proof. unfold unmarshal_value. intros (j & _ & Hj)%bind_Some. by eapply unmarshal_any_stable. Qed.

(** C32: the canonical form is canonical.  The text of a value with distinct keys
    in its maps does not depend on the order in which Go iterates over them; for a
    value whose numbers are finite values of binary64, decoding the text gives the
    value in normal form (members in UTF-16 order, numbers as float64, zero without
    a sign), which has that same text; and every decoded JSON document is such a
    value. *)
Theorem canonical_form v w text :
  CanonicalJSON v = inl text →
  (reordered v w → keyed v = true → CanonicalJSON w = inl text) ∧
  (stable v = true → unmarshal_value text = Some (normal v) ∧ CanonicalJSON (normal v) = inl text) ∧
  (∀ raw, unmarshal_value raw = Some v → stable v = true ∧ keyed v = true).
Proof.
  intros H. split; [intros Hr K; by eapply CanonicalJSON_reordered|]. split; [intros Hs; by apply CanonicalJSON_roundtrip|].
  intros raw Hr%unmarshal_value_stable. split; [done|by apply stable_keyed].
Qed.

Definition w_tenth : any := AFloat (S754_finite false 7205759403792794 (-56)).
Definition w_value : any := AMap [("b", AList [AInt KInt 3; w_tenth; ANil]); ("a", AStr "x")].
Definition w_value' : any := AMap [("a", AStr "x"); ("b", AList [AInt KInt 3; w_tenth; ANil])].

Lemma canonical_form_witness :
  ∃ text, CanonicalJSON w_value = inl text ∧ CanonicalJSON w_value' = inl text ∧
    unmarshal_value text = Some (normal w_value).
Proof.
  destruct (CanonicalJSON w_value) as [text|] eqn:E; [|vm_compute in E; discriminate E]. exists text.
  destruct (canonical_form w_value w_value' text E) as (H1 & H2 & _). split; [reflexivity|]. split.
  - apply H1; [|vm_compute; reflexivity]. unfold w_value, w_value'. eapply reordered_map; [apply perm_swap|].
    repeat constructor.
  - apply H2. vm_compute. reflexivity.
Defined.
