(* ===== verification/GoTimeText.v ===== *)
(** * Formatting instants

    The text form [time.Time.MarshalJSON] writes (RFC 3339 with nanoseconds), and
    that [time.Time.UnmarshalJSON] reads a UTC instant back from it. *)

From S2P Require Import Prelude GoStrings GoFloat GoTime Json NumberText.

(** ** Civil dates *)

(** The year and the day of the year of a day number (days since 1 January of
    year 1). *)
Definition year_of (d : Z) : Z * Z :=
  let a := d / 146097 in let d1 := d mod 146097 in
  let b := Z.min 3 (d1 / 36524) in let d2 := d1 - 36524 * b in
  let c := d2 / 1461 in let d3 := d2 mod 1461 in
  let e := Z.min 3 (d3 / 365) in
  (400 * a + 100 * b + 4 * c + e + 1, d3 - 365 * e).

(** The month, counted from [m], that contains day [r]. *)
Fixpoint month_of (fuel : nat) (y m r : Z) : Z * Z :=
  match fuel with
  | O => (m, r)
  | S fuel' => if r <? daysIn m y then (m, r) else month_of fuel' y (m + 1) (r - daysIn m y)
  end.

Definition date_of (d : Z) : Z * Z * Z :=
  let '(y, r) := year_of d in let '(m, k) := month_of 11 y 1 r in (y, m, k + 1).

Definition civil_of (t : Time) (off : Z) : civil :=
  let l := t + off * Second in
  let secs := l / Second in
  let '(y, m, d) := date_of (secs / 86400) in
  let s := secs mod 86400 in
  mkCivil y m d (s / 3600) (s mod 3600 / 60) (s mod 60) (l mod Second) off.

(** ** The text *)

Definition digit_char (z : Z) : ascii := chr (48 + z).
Definition two (z : Z) : string := String (digit_char (z / 10)) (String (digit_char (z mod 10)) "").
Definition four (z : Z) : string := two (z / 100) +:+ two (z mod 100).
(** The [n] low decimal digits. *)
Fixpoint low_digits (n : nat) (z : Z) (acc : string) : string :=
  match n with O => acc | S n' => low_digits n' (z / 10) (String (digit_char (z mod 10)) acc) end.

Definition nanos_text (n : Z) : string :=
  if n =? 0 then "" else String "." (TrimRight "0" (low_digits 9 n "")).

Definition zone_text (off : Z) : string :=
  if off =? 0 then "Z"
  else let m := Z.abs off / 60 in String (if off <? 0 then "-"%char else "+"%char) (two (m / 60) +:+ ":" +:+ two (m mod 60)).

(** [appendStrictRFC3339]: years of four digits and zone hours below 24. *)
Definition time_text (t : Time) (off : Z) : option string :=
  let c := civil_of t off in
  if (cv_year c <? 0) || (9999 <? cv_year c) || (24 <=? Z.abs off / 3600) then None
  else Some (four (cv_year c) +:+ String "-" (two (cv_month c) +:+ String "-" (two (cv_day c) +:+
         String "T" (two (cv_hour c) +:+ String ":" (two (cv_min c) +:+ String ":" (two (cv_sec c) +:+
         nanos_text (cv_nsec c) +:+ zone_text off)))))).

(** [parseStrictRFC3339]: an hour of two digits, no comma before a fraction, a
    zone within its range.  [s] without its quotes. *)
Definition last2 (k : nat) (s : string) : Z :=
  match getnum true (sdrop (String.length s - k) s) with Some (z, _) => z | None => 0 end.
Definition strict_rfc3339 (s : string) : bool :=
  negb (Ascii.eqb (default "0"%char (String.get 12 s)) ":") &&
  negb (Ascii.eqb (default "0"%char (String.get 19 s)) ",") &&
  (HasSuffix s "Z" || ((last2 5 s <? 24) && (last2 2 s <? 60))).

Definition parse_strict (s : string) : option Time :=
  t ← rfc3339_time s; if strict_rfc3339 s then Some t else None.

Example time_text_samples :
  time_text 0 0 = Some "0001-01-01T00:00:00Z" ∧
  time_text (62135596800 * Second + 500) 0 = Some "1970-01-01T00:00:00.0000005Z" ∧
  time_text (63087463800 * Second) 1800 = Some "2000-03-01T00:00:00+00:30" ∧
  parse_strict "2000-03-01T0:20:00Z" = None.
Proof. vm_compute. done. Qed.

(** ** The calendar is inverted *)

Lemma year_of_spec d :
  let '(y, r) := year_of d in
  365 * (y - 1) + (y - 1) / 4 - (y - 1) / 100 + (y - 1) / 400 + r = d ∧
  0 <= r < (if is_leap y then 366 else 365).
Proof.
  unfold year_of. set (a := d / 146097). set (d1 := d mod 146097).
  set (b := Z.min 3 (d1 / 36524)). set (d2 := d1 - 36524 * b). set (c := d2 / 1461). set (d3 := d2 mod 1461).
  set (e := Z.min 3 (d3 / 365)).
  assert (d = 146097 * a + d1 ∧ 0 <= d1 < 146097) as [Ea Hd1] by (unfold a, d1; Z.to_euclidean_division_equations; lia).
  assert (0 <= b <= 3 ∧ 0 <= d2 ∧ (b < 3 → d2 < 36524) ∧ (b = 3 → d2 < 36525)) as (Hb & Hd2 & Hd2' & Hd2'')
    by (unfold d2, b; clear -Hd1; Z.to_euclidean_division_equations; lia).
  assert (d2 = 1461 * c + d3 ∧ 0 <= d3 < 1461 ∧ 0 <= c <= 24) as (Ec & Hd3 & Hc)
    by (unfold c, d3; clear -Hd2 Hd2' Hd2'' Hb; Z.to_euclidean_division_equations; lia).
  assert (0 <= e <= 3 ∧ 0 <= d3 - 365 * e ∧ (e < 3 → d3 - 365 * e < 365) ∧ d3 - 365 * e < 366) as (He & Hr & Hr' & Hr'')
    by (unfold e; clear -Hd3; Z.to_euclidean_division_equations; lia).
  assert (d1 = 36524 * b + d2) as E1 by (unfold d2; lia). clearbody a d1 b d2 c d3 e.
  set (y := 400 * a + 100 * b + 4 * c + e + 1).
  assert ((y - 1) / 4 = 100 * a + 25 * b + c ∧ (y - 1) / 100 = 4 * a + b ∧ (y - 1) / 400 = a) as (-> & -> & ->)
    by (unfold y; clear -Hb Hc He; Z.to_euclidean_division_equations; lia).
  split; [unfold y; lia|]. split; [done|]. destruct (is_leap y) eqn:El; [lia|].
  destruct (Z.eq_dec e 3) as [E3|]; [|lia]. unfold is_leap in El.
  assert (y mod 4 = 0 ∧ (y mod 100 = 0 ↔ c = 24) ∧ (y mod 400 = 0 ↔ c = 24 ∧ b = 3)) as (E4 & E100 & E400)
    by (unfold y; clear -Hb Hc E3; Z.to_euclidean_division_equations; lia).
  rewrite E4 in El. cbn [Z.eqb andb] in El. apply orb_false_iff in El as [El1 El2]. lia.
Qed.

(** The lengths of the months. *)
Lemma month_lengths y :
  daysIn 1 y = 31 ∧ daysIn 2 y = (if is_leap y then 29 else 28) ∧ daysIn 3 y = 31 ∧ daysIn 4 y = 30 ∧
  daysIn 5 y = 31 ∧ daysIn 6 y = 30 ∧ daysIn 7 y = 31 ∧ daysIn 8 y = 31 ∧ daysIn 9 y = 30 ∧ daysIn 10 y = 31 ∧
  daysIn 11 y = 30 ∧ daysIn 12 y = 31.
Proof. repeat split. Qed.

Lemma month_starts y :
  let f := if is_leap y then 29 else 28 in
  days_before_month 1 y = 0 ∧ days_before_month 2 y = 31 ∧ days_before_month 3 y = 31 + f ∧
  days_before_month 4 y = 62 + f ∧ days_before_month 5 y = 92 + f ∧ days_before_month 6 y = 123 + f ∧
  days_before_month 7 y = 153 + f ∧ days_before_month 8 y = 184 + f ∧ days_before_month 9 y = 215 + f ∧
  days_before_month 10 y = 245 + f ∧ days_before_month 11 y = 276 + f ∧ days_before_month 12 y = 306 + f.
Proof. unfold days_before_month. cbn. unfold daysIn. cbn. destruct (is_leap y); repeat split. Qed.

Lemma month_of_spec y r :
  0 <= r < (if is_leap y then 366 else 365) →
  let '(m, k) := month_of 11 y 1 r in
  1 <= m <= 12 ∧ 0 <= k < daysIn m y ∧ days_before_month m y + k = r.
Proof.
  intros Hr. destruct (month_lengths y) as (M1 & M2 & M3 & M4 & M5 & M6 & M7 & M8 & M9 & M10 & M11 & M12).
  destruct (month_starts y) as (S1 & S2 & S3 & S4 & S5 & S6 & S7 & S8 & S9 & S10 & S11 & S12). cbn [month_of].
  change (1 + 1) with 2. change (2 + 1) with 3. change (3 + 1) with 4. change (4 + 1) with 5. change (5 + 1) with 6.
  change (6 + 1) with 7. change (7 + 1) with 8. change (8 + 1) with 9. change (9 + 1) with 10. change (10 + 1) with 11.
  change (11 + 1) with 12.
  repeat match goal with |- context [if ?r' <? daysIn ?m y then _ else _] =>
    destruct (Z.ltb_spec r' (daysIn m y)) end;
    rewrite ?M1, ?M2, ?M3, ?M4, ?M5, ?M6, ?M7, ?M8, ?M9, ?M10, ?M11, ?M12 in *;
    rewrite ?S1, ?S2, ?S3, ?S4, ?S5, ?S6, ?S7, ?S8, ?S9, ?S10, ?S11, ?S12;
    destruct (is_leap y); lia.
Qed.

Lemma date_of_spec d :
  let '(y, m, k) := date_of d in
  days_to y m k = d ∧ 1 <= m <= 12 ∧ 1 <= k <= daysIn m y.
Proof.
  unfold date_of, days_to. pose proof (year_of_spec d) as Hy. destruct (year_of d) as [y r]. destruct Hy as [Hy Hr].
  pose proof (month_of_spec y r Hr) as Hm. destruct (month_of 11 y 1 r) as [m k]. lia.
Qed.

(** ** The text is read back *)

Lemma code_digit z : 0 <= z < 10 → code (digit_char z) = 48 + z.
Proof.
  intros H. assert (z ∈ [0; 1; 2; 3; 4; 5; 6; 7; 8; 9]) as Hin by (rewrite !elem_of_cons; lia).
  repeat (apply elem_of_cons in Hin as [->|Hin]; [reflexivity|]). by apply not_elem_of_nil in Hin.
Qed.

Lemma digit_char_digit z : 0 <= z < 10 → is_digit (digit_char z) = true.
Proof. intros H. unfold is_digit, in_range. rewrite code_digit by done. lia. Qed.

Lemma digit_of_char z : 0 <= z < 10 → digit_of (digit_char z) = Some z.
Proof. intros H. unfold digit_of. rewrite digit_char_digit, code_digit by done. f_equal. lia. Qed.

Lemma getnum_two fixed z rest : 0 <= z < 100 → getnum fixed (two z +:+ rest) = Some (z, rest).
Proof.
  intros H. unfold two. rewrite !append_cons. cbn [getnum].
  rewrite !digit_of_char by (Z.to_euclidean_division_equations; lia). cbn [mbind option_bind].
  do 2 f_equal. Z.to_euclidean_division_equations. lia.
Qed.

Lemma getyear_four y rest : 0 <= y < 10000 → getyear (four y +:+ rest) = Some (y, rest).
Proof.
  intros H. unfold getyear, four. rewrite <- str_app_assoc, getnum_two by (Z.to_euclidean_division_equations; lia).
  cbn [mbind option_bind]. rewrite getnum_two by (Z.to_euclidean_division_equations; lia).
  cbn [mbind option_bind]. do 2 f_equal. Z.to_euclidean_division_equations. lia.
Qed.

Lemma TrimRight_zeros s : ∃ n, s = TrimRight "0" s +:+ repeat_char "0" n.
Proof.
  induction s as [|c s [n IH]]; [by exists O|]. cbn [TrimRight].
  destruct (TrimRight "0" s) as [|d t] eqn:E.
  - destruct (Ascii.eqb_spec "0" c) as [<-|]; [|exists n; by rewrite append_cons, <- IH].
    exists (S n). change ("" +:+ ?x) with x in *. cbn. by rewrite <- IH.
  - exists n. by rewrite append_cons, <- IH.
Qed.

Lemma low_digits_acc n : ∀ z acc, low_digits n z acc = low_digits n z "" +:+ acc.
Proof.
  induction n as [|n IH]; intros z acc; [done|]. cbn [low_digits].
  rewrite (IH _ (String _ acc)), (IH _ (String _ "")), <- str_app_assoc. done.
Qed.

Lemma low_digits_spec n : ∀ z, 0 <= z < 10 ^ Z.of_nat n →
  all_digits (low_digits n z "") ∧ String.length (low_digits n z "") = n ∧ digits_val 0 (low_digits n z "") = z.
Proof.
  induction n as [|n IH]; intros z Hz; [cbn in *; split; [done|]; split; [done|lia]|].
  rewrite Nat2Z.inj_succ, Z.pow_succ_r in Hz by lia. cbn [low_digits].
  rewrite low_digits_acc. destruct (IH (z / 10)) as (Hd & Hl & Hv); [Z.to_euclidean_division_equations; lia|].
  rewrite all_digits_app, str_length_app, digits_val_app, Hl, Hv.
  assert (0 <= z mod 10 < 10) as Hm by (apply Z.mod_pos_bound; lia). split; [split; [done|]|split].
  - unfold all_digits. cbn [str_forallb]. by rewrite digit_char_digit.
  - cbn. lia.
  - cbn [digits_val]. rewrite code_digit by done. Z.to_euclidean_division_equations. lia.
Qed.

Lemma stake_all n s : (String.length s <= n)%nat → stake n s = s.
Proof.
  revert n. induction s as [|c s IH]; intros [|n] H; cbn in *; try done; [lia|]. by rewrite IH by lia.
Qed.

(** The fraction of a second, followed by the zone designator. *)
Lemma fraction_nanos n : 0 <= n < Second → fraction (nanos_text n +:+ "Z") = (n, "Z").
Proof.
  intros Hn. unfold nanos_text. destruct (Z.eqb_spec n 0) as [->|Hne]; [reflexivity|].
  destruct (low_digits_spec 9 n Hn) as (Hd & Hl & Hv). destruct (TrimRight_zeros (low_digits 9 n "")) as [k Hk].
  set (s := TrimRight "0" (low_digits 9 n "")) in *. rewrite Hk in Hd, Hl, Hv.
  apply all_digits_app in Hd as [Hd _]. rewrite str_length_app in Hl. rewrite digits_val_app, digits_val_zeros in Hv.
  assert (String.length (repeat_char "0" k) = k) as Ek by (clear; induction k; cbn; congruence). rewrite Ek in Hl.
  clearbody s. destruct s as [|c s]; [cbn in Hv; lia|].
  assert (is_digit c = true) as Hc by (unfold all_digits in Hd; cbn in Hd; by go_bool).
  unfold fraction. rewrite !append_cons. cbn [Ascii.eqb orb eqb andb]. rewrite Hc. cbn [andb].
  change (String c (s +:+ "Z")) with (String c s +:+ String "Z" ""). rewrite take_digits_stop by done.
  rewrite stake_all by lia. f_equal. rewrite <- Hv. do 2 f_equal. lia.
Qed.

(** A UTC instant of the years 0 to 9999. *)
Definition in_calendar (t : Time) : Prop := 0 <= cv_year (civil_of t 0) <= 9999.

Lemma civil_of_spec t :
  in_calendar t →
  let c := civil_of t 0 in
  0 <= cv_year c <= 9999 ∧ 1 <= cv_month c <= 12 ∧ 1 <= cv_day c <= daysIn (cv_month c) (cv_year c) ∧
  0 <= cv_hour c < 24 ∧ 0 <= cv_min c < 60 ∧ 0 <= cv_sec c < 60 ∧ 0 <= cv_nsec c < Second ∧
  (days_to (cv_year c) (cv_month c) (cv_day c) * 86400 + cv_hour c * 3600 + cv_min c * 60 + cv_sec c - 0) * Second
    + cv_nsec c = t.
Proof.
  unfold in_calendar, civil_of. rewrite Z.mul_0_l, Z.add_0_r. set (secs := t / Second).
  pose proof (date_of_spec (secs / 86400)) as Hd.
  unfold date_of in *. destruct (year_of (secs / 86400)) as [y r]. destruct (month_of 11 y 1 r) as [m k].
  cbn [cv_year cv_month cv_day cv_hour cv_min cv_sec cv_nsec]. intros Hyear. destruct Hd as (Hdays & Hm & Hk).
  split; [done|]. split; [done|]. split; [lia|]. rewrite Hdays. unfold secs, Second in *. clear.
  Z.to_euclidean_division_equations. lia.
Qed.

Lemma HasSuffix_end u v : HasSuffix (u +:+ v) v = true.
Proof.
  unfold HasSuffix. rewrite str_length_app, andb_true_iff, Nat.leb_le, String.eqb_eq. split; [lia|].
  replace (String.length u + String.length v - String.length v)%nat with (String.length u) by lia. apply sdrop_app.
Qed.

(** A UTC instant of the years 0 to 9999 is read back from its text. *)
Lemma time_text_roundtrip t :
  in_calendar t → ∃ s c, time_text t 0 = Some s ∧ parse_strict s = Some t ∧
    HasSuffix s "Z" = true ∧ parse_rfc3339 s = Some c ∧ cv_off c = 0.
Proof.
  intros Hcal. pose proof (civil_of_spec t Hcal) as H. cbv zeta in H.
  destruct H as (Hy & Hm & Hd & Hh & Hmi & Hs & Hn & Ht).
  unfold time_text. cbv zeta. rewrite (proj2 (Z.ltb_ge _ 0)), (proj2 (Z.ltb_ge 9999 _)) by lia.
  cbn [orb]. change (24 <=? Z.abs 0 / 3600) with false. cbv iota.
  eexists _, (civil_of t 0). split; [reflexivity|].
  assert (cv_off (civil_of t 0) = 0) as Hoff by (unfold civil_of; by repeat case_match).
  set (c := civil_of t 0) in *. clearbody c. change (zone_text 0) with "Z".
  assert (parse_rfc3339 (four (cv_year c) +:+ String "-" (two (cv_month c) +:+ String "-" (two (cv_day c) +:+
    String "T" (two (cv_hour c) +:+ String ":" (two (cv_min c) +:+ String ":" (two (cv_sec c) +:+
    nanos_text (cv_nsec c) +:+ "Z")))))) =
    Some (mkCivil (cv_year c) (cv_month c) (cv_day c) (cv_hour c) (cv_min c) (cv_sec c) (cv_nsec c) 0)) as Hp.
  { assert (daysIn (cv_month c) (cv_year c) <= 31) by (unfold daysIn; repeat case_match; lia).
    unfold parse_rfc3339. rewrite getyear_four by lia. cbn [mbind option_bind skip_char]. rewrite Ascii.eqb_refl.
    cbn [mbind option_bind]. rewrite getnum_two by lia. cbn [mbind option_bind].
    rewrite (proj2 (Z.ltb_ge _ 1)), (proj2 (Z.ltb_ge 12 _)) by lia. cbn [orb mbind option_bind skip_char].
    rewrite Ascii.eqb_refl. cbn [mbind option_bind]. rewrite getnum_two by lia. cbn [mbind option_bind skip_char].
    rewrite Ascii.eqb_refl. cbn [mbind option_bind]. rewrite getnum_two by lia. cbn [mbind option_bind].
    rewrite (proj2 (Z.leb_gt 24 _)) by lia. cbn [mbind option_bind skip_char]. rewrite Ascii.eqb_refl.
    cbn [mbind option_bind]. rewrite getnum_two by lia. cbn [mbind option_bind].
    rewrite (proj2 (Z.leb_gt 60 _)) by lia. cbn [mbind option_bind skip_char]. rewrite Ascii.eqb_refl.
    cbn [mbind option_bind]. rewrite getnum_two by lia. cbn [mbind option_bind].
    rewrite (proj2 (Z.leb_gt 60 _)) by lia. rewrite fraction_nanos by done.
    change (zone_offset "Z") with (Some (0, "")). cbn [mbind option_bind]. change (String.eqb "" "") with true.
    cbn [negb]. by rewrite (proj2 (Z.ltb_ge _ 1)), (proj2 (Z.ltb_ge (daysIn _ _) _)) by lia. }
  unfold parse_strict, rfc3339_time. rewrite Hp. cbn [mbind option_bind cv_year cv_month cv_day cv_hour cv_min cv_sec cv_nsec cv_off].
  rewrite Ht. set (s := _ +:+ _) in *.
  assert (HasSuffix s "Z" = true) as Hz.
  { assert (s = (four (cv_year c) +:+ String "-" (two (cv_month c) +:+ String "-" (two (cv_day c) +:+
      String "T" (two (cv_hour c) +:+ String ":" (two (cv_min c) +:+ String ":" (two (cv_sec c) +:+
      nanos_text (cv_nsec c))))))) +:+ "Z") as ->; [|apply HasSuffix_end].
    unfold s. by repeat (rewrite <- str_app_assoc || rewrite append_cons). }
  split; [|split; [done|]; split; [|done]; destruct c; cbn in *; by subst].
  assert (strict_rfc3339 s = true) as ->; [|done]. unfold strict_rfc3339. rewrite Hz. cbn [orb]. rewrite andb_true_r.
  assert (String.get 12 s = Some (digit_char (cv_hour c mod 10))) as -> by reflexivity.
  assert (∃ ch, String.get 19 s = Some ch ∧ Ascii.eqb ch "," = false) as (ch & -> & Hch).
  { unfold s, nanos_text. destruct (cv_nsec c =? 0); by eexists. }
  cbn [default]. unfold default. cbn [id]. rewrite Hch, andb_true_r. apply negb_true_iff, Ascii.eqb_neq. intros E.
  apply (f_equal code) in E. rewrite code_digit in E by (apply Z.mod_pos_bound; lia).
  change (code ":") with 58 in E. pose proof (Z.mod_pos_bound (cv_hour c) 10). lia.
Qed.
