(* ===== verification/Grants.v ===== *)
(** * Grants, operations and decisions

    The data types of semantics/semantics.go and the scheme-default rule. *)

From S2P Require Import Prelude GoStrings GoFloat Json Ids Values Bounds.

(** A nil Go map is [None]; an empty one is [Some []]. *)
Record Grant := mkGrant {
  g_id : string;
  g_params : option (gomap any);
  g_bounds : option (gomap any);
  g_constraints : list string
}.

Record Operation := mkOp {
  op_id : string;
  op_params : option (gomap any)
}.

Inductive Verdict := VerdictAllow | VerdictDeny | VerdictAllowUR | VerdictOther (s : string).

Record Decision := mkDecision {
  d_verdict : Verdict;
  d_reason : string;
  d_unresolved : list string
}.

#[global] Instance Verdict_eq_dec : EqDecision Verdict.
Proof. solve_decision. Defined.
#[global] Instance Decision_eq_dec : EqDecision Decision.
Proof. solve_decision. Defined.

Definition deny (reason : string) : Decision := mkDecision VerdictDeny reason [].
Definition allow : Decision := mkDecision VerdictAllow "" [].
Definition allowUR (unresolved : list string) : Decision := mkDecision VerdictAllowUR "" unresolved.

(** A verdict under which the consumer may act, possibly with obligations. *)
Definition admits (d : Decision) : bool :=
  match d_verdict d with VerdictAllow | VerdictAllowUR => true | _ => false end.

(** The entries of a map that may be nil. *)
Definition entries {A} (m : option (gomap A)) : gomap A := default [] m.
Definition mlen {A} (m : option (gomap A)) : nat := length (entries m).

(** [grantDeclaredKeys]: keys(params) and keys(param_bounds). *)
Definition grantDeclares (g : Grant) (k : string) : bool :=
  mhas k (entries (g_params g)) || mhas k (entries (g_bounds g)).

(** The injection loop of [MaterializeDefaults]: the merged parameters and
    whether any default was injected. *)
Definition inject_default (g : Grant) (st : gomap any * bool) (kv : string * any) : gomap any * bool :=
  let '(merged, injected) := st in
  if negb (grantDeclares g kv.1) then st
  else if mhas kv.1 merged then st else (mset kv.1 kv.2 merged, true).

Definition MaterializeDefaults (grant : Grant) (op : Operation) (defaults : gomap any) : Operation :=
  match defaults with
  | [] => op
  | _ =>
      let '(merged, injected) :=
        fold_left (inject_default grant) defaults (entries (op_params op), false) in
      if injected then mkOp (op_id op) (Some merged) else op
  end.

(** ** Defaults never override and never add an undeclared key *)

Lemma inject_default_get g st kv k :
  mget k (inject_default g st kv).1 =
  match mget k st.1 with
  | Some v => Some v
  | None => if String.eqb k kv.1 && grantDeclares g kv.1 then Some kv.2 else None
  end.
Proof.
  destruct st as [merged inj], kv as [k0 v0]. unfold inject_default. simpl.
  destruct (grantDeclares g k0) eqn:Ed; simpl.
  - destruct (mhas k0 merged) eqn:Eh; simpl.
    + destruct (mget k merged) eqn:E; [done|]. destruct (String.eqb_spec k k0) as [->|]; [|done].
      unfold mhas in Eh. by rewrite E in Eh.
    + rewrite mget_mset. unfold mhas in Eh. destruct (String.eqb_spec k k0) as [->|].
      * by destruct (mget k0 merged).
      * simpl. by destruct (mget k merged).
  - rewrite andb_false_r. by destruct (mget k merged).
Qed.

Lemma inject_fold_get g ds st k :
  mget k (fold_left (inject_default g) ds st).1 =
  match mget k st.1 with
  | Some v => Some v
  | None => if grantDeclares g k then mget k ds else None
  end.
Proof.
  revert st. induction ds as [|[k0 v0] ds IH]; intros st; simpl.
  - destruct (mget k st.1); [done|]. by destruct (grantDeclares g k).
  - rewrite IH, inject_default_get. simpl. destruct (mget k st.1); [done|].
    destruct (String.eqb_spec k k0) as [->|]; simpl; [|by destruct (grantDeclares g k)].
    by destruct (grantDeclares g k0).
Qed.

Lemma inject_fold_flag g ds st :
  (fold_left (inject_default g) ds st).2 = false → (fold_left (inject_default g) ds st).1 = st.1.
Proof.
  assert (∀ ds st, st.2 = true → (fold_left (inject_default g) ds st).2 = true) as Hmono.
  { clear. induction ds as [|kv ds IH]; intros st H; [done|]. apply IH.
    destruct st. unfold inject_default. simpl in *. by repeat case_match. }
  revert st. induction ds as [|kv ds IH]; intros st H; [done|]. simpl in *.
  rewrite IH by done. destruct st as [merged inj]. unfold inject_default in *.
  repeat case_match; simplify_eq/=; try done. rewrite Hmono in H; done.
Qed.

(** Scheme defaults never override an explicit parameter and never add a key
    the grant does not declare: after materialisation a parameter has its explicit
    value, else the default of a declared key, else it is absent. *)
Lemma MaterializeDefaults_get g op ds k :
  mget k (entries (op_params (MaterializeDefaults g op ds))) =
  match mget k (entries (op_params op)) with
  | Some v => Some v
  | None => if grantDeclares g k then mget k ds else None
  end.
Proof.
  destruct ds as [|kv ds].
  { simpl. destruct (mget k (entries (op_params op))); [done|]. by destruct (grantDeclares g k). }
  remember (kv :: ds) as dl eqn:E. unfold MaterializeDefaults. rewrite E at 1.
  pose proof (inject_fold_get g dl (entries (op_params op), false) k) as H.
  pose proof (inject_fold_flag g dl (entries (op_params op), false)) as Hf.
  destruct (fold_left (inject_default g) dl (entries (op_params op), false)) as [merged inj].
  simpl in *. destruct inj; [done|]. by rewrite Hf in H by done.
Qed.
