(* ===== verification/Constraints.v ===== *)
(** * Constraints

    The constraint grammar and its core evaluator from semantics/semantics.go:
    identities, the max_rows ceiling, daily time windows and CIDR lists. *)

From Stdlib Require Import Floats.SpecFloat.
From S2P Require Import Prelude GoStrings Regex GoFloat Json Canonical Ids Values Bounds.
From S2P Require Import JsonText Grants.

Definition reservedScheme : string := "varwof/constraint-v1".
Definition reservedMaxRows : string := reservedScheme +:+ ":max_rows".
Definition reservedTimeWin : string := reservedScheme +:+ ":time".
Definition reservedNetCIDR : string := reservedScheme +:+ ":network".

Definition recognizedConstraintIdentities (id : string) : bool :=
  String.eqb id reservedMaxRows || String.eqb id reservedTimeWin || String.eqb id reservedNetCIDR.

Definition nth_part (parts : list string) (i : nat) : string := default "" (parts !! i).
Definition identity_of (parts : list string) : string := nth_part parts 0 +:+ ":" +:+ nth_part parts 1.

Definition isStrictJSONInteger (s : string) : bool :=
  match s with
  | EmptyString => false
  | String c s' =>
      negb (Ascii.eqb c "0" && negb (String.eqb s' "")) && str_forallb is_digit s
  end.

(** [exceedsIJSONIntegerBound]: an integer-valued literal above 2^53-1. *)
Definition exceedsIJSONIntegerBound (l : string) : bool :=
  match read_decimal l with
  | None => false
  | Some d =>
      if d_mant d =? 0 then false
      else if 0 <=? d_exp d then
        (20 <? num_digits10 (d_mant d) + d_exp d) || (ijsonMaxInteger <? d_mant d * 10 ^ d_exp d)
      else (d_mant d mod 10 ^ (- d_exp d) =? 0) && (ijsonMaxInteger <? d_mant d / 10 ^ (- d_exp d))
  end.

(** [constraintParams]: everything after [scheme:type:]. *)
Definition constraintParams (c : string) : string :=
  let parts := Split colon c in
  if (length parts <? 3)%nat then "" else Join colon (drop 2 parts).

(** ** Time windows *)

Definition maxTimeWindows : nat := 32.

(** HH:MM with optional seconds; the hour may have one digit. *)
Definition timeOfDayRE : re :=
  let d05 := Chr (in_range 48 53) in
  let hour := Alt (Cat (Opt (Chr (in_range 48 49))) digit) (Cat (lit "2") (Chr (in_range 48 51))) in
  Cat hour (Cat (lit ":") (Cat d05 (Cat digit (Opt (Cat (lit ":") (Cat d05 digit)))))).

(** [secondsOfDay] of a string that matches [timeOfDayRE]. *)
Definition secondsOfDay (t : string) : Z :=
  let parts := Split colon t in
  let h := digits_val 0 (nth_part parts 0) in
  let m := digits_val 0 (nth_part parts 1) in
  let s := if (length parts =? 3)%nat then digits_val 0 (nth_part parts 2) else 0 in
  h * 3600 + m * 60 + s.

(** The end "00:00" is reserved for the next midnight. *)
Definition end_sod (e : string) : Z := if String.eqb e "00:00" then 86400 else secondsOfDay e.

(** The segment loop of [validTimeWindowJSON]. *)
Fixpoint valid_segments (prevEnd : Z) (segs : list (gomap jtext)) : bool :=
  match segs with
  | [] => true
  | s :: rest =>
      (length s =? 2)%nat &&
      match mget "start" s, mget "end" s with
      | Some startRaw, Some endRaw =>
          match into_string startRaw, into_string endRaw with
          | Some start, Some end_ =>
              matches timeOfDayRE start && matches timeOfDayRE end_ &&
              (let startSod := secondsOfDay start in
               let endSod := end_sod end_ in
               negb (endSod <=? startSod) &&
               negb (String.eqb start "00:00" && String.eqb end_ "00:00") &&
               negb ((0 <=? prevEnd) && (startSod <? prevEnd)) &&
               valid_segments endSod rest)
          | _, _ => false
          end
      | _, _ => false
      end
  end.

Definition validTimeWindowJSON (raw : string) : bool :=
  let trimmed := TrimSpace raw in
  HasPrefix trimmed "[" &&
  match j ← read_document trimmed; into_list into_raw_map j with
  | Some segs =>
      negb (length segs =? 0)%nat && (length segs <=? maxTimeWindows)%nat && valid_segments (-1) segs
  | None => false
  end.

(** ** CIDR lists *)

Definition maxCIDRList : nat := 32.

Definition ipv4CIDRRE : re :=
  let d13 := Cat digit (Cat (Opt digit) (Opt digit)) in
  let octet := Cat d13 (lit ".") in
  Cat octet (Cat octet (Cat octet (Cat d13 (Cat (lit "/")
    (Alt digit (Alt (Cat (Chr (in_range 49 50)) digit) (Cat (lit "3") (Chr (in_range 48 50))))))))).
Definition ipv6ShapeRE : re :=
  Plus (Chr (λ c, is_digit c || in_range 97 102 c || in_range 65 70 c || Ascii.eqb c ":")).

Definition validIPv4Octets (ip : string) : bool :=
  forallb (λ p, let '(n, ok) := Atoi p in ok && negb (n <? 0) && negb (255 <? n)) (Split "." ip).

Definition validCIDRString (s : string) : bool :=
  match LastIndexByte "/" s with
  | None => false
  | Some slash =>
      if (slash =? 0)%nat || (S slash =? String.length s)%nat then false
      else
        let ipPart := stake slash s in
        let prefix := sdrop (S slash) s in
        if negb (isStrictJSONInteger prefix) then false
        else
          let '(mask, ok) := Atoi prefix in
          if negb ok || (mask <? 0) || (128 <? mask) then false
          else if contains_char ":" ipPart then
            matches ipv6ShapeRE ipPart && negb (HasSuffix ipPart ":" && negb (HasSuffix ipPart "::"))
          else if 32 <? mask then false
          else matches ipv4CIDRRE s && validIPv4Octets ipPart
  end.

Definition validCIDRListJSON (raw : string) : bool :=
  let trimmed := TrimSpace raw in
  HasPrefix trimmed "[" &&
  match j ← read_document trimmed; into_list into_string j with
  | Some l => negb (length l =? 0)%nat && (length l <=? maxCIDRList)%nat && forallb validCIDRString l
  | None => false
  end.

(** ** Validation and evaluation *)

Definition ValidateConstraint (c : string) : check :=
  let parts := Split colon c in
  let bad := wrap ErrInvalidConstraint c in
  guard (length parts <? 2)%nat ErrUnknownConstraint ;;?
  guard (negb (recognizedConstraintIdentities (identity_of parts))) ErrUnknownConstraint ;;?
  let ty := nth_part parts 1 in
  if String.eqb ty "max_rows" then
    guard (negb (length parts =? 3)%nat || negb (isStrictJSONInteger (nth_part parts 2))) bad ;;?
    guard (exceedsIJSONIntegerBound (nth_part parts 2)) bad
  else if String.eqb ty "time" then
    let joined := constraintParams c in
    guard (negb (HasPrefix joined "window:") ||
           negb (validTimeWindowJSON (TrimPrefix joined "window:"))) bad
  else if String.eqb ty "network" then
    let joined := constraintParams c in
    guard (negb (HasPrefix joined "cidr:") ||
           negb (validCIDRListJSON (TrimPrefix joined "cidr:"))) bad
  else None.

Definition violated : error := "max_rows:violated".

Definition CheckConstraint (c : string) (op : Operation) : check :=
  let parts := Split colon c in
  if (length parts <? 3)%nat then None
  else if negb (recognizedConstraintIdentities (identity_of parts)) then None
  else if String.eqb (nth_part parts 1) "max_rows" then
    if negb (length parts =? 3)%nat || negb (isStrictJSONInteger (nth_part parts 2)) then None
    else
      let maxVal := (Atoi (nth_part parts 2)).1 in
      match mget "max_rows" (entries (op_params op)) with
      | None => Some violated
      | Some rowsAny =>
          match numericValue rowsAny with
          | None => Some violated
          | Some rows =>
              guard (IsNaN rows || IsInf rows || negb (feq rows (Trunc rows)) || flt rows fzero) violated ;;?
              guard (fgt rows (of_Z maxVal)) violated
          end
      end
  else None.

Definition coreEvaluatesConstraint (c : string) : bool :=
  let parts := Split colon c in
  if (length parts <? 2)%nat then false
  else if negb (String.eqb (nth_part parts 0) reservedScheme) ||
          negb (recognizedConstraintIdentities (identity_of parts)) then false
  else String.eqb (nth_part parts 1) "max_rows".

(** [isParamsLevelReason]: which refusals an aggregate reports as such. *)
Definition paramsLevelPrefixes : list string :=
  [ErrParamsMissing; ErrParamsUndeclared; ErrParamsExceedGrant; ErrEmptyBoundDenies; ErrNotInEnum;
   ErrInvalidParamsNull; ErrInvalidParamsDupKey; ErrInvalidParamsNumber; ErrInvalidParamsSize;
   ErrUnsupportedLangRev; ErrParamsCardinality; ErrParamsOutOfRange; ErrParamsNotMultiple;
   ErrInvalidParamsBinding].
Definition isParamsLevelReason (reason : string) : bool :=
  existsb (HasPrefix reason) paramsLevelPrefixes.

(** ** Examples *)

Definition window_json (s e : string) : string :=
  "{" +:+ quoted "start" +:+ ":" +:+ quoted s +:+ "," +:+ quoted "end" +:+ ":" +:+ quoted e +:+ "}".

Example time_ok :
  ValidateConstraint ("varwof/constraint-v1:time:window:[" +:+ window_json "09:00" "17:30" +:+ ","
                      +:+ window_json "22:00" "00:00" +:+ "]") = None.
Proof. vm_compute. reflexivity. Qed.
Example time_overlap :
  ValidateConstraint ("varwof/constraint-v1:time:window:[" +:+ window_json "09:00" "17:30" +:+ ","
                      +:+ window_json "17:00" "18:00" +:+ "]") ≠ None.
Proof. vm_compute. discriminate. Qed.
Example cidr_ok :
  ValidateConstraint ("varwof/constraint-v1:network:cidr:[" +:+ quoted "10.0.0.0/8" +:+ ","
                      +:+ quoted "fe80::/10" +:+ "]") = None.
Proof. vm_compute. reflexivity. Qed.
Example rows_bound :
  ValidateConstraint "varwof/constraint-v1:max_rows:9007199254740992" ≠ None.
Proof. vm_compute. discriminate. Qed.
