(* ===== verification/Ceilings.v ===== *)
(** * What the core constraints bound

    The theorems on the constraint evaluator of semantics/semantics.go: the
    row ceiling is exact on integers, and an accepted list of daily time windows
    is ascending, disjoint and within one day. *)

From Stdlib Require Import Floats.SpecFloat.
From S2P Require Import Prelude GoStrings Regex GoFloat FloatInt Json Canonical Ids Values.
From S2P Require Import Bounds JsonText Grants Constraints.

(** ** Inverting the language of an expression *)

Lemma lang_Cat_inv r1 r2 s : lang (Cat r1 r2) s → ∃ s1 s2, s = s1 +:+ s2 ∧ lang r1 s1 ∧ lang r2 s2.
Proof. inversion 1; subst. eauto. Qed.

Lemma lang_Alt_inv r1 r2 s : lang (Alt r1 r2) s → lang r1 s ∨ lang r2 s.
Proof. inversion 1; subst; eauto. Qed.

Lemma lang_Chr_inv p s : lang (Chr p) s → ∃ c, s = String c "" ∧ p c = true.
Proof. inversion 1; subst. eauto. Qed.

Lemma lang_Eps_inv s : lang Eps s → s = "".
Proof. by inversion 1. Qed.

Ltac lang_inv :=
  repeat match goal with
  | H : lang (Cat _ _) _ |- _ => apply lang_Cat_inv in H as (? & ? & -> & ? & ?)
  | H : lang (Alt _ _) _ |- _ => apply lang_Alt_inv in H as [?|?]
  | H : lang (Chr _) _ |- _ => apply lang_Chr_inv in H as (? & -> & ?)
  | H : lang Eps _ |- _ => apply lang_Eps_inv in H as ->
  end.

Ltac range_facts :=
  repeat match goal with
  | H : in_range _ _ _ = true |- _ => unfold in_range in H; go_bool
  | H : is_digit _ = true |- _ => unfold is_digit in H
  | H : (_ <=? _) = true |- _ => apply Z.leb_le in H
  | H : Ascii.eqb _ _ = true |- _ => apply Ascii.eqb_eq in H; subst
  end.

#[local] Arguments Ascii.eqb : simpl never.

(** ** Times of day *)

(** A two-digit field: no separator, and its value. *)
Definition field (lo hi : Z) (s : string) : Prop := no_sep colon s ∧ lo <= digits_val 0 s <= hi.

Lemma digit_no_colon c : 48 <= code c <= 57 → Ascii.eqb colon c = false.
Proof. intros H. apply Ascii.eqb_neq. intros <-. change (code colon) with 58 in H. lia. Qed.

Definition hourRE : re :=
  Alt (Cat (Opt (Chr (in_range 48 49))) digit) (Cat (lit "2") (Chr (in_range 48 51))).
Definition sixtyRE : re := Cat (Chr (in_range 48 53)) digit.

Lemma hour_field s : lang hourRE s → field 0 23 s.
Proof.
  unfold hourRE, Opt, digit. simpl. intros H. lang_inv; range_facts; unfold field, no_sep, contains_char;
    simpl; rewrite ?digit_no_colon by (change (code "2") with 50; lia);
    (split; [done|]); change (code "2") with 50; lia.
Qed.

Lemma sixty_field s : lang sixtyRE s → field 0 59 s.
Proof.
  unfold sixtyRE, digit. intros H. lang_inv; range_facts; unfold field, no_sep, contains_char;
    simpl; rewrite ?digit_no_colon by lia; split; [done|]. lia.
Qed.

(** The shape of a time of day. *)
Lemma timeOfDay_parts t :
  matches timeOfDayRE t = true →
  ∃ h m, field 0 23 h ∧ field 0 59 m ∧
    (Split colon t = [h; m] ∨ ∃ s, field 0 59 s ∧ Split colon t = [h; m; s]).
Proof.
  rewrite matches_lang. unfold timeOfDayRE. cbv zeta. intros H.
  apply lang_Cat_inv in H as (h & r & -> & Hh%hour_field & H).
  apply lang_Cat_inv in H as (c & r' & -> & Hc & H). apply lang_Chr_inv in Hc as (c' & -> & <-%Ascii.eqb_eq).
  apply lang_Cat_inv in H as (m1 & r1 & -> & Hm1 & H). apply lang_Cat_inv in H as (m2 & r2 & -> & Hm2 & H).
  assert (lang sixtyRE (m1 +:+ m2)) as Hm%sixty_field by (by constructor).
  exists h, (m1 +:+ m2). split_and!; [done..|]. rewrite (str_app_assoc m1 m2 r2).
  change (h +:+ ":" +:+ (m1 +:+ m2) +:+ r2) with (h +:+ String colon ((m1 +:+ m2) +:+ r2)).
  rewrite Split_app by apply Hh. apply lang_Alt_inv in H as [H|H].
  - right. apply lang_Cat_inv in H as (c & s & -> & Hc & H). apply lang_Chr_inv in Hc as (c' & -> & <-%Ascii.eqb_eq).
    exists s. assert (field 0 59 s) as Hs by (by apply sixty_field). split; [done|].
    change (":" +:+ s) with (String colon s). rewrite Split_app by apply Hm. by rewrite Split_single by apply Hs.
  - left. apply lang_Eps_inv in H as ->. rewrite str_app_nil. by rewrite Split_single by apply Hm.
Qed.

Lemma secondsOfDay_range t : matches timeOfDayRE t = true → 0 <= secondsOfDay t < 86400.
Proof.
  intros (h & m & [_ Hh] & [_ Hm] & H)%timeOfDay_parts. unfold secondsOfDay.
  destruct H as [->|(s & [_ Hs] & ->)]; simpl; unfold nth_part; simpl; lia.
Qed.

Lemma end_sod_range t : matches timeOfDayRE t = true → 0 <= end_sod t <= 86400.
Proof.
  intros H%secondsOfDay_range. unfold end_sod. destruct (String.eqb t "00:00"); lia.
Qed.

(** ** Time windows *)

(** The seconds of day a segment denotes, from its two members. *)
Definition window_of (s : gomap jtext) : option (Z * Z) :=
  match mget "start" s ≫= into_string, mget "end" s ≫= into_string with
  | Some start, Some end_ => Some (secondsOfDay start, end_sod end_)
  | _, _ => None
  end.

Definition windows_of (raw : string) : option (list (Z * Z)) :=
  j ← read_document (TrimSpace raw); segs ← into_list into_raw_map j; mapM window_of segs.

(** Windows in ascending order, each non-empty and inside the day, none
    starting before the previous one has ended. *)
Fixpoint ascending (from : Z) (ws : list (Z * Z)) : Prop :=
  match ws with
  | [] => True
  | (a, b) :: rest => from <= a ∧ a < b ∧ b <= 86400 ∧ ascending b rest
  end.

Lemma valid_segments_ascending segs : ∀ prevEnd,
  valid_segments prevEnd segs = true →
  ∃ ws, mapM window_of segs = Some ws ∧ length ws = length segs ∧ ascending (Z.max prevEnd 0) ws.
Proof.
  induction segs as [|s segs IH]; intros prevEnd H; [by exists []|].
  cbn [valid_segments] in H. apply andb_true_iff in H as [_ H].
  destruct (mget "start" s) as [sr|] eqn:Es; [|done]. destruct (mget "end" s) as [er|] eqn:Ee; [|done].
  destruct (into_string sr) as [st|] eqn:Est; [|done]. destruct (into_string er) as [en|] eqn:Een; [|done].
  go_bool. rename H into Hst, H4 into Hen, H0 into Hlt. apply Z.leb_gt in Hlt.
  assert (window_of s = Some (secondsOfDay st, end_sod en)) as Hw.
  { unfold window_of. rewrite Es, Ee. simpl. by rewrite Est, Een. }
  destruct (IH (end_sod en)) as (ws & Hws & Hlen & Ha); [done|].
  exists ((secondsOfDay st, end_sod en) :: ws). simpl. rewrite Hw. simpl. rewrite Hws. simpl.
  apply secondsOfDay_range in Hst. pose proof (end_sod_range _ Hen).
  split_and!; [done|by f_equal| |lia|lia|].
  - destruct (Z.leb_spec 0 prevEnd), (Z.ltb_spec (secondsOfDay st) prevEnd); simpl in *; done || lia.
  - by replace (Z.max (end_sod en) 0) with (end_sod en) in Ha by lia.
Qed.

(** An accepted [time:window] list denotes between one and 32 windows that
    lie inside one day, are non-empty, ascend and do not overlap, so every
    instant of a day belongs to at most one of them. *)
Lemma validTimeWindowJSON_windows raw :
  validTimeWindowJSON raw = true →
  ∃ ws, windows_of raw = Some ws ∧ (1 <= length ws <= 32)%nat ∧ ascending 0 ws.
Proof.
  unfold validTimeWindowJSON, windows_of. intros H. apply andb_true_iff in H as [_ H].
  destruct (read_document (TrimSpace raw)) as [j|]; [|done]. simpl in *.
  destruct (into_list into_raw_map j) as [segs|]; [|done]. simpl. go_bool.
  destruct (valid_segments_ascending segs (-1)) as (ws & Hws & Hlen & Ha); [done|].
  exists ws. split; [done|]. split; [|done]. rewrite Hlen. apply Nat.leb_le in H1.
  unfold maxTimeWindows in H1. destruct segs; [done|]. simpl in *. lia.
Qed.

(** ** The row ceiling *)

Lemma take_digits_all s : str_forallb is_digit s = true → take_digits s = (s, EmptyString).
Proof.
  induction s as [|c s IH]; [done|]. simpl. intros H. go_bool. rewrite H. by rewrite IH.
Qed.

Lemma digit_not_sign c : is_digit c = true → c ≠ "-"%char ∧ c ≠ "+"%char.
Proof. intros H. split; intros ->; vm_compute in H; done. Qed.

Lemma strict_digits s :
  isStrictJSONInteger s = true →
  ∃ c s', s = String c s' ∧ str_forallb is_digit s = true ∧ is_digit c = true.
Proof.
  unfold isStrictJSONInteger. destruct s as [|c s]; [done|]. intros H. go_bool. exists c, s.
  split_and!; [done..|]. simpl in H0. by go_bool.
Qed.

(** Match on the sign character of a literal that starts with a digit. *)
Lemma sign_match {A} (c : ascii) (s : string) (f g : string → A) (h : A) :
  is_digit c = true →
  match String c s with String "-" t => f t | String "+" t => g t | _ => h end%char = h.
Proof. intros H. destruct c as [[] [] [] [] [] [] [] []]; vm_compute in H; done. Qed.

Lemma read_decimal_digits s :
  isStrictJSONInteger s = true → read_decimal s = Some (Decimal false (digits_val 0 s) 0).
Proof.
  intros (c & s' & -> & Hall & Hc)%strict_digits. unfold read_decimal.
  rewrite (sign_match c s' (λ t, (true, t)) (λ t, (false, t)) (false, String c s') Hc).
  rewrite take_digits_all by done. simpl. by rewrite str_app_nil.
Qed.

Lemma digits_val_nonneg s acc : 0 <= acc → str_forallb is_digit s = true → 0 <= digits_val acc s.
Proof.
  revert acc. induction s as [|c s IH]; intros acc Ha H; [done|]. simpl in *. go_bool.
  apply IH; [|done]. unfold is_digit, in_range in H. go_bool. apply Z.leb_le in H, H1. lia.
Qed.

Lemma Atoi_digits s :
  isStrictJSONInteger s = true → digits_val 0 s <= max_int64 → Atoi s = (digits_val 0 s, true).
Proof.
  intros (c & s' & -> & Hall & Hc)%strict_digits Hmax. unfold Atoi.
  rewrite (sign_match c s' (λ t, (true, t)) (λ t, (false, t)) (false, String c s') Hc).
  pose proof (digits_val_nonneg _ 0 ltac:(lia) Hall) as Hnn. rewrite Hall.
  replace (String.eqb (String c s') "") with false by done. cbn [orb negb].
  destruct (Z.ltb_spec (digits_val 0 (String c s')) min_int64); [unfold min_int64 in *; lia|].
  destruct (Z.ltb_spec max_int64 (digits_val 0 (String c s'))); [lia|]. done.
Qed.

(** A valid row ceiling and the integer it states. *)
Definition max_rows_ceiling (c : string) : option Z :=
  match Split colon c with
  | [s; t; lit] =>
      if String.eqb (s +:+ ":" +:+ t) reservedMaxRows && String.eqb t "max_rows" then Some (digits_val 0 lit) else None
  | _ => None
  end.

Lemma max_rows_literal lit :
  isStrictJSONInteger lit = true → exceedsIJSONIntegerBound lit = false →
  0 <= digits_val 0 lit <= ijsonMaxInteger.
Proof.
  intros Hs He. unfold exceedsIJSONIntegerBound in He. rewrite read_decimal_digits in He by done.
  apply strict_digits in Hs as (? & ? & _ & Hall & _). pose proof (digits_val_nonneg _ 0 ltac:(lia) Hall).
  cbn [d_mant d_exp] in He. destruct (Z.eqb_spec (digits_val 0 lit) 0) as [->|]; [done|].
  cbn [Z.leb Z.compare] in He. apply orb_false_iff in He as [_ He]. rewrite Z.pow_0_r, Z.mul_1_r in He.
  apply Z.ltb_ge in He. done.
Qed.

(** The numeric carriers of an integer. *)
Inductive carries (z : Z) : any → Prop :=
  | carries_float : carries z (AFloat (of_Z z))
  | carries_float32 : carries z (AFloat32 (of_Z z))
  | carries_int k : carries z (AInt k z).

Lemma carries_numeric z v : carries z v → numericValue v = Some (of_Z z).
Proof. by destruct 1. Qed.

(** The row ceiling is exact.  A well-formed [max_rows:N] constraint has
    [0 <= N <= 2^53-1], and it accepts a request for [z] rows, in whichever
    number type the value arrives, exactly when [0 <= z <= N]; a request without
    a row count is refused. *)
Lemma max_rows_exact c n op :
  ValidateConstraint c = None → max_rows_ceiling c = Some n →
  0 <= n <= ijsonMaxInteger ∧
  (mget "max_rows" (entries (op_params op)) = None → CheckConstraint c op = Some violated) ∧
  ∀ v z, mget "max_rows" (entries (op_params op)) = Some v → carries z v → exact_int z →
    CheckConstraint c op = None ↔ 0 <= z <= n.
Proof.
  unfold max_rows_ceiling, ValidateConstraint, CheckConstraint.
  destruct (Split colon c) as [|s [|t [|lit [|]]]]; try done. cbn [length].
  destruct (_ && _) eqn:Et; [|done]. apply andb_true_iff in Et as [Eid%String.eqb_eq Et%String.eqb_eq].
  unfold identity_of, nth_part. simpl (default _ _). subst t. intros Hv [= <-].
  rewrite !check_seq_None, !guard_None in Hv. destruct Hv as (_ & Hr & Hv).
  simpl (String.eqb "max_rows" "max_rows") in *. cbv iota in Hv.
  rewrite check_seq_None, !guard_None in Hv. destruct Hv as [Hs He]. apply orb_false_iff in Hs as [_ Hs].
  apply negb_false_iff in Hs, Hr. pose proof (max_rows_literal lit Hs He) as Hn.
  assert (exact_int (digits_val 0 lit)) as Hx by (unfold exact_int, ijsonMaxInteger in *; lia).
  rewrite Hr, Hs. change (3 <? 3)%nat with false. cbn [negb orb Nat.eqb].
  rewrite Atoi_digits by (done || (unfold ijsonMaxInteger, max_int64 in *; lia)). cbn [fst].
  split; [done|]. split; [by intros ->|]. intros v z Hg Hc Hz. rewrite Hg.
  rewrite (carries_numeric _ _ Hc). rewrite check_seq_None, !guard_None.
  pose proof (of_Z_finite z Hz) as Hf. unfold isFinite in Hf. apply andb_true_iff in Hf as [Hf1%negb_true_iff Hf2%negb_true_iff]. rewrite Hf1, Hf2.
  rewrite Trunc_of_Z, feq_refl by done. change fzero with (of_Z 0).
  rewrite fgt_flip, !of_Z_lt by (done || (unfold exact_int; lia)). cbn [orb negb]. lia.
Qed.

