(* ===== verification/Authorize.v ===== *)
(** * Entailment, containment, intersection and decision

    The relations of semantics/semantics.go, semantics/authorizechain.go and
    semantics/constraintunion.go. *)

From S2P Require Import Prelude GoStrings GoFloat Json Canonical Ids Values Bounds JsonText.
From S2P Require Import Grants Constraints.

(** ** Entailment *)

(** [id[:strings.Index(id, ":")]] of a validated identifier. *)
Definition schemeOf (id : string) : string := nth_part (Split colon id) 0.

(** [Entails]: [None] is [{Entails: true}], [Some reason] a refusal. *)
Definition Entails (grant : Grant) (op : Operation) : check :=
  ValidateCapabilityID (g_id grant) ;;?
  ValidateCapabilityID (op_id op) ;;?
  guard (negb (String.eqb (schemeOf (g_id grant)) (schemeOf (op_id op)))) ErrDifferentNamespace ;;?
  matchID (g_id grant) (op_id op) ;;?
  let hasParams := (0 <? mlen (g_params grant))%nat in
  let hasBounds := (0 <? mlen (g_bounds grant))%nat in
  if negb hasParams && negb hasBounds then None
  else
    ValidateParamBounds (g_bounds grant) (g_params grant) ;;?
    (if hasParams then ValidateGrantParams (entries (g_params grant)) else None) ;;?
    match op_params op with Some p => ValidateOperationParams p | None => None end ;;?
    entailsDeclared (op_params op) (entries (g_params grant)) (entries (g_bounds grant)).

(** ** Containment *)

(** Layer 1: both grants are valid. *)
Definition grant_valid (g : Grant) : check :=
  ValidateCapabilityID (g_id g) ;;?
  match g_params g with Some p => ValidateGrantParams p | None => None end ;;?
  ValidateParamBounds (g_bounds g) (g_params g).

(** Layer 3 over one representation: every parent key is declared by the child
    within the parent's bound, and the child adds no key. *)
Definition narrower_members (within : any → any → check) (child parent : gomap any) : check :=
  check_all (λ kv, match mget kv.1 child with
                   | None => Some ErrParamsNotNarrower
                   | Some cv => match within cv kv.2 with
                                | None => None
                                | Some _ => Some ErrParamsNotNarrower
                                end
                   end) parent.
Definition no_new_keys (child parent : gomap any) : check :=
  check_all (λ kv, guard (negb (mhas kv.1 parent)) ErrParamsNotNarrower) child.

(** [Contains]: [None] is [{Contains: true}]. *)
Definition Contains (parent child : Grant) : check :=
  check_all grant_valid [parent; child] ;;?
  match matchID (g_id parent) (g_id child) with
  | Some reason =>
      Some (if String.eqb reason ErrDifferentNamespace then reason else ErrChildExceedsParent)
  | None =>
      let pp := entries (g_params parent) in let pb := entries (g_bounds parent) in
      let cp := entries (g_params child) in let cb := entries (g_bounds child) in
      if (length pp =? 0)%nat && (length pb =? 0)%nat then None
      else if (length cp =? 0)%nat && (length cb =? 0)%nat then Some ErrParamsNotNarrower
      else
        narrower_members containsWithin cp pp ;;?
        narrower_members boundWithin cb pb ;;?
        no_new_keys cp pp ;;?
        no_new_keys cb pb
  end.

(** ** Intersection *)

Definition mergeConstraints (a b : list string) : list string := sorted_dedup (a ++ b).
Definition sortedSet (src : list string) : list string := sorted_dedup src.

(** The parameter merge: shared keys are met, the others kept from either side. *)
Fixpoint merge_shared (gp rp : gomap any) : result (gomap any) :=
  match rp with
  | [] => inl []
  | kv :: rp' =>
      let! v := match mget kv.1 gp with
                | Some gv => intersectValue kv.2 gv
                | None => inl kv.2
                end in
      let! r := merge_shared gp rp' in inl ((kv.1, v) :: r)
  end.
Definition merge_params (rp gp : gomap any) : result (gomap any) :=
  let! shared := merge_shared gp rp in
  inl (shared ++ filter (λ kv, mget kv.1 rp = None) gp).

(** The narrower of two identifiers. *)
Definition merge_id (rid gid : string) : result string :=
  if String.eqb rid gid then inl rid
  else match Entails (mkGrant rid None None []) (mkOp gid None) with
       | None => inl gid
       | Some _ =>
           match Entails (mkGrant gid None None []) (mkOp rid None) with
           | Some _ => inr ErrNoOverlap
           | None => inl rid
           end
       end.

Definition merge_opt_params (rp gp : option (gomap any)) : result (option (gomap any)) :=
  match rp, gp with
  | Some r, Some g => let! m := merge_params r g in inl (Some m)
  | _, None => inl rp
  | None, Some _ => inl gp
  end.

Definition merge_bounds (rb gb : option (gomap any)) : result (option (gomap any)) :=
  if (0 <? mlen rb)%nat && (0 <? mlen gb)%nat then
    let! m := intersectBounds (entries rb) (entries gb) in inl (Some m)
  else if (0 <? mlen gb)%nat then inl (Some (cloneBoundMap (entries gb)))
  else inl rb.

(** One iteration of the merge loop of [Intersect]. *)
Definition merge_grant (r g : Grant) : result Grant :=
  let! id := merge_id (g_id r) (g_id g) in
  let! params := merge_opt_params (g_params r) (g_params g) in
  let! bounds := merge_bounds (g_bounds r) (g_bounds g) in
  inl (mkGrant id params bounds (mergeConstraints (g_constraints r) (g_constraints g))).

Fixpoint merge_all (r : Grant) (gs : list Grant) : result Grant :=
  match gs with
  | [] => inl r
  | g :: gs' => let! r' := merge_grant r g in merge_all r' gs'
  end.

(** A key declared in params by one source and in param_bounds by another. *)
Definition binding_clash (gs : list Grant) : bool :=
  existsb (λ g, existsb (λ kv, existsb (λ g', mhas kv.1 (entries (g_params g'))) gs)
                        (entries (g_bounds g))) gs.

Definition source_denies (g : Grant) : check :=
  guard (hasEmptyBound (entries (g_params g))) ErrEmptyBoundDenies ;;?
  guard (boundsDenyClass (entries (g_bounds g))) ErrEmptyBoundDenies.

Definition source_valid (g : Grant) : check :=
  match g_params g with Some p => ValidateGrantParams p | None => None end ;;?
  match g_bounds g with Some _ => ValidateParamBounds (g_bounds g) (g_params g) | None => None end.

Definition Intersect (grants : list Grant) : result Grant :=
  match grants with
  | [] => inr ErrAbsentSource
  | g0 :: rest =>
      rguard (check_all source_denies grants ;;?
              guard (binding_clash grants) ErrInvalidParamsBinding ;;?
              check_all source_valid grants)
        (merge_all g0 rest)
  end.

(** ** Decision *)

(** The constraint loop of one covering grant: the obligations it leaves, or the
    first refusal. *)
Fixpoint eval_constraints (cs : list string) (op : Operation) : result (list string) :=
  match cs with
  | [] => inl []
  | c :: cs' =>
      rguard (ValidateConstraint c ;;? CheckConstraint c op)
        (let! pg := eval_constraints cs' op in
         inl (if coreEvaluatesConstraint c then pg else c :: pg))
  end.

(** The loop state: obligations collected, first covering refusal, any allow. *)
Record agg := mkAgg { ag_unresolved : list string; ag_first : string; ag_any : bool }.

Definition set_first (reason : string) (st : agg) : agg :=
  if String.eqb (ag_first st) "" then mkAgg (ag_unresolved st) reason (ag_any st) else st.

Definition authorize_step (op : Operation) (st : agg) (g : Grant) : agg :=
  if String.eqb (g_id g) "" then st
  else match Entails g op with
       | Some reason => if isParamsLevelReason reason then set_first reason st else st
       | None =>
           match eval_constraints (g_constraints g) op with
           | inr reason => set_first reason st
           | inl pg => mkAgg (ag_unresolved st ++ pg) (ag_first st) true
           end
       end.

(** The operation checks that precede the loop. *)
Definition operation_valid (op : Operation) : check :=
  guard (String.eqb (op_id op) "") ErrMissingCapabilityID ;;?
  ValidateCapabilityID (op_id op) ;;?
  match op_params op with Some p => ValidateOperationParams p | None => None end.

Definition all_absent (gs : list Grant) : bool := forallb (λ g, String.eqb (g_id g) "") gs.

Definition AuthorizeSet (grants : list Grant) (op : Operation) : Decision :=
  if all_absent grants then deny ErrCapabilityNotAuth
  else match operation_valid op with
       | Some reason => deny reason
       | None =>
           let st := fold_left (authorize_step op) grants (mkAgg [] "" false) in
           if negb (ag_any st) then
             if String.eqb (ag_first st) "" then deny ErrCapabilityNotAuth else deny (ag_first st)
           else match sortedSet (ag_unresolved st) with
                | [] => allow
                | uniq => allowUR uniq
                end
       end.

Definition Authorize (effectiveGrant : Grant) (op : Operation) : Decision :=
  AuthorizeSet [effectiveGrant] op.

(** ** Chains *)

Fixpoint check_hops (chain : list Grant) : check :=
  match chain with
  | p :: ((c :: _) as rest) => Contains p c ;;? check_hops rest
  | _ => None
  end.

Definition AuthorizeWithChain (chain : list Grant) (op : Operation) : Decision :=
  match chain with
  | [] => deny ErrAbsentSource
  | _ =>
      match check_hops chain with
      | Some reason => deny reason
      | None =>
          match Intersect chain with
          | inr reason => deny reason
          | inl effective => Authorize effective op
          end
      end
  end.

Definition ConstraintUnion (chain : list Grant) : result (list string) :=
  match chain with
  | [] => inr ErrAbsentSource
  | _ => inl (fold_left (λ out g, mergeConstraints out (g_constraints g)) chain [])
  end.
