(* ===== verification/Containment.v ===== *)
(** * Containment is sound

    What acceptance by [Entails] and [Contains] means, declared key by declared
    key, and the theorem that an operation a child grant entails is entailed by
    every grant that contains the child. *)

From S2P Require Import Prelude GoStrings GoFloat Json Canonical Ids Values Bounds JsonText.
From S2P Require Import Grants Constraints Authorize.

(** ** Coverage of identifiers *)

(** The identifier layers of [Entails]: both valid, same scheme, covered. *)
Definition id_covers (g o : string) : Prop :=
  ValidateCapabilityID g = None ∧ ValidateCapabilityID o = None ∧ matchID g o = None.

Lemma id_covers_trans a b c : id_covers a b → id_covers b c → id_covers a c.
Proof.
  intros (Va & Vb & Mab) (_ & Vc & Mbc). repeat split; [done..|].
  rewrite matchID_covers in * by done. by eapply covers_trans.
Qed.

Lemma id_covers_refl a : ValidateCapabilityID a = None → id_covers a a.
Proof. intros H. repeat split; [done..|]. apply matchID_covers; auto using covers_refl. Qed.

(** The scheme comparison of [Entails] is implied by [matchID]. *)
Lemma id_covers_scheme g o : id_covers g o → schemeOf g = schemeOf o.
Proof.
  intros (Vg & Vo & M). apply matchID_covers in M as [T _]; [|done..].
  apply ValidateCapabilityID_parts in Vg as [_ Hg], Vo as [_ Ho]. unfold schemeOf.
  destruct (Split colon g) as [|? [|? ?]], (Split colon o) as [|? [|? ?]]; simpl in *; try lia.
  by simplify_eq.
Qed.

(** ** The declared view of the parameter layers *)

(** What [entailsDeclared] requires of a request: no null, every declared param
    present and within its bound, every declared Bound satisfied, nothing
    undeclared. *)
Record declared_ok (op gp gb : gomap any) : Prop := {
  do_nonempty : hasEmptyBound gp = false;
  do_params_nil : ∀ k g, (k, g) ∈ gp → is_nil g = false;
  do_op_nil : ∀ k v, (k, v) ∈ op → is_nil v = false;
  do_params : ∀ k g, (k, g) ∈ gp → ∃ v, mget k op = Some v ∧ valueSubset v g = None;
  do_bounds : ∀ k b, (k, b) ∈ gb → match mget k op with
                                   | None => boundOptional b = true
                                   | Some v => boundSubset v b = None
                                   end;
  do_closed : ∀ k, k ∈ mkeys op → k ∈ mkeys gp ∨ k ∈ mkeys gb
}.

Lemma not_nil_entries_None m : not_nil_entries m = None ↔ ∀ k v, (k, v) ∈ m → is_nil v = false.
Proof.
  unfold not_nil_entries. rewrite check_all_None. setoid_rewrite guard_None.
  split; [intros H k v; apply (H (k, v))|intros H [k v]; apply H].
Qed.

Lemma entailsDeclared_None op gp gb :
  entailsDeclared op gp gb = None ↔ declared_ok (entries op) gp gb.
Proof.
  unfold entailsDeclared, entries. rewrite !check_seq_None, guard_None, !not_nil_entries_None, !check_all_None.
  setoid_rewrite guard_None. split.
  - intros (H1 & H2 & H3 & H4 & H5 & H6 & H7 & H8). split; [done..| | |].
    + intros k g Hin. specialize (H4 _ Hin); specialize (H7 _ Hin); simpl in *.
      apply negb_false_iff in H4. unfold mhas in H4. destruct (mget k (default [] op)); [eauto|done].
    + intros k b Hin. specialize (H5 _ Hin); specialize (H8 _ Hin); simpl in *.
      unfold mhas in H5. destruct (boundOptional b); [by destruct (mget k _)|].
      apply guard_None in H5. by destruct (mget k _).
    + intros k ([k' v] & -> & Hin)%list_elem_of_fmap. specialize (H6 _ Hin); simpl in *.
      apply negb_false_iff, orb_true_iff in H6. by rewrite !mhas_true in H6.
  - intros [H1 H2 H3 H4 H5 H6]. split_and!; [done..| | | | |].
    + intros [k g] Hin. destruct (H4 _ _ Hin) as (v & Hv & _). unfold mhas. simpl. by rewrite Hv.
    + intros [k b] Hin. specialize (H5 _ _ Hin). simpl. destruct (boundOptional b) eqn:E; [done|].
      apply guard_None, negb_false_iff. unfold mhas. by destruct (mget k _).
    + intros [k v] Hin. apply negb_false_iff, orb_true_iff. rewrite !mhas_true.
      apply H6. by eapply mkeys_elem.
    + intros [k g] Hin. destruct (H4 _ _ Hin) as (v & Hv & ?). simpl. by rewrite Hv.
    + intros [k b] Hin. specialize (H5 _ _ Hin). simpl in *. by destruct (mget k _).
Qed.

(** Every accepted parameter map has a canonical form. *)
Lemma validateObjectParams_canonical m : validateObjectParams m = None → canonical_ok (AMap m).
Proof.
  unfold validateObjectParams. rewrite check_seq_None. intros [_ H].
  destruct (CanonicalJSON (AMap m)) as [t|e] eqn:E; [|by destruct e].
  by apply CanonicalJSON_inl in E as [? _].
Qed.

Lemma ValidateGrantParams_canonical m : ValidateGrantParams m = None → canonical_ok (AMap m).
Proof. unfold ValidateGrantParams. rewrite check_seq_None. intros [H _]. by apply validateObjectParams_canonical. Qed.

Lemma ValidateOperationParams_canonical m : ValidateOperationParams m = None → canonical_ok (AMap m).
Proof. apply ValidateGrantParams_canonical. Qed.

Lemma canonical_ok_nil : canonical_ok (AMap []).
Proof. done. Qed.

(** A grant without parameter declarations. *)
Definition unbound (g : Grant) : bool :=
  (mlen (g_params g) =? 0)%nat && (mlen (g_bounds g) =? 0)%nat.

(** Acceptance by [Entails]. *)
Lemma Entails_None g op :
  Entails g op = None ↔
  id_covers (g_id g) (op_id op) ∧
  (unbound g = true ∨
   ValidateParamBounds (g_bounds g) (g_params g) = None ∧
   ((0 < mlen (g_params g))%nat → ValidateGrantParams (entries (g_params g)) = None) ∧
   (∀ p, op_params op = Some p → ValidateOperationParams p = None) ∧
   declared_ok (entries (op_params op)) (entries (g_params g)) (entries (g_bounds g))).
Proof.
  unfold Entails, unbound. rewrite !check_seq_None, guard_None, negb_false_iff, String.eqb_eq.
  assert (∀ n, negb (0 <? n)%nat = (n =? 0)%nat) as E by (by intros [|]).
  rewrite !E. split.
  - intros (Vg & Vo & _ & M & H). split; [done|].
    destruct (_ && _); [by left|right]. rewrite !check_seq_None, entailsDeclared_None in H.
    destruct H as (H1 & H2 & H3 & H4). split_and!; [done| | |done].
    + intros Hl%Nat.ltb_lt. by rewrite Hl in H2.
    + intros p Hp. by rewrite Hp in H3.
  - intros [Hid H]. pose proof (id_covers_scheme _ _ Hid) as Hs. destruct Hid as (Vg & Vo & M).
    do 4 (split; [done|]). destruct (_ && _); [done|]. destruct H as [?|(H1 & H2 & H3 & H4)]; [done|].
    rewrite !check_seq_None, entailsDeclared_None. split_and!; [done| | |done].
    + destruct (0 <? _)%nat eqn:El; [|done]. by apply H2, Nat.ltb_lt.
    + destruct (op_params op); [by apply H3|done].
Qed.

Lemma ValidateParamBounds_bound bs ps k b :
  ValidateParamBounds (Some bs) ps = None → (k, b) ∈ bs →
  validateBound b = None ∧ canonical_ok b ∧ k ∉ mkeys (entries ps).
Proof.
  simpl. rewrite check_seq_None, check_all_None. intros [H1%validateObjectParams_canonical H2] Hin.
  specialize (H2 _ Hin). rewrite !check_seq_None, !guard_None in H2. destruct H2 as (_ & Hd & Hv).
  split; [done|]. split; [by apply (canonical_ok_map bs (k, b))|]. by apply mhas_false.
Qed.

Lemma bound_entry_valid g k b :
  ValidateParamBounds (g_bounds g) (g_params g) = None → (k, b) ∈ entries (g_bounds g) →
  validateBound b = None ∧ canonical_ok b ∧ k ∉ mkeys (entries (g_params g)).
Proof.
  intros H Hin. destruct (g_bounds g) as [bs|] eqn:E; [|by apply not_elem_of_nil in Hin].
  by eapply ValidateParamBounds_bound.
Qed.

(** A grant without parameter declarations entails exactly the operations its
    identifier covers: both identifiers are valid, the first two segments agree,
    and the identifiers are equal or the grant ends in a star whose prefix the
    operation extends by one or more segments. *)
Lemma Entails_unbound id cs op :
  Entails (mkGrant id None None cs) op = None ↔
  ValidateCapabilityID id = None ∧ ValidateCapabilityID (op_id op) = None ∧
  covers (Split colon id) (Split colon (op_id op)).
Proof.
  rewrite Entails_None. unfold id_covers. simpl. split.
  - intros [(Vi & Vo & M) _]. split_and!; [done..|]. by apply matchID_covers.
  - intros (Vi & Vo & C). split; [|by left]. split_and!; [done..|]. by apply matchID_covers.
Qed.

(** ** Acceptance by [Contains] *)

Lemma narrower_members_None within child parent :
  narrower_members within child parent = None ↔
  ∀ k p, (k, p) ∈ parent → ∃ c, mget k child = Some c ∧ within c p = None.
Proof.
  unfold narrower_members. rewrite check_all_None. split.
  - intros H k p Hin. specialize (H _ Hin). simpl in H. destruct (mget k child) as [c|]; [|done].
    exists c. split; [done|]. by destruct (within c p).
  - intros H [k p] Hin. destruct (H _ _ Hin) as (c & Hc & Hw). simpl. by rewrite Hc, Hw.
Qed.

Lemma no_new_keys_None child parent :
  no_new_keys child parent = None ↔ ∀ k, k ∈ mkeys child → k ∈ mkeys parent.
Proof.
  unfold no_new_keys. rewrite check_all_None. split.
  - intros H k (kv & -> & Hin)%list_elem_of_fmap. specialize (H _ Hin).
    by apply guard_None, negb_false_iff, mhas_true in H.
  - intros H [k v] Hin. apply guard_None, negb_false_iff, mhas_true, H. by eapply mkeys_elem.
Qed.

(** What layer 3 of [Contains] requires. *)
Record narrower_decls (cp cb pp pb : gomap any) : Prop := {
  nd_params : ∀ k p, (k, p) ∈ pp → ∃ c, mget k cp = Some c ∧ containsWithin c p = None;
  nd_bounds : ∀ k p, (k, p) ∈ pb → ∃ c, mget k cb = Some c ∧ boundWithin c p = None;
  nd_params_closed : ∀ k, k ∈ mkeys cp → k ∈ mkeys pp;
  nd_bounds_closed : ∀ k, k ∈ mkeys cb → k ∈ mkeys pb
}.

Lemma grant_valid_None g :
  grant_valid g = None ↔
  ValidateCapabilityID (g_id g) = None ∧
  (∀ p, g_params g = Some p → ValidateGrantParams p = None) ∧
  ValidateParamBounds (g_bounds g) (g_params g) = None.
Proof. unfold grant_valid. rewrite !check_seq_None. destruct (g_params g); naive_solver. Qed.

Lemma Contains_None p c :
  Contains p c = None ↔
  grant_valid p = None ∧ grant_valid c = None ∧ matchID (g_id p) (g_id c) = None ∧
  (unbound p = true ∨
   unbound c = false ∧
   narrower_decls (entries (g_params c)) (entries (g_bounds c))
                  (entries (g_params p)) (entries (g_bounds p))).
Proof.
  unfold Contains, unbound, mlen. rewrite check_seq_None. simpl. rewrite !check_seq_None.
  destruct (matchID (g_id p) (g_id c)) eqn:E; [naive_solver|].
  destruct (_ && _); [naive_solver|]. destruct (_ && _); [naive_solver|].
  rewrite !check_seq_None, !narrower_members_None, !no_new_keys_None. split.
  - intros ((? & ? & _) & H1 & H2 & H3 & H4). do 3 (split; [done|]). right. by split.
  - intros (? & ? & _ & [?|[_ [H1 H2 H3 H4]]]); done.
Qed.

(** ** The theorem *)

(** The conditions under which the containment of declarations is behavioural:
    no parent parameter denies its class, no child number or object stands for
    a member of a parent enumeration, and the parent's steps are kept. *)
Definition contains_safe (p c : Grant) : bool :=
  negb (hasEmptyBound (entries (g_params p))) &&
  narrows_shape (AMap (entries (g_params p))) (AMap (entries (g_params c))) &&
  forallb (λ kv, match mget kv.1 (entries (g_bounds c)) with
                 | Some cb => step_safe kv.2 cb
                 | None => true
                 end) (entries (g_bounds p)).

Lemma op_canonical op :
  (∀ p, op_params op = Some p → ValidateOperationParams p = None) →
  canonical_ok (AMap (entries (op_params op))).
Proof.
  intros H. destruct (op_params op) as [p|]; [|apply canonical_ok_nil].
  by apply ValidateOperationParams_canonical, H.
Qed.

Lemma params_canonical g : grant_valid g = None → canonical_ok (AMap (entries (g_params g))).
Proof.
  rewrite grant_valid_None. intros (_ & H & _). destruct (g_params g) as [p|]; [|apply canonical_ok_nil].
  by apply ValidateGrantParams_canonical, H.
Qed.

Lemma params_not_nil m k v : ValidateGrantParams m = None → (k, v) ∈ m → is_nil v = false.
Proof.
  unfold ValidateGrantParams. rewrite check_seq_None, check_all_None. intros [_ H] Hin.
  specialize (H _ Hin). unfold param_entry_ok in H. by apply check_seq_None in H as [?%guard_None _].
Qed.

Lemma grant_params_not_nil g k v :
  grant_valid g = None → (k, v) ∈ entries (g_params g) → is_nil v = false.
Proof.
  rewrite grant_valid_None. intros (_ & H & _) Hin.
  destruct (g_params g) as [p|]; [|by apply not_elem_of_nil in Hin]. by apply (params_not_nil p k); auto.
Qed.

Lemma declared_ok_narrower op p c :
  grant_valid p = None → grant_valid c = None → contains_safe p c = true →
  canonical_ok (AMap op) →
  narrower_decls (entries (g_params c)) (entries (g_bounds c))
                 (entries (g_params p)) (entries (g_bounds p)) →
  declared_ok op (entries (g_params c)) (entries (g_bounds c)) →
  declared_ok op (entries (g_params p)) (entries (g_bounds p)).
Proof.
  intros Vp Vc Hs Hop [N1 N2 N3 N4] [D1 D2 D3 D4 D5 D6].
  unfold contains_safe in Hs. go_bool. rename H into Hne, H1 into Hsh, H0 into Hst.
  pose proof (params_canonical _ Vp) as Cp. pose proof (params_canonical _ Vc) as Cc.
  pose proof Vp as (_ & _ & VBp)%grant_valid_None. pose proof Vc as (_ & _ & VBc)%grant_valid_None.
  split; [done| |done| | |].
  - intros k g. by apply grant_params_not_nil.
  - intros k g Hin. destruct (N1 _ _ Hin) as (cv & Hc & Hw).
    destruct (D4 k cv (mget_elem _ _ _ Hc)) as (v & Hv & Hsub). exists v. split; [done|].
    unfold containsWithin in Hw. rewrite (grant_params_not_nil p k g) in Hw by done.
    apply check_seq_None in Hw as [_ Hw].
    apply (valueSubset_trans g v cv); eauto using canonical_ok_mget, narrows_shape_map.
    by apply (canonical_ok_map (entries (g_params p)) (k, g)).
  - intros k b Hin. destruct (N2 _ _ Hin) as (cb & Hc & Hw).
    destruct (bound_entry_valid p k b) as (Vb & Kb & _); [done..|].
    destruct (bound_entry_valid c k cb) as (Vcb & Kcb & _); [done|by apply mget_elem|].
    specialize (D5 k cb (mget_elem _ _ _ Hc)). destruct (mget k op) as [v|] eqn:Ev.
    + rewrite forallb_forall in Hst. specialize (Hst (k, b) (proj1 (list_elem_of_In _ _) Hin)).
      simpl in Hst. rewrite Hc in Hst.
      apply (boundSubset_trans b v cb); eauto using canonical_ok_mget.
    + destruct (validateBound_ok _ Vb) as (bm & -> & _), (validateBound_ok _ Vcb) as (cm & -> & _).
      apply boundWithin_None in Hw as [Ho _]. by apply Ho.
  - intros k Hk. destruct (D6 k Hk); eauto.
Qed.

(** Layer by layer, what a contained child entails its parent entails. *)
Lemma Contains_layers p c op :
  Contains p c = None → contains_safe p c = true → Entails c op = None → Entails p op = None.
Proof.
  rewrite Contains_None, !Entails_None. intros (Vp & Vc & M & Hd) Hs [Hid He].
  pose proof Vp as (Ip & VPp & VBp)%grant_valid_None. pose proof Vc as (Ic & _ & _)%grant_valid_None.
  split; [by eapply id_covers_trans|]. destruct Hd as [?|[Hu Hd]]; [by left|right].
  destruct He as [?|(_ & _ & Vo & Hdo)]; [congruence|]. split_and!; [done| |done|].
  - intros _. destruct (g_params p) as [q|]; [by apply VPp|done].
  - apply (declared_ok_narrower _ p c); auto using op_canonical.
Qed.

(** C4: containment is sound.  When a parent grant contains a child grant, every
    operation the child entails is entailed by the parent, under three conditions:
    no parent parameter denies its class; where the parent has an enumeration, at
    any depth of the parameters, the child has a string, a boolean or an
    enumeration (no number, object or null stands for a member of it); and
    wherever a parent Bound declares a step, the child Bound repeats that step. *)
Theorem Contains_Entails p c op :
  Contains p c = None → contains_safe p c = true → Entails c op = None → Entails p op = None.
Proof. apply Contains_layers. Qed.

(** ** Concrete instances *)

Definition w_parent : Grant :=
  mkGrant "acme/db-v1:read:*" (Some [("tables", AList [AStr "a"; AStr "b"]); ("limit", jnum "100")])
    (Some [("size", AMap [("min", jnum "0"); ("max", jnum "50")])]) [].
Definition w_narrow : Grant :=
  mkGrant "acme/db-v1:read:orders" (Some [("limit", jnum "10"); ("tables", AStr "a")])
    (Some [("size", AMap [("min", jnum "5"); ("max", jnum "20"); ("step", jnum "5")])]) [].
Definition w_request : Operation :=
  mkOp "acme/db-v1:read:orders" (Some [("tables", AStr "a"); ("limit", jnum "7"); ("size", jnum "15")]).

Lemma Contains_Entails_witness :
  Contains w_parent w_narrow = None ∧ Entails w_narrow w_request = None ∧ Entails w_parent w_request = None.
Proof.
  split; [vm_compute; reflexivity|]. split; [vm_compute; reflexivity|].
  apply (Contains_Entails w_parent w_narrow w_request); vm_compute; reflexivity.
Defined.

(** The three side conditions of the containment theorem are needed.  The
    code accepts each of these child grants under its parent, although the child
    entails an operation the parent refuses: a number or an object under an
    enumeration (a number of the child is an upper bound, a member of the parent's
    list is a value), a member under an object that denies its class, and a step
    that is a multiple of the parent's step in binary64 but not exactly. *)
Lemma Contains_not_behavioural :
  (let p := mkGrant "acme/db-v1:read" (Some [("n", AList [AMap [("a", jnum "5")]])]) None [] in
   let c := mkGrant "acme/db-v1:read" (Some [("n", AMap [("a", jnum "5")])]) None [] in
   let op := mkOp "acme/db-v1:read" (Some [("n", AMap [("a", jnum "3")])]) in
   Contains p c = None ∧ Entails c op = None ∧ Entails p op = Some ErrNotInEnum) ∧
  (let p := mkGrant "acme/db-v1:read" (Some [("n", AList [jnum "5"; jnum "6"])]) None [] in
   let c := mkGrant "acme/db-v1:read" (Some [("n", jnum "5")]) None [] in
   let op := mkOp "acme/db-v1:read" (Some [("n", jnum "3")]) in
   Contains p c = None ∧ Entails c op = None ∧ Entails p op = Some ErrNotInEnum) ∧
  (let p := mkGrant "acme/db-v1:read" (Some [("o", AMap [])]) None [] in
   let c := mkGrant "acme/db-v1:read" (Some [("o", AMap [("a", jnum "1")])]) None [] in
   let op := mkOp "acme/db-v1:read" (Some [("o", AMap [("a", jnum "1")])]) in
   Contains p c = None ∧ Entails c op = None ∧ Entails p op = Some ErrEmptyBoundDenies) ∧
  (let b st := AMap [("step", jnum st)] in
   let p := mkGrant "acme/db-v1:read" None (Some [("x", b "0.01")]) [] in
   let c := mkGrant "acme/db-v1:read" None (Some [("x", b "0.03")]) [] in
   let op := mkOp "acme/db-v1:read" (Some [("x", jnum "0.57")]) in
   Contains p c = None ∧ Entails c op = None ∧ Entails p op = Some ErrParamsNotMultiple).
Proof. vm_compute. done. Qed.
