(* ===== verification/Decisions.v ===== *)
(** * The decision

    What [AuthorizeSet] decides: an abstract specification of the decision (the
    permission of one grant, the obligations it leaves) and the theorem that the
    aggregation loop implements it, whatever the order of the grants. *)

From S2P Require Import Prelude GoStrings GoFloat Json Canonical Ids Values Bounds JsonText.
From S2P Require Import Grants Constraints Authorize Containment.

(** ** Specification *)

(** A constraint the decision accepts: well formed and not violated. *)
Definition constraint_holds (op : Operation) (c : string) : Prop :=
  ValidateConstraint c = None ∧ CheckConstraint c op = None.

(** One grant permits the operation. *)
Definition permits (g : Grant) (op : Operation) : Prop :=
  Entails g op = None ∧ Forall (constraint_holds op) (g_constraints g).

(** The obligations a permitting grant leaves to its consumer: the constraints
    the core does not evaluate itself. *)
Definition obligations (g : Grant) : list string :=
  filter (λ c, coreEvaluatesConstraint c = false) (g_constraints g).

#[global] Instance constraint_holds_dec op c : base.Decision (constraint_holds op c).
Proof. unfold constraint_holds. apply _. Defined.
#[global] Instance permits_dec g op : base.Decision (permits g op).
Proof. unfold permits. apply _. Defined.

(** ** The loop *)

Lemma eval_constraints_inl cs op pg :
  eval_constraints cs op = inl pg ↔
  Forall (constraint_holds op) cs ∧ pg = filter (λ c, coreEvaluatesConstraint c = false) cs.
Proof.
  revert pg. induction cs as [|c cs IH]; intros pg; simpl.
  - rewrite filter_nil. split; [intros; by simplify_eq|by intros [_ ->]].
  - rewrite rguard_inl, check_seq_None, rbind_inl, list.Forall_cons, filter_cons.
    unfold constraint_holds at 1. setoid_rewrite IH. split.
    + intros ([? ?] & pg' & [? ->] & ?). simplify_eq. repeat split; [done..|].
      by destruct (coreEvaluatesConstraint c).
    + intros [[[? ?] ?] ->]. split; [done|]. eexists. repeat split; [done|].
      by destruct (coreEvaluatesConstraint c).
Qed.

Lemma ValidateCapabilityID_empty : ValidateCapabilityID "" ≠ None.
Proof. by vm_compute. Qed.

Lemma permits_id g op : permits g op → g_id g ≠ "".
Proof.
  intros [H _] E. apply Entails_None in H as [(V & _) _]. rewrite E in V.
  by destruct ValidateCapabilityID_empty.
Qed.

Lemma authorize_step_permits op st g :
  permits g op →
  authorize_step op st g = mkAgg (ag_unresolved st ++ obligations g) (ag_first st) true.
Proof.
  intros H. pose proof (permits_id _ _ H) as Hid. destruct H as [He Hc]. unfold authorize_step.
  apply String.eqb_neq in Hid. rewrite Hid, He.
  by rewrite (proj2 (eval_constraints_inl _ _ _) (conj Hc eq_refl)).
Qed.

Lemma set_first_fields r st :
  ag_any (set_first r st) = ag_any st ∧ ag_unresolved (set_first r st) = ag_unresolved st.
Proof. unfold set_first. by destruct (String.eqb _ _). Qed.

Lemma authorize_step_skips op st g :
  ¬ permits g op →
  ag_any (authorize_step op st g) = ag_any st ∧
  ag_unresolved (authorize_step op st g) = ag_unresolved st.
Proof.
  intros H. unfold authorize_step. destruct (String.eqb _ _); [done|].
  destruct (Entails g op) eqn:He.
  - destruct (isParamsLevelReason _); [apply set_first_fields|done].
  - destruct (eval_constraints (g_constraints g) op) eqn:Ec; [|apply set_first_fields].
    apply eval_constraints_inl in Ec as [Hc _]. by destruct H.
Qed.

(** The state after the loop. *)
Lemma authorize_fold op gs st :
  let st' := fold_left (authorize_step op) gs st in
  let ok := filter (λ g, permits g op) gs in
  ag_any st' = ag_any st || negb (length ok =? 0)%nat ∧
  ag_unresolved st' = ag_unresolved st ++ mjoin (obligations <$> ok).
Proof.
  cbv zeta. revert st. induction gs as [|g gs IH]; intros st.
  - rewrite filter_nil. simpl. by rewrite orb_false_r, app_nil_r.
  - cbn [fold_left]. destruct (IH (authorize_step op st g)) as [H1 H2]. rewrite H1, H2, filter_cons.
    destruct (decide (permits g op)) as [Hp|Hp].
    + rewrite authorize_step_permits by done. simpl. by rewrite orb_true_r, <- app_assoc.
    + by destruct (authorize_step_skips op st g Hp) as [-> ->].
Qed.

Lemma permits_all_absent gs g op : g ∈ gs → permits g op → all_absent gs = false.
Proof.
  intros Hin Hp. destruct (all_absent gs) eqn:E; [|done]. unfold all_absent in E.
  rewrite forallb_forall in E. apply list_elem_of_In in Hin. specialize (E _ Hin).
  apply String.eqb_eq in E. by destruct (permits_id _ _ Hp).
Qed.

(** ** Functional characterisation *)

(** The decision specification: permitting grants, and their obligations. *)
Definition decision_of (gs : list Grant) (op : Operation) : option (list string) :=
  match operation_valid op with
  | Some _ => None
  | None =>
      match filter (λ g, permits g op) gs with
      | [] => None
      | ok => Some (sorted_dedup (mjoin (obligations <$> ok)))
      end
  end.

Lemma AuthorizeSet_decision gs op :
  match decision_of gs op with
  | Some [] => AuthorizeSet gs op = allow
  | Some obs => AuthorizeSet gs op = allowUR obs
  | None => ∃ reason, AuthorizeSet gs op = deny reason
  end.
Proof.
  unfold decision_of, AuthorizeSet. destruct (operation_valid op) as [r|] eqn:Ev.
  { destruct (all_absent gs); eauto. }
  destruct (authorize_fold op gs (mkAgg [] "" false)) as [Ha Hu].
  destruct (filter (λ g, permits g op) gs) as [|g ok] eqn:Ef.
  - destruct (all_absent gs); [eauto|]. rewrite Ha. simpl. destruct (String.eqb _ _); eauto.
  - assert (g ∈ filter (λ g, permits g op) gs) as Hg by (rewrite Ef; set_solver).
    apply list_elem_of_filter in Hg as [Hp Hin]. rewrite (permits_all_absent gs g op) by done.
    rewrite Ha, Hu. unfold sortedSet. simpl ([] ++ _). by destruct (sorted_dedup _).
Qed.

Lemma AuthorizeSet_admits gs op :
  admits (AuthorizeSet gs op) = true ↔ ∃ obs, decision_of gs op = Some obs.
Proof.
  pose proof (AuthorizeSet_decision gs op) as H. destruct (decision_of gs op) as [[|]|].
  - rewrite H. split; eauto.
  - rewrite H. split; eauto.
  - destruct H as [r ->]. split; [done|naive_solver].
Qed.

Lemma decision_of_Some gs op obs :
  decision_of gs op = Some obs ↔
  operation_valid op = None ∧ (∃ g, g ∈ gs ∧ permits g op) ∧
  obs = sorted_dedup (mjoin (obligations <$> filter (λ g, permits g op) gs)).
Proof.
  unfold decision_of. destruct (operation_valid op); [naive_solver|].
  destruct (filter (λ g, permits g op) gs) as [|g ok] eqn:Ef.
  - split; [done|]. intros (_ & (g & Hin & Hp) & _).
    assert (g ∈ filter (λ g, permits g op) gs) as Hg by (by apply list_elem_of_filter).
    rewrite Ef in Hg. inversion Hg.
  - rewrite <- Ef. split; [|by intros (_ & _ & ->)]. intros; simplify_eq. split; [done|].
    split; [|done]. exists g.
    assert (g ∈ filter (λ g, permits g op) gs) as Hg by (rewrite Ef; set_solver).
    apply list_elem_of_filter in Hg. naive_solver.
Qed.

Lemma AuthorizeSet_unresolved gs op :
  admits (AuthorizeSet gs op) = true →
  d_unresolved (AuthorizeSet gs op) =
    sorted_dedup (mjoin (obligations <$> filter (λ g, permits g op) gs)).
Proof.
  rewrite AuthorizeSet_admits. intros [obs H]. pose proof (AuthorizeSet_decision gs op) as Hd.
  rewrite H in Hd. apply decision_of_Some in H as (_ & _ & <-). destruct obs; by rewrite Hd.
Qed.

(** No obligation of an admitting grant is dropped and none is invented: an
    admitted decision lists, sorted and without repetition, exactly the
    constraints of the permitting grants that the core does not evaluate. *)
Lemma AuthorizeSet_obligations gs op :
  admits (AuthorizeSet gs op) = true →
  Sorted String.le (d_unresolved (AuthorizeSet gs op)) ∧
  NoDup (d_unresolved (AuthorizeSet gs op)) ∧
  ∀ c, c ∈ d_unresolved (AuthorizeSet gs op) ↔
    ∃ g, g ∈ gs ∧ permits g op ∧ c ∈ g_constraints g ∧ coreEvaluatesConstraint c = false.
Proof.
  intros H. rewrite (AuthorizeSet_unresolved _ _ H).
  split; [apply sorted_dedup_sorted|]. split; [apply sorted_dedup_NoDup|]. intros c.
  rewrite sorted_dedup_elem. unfold obligations. rewrite list_elem_of_join.
  setoid_rewrite list_elem_of_fmap. split.
  - intros (l & Hc & g & -> & [Hp Hg]%list_elem_of_filter). apply list_elem_of_filter in Hc.
    naive_solver.
  - intros (g & Hg & Hp & Hc & He). eexists. split; [|exists g; split; [done|]];
      by apply list_elem_of_filter.
Qed.

(** The constraints of the permitting grants that the core does not evaluate. *)
Definition pending (gs : list Grant) (op : Operation) (c : string) : Prop :=
  ∃ g, g ∈ gs ∧ permits g op ∧ c ∈ g_constraints g ∧ coreEvaluatesConstraint c = false.

Lemma decision_pending gs op obs :
  decision_of gs op = Some obs →
  Sorted String.le obs ∧ NoDup obs ∧ ∀ c, c ∈ obs ↔ pending gs op c.
Proof.
  intros H. assert (admits (AuthorizeSet gs op) = true) as Ha by (apply AuthorizeSet_admits; eauto).
  pose proof (AuthorizeSet_obligations gs op Ha) as Ho. rewrite (AuthorizeSet_unresolved gs op Ha) in Ho.
  apply decision_of_Some in H as (_ & _ & ->). done.
Qed.

(** C1: what the decision is.  It is a plain allow exactly when the operation is
    valid, some grant permits it (one grant of the set entails it, and the
    constraints of that grant are all well formed and not violated), and no
    permitting grant carries a constraint that the core does not evaluate; it is
    allow_unresolved exactly when the operation is valid and permitting grants
    carry such constraints, and then it lists precisely those, sorted and without
    repetition; it is a denial exactly when the operation is not valid or no single
    grant permits it.  So no combination of partially matching grants admits an
    operation, and an unevaluated constraint never yields a plain allow. *)
Theorem AuthorizeSet_admits_iff gs op :
  (AuthorizeSet gs op = allow ↔
     operation_valid op = None ∧ (∃ g, g ∈ gs ∧ permits g op) ∧ ∀ c, ¬ pending gs op c) ∧
  (∀ obs, AuthorizeSet gs op = allowUR obs ↔
     operation_valid op = None ∧ obs ≠ [] ∧ Sorted String.le obs ∧ NoDup obs ∧ ∀ c, c ∈ obs ↔ pending gs op c) ∧
  ((∃ reason, AuthorizeSet gs op = deny reason) ↔
     ¬ (operation_valid op = None ∧ ∃ g, g ∈ gs ∧ permits g op)).
Proof.
  pose proof (AuthorizeSet_decision gs op) as Hd. destruct (decision_of gs op) as [obs|] eqn:E.
  - destruct (decision_pending _ _ _ E) as (Hs & Hn & Hp). apply decision_of_Some in E as (Hv & Hg & _).
    destruct obs as [|o obs].
    + rewrite Hd. split; [|split]; [split; [|done]|intros obs; split; [done|]|split; [by intros []|naive_solver]].
      * intros _. split; [done|]. split; [done|]. intros c Hc%Hp. by apply not_elem_of_nil in Hc.
      * intros (_ & Hne & _ & _ & He). destruct obs as [|c obs]; [done|].
        assert (c ∈ []) as Hc by (apply Hp, He; left). by apply not_elem_of_nil in Hc.
    + rewrite Hd. split; [|split]; [split; [done|]|intros obs'; split|split; [by intros []|naive_solver]].
      * intros (_ & _ & Hno). destruct (Hno o). apply Hp. left.
      * intros [= <-]. done.
      * intros (_ & _ & Hs' & Hn' & He). f_equal. apply sorted_NoDup_unique; [done..|]. intros c. by rewrite Hp, He.
  - destruct Hd as [r Hr]. rewrite Hr.
    assert (¬ (operation_valid op = None ∧ ∃ g, g ∈ gs ∧ permits g op)) as Hno.
    { intros [Hv Hg]. rewrite (proj2 (decision_of_Some gs op _) (conj Hv (conj Hg eq_refl))) in E. done. }
    split; [|split]; [split; [done|naive_solver]|intros obs; split; [done|]|split; eauto].
    intros (Hv & Hne & _ & _ & He). destruct obs as [|c obs]; [done|]. destruct Hno. split; [done|].
    destruct (proj1 (He c) ltac:(left)) as (g & Hg & Hp & _). eauto.
Qed.

(** The verdict and the obligations do not depend on the order in which the
    grants are presented (only the reported refusal may). *)
Lemma AuthorizeSet_permutation gs gs' op :
  gs ≡ₚ gs' →
  d_verdict (AuthorizeSet gs op) = d_verdict (AuthorizeSet gs' op) ∧
  d_unresolved (AuthorizeSet gs op) = d_unresolved (AuthorizeSet gs' op).
Proof.
  intros Hp. assert (decision_of gs op = decision_of gs' op) as E.
  { unfold decision_of. destruct (operation_valid op); [done|].
    assert (filter (λ g, permits g op) gs ≡ₚ filter (λ g, permits g op) gs') as Hf by (by rewrite Hp).
    destruct (filter _ gs) as [|g ok], (filter _ gs') as [|g' ok']; [done|..].
    - by apply Permutation_nil_cons in Hf.
    - symmetry in Hf. by apply Permutation_nil_cons in Hf.
    - f_equal. apply sorted_dedup_ext. intros x. by rewrite Hf. }
  pose proof (AuthorizeSet_decision gs op) as H1. pose proof (AuthorizeSet_decision gs' op) as H2.
  rewrite E in H1. destruct (decision_of gs' op) as [[|]|]; [by rewrite H1, H2..|].
  destruct H1 as [? ->], H2 as [? ->]. done.
Qed.

(** Adding grants never revokes: a set that contains an admitting set
    admits, and keeps every obligation the smaller set had. *)
Lemma AuthorizeSet_monotone gs gs' op :
  gs ⊆ gs' → admits (AuthorizeSet gs op) = true →
  admits (AuthorizeSet gs' op) = true ∧
  d_unresolved (AuthorizeSet gs op) ⊆ d_unresolved (AuthorizeSet gs' op).
Proof.
  intros Hsub H. assert (admits (AuthorizeSet gs' op) = true) as H'.
  { apply AuthorizeSet_admits in H as [obs (Hv & (g & Hg & Hp) & _)%decision_of_Some].
    apply AuthorizeSet_admits. eexists. apply decision_of_Some. split_and!; [done| |done].
    exists g. auto. }
  split; [done|]. rewrite !AuthorizeSet_unresolved by done. intros c. rewrite !sorted_dedup_elem.
  rewrite !list_elem_of_join. setoid_rewrite list_elem_of_fmap. intros (l & Hc & g & -> & Hg).
  exists (obligations g). split; [done|]. exists g. split; [done|].
  apply list_elem_of_filter in Hg as [? ?]. apply list_elem_of_filter. auto.
Qed.

(** ** Concrete instances *)

Definition w_timed : string := "varwof/constraint-v1:time:window:[" +:+ window_json "09:00" "17:30" +:+ "]".
Definition w_set : list Grant :=
  [mkGrant "acme/db-v1:read:*" None None [w_timed];
   mkGrant "acme/db-v1:write:*" None None [];
   mkGrant "acme/db-v1:read:orders" (Some [("max_rows", jnum "100")]) None ["varwof/constraint-v1:max_rows:50"]].
Definition w_query : Operation := mkOp "acme/db-v1:read:orders" (Some [("max_rows", jnum "20")]).

Example w_set_decision : AuthorizeSet w_set w_query = allowUR [w_timed].
Proof. vm_compute. reflexivity. Qed.

Lemma AuthorizeSet_obligations_witness :
  admits (AuthorizeSet w_set w_query) = true ∧
  (Sorted String.le (d_unresolved (AuthorizeSet w_set w_query)) ∧
   NoDup (d_unresolved (AuthorizeSet w_set w_query)) ∧
   ∀ c, c ∈ d_unresolved (AuthorizeSet w_set w_query) ↔
     ∃ g, g ∈ w_set ∧ permits g w_query ∧ c ∈ g_constraints g ∧ coreEvaluatesConstraint c = false).
Proof. split; [vm_compute; reflexivity|]. apply AuthorizeSet_obligations. vm_compute. reflexivity. Defined.

Lemma AuthorizeSet_permutation_witness :
  d_verdict (AuthorizeSet w_set w_query) = d_verdict (AuthorizeSet (rev w_set) w_query) ∧
  d_unresolved (AuthorizeSet w_set w_query) = d_unresolved (AuthorizeSet (rev w_set) w_query).
Proof. apply AuthorizeSet_permutation. apply Permutation_rev. Defined.

(** The reason of a denial is not a function of the inputs.  Two iteration
    orders of the same parameter map give the same verdict and different
    reasons, so re-running a recorded denial need not reproduce its reason. *)
Lemma reason_depends_on_order :
  let a := ("limit", jnum "1") in let b := ("table", AList [AStr "x"]) in
  let g ps := mkGrant "acme/db-v1:read" (Some ps) None [] in
  let op := mkOp "acme/db-v1:read" (Some [("limit", jnum "5"); ("table", AStr "y")]) in
  map_equiv [a; b] [b; a] ∧
  AuthorizeSet [g [a; b]] op = deny ErrParamsExceedGrant ∧
  AuthorizeSet [g [b; a]] op = deny ErrNotInEnum.
Proof. split; [apply Permutation_swap|]. vm_compute. done. Qed.
