(* ===== verification/Composition.v ===== *)
(** * Composition narrows

    [Intersect] of semantics/semantics.go: an operation the effective grant
    entails stays within the declarations of every source; and
    [AuthorizeWithChain] of semantics/authorizechain.go: an operation a chain
    admits is entailed by every grant of the chain, with every constraint of
    every grant checked. *)

From Stdlib Require Import Floats.SpecFloat.
From S2P Require Import Prelude GoStrings GoFloat Json Canonical Ids Values Bounds JsonText.
From S2P Require Import Grants Constraints Authorize Containment Decisions BoundMeet.

(** ** The meet of two values is a decoded, canonical value *)

Lemma validateCanonicalStrings_map m d :
  validateCanonicalStrings (AMap m) d = None ↔
  d <= maxCanonicalDepth ∧ ∀ k v, (k, v) ∈ m →
    checkCanonicalString k = None ∧ validateCanonicalStrings v (d + 1) = None.
Proof.
  cbn [validateCanonicalStrings]. rewrite check_seq_None, guard_None, Z.ltb_ge, check_all_None.
  apply and_iff_compat_l. split.
  - intros H k v Hin. specialize (H _ Hin). by rewrite check_seq_None in H.
  - intros H [k v] Hin. rewrite check_seq_None. by apply H.
Qed.

Lemma validateCanonicalStrings_list l d :
  validateCanonicalStrings (AList l) d = None ↔
  d <= maxCanonicalDepth ∧ ∀ v, v ∈ l → validateCanonicalStrings v (d + 1) = None.
Proof.
  cbn [validateCanonicalStrings]. by rewrite check_seq_None, guard_None, Z.ltb_ge, check_all_None.
Qed.

Lemma forallb_elem {A} (f : A → bool) l : forallb f l = true ↔ ∀ x, x ∈ l → f x = true.
Proof. rewrite forallb_forall. by setoid_rewrite list_elem_of_In. Qed.

Lemma forallb_false {A} (f : A → bool) l : forallb f l = false → ∃ x, x ∈ l ∧ f x = false.
Proof.
  induction l as [|x l IH]; simpl; [done|]. destruct (f x) eqn:E; simpl.
  - intros (y & ? & ?)%IH. exists y. set_solver.
  - intros _. exists x. set_solver.
Qed.

Lemma exists_cons {A} (P : A → Prop) a l :
  (∃ x, x ∈ a :: l ∧ P x) ↔ P a ∨ ∃ x, x ∈ l ∧ P x.
Proof. setoid_rewrite elem_of_cons. naive_solver. Qed.

Lemma decoded_map_iff m :
  decoded (AMap m) = true ↔ wf_map m ∧ ∀ k v, (k, v) ∈ m → decoded v = true.
Proof.
  cbn [decoded]. rewrite andb_true_iff, bool_decide_eq_true, forallb_elem.
  apply and_iff_compat_l. split; [intros H k v; apply (H (k, v))|intros H [k v]; apply H].
Qed.

Lemma encodable_map_iff m : encodable (AMap m) = true ↔ ∀ k v, (k, v) ∈ m → encodable v = true.
Proof.
  cbn [encodable]. rewrite forallb_elem. split; [intros H k v; apply (H (k, v))|intros H [k v]; apply H].
Qed.

(** A value as the decision layer handles it, at some nesting depth. *)
Definition good_at (d : Z) (v : any) : Prop :=
  validateCanonicalStrings v d = None ∧ encodable v = true ∧ decoded v = true.

Lemma good_at_map d m :
  good_at d (AMap m) ↔
  d <= maxCanonicalDepth ∧ wf_map m ∧ ∀ k v, (k, v) ∈ m → checkCanonicalString k = None ∧ good_at (d + 1) v.
Proof.
  unfold good_at. rewrite validateCanonicalStrings_map, decoded_map_iff, encodable_map_iff. split.
  - intros ([? H1] & H2 & ? & H3). split_and!; [done..|]. intros k v Hin. destruct (H1 _ _ Hin). split_and!; eauto.
  - intros (? & ? & H). split_and!; [done| | |done|].
    all: intros k v Hin; destruct (H _ _ Hin) as (? & ? & ? & ?); auto.
Qed.

Lemma meet_members_wf meet bv l r : meet_members meet bv l = inl r → wf_map l → wf_map r.
Proof. intros [Hk _]%meet_members_inv. unfold wf_map. by rewrite Hk. Qed.

(** Every member of a member-wise meet is the meet of two members. *)
Lemma meet_members_elem meet bv l r k v :
  wf_map l → meet_members meet bv l = inl r → (k, v) ∈ r →
  ∃ a b, (k, a) ∈ l ∧ mget k bv = Some b ∧ meet a b = inl v.
Proof.
  intros Wl Hm Hin. pose proof (meet_members_wf _ _ _ _ Hm Wl) as Wr.
  destruct (meet_members_inv _ _ _ _ Hm) as [Hk Hmem].
  assert (k ∈ mkeys l) as ([k' a] & -> & Ha)%list_elem_of_fmap.
  { rewrite <- Hk. by eapply mkeys_elem. }
  destruct (Hmem _ _ Ha) as (b & v' & Hb & Hv & Hin'). exists a, b. simpl in *.
  apply (elem_mget _ _ _ Wr) in Hin, Hin'. by simplify_eq.
Qed.

Lemma intersectValue_good a : ∀ b r d,
  good_at d a → good_at d b → intersectValue a b = inl r → good_at d r.
Proof.
  induction a as [|x|s|f|f|k z|av _|am IH] using any_nested_ind; intros b r d Ga Gb H; cbn [intersectValue] in H;
    try (by destruct (enumEqual _ b); simplify_eq).
  - destruct b; simplify_eq. by destruct (flt _ _).
  - destruct b as [| | | | | |bv|]; simplify_eq. destruct (enum_inter av bv) as [|x l] eqn:E; [done|].
    injection H as <-. rewrite <- E. assert (∀ x, x ∈ enum_inter av bv → x ∈ av) as Hsub.
    { by intros y [? _]%enum_inter_elem. }
    destruct Ga as (G1 & G2 & G3). rewrite validateCanonicalStrings_list in G1.
    cbn [encodable decoded] in *. unfold good_at. rewrite validateCanonicalStrings_list.
    cbn [encodable decoded]. rewrite !forallb_elem in *. naive_solver.
  - destruct b as [| | | | | | |bm]; simplify_eq. destruct (negb _); [done|].
    apply rbind_inl in H as (rm & Hm & Hr). destruct rm as [|e rm]; [done|]. injection Hr as <-.
    apply good_at_map in Ga as (? & Wa & Ga). apply good_at_map in Gb as (_ & Wb & Gb).
    apply good_at_map. split_and!; [done|by eapply meet_members_wf|]. intros k v Hin.
    destruct (meet_members_elem _ _ _ _ _ _ Wa Hm Hin) as (a & b & Ha & Hb & Hv).
    destruct (Ga _ _ Ha), (Gb k b (mget_elem _ _ _ Hb)). split; [done|].
    rewrite list.Forall_forall in IH. by apply (IH (k, a) Ha b v).
Qed.

(** ** The merge of two parameter maps *)

(** Parameter maps of a source or of an intermediate result. *)
Definition params_good (m : gomap any) : Prop := good_at 0 (AMap m).

(** Where a key of [src] is declared, [out] admits only what [src] admits. *)
Definition params_within (out src : gomap any) : Prop :=
  ∀ k s, mget k src = Some s → ∃ r, mget k out = Some r ∧
    ∀ o, canonical_ok o → valueSubset o r = None → valueSubset o s = None.

Lemma params_within_refl m : params_within m m.
Proof. intros k s Hs. eauto. Qed.

Lemma params_within_trans a b c : params_within a b → params_within b c → params_within a c.
Proof.
  intros H1 H2 k s Hs. destruct (H2 k s Hs) as (r & Hr & Hn).
  destruct (H1 k r Hr) as (r' & Hr' & Hn'). exists r'. eauto.
Qed.

Lemma good_at_canonical d v : 0 <= d → good_at d v → canonical_ok v.
Proof. intros Hd (H1 & H2 & _). split; [|done]. by apply (validateCanonicalStrings_mono v d). Qed.

Lemma merge_shared_get gp rp r k :
  merge_shared gp rp = inl r →
  mkeys r = mkeys rp ∧
  match mget k rp with
  | None => mget k r = None
  | Some rv => ∃ v, mget k r = Some v ∧
                 match mget k gp with Some gv => intersectValue rv gv = inl v | None => v = rv end
  end.
Proof.
  revert r. induction rp as [|[k0 v0] rp IH]; intros r; cbn [merge_shared].
  - intros; by simplify_eq.
  - rewrite rbind_inl. intros (v & Hv & H). apply rbind_inl in H as (r' & Hr' & [= <-]).
    destruct (IH r' Hr') as [Hk Hg]. cbn [fst snd] in *. simpl. split; [by f_equal|].
    destruct (String.eqb_spec k k0) as [->|]; [|done]. exists v. split; [done|].
    destruct (mget k0 gp); by simplify_eq.
Qed.

Lemma mget_app {A} k (m1 m2 : gomap A) :
  mget k (m1 ++ m2) = match mget k m1 with Some v => Some v | None => mget k m2 end.
Proof. induction m1 as [|[k0 v0] m1 IH]; simpl; [done|]. by destruct (String.eqb k k0). Qed.

Lemma mget_filter_absent {A} k (gp rp : gomap A) :
  mget k rp = None → mget k (filter (λ kv : string * A, mget kv.1 rp = None) gp) = mget k gp.
Proof.
  intros H. induction gp as [|[k0 v0] gp IH]; [done|]. rewrite filter_cons. simpl.
  case_decide as Hd; simpl; rewrite ?IH; destruct (String.eqb_spec k k0) as [->|]; congruence.
Qed.

Lemma merge_params_get rp gp m k :
  merge_params rp gp = inl m →
  mget k m = match mget k rp with
             | None => mget k gp
             | Some rv => match mget k gp with
                          | Some gv => match intersectValue rv gv with inl v => Some v | inr _ => None end
                          | None => Some rv
                          end
             end ∧
  (∀ rv gv, mget k rp = Some rv → mget k gp = Some gv → ∃ v, intersectValue rv gv = inl v).
Proof.
  unfold merge_params. rewrite rbind_inl. intros (r & Hr & [= <-]).
  destruct (merge_shared_get gp rp r k Hr) as [_ Hg]. rewrite mget_app.
  destruct (mget k rp) as [rv|] eqn:E.
  - destruct Hg as (v & Hv & Hg). rewrite Hv. destruct (mget k gp) as [gv|].
    + rewrite Hg. split; [done|]. intros; simplify_eq. eauto.
    + subst. done.
  - rewrite Hg. rewrite mget_filter_absent by done. done.
Qed.

Lemma merge_params_wf rp gp m : wf_map rp → wf_map gp → merge_params rp gp = inl m → wf_map m.
Proof.
  unfold merge_params. intros Wr Wg. rewrite rbind_inl. intros (r & Hr & [= <-]).
  destruct (merge_shared_get gp rp r "" Hr) as [Hk _]. unfold wf_map, mkeys in *.
  rewrite fmap_app. apply list.NoDup_app. split_and!; [by rewrite Hk| |].
  - rewrite Hk. intros x Hx ([k v] & -> & Hin)%list_elem_of_fmap.
    apply list_elem_of_filter in Hin as [Hn _]. simpl in *. by apply mget_None in Hn.
  - clear -Wg. induction gp as [|[k0 v0] gp IH]; [constructor|]. rewrite filter_cons.
    simpl in Wg. apply list.NoDup_cons in Wg as [Hn Hnd]. case_decide; [|by apply IH].
    simpl. apply list.NoDup_cons. split; [|by apply IH].
    intros ([k v] & -> & Hin)%list_elem_of_fmap. apply list_elem_of_filter in Hin as [_ Hin].
    destruct Hn. by apply (mkeys_elem k v).
Qed.

Lemma merge_params_ok rp gp m :
  params_good rp → params_good gp → merge_params rp gp = inl m →
  params_good m ∧ params_within m rp ∧ params_within m gp ∧
  ∀ k, k ∈ mkeys m ↔ k ∈ mkeys rp ∨ k ∈ mkeys gp.
Proof.
  intros Gr Gg H. apply good_at_map in Gr as (Hd & Wr & Gr). apply good_at_map in Gg as (_ & Wg & Gg).
  pose proof (λ k, merge_params_get rp gp m k H) as Hg.
  assert (wf_map m) as Wm by (by apply (merge_params_wf rp gp)).
  assert (∀ k rv gv v, mget k rp = Some rv → mget k gp = Some gv → intersectValue rv gv = inl v →
     ∀ o, canonical_ok o → valueSubset o v = None → valueSubset o rv = None ∧ valueSubset o gv = None) as Hmeet.
  { intros k rv gv v Hrv Hgv Hi o Ho Hs. destruct (Gr _ _ (mget_elem _ _ _ Hrv)) as [_ G1].
    destruct (Gg _ _ (mget_elem _ _ _ Hgv)) as [_ G2]. destruct G1 as (? & ? & ?) eqn:E1, G2 as (? & ? & ?) eqn:E2.
    apply (intersectValue_narrows rv gv v o); [done..| | |done|done|done];
      apply (good_at_canonical (0 + 1)); done || lia. }
  split_and!.
  - apply good_at_map. split_and!; [done..|]. intros k v Hin%elem_mget; [|done].
    destruct (Hg k) as [Hk Hex]. rewrite Hin in Hk. destruct (mget k rp) as [rv|] eqn:Er.
    + destruct (Gr _ _ (mget_elem _ _ _ Er)) as [? G1]. split; [done|].
      destruct (mget k gp) as [gv|] eqn:Eg; [|by simplify_eq].
      destruct (Hex rv gv eq_refl eq_refl) as [v' Hv']. rewrite Hv' in Hk. simplify_eq.
      apply (intersectValue_good rv gv); [done|by apply (Gg k gv), mget_elem|done].
    + by apply Gg, mget_elem.
  - intros k s Hs. destruct (Hg k) as [Hk Hex]. rewrite Hs in *. destruct (mget k gp) as [gv|] eqn:Eg; [|eauto].
    destruct (Hex s gv eq_refl eq_refl) as [v' Hv']. rewrite Hv' in Hk. exists v'. split; [done|].
    intros o Ho Hv. by apply (Hmeet k s gv v' Hs Eg Hv' o).
  - intros k s Hs. destruct (Hg k) as [Hk Hex]. rewrite Hs in *. destruct (mget k rp) as [rv|] eqn:Er; [|eauto].
    destruct (Hex rv s eq_refl eq_refl) as [v' Hv']. rewrite Hv' in Hk. exists v'. split; [done|].
    intros o Ho Hv. by apply (Hmeet k rv s v' Er Hs Hv' o).
  - intros k. rewrite <- !mhas_true. unfold mhas. destruct (Hg k) as [-> Hex].
    destruct (mget k rp) as [rv|], (mget k gp) as [gv|]; [|clear; naive_solver..].
    destruct (Hex rv gv eq_refl eq_refl) as [v' ->]. clear. naive_solver.
Qed.

(** ** The merge of two grants *)

(** The invariant of the merge loop. *)
Definition grant_good (steps : list string → float64) (g : Grant) : Prop :=
  params_good (entries (g_params g)) ∧ bounds_wf steps (entries (g_bounds g)).

(** [out] is within every declaration of [src]. *)
Record grant_within (out src : Grant) : Prop := {
  gw_id : ∀ o, id_covers (g_id out) o → id_covers (g_id src) o;
  gw_params : params_within (entries (g_params out)) (entries (g_params src));
  gw_bounds : bounds_within (entries (g_bounds out)) (entries (g_bounds src))
}.

#[global] Instance grant_within_preorder : PreOrder grant_within.
Proof.
  split.
  - intros g. split; [done|apply params_within_refl|apply bounds_within_refl].
  - intros a b c [I1 P1 B1] [I2 P2 B2].
    split; [auto|by eapply params_within_trans|by eapply bounds_within_trans].
Qed.

(** The keys and constraints of a merge are those of its operands. *)
Definition decl_keys (g : Grant) (k : string) : Prop :=
  k ∈ mkeys (entries (g_params g)) ∨ k ∈ mkeys (entries (g_bounds g)).

Lemma merge_id_covers rid gid id o :
  merge_id rid gid = inl id → id_covers id o → id_covers rid o ∧ id_covers gid o.
Proof.
  unfold merge_id. destruct (String.eqb_spec rid gid) as [->|]; [naive_solver|].
  destruct (Entails (mkGrant rid None None []) _) eqn:E1.
  - destruct (Entails (mkGrant gid None None []) _) eqn:E2; [done|]. intros [= <-] Ho.
    apply Entails_None in E2 as [Hc _]. simpl in Hc. eauto using id_covers_trans.
  - intros [= <-] Ho. apply Entails_None in E1 as [Hc _]. simpl in Hc. eauto using id_covers_trans.
Qed.

Lemma merge_opt_params_ok rp gp m :
  params_good (entries rp) → params_good (entries gp) → merge_opt_params rp gp = inl m →
  params_good (entries m) ∧ params_within (entries m) (entries rp) ∧ params_within (entries m) (entries gp) ∧
  ∀ k, k ∈ mkeys (entries m) ↔ k ∈ mkeys (entries rp) ∨ k ∈ mkeys (entries gp).
Proof.
  intros Gr Gg. destruct rp as [rp|], gp as [gp|]; cbn [merge_opt_params].
  - rewrite rbind_inl. intros (m' & Hm & [= <-]). by apply merge_params_ok.
  - intros [= <-]. split_and!; [done|apply params_within_refl|done|set_solver].
  - intros [= <-]. split_and!; [done|done|apply params_within_refl|set_solver].
  - intros [= <-]. split_and!; [done..|set_solver].
Qed.

Lemma mlen_zero {A} (m : option (gomap A)) : (0 <? mlen m)%nat = false → entries m = [].
Proof. unfold mlen. by destruct (entries m). Qed.

Lemma merge_bounds_ok steps rb gb m :
  bounds_wf steps (entries rb) → bounds_wf steps (entries gb) → merge_bounds rb gb = inl m →
  bounds_wf steps (entries m) ∧ bounds_within (entries m) (entries rb) ∧
  bounds_within (entries m) (entries gb) ∧
  ∀ k, k ∈ mkeys (entries m) ↔ k ∈ mkeys (entries rb) ∨ k ∈ mkeys (entries gb).
Proof.
  intros Wr Wg. unfold merge_bounds. destruct (0 <? mlen rb)%nat eqn:Er, (0 <? mlen gb)%nat eqn:Eg; simpl.
  - rewrite rbind_inl. intros (m' & Hm & [= <-]). by apply intersectBounds_ok.
  - intros [= <-]. rewrite (mlen_zero _ Eg). split_and!; [done|apply bounds_within_refl|done|set_solver].
  - intros [= <-]. rewrite (mlen_zero _ Er). simpl.
    split_and!; [done|done|apply bounds_within_refl|set_solver].
  - intros [= <-]. rewrite (mlen_zero _ Er), (mlen_zero _ Eg) in *. split_and!; [done..|set_solver].
Qed.

Lemma merge_grant_ok steps r g m :
  grant_good steps r → grant_good steps g → merge_grant r g = inl m →
  grant_good steps m ∧ grant_within m r ∧ grant_within m g ∧
  (∀ k, decl_keys m k ↔ decl_keys r k ∨ decl_keys g k) ∧
  (∀ c, c ∈ g_constraints m ↔ c ∈ g_constraints r ∨ c ∈ g_constraints g).
Proof.
  intros [Pr Br] [Pg Bg]. unfold merge_grant. rewrite rbind_inl. intros (id & Hid & H).
  apply rbind_inl in H as (ps & Hps & H). apply rbind_inl in H as (bs & Hbs & [= <-]).
  destruct (merge_opt_params_ok _ _ _ Pr Pg Hps) as (P1 & P2 & P3 & P4).
  destruct (merge_bounds_ok _ _ _ _ Br Bg Hbs) as (B1 & B2 & B3 & B4).
  split_and!; [done| | | |].
  - split; [|done..]. simpl. intros o Ho. by apply (merge_id_covers _ _ _ o Hid).
  - split; [|done..]. simpl. intros o Ho. by apply (merge_id_covers _ _ _ o Hid).
  - intros k. unfold decl_keys. simpl. rewrite P4, B4. clear. naive_solver.
  - intros c. simpl. unfold mergeConstraints. by rewrite sorted_dedup_elem, elem_of_app.
Qed.

Lemma merge_all_ok steps gs : ∀ r m,
  grant_good steps r → Forall (grant_good steps) gs → merge_all r gs = inl m →
  (∀ g, g ∈ r :: gs → grant_within m g) ∧
  (∀ k, decl_keys m k ↔ ∃ g, g ∈ r :: gs ∧ decl_keys g k) ∧
  (∀ c, c ∈ g_constraints m ↔ ∃ g, g ∈ r :: gs ∧ c ∈ g_constraints g).
Proof.
  induction gs as [|g gs IH]; intros r m Gr Ggs; cbn [merge_all].
  - intros [= <-]. setoid_rewrite list_elem_of_singleton. split_and!; [by intros ? ->|naive_solver..].
  - apply list.Forall_cons in Ggs as [Gg Ggs]. rewrite rbind_inl. intros (r' & Hr' & Hm).
    destruct (merge_grant_ok steps r g r' Gr Gg Hr') as (G' & W1 & W2 & K & C).
    destruct (IH r' m G' Ggs Hm) as (IW & IK & IC).
    pose proof (IW r' ltac:(set_solver)) as Wr'. split_and!.
    + intros g' Hg'. apply elem_of_cons in Hg' as [->|[->|Hg']%elem_of_cons].
      * by trans r'.
      * by trans r'.
      * apply IW. set_solver.
    + intros k. rewrite IK, !exists_cons, K. tauto.
    + intros c. rewrite IC, !exists_cons, C. tauto.
Qed.

(** ** The effective grant *)

(** A grant as the decoder produces it. *)
Definition grant_decoded (g : Grant) : bool :=
  decoded (AMap (entries (g_params g))) && decoded (AMap (entries (g_bounds g))).

(** The sources agree on the steps they declare: at every member path, all
    declared steps are the same number. *)
Definition steps_agree (gs : list Grant) : Prop :=
  ∃ steps : list string → float64,
    ∀ g k b, g ∈ gs → (k, b) ∈ entries (g_bounds g) → steps_follow (λ p, steps (k :: p)) b.

Lemma source_valid_None g :
  source_valid g = None ↔
  (∀ p, g_params g = Some p → ValidateGrantParams p = None) ∧
  ValidateParamBounds (g_bounds g) (g_params g) = None.
Proof. unfold source_valid. rewrite check_seq_None. destruct (g_params g), (g_bounds g); naive_solver. Qed.

Lemma source_good steps g :
  source_valid g = None → grant_decoded g = true →
  (∀ k b, (k, b) ∈ entries (g_bounds g) → steps_follow (λ p, steps (k :: p)) b) → grant_good steps g.
Proof.
  rewrite source_valid_None. unfold grant_decoded. intros [Hp Hb] Hd Hs.
  apply andb_true_iff in Hd as [Hdp Hdb]. split.
  - assert (canonical_ok (AMap (entries (g_params g)))) as [? ?]; [|by split].
    destruct (g_params g) as [p|]; [|done]. by apply ValidateGrantParams_canonical, Hp.
  - split; [by apply decoded_wf|]. intros k b Hin.
    destruct (bound_entry_valid g k b Hb Hin) as (V & C & _).
    apply validateBound_wf; [done..|by eapply decoded_map|auto].
Qed.

Lemma Intersect_inl gs e :
  Intersect gs = inl e →
  ∃ g0 rest, gs = g0 :: rest ∧ merge_all g0 rest = inl e ∧
    (∀ g, g ∈ gs → source_denies g = None ∧ source_valid g = None).
Proof.
  unfold Intersect. destruct gs as [|g0 rest]; [done|]. rewrite rguard_inl, !check_seq_None, !check_all_None.
  intros ((H1 & _ & H2) & Hm). exists g0, rest. split_and!; [done..|]. auto.
Qed.

(** Every source is respected by the effective grant. *)
Lemma Intersect_within gs e :
  Intersect gs = inl e → Forall (λ g, grant_decoded g = true) gs → steps_agree gs →
  (∀ g, g ∈ gs → grant_within e g) ∧
  (∀ k, decl_keys e k ↔ ∃ g, g ∈ gs ∧ decl_keys g k) ∧
  (∀ c, c ∈ g_constraints e ↔ ∃ g, g ∈ gs ∧ c ∈ g_constraints g).
Proof.
  intros H Hd [steps Hs]. apply Intersect_inl in H as (g0 & rest & -> & Hm & Hv).
  rewrite list.Forall_forall in Hd.
  assert (∀ g, g ∈ g0 :: rest → grant_good steps g) as Hg.
  { intros g Hin. apply source_good; [by apply Hv|by apply Hd|]. intros k b Hkb. by apply (Hs g). }
  apply (merge_all_ok steps); [apply Hg; set_solver| |done].
  apply list.Forall_forall. intros g Hin. apply Hg. set_solver.
Qed.

Lemma unbound_keys g : unbound g = true ↔ entries (g_params g) = [] ∧ entries (g_bounds g) = [].
Proof.
  unfold unbound, mlen. rewrite andb_true_iff, !Nat.eqb_eq. by rewrite !length_zero_iff_nil.
Qed.

Lemma unbound_decl g : unbound g = false ↔ ∃ k, decl_keys g k.
Proof.
  rewrite <- not_true_iff_false, unbound_keys. unfold decl_keys, mkeys. split.
  - intros H. destruct (entries (g_params g)) as [|[k v] ps]; [|exists k; set_solver].
    destruct (entries (g_bounds g)) as [|[k v] bs]; [by destruct H|exists k; set_solver].
  - intros [k Hk] [E1 E2]. rewrite E1, E2 in Hk. set_solver.
Qed.

(** The entailment of a source that declares every key of the request. *)
Lemma within_Entails e g op :
  source_denies g = None → source_valid g = None → grant_decoded g = true →
  grant_within e g → (∀ k, decl_keys g k → decl_keys e k) → Entails e op = None →
  unbound g = true ∨ (∀ k, k ∈ mkeys (entries (op_params op)) → decl_keys g k) →
  Entails g op = None.
Proof.
  intros Hden Hval Hdec [Wi Wp Wb] Hkeys He Hcl. apply Entails_None in He as [Hid He]. apply Entails_None.
  split; [by apply Wi|]. destruct (unbound g) eqn:Eu; [by left|right]. destruct Hcl as [?|Hcl]; [done|].
  destruct He as [Ee|(_ & _ & Vo & [D1 D2 D3 D4 D5 D6])].
  { apply unbound_decl in Eu as [k Hk%Hkeys]. apply unbound_keys in Ee as [E1 E2].
    unfold decl_keys in Hk. rewrite E1, E2 in Hk. set_solver. }
  apply source_valid_None in Hval as [VP VB].
  unfold grant_decoded in Hdec. apply andb_true_iff in Hdec as [Dp%decoded_wf Db%decoded_wf].
  pose proof (op_canonical op Vo) as Co.
  split_and!; [done| |done|].
  - intros _. destruct (g_params g); [by apply VP|done].
  - split; [| |done| | |done].
    + unfold source_denies in Hden. by apply check_seq_None in Hden as [?%guard_None _].
    + intros k s Hin. destruct (g_params g) as [ps|]; [|by apply not_elem_of_nil in Hin].
      by apply (params_not_nil ps k); auto.
    + intros k s Hin%elem_mget; [|done]. destruct (Wp k s Hin) as (r & Hr & Hn).
      destruct (D4 k r (mget_elem _ _ _ Hr)) as (v & Hv & Hs). exists v. split; [done|].
      apply Hn; [by apply (canonical_ok_mget _ k v Co)|done].
    + intros k s Hin%elem_mget; [|done]. destruct (Wb k s Hin) as (r & Hr & Ho & Hn).
      specialize (D5 k r (mget_elem _ _ _ Hr)). destruct (mget k (entries (op_params op))) eqn:E; [|auto].
      apply Hn; [by apply (canonical_ok_mget _ k _ Co)|done].
Qed.

(** C2: composition only narrows.  For decoded grants whose numeric steps agree (at
    every path of a Bound, the sources that declare a step declare the same
    number), whatever their intersection entails, each source covers the
    identifier of, and each source entails too, unless the request uses a key that
    source does not declare (the effective grant declares the union of the keys of
    its sources). *)
Theorem Intersect_narrows gs e op g :
  Intersect gs = inl e → Forall (λ g, grant_decoded g = true) gs → steps_agree gs →
  Entails e op = None → g ∈ gs →
  id_covers (g_id g) (op_id op) ∧
  (Entails g op = None ∨
   ∃ k, k ∈ mkeys (entries (op_params op)) ∧ grantDeclares g k = false).
Proof.
  intros Hi Hd Hs He Hin. destruct (Intersect_within _ _ Hi Hd Hs) as (Hw & Hk & _).
  pose proof He as [Hid _]%Entails_None. split; [by apply (Hw g Hin)|].
  destruct (forallb (grantDeclares g) (mkeys (entries (op_params op)))) eqn:E.
  - left. destruct (Intersect_inl _ _ Hi) as (_ & _ & _ & _ & Hv). destruct (Hv g Hin).
    rewrite list.Forall_forall in Hd. apply (within_Entails e); auto.
    + intros k Hk'. apply Hk. eauto.
    + right. intros k Hin'. rewrite forallb_elem in E. specialize (E k Hin'). unfold grantDeclares in E.
      by rewrite orb_true_iff, !mhas_true in E.
  - right. by apply forallb_false in E.
Qed.

(** ** Chains *)

(** The hop relation on declarations: a parent without declarations, or the same
    keys on both sides. *)
Definition hop (p c : Grant) : Prop :=
  unbound p = true ∨ (unbound c = false ∧ ∀ k, decl_keys c k ↔ decl_keys p k).

Lemma Contains_hop p c : Contains p c = None → hop p c.
Proof.
  rewrite Contains_None. intros (_ & _ & _ & [?|[Hu [N1 N2 N3 N4]]]); [by left|]. right. split; [done|].
  intros k. unfold decl_keys. split; [intros [?|?]; auto|].
  intros [H|H]; [left|right]; apply list_elem_of_fmap in H as ([k' v] & -> & Hin).
  - destruct (N1 _ _ Hin) as (x & Hx%mget_elem & _). by eapply mkeys_elem.
  - destruct (N2 _ _ Hin) as (x & Hx%mget_elem & _). by eapply mkeys_elem.
Qed.

Lemma hop_trans a b c : hop a b → hop b c → hop a c.
Proof.
  intros [?|[Hb Hab]] Hbc; [by left|]. destruct Hbc as [?|[Hc Hbc]]; [congruence|]. right.
  split; [done|]. intros k. by rewrite Hbc.
Qed.

Lemma check_hops_all p rest : check_hops (p :: rest) = None → Forall (hop p) rest.
Proof.
  revert p. induction rest as [|c rest IH]; intros p H; [constructor|].
  cbn [check_hops] in H. apply check_seq_None in H as [Hpc%Contains_hop Hr]. constructor; [done|].
  eapply list.Forall_impl; [exact (IH c Hr)|]. intros d Hd. by apply (hop_trans p c d).
Qed.

Lemma check_hops_tail g chain : check_hops (g :: chain) = None → check_hops chain = None.
Proof. destruct chain; [done|]. cbn [check_hops]. by intros [_ ?]%check_seq_None. Qed.

(** A grant of a chain that declares anything declares every key of the chain. *)
Lemma check_hops_keys chain g g' k :
  check_hops chain = None → g ∈ chain → g' ∈ chain → unbound g = false → decl_keys g' k → decl_keys g k.
Proof.
  induction chain as [|p rest IH]; intros Hh Hg Hg' Hu Hk; [set_solver|].
  pose proof (check_hops_all _ _ Hh) as Hp. rewrite list.Forall_forall in Hp.
  apply elem_of_cons in Hg as [->|Hg], Hg' as [->|Hg']; [done| | |].
  - destruct (Hp _ Hg') as [?|[_ He]]; [congruence|]. by apply He.
  - destruct (Hp _ Hg) as [Hup|[_ He]]; [|by apply He].
    assert (unbound p = false) by (apply unbound_decl; eauto). congruence.
  - apply IH; eauto using check_hops_tail.
Qed.

Lemma AuthorizeWithChain_admits chain op :
  admits (AuthorizeWithChain chain op) = true →
  ∃ e, check_hops chain = None ∧ Intersect chain = inl e ∧
       AuthorizeWithChain chain op = Authorize e op ∧ permits e op.
Proof.
  unfold AuthorizeWithChain. destruct chain as [|g0 rest]; [done|].
  destruct (check_hops _) eqn:Eh; [done|]. destruct (Intersect _) as [e|] eqn:Ei; [|done].
  intros H. exists e. split_and!; [done..|].
  apply AuthorizeSet_admits in H as [obs (_ & (g & ->%list_elem_of_singleton & Hp) & _)%decision_of_Some].
  done.
Qed.

(** C3: a chain admits only what every grant of it entails, and enforces every
    constraint of every grant: for a chain of decoded grants that agree on their
    steps, an admitted operation is entailed by each grant, each constraint of
    each grant is well formed and not violated, and each constraint the core does
    not evaluate is among the reported obligations. *)
Theorem AuthorizeWithChain_sound chain op g :
  admits (AuthorizeWithChain chain op) = true →
  Forall (λ g, grant_decoded g = true) chain → steps_agree chain → g ∈ chain →
  permits g op ∧
  ∀ c, c ∈ g_constraints g → coreEvaluatesConstraint c = false →
       c ∈ d_unresolved (AuthorizeWithChain chain op).
Proof.
  intros H Hd Hs Hin. pose proof (AuthorizeWithChain_admits _ _ H) as (e & Hh & Hi & Ha & [He Hc]).
  destruct (Intersect_within _ _ Hi Hd Hs) as (Hw & Hk & Hcs).
  destruct (Intersect_inl _ _ Hi) as (_ & _ & _ & _ & Hv). destruct (Hv g Hin) as [? ?].
  rewrite list.Forall_forall in Hd. rewrite list.Forall_forall in Hc. split; [split|].
  - apply (within_Entails e); auto; [intros k ?; apply Hk; eauto|].
    destruct (unbound g) eqn:Eu; [by left|right]. intros k Hok.
    assert (decl_keys e k) as (g' & Hg' & Hk')%Hk; [|by eapply check_hops_keys].
    apply Entails_None in He as [_ [Hub|(_ & _ & _ & [_ _ _ _ _ D6])]]; [|by apply D6].
    apply unbound_decl in Eu as [k' Hk']. assert (decl_keys e k') as Hke by (apply Hk; eauto).
    assert (unbound e = false) by (apply unbound_decl; eauto). congruence.
  - apply list.Forall_forall. intros c Hcin. apply Hc, Hcs. eauto.
  - intros c Hcin Hcore. rewrite Ha in *. unfold Authorize in *. rewrite AuthorizeSet_unresolved by done.
    rewrite sorted_dedup_elem, list_elem_of_join. exists (obligations e). split.
    + apply list_elem_of_filter. split; [done|]. apply Hcs. eauto.
    + apply list_elem_of_fmap. exists e. split; [done|]. apply list_elem_of_filter.
      split; [|set_solver]. split; [done|]. by apply list.Forall_forall.
Qed.

(** ** The union of constraints *)

Lemma constraint_fold gs : ∀ out c,
  c ∈ fold_left (λ out g, mergeConstraints out (g_constraints g)) gs out ↔
  c ∈ out ∨ ∃ g, g ∈ gs ∧ c ∈ g_constraints g.
Proof.
  induction gs as [|g gs IH]; intros out c; cbn [fold_left].
  - set_solver.
  - rewrite IH, exists_cons. unfold mergeConstraints. rewrite sorted_dedup_elem, elem_of_app. tauto.
Qed.

Lemma merge_all_constraints gs : ∀ r m,
  merge_all r gs = inl m →
  g_constraints m = fold_left (λ out g, mergeConstraints out (g_constraints g)) gs (g_constraints r).
Proof.
  induction gs as [|g gs IH]; intros r m; cbn [merge_all fold_left]; [by intros [= <-]|].
  rewrite rbind_inl. intros (r' & Hr' & Hm). rewrite (IH _ _ Hm). f_equal.
  unfold merge_grant in Hr'. apply rbind_inl in Hr' as (id & _ & H).
  apply rbind_inl in H as (ps & _ & H). apply rbind_inl in H as (bs & _ & [= <-]). done.
Qed.

(** [ConstraintUnion] computes the constraints of the effective grant: on two
    or more grants it returns exactly the constraint list [Intersect] puts in the
    grant it builds, whatever the order or repetition in the sources. *)
Lemma ConstraintUnion_Intersect g0 g1 rest e :
  Intersect (g0 :: g1 :: rest) = inl e →
  ConstraintUnion (g0 :: g1 :: rest) = inl (g_constraints e).
Proof.
  intros (g & rs & [= <- <-] & Hm & _)%Intersect_inl. unfold ConstraintUnion. f_equal.
  rewrite (merge_all_constraints _ _ _ Hm). cbn [fold_left]. f_equal.
  unfold mergeConstraints. simpl. apply sorted_dedup_ext. intros c.
  by rewrite !elem_of_app, sorted_dedup_elem.
Qed.

(** ** Concrete instances *)

Definition w_root : Grant :=
  mkGrant "acme/db-v1:read:*"
    (Some [("max_rows", jnum "100"); ("tables", AList [AStr "a"; AStr "b"])])
    (Some [("n", AMap [("min", jnum "0"); ("max", jnum "10"); ("step", jnum "1")])])
    ["varwof/constraint-v1:max_rows:50"].
Definition w_child : Grant :=
  mkGrant "acme/db-v1:read:orders"
    (Some [("tables", AList [AStr "b"]); ("max_rows", jnum "20")])
    (Some [("n", AMap [("max", jnum "8"); ("min", jnum "2"); ("step", jnum "1")])])
    ["varwof/constraint-v1:time:window:[" +:+ window_json "09:00" "17:30" +:+ "]"].
Definition w_op : Operation :=
  mkOp "acme/db-v1:read:orders"
    (Some [("n", jnum "4"); ("tables", AStr "b"); ("max_rows", jnum "20")]).

Lemma w_steps_agree : steps_agree [w_root; w_child].
Proof.
  exists (λ _, of_Z 1). intros g k b Hg Hb.
  repeat (apply elem_of_cons in Hg as [->|Hg]); try (by inversion Hg);
    (apply list_elem_of_singleton in Hb; simplify_eq; constructor;
     [intros st Hst; vm_compute in Hst; by injection Hst as <-|done]).
Qed.

Lemma Intersect_narrows_witness :
  ∃ e, Intersect [w_root; w_child] = inl e ∧ Entails e w_op = None ∧
  (id_covers (g_id w_root) (op_id w_op) ∧
   (Entails w_root w_op = None ∨
    ∃ k, k ∈ mkeys (entries (op_params w_op)) ∧ grantDeclares w_root k = false)).
Proof.
  eexists. split; [vm_compute; reflexivity|]. split; [vm_compute; reflexivity|].
  eapply (Intersect_narrows [w_root; w_child] _ w_op w_root).
  - vm_compute. reflexivity.
  - repeat constructor.
  - apply w_steps_agree.
  - vm_compute. reflexivity.
  - left.
Defined.

Lemma AuthorizeWithChain_sound_witness :
  AuthorizeWithChain [w_root; w_child] w_op = allowUR (g_constraints w_child) ∧
  permits w_root w_op ∧
  ∀ c, c ∈ g_constraints w_root → coreEvaluatesConstraint c = false →
       c ∈ d_unresolved (AuthorizeWithChain [w_root; w_child] w_op).
Proof.
  split; [vm_compute; reflexivity|].
  apply (AuthorizeWithChain_sound [w_root; w_child] w_op w_root).
  - vm_compute. reflexivity.
  - repeat constructor.
  - apply w_steps_agree.
  - left.
Defined.

(** The exception in the narrowing theorem is real: the effective grant
    declares the union of the keys of its sources, so it entails a request that
    neither of two valid sources entails. *)
Lemma Intersect_widens_keys :
  let a := mkGrant "acme/db-v1:read" (Some [("a", jnum "1")]) None [] in
  let b := mkGrant "acme/db-v1:read" (Some [("b", jnum "2")]) None [] in
  let op := mkOp "acme/db-v1:read" (Some [("a", jnum "1"); ("b", jnum "2")]) in
  ∃ e, Intersect [a; b] = inl e ∧ Entails e op = None ∧
       Entails a op = Some (wrap ErrParamsUndeclared "b") ∧ Entails b op = Some (wrap ErrParamsUndeclared "a").
Proof. eexists. split; [vm_compute; reflexivity|]. vm_compute. done. Qed.
