(* ===== verification/Obligations.v ===== *)
(** * Obligations and the combination of decisions

    semantics/obligations.go (the shape of a decision and its discharge) and
    semantics/combine.go (the combining algorithms).  The interface
    [DecisionSource] states what a component that decides promises to the code
    that combines and discharges decisions. *)

From S2P Require Import Prelude GoStrings Regex GoFloat Json Canonical Ids Values Bounds.
From S2P Require Import JsonText Grants Constraints Authorize Containment Decisions.

(** ** Identities *)

Definition ErrObligationUnknown : error := "obligation_unknown".
Definition ErrObligationShape : error := "obligation_shape".

Definition type_char (c : ascii) : bool := is_alnum c || Ascii.eqb c "-" || Ascii.eqb c "_".

Definition ConstraintIdentity (c : string) : result string :=
  let parts := Split colon c in
  let bad := wrap ErrObligationUnknown (Quote c) in
  if (length parts <? 2)%nat || String.eqb (nth_part parts 0) "" || String.eqb (nth_part parts 1) "" then inr bad
  else if negb (matches capabilitySchemeRE (nth_part parts 0)) then inr bad
  else if negb (str_forallb type_char (nth_part parts 1)) then inr bad
  else inl (identity_of parts).

(** The loop of [ObligationIdentities]: first occurrences, then sorted. *)
Fixpoint collect_identities (seen : list string) (cs : list string) : result (list string) :=
  match cs with
  | [] => inl []
  | c :: cs' =>
      let! id := ConstraintIdentity c in
      if mem_key id seen then collect_identities seen cs'
      else let! out := collect_identities (id :: seen) cs' in inl (id :: out)
  end.
Definition ObligationIdentities (d : Decision) : result (list string) :=
  let! out := collect_identities [] (d_unresolved d) in inl (sort_Strings out).

Definition Obligations (d : Decision) : list string := d_unresolved d.

(** ** Shape and discharge *)

Definition verdict_text (v : Verdict) : string :=
  match v with
  | VerdictAllow => "allow"
  | VerdictDeny => "deny"
  | VerdictAllowUR => "allow_unresolved"
  | VerdictOther s => s
  end.

(** The [%v] rendering of a string slice. *)
Definition slice_text (l : list string) : string := "[" +:+ Join " " l +:+ "]".

Definition checkDecisionShape (d : Decision) : check :=
  match ObligationIdentities d with
  | inr e => Some e
  | inl ids =>
      match d_verdict d with
      | VerdictAllow | VerdictDeny =>
          guard (0 <? length ids)%nat
            (wrap ErrObligationShape
               ("verdict " +:+ verdict_text (d_verdict d) +:+ " carries obligations " +:+ slice_text ids))
      | VerdictAllowUR =>
          guard (length ids =? 0)%nat (wrap ErrObligationShape "allow_unresolved without obligations")
      | VerdictOther s => Some (wrap ErrObligationShape ("unknown verdict " +:+ Quote s))
      end
  end.

Definition Discharge (d : Decision) (understood : list string) : check :=
  match ObligationIdentities d with
  | inr e => Some e
  | inl ids =>
      checkDecisionShape d ;;?
      match d_verdict d with
      | VerdictAllowUR =>
          check_all (λ id, guard (negb (mem_key id understood))
            (wrap ErrObligationUnknown (id +:+ " (the consumer must understand, can and will discharge it)"))) ids
      | _ => None
      end
  end.

(** ** Combining *)

Inductive CombiningAlgorithm :=
  | CombiningDenyOverrides | CombiningPermitOverrides | CombiningFirstApplicable
  | CombiningOther (name : string).

Definition DefaultCombiningAlgorithm : CombiningAlgorithm := CombiningDenyOverrides.

Definition Valid (a : CombiningAlgorithm) : bool :=
  match a with CombiningOther _ => false | _ => true end.

Definition algorithm_text (a : CombiningAlgorithm) : string :=
  match a with
  | CombiningDenyOverrides => "deny-overrides"
  | CombiningPermitOverrides => "permit-overrides"
  | CombiningFirstApplicable => "first-applicable"
  | CombiningOther s => s
  end.

Definition ErrNoDecisions : error := "no_decisions".
Definition ErrUnknownCombiningAlgorithm : error := "unknown_combining_algorithm".
Definition ErrCombiningWouldDropObligations : error := "combining_would_drop_obligations".

Definition hasObligations (ds : list Decision) : bool :=
  existsb (λ d, (0 <? length (d_unresolved d))%nat) ds.

Fixpoint combineDenyOverrides_loop (obligations : list string) (sawAllow : bool) (ds : list Decision) : Decision :=
  match ds with
  | d :: ds' =>
      match d_verdict d with
      | VerdictDeny => deny (d_reason d)
      | VerdictAllowUR => combineDenyOverrides_loop (obligations ++ d_unresolved d) sawAllow ds'
      | VerdictAllow => combineDenyOverrides_loop obligations true ds'
      | VerdictOther _ => combineDenyOverrides_loop obligations sawAllow ds'
      end
  | [] =>
      if (0 <? length obligations)%nat then allowUR (sortedSet obligations)
      else if sawAllow then allow else deny ErrCapabilityNotAuth
  end.
Definition combineDenyOverrides (ds : list Decision) : Decision := combineDenyOverrides_loop [] false ds.

Fixpoint combinePermitOverrides_loop (obligations : list string) (firstDeny : option Decision)
    (ds : list Decision) : result Decision :=
  match ds with
  | d :: ds' =>
      match d_verdict d with
      | VerdictAllow =>
          if (0 <? length obligations)%nat || hasObligations ds' then inr ErrCombiningWouldDropObligations
          else inl allow
      | VerdictAllowUR => combinePermitOverrides_loop (obligations ++ d_unresolved d) firstDeny ds'
      | VerdictDeny =>
          combinePermitOverrides_loop obligations
            (match firstDeny with None => Some d | Some _ => firstDeny end) ds'
      | VerdictOther _ => combinePermitOverrides_loop obligations firstDeny ds'
      end
  | [] =>
      match firstDeny with
      | Some d => inl (deny (d_reason d))
      | None =>
          inl (if (0 <? length obligations)%nat then allowUR (sortedSet obligations)
               else deny ErrCapabilityNotAuth)
      end
  end.
Definition combinePermitOverrides (ds : list Decision) : result Decision :=
  combinePermitOverrides_loop [] None ds.

(** The shape loop, with the index of the offending decision. *)
Fixpoint check_shapes (i : Z) (ds : list Decision) : check :=
  match ds with
  | [] => None
  | d :: ds' =>
      match checkDecisionShape d with
      | Some e => Some ("decision " +:+ Itoa i +:+ ": " +:+ e)
      | None => check_shapes (i + 1) ds'
      end
  end.

Definition Combine (alg : CombiningAlgorithm) (ds : list Decision) : result Decision :=
  if negb (Valid alg) then inr (wrap ErrUnknownCombiningAlgorithm (Quote (algorithm_text alg)))
  else match ds with
       | [] => inr ErrNoDecisions
       | d0 :: _ =>
           rguard (check_shapes 0 ds)
             match alg with
             | CombiningFirstApplicable => inl d0
             | CombiningPermitOverrides => combinePermitOverrides ds
             | _ => inl (combineDenyOverrides ds)
             end
       end.

(** ** Lemmas *)

Lemma collect_identities_inl cs : ∀ seen out,
  collect_identities seen cs = inl out →
  (∀ c, c ∈ cs → ∃ id, ConstraintIdentity c = inl id) ∧
  ∀ id : string, id ∈ out ↔ (id ∉ seen) ∧ ∃ c, c ∈ cs ∧ ConstraintIdentity c = inl id.
Proof.
  induction cs as [|c cs IH]; intros seen out; cbn [collect_identities].
  - intros [= <-]. set_solver.
  - rewrite rbind_inl. intros (id & Hid & H). destruct (mem_key id seen) eqn:Em.
    + apply mem_key_true in Em. destruct (IH _ _ H) as [H1 H2]. split; [set_solver|].
      intros id'. rewrite H2. split; [set_solver|]. intros (Hn & c' & Hc' & Hi). split; [done|].
      apply elem_of_cons in Hc' as [->|]; [|eauto]. rewrite Hid in Hi. by injection Hi as <-.
    + apply rbind_inl in H as (out' & H & [= <-]). destruct (IH _ _ H) as [H1 H2]. split; [set_solver|].
      apply not_true_iff_false in Em. rewrite mem_key_true in Em. intros id'. rewrite elem_of_cons, H2. split.
      * intros [->|(Hn & c' & ? & ?)]; set_solver.
      * intros (Hn & c' & [->|Hc']%elem_of_cons & Hi); [left; congruence|].
        destruct (decide (id' = id)) as [->|]; [by left|right]. split; [set_solver|eauto].
Qed.

Lemma collect_identities_total cs : ∀ seen,
  (∀ c, c ∈ cs → ∃ id, ConstraintIdentity c = inl id) → ∃ out, collect_identities seen cs = inl out.
Proof.
  induction cs as [|c cs IH]; intros seen H; cbn [collect_identities]; [eauto|].
  destruct (H c ltac:(set_solver)) as [id ->]. simpl. destruct (mem_key id seen); [apply IH; set_solver|].
  destruct (IH (id :: seen)) as [out ->]; [set_solver|]. simpl. eauto.
Qed.

Lemma ObligationIdentities_inl d ids :
  ObligationIdentities d = inl ids →
  (∀ c, c ∈ d_unresolved d → ∃ id, ConstraintIdentity c = inl id) ∧
  (∀ id, id ∈ ids ↔ ∃ c, c ∈ d_unresolved d ∧ ConstraintIdentity c = inl id) ∧
  (ids = [] ↔ d_unresolved d = []).
Proof.
  unfold ObligationIdentities. rewrite rbind_inl. intros (out & H & [= <-]).
  destruct (collect_identities_inl _ _ _ H) as [H1 H2].
  assert (∀ id, id ∈ sort_Strings out ↔ ∃ c, c ∈ d_unresolved d ∧ ConstraintIdentity c = inl id) as Hids.
  { intros id. unfold sort_Strings. rewrite merge_sort_Permutation, H2. set_solver. }
  split_and!; [done..|]. split.
  - intros E. destruct (d_unresolved d) as [|c cs]; [done|]. destruct (H1 c ltac:(set_solver)) as [id Hid].
    assert (id ∈ sort_Strings out) as Hin by (apply Hids; set_solver). rewrite E in Hin. set_solver.
  - intros E. rewrite E in *. destruct (sort_Strings out) as [|x l]; [done|].
    assert (x ∈ x :: l) as Hx by set_solver. apply Hids in Hx as (c & Hc & _). set_solver.
Qed.

(** What the shape check accepts. *)
Definition shape_ok (d : Decision) : Prop :=
  (∀ c, c ∈ d_unresolved d → ∃ id, ConstraintIdentity c = inl id) ∧
  match d_verdict d with
  | VerdictAllow | VerdictDeny => d_unresolved d = []
  | VerdictAllowUR => d_unresolved d ≠ []
  | VerdictOther _ => False
  end.

Lemma checkDecisionShape_None d : checkDecisionShape d = None ↔ shape_ok d.
Proof.
  unfold checkDecisionShape, shape_ok. destruct (ObligationIdentities d) as [ids|e] eqn:E.
  - destruct (ObligationIdentities_inl _ _ E) as (H1 & _ & H3).
    destruct (d_verdict d); [| | |naive_solver];
      rewrite guard_None, <- H3; destruct ids; naive_solver.
  - split; [done|]. intros [H _]. unfold ObligationIdentities in E.
    destruct (collect_identities_total (d_unresolved d) [] H) as [out Hout]. by rewrite Hout in E.
Qed.

Lemma shape_deny reason : shape_ok (deny reason).
Proof. split; [|done]. intros c Hc. by apply not_elem_of_nil in Hc. Qed.

Lemma shape_allow : shape_ok allow.
Proof. split; [|done]. intros c Hc. by apply not_elem_of_nil in Hc. Qed.

Lemma check_shapes_None i ds : check_shapes i ds = None ↔ Forall shape_ok ds.
Proof.
  revert i. induction ds as [|d ds IH]; intros i; cbn [check_shapes]; [by split|].
  rewrite list.Forall_cons, <- checkDecisionShape_None, <- (IH (i + 1)).
  destruct (checkDecisionShape d); naive_solver.
Qed.

(** A consumer may act on an obligation-carrying decision exactly when the
    decision has the required shape and every obligation's identity is among
    those it understands; a decision without obligations always discharges. *)
Lemma Discharge_iff d understood :
  Discharge d understood = None ↔
  shape_ok d ∧
  (d_verdict d = VerdictAllowUR →
   ∀ c, c ∈ d_unresolved d → ∃ id, ConstraintIdentity c = inl id ∧ id ∈ understood).
Proof.
  rewrite <- checkDecisionShape_None. unfold Discharge.
  destruct (ObligationIdentities d) as [ids|e] eqn:E.
  - destruct (ObligationIdentities_inl _ _ E) as (H1 & H2 & _).
    rewrite check_seq_None. apply and_iff_compat_l.
    destruct (d_verdict d); [naive_solver..| |naive_solver]. rewrite check_all_None.
    setoid_rewrite guard_None. setoid_rewrite negb_false_iff. setoid_rewrite mem_key_true. split.
    + intros H _ c Hc. destruct (H1 c Hc) as [id Hid]. exists id. split; [done|]. apply H, H2. eauto.
    + intros H id (c & Hc & Hid)%H2. destruct (H eq_refl c Hc) as (id' & E' & ?).
      rewrite Hid in E'. by injection E' as <-.
  - split; [done|]. intros [H _]. unfold checkDecisionShape in H. by rewrite E in H.
Qed.

(** ** Deny-overrides *)

Lemma deny_overrides_loop ds : ∀ obs saw,
  Forall shape_ok ds →
  combineDenyOverrides_loop obs saw ds =
  match List.find (λ d, bool_decide (d_verdict d = VerdictDeny)) ds with
  | Some d => deny (d_reason d)
  | None =>
      match obs ++ mjoin (d_unresolved <$> ds) with
      | [] => if saw || negb (length ds =? 0)%nat then allow else deny ErrCapabilityNotAuth
      | os => allowUR (sortedSet os)
      end
  end.
Proof.
  induction ds as [|d ds IH]; intros obs saw Hs; cbn [combineDenyOverrides_loop List.find].
  - simpl. rewrite app_nil_r, orb_false_r. by destruct obs.
  - apply list.Forall_cons in Hs as [[_ Hd] Hs]. cbn [fmap list_fmap mjoin list_join].
    destruct (d_verdict d) eqn:Ev; [| | |done].
    + rewrite bool_decide_eq_false_2 by done. rewrite IH by done. rewrite Hd. simpl. by rewrite orb_true_r.
    + by rewrite bool_decide_eq_true_2.
    + rewrite bool_decide_eq_false_2 by done. rewrite IH by done. rewrite <- app_assoc.
      destruct (List.find _ ds); [done|]. destruct (d_unresolved d) as [|c cs]; [done|].
      by destruct obs.
Qed.

Lemma find_deny ds :
  List.find (λ d, bool_decide (d_verdict d = VerdictDeny)) ds = None ↔ Forall (λ d, d_verdict d ≠ VerdictDeny) ds.
Proof.
  induction ds as [|d ds IH]; simpl; [by split|]. rewrite list.Forall_cons, <- IH.
  case_bool_decide; naive_solver.
Qed.

Lemma shape_admits d : shape_ok d → d_verdict d ≠ VerdictDeny → admits d = true.
Proof. intros [_ H] Hn. unfold admits. by destruct (d_verdict d). Qed.

Lemma combine_deny_overrides_inl ds d :
  Combine CombiningDenyOverrides ds = inl d ↔
  ds ≠ [] ∧ Forall shape_ok ds ∧ d = combineDenyOverrides ds.
Proof.
  unfold Combine. simpl. destruct ds as [|d0 ds]; [naive_solver|].
  rewrite rguard_inl, check_shapes_None. naive_solver.
Qed.

(** Deny-overrides is a conjunction.  The combination of well-shaped
    decisions admits exactly when every source admits; it then carries, sorted
    and without repetition, the union of their obligations; and it is again
    well-shaped. *)
Lemma deny_overrides_conjunction ds d :
  Combine CombiningDenyOverrides ds = inl d →
  (admits d = true ↔ Forall (λ s, admits s = true) ds) ∧
  (admits d = true → d_unresolved d = sorted_dedup (mjoin (d_unresolved <$> ds))) ∧
  shape_ok d.
Proof.
  intros (Hne & Hs & ->)%combine_deny_overrides_inl. unfold combineDenyOverrides.
  rewrite deny_overrides_loop by done. simpl ([] ++ _). rewrite list.Forall_forall in Hs.
  destruct (List.find _ ds) as [x|] eqn:Ef.
  - apply find_some in Ef as [Hin Hx]. apply bool_decide_eq_true in Hx. apply list_elem_of_In in Hin.
    split; [split; [done|]|split; [done|apply shape_deny]]. rewrite list.Forall_forall. intros H. specialize (H x Hin).
    unfold admits in H. by rewrite Hx in H.
  - apply find_deny in Ef. rewrite list.Forall_forall in Ef.
    assert (Forall (λ s, admits s = true) ds) as Hall.
    { apply list.Forall_forall. intros s Hin. apply shape_admits; auto. }
    destruct (mjoin (d_unresolved <$> ds)) as [|c cs] eqn:Ej.
    + destruct ds as [|d0 ds]; [done|]. simpl. split_and!; [done|done|apply shape_allow].
    + split; [done|]. split; [done|]. split.
      * intros c'. simpl. unfold sortedSet. rewrite sorted_dedup_elem, <- Ej, list_elem_of_join.
        intros (l & Hc & (s & -> & Hin)%list_elem_of_fmap). by apply (Hs s Hin).
      * simpl. unfold sortedSet. by rewrite sorted_dedup_nil.
Qed.

(** ** Permit-overrides *)

Lemma hasObligations_false ds : hasObligations ds = false → mjoin (d_unresolved <$> ds) = [].
Proof.
  unfold hasObligations. induction ds as [|d ds IH]; [done|]. cbn [existsb].
  change (mjoin (d_unresolved <$> d :: ds)) with (d_unresolved d ++ mjoin (d_unresolved <$> ds)).
  intros H. go_bool. rewrite IH by done. by destruct (d_unresolved d).
Qed.

Lemma permit_loop_keeps ds : ∀ obs fd d c,
  Forall shape_ok ds → combinePermitOverrides_loop obs fd ds = inl d → admits d = true →
  c ∈ obs ++ mjoin (d_unresolved <$> ds) → c ∈ d_unresolved d.
Proof.
  induction ds as [|s ds IH]; intros obs fd d c Hs; cbn [combinePermitOverrides_loop].
  - destruct fd; [intros [= <-]; done|]. destruct obs as [|o obs]; intros [= <-]; [done|]. intros _.
    simpl. unfold sortedSet. by rewrite app_nil_r, sorted_dedup_elem.
  - apply list.Forall_cons in Hs as [[_ Hv] Hs]. 
    change (mjoin (d_unresolved <$> s :: ds)) with (d_unresolved s ++ mjoin (d_unresolved <$> ds)).
    destruct (d_verdict s) eqn:Ev; [| | |done].
    + destruct (0 <? length obs)%nat eqn:El; [done|]. destruct (hasObligations ds) eqn:Eh; [done|].
      intros [= <-] _. rewrite Hv, (hasObligations_false _ Eh). by destruct obs.
    + rewrite Hv. by apply IH.
    + rewrite app_assoc. by apply IH.
Qed.

(** C6: obligations are never dropped by a combination.  Whenever deny-overrides
    or permit-overrides reaches a decision that admits, every obligation of every
    source is an obligation of the result. *)
Theorem Combine_keeps_obligations alg ds d s c :
  alg ≠ CombiningFirstApplicable → Combine alg ds = inl d → admits d = true →
  s ∈ ds → c ∈ d_unresolved s → c ∈ d_unresolved d.
Proof.
  intros Hf H Ha Hs Hc. assert (c ∈ mjoin (d_unresolved <$> ds)) as Hj.
  { apply list_elem_of_join. exists (d_unresolved s). split; [done|]. apply list_elem_of_fmap. eauto. }
  destruct alg; [| |done|done].
  - apply combine_deny_overrides_inl in H as (_ & Hsh & ->). unfold combineDenyOverrides in *.
    rewrite deny_overrides_loop in * by done. simpl ([] ++ _) in *. destruct (List.find _ ds); [done|].
    destruct (mjoin (d_unresolved <$> ds)) as [|x l]; [set_solver|]. simpl.
    unfold sortedSet. by rewrite sorted_dedup_elem.
  - unfold Combine in H. simpl in H. destruct ds as [|d0 ds]; [done|].
    apply rguard_inl in H as [Hsh%check_shapes_None H]. by apply (permit_loop_keeps _ [] None d c Hsh H Ha).
Qed.

(** ** Deciding components *)

(** What a component that decides promises to the code that combines and
    discharges: every decision it returns has the required shape. *)
Class DecisionSource (S : Type) := {
  decide_with : S → Operation → Decision;
  decide_shape : ∀ s op, shape_ok (decide_with s op)
}.

(** A constraint the decision accepted has one of the three core identities. *)
Lemma identity_split p0 p1 q0 q1 :
  no_sep colon p0 → no_sep colon q0 → no_sep colon p1 → no_sep colon q1 →
  p0 +:+ ":" +:+ p1 = q0 +:+ ":" +:+ q1 → p0 = q0 ∧ p1 = q1.
Proof.
  intros Hp Hq Hp1 Hq1 H. assert (Split colon (p0 +:+ String colon p1) = Split colon (q0 +:+ String colon q1)) as E
    by (f_equal; exact H).
  rewrite !Split_app, !Split_single in E by done. by simplify_eq.
Qed.

Lemma valid_constraint_identity c :
  ValidateConstraint c = None → ∃ id, ConstraintIdentity c = inl id.
Proof.
  unfold ValidateConstraint, ConstraintIdentity. rewrite !check_seq_None, !guard_None.
  intros (Hl & Hr & _). rewrite Hl. apply negb_false_iff in Hr.
  pose proof (Split_no_sep colon c) as Hns. apply Nat.ltb_ge in Hl.
  destruct (Split colon c) as [|p0 [|p1 rest]]; simpl in Hl; [lia..|].
  inversion Hns as [|?? N0 Hns']; inversion Hns' as [|?? N1 _]; subst.
  unfold identity_of, nth_part in *. simpl (default _ _) in *.
  assert (p0 = reservedScheme ∧ p1 ∈ ["max_rows"; "time"; "network"]) as [-> Hp1].
  { unfold recognizedConstraintIdentities in Hr. rewrite !orb_true_iff, !String.eqb_eq in Hr.
    destruct Hr as [[Hr|Hr]|Hr];
      [apply (identity_split p0 p1 reservedScheme "max_rows") in Hr
      |apply (identity_split p0 p1 reservedScheme "time") in Hr
      |apply (identity_split p0 p1 reservedScheme "network") in Hr]; try done;
      destruct Hr as [-> ->]; set_solver. }
  rewrite list_elem_of_In in Hp1. simpl in Hp1. destruct Hp1 as [<-|[<-|[<-|[]]]]; vm_compute; eauto.
Qed.

Lemma AuthorizeSet_shape gs op : shape_ok (AuthorizeSet gs op).
Proof.
  pose proof (AuthorizeSet_decision gs op) as H. destruct (decision_of gs op) as [obs|] eqn:Ed.
  - apply decision_of_Some in Ed as (_ & _ & Eo). destruct obs as [|o obs]; rewrite H; [apply shape_allow|].
    split; [|done]. intros c. cbn [d_unresolved allowUR]. rewrite Eo, sorted_dedup_elem, list_elem_of_join.
    intros (l & Hc & (g & -> & [Hp _]%list_elem_of_filter)%list_elem_of_fmap).
    apply list_elem_of_filter in Hc as [_ Hc]. destruct Hp as [_ Hp]. rewrite list.Forall_forall in Hp.
    destruct (Hp c Hc) as [Hv _]. by apply valid_constraint_identity.
  - destruct H as [r ->]. apply shape_deny.
Qed.

Lemma AuthorizeWithChain_shape chain op : shape_ok (AuthorizeWithChain chain op).
Proof.
  unfold AuthorizeWithChain. destruct chain; [apply shape_deny|]. destruct (check_hops _); [apply shape_deny|].
  destruct (Intersect _); [apply AuthorizeSet_shape|apply shape_deny].
Qed.

(** The two deciding components of the core: a set of grants, and a chain. *)
Record grant_set := GrantSet { gset_grants : list Grant }.
Record grant_chain := GrantChain { gchain_grants : list Grant }.
#[global] Instance grant_set_source : DecisionSource grant_set :=
  {| decide_with := λ s op, AuthorizeSet (gset_grants s) op; decide_shape := λ s, AuthorizeSet_shape _ |}.
#[global] Instance grant_chain_source : DecisionSource grant_chain :=
  {| decide_with := λ s op, AuthorizeWithChain (gchain_grants s) op;
     decide_shape := λ s, AuthorizeWithChain_shape _ |}.

(** A source of either kind. *)
#[global] Instance sum_source {A B} `{DecisionSource A, DecisionSource B} : DecisionSource (A + B).
Proof.
  refine {| decide_with := λ s op, match s with inl a => decide_with a op | inr b => decide_with b op end |}.
  intros [a|b] op; apply decide_shape.
Defined.

Section pipeline.
Context {S : Type} `{DecisionSource S}.

(** Decide with every source and combine with the default algorithm. *)
Definition decide_all (sources : list S) (op : Operation) : result Decision :=
Combine DefaultCombiningAlgorithm ((λ s, decide_with s op) <$> sources).

Lemma decide_all_total sources op :
sources ≠ [] → ∃ d, decide_all sources op = inl d.
Proof.
intros Hne. eexists. apply combine_deny_overrides_inl. split_and!; [by destruct sources| |done].
apply list.Forall_forall. intros d (s & -> & _)%list_elem_of_fmap. apply decide_shape.
Qed.
End pipeline.

(** C5: decisions compose fail-closed.  For any non-empty list of deciding
    components, the default combination never fails on their decisions and
    admits exactly when every one of them admits. *)
Theorem decide_all_admits {S} `{DecisionSource S} (sources : list S) op :
  sources ≠ [] →
  ∃ d, decide_all sources op = inl d ∧
       (admits d = true ↔ ∀ s, s ∈ sources → admits (decide_with s op) = true).
Proof.
  intros Hne. destruct (decide_all_total sources op Hne) as [d Hd]. exists d. split; [done|].
  pose proof Hd as (_ & Hs & ->)%combine_deny_overrides_inl. unfold combineDenyOverrides.
  rewrite deny_overrides_loop by done. simpl ([] ++ _).
  destruct (List.find _ _) as [x|] eqn:Ef.
  - apply find_some in Ef as [Hin Hx]. apply bool_decide_eq_true in Hx.
    apply list_elem_of_In, list_elem_of_fmap in Hin as (s & -> & Hin). split; [done|]. intros Hall.
    specialize (Hall s Hin). unfold admits in Hall. by rewrite Hx in Hall.
  - apply find_deny in Ef. rewrite list.Forall_forall in Ef, Hs.
    assert (∀ s, s ∈ sources → admits (decide_with s op) = true) as Hall.
    { intros s Hin. apply shape_admits; [apply decide_shape|]. apply Ef, list_elem_of_fmap. eauto. }
    destruct (mjoin _) as [|c cs]; [|done]. by destruct sources.
Qed.

(** ** Concrete instances *)

Definition w_time : string := "varwof/constraint-v1:time:window:[" +:+ window_json "09:00" "17:30" +:+ "]".
Definition w_net : string := "varwof/constraint-v1:network:cidr:[" +:+ quoted "10.0.0.0/8" +:+ "]".

Lemma Combine_keeps_obligations_witness :
  Combine CombiningPermitOverrides [allowUR [w_time]; allowUR [w_net]] = inl (allowUR [w_net; w_time]) ∧
  w_time ∈ d_unresolved (allowUR [w_net; w_time]).
Proof.
  split; [vm_compute; reflexivity|].
  apply (Combine_keeps_obligations CombiningPermitOverrides [allowUR [w_time]; allowUR [w_net]]
           (allowUR [w_net; w_time]) (allowUR [w_time]) w_time).
  - discriminate.
  - vm_compute. reflexivity.
  - reflexivity.
  - left.
  - left.
Defined.

Definition w_grants : list Grant := [mkGrant "acme/db-v1:read:*" None None [w_time]].
Definition w_read : Operation := mkOp "acme/db-v1:read:orders" None.

Lemma decide_all_admits_witness :
  ∃ d, decide_all [GrantSet w_grants] w_read = inl d ∧
       (admits d = true ↔ ∀ s, s ∈ [GrantSet w_grants] → admits (decide_with s w_read) = true).
Proof. apply (decide_all_admits [GrantSet w_grants] w_read). discriminate. Defined.

(** The first-applicable algorithm is the exception to the rule that
    obligations are never dropped: it returns its first decision and discards
    the obligations of the later ones. *)
Lemma first_applicable_drops :
  Combine CombiningFirstApplicable [allow; allowUR [w_time]] = inl allow ∧
  Combine CombiningPermitOverrides [allow; allowUR [w_time]] = inr ErrCombiningWouldDropObligations ∧
  Combine CombiningDenyOverrides [allow; allowUR [w_time]] = inl (allowUR [w_time]).
Proof. vm_compute. done. Qed.
