(* ===== verification/Resolve.v ===== *)
(** * Resolving obligations

    semantics/resolve.go: a consumer's reports and an optional clock collapse the
    obligations of a decision.  The clock is read as the
    second of the UTC day of its instant ([rfc3339_sod]), which is all the
    evaluator looks at. *)

From S2P Require Import Prelude GoStrings GoTime Regex GoFloat FloatInt Json Canonical Ids.
From S2P Require Import Values.
From S2P Require Import Bounds JsonText Grants Constraints Authorize Containment Decisions.
From S2P Require Import Ceilings Obligations.

(** ** The core's own evaluation of a window *)

(** Into a [map[string]string]: every value a string (or null), last one wins. *)
Definition into_string_map (j : jtext) : option (gomap string) :=
  match j with
  | JObj m => l ← mapM (λ kv, v ← into_string kv.2; Some (kv.1, v)) m;
              Some (fold_left (λ acc kv, mset kv.1 kv.2 acc) l [])
  | JNull => Some []
  | _ => None
  end.

Definition window_pair (s : gomap string) : option (Z * Z) :=
  match mget "start" s, mget "end" s with
  | Some start, Some end_ => Some (secondsOfDay start, end_sod end_)
  | _, _ => None
  end.

Definition jsonUnmarshalStrict {A} (into : jtext → option A) (raw : string) : option A :=
  j ← read_document (TrimSpace raw); into j.

Definition parseTimeWindow (raw : string) : option (list (Z * Z)) :=
  segments ← jsonUnmarshalStrict (into_list into_string_map) raw; mapM window_pair segments.

(** [(ok, satisfied)] as one option: [None] where the core does not evaluate. *)
Definition evalCoreTimeWindow (c : string) (sod : Z) : option bool :=
  match ValidateConstraint c with
  | Some _ => None
  | None =>
      let parts := Split colon c in
      if (length parts <? 2)%nat || negb (String.eqb (identity_of parts) reservedTimeWin) then None
      else
        let joined := constraintParams c in
        if negb (HasPrefix joined "window:") then None
        else match parseTimeWindow (TrimPrefix joined "window:") with
             | None => None
             | Some segments => Some (existsb (λ seg, (seg.1 <=? sod) && (sod <? seg.2)) segments)
             end
  end.

(** ** Statuses *)

Definition ResolutionSatisfied : string := "satisfied".
Definition ResolutionViolated : string := "violated".
Definition ResolutionUnknown : string := "unknown".

Definition ErrInvalidResolution : error := "invalid_resolution".
Definition ErrInvalidTimestamp : error := "invalid_timestamp".

Record Resolution := mkResolution { r_constraint : string; r_status : string }.

Definition validResolutionStatus (s : string) : bool :=
  String.eqb s ResolutionSatisfied || String.eqb s ResolutionViolated || String.eqb s ResolutionUnknown.

Definition rank (s : string) : Z :=
  if String.eqb s ResolutionViolated then 2 else if String.eqb s ResolutionSatisfied then 1 else 0.
Definition stricterStatus (a b : string) : string := if rank a <? rank b then b else a.

Definition violatedReason (c : string) : string :=
  let parts := Split colon c in
  if (2 <=? length parts)%nat && negb (String.eqb (nth_part parts 1) "") then nth_part parts 1 +:+ ":violated"
  else "violated".

(** The status of one obligation: the reports, then the clock. *)
Definition status_of (resolutions : list Resolution) (clock : option Z) (o : string) : string :=
  let reported := fold_left (λ status r, if String.eqb (r_constraint r) o then stricterStatus status (r_status r)
                                         else status) resolutions ResolutionUnknown in
  match clock with
  | None => reported
  | Some sod =>
      match evalCoreTimeWindow o sod with
      | None => reported
      | Some false => stricterStatus reported ResolutionViolated
      | Some true => stricterStatus reported ResolutionSatisfied
      end
  end.

(** The loop over the sorted obligations. *)
Fixpoint resolve_loop (status : string → string) (remainder obligations : list string) : Decision :=
  match obligations with
  | [] => match remainder with [] => allow | _ => allowUR remainder end
  | o :: rest =>
      if String.eqb (status o) ResolutionViolated then deny (violatedReason o)
      else if String.eqb (status o) ResolutionSatisfied then resolve_loop status remainder rest
      else resolve_loop status (remainder ++ [o]) rest
  end.

Definition valid_resolution (r : Resolution) : bool :=
  negb (String.eqb (r_constraint r) "") && validResolutionStatus (r_status r).

Definition Resolve (d : Decision) (resolutions : list Resolution) (now : string) : Decision :=
  match d_verdict d with
  | VerdictDeny | VerdictAllow => d
  | VerdictOther _ => deny ErrInvalidResolution
  | VerdictAllowUR =>
      if negb (forallb valid_resolution resolutions) then deny ErrInvalidResolution
      else
        let run clock := resolve_loop (status_of resolutions clock) [] (sortedSet (d_unresolved d)) in
        if String.eqb now "" then run None
        else match rfc3339_sod now with
             | None => deny ErrInvalidTimestamp
             | Some sod => run (Some sod)
             end
  end.

(** ** Lemmas *)

Lemma rank_violated s : rank s = 2 ↔ s = ResolutionViolated.
Proof. unfold rank. repeat case_match; go_bool; subst; naive_solver. Qed.

Lemma rank_satisfied s : rank s = 1 ↔ s = ResolutionSatisfied.
Proof. unfold rank. repeat case_match; go_bool; subst; naive_solver. Qed.

Lemma rank_range s : 0 <= rank s <= 2.
Proof. unfold rank. repeat case_match; lia. Qed.

Lemma stricterStatus_spec a b :
  (stricterStatus a b = a ∨ stricterStatus a b = b) ∧
  rank a <= rank (stricterStatus a b) ∧ rank b <= rank (stricterStatus a b).
Proof. unfold stricterStatus. destruct (Z.ltb_spec (rank a) (rank b)); (split; [auto|lia]). Qed.

(** The statements made about an obligation: a consumer's report, or the
    clock's reading of its window. *)
Definition says (rs : list Resolution) (clock : option Z) (o s : string) : Prop :=
  (∃ r, r ∈ rs ∧ r_constraint r = o ∧ r_status r = s) ∨
  (∃ sod b, clock = Some sod ∧ evalCoreTimeWindow o sod = Some b ∧
            s = if b : bool then ResolutionSatisfied else ResolutionViolated).

Lemma fold_status_spec rs o : ∀ init,
  let st := fold_left (λ status r, if String.eqb (r_constraint r) o then stricterStatus status (r_status r)
                                   else status) rs init in
  (st = init ∨ ∃ r, r ∈ rs ∧ r_constraint r = o ∧ r_status r = st) ∧
  rank init <= rank st ∧ ∀ r, r ∈ rs → r_constraint r = o → rank (r_status r) <= rank st.
Proof.
  cbv zeta. induction rs as [|r rs IH]; intros init; cbn [fold_left].
  { split_and!; [by left|done|set_solver]. }
  destruct (String.eqb_spec (r_constraint r) o) as [E|E].
  - destruct (IH (stricterStatus init (r_status r))) as (H1 & H2 & H3).
    destruct (stricterStatus_spec init (r_status r)) as (S1 & S2 & S3). split_and!.
    + destruct H1 as [->|(r' & ? & ? & ?)]; [|right; exists r'; set_solver].
      destruct S1 as [->|S1]; [by left|right]. exists r. split_and!; [set_solver|done|done].
    + lia.
    + intros r' [->|Hr]%elem_of_cons Ho; [lia|auto].
  - destruct (IH init) as (H1 & H2 & H3). split_and!; [|done|].
    + destruct H1 as [->|(r' & ? & ? & ?)]; [by left|right; exists r'; set_solver].
    + intros r' [->|Hr]%elem_of_cons Ho; [done|auto].
Qed.

Lemma status_of_spec rs clock o :
  (status_of rs clock o = ResolutionUnknown ∨ says rs clock o (status_of rs clock o)) ∧
  ∀ s, says rs clock o s → rank s <= rank (status_of rs clock o).
Proof.
  unfold status_of, says. destruct (fold_status_spec rs o ResolutionUnknown) as (H1 & _ & H3).
  set (rep := fold_left _ _ _) in *.
  assert (∀ s, (∃ r, r ∈ rs ∧ r_constraint r = o ∧ r_status r = s) → rank s <= rank rep) as Hrep.
  { intros s (r & ? & ? & <-). auto. }
  destruct clock as [sod|].
  - destruct (evalCoreTimeWindow o sod) as [b|] eqn:Eb.
    + set (x := if b then ResolutionSatisfied else ResolutionViolated).
      assert ((match b with true => stricterStatus rep ResolutionSatisfied
                          | false => stricterStatus rep ResolutionViolated end) = stricterStatus rep x) as ->
        by (by destruct b).
      destruct (stricterStatus_spec rep x) as (S1 & S2 & S3). split.
      * destruct S1 as [-> | ->]; [naive_solver|]. right. right. exists sod, b. done.
      * intros s [Hs%Hrep|(sod' & b' & [= <-] & Hb & ->)]; [lia|]. rewrite Eb in Hb. by injection Hb as <-.
    + split; [naive_solver|]. intros s [Hs%Hrep|(sod' & b' & [= <-] & Hb & ->)]; [lia|congruence].
  - split; [naive_solver|]. intros s [Hs%Hrep|(sod' & b' & ? & _)]; [lia|done].
Qed.

(** The most restrictive statement decides: violated, then satisfied, and
    unknown only where nothing else is said. *)
Lemma status_violated rs clock o :
  status_of rs clock o = ResolutionViolated ↔ says rs clock o ResolutionViolated.
Proof.
  destruct (status_of_spec rs clock o) as [H1 H2]. split.
  - intros E. rewrite E in H1. by destruct H1.
  - intros H%H2. apply rank_violated. pose proof (rank_range (status_of rs clock o)).
    change (rank ResolutionViolated) with 2 in H. lia.
Qed.

Lemma status_satisfied rs clock o :
  status_of rs clock o = ResolutionSatisfied ↔
  says rs clock o ResolutionSatisfied ∧ ¬ says rs clock o ResolutionViolated.
Proof.
  rewrite <- status_violated. destruct (status_of_spec rs clock o) as [H1 H2]. split.
  - intros E. rewrite E in *. split; [by destruct H1|done].
  - intros [Hs%H2 Hn]. apply rank_satisfied. rewrite <- rank_violated in Hn.
    change (rank ResolutionSatisfied) with 1 in Hs. pose proof (rank_range (status_of rs clock o)). lia.
Qed.

(** ** The loop *)

(** The obligations that remain. *)
Definition remaining (status : string → string) (obs : list string) : list string :=
  filter (λ o, status o ≠ ResolutionSatisfied) obs.

Lemma resolve_loop_deny status obs : ∀ rem,
  (∃ o, o ∈ obs ∧ status o = ResolutionViolated) → ∃ r, resolve_loop status rem obs = deny r.
Proof.
  induction obs as [|o obs IH]; intros rem (x & Hx & Hv); [set_solver|]. cbn [resolve_loop].
  destruct (String.eqb_spec (status o) ResolutionViolated); [eauto|].
  assert (∃ o', o' ∈ obs ∧ status o' = ResolutionViolated) as H.
  { exists x. apply elem_of_cons in Hx as [->|]; done. }
  destruct (String.eqb _ _); by apply IH.
Qed.

Lemma resolve_loop_admit status obs : ∀ rem,
  (∀ o, o ∈ obs → status o ≠ ResolutionViolated) →
  resolve_loop status rem obs =
  match rem ++ remaining status obs with [] => allow | l => allowUR l end.
Proof.
  unfold remaining. induction obs as [|o obs IH]; intros rem H; cbn [resolve_loop].
  - rewrite filter_nil, app_nil_r. by destruct rem.
  - assert (String.eqb (status o) ResolutionViolated = false) as -> by (apply String.eqb_neq, H; set_solver).
    rewrite filter_cons. destruct (String.eqb_spec (status o) ResolutionSatisfied) as [E|E].
    + rewrite decide_False by naive_solver. apply IH. set_solver.
    + rewrite decide_True by done. rewrite IH by set_solver. by rewrite <- app_assoc.
Qed.

(** The instant a resolution reads: absent, or parsed. *)
Definition clock_of (now : string) : option (option Z) :=
  if String.eqb now "" then Some None else Some <$> rfc3339_sod now.

Lemma Resolve_run d rs now :
  d_verdict d = VerdictAllowUR →
  Resolve d rs now =
  if negb (forallb valid_resolution rs) then deny ErrInvalidResolution
  else match clock_of now with
       | None => deny ErrInvalidTimestamp
       | Some clock => resolve_loop (status_of rs clock) [] (sortedSet (d_unresolved d))
       end.
Proof.
  intros Hv. unfold Resolve, clock_of. rewrite Hv. destruct (negb _); [done|].
  destruct (String.eqb now ""); [done|]. by destruct (rfc3339_sod now).
Qed.

Lemma Sorted_filter (P : string → Prop) `{∀ x, base.Decision (P x)} l :
  Sorted String.le l → Sorted String.le (filter P l).
Proof.
  intros Hs%(Sorted_StronglySorted _). apply StronglySorted_Sorted.
  induction Hs as [|x l Hs IH Hf]; [constructor|]. rewrite filter_cons. case_decide; [|done].
  constructor; [done|]. rewrite list.Forall_forall in *. intros y [_ Hy]%list_elem_of_filter. auto.
Qed.

Lemma sortedSet_remaining status obs : sortedSet (remaining status (sortedSet obs)) = remaining status (sortedSet obs).
Proof.
  unfold sortedSet, remaining. apply sorted_dedup_id.
  - apply Sorted_filter, sorted_dedup_sorted.
  - apply list.NoDup_filter, sorted_dedup_NoDup.
Qed.

(** ** Theorems *)

(** What [Resolve] decides about an obligation-carrying decision with
    well-formed reports and clock.  It denies exactly when something said about
    some obligation is a violation; otherwise the obligations that remain are
    exactly those nothing satisfied, and it allows when none remains.  No
    obligation is invented or dropped. *)
Lemma Resolve_outcome d rs now clock :
  d_verdict d = VerdictAllowUR → forallb valid_resolution rs = true → clock_of now = Some clock →
  (admits (Resolve d rs now) = false ↔ ∃ o, o ∈ d_unresolved d ∧ says rs clock o ResolutionViolated) ∧
  (admits (Resolve d rs now) = true →
   (∀ o, o ∈ d_unresolved (Resolve d rs now) ↔ o ∈ d_unresolved d ∧ ¬ says rs clock o ResolutionSatisfied) ∧
   (d_verdict (Resolve d rs now) = VerdictAllow ↔ d_unresolved (Resolve d rs now) = [])).
Proof.
  intros Hv Hr Hc. rewrite Resolve_run, Hr, Hc by done. cbn [negb].
  set (st := status_of rs clock). set (obs := sortedSet (d_unresolved d)).
  assert (∀ o, o ∈ obs ↔ o ∈ d_unresolved d) as Hobs by (intros o; apply sorted_dedup_elem).
  destruct (decide (Exists (λ o, st o = ResolutionViolated) obs)) as [He|He].
  - apply list.Exists_exists in He as (o & Ho & Hst). destruct (resolve_loop_deny st obs []) as [r ->]; [eauto|].
    split; [|done]. split; [|done]. intros _. exists o. by rewrite <- Hobs, <- status_violated.
  - assert (∀ o, o ∈ obs → st o ≠ ResolutionViolated) as Hn.
    { intros o Ho Hst. apply He, list.Exists_exists. eauto. }
    rewrite resolve_loop_admit by done. simpl ([] ++ _).
    set (L := remaining st obs). assert (∀ o, o ∈ L ↔ o ∈ obs ∧ ¬ says rs clock o ResolutionSatisfied) as HL.
    { intros o. unfold L, remaining. rewrite list_elem_of_filter. unfold st. rewrite status_satisfied.
      split; [intros [Hs Ho]; split; [done|]|intros [Ho Hs]; split; [naive_solver|done]].
      intros Hsat. apply Hs. split; [done|]. rewrite <- status_violated. by apply Hn. }
    split.
    + split; [by destruct L|]. intros (o & Ho & Hs). rewrite <- Hobs in Ho. rewrite <- status_violated in Hs.
      by destruct (Hn o Ho).
    + intros _. destruct L as [|x l] eqn:EL; simpl; (split; [|naive_solver]);
        intros o; by rewrite <- Hobs, HL.
Qed.

Lemma Resolve_remaining d rs now :
  d_verdict d = VerdictAllowUR → d_verdict (Resolve d rs now) = VerdictAllowUR →
  ∃ clock, forallb valid_resolution rs = true ∧ clock_of now = Some clock ∧
    Resolve d rs now = allowUR (remaining (status_of rs clock) (sortedSet (d_unresolved d))) ∧
    remaining (status_of rs clock) (sortedSet (d_unresolved d)) ≠ [] ∧
    ∀ o, o ∈ remaining (status_of rs clock) (sortedSet (d_unresolved d)) →
         status_of rs clock o ≠ ResolutionViolated ∧ status_of rs clock o ≠ ResolutionSatisfied.
Proof.
  intros Hv. rewrite Resolve_run by done. destruct (forallb valid_resolution rs) eqn:Er; [|done].
  destruct (clock_of now) as [clock|] eqn:Ec; [|done]. cbn [negb]. intros Ha. exists clock.
  set (st := status_of rs clock) in *. set (obs := sortedSet (d_unresolved d)) in *.
  destruct (decide (Exists (λ o, st o = ResolutionViolated) obs)) as [He|He].
  { apply list.Exists_exists in He as (o & Ho & Hst). destruct (resolve_loop_deny st obs []) as [r E]; [eauto|].
    by rewrite E in Ha. }
  assert (∀ o, o ∈ obs → st o ≠ ResolutionViolated) as Hn.
  { intros o Ho Hst. apply He, list.Exists_exists. eauto. }
  rewrite resolve_loop_admit in * by done. simpl ([] ++ _) in *.
  split_and!; [done|done|by destruct (remaining st obs)|by destruct (remaining st obs)|].
  intros o [Hs Ho]%list_elem_of_filter. auto.
Qed.

Lemma remaining_idemp status obs : remaining status (remaining status obs) = remaining status obs.
Proof.
  unfold remaining. induction obs as [|o obs IH]; [done|]. rewrite !filter_cons. case_decide; [|done].
  rewrite filter_cons, decide_True by done. by rewrite IH.
Qed.

Lemma resolve_loop_verdict status obs s : ∀ rem, d_verdict (resolve_loop status rem obs) ≠ VerdictOther s.
Proof.
  induction obs as [|o obs IH]; intros rem; cbn [resolve_loop]; [by destruct rem|].
  destruct (String.eqb _ _); [done|]. by destruct (String.eqb _ _).
Qed.

(** Resolution is idempotent: applying the same reports and clock again
    changes nothing, for every decision and every input, malformed ones
    included. *)
Lemma Resolve_idempotent d rs now :
  Resolve (Resolve d rs now) rs now = Resolve d rs now.
Proof.
  destruct (d_verdict (Resolve d rs now)) eqn:Er.
  - unfold Resolve at 1. by rewrite Er.
  - unfold Resolve at 1. by rewrite Er.
  - destruct (d_verdict d) eqn:Ed.
    + unfold Resolve in Er. rewrite Ed in Er. congruence.
    + unfold Resolve in Er. rewrite Ed in Er. congruence.
    + destruct (Resolve_remaining d rs now Ed Er) as (clock & Hr & Hc & E & Hne & Hst). rewrite E.
      rewrite Resolve_run, Hr, Hc by done. cbn [negb d_unresolved allowUR].
      rewrite sortedSet_remaining. set (L := remaining _ _) in *.
      rewrite resolve_loop_admit by (intros o Ho; by apply Hst).
      unfold L. rewrite remaining_idemp. fold L. by destruct L.
    + unfold Resolve in Er. by rewrite Ed in Er.
  - destruct d as [[] r us]; unfold Resolve in Er |- *; simpl in *; [done..| |done].
    destruct (negb _); [done|]. destruct (String.eqb now ""); [|destruct (rfc3339_sod now); [|done]];
      by apply resolve_loop_verdict in Er.
Qed.

(** More information never turns a refusal into an admission and never adds
    an obligation: whatever a larger set of reports admits, the smaller set
    admits too, with at least the obligations the larger set leaves. *)
Lemma Resolve_monotone d rs rs' now :
  rs ⊆ rs' → admits (Resolve d rs' now) = true →
  admits (Resolve d rs now) = true ∧
  d_unresolved (Resolve d rs' now) ⊆ d_unresolved (Resolve d rs now).
Proof.
  intros Hsub. destruct (d_verdict d) eqn:Ed; try (unfold Resolve; rewrite Ed; done).
  rewrite !Resolve_run by done. destruct (forallb valid_resolution rs') eqn:Er'; [|done].
  assert (forallb valid_resolution rs = true) as Er.
  { rewrite forallb_forall in *. intros r Hr. apply Er'. apply list_elem_of_In, Hsub. by apply list_elem_of_In. }
  rewrite Er. cbn [negb]. destruct (clock_of now) as [clock|]; [|done].
  assert (∀ o s, says rs clock o s → says rs' clock o s) as Hsays.
  { intros o s [(r & ? & ? & ?)|?]; [left; exists r; auto|by right]. }
  set (obs := sortedSet _). intros Ha.
  assert (∀ o, o ∈ obs → status_of rs' clock o ≠ ResolutionViolated) as Hn'.
  { intros o Ho Hv. destruct (resolve_loop_deny (status_of rs' clock) obs []) as [r E]; [eauto|].
    by rewrite E in Ha. }
  assert (∀ o, o ∈ obs → status_of rs clock o ≠ ResolutionViolated) as Hn.
  { intros o Ho Hv%status_violated%Hsays%status_violated. by apply (Hn' o). }
  rewrite !resolve_loop_admit by done. simpl ([] ++ _).
  assert (remaining (status_of rs' clock) obs ⊆ remaining (status_of rs clock) obs) as HL.
  { unfold remaining. intros o [Hs Ho]%list_elem_of_filter. apply list_elem_of_filter. split; [|done].
    intros [H1%Hsays _]%status_satisfied. apply Hs, status_satisfied. split; [done|].
    rewrite <- status_violated. by apply Hn'. }
  destruct (remaining (status_of rs' clock) obs) as [|x l], (remaining (status_of rs clock) obs) as [|y m];
    simpl; (split; [done|]); set_solver.
Qed.

(** ** The clock *)

(** Decoding into strings agrees with decoding the raw members one by one. *)
Lemma fold_into_string m : ∀ l (acc : gomap jtext) (acc' : gomap string) k,
  mapM (λ kv : string * jtext, v ← into_string kv.2; Some (kv.1, v)) m = Some l →
  (∀ k, mget k acc' = mget k acc ≫= into_string) →
  mget k (fold_left (λ a kv, mset kv.1 kv.2 a) l acc') =
  mget k (fold_left (λ a kv, mset kv.1 kv.2 a) m acc) ≫= into_string.
Proof.
  induction m as [|[k0 j] m IH]; intros l acc acc' k Hl Ha; simpl in Hl.
  - injection Hl as <-. apply Ha.
  - destruct (into_string j) as [v|] eqn:Ev; [|done]. simpl in Hl.
    destruct (mapM _ m) as [l'|] eqn:El; [|done]. simpl in Hl. injection Hl as <-. cbn [fold_left fst snd].
    apply IH; [done|]. intros k'. rewrite !mget_mset. destruct (String.eqb k' k0); [simpl; by rewrite Ev|done].
Qed.

Lemma window_pair_of j sm w :
  into_string_map j = Some sm → window_pair sm = Some w → ∃ rm, into_raw_map j = Some rm ∧ window_of rm = Some w.
Proof.
  destruct j as [| | | | |m]; simpl; try done; [intros [= <-]; done|].
  destruct (mapM _ m) as [l|] eqn:El; [|done]. simpl. intros [= <-] H. eexists. split; [done|].
  unfold window_pair in H. unfold window_of, raw_map.
  rewrite !(fold_into_string m l [] []) in H by done.
  destruct (mget "start" _ ≫= into_string); [|done]. by destruct (mget "end" _ ≫= into_string).
Qed.

Lemma mapM_windows l : ∀ segs ws,
  mapM into_string_map l = Some segs → mapM window_pair segs = Some ws →
  ∃ rms, mapM into_raw_map l = Some rms ∧ mapM window_of rms = Some ws.
Proof.
  induction l as [|j l IH]; intros segs ws Hs Hw; simpl in Hs.
  - injection Hs as <-. injection Hw as <-. by exists [].
  - destruct (into_string_map j) as [sm|] eqn:Ej; [|done]. simpl in Hs.
    destruct (mapM into_string_map l) as [sl|] eqn:El; [|done]. simpl in Hs. injection Hs as <-. simpl in Hw.
    destruct (window_pair sm) as [w|] eqn:Ew; [|done]. simpl in Hw.
    destruct (mapM window_pair sl) as [wl|] eqn:Ewl; [|done]. simpl in Hw. injection Hw as <-.
    destruct (window_pair_of _ _ _ Ej Ew) as (rm & Er & Ewo). destruct (IH sl wl eq_refl Ewl) as (rms & Hr & Hw).
    exists (rm :: rms). simpl. rewrite Er. simpl. rewrite Hr. simpl. rewrite Ewo. simpl. by rewrite Hw.
Qed.

Lemma parseTimeWindow_windows raw ws : parseTimeWindow raw = Some ws → windows_of raw = Some ws.
Proof.
  unfold parseTimeWindow, jsonUnmarshalStrict, windows_of. destruct (read_document _) as [j|]; [|done]. simpl.
  destruct j as [| | | |l|]; simpl; try done.
  destruct (mapM into_string_map l) as [segs|] eqn:E; [|done]. simpl. intros H.
  destruct (mapM_windows l segs ws E H) as (rms & Hr & Hw). rewrite Hr. done.
Qed.

Lemma time_constraint_windows c :
  ValidateConstraint c = None → identity_of (Split colon c) = reservedTimeWin →
  validTimeWindowJSON (TrimPrefix (constraintParams c) "window:") = true.
Proof.
  unfold ValidateConstraint. rewrite !check_seq_None, !guard_None. intros (Hl & _ & H) Hid.
  pose proof (Split_no_sep colon c) as Hns. apply Nat.ltb_ge in Hl.
  destruct (Split colon c) as [|p0 [|p1 rest]]; simpl in Hl; [lia..|].
  inversion Hns as [|?? N0 Hns']; inversion Hns' as [|?? N1 _]; subst.
  unfold identity_of, nth_part in *. simpl (default _ _) in *.
  apply (identity_split p0 p1 reservedScheme "time") in Hid as [-> ->]; [|done..].
  simpl (String.eqb _ _) in H. cbv iota in H. apply guard_None in H. go_bool. done.
Qed.

(** The core's reading of a window is exact.  Where it evaluates a
    [time:window] obligation at a second of the day, the obligation denotes a
    list of ascending disjoint windows of the day, and it is satisfied exactly
    when one of them contains that second (its start included, its end not). *)
Lemma evalCoreTimeWindow_exact c sod b :
  evalCoreTimeWindow c sod = Some b →
  ∃ ws, windows_of (TrimPrefix (constraintParams c) "window:") = Some ws ∧ ascending 0 ws ∧
        (b = true ↔ ∃ w, w ∈ ws ∧ w.1 <= sod < w.2).
Proof.
  unfold evalCoreTimeWindow. destruct (ValidateConstraint c) eqn:Ev; [done|].
  destruct (_ || _) eqn:Ei; [done|]. apply orb_false_iff in Ei as [_ Ei%negb_false_iff%String.eqb_eq].
  destruct (negb _); [done|]. destruct (parseTimeWindow _) as [ws|] eqn:Ep; [|done]. intros [= <-].
  apply parseTimeWindow_windows in Ep. exists ws. split; [done|].
  pose proof (time_constraint_windows c Ev Ei) as Hj. unfold validTimeWindowJSON in Hj.
  unfold windows_of in Ep. apply andb_true_iff in Hj as [_ Hj].
  destruct (read_document _) as [j|]; [|done]. simpl in *. destruct (into_list into_raw_map j) as [segs|]; [|done].
  simpl in *. go_bool. destruct (valid_segments_ascending segs (-1)) as (ws' & Hws & _ & Ha); [done|].
  rewrite Hws in Ep. injection Ep as <-. split; [done|]. rewrite existsb_exists. setoid_rewrite list_elem_of_In.
  setoid_rewrite andb_true_iff. setoid_rewrite Z.leb_le. by setoid_rewrite Z.ltb_lt.
Qed.

(** ** Concrete instances *)

Definition w_pending : Decision := allowUR [w_net; w_time].
Definition w_reports : list Resolution := [mkResolution w_net ResolutionSatisfied].

Lemma evalCoreTimeWindow_exact_witness :
  ∃ ws, windows_of (TrimPrefix (constraintParams w_time) "window:") = Some ws ∧ ascending 0 ws ∧
        (false = true ↔ ∃ w, w ∈ ws ∧ w.1 <= 63000 < w.2).
Proof. apply (evalCoreTimeWindow_exact w_time 63000 false). vm_compute. reflexivity. Defined.
