(* ===== verification/Evidence.v ===== *)
(** * Evidence constraints

    semantics/evidence.go: the evidence-side constraint grammar and its
    three-valued evaluation.  An instant ([time.Time]) is the number of
    nanoseconds since the zero time; a [time.Duration] is an int64. *)

From S2P Require Import Prelude GoStrings GoTime GoFloat Json Ids Values Bounds JsonText Grants.
From S2P Require Import Constraints.

(** ** Grammar *)

Definition reservedEvidenceScheme : string := "varwof/evidence-v1".
Definition evidenceFreshness : string := reservedEvidenceScheme +:+ ":freshness".
Definition evidenceConsumption : string := reservedEvidenceScheme +:+ ":consumption".
Definition evidenceQuorum : string := reservedEvidenceScheme +:+ ":quorum".
Definition evidenceExclusion : string := reservedEvidenceScheme +:+ ":exclusion".
Definition maxEvidenceAgeSeconds : Z := 1000000000.

Definition ErrEvidenceConstraint : error := "invalid_evidence_constraint".
Definition ErrEvidenceNotCoreEvaluated : error := "evidence_not_core_evaluated".

Inductive EvidenceVerdict := EvidenceSatisfied | EvidenceViolated | EvidenceUnknown.
#[global] Instance EvidenceVerdict_eq_dec : EqDecision EvidenceVerdict.
Proof. solve_decision. Defined.

Record EvidenceFact := mkFact {
  f_type : string;
  f_subject : string;
  f_issued : Time;
  f_verified : bool
}.

Record EvidenceContext := mkCtx { c_now : Time; c_initiator : string; c_executor : string }.

Record EvidenceEvaluation := mkEval {
  ev_constraint : string;
  ev_verdict : EvidenceVerdict;
  ev_reason : string
}.

Definition want (c form : string) : error :=
  wrap ErrEvidenceConstraint (Quote c +:+ " (want " +:+ reservedEvidenceScheme +:+ form +:+ ")").

Definition ValidateEvidenceConstraint (c : string) : check :=
  let parts := Split colon c in
  let n := length parts in
  let p2 := nth_part parts 2 in
  if (n <? 2)%nat then Some (wrap ErrEvidenceConstraint (Quote c))
  else
    let id := identity_of parts in
    if String.eqb id evidenceFreshness then
      guard (negb (n =? 4)%nat || negb (String.eqb p2 "sec")) (want c ":freshness:sec:<n>") ;;?
      let '(v, ok) := Atoi (nth_part parts 3) in
      guard (negb ok || (v <? 0))
        (wrap ErrEvidenceConstraint (Quote c +:+ " (max age must be a non-negative integer)")) ;;?
      guard (maxEvidenceAgeSeconds <? v)
        (wrap ErrEvidenceConstraint
           (Quote c +:+ " (max age exceeds " +:+ Itoa maxEvidenceAgeSeconds +:+ " seconds)"))
    else if String.eqb id evidenceConsumption then
      guard (negb (n =? 3)%nat || negb (String.eqb p2 "once")) (want c ":consumption:once")
    else if String.eqb id evidenceQuorum then
      guard (negb (n =? 4)%nat || negb (String.eqb p2 "distinct")) (want c ":quorum:distinct:<n>") ;;?
      let '(v, ok) := Atoi (nth_part parts 3) in
      guard (negb ok || (v <? 2)) (wrap ErrEvidenceConstraint (Quote c +:+ " (a quorum is greater than one)"))
    else if String.eqb id evidenceExclusion then
      guard (negb (n =? 3)%nat || (negb (String.eqb p2 "initiator") && negb (String.eqb p2 "executor")))
        (want c ":exclusion:initiator|executor")
    else Some (wrap ErrEvidenceConstraint (Quote c)).

(** ** Facts *)

Definition eligible (facts : list EvidenceFact) : list EvidenceFact := List.filter f_verified facts.

Definition EvidenceFactsOfRole (facts : list EvidenceFact) (role : string) : list EvidenceFact :=
  List.filter (λ f, String.eqb (f_type f) role) facts.

(** The keys of the map [distinctSubjects] builds. *)
Definition distinctSubjects (facts : list EvidenceFact) : list string :=
  remove_dups (List.filter (λ s, negb (String.eqb s "")) (f_subject <$> eligible facts)).

Definition mustAtoi (s : string) : Z := (Atoi s).1.

(** ** Evaluation *)

(** The freshness loop: the reason of the first fact that is not fresh. *)
Definition fact_fresh (maxAge : Z) (now : Time) (f : EvidenceFact) : check :=
  guard (IsZero (f_issued f)) "freshness:no_issuance_time" ;;?
  guard (After (f_issued f) now) "freshness:future_issued" ;;?
  guard (maxAge <? Sub now (f_issued f)) "freshness:stale".

Definition evaluate (c : string) (facts : list EvidenceFact) (ctx : EvidenceContext) : EvidenceEvaluation :=
  let parts := Split colon c in
  let id := identity_of parts in
  if String.eqb id evidenceFreshness then
    let maxAge := seconds (mustAtoi (nth_part parts 3)) in
    match check_all (fact_fresh maxAge (c_now ctx)) (eligible facts) with
    | Some reason => mkEval c EvidenceViolated reason
    | None =>
        match eligible facts with
        | [] => mkEval c EvidenceViolated "freshness:no_eligible_fact"
        | _ => mkEval c EvidenceSatisfied ""
        end
    end
  else if String.eqb id evidenceQuorum then
    let threshold := mustAtoi (nth_part parts 3) in
    let distinct := Z.of_nat (length (distinctSubjects facts)) in
    if distinct <? threshold then
      mkEval c EvidenceViolated
        ("quorum:distinct_subjects=" +:+ Itoa distinct +:+ "<threshold=" +:+ Itoa threshold)
    else mkEval c EvidenceSatisfied ""
  else if String.eqb id evidenceExclusion then
    let p2 := nth_part parts 2 in
    let excluded := if String.eqb p2 "initiator" then c_initiator ctx
                    else if String.eqb p2 "executor" then c_executor ctx else "" in
    if String.eqb excluded "" then mkEval c EvidenceUnknown "exclusion:identity_not_supplied"
    else if existsb (String.eqb excluded) (distinctSubjects facts)
         then mkEval c EvidenceViolated ("exclusion:" +:+ p2 +:+ "_is_approver")
         else mkEval c EvidenceSatisfied ""
  else mkEval c EvidenceUnknown ErrEvidenceNotCoreEvaluated.

Definition EvaluateEvidenceConstraint (c : string) (facts : list EvidenceFact) (ctx : EvidenceContext) :
    result EvidenceEvaluation :=
  match ValidateEvidenceConstraint c with
  | Some e => inr e
  | None => inl (evaluate c facts ctx)
  end.

Definition CoreEvaluatesEvidenceConstraint (c : string) : bool :=
  match ValidateEvidenceConstraint c with
  | Some _ => false
  | None => negb (String.eqb (identity_of (Split colon c)) evidenceConsumption)
  end.

(** ** Freshness is exact *)

(** The duration of an accepted age does not overflow. *)
Lemma seconds_exact n : 0 <= n <= maxEvidenceAgeSeconds → seconds n = n * Second.
Proof.
  unfold seconds, wrap64, maxEvidenceAgeSeconds, Second. intros H. rewrite Z.mod_small; lia.
Qed.

(** Saturation does not change a comparison with an accepted age. *)
Lemma Sub_bound t u a : 0 <= a <= maxEvidenceAgeSeconds * Second → (a <? Sub t u) = (a <? t - u).
Proof.
  unfold Sub, maxEvidenceAgeSeconds, Second, max_int64, min_int64. intros H.
  destruct (Z.ltb_spec a (t - u)); [apply Z.ltb_lt|apply Z.ltb_ge]; lia.
Qed.

Lemma freshness_parts c n :
  ValidateEvidenceConstraint c = None → identity_of (Split colon c) = evidenceFreshness →
  mustAtoi (nth_part (Split colon c) 3) = n → 0 <= n <= maxEvidenceAgeSeconds.
Proof.
  unfold ValidateEvidenceConstraint, mustAtoi. destruct (_ <? 2)%nat; [done|]. intros H Hid. rewrite Hid in H.
  rewrite String.eqb_refl in H. destruct (Atoi _) as [v ok]. rewrite !check_seq_None, !guard_None in H.
  destruct H as (_ & Hv & Hm). go_bool. simpl. intros <-. apply Z.ltb_ge in H0, Hm. lia.
Qed.

Lemma eligible_elem f facts : f ∈ eligible facts ↔ f ∈ facts ∧ f_verified f = true.
Proof. unfold eligible. by rewrite !list_elem_of_In, filter_In. Qed.

(** Freshness is exact in seconds.  An accepted [freshness:sec:n] constraint
    is satisfied exactly when at least one fact is verified and every verified
    fact carries an issuance time that is not in the future and at most [n]
    seconds old; the int64 arithmetic never wraps or saturates into a different
    answer. *)
Lemma freshness_exact c facts ctx :
  ValidateEvidenceConstraint c = None → identity_of (Split colon c) = evidenceFreshness →
  ev_verdict (evaluate c facts ctx) = EvidenceSatisfied ↔
  eligible facts ≠ [] ∧
  ∀ f, f ∈ facts → f_verified f = true →
    f_issued f ≠ 0 ∧ f_issued f <= c_now ctx ∧
    c_now ctx - f_issued f <= mustAtoi (nth_part (Split colon c) 3) * Second.
Proof.
  intros Hv Hid. pose proof (freshness_parts c _ Hv Hid eq_refl) as Hn. unfold evaluate.
  rewrite Hid, String.eqb_refl. set (n := mustAtoi _) in *. rewrite seconds_exact by done.
  assert (∀ f, fact_fresh (n * Second) (c_now ctx) f = None ↔
     f_issued f ≠ 0 ∧ f_issued f <= c_now ctx ∧ c_now ctx - f_issued f <= n * Second) as Hf.
  { intros f. unfold fact_fresh, IsZero, After. rewrite !check_seq_None, !guard_None.
    rewrite Sub_bound by (unfold Second; lia). rewrite Z.eqb_neq, !Z.ltb_ge. done. }
  destruct (check_all _ _) as [r|] eqn:Ec.
  - split; [done|]. intros [_ H]. apply check_all_Some in Ec as (f & [Hin Hve]%eligible_elem & E).
    rewrite (proj2 (Hf f) (H f Hin Hve)) in E. done.
  - rewrite check_all_None in Ec. destruct (eligible facts) as [|f0 fs] eqn:Ee; [naive_solver|]. split; [|done].
    intros _. split; [done|]. intros f Hin Hve. apply Hf, Ec. rewrite <- Ee. by apply eligible_elem.
Qed.

(** ** Counting *)

Lemma distinctSubjects_elem s facts :
  s ∈ distinctSubjects facts ↔ s ≠ "" ∧ ∃ f, f ∈ facts ∧ f_verified f = true ∧ f_subject f = s.
Proof.
  unfold distinctSubjects. rewrite elem_of_remove_dups, !list_elem_of_In, filter_In, negb_true_iff, String.eqb_neq.
  rewrite <- list_elem_of_In, list_elem_of_fmap. setoid_rewrite eligible_elem. naive_solver.
Qed.

Lemma distinctSubjects_NoDup facts : NoDup (distinctSubjects facts).
Proof. apply NoDup_remove_dups. Qed.

(** An unverified fact, or one without a protected subject, is never counted:
    a quorum and an exclusion over a set of facts have the verdict they have over
    its verified facts with a subject, and repeating facts changes nothing. *)
Lemma counting_ignores_ineligible c facts facts' ctx :
  ValidateEvidenceConstraint c = None →
  identity_of (Split colon c) = evidenceQuorum ∨ identity_of (Split colon c) = evidenceExclusion →
  (∀ s, s ≠ "" → (∃ f, f ∈ facts ∧ f_verified f = true ∧ f_subject f = s) ↔
                 (∃ f, f ∈ facts' ∧ f_verified f = true ∧ f_subject f = s)) →
  ev_verdict (evaluate c facts ctx) = ev_verdict (evaluate c facts' ctx).
Proof.
  intros Hv Hid Hs. assert (∀ s, s ∈ distinctSubjects facts ↔ s ∈ distinctSubjects facts') as Hd.
  { intros s. rewrite !distinctSubjects_elem. specialize (Hs s). naive_solver. }
  assert (distinctSubjects facts ≡ₚ distinctSubjects facts') as Hp.
  { by apply NoDup_Permutation; auto using distinctSubjects_NoDup. }
  unfold evaluate. destruct Hid as [-> | ->]; simpl (String.eqb _ _); cbv iota.
  - rewrite Hp. by destruct (_ <? _).
  - set (ex := if String.eqb _ "initiator" then _ else _). destruct (String.eqb ex ""); [done|].
    assert (existsb (String.eqb ex) (distinctSubjects facts) = existsb (String.eqb ex) (distinctSubjects facts')) as ->.
    { apply eq_true_iff_eq. rewrite !existsb_exists. setoid_rewrite <- list_elem_of_In. by setoid_rewrite Hd. }
    by destruct (existsb _ _).
Qed.

(** ** Concrete instances *)

Definition w_now : Time := 63900000000 * Second.
Definition w_fact (who : string) (age : Z) (ok : bool) : EvidenceFact :=
  mkFact "human-authorization" who (w_now - age * Second) ok.
Definition w_ctx : EvidenceContext := mkCtx w_now "alice" "bot-1".

