(* ===== verification/Sha256.v ===== *)
(** * SHA-256 and base64url

    [crypto/sha256.Sum256] on a byte string and the unpadded URL alphabet of
    [encoding/base64], as the digests and action identifiers of the core use
    them. *)

From S2P Require Import Prelude GoStrings.

(** ** 32-bit words *)

Definition w32 (z : Z) : Z := z mod 2 ^ 32.
Definition add32 (a b : Z) : Z := w32 (a + b).
Definition rotr (n x : Z) : Z := Z.lor (Z.shiftr x n) (w32 (Z.shiftl x (32 - n))).
Definition not32 (x : Z) : Z := Z.lxor x (2 ^ 32 - 1).

Definition Ch (x y z : Z) : Z := Z.lxor (Z.land x y) (Z.land (not32 x) z).
Definition Maj (x y z : Z) : Z := Z.lxor (Z.lxor (Z.land x y) (Z.land x z)) (Z.land y z).
Definition Sigma0 (x : Z) : Z := Z.lxor (Z.lxor (rotr 2 x) (rotr 13 x)) (rotr 22 x).
Definition Sigma1 (x : Z) : Z := Z.lxor (Z.lxor (rotr 6 x) (rotr 11 x)) (rotr 25 x).
Definition sigma0 (x : Z) : Z := Z.lxor (Z.lxor (rotr 7 x) (rotr 18 x)) (Z.shiftr x 3).
Definition sigma1 (x : Z) : Z := Z.lxor (Z.lxor (rotr 17 x) (rotr 19 x)) (Z.shiftr x 10).

(** The tables are the first 32 bits of the fractional parts of the cube roots
    (round constants) and of the square roots (initial hash) of the first
    primes. *)
Definition is_prime (n : nat) : bool :=
  forallb (λ d, negb (Nat.eqb (n mod d) 0)) (seq 2 (n - 2)).
Definition primes : list Z :=
  Eval vm_compute in map Z.of_nat (List.filter is_prime (seq 2 310)).

(** The integer cube root of [z], by bisection between [lo] and [lo + 2 ^ n]. *)
Fixpoint cube_root (n : nat) (lo z : Z) : Z :=
  match n with
  | O => lo
  | S n' => let mid := lo + 2 ^ Z.of_nat n' in cube_root n' (if mid * mid * mid <=? z then mid else lo) z
  end.

Definition round_constants : list Z :=
  Eval vm_compute in map (λ p, w32 (cube_root 36 0 (p * 2 ^ 96))) (take 64 primes).
Definition initial_hash : list Z :=
  Eval vm_compute in map (λ p, w32 (Z.sqrt (p * 2 ^ 64))) (take 8 primes).

(** ** Padding and blocks *)

Definition bytes_of (s : string) : list Z := map code (String.list_ascii_of_string s).

Definition be_bytes (n : nat) (z : Z) : list Z :=
  map (λ i, Z.shiftr z (8 * Z.of_nat i) mod 256) (rev (seq 0 n)).

Definition pad (m : list Z) : list Z :=
  let len := Z.of_nat (length m) in
  m ++ [128] ++ repeat 0 (Z.to_nat ((55 - len) mod 64)) ++ be_bytes 8 (8 * len).

Fixpoint words_of (l : list Z) : list Z :=
  match l with
  | a :: b :: c :: d :: l' => (((a * 256 + b) * 256 + c) * 256 + d) :: words_of l'
  | _ => []
  end.

Fixpoint blocks (fuel : nat) (ws : list Z) : list (list Z) :=
  match fuel, ws with
  | S f, _ :: _ => take 16 ws :: blocks f (drop 16 ws)
  | _, _ => []
  end.

(** The message schedule, newest word first. *)
Fixpoint schedule (n : nat) (w : list Z) : list Z :=
  match n with
  | O => w
  | S n' =>
      let at_ i := nth i w 0 in
      schedule n' (w32 (sigma1 (at_ 1%nat) + at_ 6%nat + sigma0 (at_ 14%nat) + at_ 15%nat) :: w)
  end.

Definition round (st : list Z) (kw : Z * Z) : list Z :=
  match st with
  | [a; b; c; d; e; f; g; h] =>
      let t1 := w32 (h + Sigma1 e + Ch e f g + kw.1 + kw.2) in
      let t2 := w32 (Sigma0 a + Maj a b c) in
      [add32 t1 t2; a; b; c; add32 d t1; e; f; g]
  | _ => st
  end.

Definition compress (st : list Z) (block : list Z) : list Z :=
  let w := rev (schedule 48 (rev block)) in
  zip_with add32 st (fold_left round (zip round_constants w) st).

Definition Sum256 (s : string) : list Z :=
  let ws := words_of (pad (bytes_of s)) in
  mjoin (be_bytes 4 <$> fold_left compress (blocks (S (length ws)) ws) initial_hash).

Definition hex_text (l : list Z) : string :=
  fold_right (λ b acc, String (hex_digit (b / 16)) (String (hex_digit (b mod 16)) acc)) "" l.

Example sha256_abc :
  hex_text (Sum256 "abc") = "ba7816bf8f01cfea414140de5dae2223b00361a396177a9cb410ff61f20015ad".
Proof. vm_compute. reflexivity. Qed.
Example sha256_empty :
  hex_text (Sum256 "") = "e3b0c44298fc1c149afbf4c8996fb92427ae41e4649b934ca495991b7852b855".
Proof. vm_compute. reflexivity. Qed.
Example sha256_two_blocks :
  hex_text (Sum256 "abcdbcdecdefdefgefghfghighijhijkijkljklmklmnlmnomnopnopq") =
  "248d6a61d20638b8e5c026930c3e6039a33ce45964ff2167f6ecedd419db06c1".
Proof. vm_compute. reflexivity. Qed.

(** A digest is thirty-two bytes. *)
Lemma round_length st kw : length (round st kw) = length st.
Proof. unfold round. by do 9 (destruct st as [|? st]; [done|]). Qed.

Lemma compress_length st b : length st = 8%nat → length (compress st b) = 8%nat.
Proof.
  intros H. unfold compress. rewrite length_zip_with.
  assert (∀ l s, length (fold_left round l s) = length s) as E.
  { induction l as [|x l IH]; intros s; [done|]. simpl. by rewrite IH, round_length. }
  rewrite E, H. done.
Qed.

Lemma Sum256_length s : length (Sum256 s) = 32%nat.
Proof.
  unfold Sum256. set (bs := blocks _ _).
  assert (∀ l st, length st = 8%nat → length (fold_left compress l st) = 8%nat) as E.
  { induction l as [|x l IH]; intros st H; [done|]. simpl. auto using compress_length. }
  specialize (E bs initial_hash eq_refl). destruct (fold_left compress bs initial_hash) as [|? l]; [done|].
  do 7 (destruct l as [|? l]; [done|]). by destruct l.
Qed.

Lemma Sum256_bytes s : Forall (λ b, 0 <= b < 256) (Sum256 s).
Proof.
  unfold Sum256. apply list.Forall_forall. intros b. rewrite list_elem_of_join.
  intros (l & Hb & (w & -> & _)%list_elem_of_fmap). unfold be_bytes in Hb.
  apply list_elem_of_In, in_map_iff in Hb as (i & <- & _). apply Z.mod_pos_bound. lia.
Qed.

(** ** [encoding/base64] *)

(** The two alphabets differ in their last two characters. *)
Definition b64_char (url : bool) (v : Z) : ascii :=
  if v <? 26 then chr (65 + v)
  else if v <? 52 then chr (71 + v)
  else if v <? 62 then chr (v - 4)
  else if v =? 62 then (if url then "-" else "+")%char
  else (if url then "_" else "/")%char.

(** [Encoding.EncodeToString]: three bytes to four characters; the URL encoding
    the code uses has no padding, the standard one has. *)
Fixpoint b64_encode (url : bool) (l : list Z) : string :=
  let ch := b64_char url in
  match l with
  | a :: b :: c :: l' =>
      String (ch (a / 4)) (String (ch (a mod 4 * 16 + b / 16))
        (String (ch (b mod 16 * 4 + c / 64)) (String (ch (c mod 64)) (b64_encode url l'))))
  | [a; b] =>
      String (ch (a / 4)) (String (ch (a mod 4 * 16 + b / 16))
        (String (ch (b mod 16 * 4)) (if url then "" else "=")))
  | [a] => String (ch (a / 4)) (String (ch (a mod 4 * 16)) (if url then "" else "=="))
  | [] => ""
  end.

Definition RawURLEncoding (l : list Z) : string := b64_encode true l.
Definition StdEncoding (l : list Z) : string := b64_encode false l.

Example base64_samples :
  StdEncoding (bytes_of "fo") = "Zm8=" ∧ StdEncoding (bytes_of "foobar") = "Zm9vYmFy" ∧
  RawURLEncoding [251; 255; 254; 1] = "-__-AQ".
Proof. vm_compute. done. Qed.

(** The URL alphabet. *)
Definition b64url_class (c : ascii) : bool :=
  is_upper c || is_lower c || is_digit c || Ascii.eqb c "_" || Ascii.eqb c "-".

Definition sextets : list Z := map Z.of_nat (seq 0 64).

Lemma sextets_elem v : 0 <= v < 64 → v ∈ sextets.
Proof.
  intros H. apply list_elem_of_In, in_map_iff. exists (Z.to_nat v). split; [lia|]. apply in_seq. lia.
Qed.

Lemma b64_char_class v : 0 <= v < 64 → b64url_class (b64_char true v) = true.
Proof.
  intros H%sextets_elem%list_elem_of_In. revert v H.
  apply (proj1 (forallb_forall (λ v, b64url_class (b64_char true v)) sextets)). vm_compute. done.
Qed.

Lemma b64_char_inj v w : 0 <= v < 64 → 0 <= w < 64 → b64_char true v = b64_char true w → v = w.
Proof.
  intros Hv%sextets_elem Hw%sextets_elem E.
  assert (forallb (λ v, forallb (λ w, negb (Ascii.eqb (b64_char true v) (b64_char true w)) || (v =? w)) sextets)
            sextets = true) as H by (vm_compute; done).
  rewrite forallb_forall in H. apply list_elem_of_In in Hv, Hw. specialize (H v Hv).
  rewrite forallb_forall in H. specialize (H w Hw). rewrite E, Ascii.eqb_refl in H. by apply Z.eqb_eq in H.
Qed.

(** Induction in groups of three bytes. *)
Lemma triple_ind (P : list Z → Prop) :
  P [] → (∀ a, P [a]) → (∀ a b, P [a; b]) → (∀ a b c l, P l → P (a :: b :: c :: l)) → ∀ l, P l.
Proof.
  intros H0 H1 H2 H3 l. remember (length l) as n eqn:E. revert l E.
  induction n as [n IH] using lt_wf_ind. intros [|a [|b [|c l]]] E; auto.
  apply H3, (IH (length l)); simpl in *; lia.
Qed.

Definition is_byte (b : Z) : Prop := 0 <= b < 256.

(** The four sextets of three bytes. *)
Lemma sextet_bounds a b c :
  is_byte a → is_byte b → is_byte c →
  0 <= a / 4 < 64 ∧ 0 <= a mod 4 * 16 + b / 16 < 64 ∧ 0 <= b mod 16 * 4 + c / 64 < 64 ∧ 0 <= c mod 64 < 64.
Proof.
  unfold is_byte. intros. Z.to_euclidean_division_equations. lia.
Qed.

Lemma sextets_inj a b c a' b' c' :
  is_byte a → is_byte b → is_byte c → is_byte a' → is_byte b' → is_byte c' →
  a / 4 = a' / 4 → a mod 4 * 16 + b / 16 = a' mod 4 * 16 + b' / 16 →
  b mod 16 * 4 + c / 64 = b' mod 16 * 4 + c' / 64 → c mod 64 = c' mod 64 →
  a = a' ∧ b = b' ∧ c = c'.
Proof. unfold is_byte. intros. Z.to_euclidean_division_equations. lia. Qed.

Lemma RawURLEncoding_class l :
  Forall is_byte l → str_forallb b64url_class (RawURLEncoding l) = true.
Proof.
  unfold RawURLEncoding. assert (is_byte 0) as H0 by (unfold is_byte; lia).
  induction l as [|a|a b|a b c l IH] using triple_ind; intros Hl; [done|..].
  - apply list.Forall_cons in Hl as [Ha _]. destruct (sextet_bounds a 0 0) as (H1 & H2 & _); auto.
    rewrite Z.add_0_r in H2. cbn. rewrite !b64_char_class by done. done.
  - apply list.Forall_cons in Hl as [Ha [Hb _]%list.Forall_cons].
    destruct (sextet_bounds a b 0) as (H1 & H2 & H3 & _); auto.
    rewrite Z.add_0_r in H3. cbn. rewrite !b64_char_class by done. done.
  - apply list.Forall_cons in Hl as [Ha [Hb [Hc Hl]%list.Forall_cons]%list.Forall_cons].
    destruct (sextet_bounds a b c) as (H1 & H2 & H3 & H4); auto.
    cbn [b64_encode str_forallb]. rewrite !b64_char_class by done. by apply IH.
Qed.

(** The length of the encoding is [(4 n + 2) / 3]. *)
Lemma RawURLEncoding_length l :
  (3 * String.length (RawURLEncoding l) <= 4 * length l + 2 < 3 * String.length (RawURLEncoding l) + 3)%nat.
Proof.
  unfold RawURLEncoding. induction l as [|a|a b|a b c l IH] using triple_ind; cbn; lia.
Qed.

(** Byte strings of one length with the same encoding are equal. *)
Lemma RawURLEncoding_inj l l' :
  Forall is_byte l → Forall is_byte l' → length l = length l' → RawURLEncoding l = RawURLEncoding l' → l = l'.
Proof.
  unfold RawURLEncoding. assert (is_byte 0) as H0 by (unfold is_byte; lia). revert l'.
  induction l as [|a|a b|a b c l IH] using triple_ind; intros l' Hl Hl' Hlen E.
  - by destruct l'.
  - destruct l' as [|a' [|? ?]]; try done. apply list.Forall_cons in Hl as [Ha _], Hl' as [Ha' _].
    destruct (sextet_bounds a 0 0) as (H1 & H2 & _), (sextet_bounds a' 0 0) as (H1' & H2' & _); auto.
    cbn in E. rewrite <- (Z.add_0_r (a mod 4 * 16)), <- (Z.add_0_r (a' mod 4 * 16)) in E.
    injection E as E1%b64_char_inj E2%b64_char_inj; auto.
    by destruct (sextets_inj a 0 0 a' 0 0) as (-> & _).
  - destruct l' as [|a' [|b' [|? ?]]]; try done.
    apply list.Forall_cons in Hl as [Ha [Hb _]%list.Forall_cons], Hl' as [Ha' [Hb' _]%list.Forall_cons].
    destruct (sextet_bounds a b 0) as (H1 & H2 & H3 & _), (sextet_bounds a' b' 0) as (H1' & H2' & H3' & _); auto.
    cbn in E. rewrite <- (Z.add_0_r (b mod 16 * 4)), <- (Z.add_0_r (b' mod 16 * 4)) in E.
    injection E as E1%b64_char_inj E2%b64_char_inj E3%b64_char_inj; auto.
    by destruct (sextets_inj a b 0 a' b' 0) as (-> & -> & _).
  - destruct l' as [|a' [|b' [|c' l']]]; try done.
    apply list.Forall_cons in Hl as [Ha [Hb [Hc Hl]%list.Forall_cons]%list.Forall_cons].
    apply list.Forall_cons in Hl' as [Ha' [Hb' [Hc' Hl']%list.Forall_cons]%list.Forall_cons].
    destruct (sextet_bounds a b c) as (H1 & H2 & H3 & H4), (sextet_bounds a' b' c') as (H1' & H2' & H3' & H4'); auto.
    cbn [b64_encode] in E. injection E as E1%b64_char_inj E2%b64_char_inj E3%b64_char_inj E4%b64_char_inj E; auto.
    destruct (sextets_inj a b c a' b' c') as (-> & -> & ->); auto. f_equal. f_equal. f_equal.
    apply IH; auto. by injection Hlen.
Qed.

(** ** Decoding *)

Definition b64_val (url : bool) (c : ascii) : option Z :=
  if is_upper c then Some (code c - 65)
  else if is_lower c then Some (code c - 71)
  else if is_digit c then Some (code c + 4)
  else if Ascii.eqb c (if url then "-" else "+") then Some 62
  else if Ascii.eqb c (if url then "_" else "/") then Some 63
  else None.

(** Line breaks are skipped. *)
Fixpoint b64_strip (s : string) : string :=
  match s with
  | EmptyString => EmptyString
  | String c s' => if (code c =? 10) || (code c =? 13) then b64_strip s' else String c (b64_strip s')
  end.

(** Groups of four characters.  A last group of two or three characters is cut
    short where the encoding has no padding and is filled with [=] where it has;
    the unused low bits of a last group are not checked. *)
Fixpoint b64_groups (url : bool) (s : string) : option (list Z) :=
  let val := b64_val url in
  match s with
  | EmptyString => Some []
  | String a (String b EmptyString) =>
      if url then x ← val a; y ← val b; Some [x * 4 + y / 16] else None
  | String a (String b (String c EmptyString)) =>
      if url then x ← val a; y ← val b; z ← val c; Some [x * 4 + y / 16; y mod 16 * 16 + z / 4] else None
  | String a (String b (String c (String d s'))) =>
      x ← val a; y ← val b;
      if negb url && Ascii.eqb c "=" then
        if Ascii.eqb d "=" && String.eqb s' "" then Some [x * 4 + y / 16] else None
      else
        z ← val c;
        if negb url && Ascii.eqb d "=" then
          if String.eqb s' "" then Some [x * 4 + y / 16; y mod 16 * 16 + z / 4] else None
        else
          w ← val d; l ← b64_groups url s';
          Some ([x * 4 + y / 16; y mod 16 * 16 + z / 4; z mod 4 * 64 + w] ++ l)
  | _ => None
  end.
Definition b64_decode (url : bool) (s : string) : option (list Z) := b64_groups url (b64_strip s).

Lemma b64_char_ok url v :
  0 <= v < 64 → b64_val url (b64_char url v) = Some v ∧ Ascii.eqb (b64_char url v) "=" = false ∧
  (code (b64_char url v) =? 10) || (code (b64_char url v) =? 13) = false.
Proof.
  intros Hv%sextets_elem%list_elem_of_In.
  assert (forallb (λ v, bool_decide (b64_val url (b64_char url v) = Some v) &&
    negb (Ascii.eqb (b64_char url v) "=") && negb ((code (b64_char url v) =? 10) || (code (b64_char url v) =? 13)))
    sextets = true) as H by (destruct url; vm_compute; done).
  rewrite forallb_forall in H. specialize (H v Hv). go_bool. auto using orb_false_intro.
Qed.

Lemma byte_sextets a b c :
  is_byte a → is_byte b → is_byte c →
  a / 4 * 4 + (a mod 4 * 16 + b / 16) / 16 = a ∧
  (a mod 4 * 16 + b / 16) mod 16 * 16 + (b mod 16 * 4 + c / 64) / 4 = b ∧
  (b mod 16 * 4 + c / 64) mod 4 * 64 + c mod 64 = c.
Proof. unfold is_byte. intros. Z.to_euclidean_division_equations. lia. Qed.

(** Decoding inverts encoding. *)
Lemma b64_decode_encode url l : Forall is_byte l → b64_decode url (b64_encode url l) = Some l.
Proof.
  unfold b64_decode. assert (is_byte 0) as H0 by (unfold is_byte; lia).
  induction l as [|a|a b|a b c l IH] using triple_ind; intros Hl; [done|..].
  - apply list.Forall_cons in Hl as [Ha _]. destruct (sextet_bounds a 0 0) as (S1 & S2 & _); auto.
    destruct (byte_sextets a 0 0) as (E1 & _); auto. change (0 / 16) with 0 in *. rewrite Z.add_0_r in E1, S2.
    destruct (b64_char_ok url _ S1) as (V1 & P1 & N1), (b64_char_ok url _ S2) as (V2 & P2 & N2).
    cbn [b64_encode b64_strip]. rewrite N1. cbn [b64_strip]. rewrite N2.
    destruct url; cbn; rewrite V1; cbn; rewrite V2; cbn; by rewrite E1.
  - apply list.Forall_cons in Hl as [Ha [Hb _]%list.Forall_cons].
    destruct (sextet_bounds a b 0) as (S1 & S2 & S3 & _); auto.
    destruct (byte_sextets a b 0) as (E1 & E2 & _); auto. change (0 / 64) with 0 in *. rewrite Z.add_0_r in E2, S3.
    destruct (b64_char_ok url _ S1) as (V1 & P1 & N1), (b64_char_ok url _ S2) as (V2 & P2 & N2),
      (b64_char_ok url _ S3) as (V3 & P3 & N3).
    cbn [b64_encode b64_strip]. rewrite N1. cbn [b64_strip]. rewrite N2. cbn [b64_strip]. rewrite N3.
    destruct url; cbn; rewrite V1; cbn; rewrite V2; cbn; rewrite ?P3, V3; cbn; by rewrite E1, E2.
  - apply list.Forall_cons in Hl as [Ha [Hb [Hc Hl]%list.Forall_cons]%list.Forall_cons].
    destruct (sextet_bounds a b c) as (S1 & S2 & S3 & S4); auto.
    destruct (byte_sextets a b c) as (E1 & E2 & E3); auto.
    destruct (b64_char_ok url _ S1) as (V1 & P1 & N1), (b64_char_ok url _ S2) as (V2 & P2 & N2),
      (b64_char_ok url _ S3) as (V3 & P3 & N3), (b64_char_ok url _ S4) as (V4 & P4 & N4).
    cbn [b64_encode]. cbn [b64_strip]. rewrite N1. cbn [b64_strip]. rewrite N2. cbn [b64_strip]. rewrite N3.
    cbn [b64_strip]. rewrite N4. cbn [b64_groups]. rewrite V1. cbn [mbind option_bind]. rewrite V2.
    cbn [mbind option_bind]. rewrite P3, andb_false_r, V3. cbn [mbind option_bind].
    rewrite P4, andb_false_r, V4. cbn [mbind option_bind]. rewrite IH by done. cbn. by rewrite E1, E2, E3.
Qed.
