(* ===== verification/Requirement.v ===== *)
(** * The evidence requirement

    semantics/requirement.go: the bounded expression parser, the validation of a
    requirement and its three-valued evaluation over evidence facts. *)

From S2P Require Import Prelude GoStrings GoTime GoFloat Json Canonical Ids Values Bounds.
From S2P Require Import JsonText.
From S2P Require Import Grants Constraints Evidence Sha256.

Definition RequirementVersion : string := "CLC-REQUIREMENT-v1".
Definition maxRequirementExpressionBytes : Z := 512.
Definition maxRequirementNodes : Z := 64.
Definition maxRequirementDepth : Z := 8.

Definition ErrRequirementShape : error := "requirement_shape".
Definition ErrRequirementVersion : error := "requirement_version".
Definition ErrRequirementExpression : error := "requirement_expression".

(** ** Tokens *)

Definition isIdentByte (c : ascii) : bool :=
  is_alnum c || Ascii.eqb c "." || Ascii.eqb c ":" || Ascii.eqb c "-" || Ascii.eqb c "_".
Definition is_blank (c : ascii) : bool :=
  Ascii.eqb c " " || Ascii.eqb c (chr 9) || Ascii.eqb c (chr 10) || Ascii.eqb c (chr 13).

(** The scanner; [cur] is the identifier being read, in order. *)
Definition emit (cur : string) (ts : list string) : list string :=
  match cur with EmptyString => ts | _ => cur :: ts end.

Fixpoint scan (cur : string) (s : string) : result (list string) :=
  match s with
  | EmptyString => inl (emit cur [])
  | String c s' =>
      if isIdentByte c then scan (cur +:+ String c "") s'
      else if is_blank c then let! ts := scan "" s' in inl (emit cur ts)
      else if Ascii.eqb c "(" || Ascii.eqb c ")" then
        let! ts := scan "" s' in inl (emit cur (String c "" :: ts))
      else if Ascii.eqb c "&" || Ascii.eqb c "|" then
        let stray := wrap ErrRequirementExpression ("stray " +:+ Quote (encode_rune (code c))) in
        match s' with
        | String c' s'' =>
            if Ascii.eqb c' c then let! ts := scan "" s'' in inl (emit cur (String c (String c "") :: ts))
            else inr stray
        | EmptyString => inr stray
        end
      else inr (wrap ErrRequirementExpression ("unexpected character " +:+ Quote (encode_rune (code c))))
  end.

Definition tokenizeRequirement (s : string) : result (list string) :=
  let! ts := scan "" s in
  match ts with
  | [] => inr (wrap ErrRequirementExpression "empty expression")
  | _ => inl ts
  end.

(** ** The parser *)

Inductive bop := AND | OR.
Inductive requirementExpr :=
  | Ident (role : string)
  | Binary (op : bop) (left right : requirementExpr).

Definition requirementOperator (tok : string) : option bop :=
  if String.eqb tok "AND" || String.eqb tok "&&" then Some AND
  else if String.eqb tok "OR" || String.eqb tok "||" then Some OR
  else None.
Definition requirementOperatorToken (tok : string) : bool :=
  match requirementOperator tok with Some _ => true | None => false end.

(** Parser state: the tokens left and the operators counted.  The three
    functions are [parseTerm], [parseExpr] and the loop of [parseExpr]; [None]
    means that the fuel ran out. *)
Abbreviation pres := (option (result (requirementExpr * (list string * Z)))) (only parsing).

Definition pbind (r : pres) (k : requirementExpr → list string → Z → pres) : pres :=
  match r with
  | None => None
  | Some (inr e) => Some (inr e)
  | Some (inl (x, (ts, n))) => k x ts n
  end.

Definition perr (e d : string) : pres := Some (inr (wrap e d)).

Fixpoint parseTerm (fuel : nat) (depth : Z) (ts : list string) (n : Z) {struct fuel} : pres :=
  match fuel with
  | O => None
  | S f =>
      match ts with
      | [] => perr ErrRequirementExpression "unexpected end of expression"
      | tok :: ts' =>
          if String.eqb tok "(" then
            pbind (parseExpr f (depth + 1) ts' n) (λ inner ts'' n',
              match ts'' with
              | t :: rest => if String.eqb t ")" then Some (inl (inner, (rest, n')))
                             else perr ErrRequirementExpression "missing )"
              | [] => perr ErrRequirementExpression "missing )"
              end)
          else if String.eqb tok ")" || requirementOperatorToken tok then
            perr ErrRequirementExpression ("expected a term, got " +:+ Quote tok)
          else Some (inl (Ident tok, (ts', n)))
      end
  end
with parseExpr (fuel : nat) (depth : Z) (ts : list string) (n : Z) {struct fuel} : pres :=
  match fuel with
  | O => None
  | S f =>
      if maxRequirementDepth <? depth then
        perr ErrRequirementShape ("nesting deeper than " +:+ Itoa maxRequirementDepth)
      else pbind (parseTerm f depth ts n) (λ left ts' n', parseRest f depth left ts' n')
  end
with parseRest (fuel : nat) (depth : Z) (left : requirementExpr) (ts : list string) (n : Z) {struct fuel} : pres :=
  match fuel with
  | O => None
  | S f =>
      match ts with
      | tok :: ts' =>
          match requirementOperator tok with
          | None => Some (inl (left, (ts, n)))
          | Some op =>
              pbind (parseTerm f depth ts' n) (λ right ts'' n',
                if maxRequirementNodes <? n' + 1 then
                  perr ErrRequirementShape ("more than " +:+ Itoa maxRequirementNodes +:+ " terms")
                else parseRest f depth (Binary op left right) ts'' (n' + 1))
          end
      | [] => Some (inl (left, (ts, n)))
      end
  end.

(** Every token costs at most three calls. *)
Definition parse_fuel (ts : list string) : nat := 3 * length ts + 3.

Definition parse_tokens (ts : list string) : result requirementExpr :=
  match parseExpr (parse_fuel ts) 0 ts 0 with
  | None => inr "fuel"
  | Some (inr e) => inr e
  | Some (inl (e, (rest, _))) =>
      match rest with
      | [] => inl e
      | t :: _ => inr (wrap ErrRequirementExpression ("unexpected " +:+ Quote t))
      end
  end.

Definition parseRequirementExpression (s : string) : result requirementExpr :=
  if String.eqb (TrimSpace s) "" then inr (wrap ErrRequirementExpression "empty expression")
  else let! ts := tokenizeRequirement s in parse_tokens ts.

Fixpoint eval (present : string → bool) (e : requirementExpr) : bool :=
  match e with
  | Ident r => present r
  | Binary AND l r => eval present l && eval present r
  | Binary OR l r => eval present l || eval present r
  end.

Fixpoint roles (e : requirementExpr) : list string :=
  match e with
  | Ident r => [r]
  | Binary _ l r => roles l ++ roles r
  end.

Example parse_sample :
  parseRequirementExpression "a AND (b OR c) && d" =
  inl (Binary AND (Binary AND (Ident "a") (Binary OR (Ident "b") (Ident "c"))) (Ident "d")).
Proof. vm_compute. reflexivity. Qed.
Example parse_left : parseRequirementExpression "a OR b AND c" =
  inl (Binary AND (Binary OR (Ident "a") (Ident "b")) (Ident "c")).
Proof. vm_compute. reflexivity. Qed.

(** ** The object *)

Record RequirementConstraint := mkRC { rc_role : string; rc_constraint : string }.
Record Requirement := mkReq {
  req_version : string;
  req_id : string;
  req_purpose : string;
  req_expression : string;
  req_constraints : list RequirementConstraint
}.

(** The constraint loop of [Validate]. *)
Fixpoint check_constraints (seen : list string) (cs : list RequirementConstraint) : check :=
  match cs with
  | [] => None
  | c :: cs' =>
      guard (String.eqb (rc_role c) "") (wrap ErrRequirementShape "constraint without a role") ;;?
      ValidateEvidenceConstraint (rc_constraint c) ;;?
      let key := rc_role c +:+ String (chr 0) (rc_constraint c) in
      guard (mem_key key seen)
        (wrap ErrRequirementShape ("duplicate constraint for role " +:+ Quote (rc_role c))) ;;?
      check_constraints (key :: seen) cs'
  end.

Definition Validate (r : Requirement) : check :=
  guard (negb (String.eqb (req_version r) RequirementVersion)) (wrap ErrRequirementVersion (Quote (req_version r))) ;;?
  guard (String.eqb (req_id r) "") (wrap ErrRequirementShape "requirement_id required") ;;?
  guard (maxRequirementExpressionBytes <? Z.of_nat (String.length (req_expression r)))
    (wrap ErrRequirementShape
       ("expression longer than " +:+ Itoa maxRequirementExpressionBytes +:+ " bytes")) ;;?
  match parseRequirementExpression (req_expression r) with inr e => Some e | inl _ => None end ;;?
  check_constraints [] (req_constraints r).

(** The JSON form of a requirement; empty optional members are omitted. *)
Definition req_json (r : Requirement) : any :=
  AMap ([("@version", AStr (req_version r)); ("requirement_id", AStr (req_id r))] ++
        (if String.eqb (req_purpose r) "" then [] else [("purpose", AStr (req_purpose r))]) ++
        [("expression", AStr (req_expression r))] ++
        match req_constraints r with
        | [] => []
        | cs => [("constraints",
                  AList ((λ c, AMap [("role", AStr (rc_role c)); ("constraint", AStr (rc_constraint c))]) <$> cs))]
        end).

(** A digest: the algorithm name and the bytes. *)
Record Digest := mkDigest { dg_alg : string; dg_value : list Z }.
Definition DigestAlgSHA256 : string := "sha-256".

Definition canon_error_result (e : canon_error) : error :=
  match e with ErrCanonicalOther => "json: unsupported value" | e => canon_error_text e end.

Definition DigestOf (v : any) : result Digest :=
  match CanonicalJSON v with
  | inl text => inl (mkDigest DigestAlgSHA256 (Sum256 text))
  | inr e => inr (canon_error_result e)
  end.

Definition req_Digest (r : Requirement) : result Digest :=
  match Validate r with
  | Some e => inr e
  | None => DigestOf (req_json r)
  end.

Definition Roles (r : Requirement) : result (list string) :=
  let! e := parseRequirementExpression (req_expression r) in inl (sorted_dedup (roles e)).

(** ** Evaluation *)

Record RequirementResult := mkRes {
  rr_id : string;
  rr_digest : Digest;
  rr_verdict : EvidenceVerdict;
  rr_expression : bool;
  rr_missing : list string;
  rr_constraints : list EvidenceEvaluation
}.

Definition present (facts : list EvidenceFact) (role : string) : bool :=
  existsb f_verified (EvidenceFactsOfRole facts role).

Fixpoint evaluate_all (facts : list EvidenceFact) (ctx : EvidenceContext) (cs : list RequirementConstraint) :
    result (list EvidenceEvaluation) :=
  match cs with
  | [] => inl []
  | c :: cs' =>
      let! e := EvaluateEvidenceConstraint (rc_constraint c) (EvidenceFactsOfRole facts (rc_role c)) ctx in
      let! es := evaluate_all facts ctx cs' in inl (e :: es)
  end.

Definition any_verdict (v : EvidenceVerdict) (es : list EvidenceEvaluation) : bool :=
  existsb (λ e, bool_decide (ev_verdict e = v)) es.

Definition EvaluateRequirement (req : Requirement) (facts : list EvidenceFact) (ctx : EvidenceContext) :
    result RequirementResult :=
  rguard (Validate req)
    (let! digest := req_Digest req in
     let! expr := parseRequirementExpression (req_expression req) in
     let holds := eval (present facts) expr in
     let missing := if holds then []
                    else match Roles req with
                         | inl rs => List.filter (λ r, negb (present facts r)) rs
                         | inr _ => []
                         end in
     let! es := evaluate_all facts ctx (req_constraints req) in
     let verdict := if any_verdict EvidenceViolated es || negb holds then EvidenceViolated
                    else if any_verdict EvidenceUnknown es then EvidenceUnknown
                    else EvidenceSatisfied in
     inl (mkRes (req_id req) digest verdict holds missing es)).

Definition Satisfied (r : RequirementResult) : bool := bool_decide (rr_verdict r = EvidenceSatisfied).

Definition SatisfactionSatisfied : string := "SATISFIED".
Definition SatisfactionUnsatisfied : string := "UNSATISFIED".
Definition SatisfactionReasonExpressionFalse : string := "requirement:expression_false".
Definition SatisfactionReasonUnsatisfied : string := "requirement:unsatisfied".

(** The exported binary report: verdict and reason. *)
Definition Satisfaction (r : RequirementResult) : string * string :=
  match rr_verdict r with
  | EvidenceSatisfied => (SatisfactionSatisfied, "")
  | _ =>
      if negb (rr_expression r) then (SatisfactionUnsatisfied, SatisfactionReasonExpressionFalse)
      else match List.find (λ e, bool_decide (ev_verdict e = EvidenceViolated) ||
                                 bool_decide (ev_verdict e = EvidenceUnknown)) (rr_constraints r) with
           | Some e => (SatisfactionUnsatisfied, ev_reason e)
           | None => (SatisfactionUnsatisfied, SatisfactionReasonUnsatisfied)
           end
  end.

(** ** The parser is total *)

Lemma pbind_Some r k x :
  pbind r k = Some (inl x) → ∃ y ts n, r = Some (inl (y, (ts, n))) ∧ k y ts n = Some (inl x).
Proof. destruct r as [[[y [ts n]]|e]|]; simpl; [eauto|done|done]. Qed.

(** A term consumes at least one token; the rest of an expression never grows. *)
Lemma parse_consumes f :
  (∀ d ts n e ts' n', parseTerm f d ts n = Some (inl (e, (ts', n'))) → (length ts' < length ts)%nat) ∧
  (∀ d ts n e ts' n', parseExpr f d ts n = Some (inl (e, (ts', n'))) → (length ts' < length ts)%nat) ∧
  (∀ d l ts n e ts' n', parseRest f d l ts n = Some (inl (e, (ts', n'))) → (length ts' <= length ts)%nat).
Proof.
  induction f as [|f (IT & IE & IR)]; [done|]. split_and!.
  - intros d ts n e ts' n'. cbn [parseTerm]. destruct ts as [|tok ts]; [done|].
    destruct (String.eqb tok "(").
    + intros (y & ts1 & n1 & H1%IE & H)%pbind_Some. destruct ts1 as [|t ts1]; [done|].
      destruct (String.eqb t ")"); simplify_eq. simpl in *. lia.
    + destruct (_ || _); intros; simplify_eq. simpl. lia.
  - intros d ts n e ts' n'. cbn [parseExpr]. destruct (_ <? _); [done|].
    intros (y & ts1 & n1 & H1%IT & H%IR)%pbind_Some. lia.
  - intros d l ts n e ts' n'. cbn [parseRest]. destruct ts as [|tok ts]; [intros; by simplify_eq|].
    destruct (requirementOperator tok); [|intros; by simplify_eq].
    intros (y & ts1 & n1 & H1%IT & H)%pbind_Some. destruct (_ <? _); [done|]. apply IR in H. simpl. lia.
Qed.

Lemma pbind_total r (k : requirementExpr → list string → Z → pres) :
  r ≠ None → (∀ y ts n, r = Some (inl (y, (ts, n))) → k y ts n ≠ None) → pbind r k ≠ None.
Proof. destruct r as [[[y [ts n]]|e]|]; simpl; auto. Qed.

Lemma parse_total f :
  (∀ d ts n, (3 * length ts + 1 <= f)%nat → parseTerm f d ts n ≠ None) ∧
  (∀ d ts n, (3 * length ts + 2 <= f)%nat → parseExpr f d ts n ≠ None) ∧
  (∀ d l ts n, (3 * length ts + 1 <= f)%nat → parseRest f d l ts n ≠ None).
Proof.
  induction f as [|f (IT & IE & IR)]; [split_and!; intros; lia|].
  pose proof (parse_consumes f) as (CT & CE & _). split_and!.
  - intros d ts n Hf. cbn [parseTerm]. destruct ts as [|tok ts]; [done|]. simpl in Hf.
    destruct (String.eqb tok "(").
    + apply pbind_total; [apply IE; lia|]. intros y ts1 n1 H. destruct ts1 as [|t ts1]; [done|].
      by destruct (String.eqb t ")").
    + by destruct (_ || _).
  - intros d ts n Hf. cbn [parseExpr]. destruct (_ <? _); [done|].
    apply pbind_total; [apply IT; lia|]. intros y ts1 n1 H%CT. apply IR. lia.
  - intros d l ts n Hf. cbn [parseRest]. destruct ts as [|tok ts]; [done|]. simpl in Hf.
    destruct (requirementOperator tok); [|done]. apply pbind_total; [apply IT; lia|]. intros y ts1 n1 H%CT.
    destruct (_ <? _); [done|]. apply IR. lia.
Qed.

Lemma pbind_mono (r r' : pres) (k k' : requirementExpr → list string → Z → pres) x :
  (∀ z, r = Some z → r' = Some z) → (∀ y ts n z, k y ts n = Some z → k' y ts n = Some z) →
  pbind r k = Some x → pbind r' k' = Some x.
Proof.
  intros Hr Hk. destruct r as [[[y [ts n]]|e]|]; simpl; [|intros; simplify_eq; by rewrite (Hr _ eq_refl)|done].
  intros H. rewrite (Hr _ eq_refl). simpl. auto.
Qed.

Lemma parse_mono f :
  (∀ d ts n x, parseTerm f d ts n = Some x → parseTerm (S f) d ts n = Some x) ∧
  (∀ d ts n x, parseExpr f d ts n = Some x → parseExpr (S f) d ts n = Some x) ∧
  (∀ d l ts n x, parseRest f d l ts n = Some x → parseRest (S f) d l ts n = Some x).
Proof.
  induction f as [|f (IT & IE & IR)]; [done|]. split_and!.
  - intros d ts n x. cbn [parseTerm]. destruct ts as [|tok ts]; [done|]. destruct (String.eqb tok "("); [|done].
    apply pbind_mono; auto.
  - intros d ts n x. cbn [parseExpr]. destruct (_ <? _); [done|]. apply pbind_mono; auto.
  - intros d l ts n x. cbn [parseRest]. destruct ts as [|tok ts]; [done|].
    destruct (requirementOperator tok); [|done]. apply pbind_mono; auto. intros y ts1 n1 z.
    destruct (_ <? _); [done|]. apply IR.
Qed.

Lemma parseExpr_mono_le f f' d ts n x :
  (f <= f')%nat → parseExpr f d ts n = Some x → parseExpr f' d ts n = Some x.
Proof.
  intros H. induction H as [|f' Hle IH]; [done|]. intros Hx. apply (proj1 (proj2 (parse_mono f'))). auto.
Qed.

(** ** Printing and parsing *)

(** The tokens of an expression, with a parenthesis around every compound right
    operand. *)
Definition op_token (op : bop) : string := match op with AND => "AND" | OR => "OR" end.
Fixpoint show (e : requirementExpr) : list string :=
  match e with
  | Ident r => [r]
  | Binary op l r =>
      show l ++ op_token op :: match r with Ident x => [x] | _ => "(" :: show r ++ [")"] end
  end.

Fixpoint paren_depth (e : requirementExpr) : Z :=
  match e with
  | Ident _ => 0
  | Binary _ l r => Z.max (paren_depth l) (match r with Ident _ => 0 | _ => 1 + paren_depth r end)
  end.
Fixpoint operators (e : requirementExpr) : Z :=
  match e with Ident _ => 0 | Binary _ l r => operators l + operators r + 1 end.

(** A role name that is not a keyword of the grammar. *)
Definition role_name (r : string) : bool :=
  negb (String.eqb r "(") && negb (String.eqb r ")") && negb (requirementOperatorToken r).

Definition eventually (p : nat → pres) (x : pres) : Prop := ∃ f0, ∀ f, (f0 <= f)%nat → p f = x.

Lemma eventually_step (p q : nat → pres) x :
  (∀ f, p (S f) = q f) → eventually q x → eventually p x.
Proof.
  intros H [f0 Hf]. exists (S f0). intros [|f] Hle; [lia|]. rewrite H. apply Hf. lia.
Qed.

Lemma eventually_pbind (p : nat → pres) (k : nat → requirementExpr → list string → Z → pres) e ts n x :
  eventually p (Some (inl (e, (ts, n)))) → eventually (λ f, k f e ts n) x →
  eventually (λ f, pbind (p f) (k f)) x.
Proof.
  intros [f0 Hp] [f1 Hk]. exists (f0 + f1)%nat. intros f Hle. rewrite Hp by lia. simpl. apply Hk. lia.
Qed.

Lemma eventually_const x : eventually (λ _, x) x.
Proof. by exists O. Qed.

Lemma role_name_term r d ts n :
  role_name r = true → eventually (λ f, parseTerm f d (r :: ts) n) (Some (inl (Ident r, (ts, n)))).
Proof.
  unfold role_name. rewrite !andb_true_iff, !negb_true_iff. intros [[H1 H2] H3].
  eapply eventually_step; [|apply eventually_const]. intros f. cbn [parseTerm]. by rewrite H1, H2, H3.
Qed.

Lemma op_token_operator op : requirementOperator (op_token op) = Some op.
Proof. by destruct op. Qed.

Lemma sizes_nonneg e : 0 <= operators e ∧ 0 <= paren_depth e.
Proof. induction e as [|? l [IHl IHl'] r [IHr IHr']]; simpl; [lia|]. destruct r; lia. Qed.

Lemma parse_show e : ∀ d n rest x,
  forallb role_name (roles e) = true → d + paren_depth e <= maxRequirementDepth → 0 <= d →
  n + operators e <= maxRequirementNodes → 0 <= n →
  eventually (λ f, parseRest f d e rest (n + operators e)) x →
  eventually (λ f, parseExpr f d (show e ++ rest) n) x.
Proof.
  assert (∀ d (k : nat → pres) x, d <= maxRequirementDepth → eventually k x →
    eventually (λ f, if maxRequirementDepth <? d
       then perr ErrRequirementShape ("nesting deeper than " +:+ Itoa maxRequirementDepth) else k f) x) as Hd.
  { intros d k x Hle H. assert ((maxRequirementDepth <? d) = false) as -> by (apply Z.ltb_ge; lia). done. }
  induction e as [r|op l IHl r IHr]; intros d n rest x Hr Hdep Hd0 Hn Hn0 Hx; simpl in *.
  - go_bool. eapply eventually_step; [intros f; reflexivity|]. apply Hd; [lia|].
    eapply (eventually_pbind _ (λ f left ts' n', parseRest f d left ts' n')); [by apply role_name_term|].
    by replace (n + 0) with n in Hx by lia.
  - rewrite forallb_app in Hr. apply andb_true_iff in Hr as [Hrl Hrr]. rewrite <- app_assoc.
    pose proof (sizes_nonneg l) as [? ?]. pose proof (sizes_nonneg r) as [? ?].
    apply IHl; [done|lia|lia|lia|lia|]. simpl ((op_token op :: _) ++ _).
    eapply eventually_step. { intros f. cbn [parseRest]. rewrite op_token_operator. reflexivity. }
    set (term := match r with Ident x0 => [x0] | Binary _ _ _ => "(" :: show r ++ [")"] end).
    assert (eventually (λ f, parseTerm f d (term ++ rest) (n + operators l))
              (Some (inl (r, (rest, n + operators l + operators r))))) as Hterm.
    { subst term. destruct r as [y|op' l' r'].
      - simpl in Hrr. go_bool. simpl ([y] ++ rest). replace (n + operators l + operators (Ident y)) with (n + operators l)
          by (simpl; lia). by apply role_name_term.
      - set (r := Binary op' l' r') in *. eapply eventually_step.
        { intros f. simpl (("(" :: _) ++ _). cbn [parseTerm]. change (String.eqb "(" "(") with true. cbv iota.
          rewrite <- app_assoc. reflexivity. }
        eapply (eventually_pbind _ (λ _ inner ts'' n', _)).
        + apply IHr; [done|lia|lia|lia|lia|]. simpl ([")"] ++ rest).
          exists 1%nat. intros [|f] Hle; [lia|]. reflexivity.
        + apply eventually_const. }
    eapply (eventually_pbind _ (λ f right ts'' n', _)); [exact Hterm|]. cbv beta.
    assert ((maxRequirementNodes <? n + operators l + operators r + 1) = false) as -> by (apply Z.ltb_ge; lia).
    by replace (n + (operators l + operators r + 1)) with (n + operators l + operators r + 1) in Hx by lia.
Qed.

(** Printing and parsing are inverse.  For every expression over role names
    within the grammar's bounds (nesting 8, 64 operators), parsing its printed
    tokens returns it, so the two operators associate to the left with equal
    strength and parentheses are the only grouping. *)
Lemma parse_show_roundtrip e :
  forallb role_name (roles e) = true → paren_depth e <= maxRequirementDepth →
  operators e <= maxRequirementNodes →
  parse_tokens (show e) = inl e.
Proof.
  intros Hr Hd Hn.
  destruct (parse_show e 0 0 [] (Some (inl (e, ([], operators e)))) Hr ltac:(lia) ltac:(lia) ltac:(lia) ltac:(lia)) as [f0 Hf].
  { exists 1%nat. intros [|f] Hle; [lia|]. reflexivity. }
  rewrite app_nil_r in Hf. unfold parse_tokens.
  assert (parseExpr (parse_fuel (show e)) 0 (show e) 0 ≠ None) as Ht.
  { apply (parse_total (parse_fuel (show e))). unfold parse_fuel. lia. }
  destruct (parseExpr (parse_fuel (show e)) 0 (show e) 0) as [x|] eqn:E; [|done].
  apply (parseExpr_mono_le _ (parse_fuel (show e) + f0)) in E; [|lia]. rewrite Hf in E by lia.
  by injection E as <-.
Qed.

(** The parser terminates: on every token list its fuel is enough, so it
    always answers with an expression or an error of the grammar. *)
Lemma parse_tokens_total ts : parseExpr (parse_fuel ts) 0 ts 0 ≠ None.
Proof. apply (parse_total (parse_fuel ts)). unfold parse_fuel. lia. Qed.

(** ** Evaluation *)

Lemma evaluate_all_inl facts ctx cs : ∀ es,
  evaluate_all facts ctx cs = inl es →
  es = (λ c, evaluate (rc_constraint c) (EvidenceFactsOfRole facts (rc_role c)) ctx) <$> cs.
Proof.
  induction cs as [|c cs IH]; intros es; cbn [evaluate_all]; [by intros [= <-]|].
  rewrite rbind_inl. intros (e & He & H). apply rbind_inl in H as (es' & Hes & [= <-]).
  unfold EvaluateEvidenceConstraint in He. destruct (ValidateEvidenceConstraint _); [done|].
  injection He as <-. by rewrite (IH es' Hes).
Qed.

Lemma check_constraints_valid seen cs :
  check_constraints seen cs = None → Forall (λ c, ValidateEvidenceConstraint (rc_constraint c) = None) cs.
Proof.
  revert seen. induction cs as [|c cs IH]; intros seen; [constructor|]. cbn [check_constraints].
  rewrite !check_seq_None. intros (_ & Hv & _ & H). constructor; [done|]. by eapply IH.
Qed.

Lemma evaluate_all_total facts ctx cs :
  Forall (λ c, ValidateEvidenceConstraint (rc_constraint c) = None) cs → ∃ es, evaluate_all facts ctx cs = inl es.
Proof.
  induction 1 as [|c cs Hv _ [es IH]]; [by exists []|]. cbn [evaluate_all].
  unfold EvaluateEvidenceConstraint. rewrite Hv. simpl. rewrite IH. simpl. eauto.
Qed.

Lemma any_verdict_true v es : any_verdict v es = true ↔ ∃ e, e ∈ es ∧ ev_verdict e = v.
Proof.
  unfold any_verdict. rewrite existsb_exists. setoid_rewrite <- list_elem_of_In.
  by setoid_rewrite bool_decide_eq_true.
Qed.

Lemma any_verdict_false v es : any_verdict v es = false ↔ ∀ e, e ∈ es → ev_verdict e ≠ v.
Proof. rewrite <- not_true_iff_false, any_verdict_true. naive_solver. Qed.

(** The pieces of a successful evaluation. *)
Lemma EvaluateRequirement_inl req facts ctx r :
  EvaluateRequirement req facts ctx = inl r →
  ∃ expr, Validate req = None ∧ parseRequirementExpression (req_expression req) = inl expr ∧
    rr_expression r = eval (present facts) expr ∧
    rr_constraints r =
      (λ c, evaluate (rc_constraint c) (EvidenceFactsOfRole facts (rc_role c)) ctx) <$> req_constraints req ∧
    rr_verdict r = (if any_verdict EvidenceViolated (rr_constraints r) || negb (rr_expression r) then EvidenceViolated
                    else if any_verdict EvidenceUnknown (rr_constraints r) then EvidenceUnknown
                    else EvidenceSatisfied).
Proof.
  unfold EvaluateRequirement. rewrite rguard_inl. intros [Hv H]. apply rbind_inl in H as (dg & _ & H).
  apply rbind_inl in H as (expr & He & H). apply rbind_inl in H as (es & Hes & [= <-]).
  exists expr. apply evaluate_all_inl in Hes as ->. done.
Qed.

Lemma EvaluateRequirement_satisfied req facts ctx r :
  EvaluateRequirement req facts ctx = inl r → rr_verdict r = EvidenceSatisfied →
  (∃ expr, parseRequirementExpression (req_expression req) = inl expr ∧ eval (present facts) expr = true) ∧
  ∀ c, c ∈ req_constraints req →
    ev_verdict (evaluate (rc_constraint c) (EvidenceFactsOfRole facts (rc_role c)) ctx) = EvidenceSatisfied.
Proof.
  intros (expr & _ & Hp & He & Hc & Hv)%EvaluateRequirement_inl Hs. rewrite Hs in Hv.
  destruct (any_verdict EvidenceViolated _) eqn:E1; [done|]. destruct (rr_expression r); [|done]. cbn [orb negb] in Hv.
  destruct (any_verdict EvidenceUnknown _) eqn:E2; [done|]. split; [by exists expr|]. intros c Hin.
  rewrite any_verdict_false in E1, E2. set (e := evaluate _ _ _).
  assert (e ∈ rr_constraints r) as Hin' by (rewrite Hc; apply list_elem_of_fmap; eauto).
  specialize (E1 e Hin'). specialize (E2 e Hin'). by destruct (ev_verdict e).
Qed.

(** The requirement is met only by everything it asks.  The verdict is
    satisfied exactly when the expression holds of the verified roles and every
    constraint is satisfied; it is violated exactly when the expression fails or
    some constraint is violated; an undecided constraint never reads as met. *)
Lemma EvaluateRequirement_verdict req facts ctx r :
  EvaluateRequirement req facts ctx = inl r →
  (rr_verdict r = EvidenceSatisfied ↔
     rr_expression r = true ∧
     ∀ c, c ∈ req_constraints req →
       ev_verdict (evaluate (rc_constraint c) (EvidenceFactsOfRole facts (rc_role c)) ctx) = EvidenceSatisfied) ∧
  (rr_verdict r = EvidenceViolated ↔
     rr_expression r = false ∨
     ∃ c, c ∈ req_constraints req ∧
       ev_verdict (evaluate (rc_constraint c) (EvidenceFactsOfRole facts (rc_role c)) ctx) = EvidenceViolated) ∧
  ((Satisfaction r).1 = SatisfactionSatisfied ↔ rr_verdict r = EvidenceSatisfied).
Proof.
  intros (expr & _ & _ & _ & Hc & Hv)%EvaluateRequirement_inl. split_and!.
  - rewrite Hv. destruct (any_verdict EvidenceViolated _) eqn:E1; cbn [orb].
    { split; [done|]. intros [_ H]. apply any_verdict_true in E1 as (e & Hin & He). rewrite Hc in Hin.
      apply list_elem_of_fmap in Hin as (c & -> & Hin). rewrite H in He; done. }
    destruct (rr_expression r); cbn [negb]; [|naive_solver].
    destruct (any_verdict EvidenceUnknown _) eqn:E2.
    { split; [done|]. intros [_ H]. apply any_verdict_true in E2 as (e & Hin & He). rewrite Hc in Hin.
      apply list_elem_of_fmap in Hin as (c & -> & Hin). rewrite H in He; done. }
    split; [|done]. intros _. split; [done|]. intros c Hin. rewrite any_verdict_false in E1, E2.
    set (e := evaluate _ _ _). assert (e ∈ rr_constraints r) as He.
    { rewrite Hc. apply list_elem_of_fmap. eauto. }
    specialize (E1 e He). specialize (E2 e He). by destruct (ev_verdict e).
  - rewrite Hv. destruct (any_verdict EvidenceViolated _) eqn:E1; cbn [orb].
    { split; [|done]. intros _. right. apply any_verdict_true in E1 as (e & Hin & He). rewrite Hc in Hin.
      apply list_elem_of_fmap in Hin as (c & -> & Hin). eauto. }
    assert (¬ ∃ c, c ∈ req_constraints req ∧
       ev_verdict (evaluate (rc_constraint c) (EvidenceFactsOfRole facts (rc_role c)) ctx) = EvidenceViolated) as Hn.
    { intros (c & Hin & He). rewrite any_verdict_false in E1. apply (E1 _) in He; [done|].
      rewrite Hc. apply list_elem_of_fmap. eauto. }
    destruct (rr_expression r); cbn [negb]; [|naive_solver].
    destruct (any_verdict EvidenceUnknown _); naive_solver.
  - unfold Satisfaction. destruct (rr_verdict r); [done| |]; (destruct (negb (rr_expression r)); [done|]);
      by destruct (List.find _ _).
Qed.

Lemma eval_mono (p q : string → bool) e :
  (∀ r, p r = true → q r = true) → eval p e = true → eval q e = true.
Proof.
  intros H. induction e as [r|[] l IHl r IHr]; simpl; [auto| |].
  - rewrite !andb_true_iff. naive_solver.
  - rewrite !orb_true_iff. naive_solver.
Qed.

Lemma present_mono facts facts' role : facts ⊆ facts' → present facts role = true → present facts' role = true.
Proof.
  intros Hs. unfold present, EvidenceFactsOfRole. rewrite !existsb_exists. setoid_rewrite filter_In.
  setoid_rewrite <- list_elem_of_In. intros (f & [Hin Ht] & Hv). exists f. auto.
Qed.

(** The expression is monotone in the evidence: it has no negation, so
    presenting more verified facts never makes a filled expression unfilled. *)
Lemma expression_monotone e facts facts' :
  facts ⊆ facts' → eval (present facts) e = true → eval (present facts') e = true.
Proof. intros Hs. apply eval_mono. intros r. by apply present_mono. Qed.

(** A valid requirement whose object has a canonical form is always decided:
    the evaluation returns a result, never an error. *)
Lemma EvaluateRequirement_total req facts ctx :
  Validate req = None → canonical_ok (req_json req) → ∃ r, EvaluateRequirement req facts ctx = inl r.
Proof.
  intros Hv Hc. unfold EvaluateRequirement, req_Digest, DigestOf. rewrite Hv. cbn [rguard].
  rewrite (proj2 (CanonicalJSON_inl _ _) (conj Hc eq_refl)). cbn [rbind].
  unfold Validate in Hv. rewrite !check_seq_None in Hv. destruct Hv as (_ & _ & _ & He & Hcs).
  destruct (parseRequirementExpression (req_expression req)) as [expr|]; [|done]. cbn [rbind].
  destruct (evaluate_all_total facts ctx (req_constraints req)) as [es ->]; [by eapply check_constraints_valid|].
  cbn [rbind]. eauto.
Qed.

(** ** Concrete instances *)

Definition w_req : Requirement :=
  mkReq RequirementVersion "wire-release-evidence@7" "" "human-authorization AND (policy-permit OR exception)"
    [mkRC "human-authorization" "varwof/evidence-v1:quorum:distinct:2";
     mkRC "human-authorization" "varwof/evidence-v1:exclusion:initiator"].
Definition w_facts : list EvidenceFact :=
  [w_fact "bob" 10 true; w_fact "carol" 20 true; mkFact "policy-permit" "pdp" w_now true].

Lemma EvaluateRequirement_total_witness : ∃ r, EvaluateRequirement w_req [] w_ctx = inl r.
Proof. apply EvaluateRequirement_total; [vm_compute; reflexivity|split; vm_compute; reflexivity]. Defined.
