(* ===== verification/Sources.v ===== *)
(** * Authorization sources

    semantics/sources.go: the chain of artifacts a decision rests on, the check
    that every claimed relation is backed by the naming artifact and that the
    relations have no cycle, the identity of a chain and the path an artifact
    stands on. *)

From Stdlib Require Import Relations.
From S2P Require Import Prelude GoStrings GoFloat Json Ids Values Bounds Sha256 Requirement.

Record SourceRef := mkSource {
  sr_kind : string;
  sr_id : string;
  sr_issuer : string;
  sr_digest : Digest;
  sr_references : list Digest
}.
Record SourceLink := mkLink { ln_from : Digest; ln_to : Digest }.
Record SourceChain := mkChain { ch_sources : list SourceRef; ch_links : list SourceLink }.

Definition ErrSourceChainEmpty : error := "source_chain_empty".
Definition ErrSourceShape : error := "source_shape".
Definition ErrSourceDuplicate : error := "source_duplicate".
Definition ErrSourceDanglingLink : error := "source_dangling_link".
Definition ErrSourceEdgeUnbacked : error := "source_edge_unbacked".
Definition ErrSourceChainCycle : error := "source_chain_cycle".
Definition ErrSourceChainBranch : error := "source_chain_branch".

(** [Digest.Equal] (record.go). *)
Definition digest_Equal (d o : Digest) : bool :=
  String.eqb (dg_alg d) (dg_alg o) && bool_decide (dg_value d = dg_value o).

Definition digestUsable (d : Digest) : bool :=
  negb (String.eqb (dg_alg d) "") && (0 <? length (dg_value d))%nat.
Definition digestKey (d : Digest) : string := dg_alg d +:+ ":" +:+ hex_text (dg_value d).
Definition referencesDigest (refs : list Digest) (want : Digest) : bool :=
  existsb (λ r, digest_Equal r want) refs.

(** The first loop of [Validate]: shape and distinct keys; [byDigest] so far. *)
Fixpoint index_sources (byDigest : gomap SourceRef) (l : list SourceRef) : result (gomap SourceRef) :=
  match l with
  | [] => inl byDigest
  | s :: l' =>
      if String.eqb (sr_kind s) "" || String.eqb (sr_id s) "" then
        inr (wrap ErrSourceShape ("kind/id required (got " +:+ Quote (sr_kind s) +:+ "/" +:+ Quote (sr_id s) +:+ ")"))
      else if negb (digestUsable (sr_digest s)) then
        inr (wrap ErrSourceShape ("source " +:+ sr_kind s +:+ "/" +:+ sr_id s +:+ " has no usable digest"))
      else
        let key := digestKey (sr_digest s) in
        if mhas key byDigest then inr (wrap ErrSourceDuplicate key)
        else index_sources (mset key s byDigest) l'
  end.

(** [edges[k]]: nil where there is no entry. *)
Definition succs {A} (edges : gomap (list A)) (k : string) : list A := default [] (mget k edges).
Definition add_edge {A} (k : string) (v : A) (edges : gomap (list A)) : gomap (list A) :=
  mset k (succs edges k ++ [v]) edges.

(** The second loop: every link is between known sources and backed. *)
Fixpoint index_links (byDigest : gomap SourceRef) (edges : gomap (list string)) (l : list SourceLink) :
    result (gomap (list string)) :=
  match l with
  | [] => inl edges
  | k :: l' =>
      match mget (digestKey (ln_from k)) byDigest, mget (digestKey (ln_to k)) byDigest with
      | Some from, Some to =>
          if negb (referencesDigest (sr_references from) (sr_digest to)) then
            inr (wrap ErrSourceEdgeUnbacked (sr_id from +:+ " does not name " +:+ sr_id to))
          else index_links byDigest (add_edge (digestKey (sr_digest from)) (digestKey (sr_digest to)) edges) l'
      | _, _ => inr (wrap ErrSourceDanglingLink (digestKey (ln_from k) +:+ " -> " +:+ digestKey (ln_to k)))
      end
  end.

(** ** The depth-first search *)

(** The colours of the search; a missing entry is white. *)
Inductive colour := white | grey | black.
#[global] Instance colour_eq_dec : EqDecision colour.
Proof. solve_decision. Defined.
Definition colour_of (c : gomap colour) (k : string) : colour := default white (mget k c).

(** Outcome of a search: the fuel ran out, a cycle through a node, or the new
    colours. *)
Inductive search := no_fuel | cycle_at (node : string) | done_with (c : gomap colour).

Section visit_loop.
Context (visit : string → gomap colour → search).
Fixpoint visit_loop (next : list string) (c : gomap colour) : search :=
match next with
| [] => done_with c
| n :: next' =>
    match colour_of c n with
    | grey => cycle_at n
    | white => match visit n c with done_with c' => visit_loop next' c' | out => out end
    | black => visit_loop next' c
    end
end.
End visit_loop.

Fixpoint visit (edges : gomap (list string)) (fuel : nat) (node : string) (c : gomap colour) : search :=
  match fuel with
  | O => no_fuel
  | S fuel' =>
      match visit_loop (visit edges fuel') (succs edges node) (mset node grey c) with
      | done_with c' => done_with (mset node black c')
      | out => out
      end
  end.

(** The loop over the nodes with edges, in the iteration order of the map. *)
Fixpoint visit_roots (edges : gomap (list string)) (fuel : nat) (nodes : list string) (c : gomap colour) : search :=
  match nodes with
  | [] => done_with c
  | n :: nodes' =>
      match colour_of c n with
      | white => match visit edges fuel n c with
                 | done_with c' => visit_roots edges fuel nodes' c'
                 | out => out
                 end
      | _ => visit_roots edges fuel nodes' c
      end
  end.

(** The recursion visits each source at most once, so one unit of fuel per
    source and one more are enough. *)
Definition detectCycle (byDigest : gomap SourceRef) (edges : gomap (list string)) : option check :=
  match visit_roots edges (S (length byDigest)) (mkeys edges) [] with
  | no_fuel => None
  | cycle_at n => Some (Some (wrap ErrSourceChainCycle (match mget n byDigest with Some s => sr_id s | None => "" end)))
  | done_with _ => Some None
  end.

(** [SourceChain.Validate]; [None] would be a search that does not end. *)
Definition chain_Validate (c : SourceChain) : option check :=
  match ch_sources c with
  | [] => Some (Some ErrSourceChainEmpty)
  | _ =>
      match index_sources [] (ch_sources c) with
      | inr e => Some (Some e)
      | inl byDigest =>
          match index_links byDigest [] (ch_links c) with
          | inr e => Some (Some e)
          | inl edges => detectCycle byDigest edges
          end
      end
  end.

(** ** The path an artifact stands on *)

Fixpoint stand_loop (named : gomap (list SourceRef)) (fuel : nat) (seen : list string) (current : SourceRef) :
    option (result (list SourceRef)) :=
  match fuel with
  | O => None
  | S fuel' =>
      let key := digestKey (sr_digest current) in
      if mem_key key seen then Some (inr (wrap ErrSourceChainCycle (sr_id current)))
      else
        match succs named key with
        | [] => Some (inl [current])
        | [next] =>
            r ← stand_loop named fuel' (key :: seen) next;
            Some (let! path := r in inl (current :: path))
        | next => Some (inr (wrap ErrSourceChainBranch (sr_id current +:+ " names "
                              +:+ Itoa (Z.of_nat (length next)) +:+ " sources")))
        end
  end.

(** [byDigest[k]] of a key that is not there is the zero value. *)
Definition zero_source : SourceRef := mkSource "" "" "" (mkDigest "" []) [].
Definition by_digest (l : list SourceRef) : gomap SourceRef :=
  fold_left (λ m s, mset (digestKey (sr_digest s)) s m) l [].
Definition named_by (byDigest : gomap SourceRef) (links : list SourceLink) : gomap (list SourceRef) :=
  fold_left (λ m l, add_edge (digestKey (ln_from l)) (default zero_source (mget (digestKey (ln_to l)) byDigest)) m)
    links [].

Definition StandingOn (c : SourceChain) (from : Digest) : option (result (list SourceRef)) :=
  match chain_Validate c with
  | None => None
  | Some (Some e) => Some (inr e)
  | Some None =>
      let byDigest := by_digest (ch_sources c) in
      match mget (digestKey from) byDigest with
      | None => Some (inr (wrap ErrSourceDanglingLink (digestKey from)))
      | Some current => stand_loop (named_by byDigest (ch_links c)) (S (length (ch_sources c))) [] current
      end
  end.

(** ** The identity of a chain *)

Record nodeID := mkNode { nd_kind : string; nd_id : string; nd_alg : string; nd_value : string }.
Definition node_of (s : SourceRef) : nodeID :=
  mkNode (sr_kind s) (sr_id s) (dg_alg (sr_digest s)) (hex_text (dg_value (sr_digest s))).

(** The order [sort.Slice] is given: kind, then id, then value.  Where two nodes
    tie, the sort here keeps their order, as Go's does on short slices. *)
Definition lex_le (a b : string) (rest : Prop) : Prop := a ≠ b ∧ String.le a b ∨ a = b ∧ rest.
Definition node_le (a b : nodeID) : Prop :=
  lex_le (nd_kind a) (nd_kind b) (lex_le (nd_id a) (nd_id b) (String.le (nd_value a) (nd_value b))).
#[global] Instance node_le_dec : RelDecision node_le.
Proof. intros a b. unfold node_le, lex_le. apply _. Defined.

Definition node_json (n : nodeID) : any :=
  AMap [("kind", AStr (nd_kind n)); ("id", AStr (nd_id n)); ("alg", AStr (nd_alg n)); ("value", AStr (nd_value n))].
Definition link_text (l : SourceLink) : string := digestKey (ln_from l) +:+ "->" +:+ digestKey (ln_to l).
Definition chain_json (c : SourceChain) : any :=
  AMap ([("sources", AList (node_json <$> merge_sort node_le (node_of <$> ch_sources c)))] ++
        match sort_Strings (link_text <$> ch_links c) with
        | [] => []
        | links => [("links", AList (AStr <$> links))]
        end).

(** [SourceChain.Digest]. *)
Definition chain_Digest (c : SourceChain) : option (result Digest) :=
  match chain_Validate c with
  | None => None
  | Some (Some e) => Some (inr e)
  | Some None => Some (DigestOf (chain_json c))
  end.

(** ** The search finds exactly the cycles *)

Lemma colour_of_mset k k' v c : colour_of (mset k v c) k' = if String.eqb k' k then v else colour_of c k'.
Proof. unfold colour_of. rewrite mget_mset. by destruct (String.eqb k' k). Qed.

Section search.
Context (edges : gomap (list string)).

Definition leads (x y : string) : Prop := y ∈ succs edges x.
(** Every path from [x] ends. *)
Definition ends (x : string) : Prop := Acc (λ y x, leads x y) x.

(** Black nodes only lead to paths that end. *)
Definition settled (c : gomap colour) : Prop := ∀ x, colour_of c x = black → ends x.
(** The grey nodes are the path to the current node. *)
Definition on_path (c : gomap colour) (n : string) : Prop :=
∀ g, colour_of c g = grey → clos_refl_trans _ leads g n.
(** What a completed search changes: white nodes to black ones. *)
Record finished (c c' : gomap colour) : Prop := {
fi_settled : settled c';
fi_black : ∀ x, colour_of c x = black → colour_of c' x = black;
fi_grey : ∀ x, colour_of c' x = grey ↔ colour_of c x = grey
}.

Lemma finished_refl c : settled c → finished c c.
Proof. by split. Qed.

Lemma finished_trans c1 c2 c3 : finished c1 c2 → finished c2 c3 → finished c1 c3.
Proof. intros [A1 B1 C1] [A2 B2 C2]. split; [done|auto|]. intros x. by rewrite C2, C1. Qed.

Definition search_ok (c : gomap colour) (reached : list string) (out : search) : Prop :=
match out with
| no_fuel => True
| cycle_at n => clos_trans _ leads n n
| done_with c' => finished c c' ∧ ∀ n, n ∈ reached → colour_of c' n = black
end.

Lemma visit_loop_ok vis node next : ∀ c,
(∀ n c, colour_of c n = white → settled c → on_path c n → search_ok c [n] (vis n c)) →
(∀ n, n ∈ next → leads node n) → settled c → on_path c node → search_ok c next (visit_loop vis next c).
Proof.
induction next as [|n next IH]; intros c Hv Hn Hs Hp; cbn [visit_loop].
{ split; [by apply finished_refl|set_solver]. }
assert (leads node n) as Hl by (apply Hn; set_solver).
assert (∀ c1, finished c c1 → colour_of c1 n = black → search_ok c (n :: next) (visit_loop vis next c1)) as Hrest.
{ intros c1 Hf Hb. assert (on_path c1 node) as Hp1 by (intros g Hg; by apply Hp, (fi_grey _ _ Hf)).
  specialize (IH c1 Hv (λ x Hx, Hn x ltac:(set_solver)) (fi_settled _ _ Hf) Hp1).
  destruct (visit_loop vis next c1) as [| |c2]; [done..|]. destruct IH as [Hf2 Hr].
  split; [by eapply finished_trans|]. intros x [->|Hx]%elem_of_cons; [by apply Hf2|auto]. }
destruct (colour_of c n) eqn:Ec.
- assert (on_path c n) as Hpn.
  { intros g Hg. eapply rt_trans; [by apply Hp|by apply rt_step]. }
  specialize (Hv n c Ec Hs Hpn). destruct (vis n c) as [| |c1]; [done..|].
  destruct Hv as [Hf Hb]. apply Hrest; [done|]. apply Hb. set_solver.
- apply clos_rt_t with node; [by apply Hp|by apply t_step].
- apply Hrest; [by apply finished_refl|done].
Qed.

Lemma visit_ok fuel : ∀ node c,
colour_of c node = white → settled c → on_path c node → search_ok c [node] (visit edges fuel node c).
Proof.
induction fuel as [|fuel IH]; intros node c Hw Hs Hp; [done|]. cbn [visit].
set (c1 := mset node grey c).
assert (∀ x, colour_of c1 x = if String.eqb x node then grey else colour_of c x) as E1 by (intros; apply colour_of_mset).
assert (settled c1) as Hs1.
{ intros x. rewrite E1. destruct (String.eqb x node); [done|apply Hs]. }
assert (on_path c1 node) as Hp1.
{ intros x. rewrite E1. destruct (String.eqb_spec x node) as [->|]; [intros _; apply rt_refl|apply Hp]. }
pose proof (visit_loop_ok (visit edges fuel) node (succs edges node) c1 IH (λ n H, H) Hs1 Hp1) as H.
destruct (visit_loop _ _ c1) as [|n|c2]; [done..|]. destruct H as [[F1 F2 F3] Hr].
assert (∀ x, colour_of (mset node black c2) x = if String.eqb x node then black else colour_of c2 x) as E2
  by (intros; apply colour_of_mset).
split; [split|].
- intros x. rewrite E2. destruct (String.eqb_spec x node) as [->|]; [|apply F1].
  intros _. constructor. intros y Hy. by apply F1, Hr.
- intros x Hx. rewrite E2. destruct (String.eqb_spec x node) as [->|Hne]; [done|]. apply F2. rewrite E1.
  by rewrite (proj2 (String.eqb_neq x node) Hne).
- intros x. rewrite E2. destruct (String.eqb_spec x node) as [->|Hne]; [by rewrite Hw|].
  rewrite F3, E1. by rewrite (proj2 (String.eqb_neq x node) Hne).
- intros x ->%list_elem_of_singleton. by rewrite E2, String.eqb_refl.
Qed.

Lemma visit_roots_ok fuel nodes : ∀ c,
settled c → (∀ x, colour_of c x ≠ grey) → search_ok c nodes (visit_roots edges fuel nodes c).
Proof.
induction nodes as [|n nodes IH]; intros c Hs Hg; cbn [visit_roots].
{ split; [by apply finished_refl|set_solver]. }
assert (∀ c1, finished c c1 → colour_of c1 n = black → search_ok c (n :: nodes) (visit_roots edges fuel nodes c1)) as Hrest.
{ intros c1 Hf Hb. assert (∀ x, colour_of c1 x ≠ grey) as Hg1 by (intros x Hx; by apply (Hg x), (fi_grey _ _ Hf)).
  specialize (IH c1 (fi_settled _ _ Hf) Hg1). destruct (visit_roots edges fuel nodes c1) as [| |c2]; [done..|].
  destruct IH as [Hf2 Hr]. split; [by eapply finished_trans|]. intros x [->|Hx]%elem_of_cons; [by apply Hf2|auto]. }
destruct (colour_of c n) eqn:Ec; [|by destruct (Hg n)|apply Hrest; [by apply finished_refl|done]].
assert (on_path c n) as Hp by (intros g Hx; by destruct (Hg g)).
pose proof (visit_ok fuel n c Ec Hs Hp) as H. destruct (visit edges fuel n c) as [| |c1]; [done..|].
destruct H as [Hf Hb]. apply Hrest; [done|]. apply Hb. set_solver.
Qed.

(** ** The fuel is enough *)

Context (universe : list string) (HU : ∀ x y, leads x y → y ∈ universe).

Definition whites (c : gomap colour) : nat :=
length (filter (λ x, colour_of c x = white) universe).
Definition darker (c c' : gomap colour) : Prop := ∀ x, colour_of c' x = white → colour_of c x = white.

Lemma whites_darker c c' : darker c c' → (whites c' <= whites c)%nat.
Proof.
intros H. unfold whites. clear HU. induction universe as [|x l IH]; [done|]. rewrite !filter_cons.
repeat case_decide; simpl; try lia. by match goal with Hn : _ ≠ white |- _ => destruct Hn; apply H end.
Qed.

Lemma whites_grey c n : n ∈ universe → colour_of c n = white → (S (whites (mset n grey c)) <= whites c)%nat.
Proof.
unfold whites. clear HU. induction universe as [|x l IH]; [set_solver|]. intros Hin Hw. rewrite !filter_cons.
assert (length (filter (λ x, colour_of (mset n grey c) x = white) l) <= length (filter (λ x, colour_of c x = white) l))%nat as Hle.
{ clear -l. induction l as [|y l IH]; [done|]. rewrite !filter_cons. rewrite colour_of_mset.
  destruct (String.eqb_spec y n); repeat case_decide; simpl; try done; lia. }
rewrite colour_of_mset. destruct (String.eqb_spec x n) as [->|Hne].
- repeat case_decide; try done. simpl. lia.
- assert (n ∈ l) as Hl by set_solver. specialize (IH Hl Hw). repeat case_decide; simpl; try done; lia.
Qed.

Definition ended (c : gomap colour) (out : search) : Prop :=
match out with no_fuel => False | cycle_at _ => True | done_with c' => darker c c' end.

Lemma visit_loop_ended vis fuel next : ∀ c,
(∀ n c, n ∈ universe → colour_of c n = white → (whites c <= fuel)%nat → ended c (vis n c)) →
(∀ n, n ∈ next → n ∈ universe) → (whites c <= fuel)%nat → ended c (visit_loop vis next c).
Proof.
induction next as [|n next IH]; intros c Hv Hn Hw; cbn [visit_loop]; [by intros x|].
assert (∀ c1, darker c c1 → ended c (visit_loop vis next c1)) as Hrest.
{ intros c1 Hd. pose proof (whites_darker _ _ Hd).
  specialize (IH c1 Hv (λ x Hx, Hn x ltac:(set_solver)) ltac:(lia)).
  destruct (visit_loop vis next c1); [done..|]. intros x Hx. by apply Hd, IH. }
destruct (colour_of c n) eqn:Ec; [|done|apply Hrest; by intros x].
specialize (Hv n c (Hn n ltac:(set_solver)) Ec Hw). destruct (vis n c); [done..|by apply Hrest].
Qed.

Lemma visit_ended fuel : ∀ node c,
node ∈ universe → colour_of c node = white → (whites c <= fuel)%nat → ended c (visit edges fuel node c).
Proof.
induction fuel as [|fuel IH]; intros node c Hin Hw Hf; pose proof (whites_grey c node Hin Hw) as Hg; [lia|].
cbn [visit]. pose proof (visit_loop_ended (visit edges fuel) fuel (succs edges node) (mset node grey c) IH
  (HU node) ltac:(lia)) as H.
destruct (visit_loop _ _ _) as [| |c2]; [done..|]. intros x. rewrite colour_of_mset.
destruct (String.eqb_spec x node) as [->|Hne]; [done|]. intros Hx. apply H in Hx. rewrite colour_of_mset in Hx.
by rewrite (proj2 (String.eqb_neq x node) Hne) in Hx.
Qed.

Lemma visit_roots_ended fuel nodes : ∀ c,
(∀ n, n ∈ nodes → n ∈ universe) → (whites c <= fuel)%nat → ended c (visit_roots edges fuel nodes c).
Proof.
induction nodes as [|n nodes IH]; intros c Hn Hw; cbn [visit_roots]; [by intros x|].
assert (∀ c1, darker c c1 → ended c (visit_roots edges fuel nodes c1)) as Hrest.
{ intros c1 Hd. pose proof (whites_darker _ _ Hd).
  specialize (IH c1 (λ x Hx, Hn x ltac:(set_solver)) ltac:(lia)).
  destruct (visit_roots edges fuel nodes c1); [done..|]. intros x Hx. by apply Hd, IH. }
destruct (colour_of c n) eqn:Ec; [|apply Hrest; by intros x..].
pose proof (visit_ended fuel n c (Hn n ltac:(set_solver)) Ec Hw) as H. destruct (visit edges fuel n c); [done..|by apply Hrest].
Qed.
End search.

(** ** The indices *)

Definition source_key (s : SourceRef) : string := digestKey (sr_digest s).
Definition source_ok (s : SourceRef) : Prop :=
  sr_kind s ≠ "" ∧ sr_id s ≠ "" ∧ digestUsable (sr_digest s) = true.

Lemma index_sources_inl l : ∀ m m',
  index_sources m l = inl m' ↔
  Forall source_ok l ∧ NoDup (source_key <$> l) ∧ (∀ k, k ∈ source_key <$> l → k ∉ mkeys m) ∧
  m' = fold_left (λ m s, mset (source_key s) s m) l m.
Proof.
  induction l as [|s l IH]; intros m m'; cbn [index_sources].
  { split; [intros [= ->]|by intros (_ & _ & _ & ->)]. split_and!; [constructor|constructor|set_solver|done]. }
  rewrite fmap_cons, list.NoDup_cons, list.Forall_cons. unfold source_ok at 1. cbn [fold_left].
  destruct (String.eqb_spec (sr_kind s) ""), (String.eqb_spec (sr_id s) ""); cbn [orb]; try naive_solver.
  destruct (digestUsable (sr_digest s)); cbn [negb]; [|naive_solver]. fold (source_key s).
  destruct (mhas (source_key s) m) eqn:Em.
  { apply mhas_true in Em. split; [done|]. intros (_ & _ & H & _). exfalso. apply (H (source_key s)); set_solver. }
  apply mhas_false in Em. rewrite IH.
  assert (∀ k, k ∈ mkeys (mset (source_key s) s m) ↔ k = source_key s ∨ k ∈ mkeys m) as Hk.
  { intros k. rewrite <- !mhas_true. unfold mhas. rewrite mget_mset. destruct (String.eqb_spec k (source_key s)); naive_solver. }
  setoid_rewrite Hk. set_solver.
Qed.

Lemma by_digest_fold l k : ∀ m, NoDup (source_key <$> l) →
  mget k (fold_left (λ m s, mset (source_key s) s m) l m) =
  match List.find (λ s, String.eqb k (source_key s)) l with Some s => Some s | None => mget k m end.
Proof.
  induction l as [|s l IH]; intros m; [done|]. rewrite fmap_cons, list.NoDup_cons. intros [Hn Hd]. cbn [fold_left List.find].
  rewrite IH by done. rewrite mget_mset. destruct (String.eqb_spec k (source_key s)) as [->|]; [|done].
  destruct (List.find _ l) as [s'|] eqn:E; [|done]. apply find_some in E as [Hin He%String.eqb_eq].
  destruct Hn. rewrite He. apply list_elem_of_fmap. exists s'. by rewrite list_elem_of_In.
Qed.

Lemma by_digest_get l k s : NoDup (source_key <$> l) →
  mget k (by_digest l) = Some s ↔ s ∈ l ∧ source_key s = k.
Proof.
  intros Hd. change (by_digest l) with (fold_left (λ m s, mset (source_key s) s m) l []).
  rewrite (by_digest_fold l k []) by done. split.
  - destruct (List.find _ l) as [s'|] eqn:E; [|done]. intros [= ->].
    apply find_some in E as [Hin He%String.eqb_eq]. by rewrite list_elem_of_In.
  - intros [Hin <-]. destruct (List.find _ l) as [s'|] eqn:E.
    + apply find_some in E as [Hin' He%String.eqb_eq]. f_equal. rewrite <- list_elem_of_In in Hin'.
      apply list_elem_of_lookup in Hin as [i Hi], Hin' as [j Hj].
      assert (i = j) as ->; [|congruence]. eapply NoDup_lookup; [exact Hd|..];
        rewrite list_lookup_fmap; [by rewrite Hi|by rewrite Hj; simpl; rewrite He].
    + exfalso. apply find_none with (x := s) in E; [|by apply list_elem_of_In]. by rewrite String.eqb_refl in E.
Qed.

Lemma succs_add {A} (e : gomap (list A)) k v x :
  succs (add_edge k v e) x = succs e x ++ (if String.eqb x k then [v] else []).
Proof.
  unfold succs, add_edge, succs. rewrite mget_mset. destruct (String.eqb_spec x k) as [->|]; [done|by rewrite app_nil_r].
Qed.

Lemma succs_fold {A} (f : SourceLink → A) x links : ∀ e,
  succs (fold_left (λ e l, add_edge (digestKey (ln_from l)) (f l) e) links e) x =
  succs e x ++ (f <$> filter (λ l, digestKey (ln_from l) = x) links).
Proof.
  induction links as [|l links IH]; intros e; cbn [fold_left]; [by rewrite app_nil_r|].
  rewrite IH, succs_add, filter_cons. destruct (String.eqb_spec x (digestKey (ln_from l))) as [->|Hne].
  - rewrite decide_True by done. by rewrite fmap_cons, <- app_assoc.
  - rewrite decide_False by done. by rewrite app_nil_r.
Qed.

(** The relation the links claim. *)
Definition names (c : SourceChain) (x y : string) : Prop :=
  ∃ l, l ∈ ch_links c ∧ digestKey (ln_from l) = x ∧ digestKey (ln_to l) = y.
(** A link between two disclosed sources, named by the first one's own bytes. *)
Definition backed (c : SourceChain) (l : SourceLink) : Prop :=
  ∃ from to, from ∈ ch_sources c ∧ to ∈ ch_sources c ∧ source_key from = digestKey (ln_from l) ∧
    source_key to = digestKey (ln_to l) ∧ referencesDigest (sr_references from) (sr_digest to) = true.

Definition link_edges (links : list SourceLink) (e : gomap (list string)) : gomap (list string) :=
  fold_left (λ e l, add_edge (digestKey (ln_from l)) (digestKey (ln_to l)) e) links e.

Lemma index_links_inl c links : NoDup (source_key <$> ch_sources c) → ∀ e e',
  index_links (by_digest (ch_sources c)) e links = inl e' ↔ Forall (backed c) links ∧ e' = link_edges links e.
Proof.
  intros Hd. induction links as [|l links IH]; intros e e'; cbn [index_links].
  { split; [intros [= ->]; by split|by intros [_ ->]]. }
  rewrite list.Forall_cons. unfold link_edges. cbn [fold_left].
  pose proof (λ k s, by_digest_get (ch_sources c) k s Hd) as Hg.
  destruct (mget (digestKey (ln_from l)) _) as [from|] eqn:Ef.
  2:{ split; [done|]. intros [[(from & to & Hf & _ & Hk & _) _] _]. by rewrite (proj2 (Hg _ _) (conj Hf Hk)) in Ef. }
  destruct (mget (digestKey (ln_to l)) _) as [to|] eqn:Et.
  2:{ split; [done|]. intros [[(fr & to & _ & Ht & _ & Hk & _) _] _]. by rewrite (proj2 (Hg _ _) (conj Ht Hk)) in Et. }
  pose proof Ef as [Hf Hfk]%Hg. pose proof Et as [Ht Htk]%Hg. unfold source_key in Hfk, Htk. rewrite Hfk, Htk.
  destruct (referencesDigest (sr_references from) (sr_digest to)) eqn:Er; cbn [negb].
  - rewrite IH. unfold link_edges. split; [|tauto]. intros [? ->]. split; [|done]. split; [|done]. by exists from, to.
  - split; [done|]. intros [[(f2 & t2 & Hf2 & Ht2 & Hk2 & Hk3 & Hr) _] _].
    rewrite (proj2 (Hg _ _) (conj Hf2 Hk2)) in Ef. rewrite (proj2 (Hg _ _) (conj Ht2 Hk3)) in Et. congruence.
Qed.

(** ** What [Validate] accepts *)

Definition acyclic (c : SourceChain) : Prop := ∀ x, ¬ clos_trans _ (names c) x x.

(** A valid chain: disclosed, well-shaped, distinct sources, every claimed
    relation backed, no cycle. *)
Record valid_chain (c : SourceChain) : Prop := {
  vc_nonempty : ch_sources c ≠ [];
  vc_shape : Forall source_ok (ch_sources c);
  vc_distinct : NoDup (source_key <$> ch_sources c);
  vc_backed : Forall (backed c) (ch_links c);
  vc_acyclic : acyclic c
}.

Lemma Acc_no_cycle {A} (R : A → A → Prop) x : Acc (λ y x, R x y) x → ¬ clos_trans _ R x x.
Proof.
  induction 1 as [x _ IH]. intros H%clos_trans_t1n. inversion H as [? Hx|y ? Hy Hyx]; subst.
  - apply (IH x Hx). by apply t_step.
  - apply (IH y Hy). eapply t_trans; [by apply clos_t1n_trans|by apply t_step].
Qed.

Lemma clos_trans_impl {A} (R Q : A → A → Prop) x y :
  (∀ x y, R x y → Q x y) → clos_trans _ R x y → clos_trans _ Q x y.
Proof. intros H. induction 1; [by apply t_step, H|by eapply t_trans]. Qed.

Lemma leads_names c x y : leads (link_edges (ch_links c) []) x y ↔ names c x y.
Proof.
  unfold leads, names, link_edges. rewrite (succs_fold (λ l, digestKey (ln_to l))). simpl.
  rewrite list_elem_of_fmap. setoid_rewrite list_elem_of_filter. naive_solver.
Qed.

Lemma link_edges_keys links k : ∀ e,
  k ∈ mkeys (link_edges links e) → k ∈ mkeys e ∨ ∃ l, l ∈ links ∧ digestKey (ln_from l) = k.
Proof.
  induction links as [|l links IH]; intros e; [by left|]. cbn [link_edges fold_left].
  intros [H|(l' & Hl & Hk)]%IH; [|right; exists l'; set_solver]. unfold add_edge in H.
  rewrite <- mhas_true in H. unfold mhas in H. rewrite mget_mset in H.
  destruct (String.eqb_spec k (digestKey (ln_from l))) as [->|]; [right; set_solver|].
  left. by rewrite <- mhas_true.
Qed.

Lemma backed_keys c l : NoDup (source_key <$> ch_sources c) → backed c l →
  digestKey (ln_from l) ∈ mkeys (by_digest (ch_sources c)) ∧ digestKey (ln_to l) ∈ mkeys (by_digest (ch_sources c)).
Proof.
  intros Hd (from & to & Hf & Ht & Hkf & Hkt & _). rewrite <- !mhas_true. unfold mhas.
  rewrite (proj2 (by_digest_get _ _ from Hd) (conj Hf Hkf)), (proj2 (by_digest_get _ _ to Hd) (conj Ht Hkt)). done.
Qed.

Lemma detectCycle_spec c :
  NoDup (source_key <$> ch_sources c) → Forall (backed c) (ch_links c) →
  ∃ r, detectCycle (by_digest (ch_sources c)) (link_edges (ch_links c) []) = Some r ∧ (r = None ↔ acyclic c).
Proof.
  intros Hd Hb. rewrite list.Forall_forall in Hb. set (edges := link_edges (ch_links c) []).
  set (u := mkeys (by_digest (ch_sources c))).
  assert (∀ x y, leads edges x y → y ∈ u) as HU.
  { intros x y (l & Hl & _ & <-)%leads_names. by apply (backed_keys c l), Hb. }
  assert (∀ n, n ∈ mkeys edges → n ∈ u) as Hk.
  { intros n [H|(l & Hl & <-)]%link_edges_keys; [set_solver|]. by apply (backed_keys c l), Hb. }
  assert (whites u [] <= S (length (by_digest (ch_sources c))))%nat as Hw.
  { unfold whites, u, mkeys. etrans; [apply length_filter|]. rewrite length_fmap. lia. }
  pose proof (visit_roots_ended edges u HU _ (mkeys edges) [] Hk Hw) as He.
  assert (search_ok edges [] (mkeys edges) (visit_roots edges (S (length (by_digest (ch_sources c)))) (mkeys edges) [])) as Hok
    by (by apply visit_roots_ok).
  unfold detectCycle. destruct (visit_roots edges _ _ _) as [|n|c']; [done|..]; eexists; (split; [done|]).
  - split; [done|]. intros Ha. exfalso. apply (Ha n). eapply clos_trans_impl; [|exact Hok]. intros x y. apply leads_names.
  - split; [intros _|done]. intros x Hx. destruct Hok as [Hf Hr].
    apply (Acc_no_cycle (leads edges) x).
    + destruct (mget x edges) eqn:Ex.
      * apply (fi_settled _ _ _ Hf), Hr. by eapply mkeys_elem, mget_elem.
      * constructor. intros y Hy. unfold leads, succs in Hy. rewrite Ex in Hy. set_solver.
    + eapply clos_trans_impl; [|exact Hx]. intros a b. apply leads_names.
Qed.

Lemma chain_Validate_spec c :
  ∃ r, chain_Validate c = Some r ∧ (r = None ↔ valid_chain c).
Proof.
  unfold chain_Validate. destruct (ch_sources c) as [|s ss] eqn:Es.
  { eexists. split; [done|]. split; [done|]. by intros [? _ _ _ _]. }
  rewrite <- Es. destruct (index_sources [] (ch_sources c)) as [m|e] eqn:Ei.
  - pose proof Ei as (Hok & Hd & _ & Hm)%index_sources_inl. change (m = by_digest (ch_sources c)) in Hm. subst m.
    destruct (index_links _ [] (ch_links c)) as [edges|e] eqn:El.
    + apply index_links_inl in El as [Hb ->]; [|done]. destruct (detectCycle_spec c Hd Hb) as (r & -> & Hr).
      exists r. split; [done|]. rewrite Hr. split; [intros; by split; [congruence|..]|apply vc_acyclic].
    + eexists. split; [done|]. split; [done|]. intros [_ _ _ Hb _].
      by rewrite (proj2 (index_links_inl c _ Hd [] _) (conj Hb eq_refl)) in El.
  - eexists. split; [done|]. split; [done|]. intros [_ Hok Hd _ _].
    assert (index_sources [] (ch_sources c) = inl (by_digest (ch_sources c))) as E; [|by rewrite E in Ei].
    apply index_sources_inl. split_and!; [done|done|set_solver|done].
Qed.

Lemma chain_valid c : chain_Validate c = Some None → valid_chain c.
Proof. destruct (chain_Validate_spec c) as (r & -> & <-). by intros [= ->]. Qed.

(** The validation of a source chain terminates and accepts exactly the valid
    chains: non-empty, every source shaped and distinct by digest, every claimed
    relation between disclosed sources and named by the first one's own
    references, and no cycle of relations. *)
Lemma chain_Validate_iff c :
  chain_Validate c ≠ None ∧ (chain_Validate c = Some None ↔ valid_chain c).
Proof.
  destruct (chain_Validate_spec c) as (r & -> & <-). split; [done|]. split; [by intros [= ->]|by intros ->].
Qed.

(** ** The path *)

(** The path a source stands on: each source names exactly one other, until one
    that names nothing. *)
Inductive stands (c : SourceChain) : SourceRef → list SourceRef → Prop :=
  | stands_root s : s ∈ ch_sources c → (∀ y, ¬ names c (source_key s) y) → stands c s [s]
  | stands_next s s' path : s ∈ ch_sources c → names c (source_key s) (source_key s') →
      (∀ y, names c (source_key s) y → y = source_key s') → stands c s' path → stands c s (s :: path).

Definition links_from (c : SourceChain) (k : string) : list SourceLink :=
  filter (λ l, digestKey (ln_from l) = k) (ch_links c).

(** The walk from [k] meets a source with several links. *)
Definition branches (c : SourceChain) (k : string) (e : error) : Prop :=
  ∃ s, s ∈ ch_sources c ∧ clos_refl_trans _ (names c) k (source_key s) ∧
    (2 <= length (links_from c (source_key s)))%nat ∧
    e = wrap ErrSourceChainBranch (sr_id s +:+ " names "
          +:+ Itoa (Z.of_nat (length (links_from c (source_key s)))) +:+ " sources").

Lemma names_links c k y : names c k y ↔ ∃ l, l ∈ links_from c k ∧ digestKey (ln_to l) = y.
Proof. unfold names, links_from. setoid_rewrite list_elem_of_filter. naive_solver. Qed.

Lemma named_succs c k :
  succs (named_by (by_digest (ch_sources c)) (ch_links c)) k =
  (λ l, default zero_source (mget (digestKey (ln_to l)) (by_digest (ch_sources c)))) <$> links_from c k.
Proof.
  unfold named_by.
  by rewrite (succs_fold (λ l, default zero_source (mget (digestKey (ln_to l)) (by_digest (ch_sources c))))).
Qed.

Lemma stand_loop_ok c fuel : valid_chain c → ∀ seen current,
  current ∈ ch_sources c → NoDup seen →
  (∀ k, k ∈ seen → k ∈ source_key <$> ch_sources c ∧ clos_trans _ (names c) k (source_key current)) →
  (length (ch_sources c) < fuel + length seen)%nat →
  ∃ r, stand_loop (named_by (by_digest (ch_sources c)) (ch_links c)) fuel seen current = Some r ∧
    match r with inl path => stands c current path | inr e => branches c (source_key current) e end.
Proof.
  intros [_ _ Hd Hb Ha]. rewrite list.Forall_forall in Hb.
  induction fuel as [|fuel IH]; intros seen current Hin Hnd Hseen Hlen.
  { exfalso. assert (seen ⊆+ source_key <$> ch_sources c) as Hsub%submseteq_length.
    { apply NoDup_submseteq; [done|]. intros k Hk. by apply Hseen. }
    rewrite length_fmap in Hsub. lia. }
  cbn [stand_loop]. fold (source_key current). set (key := source_key current).
  assert (key ∉ seen) as Hns by (intros Hk; apply (Ha key), Hseen, Hk).
  assert (mem_key key seen = false) as -> by (apply not_true_iff_false; by rewrite mem_key_true).
  rewrite named_succs. destruct (links_from c key) as [|l [|l2 ls]] eqn:El; rewrite ?fmap_nil, ?fmap_cons.
  - eexists. split; [done|]. apply stands_root; [done|]. intros y (l & Hl & _)%names_links.
    fold key in Hl. rewrite El in Hl. set_solver.
  - assert (l ∈ links_from c key) as Hl by (rewrite El; set_solver).
    pose proof Hl as [Hlf Hlin]%list_elem_of_filter.
    destruct (Hb l Hlin) as (from & to & _ & Hto & _ & Hkt & _).
    rewrite (proj2 (by_digest_get _ _ to Hd) (conj Hto Hkt)). change (default zero_source (Some to)) with to.
    assert (names c key (source_key to)) as Hn by (exists l; done).
    destruct (IH (key :: seen) to) as (r & -> & Hr); [done|by apply list.NoDup_cons| |simpl; lia|].
    { intros k [->|Hk]%elem_of_cons.
      - split; [by apply list_elem_of_fmap_2|by apply t_step].
      - destruct (Hseen k Hk) as [? ?]. split; [done|]. eapply t_trans; [done|by apply t_step]. }
    eexists. split; [done|]. destruct r as [path|e]; simpl.
    + apply stands_next with to; [done|done| |done]. intros y (l' & Hl' & <-)%names_links.
      fold key in Hl'. rewrite El in Hl'. apply list_elem_of_singleton in Hl' as ->. done.
    + destruct Hr as (s & Hs & Hreach & H). exists s. split; [done|]. split; [|done].
      eapply rt_trans; [by apply rt_step|done].
  - eexists. split; [done|]. exists current. fold key. rewrite El. split_and!; [done|apply rt_refl|simpl; lia|].
    simpl. by rewrite length_fmap.
Qed.

(** On a valid chain the walk always ends.  It returns the path of an artifact
    that names at most one other source at every step, from the artifact to a
    source that names nothing; otherwise it reports that the artifact was not
    disclosed, or the source at which the walk branches.  It never reports a
    cycle. *)
Lemma StandingOn_path c from :
  valid_chain c →
  ∃ r, StandingOn c from = Some r ∧
    match r with
    | inl path => ∃ s, s ∈ ch_sources c ∧ source_key s = digestKey from ∧ stands c s path
    | inr e => (digestKey from ∉ source_key <$> ch_sources c) ∧ e = wrap ErrSourceDanglingLink (digestKey from) ∨
               branches c (digestKey from) e
    end.
Proof.
  intros Hv. destruct (chain_Validate_spec c) as (v & Hval & Hvv). apply Hvv in Hv as Hn. subst v.
  unfold StandingOn. rewrite Hval. pose proof (vc_distinct _ Hv) as Hd.
  destruct (mget (digestKey from) (by_digest (ch_sources c))) as [s|] eqn:Es.
  - apply by_digest_get in Es as [Hin Hk]; [|done].
    destruct (stand_loop_ok c (S (length (ch_sources c))) Hv [] s) as (r & -> & Hr);
      [done|constructor|set_solver|simpl; lia|].
    eexists. split; [done|]. destruct r as [path|e]; [by exists s|]. right. by rewrite <- Hk.
  - eexists. split; [done|]. left. split; [|done]. intros (s & Hk & Hin)%list_elem_of_fmap.
    by rewrite (proj2 (by_digest_get _ _ s Hd) (conj Hin (eq_sym Hk))) in Es.
Qed.

(** ** The identity does not depend on the order of disclosure *)

Lemma lex_le_total a b (P Q : Prop) : P ∨ Q → lex_le a b P ∨ lex_le b a Q.
Proof.
  unfold lex_le. destruct (decide (a = b)) as [->|]; [naive_solver|]. destruct (total String.le a b); naive_solver.
Qed.
Lemma lex_le_trans a b c (P Q R : Prop) : (P → Q → R) → lex_le a b P → lex_le b c Q → lex_le a c R.
Proof.
  unfold lex_le. intros H [[Hn1 H1]|[-> H1]] [[Hn2 H2]|[<- H2]]; try naive_solver.
  left. split; [|by trans b]. intros ->. by apply Hn1, (anti_symm String.le).
Qed.
Lemma lex_le_antisym a b (P Q : Prop) : lex_le a b P → lex_le b a Q → a = b ∧ P ∧ Q.
Proof.
  unfold lex_le. intros [[Hn H1]|[-> H1]] [[Hn' H2]|[? H2]]; try naive_solver.
  by destruct Hn; apply (anti_symm String.le).
Qed.

#[global] Instance node_le_total : Total node_le.
Proof. intros a b. unfold node_le. apply lex_le_total, lex_le_total. apply (total String.le). Qed.
#[global] Instance node_le_trans : Transitive node_le.
Proof. intros a b c. unfold node_le. apply lex_le_trans, lex_le_trans. intros. by trans (nd_value b). Qed.

(** The part of a source the order of nodes looks at. *)
Definition node_name (s : SourceRef) : string * string * string :=
  (sr_kind s, sr_id s, hex_text (dg_value (sr_digest s))).

Lemma sorted_nodes_unique l1 l2 :
  NoDup (node_name <$> l1) → l1 ≡ₚ l2 →
  merge_sort node_le (node_of <$> l1) = merge_sort node_le (node_of <$> l2).
Proof.
  intros Hd Hp. eapply StronglySorted_unique_strong;
    [|apply (StronglySorted_merge_sort node_le)..|by rewrite !merge_sort_Permutation, Hp].
  intros x1 x2 H1 H2 Hle Hge. rewrite merge_sort_Permutation in H1, H2.
  apply list_elem_of_fmap in H1 as (s1 & -> & H1), H2 as (s2 & -> & H2). rewrite <- Hp in H2.
  destruct (lex_le_antisym _ _ _ _ Hle Hge) as (E1 & Hle2 & Hge2).
  destruct (lex_le_antisym _ _ _ _ Hle2 Hge2) as (E2 & Hle3 & Hge3).
  assert (s1 = s2) as ->; [|done]. assert (node_name s1 = node_name s2) as E.
  { unfold node_name. simpl in *. f_equal; [congruence|]. by apply (anti_symm String.le). }
  apply list_elem_of_lookup in H1 as [i Hi], H2 as [j Hj].
  assert (i = j) as ->; [|congruence]. eapply NoDup_lookup; [exact Hd|..];
    rewrite list_lookup_fmap; [by rewrite Hi|by rewrite Hj; simpl; rewrite E].
Qed.

Lemma sort_Strings_perm l1 l2 : l1 ≡ₚ l2 → sort_Strings l1 = sort_Strings l2.
Proof.
  intros Hp. apply (Sorted_unique String.le); try apply (Sorted_merge_sort _).
  unfold sort_Strings. by rewrite !merge_sort_Permutation.
Qed.

(** The same disclosure in another order. *)
Definition same_disclosure (c1 c2 : SourceChain) : Prop :=
  ch_sources c1 ≡ₚ ch_sources c2 ∧ ch_links c1 ≡ₚ ch_links c2.

Lemma valid_chain_perm c1 c2 : same_disclosure c1 c2 → valid_chain c1 → valid_chain c2.
Proof.
  intros [Hs Hl] [H1 H2 H3 H4 H5]. split.
  - intros E. rewrite E in Hs. by apply Permutation_nil_r in Hs.
  - by rewrite <- Hs.
  - by rewrite <- Hs.
  - rewrite <- Hl. eapply list.Forall_impl; [exact H4|]. unfold backed. by setoid_rewrite Hs.
  - intros x Hx. apply (H5 x). eapply clos_trans_impl; [|exact Hx]. unfold names. by setoid_rewrite Hl.
Qed.

(** Two parties that disclose the same sources and links in any order agree on
    the identity of the chain, provided no two sources share kind, id and digest
    value (the order of the hashed nodes does not look at the algorithm). *)
Lemma chain_Digest_order c1 c2 :
  valid_chain c1 → NoDup (node_name <$> ch_sources c1) → same_disclosure c1 c2 →
  chain_Digest c1 = chain_Digest c2.
Proof.
  intros Hv Hd Hsame. pose proof (valid_chain_perm _ _ Hsame Hv) as Hv2. destruct Hsame as [Hs Hl].
  destruct (chain_Validate_spec c1) as (r1 & E1 & V1), (chain_Validate_spec c2) as (r2 & E2 & V2).
  apply V1 in Hv. apply V2 in Hv2. subst. unfold chain_Digest. rewrite E1, E2. unfold chain_json.
  rewrite (sorted_nodes_unique _ _ Hd Hs), (sort_Strings_perm (link_text <$> ch_links c1) (link_text <$> ch_links c2));
    [done|by rewrite Hl].
Qed.

(** ** Concrete instances *)

Definition w_digest (b : Z) : Digest := mkDigest "sha-256" [b; 7].
Definition w_cert : SourceRef := mkSource "principal-cert" "p1" "" (w_digest 1) [].
Definition w_delegation : SourceRef := mkSource "delegation" "d1" "" (w_digest 2) [w_digest 1].
Definition w_artifact : SourceRef := mkSource "aic-x509" "a1" "ca" (w_digest 3) [w_digest 2].
Definition w_chain : SourceChain :=
  mkChain [w_artifact; w_delegation; w_cert] [mkLink (w_digest 3) (w_digest 2); mkLink (w_digest 2) (w_digest 1)].
Definition w_chain_again : SourceChain :=
  mkChain [w_cert; w_delegation; w_artifact] [mkLink (w_digest 2) (w_digest 1); mkLink (w_digest 3) (w_digest 2)].

Example w_chain_cycle :
  chain_Validate (mkChain [w_delegation; mkSource "principal-cert" "p1" "" (w_digest 1) [w_digest 2]]
    [mkLink (w_digest 2) (w_digest 1); mkLink (w_digest 1) (w_digest 2)]) =
  Some (Some (wrap ErrSourceChainCycle "d1")).
Proof. vm_compute. reflexivity. Qed.

Lemma w_chain_valid : valid_chain w_chain.
Proof. apply chain_valid. vm_compute. reflexivity. Qed.

(** Two sources that differ only in the algorithm: the identity depends on the
    order in which they are disclosed. *)
Example chain_Digest_ties :
  let a := mkSource "policy-permit" "x" "" (mkDigest "sha-256" [1]) [] in
  let b := mkSource "policy-permit" "x" "" (mkDigest "sha3-256" [1]) [] in
  chain_Validate (mkChain [a; b] []) = Some None ∧ chain_Validate (mkChain [b; a] []) = Some None ∧
  chain_json (mkChain [a; b] []) ≠ chain_json (mkChain [b; a] []).
Proof. vm_compute. split_and!; [done..|]. intros. discriminate. Qed.
