(* ===== verification/Context.v ===== *)
(** * Decision contexts

    semantics/context.go: the freshness input of a decision.  An error is the
    sentinel it wraps (what [errors.Is] sees); the message, which formats
    instants and durations, is left out.  Instants and durations are those of
    GoTime.v: nanoseconds, a Duration being an int64. *)

From S2P Require Import Prelude GoStrings GoTime GoFloat Json Ids Values Bounds Sha256 Evidence.
From S2P Require Import Requirement.

(** [At] carries its location: [At.Location() != time.UTC] is [dc_utc = false], and
    [dc_off] is the offset of the location at that instant, in seconds. *)
Record DecisionContext := mkContext {
  dc_at : Time;
  dc_utc : bool;
  dc_off : Z;
  dc_max_age_sec : Z;
  dc_nonce : string;
  dc_epoch : option Z;
  dc_snapshot : option Digest
}.

Inductive context_error :=
  | ErrContextMissing | ErrContextShape | ErrContextNotUTC
  | ErrContextFuture | ErrContextStale | ErrContextNoClock.

Definition maxContextNonceBytes : nat := 512.

(** [MaxAge]: the product is an int64 multiplication, without a check. *)
Definition MaxAge (c : DecisionContext) : Z := seconds (dc_max_age_sec c).

(** [DecisionContext.IsZero]. *)
Definition context_IsZero (c : DecisionContext) : bool :=
  IsZero (dc_at c) && String.eqb (dc_nonce c) "" && match dc_epoch c with None => true | Some _ => false end.

(** [DecisionContext.Validate]. *)
Definition context_Validate (c : DecisionContext) : option context_error :=
  guard (dc_max_age_sec c <? 0) ErrContextShape ;;?
  guard ((0 <? dc_max_age_sec c) && IsZero (dc_at c)) ErrContextShape ;;?
  guard (context_IsZero c) ErrContextMissing ;;?
  guard (negb (IsZero (dc_at c)) && negb (dc_utc c)) ErrContextNotUTC ;;?
  match dc_snapshot c with
  | Some d => guard (String.eqb (dg_alg d) "" || (length (dg_value d) =? 0)%nat) ErrContextShape
  | None => None
  end ;;?
  guard (negb (String.eqb (dc_nonce c) "") && (maxContextNonceBytes <? String.length (dc_nonce c))%nat) ErrContextShape.

Definition Before (t u : Time) : bool := t <? u.

Definition Fresh (c : DecisionContext) (now : Time) : option context_error :=
  context_Validate c ;;?
  guard (IsZero (dc_at c)) ErrContextNoClock ;;?
  guard (Before now (dc_at c)) ErrContextFuture ;;?
  guard ((0 <? MaxAge c) && (MaxAge c <? Sub now (dc_at c))) ErrContextStale.

(** ** Theorems *)

(** The largest number of seconds a Duration holds. *)
Definition maxDurationSeconds : Z := 9223372036.

Lemma MaxAge_small c : 0 <= dc_max_age_sec c <= maxDurationSeconds → MaxAge c = dc_max_age_sec c * Second.
Proof.
  intros H. unfold MaxAge, seconds, wrap64, Second, maxDurationSeconds in *.
  rewrite Z.mod_small; lia.
Qed.

(** Freshness is exact.  For a context whose bound fits a Duration, the check
    at [now] succeeds exactly when the context is valid, pins an instant that
    does not lie in the future, and, where it declares a bound, that instant is
    at most that many seconds old. *)
Lemma Fresh_exact c now :
  dc_max_age_sec c <= maxDurationSeconds →
  Fresh c now = None ↔
  context_Validate c = None ∧ dc_at c ≠ 0 ∧ dc_at c <= now ∧
  (dc_max_age_sec c = 0 ∨ now - dc_at c <= dc_max_age_sec c * Second).
Proof.
  intros Hm. unfold Fresh. rewrite !check_seq_None, !guard_None. unfold IsZero, Before.
  split.
  - intros (Hv & Hz & Hf & Hs). split; [done|].
    assert (0 <= dc_max_age_sec c) as Hp.
    { unfold context_Validate in Hv. apply check_seq_None in Hv as [Hv _]. apply guard_None in Hv. lia. }
    rewrite MaxAge_small in Hs by lia. unfold Sub, Second, max_int64, min_int64, maxDurationSeconds in *.
    split; [lia|]. split; [lia|]. destruct (decide (dc_max_age_sec c = 0)); [by left|right]. lia.
  - intros (Hv & Hz & Hf & Hs). split; [done|].
    assert (0 <= dc_max_age_sec c) as Hp.
    { unfold context_Validate in Hv. apply check_seq_None in Hv as [Hv _]. apply guard_None in Hv. lia. }
    rewrite MaxAge_small by lia. unfold Sub, Second, max_int64, min_int64, maxDurationSeconds in *.
    split; [lia|]. split; [lia|]. lia.
Qed.

(** A bound that does not fit a Duration is not enforced.  The product wraps
    around: a valid context with a bound of 18446744074 seconds (584 years) is
    refused as stale one second later, and one with a bound of 9223372037
    seconds has no bound at all, so an instant any time in the past is fresh. *)
Lemma MaxAge_overflow :
  let c n := mkContext (63000000000 * Second) true 0 n "" None None in
  (let late := c 18446744074 in
   context_Validate late = None ∧ MaxAge late = 290448384 ∧
   Fresh late (63000000001 * Second) = Some ErrContextStale) ∧
  (let never := c 9223372037 in
   context_Validate never = None ∧ MaxAge never < 0 ∧ Fresh never (80000000000 * Second) = None).
Proof. vm_compute. done. Qed.

Definition w_context : DecisionContext :=
  mkContext (63000000000 * Second) true 0 300 "n-1" (Some 0) (Some (mkDigest "sha-256" [1; 2])).

