(* ===== verification/ActionMatch.v ===== *)
(** * Action identities and matching

    semantics/match.go: the material projection of an action, its typed content
    identity and its text form, and the three-valued comparison of identities. *)

From S2P Require Import Prelude GoStrings GoFloat Json Canonical Values Bounds JsonText.
From S2P Require Import Utf NumberText CanonicalText Sha256 Requirement Sources.

Definition SuiteJCSSHA256 : string := "jcs-sha256".
Definition actionIdPrefix : string := "clc-action:1".

Definition ErrActionShape : error := "action_shape".
Definition ErrActionSuite : error := "action_suite".
Definition ErrActionNotMatchable : error := "action_not_matchable".

(** ** Definitions and identities *)

Record ActionTypeDefinition := mkActionDef { ad_type : string; ad_fields : list string }.

(** The loop over the fields; [seen] is the map of the names so far. *)
Fixpoint check_fields (seen fields : list string) : check :=
  match fields with
  | [] => None
  | f :: rest =>
      guard (String.eqb f "") (wrap ErrActionShape "empty material field name") ;;?
      guard (mem_key f seen) (wrap ErrActionShape ("duplicate material field " +:+ Quote f)) ;;?
      check_fields (f :: seen) rest
  end.

(** [ActionTypeDefinition.Validate]. *)
Definition def_Validate (d : ActionTypeDefinition) : check :=
  guard (String.eqb (ad_type d) "") (wrap ErrActionShape "action type required") ;;?
  guard (length (ad_fields d) =? 0)%nat
    (wrap ErrActionShape ("action type " +:+ ad_type d +:+ " declares no material fields")) ;;?
  check_fields [] (ad_fields d).

Record ActionId := mkActionId { ai_type : string; ai_suite : string; ai_digest : Digest }.

(** [ActionId.String]. *)
Definition action_String (a : ActionId) : string :=
  actionIdPrefix +:+ ":" +:+ ai_type a +:+ ":" +:+ ai_suite a +:+ ":" +:+ RawURLEncoding (dg_value (ai_digest a)).

(** [ActionIdSuite.valid]. *)
Definition suite_valid (s : string) : bool := String.eqb s SuiteJCSSHA256.

(** [ActionId.Validate]. *)
Definition action_Validate (a : ActionId) : check :=
  guard (String.eqb (ai_type a) "") (wrap ErrActionShape "action type required") ;;?
  guard (negb (suite_valid (ai_suite a))) (wrap ErrActionSuite (Quote (ai_suite a))) ;;?
  guard (String.eqb (dg_alg (ai_digest a)) "" || (length (dg_value (ai_digest a)) =? 0)%nat)
    (wrap ErrActionShape "action digest required") ;;?
  guard (String.eqb (ai_suite a) SuiteJCSSHA256 && negb (length (dg_value (ai_digest a)) =? 32)%nat)
    (wrap ErrActionShape (ai_suite a +:+ " digest must be 32 bytes, got "
                          +:+ Itoa (Z.of_nat (length (dg_value (ai_digest a)))))).

Definition digestAlgOf (suite : string) : string :=
  if String.eqb suite SuiteJCSSHA256 then DigestAlgSHA256 else "".

Definition ParseActionId (s : string) : result ActionId :=
  match Split ":" s with
  | [p0; p1; p2; p3; p4] =>
      if negb (String.eqb p0 "clc-action") || negb (String.eqb p1 "1") then inr (wrap ErrActionShape (Quote s))
      else
        match b64_decode true p4 with
        | None => inr (wrap ErrActionShape ("digest is not base64url: " +:+ Quote s))
        | Some raw =>
            let id := mkActionId p2 p3 (mkDigest (digestAlgOf p3) raw) in
            rguard (action_Validate id) (inl id)
        end
  | _ => inr (wrap ErrActionShape (Quote s))
  end.

(** ** The material projection *)

(** The loop of [MaterialProjection] and of [ComputeActionID]. *)
Fixpoint project (typ : string) (fields : list string) (action out : gomap any) : result (gomap any) :=
  match fields with
  | [] => inl out
  | f :: rest =>
      match mget f action with
      | None => inr (wrap ErrActionNotMatchable ("material field " +:+ Quote f +:+ " absent for " +:+ typ))
      | Some v => project typ rest action (mset f v out)
      end
  end.

Definition MaterialProjection (def : ActionTypeDefinition) (action : gomap any) : result (gomap any) :=
  rguard (def_Validate def) (project (ad_type def) (ad_fields def) action []).

(** [hashFor]: the only suite is SHA-256. *)
Definition hashFor (suite canonical : string) : list Z := Sum256 canonical.

Definition ComputeActionID (def : ActionTypeDefinition) (suite : string) (action : gomap any) : result ActionId :=
  rguard (def_Validate def)
    (rguard (guard (negb (suite_valid suite)) (wrap ErrActionSuite (Quote suite)))
       (let! projection := project (ad_type def) (ad_fields def) action [] in
        match CanonicalJSON (AMap projection) with
        | inr e => inr (canon_error_result e)
        | inl canonical => inl (mkActionId (ad_type def) suite (mkDigest (digestAlgOf suite) (hashFor suite canonical)))
        end)).

(** The loop over the sorted field names of [MaterialFieldDigest]. *)
Fixpoint field_digests (projection : gomap any) (fields : list string) : result (list string) :=
  match fields with
  | [] => inl []
  | f :: rest =>
      match CanonicalJSON (default ANil (mget f projection)) with
      | inr e => inr (canon_error_result e)
      | inl canonical =>
          let! out := field_digests projection rest in
          inl ((f +:+ ":" +:+ hex_text (hashFor SuiteJCSSHA256 canonical)) :: out)
      end
  end.

Definition MaterialFieldDigest (def : ActionTypeDefinition) (action : gomap any) : result (list string) :=
  let! projection := MaterialProjection def action in
  field_digests projection (sort_Strings (mkeys projection)).

(** ** Matching *)

Inductive MatchVerdict := MatchExact | MatchNotEquivalent | MatchIndeterminate.

Definition Match (observed evidence : ActionId) : MatchVerdict :=
  if negb (bool_decide (action_Validate observed = None)) || negb (bool_decide (action_Validate evidence = None))
  then MatchIndeterminate
  else if negb (String.eqb (ai_type observed) (ai_type evidence)) || negb (String.eqb (ai_suite observed) (ai_suite evidence))
  then MatchIndeterminate
  else if digest_Equal (ai_digest observed) (ai_digest evidence) then MatchExact
  else MatchNotEquivalent.

Record ActionMappingProfile := mkProfile { mp_id : string; mp_digest : Digest }.

Definition Pinned (p : ActionMappingProfile) : bool :=
  negb (String.eqb (mp_id p) "") && negb (String.eqb (dg_alg (mp_digest p)) "") && (0 <? length (dg_value (mp_digest p)))%nat.

(** The projector belongs to the native verifier; [None] is a nil function. *)
Definition ActionProjector : Type := ActionMappingProfile → ActionId → result ActionId.

Definition MapAndMatch (profile : ActionMappingProfile) (projector : option ActionProjector)
    (evidence expected : ActionId) : MatchVerdict :=
  match projector with
  | None => MatchIndeterminate
  | Some project =>
      if negb (Pinned profile) then MatchIndeterminate
      else
        match project profile evidence with
        | inr _ => MatchIndeterminate
        | inl projected =>
            if negb (String.eqb (ai_type projected) (ai_type expected))
               || negb (String.eqb (ai_suite projected) (ai_suite expected))
            then MatchIndeterminate
            else Match expected projected
        end
  end.

(** ** The text form *)

Lemma action_Validate_None a :
  action_Validate a = None ↔
  ai_type a ≠ "" ∧ ai_suite a = SuiteJCSSHA256 ∧ dg_alg (ai_digest a) ≠ "" ∧ length (dg_value (ai_digest a)) = 32%nat.
Proof.
  unfold action_Validate, suite_valid.
  rewrite !check_seq_None, !guard_None, negb_false_iff, orb_false_iff, String.eqb_eq, !String.eqb_neq, Nat.eqb_neq.
  rewrite andb_false_iff, negb_false_iff, Nat.eqb_eq, String.eqb_neq.
  split; [naive_solver|]. intros (? & ? & ? & Hl). rewrite Hl. naive_solver.
Qed.

(** A name without the separator of the text form. *)
Definition plain_type (a : ActionId) : Prop := no_sep ":" (ai_type a).

Lemma no_colon_b64 l : Forall is_byte l → no_sep ":" (RawURLEncoding l).
Proof.
  intros H%RawURLEncoding_class. unfold no_sep, contains_char. induction (RawURLEncoding l) as [|c s IH]; [done|].
  cbn [str_forallb str_existsb] in *. go_bool. rewrite IH by done. rewrite orb_false_r. apply Ascii.eqb_neq. by intros <-.
Qed.

Lemma action_String_parts a :
  plain_type a → no_sep ":" (ai_suite a) → Forall is_byte (dg_value (ai_digest a)) →
  Split ":" (action_String a) =
  ["clc-action"; "1"; ai_type a; ai_suite a; RawURLEncoding (dg_value (ai_digest a))].
Proof.
  intros Ht Hs Hb. apply no_colon_b64 in Hb. rewrite <- (Split_Join ":" [_; _; _; _; _]); [|done|by repeat constructor].
  reflexivity.
Qed.

(** An identity is what its text form says.  A well-formed identity under the
    suite's algorithm whose type has no colon is parsed back from the string it
    renders, and whatever the parser accepts is well formed, carries the
    algorithm of its suite and names a type without a colon. *)
Lemma ActionId_roundtrip a s b :
  plain_type a → action_Validate a = None → dg_alg (ai_digest a) = DigestAlgSHA256 →
  Forall is_byte (dg_value (ai_digest a)) → ParseActionId s = inl b →
  ParseActionId (action_String a) = inl a ∧
  (action_Validate b = None ∧ dg_alg (ai_digest b) = DigestAlgSHA256 ∧ plain_type b).
Proof.
  intros Ht Hv Ha Hb Hp. split.
  - pose proof (proj1 (action_Validate_None a) Hv) as (_ & Hs & _). unfold ParseActionId.
    rewrite action_String_parts by (by rewrite ?Hs). cbn [String.eqb Ascii.eqb negb orb eqb].
    unfold RawURLEncoding. rewrite b64_decode_encode by done.
    assert (mkActionId (ai_type a) (ai_suite a) (mkDigest (digestAlgOf (ai_suite a)) (dg_value (ai_digest a))) = a) as ->.
    { rewrite Hs. destruct a as [t su [al v]]. cbn in *. by subst. }
    by rewrite Hv.
  - unfold ParseActionId in Hp. pose proof (Split_no_sep ":" s) as Hns.
    destruct (Split ":" s) as [|p0 [|p1 [|p2 [|p3 [|p4 [|]]]]]]; try done. destruct (_ || _); [done|].
    destruct (b64_decode true p4) as [raw|]; [|done]. apply rguard_inl in Hp as [Hv' E]. simplify_eq.
    split; [done|]. apply action_Validate_None in Hv' as (_ & Hs & _). cbn in Hs |- *. subst p3. split; [done|].
    rewrite !list.Forall_cons in Hns. by destruct Hns as (_ & _ & ? & _).
Qed.

(** ** The identity of an action is its material content *)

Lemma check_fields_None seen fields :
  check_fields seen fields = None → NoDup fields ∧ ∀ f, f ∈ fields → f ∉ seen.
Proof.
  revert seen. induction fields as [|f fields IH]; intros seen; cbn [check_fields].
  - intros _. split; [constructor|]. by intros f ?%not_elem_of_nil.
  - rewrite !check_seq_None, !guard_None. intros (_ & Hf & [Hn Hs]%IH). split.
    + apply list.NoDup_cons. split; [|done]. intros Hin. apply (Hs f Hin). set_solver.
    + intros g [->|Hg]%elem_of_cons; [|specialize (Hs g Hg); set_solver].
      intros Hin%mem_key_true. congruence.
Qed.

Lemma project_inl typ fields (action out p : gomap any) :
  project typ fields action out = inl p → NoDup fields → (∀ f, f ∈ fields → f ∉ mkeys out) →
  ∃ vs, mapM (λ f, v ← mget f action; Some (f, v)) fields = Some vs ∧ p = out ++ vs.
Proof.
  revert out. induction fields as [|f fields IH]; intros out; cbn [project].
  - intros; simplify_eq. exists []. by rewrite app_nil_r.
  - intros Hp [Hf Hn]%list.NoDup_cons Ho. destruct (mget f action) as [v|] eqn:E; [|done].
    assert (mset f v out = out ++ [(f, v)]) as Em.
    { specialize (Ho f ltac:(set_solver)). clear -Ho. induction out as [|[k w] out IH]; [done|]. cbn [mset app].
      unfold mkeys in Ho. rewrite fmap_cons in Ho. cbn [fst] in Ho. destruct (String.eqb_spec f k); [set_solver|].
      rewrite IH; [done|]. unfold mkeys. set_solver. }
    rewrite Em in Hp. apply IH in Hp as (vs & Hvs & ->); [|done|].
    + exists ((f, v) :: vs). cbn [mapM]. rewrite E. cbn. rewrite Hvs. cbn. by rewrite <- app_assoc.
    + intros g Hg. unfold mkeys. rewrite fmap_app. cbn. specialize (Ho g ltac:(set_solver)). unfold mkeys in Ho. set_solver.
Qed.

(** Two actions carry the same value, up to the canonical form, in every material
    field. *)
Definition same_material (def : ActionTypeDefinition) (a1 a2 : gomap any) : Prop :=
  ∀ f v1 v2, f ∈ ad_fields def → mget f a1 = Some v1 → mget f a2 = Some v2 →
    writeCanonicalJSON v1 = writeCanonicalJSON v2.

(** Two texts with one SHA-256 digest. *)
Definition sha256_collision : Prop := ∃ t1 t2, t1 ≠ t2 ∧ Sum256 t1 = Sum256 t2.

(** The numbers in the material fields are binary64 values. *)
Definition material_in_range (def : ActionTypeDefinition) (a : gomap any) : Prop :=
  ∀ f v, f ∈ ad_fields def → mget f a = Some v → numbers_in_range v = true.

Lemma mapM_fields fields (action vs : gomap any) :
  mapM (λ f, v ← mget f action; Some (f, v)) fields = Some vs →
  mkeys vs = fields ∧ ∀ f v, (f, v) ∈ vs → mget f action = Some v.
Proof.
  revert vs. induction fields as [|f fields IH]; intros vs; simpl.
  - intros H. injection H as <-. split; [done|]. by intros f v ?%not_elem_of_nil.
  - destruct (mget f action) as [v|] eqn:E; [|done]. cbn. destruct (mapM _ fields) as [vs'|] eqn:Em; [|done]. cbn.
    intros H. injection H as <-. destruct (IH vs' eq_refl) as [Hk Hv]. split; [unfold mkeys in *; by rewrite fmap_cons, Hk|].
    intros g w [?|?]%elem_of_cons; [by simplify_eq|auto].
Qed.

Lemma ComputeActionID_inl def suite action id :
  ComputeActionID def suite action = inl id →
  ∃ vs, def_Validate def = None ∧ suite = SuiteJCSSHA256 ∧ NoDup (ad_fields def) ∧ mkeys vs = ad_fields def ∧
    (∀ f v, (f, v) ∈ vs → mget f action = Some v) ∧
    validateCanonicalStrings (AMap vs) 0 = None ∧ encodable (AMap vs) = true ∧
    id = mkActionId (ad_type def) suite (mkDigest DigestAlgSHA256 (Sum256 (writeCanonicalJSON (AMap vs)))).
Proof.
  unfold ComputeActionID. intros (Hd & H)%rguard_inl. apply rguard_inl in H as [Hs H].
  apply guard_None, negb_false_iff, String.eqb_eq in Hs. subst suite.
  apply rbind_inl in H as (p & Hp & H). pose proof Hd as Hd'. unfold def_Validate in Hd'.
  apply check_seq_None in Hd' as [_ [_ [Hnd _]%check_fields_None]%check_seq_None].
  apply project_inl in Hp as (vs & Hvs & ->); [|done|by intros f _ ?%not_elem_of_nil].
  destruct (CanonicalJSON _) as [text|] eqn:Ec; [|done]. apply CanonicalJSON_ok in Ec as (Hv & He & ->).
  simplify_eq. destruct (mapM_fields _ _ _ Hvs) as [Hk Hg]. exists vs. done.
Qed.

Lemma Match_exact observed evidence :
  Match observed evidence = MatchExact ↔ observed = evidence ∧ action_Validate observed = None.
Proof.
  unfold Match, digest_Equal. destruct observed as [t su [al v]], evidence as [t' su' [al' v']]. cbn [ai_type ai_suite ai_digest dg_alg dg_value].
  destruct (bool_decide _) eqn:E1; cbn [negb orb]; go_bool.
  - destruct (bool_decide (_ = None)) eqn:E2; cbn [negb orb]; go_bool.
    + destruct (String.eqb_spec t t') as [->|], (String.eqb_spec su su') as [->|],
        (String.eqb_spec al al') as [->|]; cbn; try naive_solver. case_bool_decide; naive_solver.
    + split; [done|]. intros [E _]. simplify_eq.
  - naive_solver.
Qed.

(** Two projections with the same keys, compared field by field. *)
Lemma fields_agree {B} (h : any → B) (vs1 vs2 : gomap any) :
  mkeys vs1 = mkeys vs2 → (∀ f v1 v2, (f, v1) ∈ vs1 → (f, v2) ∈ vs2 → h v1 = h v2) →
  (λ kv, (kv.1, h kv.2)) <$> vs1 = (λ kv, (kv.1, h kv.2)) <$> vs2.
Proof.
  revert vs2. induction vs1 as [|[k v] vs1 IH]; intros [|[k' v'] vs2]; unfold mkeys; try done.
  rewrite !fmap_cons. cbn [fst snd]. intros E H. simplify_eq. f_equal; [f_equal; apply (H k'); set_solver|].
  apply IH; [done|]. intros f v1 v2 Hv1 Hv2. apply (H f); set_solver.
Qed.

Lemma sorted16_members vs1 vs2 :
  good_keys vs1 → mkeys vs1 = mkeys vs2 →
  sorted16 ((λ kv : string * any, (kv.1, jtext_of kv.2)) <$> vs1) =
  sorted16 ((λ kv : string * any, (kv.1, jtext_of kv.2)) <$> vs2) →
  ∀ f v1 v2, (f, v1) ∈ vs1 → (f, v2) ∈ vs2 → jtext_of v1 = jtext_of v2.
Proof.
  intros Hg Hk E f v1 v2 H1 H2.
  set (g := λ kv : string * any, (kv.1, jtext_of kv.2)) in *.
  assert (g <$> vs1 ≡ₚ g <$> vs2) as Hp by (by rewrite <- (sorted16_perm_self (g <$> vs1)), E, sorted16_perm_self).
  assert ((f, jtext_of v2) ∈ g <$> vs1) as Hin.
  { rewrite Hp. apply list_elem_of_fmap. by exists (f, v2). }
  assert ((f, jtext_of v1) ∈ g <$> vs1) as Hin' by (apply list_elem_of_fmap; by exists (f, v1)).
  assert (wf_map (g <$> vs1)) as Hw by (apply (good_keys_fmap jtext_of vs1 Hg)).
  apply elem_mget in Hin, Hin'; [|done..]. congruence.
Qed.

Lemma projection_in_range def (a vs : gomap any) :
  mkeys vs = ad_fields def → (∀ f v, (f, v) ∈ vs → mget f a = Some v) → material_in_range def a →
  numbers_in_range (AMap vs) = true.
Proof.
  intros K G R. cbn. apply forallb_forall. intros [f v] Hin%list_elem_of_In.
  apply (R f); [|auto]. rewrite <- K. by eapply mkeys_elem.
Qed.

Lemma projection_has def (a vs : gomap any) f v :
  mkeys vs = ad_fields def → (∀ f v, (f, v) ∈ vs → mget f a = Some v) →
  f ∈ ad_fields def → mget f a = Some v → (f, v) ∈ vs.
Proof.
  intros K G Hf Hv. rewrite <- K in Hf. unfold mkeys in Hf. apply list_elem_of_fmap in Hf as ([f' w] & -> & Hin).
  cbn in *. pose proof (G _ _ Hin). by simplify_eq.
Qed.

(** A match is agreement on the material content.  Two actions of one type
    whose identities were computed match exactly when every material field holds
    the same canonical value in both, whatever their other fields hold; a match of
    actions that differ in a material field exhibits a SHA-256 collision. *)
Lemma Match_material def suite a1 a2 id1 id2 :
  ComputeActionID def suite a1 = inl id1 → ComputeActionID def suite a2 = inl id2 →
  material_in_range def a1 → material_in_range def a2 →
  (same_material def a1 a2 → Match id1 id2 = MatchExact) ∧
  (Match id1 id2 = MatchExact → same_material def a1 a2 ∨ sha256_collision).
Proof.
  intros (vs1 & Hd & -> & Hnd & K1 & G1 & V1 & E1 & ->)%ComputeActionID_inl
         (vs2 & _ & _ & _ & K2 & G2 & V2 & E2 & ->)%ComputeActionID_inl R1 R2. split.
  - intros Hs. apply Match_exact. split.
    + rewrite (AMap_text_eq vs1 vs2); [done|]. apply fields_agree; [congruence|].
      intros f v1 v2 H1 H2. apply (Hs f); [|auto..]. rewrite <- K1. by eapply mkeys_elem.
    + apply action_Validate_None. split; [|split; [done|split; [done|apply Sum256_length]]].
      unfold def_Validate in Hd. apply check_seq_None in Hd as [Ht _]. by apply guard_None, String.eqb_neq in Ht.
  - intros [E _]%Match_exact. simplify_eq.
    destruct (decide (writeCanonicalJSON (AMap vs1) = writeCanonicalJSON (AMap vs2))) as [Et|Hne].
    2:{ right. by exists (writeCanonicalJSON (AMap vs1)), (writeCanonicalJSON (AMap vs2)). }
    left. intros f v1 v2 Hf H1 H2. apply jtext_write.
    assert (jtext_of (AMap vs1) = jtext_of (AMap vs2)) as Ej.
    { apply (CanonicalJSON_inj _ _ (writeCanonicalJSON (AMap vs1))); [apply CanonicalJSON_ok; done..| |];
        by eapply projection_in_range. }
    injection Ej as Ej. eapply (sorted16_members vs1 vs2); [|congruence|done|by eapply projection_has..].
    apply (canonical_string_map vs1 0 V1). unfold wf_map. by rewrite K1.
Qed.

(** A mapped match is never guessed.  [MapAndMatch] answers MATCH only under a
    pinned profile whose projector succeeded and returned the expected identity
    itself, which is well formed; in every other case it does not. *)
Lemma MapAndMatch_exact profile projector evidence expected :
  MapAndMatch profile projector evidence expected = MatchExact ↔
  Pinned profile = true ∧ action_Validate expected = None ∧
  ∃ f, projector = Some f ∧ f profile evidence = inl expected.
Proof.
  unfold MapAndMatch. destruct projector as [f|]; [|split; [done|]; by intros (_ & _ & g & ? & _)].
  destruct (Pinned profile); [|split; [done|]; by intros (? & _)]. cbn [negb].
  destruct (f profile evidence) as [p|] eqn:E.
  2:{ split; [done|]. intros (_ & _ & g & Eg & Hg). simplify_eq. congruence. }
  destruct (_ || _) eqn:Ed.
  - split; [done|]. intros (_ & _ & g & Eg & Hg). simplify_eq. rewrite E in Hg. simplify_eq.
    by rewrite !String.eqb_refl in Ed.
  - rewrite Match_exact. split.
    + intros [-> Hv]. split; [done|]. split; [done|]. by exists f.
    + intros (_ & Hv & g & Eg & Hg). simplify_eq. rewrite E in Hg. by simplify_eq.
Qed.

(** An action type with a colon has an identity whose text form is refused. *)
Lemma colon_type_unparsable :
  let def := mkActionDef "pay:ment" ["amount"] in
  let action := [("amount", AInt KInt 5)] in
  ∃ id, ComputeActionID def SuiteJCSSHA256 action = inl id ∧ action_Validate id = None ∧
    ParseActionId (action_String id) = inr (wrap ErrActionShape (Quote (action_String id))).
Proof. eexists. split; [vm_compute; reflexivity|]. split; vm_compute; reflexivity. Qed.

(** ** Witnesses *)

Definition w_def : ActionTypeDefinition := mkActionDef "payment.release.1" ["amount"; "payee"].
Definition w_action1 : gomap any := [("payee", AStr "acme"); ("memo", AStr "x"); ("amount", AInt KInt 5)].
Definition w_action2 : gomap any := [("amount", AFloat (of_Z 5)); ("payee", AStr "acme")].
Definition w_action_id : ActionId := Eval vm_compute in
  match ComputeActionID w_def SuiteJCSSHA256 w_action1 with inl id => id | inr _ => mkActionId "" "" (mkDigest "" []) end.

