(* ===== verification/RecordJson.v ===== *)
(** * The JSON form of decision records

    How [encoding/json] writes and reads the types a decision record consists of:
    grants, operations, contexts, source chains and digests.  A nil slice is
    written as null.  A digest without bytes and a chain without sources stand for
    the nil slice; the empty slice an explicit empty string or array in a document
    decodes to is not distinguished from it. *)

From S2P Require Import Prelude GoStrings GoFloat GoTime Json Canonical Ids Values Bounds.
From S2P Require Import JsonText JsonStruct Utf NumberText CanonicalText GoTimeText Grants.
From S2P Require Import Sha256 Requirement Sources Context.

(** ** Encoding

    The members of a struct are listed in the order of the canonical form, which
    does not depend on their order. *)

(** A [[]byte] is written as base64. *)
Definition bytes_json (l : list Z) : any := match l with [] => ANil | _ => AStr (StdEncoding l) end.
Definition digest_json (d : Digest) : any := omitempty [member "alg" (AStr (dg_alg d)); member "value" (bytes_json (dg_value d))].

(** An [omitempty] map is left out when it is empty, nil or not. *)
Definition member_map (k : string) (m : option (gomap any)) : option (string * any) :=
  match entries m with [] => None | m' => Some (k, AMap m') end.
Definition member_digest (k : string) (d : option Digest) : option (string * any) := (λ d, (k, digest_json d)) <$> d.

(** [Grant] and [Operation]. *)
Definition grant_json (g : Grant) : any :=
  omitempty [member_strs "constraints" (g_constraints g); member "id" (AStr (g_id g));
             member_map "param_bounds" (g_bounds g); member_map "params" (g_params g)].
Definition operation_json (o : Operation) : any :=
  omitempty [member "id" (AStr (op_id o)); member_map "params" (op_params o)].

(** A slice of structs without [omitempty]. *)
Definition slice_json {A} (f : A → any) (l : option (list A)) : any :=
  match l with None => ANil | Some l => AList (f <$> l) end.

(** [DecisionContext]; an instant without a four-digit year is not encoded. *)
Definition context_json (c : DecisionContext) : option any :=
  at_ ← time_text (dc_at c) (dc_off c);
  Some (omitempty [member "at" (AStr at_); (λ z, ("epoch_id", AInt KUint64 z)) <$> dc_epoch c;
                   member_int "max_age_sec" (dc_max_age_sec c); member_str "nonce" (dc_nonce c);
                   member_digest "snapshot_digest" (dc_snapshot c)]).

(** [SourceRef], [SourceLink] and [SourceChain]. *)
Definition member_digests (k : string) (l : list Digest) : option (string * any) :=
  match l with [] => None | _ => Some (k, AList (digest_json <$> l)) end.
Definition source_json (s : SourceRef) : any :=
  omitempty [member "digest" (digest_json (sr_digest s)); member "id" (AStr (sr_id s)); member_str "issuer" (sr_issuer s);
             member "kind" (AStr (sr_kind s)); member_digests "references" (sr_references s)].
Definition source_link_json (l : SourceLink) : any :=
  omitempty [member "from" (digest_json (ln_from l)); member "to" (digest_json (ln_to l))].
Definition source_chain_json (c : SourceChain) : any :=
  omitempty [match ch_links c with [] => None | l => member "links" (AList (source_link_json <$> l)) end;
             member "sources" (match ch_sources c with [] => ANil | l => AList (source_json <$> l) end)].

(** [RecordInputs]; a nil slice of grants or operations is [None]. *)
Record RecordInputs := mkInputs {
  ri_grants : option (list Grant);
  ri_operations : option (list Operation);
  ri_context : option DecisionContext;
  ri_sources : option SourceChain;
  ri_requirement : option Digest
}.

Definition inputs_json (i : RecordInputs) : option any :=
  ctx ← match ri_context i with None => Some None | Some c => j ← context_json c; Some (Some j) end;
  Some (omitempty [(λ j, ("context", j)) <$> ctx; member "grants" (slice_json grant_json (ri_grants i));
                   member "operations" (slice_json operation_json (ri_operations i));
                   member_digest "requirement_digest" (ri_requirement i);
                   (λ c, ("sources", source_chain_json c)) <$> ri_sources i]).

(** ** Decoding

    A struct member decodes into the value that is there: a setter per member, in
    the order of the document; an unknown member is skipped. *)

Section decode_into.
Context {A : Type} (fields : gomap (A → jtext → option A)).
Fixpoint decode_into_members (m : list (string * jtext)) (a : A) : option A :=
match m with
| [] => Some a
| (key, j) :: m' =>
    match find_field fields key with
    | Some (_, upd) => a' ← upd a j; decode_into_members m' a'
    | None => decode_into_members m' a
    end
end.
Definition decode_into (a : A) (j : jtext) : option A :=
match j with JObj m => decode_into_members m a | JNull => Some a | _ => None end.
End decode_into.

(** The member kinds: the old value and the document give the new one. *)
Definition in_string (old : string) (j : jtext) : option string :=
  match j with JStr s => Some s | JNull => Some old | _ => None end.
Definition in_int64 (old : Z) (j : jtext) : option Z :=
  match j with JNum l => into_int64 l | JNull => Some old | _ => None end.
(** [strconv.ParseUint]: digits only, below 2^64. *)
Definition ParseUint (s : string) : option Z :=
  if String.eqb s "" || negb (str_forallb is_digit s) then None
  else let v := digits_val 0 s in if v <? 2 ^ 64 then Some v else None.
Definition in_uint64_ptr (j : jtext) : option (option Z) :=
  match j with JNum l => Some <$> ParseUint l | JNull => Some None | _ => None end.
Definition in_bytes (j : jtext) : option (list Z) :=
  match j with JStr s => b64_decode false s | JNull => Some [] | _ => None end.
(** The elements of an array are read into the elements that are there. *)
Fixpoint elems_into {A} (f : A → jtext → option A) (zero : A) (old : list A) (l : list jtext) : option (list A) :=
  match l with
  | [] => Some []
  | j :: l' => a ← f (hd zero old) j; rest ← elems_into f zero (tl old) l'; Some (a :: rest)
  end.
Definition in_elems {A} (f : A → jtext → option A) (zero : A) (old : list A) (j : jtext) : option (list A) :=
  match j with JArr l => elems_into f zero old l | JNull => Some [] | _ => None end.
(** A slice whose nil is told apart from the empty one. *)
Definition in_slice {A} (f : A → jtext → option A) (zero : A) (old : option (list A)) (j : jtext) :
    option (option (list A)) :=
  match j with JArr l => Some <$> elems_into f zero (default [] old) l | JNull => Some None | _ => None end.
Definition in_strings : list string → jtext → option (list string) := in_elems in_string "".
(** A [map[string]any] that is there is added to. *)
Definition in_any_map (old : option (gomap any)) (j : jtext) : option (option (gomap any)) :=
  match j with
  | JObj _ => v ← unmarshal_any j;
              match v with AMap m => Some (Some (fold_left (λ acc kv, mset kv.1 kv.2 acc) m (entries old))) | _ => None end
  | JNull => Some None
  | _ => None
  end.
(** A pointer to a struct: null clears it, an object decodes into the struct that
    is there or into a new one. *)
Definition in_ptr {A} (f : A → jtext → option A) (zero : A) (old : option A) (j : jtext) : option (option A) :=
  match j with JNull => Some None | _ => Some <$> f (default zero old) j end.

(** [time.Time.UnmarshalJSON]: the instant, whether its location is UTC, and the
    offset.  The text is taken without escapes, which an instant has none of. *)
Definition in_time (old : Time * bool * Z) (j : jtext) : option (Time * bool * Z) :=
  match j with
  | JStr s => t ← parse_strict s; c ← parse_rfc3339 s; Some (t, HasSuffix s "Z", cv_off c)
  | JNull => Some old
  | _ => None
  end.

Definition zero_digest : Digest := mkDigest "" [].
Definition into_digest : Digest → jtext → option Digest :=
  decode_into [("alg", λ d j, s ← in_string (dg_alg d) j; Some (mkDigest s (dg_value d)));
               ("value", λ d j, v ← in_bytes j; Some (mkDigest (dg_alg d) v))].

Definition zero_grant : Grant := mkGrant "" None None [].
Definition into_grant : Grant → jtext → option Grant :=
  decode_into
    [("id", λ g j, s ← in_string (g_id g) j; Some (mkGrant s (g_params g) (g_bounds g) (g_constraints g)));
     ("params", λ g j, m ← in_any_map (g_params g) j; Some (mkGrant (g_id g) m (g_bounds g) (g_constraints g)));
     ("param_bounds", λ g j, m ← in_any_map (g_bounds g) j; Some (mkGrant (g_id g) (g_params g) m (g_constraints g)));
     ("constraints", λ g j, l ← in_strings (g_constraints g) j; Some (mkGrant (g_id g) (g_params g) (g_bounds g) l))].

Definition zero_operation : Operation := mkOp "" None.
Definition into_operation : Operation → jtext → option Operation :=
  decode_into
    [("id", λ o j, s ← in_string (op_id o) j; Some (mkOp s (op_params o)));
     ("params", λ o j, m ← in_any_map (op_params o) j; Some (mkOp (op_id o) m))].

Definition zero_context : DecisionContext := mkContext 0 true 0 0 "" None None.
Definition into_context : DecisionContext → jtext → option DecisionContext :=
  decode_into
    [("at", λ c j, '(t, utc, off) ← in_time (dc_at c, dc_utc c, dc_off c) j;
             Some (mkContext t utc off (dc_max_age_sec c) (dc_nonce c) (dc_epoch c) (dc_snapshot c)));
     ("max_age_sec", λ c j, n ← in_int64 (dc_max_age_sec c) j;
             Some (mkContext (dc_at c) (dc_utc c) (dc_off c) n (dc_nonce c) (dc_epoch c) (dc_snapshot c)));
     ("nonce", λ c j, s ← in_string (dc_nonce c) j;
             Some (mkContext (dc_at c) (dc_utc c) (dc_off c) (dc_max_age_sec c) s (dc_epoch c) (dc_snapshot c)));
     ("epoch_id", λ c j, e ← in_uint64_ptr j;
             Some (mkContext (dc_at c) (dc_utc c) (dc_off c) (dc_max_age_sec c) (dc_nonce c) e (dc_snapshot c)));
     ("snapshot_digest", λ c j, d ← in_ptr into_digest zero_digest (dc_snapshot c) j;
             Some (mkContext (dc_at c) (dc_utc c) (dc_off c) (dc_max_age_sec c) (dc_nonce c) (dc_epoch c) d))].

Definition into_source : SourceRef → jtext → option SourceRef :=
  decode_into
    [("kind", λ s j, v ← in_string (sr_kind s) j; Some (mkSource v (sr_id s) (sr_issuer s) (sr_digest s) (sr_references s)));
     ("id", λ s j, v ← in_string (sr_id s) j; Some (mkSource (sr_kind s) v (sr_issuer s) (sr_digest s) (sr_references s)));
     ("issuer", λ s j, v ← in_string (sr_issuer s) j;
             Some (mkSource (sr_kind s) (sr_id s) v (sr_digest s) (sr_references s)));
     ("digest", λ s j, d ← into_digest (sr_digest s) j;
             Some (mkSource (sr_kind s) (sr_id s) (sr_issuer s) d (sr_references s)));
     ("references", λ s j, l ← in_elems into_digest zero_digest (sr_references s) j;
             Some (mkSource (sr_kind s) (sr_id s) (sr_issuer s) (sr_digest s) l))].

Definition zero_link : SourceLink := mkLink zero_digest zero_digest.
Definition into_link : SourceLink → jtext → option SourceLink :=
  decode_into [("from", λ l j, d ← into_digest (ln_from l) j; Some (mkLink d (ln_to l)));
               ("to", λ l j, d ← into_digest (ln_to l) j; Some (mkLink (ln_from l) d))].

Definition zero_chain : SourceChain := mkChain [] [].
Definition into_chain : SourceChain → jtext → option SourceChain :=
  decode_into [("sources", λ c j, l ← in_elems into_source zero_source (ch_sources c) j; Some (mkChain l (ch_links c)));
               ("links", λ c j, l ← in_elems into_link zero_link (ch_links c) j; Some (mkChain (ch_sources c) l))].

Definition zero_inputs : RecordInputs := mkInputs None None None None None.
Definition into_inputs : RecordInputs → jtext → option RecordInputs :=
  decode_into
    [("grants", λ i j, l ← in_slice into_grant zero_grant (ri_grants i) j;
             Some (mkInputs l (ri_operations i) (ri_context i) (ri_sources i) (ri_requirement i)));
     ("operations", λ i j, l ← in_slice into_operation zero_operation (ri_operations i) j;
             Some (mkInputs (ri_grants i) l (ri_context i) (ri_sources i) (ri_requirement i)));
     ("context", λ i j, c ← in_ptr into_context zero_context (ri_context i) j;
             Some (mkInputs (ri_grants i) (ri_operations i) c (ri_sources i) (ri_requirement i)));
     ("sources", λ i j, c ← in_ptr into_chain zero_chain (ri_sources i) j;
             Some (mkInputs (ri_grants i) (ri_operations i) (ri_context i) c (ri_requirement i)));
     ("requirement_digest", λ i j, d ← in_ptr into_digest zero_digest (ri_requirement i) j;
             Some (mkInputs (ri_grants i) (ri_operations i) (ri_context i) (ri_sources i) d))].
