(* ===== verification/RecordFreeze.v ===== *)
(** * Freezing the inputs of a record

    The canonical text of record inputs decodes to inputs with the same canonical
    text: the copy a record keeps has the digest of the original. *)

From S2P Require Import Prelude GoStrings GoFloat GoTime Json Canonical Ids Values Bounds.
From S2P Require Import JsonText JsonStruct Utf NumberText CanonicalText GoTimeText Grants.
From S2P Require Import Sha256 Requirement Sources Context RecordJson.

(** ** Structs with omitted members *)

(** Optional members under a list of keys that is in canonical order. *)
Definition keys_ascend (keys : list string) : bool :=
  bool_decide (Sorted (λ a b, utf16Less b a = false) keys).
Definition under {A} (keys : list string) (l : list (option (string * A))) : Prop :=
  Forall2 (λ k o, match o with None => True | Some kv => kv.1 = k end) keys l.

Lemma omap_fmap_opt {A B} (f : A → B) (l : list (option A)) : f <$> omap id l = omap id (fmap f <$> l).
Proof. induction l as [|[x|] l IH]; [done| |done]. cbn. by rewrite IH. Qed.

Lemma sorted16_under {A} keys (l : list (option (string * A))) :
  keys_ascend keys = true → under keys l → NoDup keys → Forall (λ k, ValidString k = true) keys →
  sorted16 (omap id l) = omap id l.
Proof.
  intros Hk%bool_decide_eq_true Hu Hnd Hv.
  assert (mkeys (omap id l) `sublist_of` keys) as Hsub.
  { clear -Hu. unfold mkeys. induction Hu as [|k [kv|] keys l E Hu IH]; [done| |by constructor].
    cbn. subst. by constructor. }
  symmetry. apply sorted16_unique; [|clear Hv Hnd| apply (Sorted_merge_sort _)|by rewrite sorted16_perm_self].
  - split; [by eapply sublist_NoDup|]. intros k Hin. rewrite list.Forall_forall in Hv. apply Hv. by eapply elem_of_sublist.
  - apply Sorted_StronglySorted in Hk; [|intros a b c; apply units_le_trans].
    assert (StronglySorted (λ a b, utf16Less b a = false) (mkeys (omap id l))) as Hss.
    { clear Hu. revert Hk. induction Hsub as [|k l1 l2 Hs IH|k l1 l2 Hs IH]; intros Hk; [done|..];
        inversion Hk as [|? ? Hs2 Hf]; subst; [|auto]. constructor; [auto|]. rewrite list.Forall_forall in *.
      intros x Hx. apply Hf. by eapply elem_of_sublist. }
    apply StronglySorted_Sorted. clear -Hss. unfold mkeys in Hss. induction (omap id l) as [|kv m IH]; [constructor|].
    rewrite fmap_cons in Hss. inversion Hss as [|? ? Hs Hf]; subst. constructor; [auto|].
    apply list.Forall_forall. intros x Hx. apply (proj1 (list.Forall_forall _ _) Hf x.1). by apply list_elem_of_fmap_2.
Qed.

(** A key list the lemmas above apply to. *)
Definition good_template (keys : list string) : bool :=
  keys_ascend keys && bool_decide (NoDup keys) && forallb ValidString keys.

Lemma jtext_omitempty keys l :
  good_template keys = true → under keys l →
  jtext_of (omitempty l) = JObj (omap id (fmap (λ kv, (kv.1, jtext_of kv.2)) <$> l)).
Proof.
  unfold good_template. rewrite !andb_true_iff, forallb_forall. intros [[Hk Hn%bool_decide_eq_true] Hv] Hu.
  unfold omitempty. cbn [jtext_of]. rewrite omap_fmap_opt. f_equal. apply (sorted16_under keys); [done| |done|].
  - clear -Hu. induction Hu as [|k [kv|] keys l E Hu IH]; [constructor|by constructor|by constructor].
  - apply list.Forall_forall. intros k Hin. by apply Hv, list_elem_of_In.
Qed.

(** Discharges the side conditions for a concrete struct. *)
Ltac template :=
  first [vm_compute; reflexivity
        |unfold under; repeat first [apply Forall2_nil_2|apply Forall2_cons_2];
         unfold member, member_map, member_strs, member_str, member_int, member_digest, member_digests;
         repeat case_match; simplify_eq/=; done].

(** [v'] may stand for [v] in a canonical document. *)
Definition refresh (v v' : any) : Prop := ∀ d,
  validateCanonicalStrings v d = None →
  validateCanonicalStrings v' d = None ∧ encodable v' = true ∧ writeCanonicalJSON v' = writeCanonicalJSON v ∧
  (numbers_in_range v = true → numbers_in_range v' = true).
Definition refresh_member (o o' : option (string * any)) : Prop :=
  match o, o' with
  | None, None => True
  | Some (k, v), Some (k', v') => k = k' ∧ refresh v v'
  | _, _ => False
  end.

Lemma refresh_same v : encodable v = true → refresh v v.
Proof. by intros H d. Qed.

Lemma refresh_normal v : stable v = true → refresh v (normal v).
Proof. intros H d Hv. split; [by apply validate_normal|]. split; [by apply encodable_normal|].
  split; [by eapply write_normal|]. intros _. by apply stable_in_range, stable_normal. Qed.

Lemma refresh_list l l' : Forall2 refresh l l' → refresh (AList l) (AList l').
Proof.
  intros H d. cbn. rewrite !check_seq_None. intros [Hd Hv].
  assert (check_all (λ x, validateCanonicalStrings x (d + 1)) l' = None ∧ forallb encodable l' = true ∧
          writeCanonicalJSON <$> l' = writeCanonicalJSON <$> l ∧
          (forallb numbers_in_range l = true → forallb numbers_in_range l' = true)) as (H1 & H2 & H3 & H4);
    [|by rewrite H1, H2, H3].
  clear Hd. induction H as [|x y l l' Hxy H IH]; [done|]. cbn in Hv |- *. rewrite !check_seq_None in *. destruct Hv as [Hv Hv'].
  destruct (Hxy _ Hv) as (? & -> & -> & Hn), (IH Hv') as (? & -> & -> & Hn'). repeat split; try done.
  intros [? ?]%andb_true_iff. by rewrite Hn, Hn'.
Qed.

Lemma refresh_omitempty l l' : Forall2 refresh_member l l' → refresh (omitempty l) (omitempty l').
Proof.
  intros H d. unfold omitempty. cbn [validateCanonicalStrings encodable]. rewrite !check_seq_None. intros [Hd Hv].
  set (valid := λ kv : string * any, checkCanonicalString kv.1 ;;? validateCanonicalStrings kv.2 (d + 1)) in *.
  assert (check_all valid (omap id l') = None ∧ forallb (λ kv, encodable kv.2) (omap id l') = true ∧
    (λ kv, (kv.1, writeCanonicalJSON kv.2)) <$> omap id l' = (λ kv, (kv.1, writeCanonicalJSON kv.2)) <$> omap id l ∧
    (forallb (λ kv, numbers_in_range kv.2) (omap id l) = true → forallb (λ kv, numbers_in_range kv.2) (omap id l') = true))
    as (H1 & H2 & H3 & H4).
  { clear Hd. induction H as [|[[k v]|] [[k' v']|] l l' Ho H IH]; [done| |done..|by apply IH].
    destruct Ho as [<- Ho]. cbn [omap list_omap option_bind id check_all forallb snd] in Hv |- *.
    rewrite check_seq_None in *. destruct Hv as [[Hk Hv]%check_seq_None Hv']. cbn [fst snd] in Hk, Hv.
    destruct (Ho _ Hv) as (Hv1 & He & Hw & Hr), (IH Hv') as (Hv2 & He' & Et & Hr'). rewrite He, He', !fmap_cons, Et.
    cbn [fst snd andb]. rewrite Hw. split.
    - split; [|done]. unfold valid. cbn [fst snd]. by rewrite Hk, Hv1.
    - repeat split. intros [? ?]%andb_true_iff. by rewrite Hr, Hr'. }
  split; [done|]. split; [done|]. split; [by apply AMap_text_eq|done].
Qed.

(** Decoding one optional member. *)
Lemma decode_step {A} (fields : gomap (A → jtext → option A)) o rest a a' :
  match o with
  | None => a' = a
  | Some (k, j) => ∃ n upd, find_field fields k = Some (n, upd) ∧ upd a j = Some a'
  end →
  decode_into_members fields (omap id (o :: rest)) a = decode_into_members fields (omap id rest) a'.
Proof.
  destruct o as [[k j]|]; [|by intros ->]. intros (n & upd & Hf & Hu). cbn. by rewrite Hf, Hu.
Qed.

(** ** Digests *)

Definition digest_bytes (d : Digest) : Prop := Forall is_byte (dg_value d).

Lemma into_digest_json old d :
  digest_bytes d → dg_value old = [] → into_digest old (jtext_of (digest_json d)) = Some d.
Proof.
  intros Hb Ho. unfold digest_json. rewrite (jtext_omitempty ["alg"; "value"]) by template.
  cbn [fmap list_fmap option_fmap option_map member fst snd]. unfold into_digest. cbn [decode_into].
  erewrite decode_step; [|do 2 eexists; split; reflexivity].
  erewrite decode_step; [reflexivity|]. do 2 eexists. split; [reflexivity|].
  cbn [dg_alg dg_value]. destruct d as [al [|b v]]; [done|]. cbn [bytes_json jtext_of in_bytes dg_value dg_alg].
  unfold StdEncoding. rewrite b64_decode_encode by done. done.
Qed.

(** ** Grants and operations *)

(** A map after the round trip: nil where it was empty, else sorted, with its
    numbers as float64 values. *)
Definition freeze_map (m : option (gomap any)) : option (gomap any) :=
  match entries m with [] => None | m' => Some (sorted16 ((λ kv, (kv.1, normal kv.2)) <$> m')) end.
Definition freeze_grant (g : Grant) : Grant :=
  mkGrant (g_id g) (freeze_map (g_params g)) (freeze_map (g_bounds g)) (g_constraints g).
Definition freeze_operation (o : Operation) : Operation := mkOp (op_id o) (freeze_map (op_params o)).

Definition stable_map (m : option (gomap any)) : bool := stable (AMap (entries m)).
Definition stable_grant (g : Grant) : bool := stable_map (g_params g) && stable_map (g_bounds g).
Definition stable_operation (o : Operation) : bool := stable_map (op_params o).

Lemma fold_mset_app {A} (m acc : gomap A) :
  NoDup (mkeys acc ++ mkeys m) → fold_left (λ acc kv, mset kv.1 kv.2 acc) m acc = acc ++ m.
Proof.
  revert acc. induction m as [|[k v] m IH]; intros acc Hn; [by rewrite app_nil_r|]. cbn [fold_left fst snd].
  assert (mset k v acc = acc ++ [(k, v)]) as ->.
  { unfold mkeys in Hn. rewrite fmap_cons in Hn. apply list.NoDup_app in Hn as (_ & Hn & _). clear -Hn.
    induction acc as [|[k0 v0] acc IH]; [done|]. cbn [mset app]. rewrite fmap_cons in Hn.
    destruct (String.eqb_spec k k0) as [->|]; [destruct (Hn k0); set_solver|]. rewrite IH; [done|]. set_solver. }
  rewrite IH; [by rewrite <- app_assoc|]. unfold mkeys in *. rewrite fmap_app, <- app_assoc. done.
Qed.

Lemma in_any_map_json m m' :
  stable_map m = true → entries m = m' → m' ≠ [] → in_any_map None (jtext_of (AMap m')) = Some (freeze_map m).
Proof.
  unfold stable_map, freeze_map. intros Hs E Hne. rewrite E in *. pose proof (unmarshal_canonical _ Hs) as H.
  unfold in_any_map. change (jtext_of (AMap m')) with (JObj (sorted16 ((λ kv, (kv.1, jtext_of kv.2)) <$> m'))) in *.
  rewrite H. cbn [mbind option_bind normal entries default].
  assert (wf_map (sorted16 ((λ kv : string * any, (kv.1, normal kv.2)) <$> m'))) as Hw.
  { cbn in Hs. apply andb_true_iff in Hs as [Hw%bool_decide_eq_true _]. apply wf_sorted16. unfold wf_map, mkeys in *.
    by rewrite <- list_fmap_compose. }
  rewrite (fold_mset_app _ []) by exact Hw. by destruct m'.
Qed.

(** The optional map member of a decoded struct. *)
Lemma member_map_step k m :
  stable_map m = true →
  match (λ kv : string * any, (kv.1, jtext_of kv.2)) <$> member_map k m with
  | None => freeze_map m = None
  | Some (k', j) => k' = k ∧ in_any_map None j = Some (freeze_map m)
  end.
Proof.
  intros Hs. unfold member_map. destruct (entries m) as [|kv m'] eqn:E; cbn [fmap option_fmap option_map fst snd].
  - unfold freeze_map. by rewrite E.
  - split; [done|]. by apply in_any_map_json.
Qed.

Lemma member_map_refresh k m :
  stable_map m = true → refresh_member (member_map k m) (member_map k (freeze_map m)).
Proof.
  unfold stable_map, member_map, freeze_map. destruct (entries m) as [|kv m'] eqn:E; [done|]. intros Hs.
  cbn [entries default id]. pose proof (refresh_normal _ Hs) as Hr. cbn [normal] in Hr.
  destruct (sorted16 ((λ kv : string * any, (kv.1, normal kv.2)) <$> kv :: m')) as [|x n] eqn:En; [|done].
  apply (f_equal length) in En. rewrite (Permutation_length (sorted16_perm_self _)), length_fmap in En. done.
Qed.

Lemma in_strings_json l : in_strings [] (jtext_of (AList (map AStr l))) = Some l.
Proof.
  cbn. induction l as [|s l IH]; [done|]. cbn in *. rewrite IH. done.
Qed.

Lemma member_strs_step k l :
  match (λ kv : string * any, (kv.1, jtext_of kv.2)) <$> member_strs k l with
  | None => l = []
  | Some (k', j) => k' = k ∧ in_strings [] j = Some l
  end.
Proof. destruct l; [done|]. cbn [member_strs fmap option_fmap option_map fst snd]. split; [done|]. apply in_strings_json. Qed.

Lemma into_grant_json g :
  stable_grant g = true → into_grant zero_grant (jtext_of (grant_json g)) = Some (freeze_grant g).
Proof.
  unfold stable_grant. intros [Hp Hb]%andb_true_iff. unfold grant_json.
  rewrite (jtext_omitempty ["constraints"; "id"; "param_bounds"; "params"]) by template.
  cbn [fmap list_fmap]. unfold into_grant. cbn [decode_into].
  rewrite (decode_step _ _ _ _ (mkGrant "" None None (g_constraints g))).
  2:{ pose proof (member_strs_step "constraints" (g_constraints g)) as H.
      destruct (_ <$> member_strs _ _) as [[k j]|]; [|by rewrite H]. destruct H as [-> H].
      do 2 eexists. split; [reflexivity|]. cbn. by rewrite H. }
  erewrite decode_step; [|do 2 eexists; split; reflexivity]. cbn [g_id g_params g_bounds g_constraints].
  rewrite (decode_step _ _ _ _ (mkGrant (g_id g) None (freeze_map (g_bounds g)) (g_constraints g))).
  2:{ pose proof (member_map_step "param_bounds" (g_bounds g) Hb) as H.
      destruct (_ <$> member_map _ _) as [[k j]|]; [|by rewrite H]. destruct H as [-> H].
      do 2 eexists. split; [reflexivity|]. cbn. by rewrite H. }
  rewrite (decode_step _ _ _ _ (freeze_grant g)); [done|].
  pose proof (member_map_step "params" (g_params g) Hp) as H.
  destruct (_ <$> member_map _ _) as [[k j]|]; [|unfold freeze_grant; by rewrite H]. destruct H as [-> H].
  do 2 eexists. split; [reflexivity|]. cbn. by rewrite H.
Qed.

Lemma encodable_strs k l : match member_strs k l with None => True | Some kv => encodable kv.2 = true end.
Proof. destruct l as [|s l]; [done|]. cbn. induction l; [done|]. cbn in *. done. Qed.

Lemma refresh_strs k l : refresh_member (member_strs k l) (member_strs k l).
Proof.
  pose proof (encodable_strs k l) as H. destruct (member_strs k l) as [[k' v]|]; [|done]. split; [done|]. by apply refresh_same.
Qed.

Lemma refresh_grant g : stable_grant g = true → refresh (grant_json g) (grant_json (freeze_grant g)).
Proof.
  unfold stable_grant. intros [Hp Hb]%andb_true_iff. apply refresh_omitempty.
  repeat first [apply Forall2_nil_2|apply Forall2_cons_2].
  - apply refresh_strs.
  - split; [done|]. by apply refresh_same.
  - by apply member_map_refresh.
  - by apply member_map_refresh.
Qed.

Lemma into_operation_json o :
  stable_operation o = true → into_operation zero_operation (jtext_of (operation_json o)) = Some (freeze_operation o).
Proof.
  intros Hp. unfold operation_json. rewrite (jtext_omitempty ["id"; "params"]) by template.
  cbn [fmap list_fmap]. unfold into_operation. cbn [decode_into].
  erewrite decode_step; [|do 2 eexists; split; reflexivity]. cbn [op_id op_params].
  rewrite (decode_step _ _ _ _ (freeze_operation o)); [done|].
  pose proof (member_map_step "params" (op_params o) Hp) as H.
  destruct (_ <$> member_map _ _) as [[k j]|]; [|unfold freeze_operation; by rewrite H]. destruct H as [-> H].
  do 2 eexists. split; [reflexivity|]. cbn. by rewrite H.
Qed.

Lemma refresh_operation o : stable_operation o = true → refresh (operation_json o) (operation_json (freeze_operation o)).
Proof.
  intros Hp. apply refresh_omitempty. repeat first [apply Forall2_nil_2|apply Forall2_cons_2].
  - split; [done|]. by apply refresh_same.
  - by apply member_map_refresh.
Qed.

(** ** Contexts *)

(** The canonical form writes the integer exactly. *)
Definition int_exact (z : Z) : bool := String.eqb (formatCanonicalFloat (of_Z z)) (Itoa z).

Lemma int64_exact z : 0 < z <= max_int64 → int_exact z = true → in_int64 0 (jtext_of (AInt KInt64 z)) = Some z.
Proof.
  intros Hz E%String.eqb_eq. cbn [jtext_of canon_number in_int64]. rewrite E. unfold into_int64, Atoi.
  destruct (Itoa_pos z ltac:(lia)) as (c & t & Ei & Hc & Ht).
  assert (all_digits (Itoa z) ∧ Itoa z ≠ "") as [Hd Hn] by (apply Itoa_digits; lia).
  assert (∀ A (x y : string → A) (w : A),
    match Itoa z with String "-" s' => x s' | String "+" s' => y s' | _ => w end%char = w) as Hm.
  { rewrite Ei. intros A x y w. clear -Hc. destruct c as [[] [] [] [] [] [] [] []]; done. }
  rewrite (Hm _ (λ s, (true, s)) (λ s, (false, s))). apply String.eqb_neq in Hn. rewrite Hn. unfold all_digits in Hd.
  rewrite Hd, digits_val_Itoa by lia. cbn [orb negb]. unfold max_int64, min_int64 in *.
  by rewrite (proj2 (Z.ltb_ge z _)), (proj2 (Z.ltb_ge _ z)) by lia.
Qed.

Lemma uint64_exact z :
  0 <= z < 2 ^ 64 → int_exact z = true → in_uint64_ptr (jtext_of (AInt KUint64 z)) = Some (Some z).
Proof.
  intros Hz E%String.eqb_eq. cbn [jtext_of canon_number in_uint64_ptr]. rewrite E. unfold ParseUint.
  assert (all_digits (Itoa z) ∧ Itoa z ≠ "") as [Hd Hn] by (apply Itoa_digits; lia).
  apply String.eqb_neq in Hn. rewrite Hn. unfold all_digits in Hd.
  rewrite Hd, digits_val_Itoa by lia. cbn [orb negb]. by rewrite (proj2 (Z.ltb_lt z _)) by lia.
Qed.

(** A context that the round trip keeps: in UTC, with integers that the canonical
    form writes exactly. *)
Record context_ok (c : DecisionContext) : Prop := {
  co_utc : dc_utc c = true ∧ dc_off c = 0;
  co_age : 0 <= dc_max_age_sec c <= max_int64 ∧ int_exact (dc_max_age_sec c) = true;
  co_epoch : ∀ e, dc_epoch c = Some e → 0 <= e < 2 ^ 64 ∧ int_exact e = true;
  co_snapshot : ∀ d, dc_snapshot c = Some d → digest_bytes d
}.

Lemma digest_json_object d : ∃ m, jtext_of (digest_json d) = JObj m.
Proof. by eexists. Qed.

Lemma in_ptr_digest old d :
  digest_bytes d → old = None → in_ptr into_digest zero_digest old (jtext_of (digest_json d)) = Some (Some d).
Proof.
  intros Hd ->. pose proof (into_digest_json zero_digest d Hd eq_refl) as H. destruct (digest_json_object d) as [m E].
  rewrite E in *. cbn [in_ptr default]. unfold default. by rewrite H.
Qed.

Lemma into_context_json c j :
  context_ok c → context_json c = Some j → into_context zero_context (jtext_of j) = Some c.
Proof.
  intros [[Hu Ho] [Ha Hae] He Hs]. unfold context_json. rewrite Ho.
  destruct (time_text (dc_at c) 0) as [s|] eqn:Et; [|done]. cbn [mbind option_bind]. intros; simplify_eq.
  rewrite (jtext_omitempty ["at"; "epoch_id"; "max_age_sec"; "nonce"; "snapshot_digest"]).
  2:{ vm_compute. reflexivity. }
  2:{ unfold under. repeat first [apply Forall2_nil_2|apply Forall2_cons_2]; unfold member, member_int, member_str, member_digest;
      [done|destruct (dc_epoch c); done|destruct (_ =? _); done|destruct (String.eqb _ _); done|destruct (dc_snapshot c); done]. }
  cbn [fmap list_fmap]. unfold into_context. cbn [decode_into]. destruct c as [t utc off age nonce epoch snap].
  cbn [dc_at dc_utc dc_off dc_max_age_sec dc_nonce dc_epoch dc_snapshot] in *. subst utc off.
  assert (in_calendar t) as Hcal.
  { unfold time_text in Et. cbv zeta in Et. destruct (_ || _) eqn:E; [done|]. unfold in_calendar. lia. }
  destruct (time_text_roundtrip t Hcal) as (s' & cv & Es & Hp & Hz & Hc & Hoff). rewrite Et in Es. simplify_eq.
  rewrite (decode_step _ _ _ _ (mkContext t true 0 0 "" None None)).
  2:{ do 2 eexists. split; [reflexivity|]. cbn [jtext_of in_time member fmap option_fmap option_map fst snd].
      rewrite Hp. cbn [mbind option_bind]. rewrite Hc. cbn [mbind option_bind]. by rewrite Hz, Hoff. }
  rewrite (decode_step _ _ _ _ (mkContext t true 0 0 "" epoch None)).
  2:{ destruct epoch as [e|]; [|done]. destruct (He e eq_refl) as [Hr Hx]. do 2 eexists. split; [reflexivity|].
      cbn [fst snd]. rewrite uint64_exact by done. done. }
  rewrite (decode_step _ _ _ _ (mkContext t true 0 age "" epoch None)).
  2:{ unfold member_int. destruct (Z.eqb_spec age 0) as [->|Hne]; [done|]. do 2 eexists. split; [reflexivity|].
      cbn [fst snd dc_max_age_sec]. rewrite int64_exact by (done || lia). done. }
  rewrite (decode_step _ _ _ _ (mkContext t true 0 age nonce epoch None)).
  2:{ unfold member_str. destruct (String.eqb_spec nonce "") as [->|Hne]; [done|]. do 2 eexists. split; reflexivity. }
  rewrite (decode_step _ _ _ _ (mkContext t true 0 age nonce epoch snap)); [done|].
  destruct snap as [d|]; [|done]. do 2 eexists. split; [reflexivity|]. cbn [fst snd dc_snapshot].
  by rewrite in_ptr_digest by auto.
Qed.

(** Values without numbers. *)
Fixpoint plain (v : any) : bool :=
  match v with
  | AFloat _ | AFloat32 _ | AInt _ _ => false
  | AList l => forallb plain l
  | AMap m => forallb (λ kv, plain kv.2) m
  | _ => true
  end.

Lemma plain_ok v : plain v = true → encodable v = true ∧ numbers_in_range v = true.
Proof.
  induction v as [| | | | | |l IH|m IH] using any_nested_ind; cbn; try done.
  - rewrite !forallb_forall. intros H. rewrite list.Forall_forall in IH.
    split; intros x Hx; apply IH; auto; by apply list_elem_of_In.
  - rewrite !forallb_forall. intros H. rewrite list.Forall_forall in IH.
    split; intros x Hx; apply (IH x); auto; by apply list_elem_of_In.
Qed.

Lemma plain_digest d : plain (digest_json d) = true.
Proof. destruct d as [a [|b v]]; done. Qed.

Lemma encodable_context c j : context_json c = Some j → encodable j = true.
Proof.
  unfold context_json. destruct (time_text _ _); [|done]. cbn [mbind option_bind]. intros; simplify_eq.
  unfold omitempty, member_int, member_str, member_digest.
  destruct (dc_epoch c), (_ =? 0), (String.eqb _ _), (dc_snapshot c) as [[a [|b v]]|]; done.
Qed.

(** ** Source chains *)

(** What the encoder wrote is read back element by element. *)
Lemma elems_into_json {A B} (f : B → jtext → option B) zero (g : A → any) (h : A → B) l :
  (∀ x, x ∈ l → f zero (jtext_of (g x)) = Some (h x)) → elems_into f zero [] (jtext_of <$> (g <$> l)) = Some (h <$> l).
Proof.
  intros H. induction l as [|x l IH]; [done|]. rewrite !fmap_cons. cbn [elems_into hd tl]. rewrite H by set_solver.
  cbn [mbind option_bind]. rewrite IH; [done|]. set_solver.
Qed.

Definition source_ok (s : SourceRef) : Prop := digest_bytes (sr_digest s) ∧ Forall digest_bytes (sr_references s).
Definition link_ok (l : SourceLink) : Prop := digest_bytes (ln_from l) ∧ digest_bytes (ln_to l).
Definition chain_ok (c : SourceChain) : Prop := Forall source_ok (ch_sources c) ∧ Forall link_ok (ch_links c).

Lemma list_fmap_id' {A} (l : list A) : (λ x, x) <$> l = l.
Proof. induction l as [|x l IH]; [done|]. rewrite fmap_cons. by rewrite IH. Qed.

Lemma in_elems_json {A} (f : A → jtext → option A) (g : A → any) zero l :
  (∀ x, x ∈ l → f zero (jtext_of (g x)) = Some x) → in_elems f zero [] (jtext_of (AList (g <$> l))) = Some l.
Proof. intros H. cbn [jtext_of in_elems]. rewrite (elems_into_json f zero g (λ x, x)) by done. by rewrite list_fmap_id'. Qed.

Lemma into_source_json s : source_ok s → into_source zero_source (jtext_of (source_json s)) = Some s.
Proof.
  intros [Hd Hr]. unfold source_json. rewrite (jtext_omitempty ["digest"; "id"; "issuer"; "kind"; "references"]) by template.
  cbn [fmap list_fmap]. unfold into_source. cbn [decode_into]. destruct s as [kind id_ issuer digest refs].
  cbn [sr_kind sr_id sr_issuer sr_digest sr_references] in *.
  rewrite (decode_step _ _ _ _ (mkSource "" "" "" digest [])).
  2:{ do 2 eexists. split; [reflexivity|]. cbn [fst snd member fmap option_fmap option_map]. by rewrite into_digest_json. }
  erewrite decode_step; [|do 2 eexists; split; reflexivity]. cbn [sr_kind sr_id sr_issuer sr_digest sr_references].
  rewrite (decode_step _ _ _ _ (mkSource "" id_ issuer digest [])).
  2:{ unfold member_str. destruct (String.eqb_spec issuer "") as [->|Hne]; [done|]. do 2 eexists. split; reflexivity. }
  erewrite decode_step; [|do 2 eexists; split; reflexivity]. cbn [sr_kind sr_id sr_issuer sr_digest sr_references].
  rewrite (decode_step _ _ _ _ (mkSource kind id_ issuer digest refs)); [done|].
  destruct refs as [|r refs]; [done|]. do 2 eexists. split; [reflexivity|].
  cbn [fst snd member_digests fmap option_fmap option_map].
  rewrite (in_elems_json _ digest_json); [done|].
  intros x Hx. apply into_digest_json; [|done]. rewrite list.Forall_forall in Hr. auto.
Qed.

Lemma into_link_json l : link_ok l → into_link zero_link (jtext_of (source_link_json l)) = Some l.
Proof.
  intros [Hf Ht]. unfold source_link_json. rewrite (jtext_omitempty ["from"; "to"]) by template.
  cbn [fmap list_fmap]. unfold into_link. cbn [decode_into]. destruct l as [from to]. cbn [ln_from ln_to] in *.
  rewrite (decode_step _ _ _ _ (mkLink from zero_digest)).
  2:{ do 2 eexists. split; [reflexivity|]. cbn [fst snd member fmap option_fmap option_map]. by rewrite into_digest_json. }
  rewrite (decode_step _ _ _ _ (mkLink from to)); [done|].
  do 2 eexists. split; [reflexivity|]. cbn [fst snd member fmap option_fmap option_map]. by rewrite into_digest_json.
Qed.

Lemma into_chain_json c : chain_ok c → into_chain zero_chain (jtext_of (source_chain_json c)) = Some c.
Proof.
  intros [Hs Hl]. unfold source_chain_json. rewrite (jtext_omitempty ["links"; "sources"]) by template.
  cbn [fmap list_fmap]. unfold into_chain. cbn [decode_into]. destruct c as [sources links]. cbn [ch_sources ch_links] in *.
  rewrite list.Forall_forall in Hs. rewrite list.Forall_forall in Hl.
  rewrite (decode_step _ _ _ _ (mkChain [] links)).
  2:{ destruct links as [|x links]; [done|]. do 2 eexists. split; [reflexivity|].
      assert (in_elems into_link zero_link [] (jtext_of (AList (source_link_json <$> x :: links))) = Some (x :: links)) as E.
      { apply in_elems_json. intros y Hy. apply into_link_json. auto. }
      exact (f_equal (mbind (λ l, Some (mkChain [] l))) E). }
  rewrite (decode_step _ _ _ _ (mkChain sources links)); [done|]. do 2 eexists. split; [reflexivity|].
  destruct sources as [|x sources]; [done|].
  assert (in_elems into_source zero_source [] (jtext_of (AList (source_json <$> x :: sources))) = Some (x :: sources)) as E.
  { apply in_elems_json. intros y Hy. apply into_source_json. auto. }
  exact (f_equal (mbind (λ l, Some (mkChain l links))) E).
Qed.

Lemma plain_chain c : plain (source_chain_json c) = true.
Proof.
  assert (∀ A (f : A → any) l, (∀ x, plain (f x) = true) → plain (AList (f <$> l)) = true) as Hl.
  { intros A f l H. cbn. apply forallb_forall. intros y Hy%list_elem_of_In. by apply list_elem_of_fmap in Hy as (x & -> & _). }
  assert (∀ l, plain (source_link_json l) = true) as H1.
  { intros l. unfold source_link_json, omitempty. cbn -[digest_json]. by rewrite !plain_digest. }
  assert (∀ s, plain (source_json s) = true) as H2.
  { intros s. unfold source_json, omitempty, member_str, member_digests. pose proof (Hl _ digest_json (sr_references s) plain_digest) as Hr.
    destruct (String.eqb _ _), (sr_references s) as [|r rs]; cbn -[digest_json] in *; rewrite ?plain_digest; try done.
    all: go_bool; by repeat (apply andb_true_iff; split). }
  unfold source_chain_json, omitempty. pose proof (Hl _ _ (ch_links c) H1) as Hk. pose proof (Hl _ _ (ch_sources c) H2) as Hs.
  destruct (ch_links c), (ch_sources c); cbn -[source_link_json source_json] in *;
    rewrite ?andb_true_iff in *; naive_solver.
Qed.

(** ** The inputs *)

Definition freeze_inputs (i : RecordInputs) : RecordInputs :=
  mkInputs (option_map (map freeze_grant) (ri_grants i)) (option_map (map freeze_operation) (ri_operations i))
    (ri_context i) (ri_sources i) (ri_requirement i).

(** Inputs whose numbers survive the canonical form. *)
Record inputs_ok (i : RecordInputs) : Prop := {
  io_grants : ∀ l, ri_grants i = Some l → forallb stable_grant l = true;
  io_operations : ∀ l, ri_operations i = Some l → forallb stable_operation l = true;
  io_context : ∀ c, ri_context i = Some c → context_ok c;
  io_sources : ∀ c, ri_sources i = Some c → chain_ok c;
  io_requirement : ∀ d, ri_requirement i = Some d → digest_bytes d;
  io_range : ∀ j, inputs_json i = Some j → numbers_in_range j = true
}.

Lemma slice_step {A} (f : A → jtext → option A) zero (g : A → any) (h : A → A) (l : option (list A)) :
  (∀ l', l = Some l' → ∀ x, x ∈ l' → f zero (jtext_of (g x)) = Some (h x)) →
  in_slice f zero None (jtext_of (slice_json g l)) = Some (option_map (map h) l).
Proof.
  intros H. destruct l as [l|]; [|done]. cbn [slice_json jtext_of in_slice]. change (default [] None) with (@nil A).
  rewrite (elems_into_json f zero g h); [done|]. eauto.
Qed.

Lemma into_inputs_json i j :
  inputs_ok i → inputs_json i = Some j → into_inputs zero_inputs (jtext_of j) = Some (freeze_inputs i).
Proof.
  intros [Hg Ho Hc Hs Hr _]. unfold inputs_json. destruct i as [gs ops ctx src req].
  cbn [ri_grants ri_operations ri_context ri_sources ri_requirement] in *.
  destruct (match ctx with None => _ | Some c => _ end) as [cj|] eqn:Ec; [|done]. cbn [mbind option_bind]. intros; simplify_eq.
  rewrite (jtext_omitempty ["context"; "grants"; "operations"; "requirement_digest"; "sources"]).
  2:{ vm_compute. reflexivity. }
  2:{ unfold under. repeat first [apply Forall2_nil_2|apply Forall2_cons_2]; unfold member, member_digest;
      [destruct cj; done|done|done|destruct req; done|destruct src; done]. }
  cbn [fmap list_fmap]. unfold into_inputs. cbn [decode_into]. unfold freeze_inputs.
  cbn [ri_grants ri_operations ri_context ri_sources ri_requirement].
  rewrite (decode_step _ _ _ _ (mkInputs None None ctx None None)).
  2:{ destruct ctx as [c|]; [|by simplify_eq]. destruct (context_json c) as [cj'|] eqn:Ej; [|done]. cbn in Ec. simplify_eq.
      do 2 eexists. split; [reflexivity|]. pose proof (into_context_json c cj' (Hc c eq_refl) Ej) as E.
      assert (in_ptr into_context zero_context None (jtext_of cj') = Some (Some c)) as E'.
      { unfold in_ptr. cbn [default]. unfold default. rewrite E. unfold context_json in Ej.
        destruct (time_text _ _); [|done]. cbn in Ej. by simplify_eq. }
      exact (f_equal (mbind (λ c, Some (mkInputs None None c None None))) E'). }
  rewrite (decode_step _ _ _ _ (mkInputs (option_map (map freeze_grant) gs) None ctx None None)).
  2:{ do 2 eexists. split; [reflexivity|].
      assert (in_slice into_grant zero_grant None (jtext_of (slice_json grant_json gs)) = Some (option_map (map freeze_grant) gs)) as E.
      { apply slice_step. intros l El x Hx. apply into_grant_json. specialize (Hg l El). rewrite forallb_forall in Hg.
        by apply Hg, list_elem_of_In. }
      exact (f_equal (mbind (λ l, Some (mkInputs l None ctx None None))) E). }
  rewrite (decode_step _ _ _ _ (mkInputs (option_map (map freeze_grant) gs) (option_map (map freeze_operation) ops) ctx None None)).
  2:{ do 2 eexists. split; [reflexivity|].
      assert (in_slice into_operation zero_operation None (jtext_of (slice_json operation_json ops)) =
        Some (option_map (map freeze_operation) ops)) as E.
      { apply slice_step. intros l El x Hx. apply into_operation_json. specialize (Ho l El). rewrite forallb_forall in Ho.
        by apply Ho, list_elem_of_In. }
      exact (f_equal (mbind (λ l, Some (mkInputs (option_map (map freeze_grant) gs) l ctx None None))) E). }
  rewrite (decode_step _ _ _ _ (mkInputs (option_map (map freeze_grant) gs) (option_map (map freeze_operation) ops) ctx None req)).
  2:{ destruct req as [d|]; [|done]. do 2 eexists. split; [reflexivity|].
      exact (f_equal (mbind (λ d, Some (mkInputs (option_map (map freeze_grant) gs) (option_map (map freeze_operation) ops) ctx None d)))
        (in_ptr_digest None d (Hr d eq_refl) eq_refl)). }
  rewrite (decode_step _ _ _ _ (mkInputs (option_map (map freeze_grant) gs) (option_map (map freeze_operation) ops) ctx src req)); [done|].
  destruct src as [c|]; [|done]. do 2 eexists. split; [reflexivity|].
  pose proof (into_chain_json c (Hs c eq_refl)) as E.
  exact (f_equal (λ o, mbind (λ c, Some (mkInputs (option_map (map freeze_grant) gs) (option_map (map freeze_operation) ops) ctx c req))
    (Some <$> o)) E).
Qed.

Lemma refresh_slice {A} (g : A → any) (h : A → A) (ok : A → bool) (l : option (list A)) :
  (∀ x, ok x = true → refresh (g x) (g (h x))) → (∀ l', l = Some l' → forallb ok l' = true) →
  refresh (slice_json g l) (slice_json g (option_map (map h) l)).
Proof.
  intros Hr Hl. destruct l as [l|]; [|by apply refresh_same]. apply refresh_list. specialize (Hl l eq_refl).
  induction l as [|x l IH]; [done|]. cbn in Hl. go_bool. cbn. constructor; auto.
Qed.

Lemma refresh_inputs i j :
  inputs_ok i → inputs_json i = Some j → ∃ j', inputs_json (freeze_inputs i) = Some j' ∧ refresh j j'.
Proof.
  intros [Hg Ho Hc Hs Hr _]. unfold inputs_json. destruct i as [gs ops ctx src req].
  cbn [ri_grants ri_operations ri_context ri_sources ri_requirement freeze_inputs] in *.
  destruct (match ctx with None => _ | Some c => _ end) as [cj|] eqn:Ec; [|done]. cbn [mbind option_bind]. intros; simplify_eq.
  eexists. split; [reflexivity|]. apply refresh_omitempty. repeat first [apply Forall2_nil_2|apply Forall2_cons_2].
  - destruct cj as [cj|]; [|done]. split; [done|]. apply refresh_same. destruct ctx as [c|]; [|done].
    destruct (context_json c) eqn:Ej; [|done]. cbn in Ec. simplify_eq. by eapply encodable_context.
  - split; [done|]. eapply refresh_slice; [apply refresh_grant|done].
  - split; [done|]. eapply refresh_slice; [apply refresh_operation|done].
  - destruct req as [d|]; [|done]. split; [done|]. apply refresh_same, plain_ok, plain_digest.
  - destruct src as [c|]; [|done]. split; [done|]. apply refresh_same, plain_ok, plain_chain.
Qed.

(** ** Frozen inputs are their own round trip *)

Lemma stable_freeze_map m : stable_map m = true → stable_map (freeze_map m) = true.
Proof.
  unfold stable_map, freeze_map. destruct (entries m) as [|kv m'] eqn:E; [done|]. intros Hs. exact (stable_normal _ Hs).
Qed.

Lemma forallb_map {A} (f : A → bool) (h : A → A) l :
  (∀ x, f x = true → f (h x) = true) → forallb f l = true → forallb f (map h l) = true.
Proof. intros H. induction l as [|x l IH]; [done|]. cbn. intros [? ?]%andb_true_iff. by rewrite H, IH. Qed.

Lemma inputs_ok_freeze i j :
  inputs_ok i → inputs_json i = Some j → validateCanonicalStrings j 0 = None → inputs_ok (freeze_inputs i).
Proof.
  intros Hok Hj Hv. destruct (refresh_inputs i j Hok Hj) as (j' & Hj' & Hr). destruct (Hr 0 Hv) as (_ & _ & _ & Hn).
  destruct Hok as [Hg Ho Hc Hs Hq Hrange]. split; [| |done..|].
  - cbn. intros l. destruct (ri_grants i) as [l0|]; [|done]. cbn. intros [= <-]. apply forallb_map; [|by apply Hg].
    intros g. unfold stable_grant. cbn [g_params g_bounds freeze_grant]. intros [? ?]%andb_true_iff. by rewrite !stable_freeze_map.
  - cbn. intros l. destruct (ri_operations i) as [l0|]; [|done]. cbn. intros [= <-]. apply forallb_map; [|by apply Ho].
    intros o. apply stable_freeze_map.
  - intros j'' E. rewrite Hj' in E. simplify_eq. auto.
Qed.

Lemma freeze_inputs_idemp i j text :
  inputs_ok i → inputs_json i = Some j → CanonicalJSON j = inl text →
  freeze_inputs (freeze_inputs i) = freeze_inputs i.
Proof.
  intros Hok Hj Ht. destruct (refresh_inputs i j Hok Hj) as (j' & Hj' & Hr).
  pose proof Ht as (Hv & He & Et)%CanonicalJSON_ok. pose proof (inputs_ok_freeze i j Hok Hj Hv) as Hok'.
  destruct (Hr 0 Hv) as (Hv' & He' & Hw & _).
  assert (CanonicalJSON j' = inl text) as Ht' by (apply CanonicalJSON_ok; by rewrite Hw).
  assert (jtext_of j = jtext_of j') as E.
  { eapply CanonicalJSON_inj; [exact Ht|exact Ht'|by apply (io_range _ Hok)|by apply (io_range _ Hok')]. }
  apply (into_inputs_json _ _ Hok) in Hj. apply (into_inputs_json _ _ Hok') in Hj'. rewrite E in Hj. congruence.
Qed.
