(* ===== verification/Record.v ===== *)
(** * Decision records

    semantics/record.go: a record freezes the inputs of a decision in their
    canonical form together with the decision, and a holder checks it by running
    the decision again. *)

From S2P Require Import Prelude GoStrings GoFloat GoTime Json Canonical Ids Values Bounds.
From S2P Require Import JsonText JsonStruct Utf NumberText CanonicalText GoTimeText Grants.
From S2P Require Import Authorize.
From S2P Require Import Constraints Decisions Obligations Sha256 Requirement Sources Context.
From S2P Require Import RecordJson RecordFreeze ActionMatch.

Definition RecordLang : string := "clc-v1".

(** What may go wrong: the sentinels of record.go, an invalid context, an error of
    another package by its text, and what Go would do with an index out of
    range. *)
Inductive record_error :=
  | ErrRecordOperationCount | ErrRecordDigestMismatch | ErrRecordVerdictMismatch | ErrRecordRevision
  | RecordContext (e : context_error) | RecordOther (e : error) | RecordPanic.

Record DecisionRecord := mkRecord {
  rc_ver : string;
  rc_lang : string;
  rc_inputs : RecordInputs;
  rc_input_digest : Digest;
  rc_unresolved : list string;
  rc_verdict : Verdict;
  rc_reason : string
}.

Record RecordOptions := mkRecordOptions {
  ro_context : option DecisionContext;
  ro_sources : option SourceChain;
  ro_requirement : option Requirement
}.

Definition DigestOfCanonical (canonical : string) : Digest := mkDigest DigestAlgSHA256 (Sum256 canonical).

(** [DigestOf] of the inputs. *)
Definition inputs_digest (i : RecordInputs) : Digest + record_error :=
  match inputs_json i with
  | None => inr (RecordOther "json: error calling MarshalJSON for type time.Time")
  | Some j => match DigestOf j with inl d => inl d | inr e => inr (RecordOther e) end
  end.

(** The slice of grants a record keeps is never nil. *)
Definition with_grants (i : RecordInputs) : RecordInputs :=
  mkInputs (Some (default [] (ri_grants i))) (ri_operations i) (ri_context i) (ri_sources i) (ri_requirement i).

Definition record (grants : option (list Grant)) (op : Operation) (opts : RecordOptions) (requirementDigest : option Digest) :
    DecisionRecord + record_error :=
  let inputs := mkInputs (Some (default [] grants)) (Some [op]) (ro_context opts) (ro_sources opts) requirementDigest in
  match inputs_json inputs with
  | None => inr (RecordOther "json: error calling MarshalJSON for type time.Time")
  | Some j =>
      match CanonicalJSON j with
      | inr e => inr (RecordOther (canon_error_result e))
      | inl canonical =>
          match (t ← read_document canonical; into_inputs zero_inputs t) with
          | None => inr (RecordOther "json: cannot unmarshal")
          | Some frozen =>
              let frozen := with_grants frozen in
              match default [] (ri_operations frozen) with
              | [] => inr RecordPanic
              | o :: _ =>
                  let decision := AuthorizeSet (default [] (ri_grants frozen)) o in
                  inl (mkRecord CLCRevision RecordLang frozen (DigestOfCanonical canonical)
                         (d_unresolved decision) (d_verdict decision) (d_reason decision))
              end
          end
      end
  end.

(** [RecordWith]; [None] would be a source chain whose check does not end. *)
Definition RecordWith (grants : option (list Grant)) (op : Operation) (opts : RecordOptions) :
    option (DecisionRecord + record_error) :=
  match (c ← ro_context opts; context_Validate c) with
  | Some e => Some (inr (RecordContext e))
  | None =>
      match ro_sources opts with
      | Some s => chain_Validate s
      | None => Some None
      end ≫= λ chain,
      match chain with
      | Some e => Some (inr (RecordOther e))
      | None =>
          match ro_requirement opts with
          | None => Some (record grants op opts None)
          | Some r =>
              match req_Digest r with
              | inr e => Some (inr (RecordOther e))
              | inl d => Some (record grants op opts (Some d))
              end
          end
      end
  end.

Definition Record_ (grants : option (list Grant)) (op : Operation) : option (DecisionRecord + record_error) :=
  RecordWith grants op (mkRecordOptions None None None).
Definition RecordWithContext (grants : option (list Grant)) (op : Operation) (ctx : DecisionContext) :
    option (DecisionRecord + record_error) :=
  RecordWith grants op (mkRecordOptions (Some ctx) None None).

(** [DecisionRecord.CanonicalBytes]. *)
Definition record_json (r : DecisionRecord) : option any :=
  inputs ← inputs_json (rc_inputs r);
  Some (omitempty [member "constraints" (omitempty [member_strs "unresolved" (rc_unresolved r)]);
                   member "input_digest" (digest_json (rc_input_digest r)); member "inputs" inputs;
                   member "lang" (AStr (rc_lang r)); member_str "reason" (rc_reason r); member "ver" (AStr (rc_ver r));
                   member "verdict" (AStr (verdict_text (rc_verdict r)))]).
Definition CanonicalBytes (r : DecisionRecord) : string + record_error :=
  match record_json r with
  | None => inr (RecordOther "json: error calling MarshalJSON for type time.Time")
  | Some j => match CanonicalJSON j with inl t => inl t | inr e => inr (RecordOther (canon_error_result e)) end
  end.

(** [DecisionRecord.Recompute]. *)
Definition Recompute (r : DecisionRecord) : Decision + record_error :=
  match default [] (ri_operations (rc_inputs r)) with
  | [op] =>
      if negb (RevisionCompatible (rc_ver r)) then inr ErrRecordRevision
      else inl (AuthorizeSet (default [] (ri_grants (rc_inputs r))) op)
  | _ => inr ErrRecordOperationCount
  end.

(** The element-by-element comparison of two slices of one length. *)
Fixpoint same_strings (a b : list string) : bool :=
  match a, b with
  | x :: a', y :: b' => String.eqb x y && same_strings a' b'
  | _, _ => true
  end.

(** [DecisionRecord.Verify].  The maps of the record are taken in one iteration
    order, that of the value; Go picks an order on each run, and the reason of a
    denial may depend on it ([reason_depends_on_order] of Decisions.v), so that
    what follows is about the runs in this order. *)
Definition Verify (r : DecisionRecord) : option record_error :=
  match Recompute r with
  | inr e => Some e
  | inl recomputed =>
      match inputs_digest (rc_inputs r) with
      | inr e => Some e
      | inl want =>
          guard (negb (digest_Equal want (rc_input_digest r))) ErrRecordDigestMismatch ;;?
          guard (negb (String.eqb (verdict_text (d_verdict recomputed)) (verdict_text (rc_verdict r)))
                 || negb (String.eqb (d_reason recomputed) (rc_reason r))) ErrRecordVerdictMismatch ;;?
          guard (negb (length (d_unresolved recomputed) =? length (rc_unresolved r))%nat) ErrRecordVerdictMismatch ;;?
          guard (negb (same_strings (d_unresolved recomputed) (rc_unresolved r))) ErrRecordVerdictMismatch
      end
  end.

(** [DecisionRecord.VerifyAsOf]. *)
Definition VerifyAsOf (r : DecisionRecord) (now : Time) : option record_error :=
  Verify r ;;?
  match ri_context (rc_inputs r) with
  | None => Some (RecordContext ErrContextMissing)
  | Some c => match Fresh c now with None => None | Some e => Some (RecordContext e) end
  end.

(** ** A record that verifies *)

Lemma same_strings_eq a b : (length a =? length b)%nat = true → same_strings a b = true ↔ a = b.
Proof.
  revert b. induction a as [|x a IH]; intros [|y b]; cbn; try done. intros H.
  rewrite andb_true_iff, String.eqb_eq, IH by done. split; [by intros [-> ->]|by intros [= -> ->]].
Qed.

Lemma digest_Equal_eq d o : digest_Equal d o = true ↔ d = o.
Proof.
  unfold digest_Equal. destruct d as [a v], o as [b w]. cbn. rewrite andb_true_iff, String.eqb_eq, bool_decide_eq_true.
  naive_solver.
Qed.

Lemma inputs_digest_inl i d :
  inputs_digest i = inl d ↔
  ∃ j text, inputs_json i = Some j ∧ CanonicalJSON j = inl text ∧ d = DigestOfCanonical text.
Proof.
  unfold inputs_digest, DigestOf, DigestOfCanonical. destruct (inputs_json i) as [j|];
    [|split; [done|]; by intros (j & t & ? & _)].
  destruct (CanonicalJSON j) as [t|e] eqn:E; split; try done.
  - intros; simplify_eq. by exists j, t.
  - intros (j' & t' & ? & H & ->). simplify_eq. rewrite E in H. by simplify_eq.
  - intros (j' & t & ? & H & _). simplify_eq. by rewrite E in H.
Qed.

(** What a record states about its inputs. *)
Record reproduces (r : DecisionRecord) (op : Operation) (d : Decision) : Prop := {
  rp_operation : ri_operations (rc_inputs r) = Some [op];
  rp_revision : RevisionCompatible (rc_ver r) = true;
  rp_decision : d = AuthorizeSet (default [] (ri_grants (rc_inputs r))) op;
  rp_digest : inputs_digest (rc_inputs r) = inl (rc_input_digest r);
  rp_verdict : verdict_text (rc_verdict r) = verdict_text (d_verdict d);
  rp_reason : rc_reason r = d_reason d;
  rp_unresolved : rc_unresolved r = d_unresolved d
}.

Lemma Verify_None r : Verify r = None ↔ ∃ op d, reproduces r op d.
Proof.
  unfold Verify, Recompute. split.
  - destruct (ri_operations (rc_inputs r)) as [[|op [|]]|] eqn:Eo; cbn [default id]; try done.
    unfold default, id. destruct (RevisionCompatible (rc_ver r)) eqn:Er; [|done]. cbn [negb].
    set (d := AuthorizeSet _ op). destruct (inputs_digest (rc_inputs r)) as [want|] eqn:Ed; [|done].
    rewrite !check_seq_None, !guard_None. intros (H1 & H2 & H3 & H4). exists op, d.
    apply negb_false_iff, digest_Equal_eq in H1. apply orb_false_iff in H2 as [H2 H2']. go_bool.
    apply same_strings_eq in H4; [|done]. split; try done. by rewrite Ed, H1.
  - intros (op & d & [Ho Hr -> Hd Hv Hre Hu]). rewrite Ho. cbn [default id]. unfold default, id. rewrite Hr. cbn [negb].
    unfold default, id in *. rewrite Hd, !check_seq_None, !guard_None. rewrite Hv, Hre, Hu.
    rewrite !String.eqb_refl, Nat.eqb_refl, (proj2 (digest_Equal_eq _ _) eq_refl).
    by rewrite (proj2 (same_strings_eq _ _ (Nat.eqb_refl _)) eq_refl).
Qed.

(** The inputs a call records. *)
Definition requirement_digest (opts : RecordOptions) : option Digest :=
  r ← ro_requirement opts; match req_Digest r with inl d => Some d | inr _ => None end.
Definition inputs_of (grants : option (list Grant)) (op : Operation) (opts : RecordOptions) : RecordInputs :=
  mkInputs (Some (default [] grants)) (Some [op]) (ro_context opts) (ro_sources opts) (requirement_digest opts).

Lemma RecordWith_inl grants op opts r :
  RecordWith grants op opts = Some (inl r) → record grants op opts (requirement_digest opts) = inl r.
Proof.
  unfold RecordWith, requirement_digest. destruct (_ ≫= context_Validate) as [|]; [done|].
  destruct (match ro_sources opts with Some _ => _ | None => _ end) as [[e|]|]; cbn; try done.
  destruct (ro_requirement opts) as [q|]; cbn; [|by intros [= ->]]. by destruct (req_Digest q); intros [= ->].
Qed.

(** The record of inputs that survive the canonical form, in full. *)
Lemma record_frozen grants op opts j text :
  let i := inputs_of grants op opts in
  inputs_ok i → inputs_json i = Some j → CanonicalJSON j = inl text →
  let f := freeze_inputs i in
  let d := AuthorizeSet (default [] (ri_grants f)) (freeze_operation op) in
  record grants op opts (requirement_digest opts) =
    inl (mkRecord CLCRevision RecordLang f (DigestOfCanonical text) (d_unresolved d) (d_verdict d) (d_reason d)) ∧
  inputs_digest f = inl (DigestOfCanonical text).
Proof.
  intros i Hok Hj Ht f d. split.
  - unfold record. fold (inputs_of grants op opts). fold i. rewrite Hj, Ht.
    rewrite (CanonicalJSON_document j text Ht) by (by apply (io_range i Hok)). cbn [mbind option_bind].
    rewrite (into_inputs_json i j Hok Hj). reflexivity.
  - destruct (refresh_inputs i j Hok Hj) as (j' & Hj' & Hr). apply CanonicalJSON_ok in Ht as (Hv & _ & ->).
    destruct (Hr 0 Hv) as (Hv' & He' & Hw & _). apply inputs_digest_inl. exists j', (writeCanonicalJSON j).
    split; [done|]. split; [|done]. apply CanonicalJSON_ok. by rewrite Hw.
Qed.

Lemma AuthorizeSet_verdict grants op : d_verdict (AuthorizeSet grants op) ∈ [VerdictAllow; VerdictDeny; VerdictAllowUR].
Proof. unfold AuthorizeSet. repeat case_match; cbn; set_solver. Qed.

(** The same for a call that succeeds. *)
Lemma RecordWith_frozen grants op opts r :
  let i := inputs_of grants op opts in
  let f := freeze_inputs i in
  let d := AuthorizeSet (default [] (ri_grants f)) (freeze_operation op) in
  inputs_ok i → RecordWith grants op opts = Some (inl r) →
  ∃ j text, inputs_json i = Some j ∧ CanonicalJSON j = inl text ∧
    r = mkRecord CLCRevision RecordLang f (DigestOfCanonical text) (d_unresolved d) (d_verdict d) (d_reason d) ∧
    Verify r = None.
Proof.
  intros i f d Hok Hr%RecordWith_inl.
  assert (∃ j text, inputs_json i = Some j ∧ CanonicalJSON j = inl text) as (j & text & Hj & Ht).
  { unfold record in Hr. fold (inputs_of grants op opts) in Hr. fold i in Hr. destruct (inputs_json i) as [j|]; [|done].
    destruct (CanonicalJSON j) as [t|] eqn:E; [eauto|done]. }
  destruct (record_frozen grants op opts j text Hok Hj Ht) as [E Hd]. fold i in E, Hd. rewrite E in Hr. simplify_eq.
  exists j, text. do 3 (split; [done|]). apply Verify_None. exists (freeze_operation op). eexists. split; try done.
Qed.

(** A record that the program writes is one that it accepts.  Recording inputs
    whose numbers survive the canonical form (decoded JSON values, and integers
    that binary64 holds exactly) yields a record that keeps the frozen inputs and
    their digest, and that verifies: its digest is that of the inputs it carries,
    and running the decision on them gives its verdict, reason and obligations. *)
Lemma RecordWith_verifies grants op opts r :
  inputs_ok (inputs_of grants op opts) → RecordWith grants op opts = Some (inl r) →
  Verify r = None ∧ rc_inputs r = freeze_inputs (inputs_of grants op opts) ∧ rc_ver r = CLCRevision.
Proof.
  intros Hok Hr. by destruct (RecordWith_frozen grants op opts r Hok Hr) as (j & text & _ & _ & -> & Hv).
Qed.

(** C31: what a verified record proves.  A record verifies exactly when it carries
    one operation under a revision this build runs, its digest is the digest of
    the inputs it carries, and its verdict, reason and obligations are those the
    decision on these inputs has.  So a verified record with an admitting verdict
    carries a valid operation and a grant that permits it. *)
Theorem Verify_reproduces r :
  (Verify r = None ↔ ∃ op d, reproduces r op d) ∧
  (Verify r = None → rc_verdict r = VerdictAllow ∨ rc_verdict r = VerdictAllowUR →
   ∃ op g, ri_operations (rc_inputs r) = Some [op] ∧ operation_valid op = None ∧
     g ∈ default [] (ri_grants (rc_inputs r)) ∧ permits g op).
Proof.
  split; [apply Verify_None|]. intros (op & d & [Ho _ -> _ Hv _ _])%Verify_None Ha.
  assert (admits (AuthorizeSet (default [] (ri_grants (rc_inputs r))) op) = true) as Had.
  { unfold admits. set (d := AuthorizeSet _ op) in *.
    pose proof (AuthorizeSet_verdict _ op : d_verdict d ∈ _) as Hd.
    rewrite !elem_of_cons in Hd. destruct Ha as [Ha|Ha]; rewrite Ha in Hv;
      destruct (d_verdict d) as [| | |t]; try done; by destruct Hd as [?|[?|[?|?%not_elem_of_nil]]]. }
  apply AuthorizeSet_admits in Had as [obs Hobs]. apply decision_of_Some in Hobs as (Hval & (g & Hg & Hp) & _).
  by exists op, g.
Qed.

(** An input digest names one set of inputs.  Two records that verify and
    carry the same input digest carry inputs with the same canonical text, or
    exhibit a SHA-256 collision. *)
Lemma input_digest_binds r1 r2 :
  Verify r1 = None → Verify r2 = None → rc_input_digest r1 = rc_input_digest r2 →
  (∃ j1 j2 text, inputs_json (rc_inputs r1) = Some j1 ∧ inputs_json (rc_inputs r2) = Some j2 ∧
     CanonicalJSON j1 = inl text ∧ CanonicalJSON j2 = inl text) ∨ sha256_collision.
Proof.
  intros (op1 & d1 & [_ _ _ H1 _ _ _])%Verify_None (op2 & d2 & [_ _ _ H2 _ _ _])%Verify_None E.
  apply inputs_digest_inl in H1 as (j1 & t1 & J1 & C1 & D1), H2 as (j2 & t2 & J2 & C2 & D2).
  rewrite E, D2 in D1. unfold DigestOfCanonical in D1. injection D1 as D1.
  destruct (decide (t1 = t2)) as [->|Hne]; [left; by exists j1, j2, t2|right; by exists t2, t1].
Qed.

(** ** Integers that binary64 does not hold *)

Definition w_grant : Grant := mkGrant "acme/db-v1:read:orders" (Some [("limit", AInt KInt 10)]) None [].
Definition w_op : Operation := mkOp "acme/db-v1:read:orders" (Some [("limit", AInt KInt 10)]).
Definition w_ctx (epoch : Z) : DecisionContext :=
  mkContext (63900000000 * Second) true 0 300 "n-1" (Some epoch) (Some (mkDigest "sha-256" [1; 2; 255])).
Definition frozen_epoch (r : option (DecisionRecord + record_error)) : option Z :=
  match r with
  | Some (inl r) => c ← ri_context (rc_inputs r); dc_epoch c
  | _ => None
  end.
Definition record_digest (r : option (DecisionRecord + record_error)) : list Z :=
  match r with Some (inl r) => dg_value (rc_input_digest r) | _ => [] end.

(** The epoch identifiers 2^53 and 2^53 + 1 are recorded as the same one: the
    record keeps an epoch that the caller did not pin, and the two contexts have
    one digest. *)
Lemma epoch_rounded :
  frozen_epoch (RecordWithContext (Some [w_grant]) w_op (w_ctx (2 ^ 53 + 1))) = Some (2 ^ 53) ∧
  record_digest (RecordWithContext (Some [w_grant]) w_op (w_ctx (2 ^ 53 + 1))) =
  record_digest (RecordWithContext (Some [w_grant]) w_op (w_ctx (2 ^ 53))).
Proof. vm_compute. done. Qed.

(** The largest epoch identifiers cannot be recorded at all. *)
Lemma epoch_refused :
  context_Validate (w_ctx (2 ^ 64 - 1)) = None ∧
  RecordWithContext (Some [w_grant]) w_op (w_ctx (2 ^ 64 - 1)) = Some (inr (RecordOther "json: cannot unmarshal")).
Proof. vm_compute. done. Qed.

(** ** Witnesses *)

Definition w_opts : RecordOptions := mkRecordOptions (Some (w_ctx 7)) None None.
Definition w_record : DecisionRecord := Eval vm_compute in
  match RecordWith (Some [w_grant]) w_op w_opts with
  | Some (inl r) => r
  | _ => mkRecord "" "" zero_inputs zero_digest [] VerdictDeny ""
  end.

Lemma w_bytes : digest_bytes (mkDigest "sha-256" [1; 2; 255]).
Proof. apply (bool_decide_unpack (Forall is_byte [1; 2; 255])). vm_compute. exact I. Defined.

Lemma w_inputs_ok : inputs_ok (inputs_of (Some [w_grant]) w_op w_opts).
Proof.
  split.
  - intros l E. injection E as <-. vm_compute. reflexivity.
  - intros l E. injection E as <-. vm_compute. reflexivity.
  - intros c E. injection E as <-. split.
    + done.
    + vm_compute. done.
    + intros e E. injection E as <-. vm_compute. done.
    + intros d E. injection E as <-. exact w_bytes.
  - done.
  - done.
  - intros j E. vm_compute in E. injection E as <-. vm_compute. reflexivity.
Defined.

Lemma input_digest_binds_witness :
  (∃ j1 j2 text, inputs_json (rc_inputs w_record) = Some j1 ∧ inputs_json (rc_inputs w_record) = Some j2 ∧
     CanonicalJSON j1 = inl text ∧ CanonicalJSON j2 = inl text) ∨ sha256_collision.
Proof. apply (input_digest_binds w_record w_record); vm_compute; reflexivity. Defined.

Lemma Verify_reproduces_witness :
  ∃ op g, ri_operations (rc_inputs w_record) = Some [op] ∧ operation_valid op = None ∧
    g ∈ default [] (ri_grants (rc_inputs w_record)) ∧ permits g op.
Proof. apply (proj2 (Verify_reproduces w_record)); [vm_compute; reflexivity|left; reflexivity]. Defined.
