(* ===== verification/Envelope.v ===== *)
(** * Evidence envelopes

    semantics/envelope.go: a decision record as the predicate of an in-toto
    statement inside a DSSE envelope.  Signing and verifying primitives belong to
    the caller and are parameters. *)

From S2P Require Import Prelude GoStrings GoFloat GoTime Json Canonical Ids Values Bounds.
From S2P Require Import JsonText JsonStruct Utf NumberText CanonicalText GoTimeText Grants.
From S2P Require Import Authorize.
From S2P Require Import Constraints Decisions Obligations Sha256 Requirement Sources Context.
From S2P Require Import RecordJson RecordFreeze ActionMatch Record.

Definition PayloadTypeInToto : string := "application/vnd.in-toto+json".
Definition StatementTypeInToto : string := "https://in-toto.io/Statement/v1".
Definition PredicateTypeCLCDecision : string := "https://varwof.com/clc/v1/decision-record".
Definition subjectNameAction : string := "action".
Definition subjectNameInputs : string := "clc-inputs".

Inductive envelope_error :=
  | ErrEnvelopeShape | ErrEnvelopePayloadType | ErrEnvelopeSubjectMismatch | ErrEnvelopeSignature
  | EnvelopeRecord (e : record_error) | EnvelopeOther (e : error).

Record Signature := mkSignature { sg_keyid : string; sg_sig : list Z }.
Record Envelope := mkEnvelope { en_payload : string; en_payload_type : string; en_signatures : list Signature }.
(** A nil digest map is [None]. *)
Record Subject := mkSubject { su_name : string; su_digest : option (gomap string) }.
Record Statement := mkStatement {
  st_type : string;
  st_subject : list Subject;
  st_predicate_type : string;
  st_predicate : DecisionRecord
}.

(** ** The pre-authentication encoding *)

Definition writeLengthPrefixed (v : string) : string :=
  String " " (Itoa (Z.of_nat (String.length v)) +:+ String " " v).
Definition PAE (payloadType payload : string) : string :=
  "DSSEv1" +:+ writeLengthPrefixed payloadType +:+ writeLengthPrefixed payload.

(** ** Statements *)

Definition inTotoAlg (alg : string) : string + envelope_error :=
  if String.eqb alg DigestAlgSHA256 then inl "sha256"
  else if String.eqb alg "sha-384" then inl "sha384"
  else if String.eqb alg "sha-512" then inl "sha512"
  else inr ErrEnvelopeShape.

Definition sha256Hex (b : string) : string := hex_text (Sum256 b).

Definition NewStatement (rec : DecisionRecord) : Statement + envelope_error :=
  let ops := default [] (ri_operations (rc_inputs rec)) in
  if negb (length ops =? 1)%nat then inr ErrEnvelopeShape
  else if String.eqb (dg_alg (rc_input_digest rec)) "" || (length (dg_value (rc_input_digest rec)) =? 0)%nat
  then inr ErrEnvelopeShape
  else
    match inTotoAlg (dg_alg (rc_input_digest rec)) with
    | inr e => inr e
    | inl alg =>
        match CanonicalJSON (slice_json operation_json (ri_operations (rc_inputs rec))) with
        | inr e => inr (EnvelopeOther (canon_error_result e))
        | inl actionBytes =>
            inl (mkStatement StatementTypeInToto
                   [mkSubject subjectNameAction (Some [(alg, sha256Hex actionBytes)]);
                    mkSubject subjectNameInputs (Some [(alg, hex_text (dg_value (rc_input_digest rec)))])]
                   PredicateTypeCLCDecision rec)
        end
    end.

(** The JSON form of a statement. *)
Definition subject_json (s : Subject) : any :=
  omitempty [member "digest" (match su_digest s with
                              | None => ANil
                              | Some m => AMap ((λ kv, (kv.1, AStr kv.2)) <$> m)
                              end);
             member_str "name" (su_name s)].
Definition statement_json (s : Statement) : option any :=
  predicate ← record_json (st_predicate s);
  Some (omitempty [member "_type" (AStr (st_type s)); member "predicate" predicate;
                   member "predicateType" (AStr (st_predicate_type s));
                   member "subject" (match st_subject s with [] => ANil | l => AList (subject_json <$> l) end)]).

Definition NewEnvelope (rec : DecisionRecord) : Envelope + envelope_error :=
  match NewStatement rec with
  | inr e => inr e
  | inl st =>
      match statement_json st with
      | None => inr (EnvelopeOther "json: error calling MarshalJSON for type time.Time")
      | Some j =>
          match CanonicalJSON j with
          | inr e => inr (EnvelopeOther (canon_error_result e))
          | inl payload => inl (mkEnvelope payload PayloadTypeInToto [])
          end
      end
  end.

(** [Envelope.Sign] with the caller's primitive; [None] is a nil function. *)
Definition Sign (e : Envelope) (keyID : string) (sign : option (string → list Z + error)) : Envelope + envelope_error :=
  match sign with
  | None => inr ErrEnvelopeShape
  | Some sign =>
      match sign (PAE (en_payload_type e) (en_payload e)) with
      | inr err => inr (EnvelopeOther err)
      | inl sig => inl (mkEnvelope (en_payload e) (en_payload_type e) (en_signatures e ++ [mkSignature keyID sig]))
      end
  end.

(** ** Decoding a statement *)

(** A [map[string]string]. *)
Definition in_string_map (old : option (gomap string)) (j : jtext) : option (option (gomap string)) :=
  match j with
  | JObj m => l ← mapM (λ kv, s ← into_string kv.2; Some (kv.1, s)) m;
              Some (Some (fold_left (λ acc kv, mset kv.1 kv.2 acc) l (entries old)))
  | JNull => Some None
  | _ => None
  end.

Definition into_subject : Subject → jtext → option Subject :=
  decode_into [("name", λ s j, n ← in_string (su_name s) j; Some (mkSubject n (su_digest s)));
               ("digest", λ s j, m ← in_string_map (su_digest s) j; Some (mkSubject (su_name s) m))].

Definition verdict_of (s : string) : Verdict :=
  if String.eqb s "allow" then VerdictAllow
  else if String.eqb s "deny" then VerdictDeny
  else if String.eqb s "allow_unresolved" then VerdictAllowUR
  else VerdictOther s.

Definition into_constraints (l : list string) (j : jtext) : option (list string) :=
  decode_into [("unresolved", λ l j, in_strings l j)] l j.

Definition zero_record : DecisionRecord := mkRecord "" "" zero_inputs zero_digest [] (VerdictOther "") "".
Definition into_record : DecisionRecord → jtext → option DecisionRecord :=
  decode_into
    [("ver", λ r j, s ← in_string (rc_ver r) j; Some (mkRecord s (rc_lang r) (rc_inputs r) (rc_input_digest r)
                      (rc_unresolved r) (rc_verdict r) (rc_reason r)));
     ("lang", λ r j, s ← in_string (rc_lang r) j; Some (mkRecord (rc_ver r) s (rc_inputs r) (rc_input_digest r)
                      (rc_unresolved r) (rc_verdict r) (rc_reason r)));
     ("inputs", λ r j, i ← into_inputs (rc_inputs r) j; Some (mkRecord (rc_ver r) (rc_lang r) i (rc_input_digest r)
                      (rc_unresolved r) (rc_verdict r) (rc_reason r)));
     ("input_digest", λ r j, d ← into_digest (rc_input_digest r) j; Some (mkRecord (rc_ver r) (rc_lang r) (rc_inputs r) d
                      (rc_unresolved r) (rc_verdict r) (rc_reason r)));
     ("constraints", λ r j, l ← into_constraints (rc_unresolved r) j; Some (mkRecord (rc_ver r) (rc_lang r) (rc_inputs r)
                      (rc_input_digest r) l (rc_verdict r) (rc_reason r)));
     ("verdict", λ r j, s ← in_string (verdict_text (rc_verdict r)) j; Some (mkRecord (rc_ver r) (rc_lang r) (rc_inputs r)
                      (rc_input_digest r) (rc_unresolved r) (verdict_of s) (rc_reason r)));
     ("reason", λ r j, s ← in_string (rc_reason r) j; Some (mkRecord (rc_ver r) (rc_lang r) (rc_inputs r)
                      (rc_input_digest r) (rc_unresolved r) (rc_verdict r) s))].

Definition zero_statement : Statement := mkStatement "" [] "" zero_record.
Definition into_statement : Statement → jtext → option Statement :=
  decode_into
    [("_type", λ s j, v ← in_string (st_type s) j; Some (mkStatement v (st_subject s) (st_predicate_type s) (st_predicate s)));
     ("subject", λ s j, l ← in_elems into_subject (mkSubject "" None) (st_subject s) j;
             Some (mkStatement (st_type s) l (st_predicate_type s) (st_predicate s)));
     ("predicateType", λ s j, v ← in_string (st_predicate_type s) j;
             Some (mkStatement (st_type s) (st_subject s) v (st_predicate s)));
     ("predicate", λ s j, r ← into_record (st_predicate s) j;
             Some (mkStatement (st_type s) (st_subject s) (st_predicate_type s) r))].

(** [Envelope.Statement]. *)
Definition env_Statement (e : Envelope) : Statement + envelope_error :=
  if negb (String.eqb (en_payload_type e) PayloadTypeInToto) then inr ErrEnvelopePayloadType
  else if (String.length (en_payload e) =? 0)%nat then inr ErrEnvelopeShape
  else
    match (t ← read_document (en_payload e); into_statement zero_statement t) with
    | None => inr ErrEnvelopeShape
    | Some st => inl st
    end.

(** [Envelope.DecisionRecord]. *)
Definition env_DecisionRecord (e : Envelope) : DecisionRecord + envelope_error :=
  match env_Statement e with inl st => inl (st_predicate st) | inr e => inr e end.

(** ** Checking *)

(** [matchSubject]: the first subject of the name that [want] has decides, on the
    first entry of [want]'s digest map in the iteration order. *)
Fixpoint matchSubject (got : list Subject) (want : Subject) : option envelope_error :=
  match got with
  | [] => Some ErrEnvelopeSubjectMismatch
  | s :: got' =>
      if negb (String.eqb (su_name s) (su_name want)) then matchSubject got' want
      else
        match entries (su_digest want) with
        | [] => matchSubject got' want
        | (alg, value) :: _ =>
            guard (negb (String.eqb (default "" (mget alg (entries (su_digest s)))) value)) ErrEnvelopeSubjectMismatch
        end
  end.

Definition Check_envelope (e : Envelope) : option envelope_error :=
  match env_Statement e with
  | inr err => Some err
  | inl st =>
      guard (negb (String.eqb (st_type st) StatementTypeInToto)) ErrEnvelopeShape ;;?
      guard (negb (String.eqb (st_predicate_type st) PredicateTypeCLCDecision)) ErrEnvelopeShape ;;?
      match Verify (st_predicate st) with
      | Some err => Some (EnvelopeRecord err)
      | None =>
          match NewStatement (st_predicate st) with
          | inr err => Some err
          | inl want => check_all (matchSubject (st_subject st)) (st_subject want)
          end
      end
  end.

(** The loop over the signatures: whether one of them verifies. *)
Fixpoint some_signature (verify : string → string → list Z → option error) (pae : string) (sigs : list Signature) : bool :=
  match sigs with
  | [] => false
  | s :: rest =>
      if (length (sg_sig s) =? 0)%nat then some_signature verify pae rest
      else match verify (sg_keyid s) pae (sg_sig s) with None => true | Some _ => some_signature verify pae rest end
  end.

Definition VerifyRecord (e : Envelope) (verify : option (string → string → list Z → option error)) : option envelope_error :=
  Check_envelope e ;;?
  guard (length (en_signatures e) =? 0)%nat ErrEnvelopeSignature ;;?
  match verify with
  | None => Some ErrEnvelopeSignature
  | Some verify =>
      guard (negb (some_signature verify (PAE (en_payload_type e) (en_payload e)) (en_signatures e))) ErrEnvelopeSignature
  end.

(** ** The encoding determines what was encoded *)

Lemma no_sep_digits s : all_digits s → no_sep " " s.
Proof.
  unfold all_digits, no_sep, contains_char. induction s as [|c s IH]; [done|]. cbn [str_forallb str_existsb]. intros [Hc Hs]%andb_true_iff.
  rewrite (IH Hs), orb_false_r. apply Ascii.eqb_neq. by intros <-.
Qed.

Lemma Split_app_inj sep a b s t :
  no_sep sep a → no_sep sep b → a +:+ String sep s = b +:+ String sep t → a = b ∧ s = t.
Proof.
  intros Ha Hb E%(f_equal (Split sep)). rewrite !Split_app in E by done. injection E as -> E.
  split; [done|by apply Split_inj in E].
Qed.

Lemma writeLengthPrefixed_inj v v' s s' :
  writeLengthPrefixed v +:+ s = writeLengthPrefixed v' +:+ s' → v = v' ∧ s = s'.
Proof.
  unfold writeLengthPrefixed. rewrite !append_cons, <-!str_app_assoc, !append_cons. intros E. injection E as E.
  apply Split_app_inj in E as [El E]; [|apply no_sep_digits, Itoa_digits; lia..].
  assert (String.length v = String.length v') as Hn.
  { apply (f_equal (digits_val 0)) in El. rewrite !digits_val_Itoa in El by lia. lia. }
  split.
  - apply (f_equal (stake (String.length v))) in E. rewrite Hn in E at 2. by rewrite !stake_app in E.
  - apply (f_equal (sdrop (String.length v))) in E. rewrite Hn in E at 2. by rewrite !sdrop_app in E.
Qed.

(** The bytes that are signed determine the payload and its type: no payload
    can be read under another type, or another payload under the same one, with
    the same pre-authentication encoding, whatever bytes they hold. *)
Lemma PAE_injective t p t' p' : PAE t p = PAE t' p' ↔ t = t' ∧ p = p'.
Proof.
  split; [|by intros [-> ->]]. unfold PAE. intros E. apply (f_equal (sdrop 6)) in E. cbn in E.
  apply writeLengthPrefixed_inj in E as [-> E]. split; [done|].
  assert (writeLengthPrefixed p +:+ "" = writeLengthPrefixed p' +:+ "") as Hp by (by rewrite E).
  by apply writeLengthPrefixed_inj in Hp as [-> _].
Qed.

(** ** Reading a statement back *)

(** A record that decoding its JSON form gives back. *)
Record record_ok (r : DecisionRecord) : Prop := {
  ro_inputs_ok : inputs_ok (rc_inputs r);
  ro_frozen : freeze_inputs (rc_inputs r) = rc_inputs r;
  ro_digest_bytes : digest_bytes (rc_input_digest r);
  ro_verdict : verdict_of (verdict_text (rc_verdict r)) = rc_verdict r
}.

Lemma into_constraints_json l : into_constraints [] (jtext_of (omitempty [member_strs "unresolved" l])) = Some l.
Proof.
  rewrite (jtext_omitempty ["unresolved"]) by template. unfold into_constraints. cbn [fmap list_fmap decode_into].
  rewrite (decode_step _ _ _ _ l); [done|]. destruct l as [|s l]; [done|].
  cbn [member_strs fmap option_fmap option_map fst snd]. do 2 eexists. split; [reflexivity|]. apply in_strings_json.
Qed.

Lemma into_record_json r j :
  record_ok r → record_json r = Some j → into_record zero_record (jtext_of j) = Some r.
Proof.
  intros [Hi Hf Hd Hv]. unfold record_json. destruct (inputs_json (rc_inputs r)) as [ij|] eqn:Ei; [|done].
  cbn [mbind option_bind]. intros; simplify_eq. pose proof (into_inputs_json _ _ Hi Ei) as Hin. rewrite Hf in Hin.
  destruct r as [ver lang i dg un vd re]. cbn [rc_ver rc_lang rc_inputs rc_input_digest rc_unresolved rc_verdict rc_reason] in *.
  rewrite (jtext_omitempty ["constraints"; "input_digest"; "inputs"; "lang"; "reason"; "ver"; "verdict"]) by template.
  unfold into_record, zero_record. cbn [decode_into fmap list_fmap].
  rewrite (decode_step _ _ _ _ (mkRecord "" "" zero_inputs zero_digest un (VerdictOther "") "")).
  2:{ do 2 eexists. split; [reflexivity|]. exact (f_equal (mbind (λ l, Some _)) (into_constraints_json un)). }
  rewrite (decode_step _ _ _ _ (mkRecord "" "" zero_inputs dg un (VerdictOther "") "")).
  2:{ do 2 eexists. split; [reflexivity|]. exact (f_equal (mbind (λ d, Some _)) (into_digest_json zero_digest dg Hd eq_refl)). }
  rewrite (decode_step _ _ _ _ (mkRecord "" "" i dg un (VerdictOther "") "")).
  2:{ do 2 eexists. split; [reflexivity|]. exact (f_equal (mbind (λ i, Some _)) Hin). }
  rewrite (decode_step _ _ _ _ (mkRecord "" lang i dg un (VerdictOther "") "")) by (do 2 eexists; split; reflexivity).
  rewrite (decode_step _ _ _ _ (mkRecord "" lang i dg un (VerdictOther "") re)).
  2:{ unfold member_str. destruct (String.eqb_spec re "") as [->|]; [done|]. do 2 eexists. split; reflexivity. }
  rewrite (decode_step _ _ _ _ (mkRecord ver lang i dg un (VerdictOther "") re)) by (do 2 eexists; split; reflexivity).
  rewrite (decode_step _ _ _ _ (mkRecord ver lang i dg un vd re)); [done|].
  do 2 eexists. split; [reflexivity|]. cbn. by rewrite Hv.
Qed.

Lemma into_subject_json n a v :
  n ≠ "" → into_subject (mkSubject "" None) (jtext_of (subject_json (mkSubject n (Some [(a, v)])))) =
  Some (mkSubject n (Some [(a, v)])).
Proof.
  intros Hn. unfold subject_json. rewrite (jtext_omitempty ["digest"; "name"]) by template.
  unfold into_subject. cbn [su_name su_digest fmap list_fmap decode_into fst snd].
  rewrite (decode_step _ _ _ _ (mkSubject "" (Some [(a, v)]))) by (do 2 eexists; split; reflexivity).
  rewrite (decode_step _ _ _ _ (mkSubject n (Some [(a, v)]))); [done|].
  unfold member_str. destruct (String.eqb_spec n "") as [|_]; [done|]. do 2 eexists. split; reflexivity.
Qed.

Lemma NewStatement_inl r st :
  NewStatement r = inl st →
  ∃ op alg bytes, ri_operations (rc_inputs r) = Some [op] ∧ inTotoAlg (dg_alg (rc_input_digest r)) = inl alg ∧
    CanonicalJSON (AList [operation_json op]) = inl bytes ∧
    st = mkStatement StatementTypeInToto
           [mkSubject subjectNameAction (Some [(alg, sha256Hex bytes)]);
            mkSubject subjectNameInputs (Some [(alg, hex_text (dg_value (rc_input_digest r)))])]
           PredicateTypeCLCDecision r.
Proof.
  unfold NewStatement. destruct (ri_operations (rc_inputs r)) as [[|op [|op' ops]]|]; cbn [default id length Nat.eqb negb]; try done.
  destruct (_ || _); [done|]. destruct (inTotoAlg _) as [alg|]; [|done]. cbn [slice_json fmap list_fmap].
  destruct (CanonicalJSON _) as [bytes|] eqn:E; [|done]. intros; simplify_eq. by exists op, alg, bytes.
Qed.

Lemma into_statement_json r st j :
  record_ok r → NewStatement r = inl st → statement_json st = Some j → into_statement zero_statement (jtext_of j) = Some st.
Proof.
  intros Hok (op & alg & bytes & _ & _ & _ & ->)%NewStatement_inl. generalize (sha256Hex bytes), (hex_text (dg_value (rc_input_digest r))).
  intros action inputs. unfold statement_json. cbn [st_predicate].
  destruct (record_json r) as [rj|] eqn:Er; [|done]. cbn [mbind option_bind]. intros; simplify_eq.
  rewrite (jtext_omitempty ["_type"; "predicate"; "predicateType"; "subject"]) by template.
  unfold into_statement, zero_statement. cbn [decode_into fmap list_fmap st_type st_predicate_type st_subject].
  rewrite (decode_step _ _ _ _ (mkStatement StatementTypeInToto [] "" zero_record)) by (do 2 eexists; split; reflexivity).
  rewrite (decode_step _ _ _ _ (mkStatement StatementTypeInToto [] "" r)).
  2:{ do 2 eexists. split; [reflexivity|]. exact (f_equal (mbind (λ r, Some _)) (into_record_json r rj Hok Er)). }
  rewrite (decode_step _ _ _ _ (mkStatement StatementTypeInToto [] PredicateTypeCLCDecision r)) by (do 2 eexists; split; reflexivity).
  set (a := mkSubject subjectNameAction _). set (b := mkSubject subjectNameInputs _).
  rewrite (decode_step _ _ _ _ (mkStatement StatementTypeInToto [a; b] PredicateTypeCLCDecision r)); [done|].
  do 2 eexists. split; [reflexivity|].
  assert (in_elems into_subject (mkSubject "" None) [] (jtext_of (AList (subject_json <$> [a; b]))) = Some [a; b]) as E.
  { apply in_elems_json.
    intros x Hx. rewrite !elem_of_cons in Hx. destruct Hx as [->|[->|[]%not_elem_of_nil]]; by apply into_subject_json. }
  exact (f_equal (mbind (λ l, Some (mkStatement StatementTypeInToto l PredicateTypeCLCDecision r))) E).
Qed.

Lemma record_in_range r j : inputs_ok (rc_inputs r) → record_json r = Some j → numbers_in_range j = true.
Proof.
  intros Hi. unfold record_json. destruct (inputs_json (rc_inputs r)) as [ij|] eqn:Ei; [|done]. cbn [mbind option_bind].
  intros; simplify_eq. pose proof (io_range _ Hi _ Ei) as Hr. pose proof (proj2 (plain_ok _ (plain_digest (rc_input_digest r)))) as Hd.
  assert (numbers_in_range (omitempty [member_strs "unresolved" (rc_unresolved r)]) = true) as Hu.
  { apply plain_ok. destruct (rc_unresolved r) as [|s l]; [done|]. cbn. rewrite andb_true_r. by induction l. }
  unfold omitempty at 1, member, member_str. cbn [numbers_in_range].
  destruct (String.eqb _ _); cbn -[digest_json omitempty member_strs]; by rewrite Hr, Hd, Hu.
Qed.

Lemma statement_in_range r st j :
  inputs_ok (rc_inputs r) → NewStatement r = inl st → statement_json st = Some j → numbers_in_range j = true.
Proof.
  intros Hi (op & alg & bytes & _ & _ & _ & ->)%NewStatement_inl. unfold statement_json. cbn [st_predicate].
  destruct (record_json r) as [rj|] eqn:Er; [|done]. cbn [mbind option_bind]. intros; simplify_eq.
  pose proof (record_in_range r rj Hi Er) as Hr. cbn. by rewrite Hr.
Qed.

Lemma NewEnvelope_statement r e :
  record_ok r → NewEnvelope r = inl e → ∃ st, NewStatement r = inl st ∧ env_Statement e = inl st ∧ en_signatures e = [].
Proof.
  intros Hok. unfold NewEnvelope. destruct (NewStatement r) as [st|] eqn:Es; [|done].
  destruct (statement_json st) as [j|] eqn:Ej; [|done]. destruct (CanonicalJSON j) as [text|] eqn:Et; [|done].
  intros [= <-]. exists st. split; [done|]. split; [|done].
  pose proof (CanonicalJSON_document j text Et (statement_in_range r st j (ro_inputs_ok r Hok) Es Ej)) as Hd.
  unfold env_Statement. cbn [en_payload_type en_payload]. rewrite String.eqb_refl. cbn [negb].
  destruct (String.length text =? 0)%nat eqn:El; [|by rewrite Hd; cbn [mbind option_bind]; rewrite (into_statement_json r st j Hok Es Ej)].
  apply Nat.eqb_eq in El. destruct text; [|discriminate El]. change (read_document "") with (@None jtext) in Hd. discriminate Hd.
Qed.

Lemma RecordWith_ok grants op opts r :
  inputs_ok (inputs_of grants op opts) → RecordWith grants op opts = Some (inl r) → record_ok r ∧ Verify r = None.
Proof.
  intros Hok Hr. destruct (RecordWith_frozen grants op opts r Hok Hr) as (j & text & Hj & Ht & E & Hv').
  split; [|done]. subst r. set (i := inputs_of grants op opts) in *.
  pose proof Ht as (Hv & _)%CanonicalJSON_ok. split; cbn [rc_inputs rc_input_digest rc_verdict].
  - by eapply inputs_ok_freeze.
  - by eapply freeze_inputs_idemp.
  - apply Sum256_bytes.
  - pose proof (AuthorizeSet_verdict (default [] (ri_grants (freeze_inputs i))) (freeze_operation op)) as Hin.
    rewrite !elem_of_cons in Hin. by destruct Hin as [->|[->|[->|[]%not_elem_of_nil]]].
Qed.

Lemma Check_NewEnvelope r e : record_ok r → NewEnvelope r = inl e →
  Check_envelope e = (EnvelopeRecord <$> Verify r) ∧ env_DecisionRecord e = inl r.
Proof.
  intros Hok He. destruct (NewEnvelope_statement r e Hok He) as (st & Hst & Hs & _).
  unfold Check_envelope, env_DecisionRecord. rewrite Hs.
  pose proof Hst as (op & alg & bytes & _ & _ & _ & ->)%NewStatement_inl. split; [|done].
  cbn [st_type st_predicate_type st_predicate st_subject]. rewrite !String.eqb_refl. cbn [negb guard check_seq].
  destruct (Verify r) as [err|]; [done|]. rewrite Hst. cbn [st_subject check_all fmap option_fmap option_map].
  rewrite !check_seq_None. cbn. by rewrite !String.eqb_refl.
Qed.

(** The signatures of an envelope do not enter its statement. *)
Lemma Check_signatures p t sigs sigs' : Check_envelope (mkEnvelope p t sigs) = Check_envelope (mkEnvelope p t sigs').
Proof. done. Qed.

Lemma some_signature_spec verify pae sigs :
  some_signature verify pae sigs = true ↔ ∃ s, s ∈ sigs ∧ sg_sig s ≠ [] ∧ verify (sg_keyid s) pae (sg_sig s) = None.
Proof.
  induction sigs as [|s sigs IH]; cbn [some_signature]; [split; [done|by intros (? & ?%not_elem_of_nil & _)]|].
  setoid_rewrite elem_of_cons. destruct (sg_sig s) as [|b l] eqn:Es; cbn [length Nat.eqb].
  - rewrite IH. split; [naive_solver|]. intros (s' & [->|?] & Hne & Hv); [done|eauto].
  - rewrite <- Es. destruct (verify (sg_keyid s) pae (sg_sig s)) as [err|] eqn:Ev.
    + rewrite IH. split; [naive_solver|]. intros (s' & [->|?] & Hne & Hv); [congruence|eauto].
    + split; [|done]. intros _. exists s. split; [by left|]. split; [congruence|done].
Qed.

(** C29: from a decision to evidence and back.  Take a record the program made from
    inputs whose numbers are finite binary64 values, whose maps have distinct keys
    and whose digests are bytes; the instant of its context is in UTC, its age and
    epoch are not negative, fit their types and are written digit for digit by the
    canonical form.  The envelope of the record opens to that record, field for
    field, and checking the envelope is checking the record: the envelope adds no
    refusal of its own.  After [Sign] with a primitive whose signatures are not empty
    and the verifier accepts, [VerifyRecord] answers what the verification of the
    record answers, and the record still comes out. *)
Theorem envelope_roundtrip grants op opts r e :
  inputs_ok (inputs_of grants op opts) → RecordWith grants op opts = Some (inl r) → NewEnvelope r = inl e →
  env_DecisionRecord e = inl r ∧ Check_envelope e = (EnvelopeRecord <$> Verify r) ∧
  ∀ keyID sign verify e', Sign e keyID (Some sign) = inl e' →
    (∀ pae sig, sign pae = inl sig → sig ≠ [] ∧ verify keyID pae sig = None) →
    VerifyRecord e' (Some verify) = (EnvelopeRecord <$> Verify r) ∧ env_DecisionRecord e' = inl r.
Proof.
  intros Hok Hr He. destruct (RecordWith_ok grants op opts r Hok Hr) as [Hrok _].
  destruct (Check_NewEnvelope r e Hrok He) as [Hc Hd]. do 2 (split; [done|]).
  intros keyID sign verify e' Hs Hsig. unfold Sign in Hs. destruct (sign _) as [sig|] eqn:Es; [|done]. simplify_eq.
  destruct (Hsig _ _ Es) as [Hne Hver]. split; [|done]. unfold VerifyRecord.
  cbn [en_signatures en_payload_type en_payload].
  rewrite (Check_signatures _ _ _ (en_signatures e)). replace (mkEnvelope _ _ _) with e by by destruct e. rewrite Hc.
  destruct (Verify r) as [err|]; [done|]. cbn [fmap option_fmap option_map]. rewrite !check_seq_None, !guard_None.
  split; [done|]. split; [rewrite length_app, Nat.add_comm; done|]. apply negb_false_iff, some_signature_spec.
  exists (mkSignature keyID sig). split; [set_solver|done].
Qed.

(** The digest a statement carries under a name: that of the first subject of
    that name. *)
Definition subject_digest (subjects : list Subject) (name alg : string) : option string :=
  s ← find (λ s, String.eqb (su_name s) name) subjects; mget alg (entries (su_digest s)).

Lemma matchSubject_None got n a v :
  matchSubject got (mkSubject n (Some [(a, v)])) = None → default "" (subject_digest got n a) = v.
Proof.
  unfold subject_digest. induction got as [|s got IH]; cbn; [done|]. destruct (String.eqb_spec (su_name s) n) as [E|E]; cbn.
  - by intros H%guard_None%negb_false_iff%String.eqb_eq.
  - by apply IH.
Qed.

(** C30: what an accepted envelope proves.  When [VerifyRecord] accepts, the payload
    decodes to a statement of this profile; one of the signatures, a non-empty one,
    verifies over the encoding of exactly this payload and type; the record inside
    verifies; and the statement names, under the digest algorithm of the record,
    the SHA-256 of the canonical form of the one operation the record decides and
    the record's own input digest.  Moving the statement of one decision onto the
    record of another is refused. *)
Theorem VerifyRecord_binds e verify :
  VerifyRecord e (Some verify) = None →
  ∃ st op alg bytes s,
    env_Statement e = inl st ∧ st_type st = StatementTypeInToto ∧ st_predicate_type st = PredicateTypeCLCDecision ∧
    Verify (st_predicate st) = None ∧ ri_operations (rc_inputs (st_predicate st)) = Some [op] ∧
    inTotoAlg (dg_alg (rc_input_digest (st_predicate st))) = inl alg ∧
    CanonicalJSON (AList [operation_json op]) = inl bytes ∧
    default "" (subject_digest (st_subject st) subjectNameAction alg) = sha256Hex bytes ∧
    default "" (subject_digest (st_subject st) subjectNameInputs alg) = hex_text (dg_value (rc_input_digest (st_predicate st))) ∧
    s ∈ en_signatures e ∧ sg_sig s ≠ [] ∧ verify (sg_keyid s) (PAE (en_payload_type e) (en_payload e)) (sg_sig s) = None.
Proof.
  unfold VerifyRecord, Check_envelope. rewrite !check_seq_None, !guard_None. intros (Hc & _ & Hs).
  destruct (env_Statement e) as [st|] eqn:Est; [|done]. rewrite !check_seq_None, !guard_None in Hc.
  destruct Hc as (H1%negb_false_iff%String.eqb_eq & H2%negb_false_iff%String.eqb_eq & Hc).
  destruct (Verify (st_predicate st)) eqn:Ev; [done|].
  destruct (NewStatement (st_predicate st)) as [want|] eqn:En; [|done].
  apply NewStatement_inl in En as (op & alg & bytes & Ho & Ha & Hb & ->).
  cbn [st_subject check_all] in Hc. apply check_seq_None in Hc as [Hc1 Hc]. apply check_seq_None in Hc as [Hc2 _].
  apply negb_false_iff, some_signature_spec in Hs as (s & Hs1 & Hs2 & Hs3).
  exists st, op, alg, bytes, s. split; [done|]. repeat (split; [done|]). split; [by apply matchSubject_None in Hc1|].
  split; [by apply matchSubject_None in Hc2|]. done.
Qed.

(** ** Witnesses *)

Definition w_envelope : Envelope := Eval vm_compute in
  match NewEnvelope w_record with inl e => e | inr _ => mkEnvelope "" "" [] end.
Definition w_sign (pae : string) : list Z + error := inl (Sum256 pae).
Definition w_verify (keyID pae : string) (sig : list Z) : option error :=
  if bool_decide (sig = Sum256 pae) then None else Some "bad signature".
Definition w_signed : Envelope := Eval vm_compute in
  match Sign w_envelope "key-1" (Some w_sign) with inl e => e | inr _ => w_envelope end.

Lemma w_record_verifies : Verify w_record = None.
Proof. vm_compute. reflexivity. Qed.

Lemma envelope_roundtrip_witness :
  env_DecisionRecord w_envelope = inl w_record ∧ VerifyRecord w_signed (Some w_verify) = None.
Proof.
  destruct (envelope_roundtrip (Some [w_grant]) w_op w_opts w_record w_envelope w_inputs_ok) as (H1 & _ & H2).
  - vm_compute. reflexivity.
  - vm_compute. reflexivity.
  - rewrite w_record_verifies in H2. split; [exact H1|]. apply (H2 "key-1" w_sign w_verify w_signed).
    + vm_compute. reflexivity.
    + intros pae sig. unfold w_sign. intros [= <-]. split.
      * pose proof (Sum256_length pae) as Hl. by destruct (Sum256 pae).
      * unfold w_verify. by rewrite bool_decide_eq_true_2.
Defined.

Lemma VerifyRecord_binds_witness :
  ∃ st, env_Statement w_signed = inl st ∧ Verify (st_predicate st) = None.
Proof.
  destruct (VerifyRecord_binds w_signed w_verify) as (st & op & alg & bytes & s & H1 & _ & _ & H2 & _).
  - vm_compute. reflexivity.
  - exists st. exact (conj H1 H2).
Defined.
