(* ===== verification/Challenge.v ===== *)
(** * Challenges

    semantics/challenge.go: what is still missing, for a requirement that was not
    met or a decision with residual obligations.  Errors are the sentinels of the
    file, or the error of the component that was called. *)

From S2P Require Import Prelude GoStrings GoFloat GoTime Json Canonical Ids Values Bounds.
From S2P Require Import JsonText JsonStruct GoTimeText Grants Authorize Constraints Decisions.
From S2P Require Import Obligations.
From S2P Require Import Evidence Sha256 Requirement Sources Context Utf NumberText.
From S2P Require Import CanonicalText RecordJson.

Definition ChallengeVersion : string := "CLC-CHALLENGE-v1".
Definition minChallengeNonceBytes : nat := 8.
Definition maxChallengeNonceBytes : nat := 128.
Definition maxChallengeJitterSec : Z := 300.

Inductive challenge_error :=
  | ErrChallengeShape | ErrChallengeExpired | ErrChallengeNotOutstanding | ErrChallengeRetryNotBefore
  | ChallengeOther (e : error).

Record ChallengeItem := mkItem { ci_id : string; ci_constraint : string; ci_reason : string }.
Record ObtainHint := mkHint { oh_id : string; oh_mechanism : string; oh_uri : string }.
(** An instant with its location: whether it is UTC, and the offset in seconds. *)
Record Instant := mkInstant { in_at : Time; in_utc : bool; in_off : Z }.
Definition UTC (i : Instant) : Instant := mkInstant (in_at i) true 0.
(** [Time.Add]; the seconds of an instant are an int64, which no sum of an instant
    of the calendar and a Duration leaves. *)
Definition Add (i : Instant) (d : Z) : Instant := mkInstant (in_at i + d) (in_utc i) (in_off i).
Record RetryTiming := mkRetry { rt_not_before : Instant; rt_jitter_sec : Z }.

Record Challenge := mkChallenge {
  ch_version : string;
  ch_id : string;
  ch_nonce : string;
  ch_audience : string;
  ch_action_digest : Digest;
  ch_requirement_id : string;
  ch_requirement_digest : option Digest;
  ch_required : list ChallengeItem;
  ch_obtain_hints : list ObtainHint;
  ch_retry : option RetryTiming;
  ch_expires_at : Instant
}.

Record ChallengeParams := mkParams {
  cp_id : string;
  cp_nonce : string;
  cp_audience : string;
  cp_action_digest : Digest;
  cp_now : Instant;
  cp_ttl : Z;
  cp_obtain_hints : list ObtainHint;
  cp_retry : option RetryTiming
}.

(** [Challenge.Authorizes]. *)
Definition Authorizes (c : Challenge) : bool := false.

(** [Challenge.Validate]. *)
Definition retry_check (expires : Instant) (r : RetryTiming) : option challenge_error :=
  guard (IsZero (in_at (rt_not_before r)) || negb (in_utc (rt_not_before r))) ErrChallengeShape ;;?
  guard ((rt_jitter_sec r <? 0) || (maxChallengeJitterSec <? rt_jitter_sec r)) ErrChallengeShape ;;?
  guard (After (in_at (rt_not_before r)) (in_at expires)) ErrChallengeShape.
Definition challenge_Validate (c : Challenge) : option challenge_error :=
  guard (negb (String.eqb (ch_version c) ChallengeVersion)) ErrChallengeShape ;;?
  guard (String.eqb (ch_id c) "") ErrChallengeShape ;;?
  guard ((String.length (ch_nonce c) <? minChallengeNonceBytes)%nat ||
         (maxChallengeNonceBytes <? String.length (ch_nonce c))%nat) ErrChallengeShape ;;?
  guard (negb (digestUsable (ch_action_digest c))) ErrChallengeShape ;;?
  match ch_requirement_digest c with
  | Some d => guard (negb (digestUsable d)) ErrChallengeShape
  | None => None
  end ;;?
  guard (length (ch_required c) =? 0)%nat ErrChallengeShape ;;?
  check_all (λ item, guard (String.eqb (ci_id item) "") ErrChallengeShape) (ch_required c) ;;?
  guard (IsZero (in_at (ch_expires_at c))) ErrChallengeShape ;;?
  guard (negb (in_utc (ch_expires_at c))) ErrChallengeShape ;;?
  match ch_retry c with Some r => retry_check (ch_expires_at c) r | None => None end.

(** [Challenge.Usable]. *)
Definition Usable (c : Challenge) (now : Time) : option challenge_error :=
  challenge_Validate c ;;?
  guard (negb (Before now (in_at (ch_expires_at c)))) ErrChallengeExpired ;;?
  match ch_retry c with
  | Some r => guard (Before now (in_at (rt_not_before r))) ErrChallengeRetryNotBefore
  | None => None
  end.

(** ** The order of the items *)

Definition item_less (a b : ChallengeItem) : bool :=
  if negb (String.eqb (ci_id a) (ci_id b)) then String.ltb (ci_id a) (ci_id b)
  else if negb (String.eqb (ci_constraint a) (ci_constraint b)) then String.ltb (ci_constraint a) (ci_constraint b)
  else String.ltb (ci_reason a) (ci_reason b).
Definition item_le (a b : ChallengeItem) : Prop := item_less b a = false.
#[global] Instance item_le_dec : RelDecision item_le.
Proof. intros a b. unfold item_le. apply _. Defined.
Definition sortedChallengeItems (items : list ChallengeItem) : list ChallengeItem := merge_sort item_le items.

(** ** Building *)

Definition role_item (role : string) : ChallengeItem := mkItem role "" "role_unfilled".
Definition evaluation_item (e : EvidenceEvaluation) : ChallengeItem := mkItem (ev_constraint e) (ev_constraint e) (ev_reason e).
(** The items of the two loops. *)
Definition outstanding (result : RequirementResult) : list ChallengeItem :=
  (role_item <$> rr_missing result) ++
  (evaluation_item <$> List.filter (λ e, negb (bool_decide (ev_verdict e = EvidenceSatisfied))) (rr_constraints result)).

Definition validated (c : Challenge) : Challenge + challenge_error :=
  match challenge_Validate c with Some e => inr e | None => inl c end.

Definition BuildChallengeFromRequirement (req : Requirement) (result : RequirementResult) (params : ChallengeParams) :
    Challenge + challenge_error :=
  match Requirement.Validate req with
  | Some e => inr (ChallengeOther e)
  | None =>
      if bool_decide (rr_verdict result = EvidenceSatisfied) then inr ErrChallengeNotOutstanding
      else if (length (outstanding result) =? 0)%nat then inr ErrChallengeNotOutstanding
      else
        match req_Digest req with
        | inr e => inr (ChallengeOther e)
        | inl digest =>
            validated (mkChallenge ChallengeVersion (cp_id params) (cp_nonce params) (cp_audience params)
              (cp_action_digest params) (req_id req) (Some digest) (sortedChallengeItems (outstanding result))
              (cp_obtain_hints params) (cp_retry params) (Add (UTC (cp_now params)) (cp_ttl params)))
        end
  end.

(** The loop over the obligations. *)
Fixpoint obligation_items (l : list string) : list ChallengeItem + challenge_error :=
  match l with
  | [] => inl []
  | o :: l' =>
      match ConstraintIdentity o with
      | inr e => inr (ChallengeOther e)
      | inl ident =>
          match obligation_items l' with
          | inr e => inr e
          | inl items => inl (mkItem ident o "obligation_undischarged" :: items)
          end
      end
  end.

Definition BuildChallengeFromDecision (d : Decision) (params : ChallengeParams) : Challenge + challenge_error :=
  match checkDecisionShape d with
  | Some e => inr (ChallengeOther e)
  | None =>
      match d_verdict d with
      | VerdictAllowUR =>
          match obligation_items (d_unresolved d) with
          | inr e => inr e
          | inl items =>
              validated (mkChallenge ChallengeVersion (cp_id params) (cp_nonce params) (cp_audience params)
                (cp_action_digest params) "" None (sortedChallengeItems items)
                (cp_obtain_hints params) (cp_retry params) (Add (UTC (cp_now params)) (cp_ttl params)))
          end
      | _ => inr ErrChallengeNotOutstanding
      end
  end.

(** ** The digest *)

Definition item_json (i : ChallengeItem) : any :=
  omitempty [member_str "constraint" (ci_constraint i); member "id" (AStr (ci_id i)); member_str "reason" (ci_reason i)].
Definition hint_json (h : ObtainHint) : any :=
  omitempty [member "id" (AStr (oh_id h)); member_str "mechanism" (oh_mechanism h); member_str "uri" (oh_uri h)].
Definition instant_json (i : Instant) : option any := AStr <$> time_text (in_at i) (in_off i).
Definition retry_json (r : RetryTiming) : option any :=
  t ← instant_json (rt_not_before r); Some (omitempty [member_int "jitter_sec" (rt_jitter_sec r); member "not_before" t]).
Definition challenge_json (c : Challenge) : option any :=
  retry ← match ch_retry c with None => Some None | Some r => j ← retry_json r; Some (Some j) end;
  expires ← instant_json (ch_expires_at c);
  Some (omitempty
    [member "@version" (AStr (ch_version c)); member "action_digest" (digest_json (ch_action_digest c));
     member_str "audience" (ch_audience c); member "challenge_id" (AStr (ch_id c)); member "expires_at" expires;
     member "nonce" (AStr (ch_nonce c));
     match ch_obtain_hints c with [] => None | l => member "obtain_hints" (AList (hint_json <$> l)) end;
     member "required" (match ch_required c with [] => ANil | l => AList (item_json <$> l) end);
     member_digest "requirement_digest" (ch_requirement_digest c); member_str "requirement_id" (ch_requirement_id c);
     (λ j, ("retry_timing", j)) <$> retry]).

(** [DigestOf] of a value with instants in it. *)
Definition digest_of_time_json (j : option any) : result Digest :=
  match j with None => inr "json: error calling MarshalJSON for type time.Time" | Some j => DigestOf j end.

(** [Challenge.Digest]. *)
Definition challenge_Digest (c : Challenge) : Digest + challenge_error :=
  match challenge_Validate c with
  | Some e => inr e
  | None => match digest_of_time_json (challenge_json c) with inl d => inl d | inr e => inr (ChallengeOther e) end
  end.

(** [DecisionContext.Digest] of context.go. *)
Definition context_Digest (c : DecisionContext) : Digest + (context_error + error) :=
  match context_Validate c with
  | Some e => inr (inl e)
  | None => match digest_of_time_json (context_json c) with inl d => inl d | inr e => inr (inr e) end
  end.

(** ** The order is a total order *)

Lemma ltb_false_le x y : String.ltb y x = false ↔ String.le x y.
Proof.
  unfold String.le, String.ltb, String.leb. rewrite (String.compare_antisym x y).
  destruct (String.compare y x); cbn; split; done.
Qed.

Lemma item_le_spec a b :
  item_le a b ↔ String.le (ci_id a) (ci_id b) ∧
    (ci_id a = ci_id b → String.le (ci_constraint a) (ci_constraint b) ∧
      (ci_constraint a = ci_constraint b → String.le (ci_reason a) (ci_reason b))).
Proof.
  unfold item_le, item_less.
  destruct (String.eqb_spec (ci_id b) (ci_id a)) as [E|E]; cbn [negb].
  - destruct (String.eqb_spec (ci_constraint b) (ci_constraint a)) as [E'|E']; cbn [negb]; rewrite ltb_false_le.
    + rewrite E, E'. split; [done|]. intros [_ H]. by apply H.
    + rewrite E. split; [|by intros [_ H]; apply H]. intros H. split; [done|]. intros _. split; [done|congruence].
  - rewrite ltb_false_le. split; [|by intros []]. intros H. split; [done|]. congruence.
Qed.

#[global] Instance item_le_trans : Transitive item_le.
Proof.
  intros a b c. rewrite !item_le_spec. intros [H1 H1'] [H2 H2']. split; [by trans (ci_id b)|]. intros E.
  assert (ci_id a = ci_id b) as Eab by (apply (anti_symm String.le); [done|by rewrite E]).
  destruct (H1' Eab) as [H3 H3'], (H2' ltac:(congruence)) as [H4 H4']. split; [by trans (ci_constraint b)|]. intros E'.
  assert (ci_constraint a = ci_constraint b) as Ec by (apply (anti_symm String.le); [done|by rewrite E']).
  trans (ci_reason b); [by apply H3'|apply H4'; congruence].
Qed.

#[global] Instance item_le_antisymm : AntiSymm eq item_le.
Proof.
  intros [a b c] [a' b' c']. rewrite !item_le_spec. cbn. intros [H1 H1'] [H2 H2'].
  assert (a = a') as -> by (by apply (anti_symm String.le)). destruct (H1' eq_refl) as [H3 H3'], (H2' eq_refl) as [H4 H4'].
  assert (b = b') as -> by (by apply (anti_symm String.le)). f_equal. apply (anti_symm String.le); auto.
Qed.

#[global] Instance item_le_total : Total item_le.
Proof.
  intros a b. rewrite !item_le_spec. destruct (total String.le (ci_id a) (ci_id b)) as [H|H];
    (destruct (String.eqb_spec (ci_id a) (ci_id b)) as [E|E]; [|(left + right); split; congruence || done]).
  all: destruct (total String.le (ci_constraint a) (ci_constraint b)) as [H'|H'];
    (destruct (String.eqb_spec (ci_constraint a) (ci_constraint b)) as [E'|E'];
       [|(left + right); split; [by rewrite E|split; congruence || done]]).
  all: destruct (total String.le (ci_reason a) (ci_reason b)); [left|right]; rewrite E, E'; done.
Qed.

(** The same items in any order give the same list. *)
Lemma sortedChallengeItems_perm l l' : l ≡ₚ l' → sortedChallengeItems l = sortedChallengeItems l'.
Proof.
  intros H. apply (Sorted_unique item_le); [apply Sorted_merge_sort, _..|]. unfold sortedChallengeItems.
  by rewrite !merge_sort_Permutation.
Qed.

Lemma sorted_items_elem x l : x ∈ sortedChallengeItems l ↔ x ∈ l.
Proof. unfold sortedChallengeItems. by rewrite merge_sort_Permutation. Qed.

Lemma sorted_items_length l : length (sortedChallengeItems l) = length l.
Proof. unfold sortedChallengeItems. apply Permutation_length, merge_sort_Permutation. Qed.

(** ** An unmet requirement always has an outstanding item, and every item a name *)

Lemma emit_words cur ts : Forall (.≠ "") ts → Forall (.≠ "") (emit cur ts).
Proof. destruct cur; [done|]. by constructor. Qed.

Lemma scan_words s : ∀ cur ts, scan cur s = inl ts → Forall (.≠ "") ts.
Proof.
  induction s as [s IH] using (induction_ltof1 _ String.length); unfold ltof in IH. destruct s as [|c s]; intros cur ts; cbn [scan].
  - intros [= <-]. by apply emit_words.
  - assert (∀ k, (let! ts := scan "" s in inl (emit cur (k ++ ts))) = inl ts → Forall (.≠ "") k → Forall (.≠ "") ts) as Hk.
    { intros k (us & Hs & [= <-])%rbind_inl Hf. apply emit_words, list.Forall_app. split; [done|]. eapply IH; [|done]. cbn. lia. }
    destruct (isIdentByte c); [apply IH; cbn; lia|]. destruct (is_blank c); [intros H; by apply (Hk [])|].
    destruct (_ || _); [intros H; apply (Hk [String c ""]); [done|by constructor]|]. destruct (_ || _); [|done].
    destruct s as [|c' s']; [done|]. destruct (Ascii.eqb c' c); [|done]. intros (us & Hs & [= <-])%rbind_inl.
    apply emit_words. constructor; [done|]. eapply IH; [|done]. cbn. lia.
Qed.

Lemma parse_words f :
  (∀ d ts n e ts' n', parseTerm f d ts n = Some (inl (e, (ts', n'))) →
     Forall (.≠ "") ts → Forall (.≠ "") (roles e) ∧ Forall (.≠ "") ts') ∧
  (∀ d ts n e ts' n', parseExpr f d ts n = Some (inl (e, (ts', n'))) →
     Forall (.≠ "") ts → Forall (.≠ "") (roles e) ∧ Forall (.≠ "") ts') ∧
  (∀ d l ts n e ts' n', parseRest f d l ts n = Some (inl (e, (ts', n'))) →
     Forall (.≠ "") (roles l) → Forall (.≠ "") ts → Forall (.≠ "") (roles e) ∧ Forall (.≠ "") ts').
Proof.
  induction f as [|f (IT & IE & IR)]; [done|]. split_and!.
  - intros d ts n e ts' n'. cbn [parseTerm]. destruct ts as [|tok ts]; [done|].
    destruct (String.eqb tok "(").
    + intros (y & ts1 & n1 & H1 & H)%pbind_Some Hf. apply list.Forall_cons in Hf as [_ Hf].
      destruct (IE _ _ _ _ _ _ H1 Hf) as [? Ht]. destruct ts1 as [|t ts1]; [done|]. apply list.Forall_cons in Ht as [_ Ht].
      destruct (String.eqb t ")"); by simplify_eq.
    + destruct (_ || _); intros; simplify_eq. match goal with H : Forall _ (_ :: _) |- _ => apply list.Forall_cons in H as [? ?] end.
      split; [by constructor|done].
  - intros d ts n e ts' n'. cbn [parseExpr]. destruct (_ <? _); [done|].
    intros (y & ts1 & n1 & H1 & H)%pbind_Some Hf. destruct (IT _ _ _ _ _ _ H1 Hf). by eapply IR.
  - intros d l ts n e ts' n'. cbn [parseRest]. destruct ts as [|tok ts]; [intros; by simplify_eq|].
    destruct (requirementOperator tok) as [op|]; [|intros; by simplify_eq].
    intros (y & ts1 & n1 & H1 & H)%pbind_Some Hl [_ Hf]%list.Forall_cons. destruct (_ <? _); [done|].
    destruct (IT _ _ _ _ _ _ H1 Hf) as [Hr Hf']. apply IR in H; [done| |done]. cbn. by apply list.Forall_app.
Qed.

(** The roles of an expression are identifiers. *)
Lemma parsed_roles s e : parseRequirementExpression s = inl e → Forall (.≠ "") (roles e).
Proof.
  unfold parseRequirementExpression, tokenizeRequirement. destruct (String.eqb _ _); [done|].
  intros (ts & (us & Hs & Hu)%rbind_inl & Hp)%rbind_inl. assert (us = ts) as -> by (destruct us; [done|by simplify_eq]).
  unfold parse_tokens in Hp. destruct (parseExpr _ _ _ _) as [[[e' [rest n]]|]|] eqn:E; [|done..].
  destruct rest; [|done]. simplify_eq. destruct (parse_words (parse_fuel ts)) as (_ & IE & _).
  apply (IE _ _ _ _ _ _ E). by eapply scan_words.
Qed.

(** Expressions have no negation. *)
Lemma eval_false_role p e : eval p e = false → ∃ r, r ∈ roles e ∧ p r = false.
Proof.
  induction e as [r|[] l IHl r IHr]; cbn.
  - intros H. exists r. split; [set_solver|done].
  - intros [H|H]%andb_false_iff; [destruct (IHl H)|destruct (IHr H)]; set_solver.
  - intros [H _]%orb_false_iff. destruct (IHl H). set_solver.
Qed.

Lemma EvaluateRequirement_outstanding req facts ctx res expr :
  EvaluateRequirement req facts ctx = inl res → parseRequirementExpression (req_expression req) = inl expr →
  req_Digest req = inl (rr_digest res) ∧
  ∀ role, role ∈ rr_missing res ↔ rr_expression res = false ∧ role ∈ roles expr ∧ present facts role = false.
Proof.
  unfold EvaluateRequirement. rewrite rguard_inl. intros [_ H] He. apply rbind_inl in H as (dg & Hd & H).
  rewrite He in H. cbn [rbind] in H. apply rbind_inl in H as (es & _ & [= <-]). cbn [rr_digest rr_missing rr_expression].
  split; [done|]. intros role. destruct (eval _ _); [set_solver|]. unfold Roles. rewrite He. cbn [rbind].
  rewrite list_elem_of_In, filter_In, <- list_elem_of_In, sorted_dedup_elem, negb_true_iff. naive_solver.
Qed.

Lemma ValidateEvidenceConstraint_name c : ValidateEvidenceConstraint c = None → c ≠ "".
Proof. by intros H ->. Qed.

Lemma evaluate_constraint c facts ctx : ev_constraint (evaluate c facts ctx) = c.
Proof. unfold evaluate. repeat case_match; done. Qed.

(** What is outstanding after an evaluation. *)
Lemma outstanding_elem res item :
  item ∈ outstanding res ↔
  (∃ role, role ∈ rr_missing res ∧ item = role_item role) ∨
  (∃ e, e ∈ rr_constraints res ∧ ev_verdict e ≠ EvidenceSatisfied ∧ item = evaluation_item e).
Proof.
  unfold outstanding. rewrite elem_of_app, !list_elem_of_fmap. setoid_rewrite list_elem_of_In at 2.
  setoid_rewrite filter_In. setoid_rewrite <- list_elem_of_In. setoid_rewrite negb_true_iff.
  setoid_rewrite bool_decide_eq_false. naive_solver.
Qed.

Lemma outstanding_named req facts ctx res :
  EvaluateRequirement req facts ctx = inl res → Forall (λ i, ci_id i ≠ "") (outstanding res).
Proof.
  intros H. pose proof H as (expr & Hv & He & _ & Hc & _)%EvaluateRequirement_inl.
  destruct (EvaluateRequirement_outstanding _ _ _ _ _ H He) as [_ Hm]. apply list.Forall_forall. intros item.
  rewrite outstanding_elem. intros [(role & Hr & ->)|(e & Hin & _ & ->)].
  - apply Hm in Hr as (_ & Hr & _). apply parsed_roles in He. rewrite list.Forall_forall in He. cbn. auto.
  - rewrite Hc in Hin. apply list_elem_of_fmap in Hin as (c & -> & Hin). cbn. rewrite evaluate_constraint.
    apply ValidateEvidenceConstraint_name. unfold Requirement.Validate in Hv. rewrite !check_seq_None in Hv.
    destruct Hv as (_ & _ & _ & _ & Hv). apply check_constraints_valid in Hv. rewrite list.Forall_forall in Hv. auto.
Qed.

Lemma outstanding_exists req facts ctx res :
  EvaluateRequirement req facts ctx = inl res → rr_verdict res ≠ EvidenceSatisfied → outstanding res ≠ [].
Proof.
  intros H Hn. pose proof H as (expr & Hv & He & Hx & Hc & Hver)%EvaluateRequirement_inl.
  destruct (EvaluateRequirement_outstanding _ _ _ _ _ H He) as [_ Hm].
  assert (∃ item, item ∈ outstanding res) as [i Hi]; [|intros E; rewrite E in Hi; by apply not_elem_of_nil in Hi].
  setoid_rewrite outstanding_elem. rewrite Hver in Hn. destruct (rr_expression res) eqn:Ex.
  - cbn [negb] in Hn. rewrite orb_false_r in Hn.
    assert (∃ e, e ∈ rr_constraints res ∧ ev_verdict e ≠ EvidenceSatisfied) as (e & Hin & Hs); [|by exists (evaluation_item e); eauto].
    destruct (any_verdict EvidenceViolated _) eqn:E1.
    + apply any_verdict_true in E1 as (e & Hin & E). exists e. split; [done|]. by rewrite E.
    + destruct (any_verdict EvidenceUnknown _) eqn:E2; [|done].
      apply any_verdict_true in E2 as (e & Hin & E). exists e. split; [done|]. by rewrite E.
  - symmetry in Hx. destruct (eval_false_role _ _ Hx) as (r & Hr & Hp). exists (role_item r). left. exists r.
    split; [|done]. by apply Hm.
Qed.

(** ** Theorems *)

(** What a challenge asks of the caller's parameters. *)
Record params_ok (p : ChallengeParams) : Prop := {
  po_id : cp_id p ≠ "";
  po_nonce : (minChallengeNonceBytes <= String.length (cp_nonce p) <= maxChallengeNonceBytes)%nat;
  po_action : digestUsable (cp_action_digest p) = true;
  po_expires : in_at (cp_now p) + cp_ttl p ≠ 0;
  po_retry : ∀ r, cp_retry p = Some r →
    in_at (rt_not_before r) ≠ 0 ∧ in_utc (rt_not_before r) = true ∧ 0 <= rt_jitter_sec r <= maxChallengeJitterSec ∧
    in_at (rt_not_before r) <= in_at (cp_now p) + cp_ttl p
}.

Lemma retry_check_None e r :
  retry_check e r = None ↔
  in_at (rt_not_before r) ≠ 0 ∧ in_utc (rt_not_before r) = true ∧ 0 <= rt_jitter_sec r <= maxChallengeJitterSec ∧
  in_at (rt_not_before r) <= in_at e.
Proof.
  unfold retry_check, IsZero, After. rewrite !check_seq_None, !guard_None, !orb_false_iff, negb_false_iff.
  rewrite Z.eqb_neq, !Z.ltb_ge. naive_solver.
Qed.

(** Both builders end with this challenge. *)
Definition challenge_of (p : ChallengeParams) (rid : string) (rd : option Digest) (items : list ChallengeItem) : Challenge :=
  mkChallenge ChallengeVersion (cp_id p) (cp_nonce p) (cp_audience p) (cp_action_digest p) rid rd
    (sortedChallengeItems items) (cp_obtain_hints p) (cp_retry p) (Add (UTC (cp_now p)) (cp_ttl p)).

Lemma challenge_of_valid p rid rd items :
  items ≠ [] → Forall (λ i, ci_id i ≠ "") items → (∀ d, rd = Some d → digestUsable d = true) →
  challenge_Validate (challenge_of p rid rd items) = None ↔ params_ok p.
Proof.
  intros Hne Hn Hd. unfold challenge_Validate, challenge_of.
  cbn [ch_version ch_id ch_nonce ch_action_digest ch_requirement_digest ch_required ch_retry ch_expires_at].
  rewrite !check_seq_None, !guard_None, String.eqb_refl, orb_false_iff, !Nat.ltb_ge, negb_false_iff, String.eqb_neq.
  assert (match rd with Some d => guard (negb (digestUsable d)) ErrChallengeShape | None => None end = None) as ->.
  { destruct rd as [d|]; [|done]. rewrite (Hd d eq_refl). done. }
  rewrite sorted_items_length. assert ((length items =? 0)%nat = false) as -> by (by destruct items).
  assert (check_all (λ i, guard (String.eqb (ci_id i) "") ErrChallengeShape) (sortedChallengeItems items) = None) as ->.
  { apply check_all_None. intros i Hi. rewrite sorted_items_elem in Hi. rewrite list.Forall_forall in Hn.
    apply guard_None, String.eqb_neq, Hn, Hi. }
  cbn [Add UTC in_at in_utc negb]. unfold IsZero. rewrite Z.eqb_neq.
  assert (match cp_retry p with Some r => retry_check (Add (UTC (cp_now p)) (cp_ttl p)) r | None => None end = None ↔
    ∀ r, cp_retry p = Some r → retry_check (Add (UTC (cp_now p)) (cp_ttl p)) r = None) as ->.
  { destruct (cp_retry p) as [r0|]; [|done]. split; [intros H r [= <-]; exact H|by intros H; apply H]. }
  setoid_rewrite retry_check_None. cbn [Add UTC in_at]. split.
  - intros (_ & H1 & H2 & H3 & _ & _ & _ & H4 & _ & H5). apply negb_false_iff in H3. by split.
  - intros [H1 H2 H3 H4 H5]. rewrite H3. do 9 (split; [done|]). done.
Qed.

Lemma validated_inl c c' : validated c = inl c' ↔ c' = c ∧ challenge_Validate c = None.
Proof. unfold validated. destruct (challenge_Validate c); naive_solver. Qed.

(** Every refusal of [Validate] is a shape error. *)
Definition shape_only (c : option challenge_error) : Prop := ∀ e, c = Some e → e = ErrChallengeShape.
Lemma shape_guard b : shape_only (guard b ErrChallengeShape).
Proof. intros e. destruct b; [by intros [= <-]|done]. Qed.
Lemma shape_seq c1 c2 : shape_only c1 → shape_only c2 → shape_only (c1 ;;? c2).
Proof. intros H1 H2 e. rewrite check_seq_Some. intros [H|[_ H]]; auto. Qed.

Lemma Validate_shape c : shape_only (challenge_Validate c).
Proof.
  unfold challenge_Validate, retry_check.
  repeat first [apply shape_guard|apply shape_seq]; try done; repeat case_match;
    repeat first [apply shape_guard|apply shape_seq]; try done.
  intros e (i & _ & Hi)%check_all_Some. by eapply shape_guard.
Qed.

Lemma req_Digest_usable req d : req_Digest req = inl d → digestUsable d = true.
Proof.
  unfold req_Digest, DigestOf. destruct (Requirement.Validate req); [done|]. destruct (CanonicalJSON _) as [t|]; [|done].
  intros [= <-]. unfold digestUsable. cbn [dg_alg dg_value]. pose proof (Sum256_length t). by destruct (Sum256 t).
Qed.

(** C33: an unmet requirement is always answered with what would meet it.  A
    challenge for an evaluation is refused as not outstanding exactly when the
    evaluation is satisfied; otherwise it is built for every well-formed set of
    caller parameters (and refused as malformed for the others).  The challenge is
    bound to the caller's action digest and to the requirement's digest, and its
    items are exactly the roles of the expression nobody filled, where the
    expression fails, and the constraints that are not satisfied. *)
Theorem requirement_challenge_complete req facts ctx res params :
  EvaluateRequirement req facts ctx = inl res →
  let built := BuildChallengeFromRequirement req res params in
  (built = inr ErrChallengeNotOutstanding ↔ rr_verdict res = EvidenceSatisfied) ∧
  (rr_verdict res ≠ EvidenceSatisfied →
     (params_ok params ↔ ∃ c, built = inl c) ∧ (built = inr ErrChallengeShape ↔ ¬ params_ok params)) ∧
  ∀ c, built = inl c →
    challenge_Validate c = None ∧ ch_action_digest c = cp_action_digest params ∧
    ch_requirement_digest c = Some (rr_digest res) ∧
    ∀ item, item ∈ ch_required c ↔
      (rr_expression res = false ∧ ∃ expr role, parseRequirementExpression (req_expression req) = inl expr ∧
         role ∈ roles expr ∧ present facts role = false ∧ item = role_item role) ∨
      (∃ k, k ∈ req_constraints req ∧
         let e := evaluate (rc_constraint k) (EvidenceFactsOfRole facts (rc_role k)) ctx in
         ev_verdict e ≠ EvidenceSatisfied ∧ item = evaluation_item e).
Proof.
  intros H built. pose proof H as (expr & Hv & He & _ & Hc & _)%EvaluateRequirement_inl.
  destruct (EvaluateRequirement_outstanding _ _ _ _ _ H He) as [Hd Hm].
  pose proof (outstanding_exists _ _ _ _ H) as Hne. pose proof (outstanding_named _ _ _ _ H) as Hn.
  assert (rr_verdict res ≠ EvidenceSatisfied →
    built = validated (challenge_of params (req_id req) (Some (rr_digest res)) (outstanding res))) as Hb.
  { intros Hs. unfold built, BuildChallengeFromRequirement. rewrite Hv, bool_decide_eq_false_2, Hd by done.
    specialize (Hne Hs). by destruct (outstanding res). }
  pose proof (λ Hs, challenge_of_valid params (req_id req) (Some (rr_digest res)) _ (Hne Hs) Hn) as Hval.
  destruct (decide (rr_verdict res = EvidenceSatisfied)) as [Es|Es].
  { assert (built = inr ErrChallengeNotOutstanding) as ->.
    { unfold built, BuildChallengeFromRequirement. by rewrite Hv, bool_decide_eq_true_2. }
    split; [done|]. split; [done|]. done. }
  rewrite (Hb Es). specialize (Hval Es). rewrite <- Hval by (intros d [= <-]; by eapply req_Digest_usable).
  unfold validated. set (c0 := challenge_of _ _ _ _). pose proof (Validate_shape c0) as Hsh.
  split; [destruct (challenge_Validate c0) as [e|]; [rewrite (Hsh e eq_refl)|]; by split|].
  split; [intros _; destruct (challenge_Validate c0) as [e|]; [rewrite (Hsh e eq_refl)|]; naive_solver|].
  intros c. destruct (challenge_Validate c0) eqn:Ec; [done|]. intros [= <-]. split; [done|]. split; [done|]. split; [done|].
  intros item. cbn [c0 challenge_of ch_required]. rewrite sorted_items_elem, outstanding_elem, Hc. setoid_rewrite Hm.
  setoid_rewrite list_elem_of_fmap. split.
  - intros [(role & (? & ? & ?) & ->)|(e & (k & -> & Hk) & ? & ->)]; [left|right]; eauto 10.
  - intros [(? & expr' & role & E' & ? & ? & ->)|(k & Hk & ? & ->)]; [left|right; by eauto 10].
    assert (expr' = expr) as -> by congruence. eauto 10.
Qed.

Lemma obligation_items_total l :
  (∀ c, c ∈ l → ∃ id, ConstraintIdentity c = inl id) →
  ∃ items, obligation_items l = inl items ∧ length items = length l ∧
    ∀ i, i ∈ items ↔ ∃ o id, o ∈ l ∧ ConstraintIdentity o = inl id ∧ i = mkItem id o "obligation_undischarged".
Proof.
  induction l as [|o l IH]; intros H; cbn [obligation_items].
  - exists []. split; [done|]. split; [done|]. intros i. split; [by intros ?%not_elem_of_nil|].
    intros (o & id & Ho & _). by apply not_elem_of_nil in Ho.
  - destruct (H o ltac:(set_solver)) as [id Hid]. rewrite Hid.
    destruct IH as (items & -> & Hl & Hi); [intros c Hc; apply H; set_solver|]. eexists. split; [reflexivity|]. split; [cbn; lia|].
    intros i. rewrite elem_of_cons, Hi. setoid_rewrite elem_of_cons. split.
    + intros [->|(o' & id' & ? & ? & ->)]; eauto 10.
    + intros (o' & id' & [->|?] & E & ->); [left; congruence|right; eauto 10].
Qed.

Lemma ConstraintIdentity_name c id : ConstraintIdentity c = inl id → id ≠ "".
Proof.
  unfold ConstraintIdentity, identity_of. destruct (_ || _) eqn:E; [done|]. do 2 (destruct (negb _); [done|]). intros [= <-].
  apply orb_false_iff in E as [[_ E]%orb_false_iff _]. by destruct (nth_part (Split colon c) 0).
Qed.

(** Residual obligations are handed on in full.  For a well-formed decision a
    challenge is refused as not outstanding exactly when nothing is left to
    discharge; otherwise it is built for every well-formed set of parameters, and
    its items name every residual obligation with its identity, and nothing else.
    It may drive a retry at exactly the instants from its retry time up to, and
    without, its expiry; it authorizes nothing. *)
Lemma decision_challenge_complete d params :
  shape_ok d →
  let built := BuildChallengeFromDecision d params in
  (built = inr ErrChallengeNotOutstanding ↔ d_verdict d ≠ VerdictAllowUR) ∧
  (d_verdict d = VerdictAllowUR → params_ok params ↔ ∃ c, built = inl c) ∧
  ∀ c, built = inl c →
    (∀ i, i ∈ ch_required c ↔
       ∃ o id, o ∈ d_unresolved d ∧ ConstraintIdentity o = inl id ∧ i = mkItem id o "obligation_undischarged") ∧
    (∀ now, Usable c now = None ↔
       now < in_at (cp_now params) + cp_ttl params ∧
       ∀ r, cp_retry params = Some r → in_at (rt_not_before r) <= now) ∧
    Authorizes c = false.
Proof.
  intros Hs built. pose proof Hs as [Hid Hv]. unfold built, BuildChallengeFromDecision.
  rewrite (proj2 (checkDecisionShape_None d) Hs). destruct (d_verdict d) eqn:Ev; [done|done| |done].
  destruct (obligation_items_total _ Hid) as (items & -> & Hl & Hi). fold (challenge_of params "" None items).
  assert (challenge_Validate (challenge_of params "" None items) = None ↔ params_ok params) as Hval.
  { apply challenge_of_valid; [|apply list.Forall_forall|done].
    - intros ->. by destruct (d_unresolved d).
    - intros i (o & id & _ & Ho & ->)%Hi. cbn. by eapply ConstraintIdentity_name. }
  rewrite <- Hval. set (c0 := challenge_of _ _ _ _) in *. unfold validated.
  destruct (challenge_Validate c0) as [e|] eqn:Ec.
  { rewrite (Validate_shape c0 e Ec). split; [done|]. split; [|done]. split; [done|]. by intros [].  }
  split; [done|]. split; [split; eauto|]. intros c [= <-]. split; [|split; [|done]].
  - intros i. cbn [c0 challenge_of ch_required]. by rewrite sorted_items_elem, Hi.
  - intros now. unfold Usable. rewrite Ec, !check_seq_None, !guard_None. unfold Before.
    cbn [c0 challenge_of ch_expires_at ch_retry Add UTC in_at]. rewrite negb_false_iff, Z.ltb_lt.
    split; [intros (_ & H1 & H2)|intros [H1 H2]]; (split; [done|]).
    + intros r Er. rewrite Er, guard_None, Z.ltb_ge in H2. done.
    + split; [done|]. destruct (cp_retry params) as [r|] eqn:Er; [|done]. apply guard_None, Z.ltb_ge. auto.
Qed.

(** ** Witnesses *)

Definition w_challenge_params : ChallengeParams :=
  mkParams "ch-1" "0123456789" "aud" (mkDigest "sha-256" [1; 2; 3]) (mkInstant (63900000000 * Second) false 3600)
    (300 * Second) [] (Some (mkRetry (mkInstant (63900000010 * Second) true 0) 5)).

Lemma w_challenge_params_ok : params_ok w_challenge_params.
Proof.
  split.
  - done.
  - vm_compute. lia.
  - done.
  - vm_compute. discriminate.
  - intros r E. injection E as <-. vm_compute. intuition discriminate.
Defined.

Lemma requirement_challenge_complete_witness :
  ∃ res c, EvaluateRequirement w_req [] w_ctx = inl res ∧
    BuildChallengeFromRequirement w_req res w_challenge_params = inl c ∧ ch_required c ≠ [].
Proof.
  destruct (EvaluateRequirement w_req [] w_ctx) as [res|] eqn:E; [|vm_compute in E; discriminate E].
  assert (rr_verdict res ≠ EvidenceSatisfied) as Hn by (vm_compute in E; injection E as <-; discriminate).
  destruct (requirement_challenge_complete w_req [] w_ctx res w_challenge_params E) as (_ & H2 & H3).
  destruct (proj1 (proj1 (H2 Hn)) w_challenge_params_ok) as [c Hc].
  exists res, c. split; [reflexivity|]. split; [exact Hc|]. intros En. destruct (H3 c Hc) as (Hv & _).
  revert Hv. unfold challenge_Validate. rewrite En. rewrite !check_seq_None. intros (_ & _ & _ & _ & _ & Hv & _). discriminate Hv.
Defined.

Definition w_residual : Decision := mkDecision VerdictAllowUR "" ["varwof/constraint-v1:time:window:utc:0900-1700"].

Lemma w_residual_shape : shape_ok w_residual.
Proof. apply checkDecisionShape_None. vm_compute. reflexivity. Defined.

