(* ===== verification/Domains.v ===== *)
(** * Declared parameter domains

    semantics/domains.go: the pre-comparison normalisation of declared
    parameters, the string-shaped domains (exact decimals, DNS names, paths),
    and the three relations that apply a declaration before the ordinary ones.

    [strings.ToLower] lowers ASCII letters here; the Unicode case tables for the
    other runes are the parameter [lower_table]. *)

From Stdlib Require Import Floats.SpecFloat QArith.
From S2P Require Import Prelude GoStrings Regex GoFloat GoTime Json Canonical Ids Values Bounds.
From S2P Require Import JsonText.
From S2P Require Import Grants Constraints Authorize Containment.

#[local] Open Scope Z_scope.

(** ** [path.Clean]

    The output buffer of the Go loop, as the stack of its segments: an empty or
    ["."] segment is skipped, [".."] drops the last segment that is not itself a
    leading [".."], and a leading [".."] is kept only in a relative path. *)
Definition slash : ascii := "/"%char.

Definition clean_step (rooted : bool) (out : list string) (seg : string) : list string :=
  if String.eqb seg "" || String.eqb seg "." then out
  else if String.eqb seg ".." then
    match out with
    | top :: rest => if String.eqb top ".." then (if rooted then out else seg :: out) else rest
    | [] => if rooted then [] else [seg]
    end
  else seg :: out.

Definition Clean (p : string) : string :=
  if String.eqb p "" then "."
  else
    let rooted := HasPrefix p "/" in
    let out := Join slash (rev (fold_left (clean_step rooted) (Split slash p) [])) in
    if rooted then String slash out else if String.eqb out "" then "." else out.

(** ** [math.Pow10] and the conversion [int(f)] *)

Definition pow10_const (e : Z) : float64 := dec_to_float binary64 false 1 e.

Definition Pow10 (n : Z) : float64 :=
  if (0 <=? n) && (n <=? 308) then fmul (pow10_const (32 * (n / 32))) (pow10_const (n mod 32))
  else if (-323 <=? n) && (n <=? 0) then fdiv (pow10_const (- 32 * (- n / 32))) (pow10_const ((- n) mod 32))
  else if 0 <? n then S754_infinity false
  else fzero.

(** [int(f)] of an integral [f]; a value out of the range of [int] (or not a
    number) converts to the smallest [int], as the amd64 instruction does. *)
Definition int_of_float (f : float64) : Z :=
  match f with
  | S754_finite s m e =>
      let a := if 0 <=? e then Z.pos m * 2 ^ e else Z.pos m / 2 ^ (- e) in
      let z := if s then - a else a in
      if (min_int64 <=? z) && (z <=? max_int64) then z else min_int64
  | S754_zero _ => 0
  | _ => min_int64
  end.

(** ** Declarations *)

Record DomainSpec := mkDomain { ds_name : string; ds_unit : string }.

Definition numberValue (v : any) : option float64 :=
  match v with
  | AFloat f => Some f
  | AFloat32 f => Some f
  | AInt KInt z | AInt KInt64 z => Some (of_Z z)
  | _ => None
  end.

Definition quantityNumber (v : any) (unit : string) : result float64 :=
  match v with
  | AMap m =>
      match numberValue (default ANil (mget "value" m)) with
      | None => inr ErrInvalidParamsBinding
      | Some val =>
          let u := match mget "unit" m with Some (AStr u) => u | _ => "" end in
          if String.eqb u "" then inr ErrInvalidParamsBinding
          else if negb (String.eqb u unit) then inr "unit_mismatch"
          else
            match mget "scale" m with
            | None => inl (fmul val (Pow10 (wrap64 (- 0))))
            | Some s =>
                match numberValue s with
                | None => inr ErrInvalidParamsBinding
                | Some f =>
                    if negb (feq f (Trunc f)) then inr ErrInvalidParamsBinding
                    else inl (fmul val (Pow10 (wrap64 (- int_of_float f))))
                end
            end
      end
  | _ => inr ErrInvalidParamsBinding
  end.

Definition shape_domains : list string := ["bound"; "enum"; "exact"].
Definition string_domains : list string := ["decimal-string"; "subdomain"; "path-prefix"].

(** The value of one parameter under the declaration. *)
Definition normalize_value (dm : gomap DomainSpec) (k : string) (v : any) : result any :=
  match mget k dm with
  | None => inl v
  | Some spec =>
      if mem_key (ds_name spec) shape_domains then inl v
      else if mem_key (ds_name spec) string_domains then inl v
      else if String.eqb (ds_name spec) "quantity" then
        let! n := quantityNumber v (ds_unit spec) in inl (AFloat n)
      else inr "unsupported_domain"
  end.

Section normalize_entries.
Context (dm : gomap DomainSpec).
Fixpoint normalize_entries (params : gomap any) : result (gomap any) :=
match params with
| [] => inl []
| (k, v) :: rest =>
    let! n := normalize_value dm k v in
    let! out := normalize_entries rest in
    inl ((k, n) :: out)
end.
End normalize_entries.

Definition NormalizeForDomains (params : option (gomap any)) (dm : gomap DomainSpec)
    : result (option (gomap any)) :=
  if (length dm =? 0)%nat || (mlen params =? 0)%nat then inl params
  else let! out := normalize_entries dm (entries params) in inl (Some out).

(** ** Decimal strings *)

Definition sign : re := Opt (Chr (λ c, Ascii.eqb c "+" || Ascii.eqb c "-")%char).
Definition decimalLiteral : re :=
  Cat sign (Cat (Plus digit)
    (Cat (Opt (Cat (lit ".") (Plus digit)))
         (Opt (Cat (Chr (λ c, Ascii.eqb c "e" || Ascii.eqb c "E")%char) (Cat sign (Plus digit)))))).

Definition maxDecimalExponent : Z := 10000.
Definition maxDecimalMantissa : Z := 10000.

(** [strconv.ParseInt(s, 10, 32)], bounded. *)
Definition parseIntStrict (s : string) : option Z :=
  if String.eqb s "" then None
  else
    let '(n, ok) := Atoi s in
    if negb ok then None
    else if (n <? - 2 ^ 31) || (2 ^ 31 - 1 <? n) then None
    else if (n <? - maxDecimalExponent) || (maxDecimalExponent <? n) then None
    else Some n.

(** [new(big.Rat).SetString] on a decimal without an exponent. *)
Definition rat_of_mantissa (s : string) : Q :=
  let '(neg, body) :=
    match s with
    | String "-" s' => (true, s')
    | String "+" s' => (false, s')
    | _ => (false, s)
    end%char in
  let '(whole, frac) :=
    match IndexByte "."%char body with
    | Some i => (stake i body, sdrop (S i) body)
    | None => (body, EmptyString)
    end in
  let m := digits_val 0 (whole +:+ frac) in
  Qmake (if neg then - m else m) (Z.to_pos (10 ^ Z.of_nat (String.length frac))).

Definition parseDecimal (s : string) : option Q :=
  if negb (matches decimalLiteral s) then None
  else
    let parts :=
      match IndexFunc (λ c, Ascii.eqb c "e" || Ascii.eqb c "E")%char s with
      | Some i => e ← parseIntStrict (sdrop (S i) s); Some (stake i s, e)
      | None => Some (s, 0)
      end in
    '(mantissa, exp) ← parts;
    if maxDecimalMantissa <? Z.of_nat (String.length mantissa) then None
    else
      let r := rat_of_mantissa mantissa in
      if exp =? 0 then Some r
      else if exp <? 0 then Some (Qdiv r (inject_Z (10 ^ (- exp))))
      else Some (Qmult r (inject_Z (10 ^ exp))).

(** The fixed scalar a decided parameter is replaced with; a nil map stays nil. *)
Definition covered_mark : any := AStr "domain-covered".
Definition neutralize (params : option (gomap any)) (name : string) : option (gomap any) :=
  match params with None => None | Some m => Some (mset name covered_mark m) end.

Definition copyParams (params : option (gomap any)) : option (gomap any) := params.

Definition declaredBoundConflict (g : Grant) (dm : gomap DomainSpec) : bool :=
  existsb (λ kv, mhas kv.1 dm) (entries (g_bounds g)).

Section domains.
Context (lower_table : Z → Z).

(** [unicode.ToLower] and [strings.ToLower]. *)
Definition rune_lower (r : Z) : Z :=
if r <? 128 then (if (65 <=? r) && (r <=? 90) then r + 32 else r) else lower_table r.
Definition ToLower (s : string) : string :=
foldr (λ rv out, encode_rune (rune_lower rv.1) +:+ out) "" (runes s).

Definition normalizeDomainName (s : string) : string :=
let s := TrimSuffix (ToLower s) "." in
if existsb (λ rv, IsSpace rv.1) (runes s) then ""
else if existsb (λ label, String.eqb label "") (Split "."%char s) then ""
else s.

(** [stringDomainCovers]: [None] is [(true, "")]. *)
Definition decimal_covers (p c : string) : check :=
match parseDecimal p, parseDecimal c with
| Some pr, Some cr => match Qcompare cr pr with Gt => Some ErrParamsExceedGrant | _ => None end
| _, _ => Some ErrInvalidParamsBinding
end.

Definition subdomain_covers (p c : string) : check :=
let pp := normalizeDomainName p in
let cc := normalizeDomainName c in
if String.eqb pp "" || String.eqb cc "" then Some ErrInvalidParamsBinding
else if String.eqb cc pp || HasSuffix cc ("." +:+ pp) then None
else Some ErrParamsExceedGrant.

Definition path_covers (p c : string) : check :=
if negb (HasPrefix p "/") || negb (HasPrefix c "/") then Some ErrInvalidParamsBinding
else if negb (String.eqb (Clean p) p) || negb (String.eqb (Clean c) c) then Some ErrInvalidParamsBinding
else if String.eqb c p || HasPrefix c (TrimSuffix p "/" +:+ "/") then None
else Some ErrParamsExceedGrant.

Definition stringDomainCovers (domain : string) (parent child : any) : check :=
match parent, child with
| AStr p, AStr c =>
    if String.eqb domain "decimal-string" then decimal_covers p c
    else if String.eqb domain "subdomain" then subdomain_covers p c
    else if String.eqb domain "path-prefix" then path_covers p c
    else Some "unsupported_domain"
| _, _ => Some ErrInvalidParamsBinding
end.

(** ** Entailment under a declaration *)

(** The loop over the declaration: the pair of parameter maps with the decided
  parameters neutralised, or the reason of the first refusal. *)
Fixpoint decide_strings (dm : gomap DomainSpec) (gp op : option (gomap any))
  : result (option (gomap any) * option (gomap any)) :=
match dm with
| [] => inl (gp, op)
| (name, spec) :: rest =>
    if mem_key (ds_name spec) string_domains then
      match mget name (entries gp), mget name (entries op) with
      | Some gv, Some ov =>
          match stringDomainCovers (ds_name spec) gv ov with
          | Some reason => inr reason
          | None => decide_strings rest (neutralize gp name) (neutralize op name)
          end
      | _, _ => decide_strings rest gp op
      end
    else decide_strings rest gp op
end.

Definition with_params (g : Grant) (p : option (gomap any)) : Grant :=
mkGrant (g_id g) p (g_bounds g) (g_constraints g).

Definition EntailsWithDomains (g : Grant) (op : Operation) (dm : gomap DomainSpec) : check :=
match decide_strings dm (g_params g) (op_params op) with
| inr reason => Some reason
| inl (gp, opp) =>
    match NormalizeForDomains gp dm with
    | inr reason => Some reason
    | inl gp' =>
        match NormalizeForDomains opp dm with
        | inr reason => Some reason
        | inl op' => Entails (with_params g gp') (mkOp (op_id op) op')
        end
    end
end.

(** ** Containment under two declarations *)

Fixpoint contain_strings (parentDom childDom : gomap DomainSpec) (pp cp : option (gomap any))
  : option (option (gomap any) * option (gomap any)) :=
match parentDom with
| [] => Some (pp, cp)
| (name, pspec) :: rest =>
    match mget name childDom with
    | None => contain_strings rest childDom pp cp
    | Some cspec =>
        if negb (String.eqb (ds_name pspec) (ds_name cspec)) then None
        else if mem_key (ds_name pspec) string_domains then
          match mget name (entries pp), mget name (entries cp) with
          | Some pv, Some cv =>
              match stringDomainCovers (ds_name pspec) pv cv with
              | Some _ => None
              | None => contain_strings rest childDom (neutralize pp name) (neutralize cp name)
              end
          | _, _ => contain_strings rest childDom pp cp
          end
        else contain_strings rest childDom pp cp
    end
end.

Definition ContainsWithDomains (parent child : Grant) (parentDom childDom : gomap DomainSpec) : check :=
if declaredBoundConflict parent parentDom || declaredBoundConflict child childDom
then Some ErrParamsNotNarrower
else
  match contain_strings parentDom childDom (g_params parent) (g_params child) with
  | None => Some ErrParamsNotNarrower
  | Some (pp, cp) =>
      match NormalizeForDomains pp parentDom, NormalizeForDomains cp childDom with
      | inl pp', inl cp' => Contains (with_params parent pp') (with_params child cp')
      | _, _ => Some ErrParamsNotNarrower
      end
  end.

(** ** The multi-grant decision under a declaration *)

(** The loop over the declaration for one grant: whether the grant is usable,
  its parameters and the operation's, which keep what earlier grants
  neutralised; a malformed value ends the whole decision.  [break] leaves the
  [switch], so the loop goes on after an uncovered parameter. *)
Fixpoint usable_strings (dm : gomap DomainSpec) (usable : bool) (gp op : option (gomap any))
  : result (bool * option (gomap any) * option (gomap any)) :=
match dm with
| [] => inl (usable, gp, op)
| (name, spec) :: rest =>
    if mem_key (ds_name spec) string_domains then
      match mget name (entries gp), mget name (entries op) with
      | Some gv, Some ov =>
          match stringDomainCovers (ds_name spec) gv ov with
          | Some reason =>
              if String.eqb reason ErrInvalidParamsBinding then inr reason
              else usable_strings rest false gp op
          | None => usable_strings rest usable (neutralize gp name) (neutralize op name)
          end
      | _, _ => usable_strings rest usable gp op
      end
    else usable_strings rest usable gp op
end.

Fixpoint usable_grants (dm : gomap DomainSpec) (grants : list Grant) (opParams : option (gomap any))
  : result (list Grant * option (gomap any)) :=
match grants with
| [] => inl ([], opParams)
| g :: rest =>
    if declaredBoundConflict g dm then inr ErrInvalidParamsBinding
    else
      let! r := usable_strings dm true (copyParams (g_params g)) opParams in
      let '(usable, gp, opParams') := r in
      if negb usable then usable_grants dm rest opParams'
      else
        let! np := NormalizeForDomains gp dm in
        let! r' := usable_grants dm rest opParams' in
        let '(norm, opParams'') := r' in
        inl (with_params g np :: norm, opParams'')
end.

Definition AuthorizeSetWithDomains (grants : list Grant) (op : Operation) (dm : gomap DomainSpec) : Decision :=
match usable_grants dm grants (copyParams (op_params op)) with
| inr reason => deny reason
| inl (norm, opParams) =>
    if (length norm =? 0)%nat && (0 <? length grants)%nat then deny ErrParamsExceedGrant
    else
      match NormalizeForDomains opParams dm with
      | inr reason => deny reason
      | inl opp => AuthorizeSet norm (mkOp (op_id op) opp)
      end
end.
End domains.
