(* ===== verification/DomainsProofs.v ===== *)
(** * Declared domains: the relations the string-shaped domains decide

    A clean absolute path covers exactly its segment extensions; the covering
    relations are transitive; the verdict under a declaration does not depend on
    the iteration order of the declaration; and containment under a declaration
    is sound for entailment under it. *)

From Stdlib Require Import QArith.
From S2P Require Import Prelude GoStrings Regex GoFloat GoTime Json Canonical Ids Values Bounds.
From S2P Require Import JsonText.
From S2P Require Import Grants Constraints Authorize Containment Domains.

#[local] Open Scope Z_scope.

(** ** Prefixes and suffixes of strings *)

Lemma sdrop_split n s : (n <= String.length s)%nat → ∃ t, s = t +:+ sdrop n s.
Proof.
  revert s. induction n as [|n IH]; intros s Hn; [by exists ""|].
  destruct s as [|c s]; simpl in *; [lia|]. destruct (IH s) as [t Ht]; [lia|].
  exists (String c t). rewrite append_cons. by rewrite <- Ht.
Qed.

Lemma HasSuffix_app s p : HasSuffix s p = true ↔ ∃ t, s = t +:+ p.
Proof.
  unfold HasSuffix. rewrite andb_true_iff, Nat.leb_le, String.eqb_eq. split.
  - intros [Hl Hd]. destruct (sdrop_split (String.length s - String.length p) s) as [t Ht]; [lia|].
    exists t. by rewrite Hd in Ht.
  - intros [t ->]. rewrite str_length_app. split; [lia|].
    replace (String.length t + String.length p - String.length p)%nat with (String.length t) by lia.
    apply sdrop_app.
Qed.

Lemma Split_app_sep sep s t : Split sep (s +:+ String sep t) = Split sep s ++ Split sep t.
Proof.
  induction s as [|c s IH]; [apply Split_sep|]. rewrite append_cons.
  destruct (Ascii.eqb_spec sep c) as [->|Hne].
  - rewrite !Split_sep, IH. done.
  - destruct (Split_cons sep s) as (h & l & E). rewrite E in IH.
    rewrite (Split_char sep c s h l), (Split_char sep c _ h (l ++ Split sep t)); auto.
Qed.

(** ** Clean absolute paths *)

Definition good_seg (s : string) : Prop := s ≠ "" ∧ s ≠ "." ∧ s ≠ ".." ∧ no_sep slash s.

(** The absolute path with the given segments. *)
Definition path_of (l : list string) : string := String slash (Join slash l).

Lemma rooted_path_of l : HasPrefix (path_of l) "/" = true.
Proof. apply HasPrefix_app. by exists (Join slash l). Qed.

Lemma Split_path_of l :
  Forall good_seg l → Split slash (path_of l) = "" :: match l with [] => [""] | _ => l end.
Proof.
  intros Hl. unfold path_of. rewrite Split_sep. f_equal.
  destruct l as [|x l]; [done|]. apply Split_Join; [done|].
  eapply list.Forall_impl; [exact Hl|]. by intros s (_ & _ & _ & ?).
Qed.

Lemma path_of_inj l m : Forall good_seg l → Forall good_seg m → path_of l = path_of m → l = m.
Proof.
  intros Hl Hm E. apply (f_equal (Split slash)) in E. rewrite !Split_path_of in E by done.
  assert (∀ l, Forall good_seg (("" : string) :: l) → False) as Hno by (intros k Hk; by inversion Hk as [|? ? [? _]]).
  destruct l as [|x l], m as [|y m]; simplify_eq/=; done || by destruct (Hno []).
Qed.

Lemma clean_step_good rooted out s : good_seg s → clean_step rooted out s = s :: out.
Proof.
  intros (H1 & H2 & H3 & _). unfold clean_step.
  apply String.eqb_neq in H1, H2, H3. by rewrite H1, H2, H3.
Qed.

Lemma clean_fold_good rooted l out :
  Forall good_seg l → fold_left (clean_step rooted) l out = rev l ++ out.
Proof.
  revert out. induction l as [|x l IH]; intros out; simpl; [done|].
  intros [Hx Hl]%list.Forall_cons. rewrite clean_step_good, IH by done. by rewrite <- app_assoc.
Qed.

Lemma Clean_path_of l : Forall good_seg l → Clean (path_of l) = path_of l.
Proof.
  intros Hl. destruct l as [|x l]; [done|]. unfold Clean. rewrite Split_path_of by done.
  change (fold_left ?f ("" :: ?l) []) with (fold_left f l (f [] "")).
  change (clean_step ?b [] "") with (@nil string). rewrite clean_fold_good by done.
  rewrite app_nil_r, rev_involutive, rooted_path_of. done.
Qed.

(** The stack of the rooted loop only ever holds good segments. *)
Lemma clean_step_stack out s :
  no_sep slash s → Forall good_seg out → Forall good_seg (clean_step true out s).
Proof.
  intros Hs Ho. unfold clean_step.
  destruct (String.eqb_spec s ""); [done|]. destruct (String.eqb_spec s "."); [done|]. simpl.
  destruct (String.eqb_spec s "..").
  - destruct out as [|t out]; [done|]. destruct (String.eqb t ".."); [done|]. by inversion Ho.
  - by constructor.
Qed.

Lemma clean_fold_stack l out :
  Forall (no_sep slash) l → Forall good_seg out → Forall good_seg (fold_left (clean_step true) l out).
Proof.
  revert out. induction l as [|x l IH]; intros out; simpl; [done|].
  intros [Hx Hl]%list.Forall_cons Ho. by apply IH, clean_step_stack.
Qed.

Lemma Clean_rooted p :
  HasPrefix p "/" = true → ∃ l, Forall good_seg l ∧ Clean p = path_of l.
Proof.
  intros Hp. exists (rev (fold_left (clean_step true) (Split slash p) [])). split.
  - apply Forall_rev, clean_fold_stack; [apply Split_no_sep|done].
  - unfold Clean. rewrite Hp. by destruct p.
Qed.

(** The absolute paths the domain accepts are those with good segments. *)
Lemma clean_path p :
  HasPrefix p "/" = true ∧ Clean p = p ↔ ∃ l, Forall good_seg l ∧ p = path_of l.
Proof.
  split.
  - intros [Hp Hc]. destruct (Clean_rooted p Hp) as (l & Hl & E). exists l. split; congruence.
  - intros (l & Hl & ->). split; [apply rooted_path_of|by apply Clean_path_of].
Qed.

Lemma Join_app sep l m :
  l ≠ [] → m ≠ [] → Join sep (l ++ m) = Join sep l +:+ String sep (Join sep m).
Proof.
  intros Hl Hm. induction l as [|x l IH]; [done|]. destruct l as [|y l].
  - simpl. by destruct m.
  - change ((x :: y :: l) ++ m) with (x :: ((y :: l) ++ m)). rewrite !Join_cons by done.
    rewrite IH by done. rewrite <- append_cons. by rewrite str_app_assoc.
Qed.

(** A clean path other than the root does not end in a slash. *)
Lemma path_of_no_slash l : l ≠ [] → Forall good_seg l → HasSuffix (path_of l) "/" = false.
Proof.
  intros Hne Hl. apply not_true_iff_false. rewrite HasSuffix_app. intros [t Ht].
  apply (f_equal (Split slash)) in Ht. rewrite Split_path_of, Split_app_sep in Ht by done.
  destruct l as [|x l]; [done|]. change (Split "/" "") with [""] in Ht.
  destruct (Split_cons "/" t) as (h & r & E). rewrite E in Ht. injection Ht as _ Ht.
  assert ("" ∈ (x :: l)) as Hin by (rewrite Ht; set_solver).
  rewrite list.Forall_forall in Hl. by destruct (Hl _ Hin).
Qed.

Lemma TrimSuffix_path_of l :
  Forall good_seg l → TrimSuffix (path_of l) "/" = match l with [] => "" | _ => path_of l end.
Proof.
  intros Hl. destruct l as [|x l]; [done|]. unfold TrimSuffix. by rewrite path_of_no_slash.
Qed.

(** The comparison of two clean paths is the comparison of their segments. *)
Lemma prefix_segments l m :
  Forall good_seg l → Forall good_seg m →
  path_of m = path_of l ∨ HasPrefix (path_of m) (TrimSuffix (path_of l) "/" +:+ "/") = true
  ↔ l `prefix_of` m.
Proof.
  intros Hl Hm. rewrite TrimSuffix_path_of, HasPrefix_app by done. split.
  - intros [E|[t E]]; [by rewrite (path_of_inj m l)|].
    destruct l as [|x l]; [apply prefix_nil|].
    rewrite <- str_app_assoc in E. apply (f_equal (Split slash)) in E. change ("/" +:+ t) with (String slash t) in E.
    rewrite Split_app_sep, !Split_path_of in E by done. simplify_eq/=.
    destruct (Split_cons slash t) as (h & r & Et). rewrite Et in E. exists (h :: r).
    destruct m as [|y m]; simplify_eq/=; [|done]. by destruct l.
  - intros [k ->]. destruct k as [|y k]; [left; by rewrite app_nil_r|]. right.
    destruct l as [|x l]; [by eexists|]. exists (Join slash (y :: k)). unfold path_of.
    rewrite Join_app by done. change ("/" +:+ ?s) with (String slash s).
    rewrite !append_cons, <- str_app_assoc. done.
Qed.

Lemma path_covers_None p c :
  path_covers p c = None ↔
  ∃ l m, Forall good_seg l ∧ Forall good_seg m ∧ p = path_of l ∧ c = path_of m ∧ l `prefix_of` m.
Proof.
  unfold path_covers. split.
  - destruct (negb _ || negb _) eqn:E1; [done|]. destruct (negb _ || negb _) eqn:E2 in |- *; [done|].
    go_bool. destruct (proj1 (clean_path p)) as (l & Hl & ->); [done|].
    destruct (proj1 (clean_path c)) as (m & Hm & ->); [done|].
    destruct (String.eqb _ _ || _) eqn:E3; [|done]. intros _. exists l, m. do 4 (split; [done|]).
    apply prefix_segments; [done..|]. apply orb_true_iff in E3 as [E3|E3]; [left|by right].
    by apply String.eqb_eq.
  - intros (l & m & Hl & Hm & -> & -> & Hpre).
    destruct (proj2 (clean_path (path_of l))) as [-> ->]; [by eauto|].
    destruct (proj2 (clean_path (path_of m))) as [-> ->]; [by eauto|].
    rewrite !String.eqb_refl. cbn [negb orb]. apply prefix_segments in Hpre; [|done..].
    destruct Hpre as [E|E]; [by rewrite E, String.eqb_refl|]. by rewrite E, orb_true_r.
Qed.

(** ** The covering relations are transitive *)

Lemma decimal_covers_None p c :
  decimal_covers p c = None ↔ ∃ pr cr, parseDecimal p = Some pr ∧ parseDecimal c = Some cr ∧ (cr <= pr)%Q.
Proof.
  unfold decimal_covers. destruct (parseDecimal p) as [pr|], (parseDecimal c) as [cr|].
  2-4: split; [done|]; by intros (? & ? & H1 & H2 & _).
  split.
  - intros H. exists pr, cr. do 2 (split; [done|]). rewrite Qle_alt. intros E. by rewrite E in H.
  - intros (? & ? & [= <-] & [= <-] & H). rewrite Qle_alt in H. by destruct (cr ?= pr)%Q.
Qed.

Lemma subdomain_covers_None lt p c :
  subdomain_covers lt p c = None ↔
  normalizeDomainName lt p ≠ "" ∧ normalizeDomainName lt c ≠ "" ∧
  (normalizeDomainName lt c = normalizeDomainName lt p ∨
   ∃ t, normalizeDomainName lt c = t +:+ "." +:+ normalizeDomainName lt p).
Proof.
  unfold subdomain_covers. rewrite <- HasSuffix_app.
  destruct (String.eqb_spec (normalizeDomainName lt p) ""); [naive_solver|].
  destruct (String.eqb_spec (normalizeDomainName lt c) ""); [naive_solver|].
  destruct (String.eqb_spec (normalizeDomainName lt c) (normalizeDomainName lt p)); [naive_solver|].
  simpl. destruct (HasSuffix _ _); naive_solver.
Qed.

Lemma stringDomainCovers_None lt d p c :
  stringDomainCovers lt d p c = None ↔
  ∃ ps cs, p = AStr ps ∧ c = AStr cs ∧
    (d = "decimal-string" ∧ decimal_covers ps cs = None ∨
     d = "subdomain" ∧ subdomain_covers lt ps cs = None ∨
     d = "path-prefix" ∧ path_covers ps cs = None).
Proof.
  unfold stringDomainCovers. destruct p, c; try naive_solver.
  destruct (String.eqb_spec d "decimal-string") as [->|]; [naive_solver|].
  destruct (String.eqb_spec d "subdomain") as [->|]; [naive_solver|].
  destruct (String.eqb_spec d "path-prefix") as [->|]; naive_solver.
Qed.

Lemma stringDomainCovers_trans lt d a b c :
  stringDomainCovers lt d a b = None → stringDomainCovers lt d b c = None →
  stringDomainCovers lt d a c = None.
Proof.
  rewrite !stringDomainCovers_None. intros (x & y & -> & -> & Hxy) (y' & z & ? & -> & Hyz). simplify_eq.
  exists x, z. split; [done|]. split; [done|].
  destruct Hxy as [[-> H1]|[[-> H1]|[-> H1]]], Hyz as [[? H2]|[[? H2]|[? H2]]]; try done.
  - left. split; [done|]. apply decimal_covers_None in H1 as (p & q & ? & ? & ?), H2 as (q' & r & ? & ? & ?).
    simplify_eq. apply decimal_covers_None. exists p, r. eauto using Qle_trans.
  - right; left. split; [done|]. apply subdomain_covers_None in H1 as (? & ? & E1), H2 as (? & ? & E2).
    apply subdomain_covers_None. do 2 (split; [done|]).
    destruct E1 as [E1|[t E1]], E2 as [E2|[u E2]]; rewrite E2, E1; [by left|by eauto..|].
    right. exists (u +:+ "." +:+ t). by rewrite !str_app_assoc.
  - right; right. split; [done|].
    apply path_covers_None in H1 as (l & m & Hl & Hm & -> & -> & P1), H2 as (m' & n & Hm' & Hn & E & -> & P2).
    apply path_of_inj in E as <-; [|done..]. apply path_covers_None. exists l, n. split_and!; [done..|]. by etrans.
Qed.

(** ** The loop over the declaration *)

Definition string_names (dm : gomap DomainSpec) : list string :=
  omap (λ kv, if mem_key (ds_name kv.2) string_domains then Some kv.1 else None) dm.

(** The parameters a declaration decides for two maps: those both carry. *)
Definition decided (dm : gomap DomainSpec) (a b : gomap any) : list string :=
  List.filter (λ n, mhas n a && mhas n b) (string_names dm).

(** A map with the named parameters replaced by the mark. *)
Definition neutral (names : list string) (m : gomap any) : gomap any :=
  map (λ kv, if mem_key kv.1 names then (kv.1, covered_mark) else kv) m.

Lemma neutral_keys names m : mkeys (neutral names m) = mkeys m.
Proof.
  unfold mkeys, neutral. induction m as [|[k v] m IH]; [done|]. cbn [map fst]. rewrite !fmap_cons, IH.
  by destruct (mem_key k names).
Qed.

Lemma neutral_has names m k : mhas k (neutral names m) = mhas k m.
Proof. apply eq_iff_eq_true. by rewrite !mhas_true, neutral_keys. Qed.

Lemma neutral_nil m : neutral [] m = m.
Proof. etrans; [|apply map_id]. by apply map_ext. Qed.

Lemma neutral_compose n names m : neutral names (neutral [n] m) = neutral (n :: names) m.
Proof.
  unfold neutral. rewrite map_map. apply map_ext. intros [k v]. simpl.
  rewrite orb_false_r. destruct (String.eqb k n); simpl; [|done]. by destruct (mem_key k names).
Qed.

Lemma mset_neutral n m : wf_map m → mhas n m = true → mset n covered_mark m = neutral [n] m.
Proof.
  intros Hwf. rewrite mhas_true. unfold wf_map, mkeys in *.
  induction m as [|[k v] m IH]; [by intros ?%not_elem_of_nil|]. simpl.
  rewrite fmap_cons in Hwf. apply list.NoDup_cons in Hwf as [Hk Hwf]. rewrite orb_false_r.
  destruct (String.eqb_spec n k) as [->|Hne].
  - intros _. rewrite String.eqb_refl. f_equal. symmetry. etrans; [|apply neutral_nil].
    apply map_ext_in. intros [k' v'] Hin%list_elem_of_In. simpl.
    destruct (String.eqb_spec k' k) as [->|]; [|done]. destruct Hk. by apply (mkeys_elem k v').
  - intros Hin. replace (k =? n)%string with false by (symmetry; by apply String.eqb_neq).
    f_equal. apply IH; [done|]. simpl in Hin. set_solver.
Qed.

Lemma wf_neutral names m : wf_map m → wf_map (neutral names m).
Proof. unfold wf_map. by rewrite neutral_keys. Qed.

Lemma mget_neutral_other names m k : k ∉ names → mget k (neutral names m) = mget k m.
Proof.
  intros Hk. unfold neutral. induction m as [|[k' v'] m IH]; [done|]. simpl.
  destruct (mem_key k' names) eqn:E; simpl; destruct (String.eqb_spec k k') as [->|]; try done.
  by apply mem_key_true in E.
Qed.

Lemma string_names_elem dm n :
  n ∈ string_names dm ↔ ∃ s, (n, s) ∈ dm ∧ mem_key (ds_name s) string_domains = true.
Proof.
  unfold string_names. rewrite list_elem_of_omap. split.
  - intros ([k s] & Hin & E). cbn [fst snd] in E. destruct (mem_key _ _) eqn:M; [|done]. simplify_eq. eauto.
  - intros (s & Hin & M). exists (n, s). cbn [fst snd]. by rewrite M.
Qed.

Lemma decided_elem dm a b n :
  n ∈ decided dm a b ↔ n ∈ string_names dm ∧ n ∈ mkeys a ∧ n ∈ mkeys b.
Proof.
  unfold decided. rewrite list_elem_of_In, filter_In, <- list_elem_of_In, andb_true_iff, !mhas_true. done.
Qed.

Lemma decided_keys dm a a' b b' :
  mkeys a = mkeys a' → mkeys b = mkeys b' → decided dm a b = decided dm a' b'.
Proof.
  intros Ha Hb. unfold decided. apply filter_ext. intros n.
  apply eq_iff_eq_true. by rewrite !andb_true_iff, !mhas_true, Ha, Hb.
Qed.

Lemma entries_neutral names m : entries (neutral names <$> m) = neutral names (entries m).
Proof. by destruct m. Qed.

(** What acceptance by the covering checks means. *)
Definition strings_covered (lt : Z → Z) (dm : gomap DomainSpec) (a b : gomap any) : Prop :=
  ∀ n s x y, (n, s) ∈ dm → mem_key (ds_name s) string_domains = true →
    mget n a = Some x → mget n b = Some y → stringDomainCovers lt (ds_name s) x y = None.

Lemma strings_covered_cons lt n s dm a b :
  strings_covered lt ((n, s) :: dm) a b ↔
  (mem_key (ds_name s) string_domains = true → ∀ x y,
     mget n a = Some x → mget n b = Some y → stringDomainCovers lt (ds_name s) x y = None) ∧
  strings_covered lt dm a b.
Proof.
  unfold strings_covered. split.
  - intros H. split; [intros M x y; by apply H; [left|]|]. intros k t x y Hin. apply H. by right.
  - intros [H1 H2] k t x y Hin M. apply elem_of_cons in Hin as [Hin|Hin]; [|by eapply H2].
    injection Hin as -> ->. by apply H1.
Qed.

(** Marking a parameter the rest of the declaration does not name changes
    neither what the rest requires nor what it decides. *)
Lemma strings_covered_neutral lt n dm a b :
  n ∉ mkeys dm →
  strings_covered lt dm (neutral [n] a) (neutral [n] b) ↔ strings_covered lt dm a b.
Proof.
  intros Hn. unfold strings_covered.
  assert (∀ k s m, (k, s) ∈ dm → mget k (neutral [n] m) = mget k m) as E.
  { intros k s m Hin. apply mget_neutral_other. intros ->%list_elem_of_singleton.
    by eapply Hn, mkeys_elem. }
  split; intros H k s x y Hin M; specialize (H k s x y Hin M); rewrite !(E k s) in * by done; auto.
Qed.

Lemma neutralize_some m n :
  wf_map (entries m) → mhas n (entries m) = true → neutralize m n = neutral [n] <$> m.
Proof. intros Hwf Hn. destruct m as [m|]; [|done]. simpl in *. by rewrite mset_neutral. Qed.

Lemma fmap_neutral_compose n names (m : option (gomap any)) :
  neutral names <$> (neutral [n] <$> m) = neutral (n :: names) <$> m.
Proof. destruct m as [m|]; [|done]. simpl. by rewrite neutral_compose. Qed.

Lemma decided_cons n s dm a b :
  decided ((n, s) :: dm) a b =
  if mem_key (ds_name s) string_domains && (mhas n a && mhas n b)
  then n :: decided dm a b else decided dm a b.
Proof.
  unfold decided, string_names. cbn [omap list_omap fst snd].
  destruct (mem_key _ _); [|done]. cbn [List.filter andb]. by destruct (mhas n a && mhas n b).
Qed.

Lemma decide_strings_inl lt dm a b r :
  wf_map dm → wf_map (entries a) → wf_map (entries b) →
  decide_strings lt dm a b = inl r ↔
  strings_covered lt dm (entries a) (entries b) ∧
  r = (neutral (decided dm (entries a) (entries b)) <$> a, neutral (decided dm (entries a) (entries b)) <$> b).
Proof.
  revert a b. induction dm as [|[n s] dm IH]; intros a b Hdm Ha Hb.
  - assert (∀ m : option (gomap any), neutral [] <$> m = m) as E.
    { intros [m|]; [|done]. simpl. by rewrite neutral_nil. }
    cbn [decide_strings]. change (decided [] ?x ?y) with (@nil string). rewrite !E.
    split; [intros [= <-]|by intros [_ ->]]. split; [|done]. intros n s x y H. by apply not_elem_of_nil in H.
  - unfold wf_map, mkeys in Hdm. rewrite fmap_cons in Hdm. apply list.NoDup_cons in Hdm as [Hn Hdm].
    rewrite strings_covered_cons, decided_cons. cbn [decide_strings].
    destruct (mem_key (ds_name s) string_domains) eqn:Es; [|rewrite (IH a b) by done; naive_solver].
    unfold mhas at 1 2 3 4.
    destruct (mget n (entries a)) as [x|] eqn:Ea; [|rewrite (IH a b) by done; naive_solver].
    destruct (mget n (entries b)) as [y|] eqn:Eb; [|rewrite (IH a b) by done; naive_solver].
    destruct (stringDomainCovers lt (ds_name s) x y) eqn:Ec; [naive_solver|]. cbn [andb].
    rewrite !neutralize_some by (try done; unfold mhas; by rewrite ?Ea, ?Eb).
    rewrite IH by (rewrite ?entries_neutral; auto using wf_neutral).
    rewrite !entries_neutral, strings_covered_neutral by done.
    rewrite (decided_keys dm _ (entries a) _ (entries b)) by apply neutral_keys.
    rewrite !fmap_neutral_compose. naive_solver.
Qed.

(** Under one declaration the loops of containment and entailment agree. *)
Lemma contain_strings_same lt dm d a b r :
  wf_map dm → (∀ kv, kv ∈ d → kv ∈ dm) →
  contain_strings lt d dm a b = Some r ↔ decide_strings lt d a b = inl r.
Proof.
  intros Hdm. revert a b. induction d as [|[n s] d IH]; intros a b Hd; [by simpl; naive_solver|].
  cbn [contain_strings decide_strings]. rewrite (elem_mget n s dm) by (done || apply Hd; by left).
  rewrite String.eqb_refl. cbn [negb].
  assert (∀ kv, kv ∈ d → kv ∈ dm) as Hd' by (intros kv ?; apply Hd; by right).
  destruct (mem_key _ _); [|by apply IH].
  destruct (mget n (entries a)), (mget n (entries b)); try by apply IH.
  destruct (stringDomainCovers _ _ _ _); [done|by apply IH].
Qed.

(** ** Normalisation *)

Lemma normalize_entries_keys dm m m' : normalize_entries dm m = inl m' → mkeys m' = mkeys m.
Proof.
  revert m'. induction m as [|[k v] m IH]; intros m'; simpl; [by intros [= <-]|].
  intros (n & _ & (out & Hout & [= <-])%rbind_inl)%rbind_inl. unfold mkeys in *.
  by rewrite !fmap_cons, (IH out).
Qed.

Lemma NormalizeForDomains_keys m dm m' :
  NormalizeForDomains m dm = inl m' → mkeys (entries m') = mkeys (entries m).
Proof.
  unfold NormalizeForDomains. destruct (_ || _); [by intros [= <-]|].
  intros (out & Hout & [= <-])%rbind_inl. by apply normalize_entries_keys in Hout.
Qed.

(** A string-shaped parameter passes the normalisation unchanged. *)
Lemma normalize_value_string dm k v : wf_map dm → k ∈ string_names dm → normalize_value dm k v = inl v.
Proof.
  intros Hwf (s & Hin & M)%string_names_elem. unfold normalize_value.
  rewrite (elem_mget k s dm) by done. rewrite M. by destruct (mem_key (ds_name s) shape_domains).
Qed.

Lemma normalize_neutral_ok dm names m r :
  wf_map dm → (∀ n, n ∈ names → n ∈ string_names dm) →
  normalize_entries dm (neutral names m) = inl r → ∃ r', normalize_entries dm m = inl r'.
Proof.
  intros Hwf Hn. revert r. induction m as [|[k v] m IH]; intros r; [by eauto|].
  cbn [neutral map fst]. change (map ?f m) with (neutral names m).
  destruct (mem_key k names) eqn:Ek; cbn [normalize_entries];
    intros (n & Hk & (out & Hout & _)%rbind_inl)%rbind_inl; destruct (IH _ Hout) as [r' ->].
  - apply mem_key_true, Hn in Ek. rewrite (normalize_value_string dm k) by done. by eexists.
  - rewrite Hk. by eexists.
Qed.

Lemma NormalizeForDomains_neutral dm names m r :
  wf_map dm → (∀ n, n ∈ names → n ∈ string_names dm) →
  NormalizeForDomains (neutral names <$> m) dm = inl r → ∃ r', NormalizeForDomains m dm = inl r'.
Proof.
  intros Hwf Hn. unfold NormalizeForDomains, mlen. rewrite entries_neutral.
  unfold neutral at 1. rewrite length_map. destruct (_ || _); [eauto|].
  intros (out & Hout & _)%rbind_inl. destruct (normalize_neutral_ok dm names _ _ Hwf Hn Hout) as [r' ->].
  by eexists.
Qed.

Lemma mkeys_length {A} (m : gomap A) : length m = length (mkeys m).
Proof. unfold mkeys. by rewrite length_fmap. Qed.

Lemma unbound_same_keys g p :
  mkeys (entries p) = mkeys (entries (g_params g)) → unbound (with_params g p) = unbound g.
Proof. intros H. unfold unbound, mlen. simpl. by rewrite (mkeys_length (entries p)), H, <- mkeys_length. Qed.

(** ** Entailment and containment under a declaration *)

Lemma EntailsWithDomains_None lt dm g op :
  wf_map dm → wf_map (entries (g_params g)) → wf_map (entries (op_params op)) →
  EntailsWithDomains lt g op dm = None ↔
  let names := decided dm (entries (g_params g)) (entries (op_params op)) in
  strings_covered lt dm (entries (g_params g)) (entries (op_params op)) ∧
  ∃ gp opp, NormalizeForDomains (neutral names <$> g_params g) dm = inl gp ∧
    NormalizeForDomains (neutral names <$> op_params op) dm = inl opp ∧
    Entails (with_params g gp) (mkOp (op_id op) opp) = None.
Proof.
  intros Hdm Hg Ho. cbn zeta. unfold EntailsWithDomains.
  pose proof (decide_strings_inl lt dm (g_params g) (op_params op)) as H.
  destruct (decide_strings lt dm (g_params g) (op_params op)) as [[gp opp]|e].
  - destruct (proj1 (H (gp, opp) Hdm Hg Ho) eq_refl) as [Hc [= -> ->]].
    destruct (NormalizeForDomains _ dm) as [gp'|] eqn:E1 in |- *; [|naive_solver].
    destruct (NormalizeForDomains _ dm) as [op'|] eqn:E2 in |- *; naive_solver.
  - split; [done|]. intros [Hc _]. discriminate (proj2 (H _ Hdm Hg Ho) (conj Hc eq_refl)).
Qed.

(** The two grants as [ContainsWithDomains] hands them to [Contains]. *)
Definition compared (lt : Z → Z) (dm : gomap DomainSpec) (p c : Grant) : option (Grant * Grant) :=
  match contain_strings lt dm dm (g_params p) (g_params c) with
  | None => None
  | Some (pp, cp) =>
      match NormalizeForDomains pp dm, NormalizeForDomains cp dm with
      | inl pp', inl cp' => Some (with_params p pp', with_params c cp')
      | _, _ => None
      end
  end.

Definition safe_under (lt : Z → Z) (dm : gomap DomainSpec) (p c : Grant) : bool :=
  match compared lt dm p c with Some (p', c') => contains_safe p' c' | None => false end.

Lemma ContainsWithDomains_None lt dm p c :
  ContainsWithDomains lt p c dm dm = None ↔
  declaredBoundConflict p dm = false ∧ declaredBoundConflict c dm = false ∧
  ∃ p' c', compared lt dm p c = Some (p', c') ∧ Contains p' c' = None.
Proof.
  unfold ContainsWithDomains, compared. destruct (declaredBoundConflict p dm); [naive_solver|].
  destruct (declaredBoundConflict c dm); [naive_solver|]. simpl.
  destruct (contain_strings _ _ _ _ _) as [[pp cp]|]; [|naive_solver].
  destruct (NormalizeForDomains pp dm), (NormalizeForDomains cp dm); naive_solver.
Qed.

Lemma compared_Some lt dm p c p' c' :
  wf_map dm → wf_map (entries (g_params p)) → wf_map (entries (g_params c)) →
  compared lt dm p c = Some (p', c') →
  let names := decided dm (entries (g_params p)) (entries (g_params c)) in
  strings_covered lt dm (entries (g_params p)) (entries (g_params c)) ∧
  ∃ pp cp, NormalizeForDomains (neutral names <$> g_params p) dm = inl pp ∧
    NormalizeForDomains (neutral names <$> g_params c) dm = inl cp ∧
    p' = with_params p pp ∧ c' = with_params c cp.
Proof.
  intros Hdm Hp Hc. cbn zeta. unfold compared.
  destruct (contain_strings _ _ _ _ _) as [[pp cp]|] eqn:E; [|done].
  apply contain_strings_same in E; [|done..]. apply decide_strings_inl in E as [Hcov [= -> ->]]; [|done..].
  destruct (NormalizeForDomains _ dm) as [pp'|] eqn:E1 in |- *; [|done].
  destruct (NormalizeForDomains _ dm) as [cp'|] eqn:E2 in |- *; [|done].
  intros [= <- <-]. split; [done|]. eauto 10.
Qed.

Lemma neutral_ext names names' m :
  (∀ n, n ∈ mkeys m → n ∈ names ↔ n ∈ names') → neutral names m = neutral names' m.
Proof.
  intros H. unfold neutral. apply map_ext_in. intros [k v] Hin%list_elem_of_In. cbn [fst].
  replace (mem_key k names) with (mem_key k names'); [done|].
  apply eq_iff_eq_true. rewrite !mem_key_true. symmetry. apply H. by eapply mkeys_elem.
Qed.

Lemma fmap_neutral_ext names names' (m : option (gomap any)) :
  (∀ n, n ∈ mkeys (entries m) → n ∈ names ↔ n ∈ names') → neutral names <$> m = neutral names' <$> m.
Proof. intros H. destruct m as [m|]; [|done]. simpl. f_equal. by apply neutral_ext. Qed.

(** The unbound parent: nothing is compared, only the operation is normalised. *)
Lemma EntailsWithDomains_unbound lt dm p op :
  wf_map dm → wf_map (entries (op_params op)) → unbound p = true →
  (∃ opp, NormalizeForDomains (op_params op) dm = inl opp) →
  id_covers (g_id p) (op_id op) → EntailsWithDomains lt p op dm = None.
Proof.
  intros Hdm Ho Hu [opp Hopp] Hid.
  assert (entries (g_params p) = []) as Ep.
  { unfold unbound, mlen in Hu. go_bool. by apply Nat.eqb_eq, length_zero_iff_nil in H. }
  assert (decided dm (entries (g_params p)) (entries (op_params op)) = []) as Ed.
  { apply elem_of_nil_inv. intros n. rewrite decided_elem, Ep. intros (_ & H & _). by apply not_elem_of_nil in H. }
  apply EntailsWithDomains_None; [done|by rewrite Ep; constructor|done|]. cbn zeta. rewrite Ed.
  assert (∀ m : option (gomap any), neutral [] <$> m = m) as E.
  { intros [m|]; [|done]. simpl. by rewrite neutral_nil. }
  rewrite !E. split; [intros n s x y _ _; by rewrite Ep|].
  exists (g_params p), opp. split; [unfold NormalizeForDomains, mlen; by rewrite Ep, orb_true_r|].
  split; [done|]. apply Entails_None. split; [done|]. left. by rewrite unbound_same_keys.
Qed.

Lemma narrower_decls_keys cp cb pp pb :
  narrower_decls cp cb pp pb → ∀ n, n ∈ mkeys pp ↔ n ∈ mkeys cp.
Proof.
  intros [D1 _ D3 _] n. split; [|apply D3]. intros ([k v] & -> & Hin)%list_elem_of_fmap.
  destruct (D1 _ _ Hin) as (x & Hx & _). by eapply mkeys_elem, mget_elem.
Qed.

Lemma declared_ok_keys op gp gb : declared_ok op gp gb → ∀ n, n ∈ mkeys gp → n ∈ mkeys op.
Proof.
  intros [_ _ _ E1 _ _] n ([k v] & -> & Hin)%list_elem_of_fmap.
  destruct (E1 _ _ Hin) as (x & Hx & _). by eapply mkeys_elem, mget_elem.
Qed.

(** The relations on what the declaration leaves to compare. *)
Lemma ContainsWithDomains_layers lt dm p c op :
  wf_map dm → wf_map (entries (g_params p)) → wf_map (entries (g_params c)) →
  wf_map (entries (op_params op)) →
  ContainsWithDomains lt p c dm dm = None → safe_under lt dm p c = true →
  EntailsWithDomains lt c op dm = None → EntailsWithDomains lt p op dm = None.
Proof.
  intros Hdm Hp Hc Ho (_ & _ & p' & c' & Hcmp & Hcont)%ContainsWithDomains_None Hs He.
  unfold safe_under in Hs. rewrite Hcmp in Hs.
  apply compared_Some in Hcmp as (Cpc & pp & cp & Np & Nc & -> & ->); [|done..].
  apply EntailsWithDomains_None in He as (Cco & cp' & opp & Nc' & No & He); [|done..].
  pose proof (NormalizeForDomains_keys _ _ _ Np) as Kp. pose proof (NormalizeForDomains_keys _ _ _ Nc) as Kc.
  pose proof (NormalizeForDomains_keys _ _ _ Nc') as Kc'. pose proof (NormalizeForDomains_keys _ _ _ No) as Ko.
  rewrite entries_neutral, neutral_keys in Kp, Kc, Kc', Ko.
  pose proof Hcont as (Vp & _ & M & Hd)%Contains_None. pose proof He as [Hid Hdo]%Entails_None.
  destruct Hd as [Hu|[Hu Hd]].
  { rewrite unbound_same_keys in Hu by done. apply EntailsWithDomains_unbound; [done..| |].
    - eapply NormalizeForDomains_neutral; [done| |exact No]. intros n Hn. by apply decided_elem in Hn as [? _].
    - apply (id_covers_trans _ (g_id c)); [|done]. apply grant_valid_None in Vp as [Vp _].
      destruct Hid as (Vc & _). by repeat split. }
  rewrite unbound_same_keys in Hu by done. destruct Hdo as [Hdo|(_ & _ & _ & Hdo)].
  { rewrite unbound_same_keys in Hdo by done. congruence. }
  pose proof (narrower_decls_keys _ _ _ _ Hd) as Kpc. pose proof (declared_ok_keys _ _ _ Hdo) as Kco.
  cbn [g_params op_params with_params] in Kpc, Kco. rewrite Kp, Kc in Kpc. rewrite Kc', Ko in Kco.
  assert (cp' = cp) as ->.
  { rewrite (fmap_neutral_ext _ (decided dm (entries (g_params p)) (entries (g_params c)))) in Nc'.
    - congruence.
    - intros n. rewrite !decided_elem. specialize (Kpc n). specialize (Kco n). tauto. }
  apply EntailsWithDomains_None; [done..|]. cbn zeta. split.
  - intros n s x z Hin Ms Hx Hz. destruct (mget n (entries (g_params c))) as [y|] eqn:Hy.
    + eapply stringDomainCovers_trans; [by eapply Cpc|by eapply Cco].
    + apply mget_None in Hy. destruct Hy. by apply Kpc; eapply mkeys_elem, mget_elem.
  - exists pp, opp. split_and!.
    + rewrite <- Np. f_equal. apply fmap_neutral_ext. intros n. rewrite !decided_elem.
      specialize (Kpc n). specialize (Kco n). tauto.
    + rewrite <- No. f_equal. apply fmap_neutral_ext. intros n. rewrite !decided_elem.
      specialize (Kpc n). tauto.
    + by eapply Contains_layers.
Qed.

(** C17: containment under a declared domain map is sound.  When a parent grant
    contains a child grant under the declaration (quantities compared by their
    normalised numbers, decimals, DNS names and paths by their own order, and
    the side conditions of plain containment on what is compared), every
    operation the child entails under the declaration is entailed by the
    parent under it. *)
Theorem ContainsWithDomains_Entails lt dm p c op :
  wf_map dm → wf_map (entries (g_params p)) → wf_map (entries (g_params c)) →
  wf_map (entries (op_params op)) →
  ContainsWithDomains lt p c dm dm = None → safe_under lt dm p c = true →
  EntailsWithDomains lt c op dm = None → EntailsWithDomains lt p op dm = None.
Proof. apply ContainsWithDomains_layers. Qed.

Definition w_lower (r : Z) : Z := r.
Definition w_domains : gomap DomainSpec :=
  [("path", mkDomain "path-prefix" ""); ("mass", mkDomain "quantity" "g"); ("price", mkDomain "decimal-string" "")].
Definition w_quantity (v s : string) : any := AMap [("value", jnum v); ("unit", AStr "g"); ("scale", jnum s)].
Definition w_outer : Grant :=
  mkGrant "acme/fs-v1:read:*"
    (Some [("path", AStr "/data"); ("mass", w_quantity "1500" "0"); ("price", AStr "10.50")]) None [].
Definition w_inner : Grant :=
  mkGrant "acme/fs-v1:read:blob"
    (Some [("path", AStr "/data/eu"); ("mass", w_quantity "12" "-2"); ("price", AStr "1.05e1")]) None [].
Definition w_access : Operation :=
  mkOp "acme/fs-v1:read:blob"
    (Some [("price", AStr "10.4999"); ("path", AStr "/data/eu/7"); ("mass", w_quantity "900" "0")]).

Lemma ContainsWithDomains_Entails_witness :
  ContainsWithDomains w_lower w_outer w_inner w_domains w_domains = None ∧
  EntailsWithDomains w_lower w_inner w_access w_domains = None ∧
  EntailsWithDomains w_lower w_outer w_access w_domains = None.
Proof.
  split; [vm_compute; reflexivity|]. split; [vm_compute; reflexivity|].
  apply (ContainsWithDomains_Entails w_lower w_domains w_outer w_inner w_access);
    try (vm_compute; reflexivity); apply (bool_decide_unpack _); vm_compute; exact I.
Defined.

(** The path domain compares segments, not characters.  One path covers
    another exactly when both are clean absolute paths and the segments of the
    first are a prefix of the segments of the second: "/data" covers
    "/data/eu" and never "/database", and a path with a dot, a dot-dot or an
    empty segment is refused rather than reinterpreted. *)
Lemma path_covers_segments lt p c :
  stringDomainCovers lt "path-prefix" (AStr p) (AStr c) = None ↔
  ∃ l rest, Forall good_seg (l ++ rest) ∧ p = path_of l ∧ c = path_of (l ++ rest).
Proof.
  change (stringDomainCovers lt "path-prefix" (AStr p) (AStr c)) with (path_covers p c).
  rewrite path_covers_None. split.
  - intros (l & m & Hl & Hm & -> & -> & [k ->]). eauto.
  - intros (l & k & Hm & -> & ->). exists l, (l ++ k). pose proof Hm as [Hl _]%Forall_app.
    split_and!; [done..|]. by eexists.
Qed.

(** The covering relation of every string-shaped domain (exact decimal
    values, DNS names, paths) is transitive, so a chain of delegations under one
    declaration never reaches beyond its first grant. *)
Lemma stringDomainCovers_chain lt d (chain : list any) first last :
  (∀ i a b, (first :: chain) !! i = Some a → chain !! i = Some b → stringDomainCovers lt d a b = None) →
  list.last chain = Some last → stringDomainCovers lt d first last = None.
Proof.
  revert first. induction chain as [|b chain IH]; intros first H Hlast; [done|].
  pose proof (H 0%nat first b eq_refl eq_refl) as Hfb. destruct chain as [|c chain].
  - by injection Hlast as <-.
  - eapply stringDomainCovers_trans; [exact Hfb|]. apply IH; [|done].
    intros i x y Hx Hy. by apply (H (S i)).
Qed.

(** The verdict of entailment under a declaration does not depend on the
    order in which the runtime iterates over the declaration. *)
Lemma EntailsWithDomains_order lt dm dm' g op :
  wf_map dm → wf_map (entries (g_params g)) → wf_map (entries (op_params op)) → map_equiv dm dm' →
  EntailsWithDomains lt g op dm = None ↔ EntailsWithDomains lt g op dm' = None.
Proof.
  intros Hdm Hg Ho Hp. assert (wf_map dm') as Hdm' by (unfold wf_map, mkeys in *; by rewrite <- Hp).
  assert (∀ m, NormalizeForDomains m dm = NormalizeForDomains m dm') as EN.
  { intros m. unfold NormalizeForDomains. rewrite Hp. destruct (_ || _); [done|]. f_equal.
    induction (entries m) as [|[k v] e IH]; [done|]. cbn [normalize_entries].
    unfold normalize_value. rewrite (mget_perm dm dm') by done. by rewrite IH. }
  assert (∀ kv : string * DomainSpec, kv ∈ dm ↔ kv ∈ dm') as Ein by (intros kv; by rewrite Hp).
  assert (∀ m : option (gomap any), neutral (decided dm (entries (g_params g)) (entries (op_params op))) <$> m =
    neutral (decided dm' (entries (g_params g)) (entries (op_params op))) <$> m) as Ed.
  { intros m. apply fmap_neutral_ext. intros n _. rewrite !decided_elem, !string_names_elem. by setoid_rewrite Ein. }
  rewrite !EntailsWithDomains_None by done. cbn zeta. rewrite !Ed, !EN.
  unfold strings_covered. by setoid_rewrite Ein.
Qed.

(** Adding a grant to the set can take the permission away.  A grant that
    covers the operation on its own is accepted; the same grant listed twice is
    refused with [invalid_params_binding], because the first grant replaces the
    operation's path by a mark and the second grant compares its path with that
    mark.  A second grant that alone is accepted is refused likewise after a
    first grant that covers one parameter and not another. *)
Lemma AuthorizeSetWithDomains_not_monotone :
  let dm := [("path", mkDomain "path-prefix" ""); ("host", mkDomain "subdomain" "")] in
  let g h := mkGrant "acme/fs-v1:read" (Some [("path", AStr "/data"); ("host", AStr h)]) None [] in
  let op := mkOp "acme/fs-v1:read" (Some [("path", AStr "/data/x"); ("host", AStr "a.example.com")]) in
  AuthorizeSetWithDomains w_lower [g "example.com"] op dm = allow ∧
  AuthorizeSetWithDomains w_lower [g "example.com"; g "example.com"] op dm = deny ErrInvalidParamsBinding ∧
  AuthorizeSetWithDomains w_lower [g "example.org"; g "example.com"] op dm = deny ErrInvalidParamsBinding.
Proof. vm_compute. done. Qed.
