(* ===== verification/SchemeArtifacts.v ===== *)
(** * Scheme packages, transitions and declarations

    schemeadmin/schemeadmin.go, package.go and transition.go, and the
    declaration artifact of internal/schemedecl/quantity.go: the closed objects a
    publisher signs, their validation, their content addresses, and the
    operation a deployer authorizes for them.

    A failure of the package is the stable code of its [Error]; an error of
    another package that passes through has the code "".  The free-text detail of
    an error is not modelled. *)

From S2P Require Import Prelude GoStrings Regex GoFloat GoTime Json Canonical Ids Values Bounds.
From S2P Require Import JsonText JsonStruct.
From S2P Require Import Grants Constraints Authorize Containment Sha256 Domains.

(** ** Constants (schemeadmin.go) *)

Definition SchemeID : string := "varwof/scheme-admin-v1".
Definition PackageVersion : string := "CLC-SCHEME-PACKAGE-v1".
Definition TransitionVersion : string := "CLC-SCHEME-TRANSITION-v1".
Definition DeclarationVersion : string := "CLC-SCHEME-v1".

Definition CapCreate : string := "scheme:create".
Definition CapUpdate : string := "scheme:update".
Definition CapRevoke : string := "scheme:revoke".
Definition CapDelegate : string := "scheme:delegate".
Definition CapRootRotate : string := "scheme:root-rotate".
Definition CapApprove : string := "scheme:approve".

Definition ActionCreate : string := "create".
Definition ActionUpdate : string := "update".
Definition ActionRevoke : string := "revoke".
Definition ActionRootRotate : string := "root-rotate".

Definition ChangePatch : string := "patch".
Definition ChangeMinor : string := "minor".
Definition ChangeMajor : string := "major".

Definition CodePackageShape : error := "package_shape".
Definition CodePackageDigestMismatch : error := "package_digest_mismatch".
Definition CodeDeclarationInvalid : error := "declaration_invalid".
Definition CodeTransitionShape : error := "transition_shape".
Definition CodePackageTransitionMismatch : error := "package_transition_mismatch".
Definition CodeSignatureMissing : error := "signature_missing".
Definition CodeSignatureInvalid : error := "signature_invalid".
Definition CodeSignatureChain : error := "signature_chain".
Definition CodeSignatureNoAIC : error := "signature_no_aic".
Definition CodeTransitionSignatureMissing : error := "transition_signature_missing".
Definition CodeTransitionSignatureInvalid : error := "transition_signature_invalid".
Definition CodePublisherMismatch : error := "publisher_mismatch".
Definition CodePublisherKeyBinding : error := "publisher_key_binding".
Definition CodeAuthorityNoGrant : error := "authority_no_grant".
Definition CodeAuthorityNotContained : error := "authority_not_contained".
Definition CodeAuthorityNotAuthorized : error := "authority_not_authorized".
Definition CodeNamespaceOutsidePolicy : error := "namespace_outside_policy".
Definition CodeNamespaceMismatch : error := "namespace_mismatch".
Definition CodeCLCSupported : error := "clc_revision_unsupported".
Definition CodeMajorExceedsLimit : error := "major_exceeds_limit".
Definition CodeChangeClassInvalid : error := "change_class_invalid".
Definition CodeCreateShape : error := "create_shape".
Definition CodeStateNotEmpty : error := "state_not_empty".
Definition CodeStateShape : error := "state_shape".
Definition CodeStateUnverified : error := "state_unverified".
Definition CodeStateGeneration : error := "state_generation_mismatch".
Definition CodeStateDigest : error := "state_digest_mismatch".
Definition CodeGenerationRollback : error := "generation_rollback".
Definition CodeGenerationFork : error := "generation_fork".
Definition CodePackageRevoked : error := "package_revoked".
Definition CodeRevocationInvalid : error := "revocation_invalid".
Definition CodePackageExpired : error := "package_expired".
Definition CodePackageStale : error := "package_stale".
Definition CodeApprovalInsufficient : error := "approval_insufficient".
Definition CodeApprovalInvalid : error := "approval_invalid".
Definition CodeRootNoCurrentRoot : error := "root_rotate_no_current_root".
Definition CodeRootSelfAuthorized : error := "root_rotate_self_authorized".
Definition CodeRootPolicyMismatch : error := "root_rotate_policy_mismatch".
Definition CodeRootThreshold : error := "root_rotate_threshold".
Definition CodeDelegationNotContained : error := "delegation_not_contained".

(** ** Patterns *)

Definition cls (extra : string) (c : ascii) : bool := is_lower c || is_digit c || contains_char c extra.
Definition cls_any (extra : string) (c : ascii) : bool := is_alnum c || contains_char c extra.

Definition digestRe : re := Cat (lit "sha256:") (Rep 43 (Chr (cls_any "_-"))).
Definition schemeRe : re :=
  Cat (Chr (cls "")) (Cat (Star (Chr (cls "_-"))) (Cat (lit "/")
    (Cat (Chr (cls "")) (Cat (Star (Chr (cls "_.-"))) (Cat (lit "-v") (Plus digit)))))).
Definition revisionRe : re := Cat (Plus digit) (Cat (lit ".") (Plus digit)).
Definition clcRe : re := Cat (lit "CLC-") revisionRe.
Definition principalRe : re := Cat (lit "principal:") (Plus (Chr (cls_any "_.:-"))).
Definition namespaceRe : re := Cat (lit "/") (Plus (Chr (cls_any "_.:/-"))).

(** ** Digests *)

Definition Digest (raw : string) : string := "sha256:" +:+ RawURLEncoding (Sum256 raw).
Definition CanonicalDigest (v : any) : result string :=
  match CanonicalJSON v with inl canonical => inl (Digest canonical) | inr _ => inr "" end.
Definition keyIDOf (spki : string) : string := Digest spki.
Definition allZero (b : list Z) : bool := forallb (Z.eqb 0) b.

(** ** Identifiers and revisions *)

Definition FullCapabilityID (capability : string) : string := SchemeID +:+ ":" +:+ capability.
Definition capabilityOf (fullID : string) : string * bool :=
  let prefix := SchemeID +:+ ":" in
  if negb (HasPrefix fullID prefix) then ("", false) else (TrimPrefix fullID prefix, true).

(** [strconv.ParseUint(s, 10, 64)] within the range of int. *)
Definition parseRevisionComponent (s : string) : option Z :=
  if String.eqb s "" then None
  else if negb (str_forallb is_digit s) then None
  else let u := digits_val 0 s in if max_int64 <? u then None else Some u.

Definition MajorOf (revision : string) : option Z :=
  match IndexByte "."%char revision with
  | Some (S _ as i) => parseRevisionComponent (stake i revision)
  | _ => None
  end.
Definition MinorOf (revision : string) : option Z :=
  match IndexByte "."%char revision with
  | Some i => if (String.length revision <=? i + 1)%nat then None
              else parseRevisionComponent (sdrop (i + 1) revision)
  | None => None
  end.

(** ** Declarations (internal/schemedecl/quantity.go) *)

Record Param := mkParam { pm_domain : string; pm_unit : string; pm_optional : bool }.
Record Declaration := mkDeclaration {
  dc_version : string; dc_scheme : string; dc_id : string; dc_clc_revision : string; dc_digest : string;
  dc_capabilities : gomap (option (gomap Param)); dc_constraint_types : list string
}.

Definition knownDomains : list string :=
  ["bound"; "enum"; "exact"; "quantity"; "decimal-string"; "subdomain"; "path-prefix"].

Definition param_any (p : Param) : any :=
  omitempty [member "domain" (AStr (pm_domain p)); member_str "unit" (pm_unit p);
             if pm_optional p then member "optional" (ABool true) else None].
(** The JSON object of a declaration without its digest member; a nil map of
    parameters is null. *)
Definition declaration_any (d : Declaration) : any :=
  omitempty [
    member "@version" (AStr (dc_version d)); member "scheme" (AStr (dc_scheme d));
    member "declaration_id" (AStr (dc_id d)); member "clc_revision" (AStr (dc_clc_revision d));
    member "capabilities" (AMap (map (λ kv, (kv.1, AMap [("params",
      match kv.2 with None => ANil | Some ps => AMap (map (λ pv, (pv.1, param_any pv.2)) ps) end)])) (dc_capabilities d)));
    member_strs "constraint_types" (dc_constraint_types d)].
Definition computeDigest (d : Declaration) : result string := CanonicalDigest (declaration_any d).

(** [Declaration.Validate]; [None] is the nil error. *)
Definition param_valid (p : Param) : bool :=
  mem_key (pm_domain p) knownDomains &&
  (if String.eqb (pm_domain p) "quantity" then negb (String.eqb (pm_unit p) "") else String.eqb (pm_unit p) "").

Definition Declaration_valid (d : Declaration) : bool :=
  String.eqb (dc_version d) "CLC-SCHEME-v1" &&
  negb (String.eqb (dc_scheme d) "" || String.eqb (dc_id d) "" || String.eqb (dc_clc_revision d) "") &&
  negb (length (dc_capabilities d) =? 0)%nat &&
  forallb (λ c, forallb (λ p, param_valid p.2) (entries c.2)) (dc_capabilities d) &&
  (if String.eqb (dc_digest d) "" then true
   else match computeDigest d with inl want => String.eqb want (dc_digest d) | inr _ => false end).

Definition param_fields : gomap fkind := [("domain", FStr); ("unit", FStr); ("optional", FBool)].
Definition capability_fields : gomap fkind := [("params", FObject)].
Definition declaration_fields : gomap fkind :=
  [("@version", FStr); ("scheme", FStr); ("declaration_id", FStr); ("clc_revision", FStr); ("digest", FStr);
   ("capabilities", FObject); ("constraint_types", FStrings)].

(** An object decoded into a map of structs: the last of two equal keys wins. *)
Definition into_struct_map {A} (f : jtext → option A) (m : list (string * jtext)) : option (gomap A) :=
  l ← mapM (λ kv, v ← f kv.2; Some (kv.1, v)) m;
  Some (fold_left (λ acc kv, mset kv.1 kv.2 acc) l []).

Definition into_param (j : jtext) : option Param :=
  t ← decode_struct param_fields j;
  Some (mkParam (get_str "domain" t) (get_str "unit" t) (get_bool "optional" t)).
Definition into_capability (j : jtext) : option (option (gomap Param)) :=
  t ← decode_struct capability_fields j;
  match get_obj "params" t with
  | None => Some None
  | Some m => ps ← into_struct_map into_param m; Some (Some ps)
  end.
Definition decode_declaration (raw : string) : option Declaration :=
  t ← decodeClosed declaration_fields raw;
  caps ← into_struct_map into_capability (default [] (get_obj "capabilities" t));
  Some (mkDeclaration (get_str "@version" t) (get_str "scheme" t) (get_str "declaration_id" t)
          (get_str "clc_revision" t) (get_str "digest" t) caps (get_strs "constraint_types" t)).

(** [ParseDeclaration] of package.go. *)
Definition ParseDeclaration (raw : string) : result Declaration :=
  match decode_declaration raw with
  | None => inr CodeDeclarationInvalid
  | Some decl =>
      if negb (Declaration_valid decl) then inr CodeDeclarationInvalid
      else if negb (String.eqb (dc_version decl) DeclarationVersion) then inr CodeDeclarationInvalid
      else inl decl
  end.

(** [Declaration.DomainMap]; the nil map has no entries. *)
Definition DomainMap (d : Declaration) (capability : string) : gomap DomainSpec :=
  match mget capability (dc_capabilities d) with
  | None => []
  | Some c => map (λ pv, (pv.1, mkDomain (pm_domain pv.2) (pm_unit pv.2))) (entries c)
  end.

(** [domainMapFor] of confirm.go. *)
Definition domainMapFor (raw capability : string) : gomap DomainSpec :=
  if String.eqb raw "" then []
  else match ParseDeclaration raw with inr _ => [] | inl decl => DomainMap decl capability end.

(** ** Packages (package.go) *)

Record Package := mkPackage {
  pk_version : string; pk_scheme : string; pk_revision : string;
  pk_definition_digest : string; pk_declaration_digest : string; pk_clc_revision : string;
  pk_change_class : string; pk_previous : string; pk_publisher : string; pk_generation : Z;
  pk_issued_at : string; pk_valid_until : string
}.

Definition is_digest (s : string) : bool := matches digestRe s.
Definition is_change_class (s : string) : bool := mem_key s [ChangePatch; ChangeMinor; ChangeMajor].
Definition is_rfc3339 (s : string) : bool := match rfc3339_time s with Some _ => true | None => false end.

Definition ValidatePackage (p : Package) : check :=
  guard (negb (String.eqb (pk_version p) PackageVersion)) CodePackageShape ;;?
  guard (negb (matches schemeRe (pk_scheme p))) CodePackageShape ;;?
  guard (negb (matches revisionRe (pk_revision p))) CodePackageShape ;;?
  guard (negb (is_digest (pk_definition_digest p))) CodePackageShape ;;?
  guard (negb (is_digest (pk_declaration_digest p))) CodePackageShape ;;?
  guard (negb (matches clcRe (pk_clc_revision p))) CodePackageShape ;;?
  guard (negb (is_change_class (pk_change_class p))) CodePackageShape ;;?
  guard (negb (matches principalRe (pk_publisher p))) CodePackageShape ;;?
  guard (pk_generation p <? 1) CodePackageShape ;;?
  guard (negb (String.eqb (pk_previous p) "") && negb (is_digest (pk_previous p))) CodePackageShape ;;?
  guard ((pk_generation p =? 1) && negb (String.eqb (pk_previous p) "")) CodePackageShape ;;?
  guard ((1 <? pk_generation p) && String.eqb (pk_previous p) "") CodePackageShape ;;?
  guard (negb (String.eqb (pk_issued_at p) "") && negb (is_rfc3339 (pk_issued_at p))) CodePackageShape ;;?
  guard (negb (String.eqb (pk_valid_until p) "") && negb (is_rfc3339 (pk_valid_until p))) CodePackageShape.

Definition package_fields : gomap fkind :=
  [("@version", FStr); ("scheme", FStr); ("revision", FStr); ("definition_digest", FStr);
   ("declaration_digest", FStr); ("clc_revision", FStr); ("change_class", FStr);
   ("previous_package_digest", FStr); ("publisher", FStr); ("generation", FInt64);
   ("issued_at", FStr); ("valid_until", FStr)].
Definition package_of (t : gomap fval) : Package :=
  mkPackage (get_str "@version" t) (get_str "scheme" t) (get_str "revision" t) (get_str "definition_digest" t)
    (get_str "declaration_digest" t) (get_str "clc_revision" t) (get_str "change_class" t)
    (get_str "previous_package_digest" t) (get_str "publisher" t) (get_int "generation" t)
    (get_str "issued_at" t) (get_str "valid_until" t).

Definition ParsePackage (raw : string) : result Package :=
  match decodeClosed package_fields raw with
  | None => inr CodePackageShape
  | Some t => let pkg := package_of t in rguard (ValidatePackage pkg) (inl pkg)
  end.

Definition package_any (p : Package) : any :=
  omitempty [
    member "@version" (AStr (pk_version p)); member "scheme" (AStr (pk_scheme p));
    member "revision" (AStr (pk_revision p)); member "definition_digest" (AStr (pk_definition_digest p));
    member "declaration_digest" (AStr (pk_declaration_digest p)); member "clc_revision" (AStr (pk_clc_revision p));
    member "change_class" (AStr (pk_change_class p)); member_str "previous_package_digest" (pk_previous p);
    member "publisher" (AStr (pk_publisher p)); member "generation" (AInt KInt64 (pk_generation p));
    member_str "issued_at" (pk_issued_at p); member_str "valid_until" (pk_valid_until p)].
Definition PackageDigest (p : Package) : result string := CanonicalDigest (package_any p).

Definition ValidatePayload (p : Package) (definition declaration : string) : check :=
  guard (String.eqb definition "") CodePackageDigestMismatch ;;?
  guard (String.eqb declaration "") CodePackageDigestMismatch ;;?
  guard (negb (String.eqb (Digest definition) (pk_definition_digest p))) CodePackageDigestMismatch ;;?
  guard (negb (String.eqb (Digest declaration) (pk_declaration_digest p))) CodePackageDigestMismatch ;;?
  match ParseDeclaration declaration with
  | inr e => Some e
  | inl decl =>
      guard (negb (String.eqb (dc_scheme decl) (pk_scheme p))) CodeDeclarationInvalid ;;?
      guard (negb (String.eqb (dc_clc_revision decl) (pk_clc_revision p))) CodeDeclarationInvalid
  end.

(** ** Transitions (transition.go) *)

Record Transition := mkTransition {
  tr_version : string; tr_action : string; tr_scheme : string; tr_namespace : string;
  tr_from_generation : option Z; tr_to_generation : Z; tr_from_digest : string; tr_to_digest : string;
  tr_change_class : string; tr_clc_revision : string;
  tr_reason : string; tr_effective_time : string; tr_replacement : string; tr_tombstone_generation : option Z;
  tr_next_root_package : string; tr_next_root_keys : list string; tr_next_root_threshold : Z
}.

Definition actions : list string := [ActionCreate; ActionUpdate; ActionRevoke; ActionRootRotate].
Definition revocation_reasons : list string :=
  ["superseded"; "security-defect"; "publisher-withdrawal"; "policy-violation"; "compromised"].

Definition requireFrom (tr : Transition) : check :=
  match tr_from_generation tr with
  | None => Some CodeTransitionShape
  | Some g =>
      guard (g <? 1) CodeTransitionShape ;;?
      guard (negb (is_digest (tr_from_digest tr))) CodeTransitionShape
  end.

Definition has_revocation (tr : Transition) : bool :=
  negb (String.eqb (tr_reason tr) "") || negb (String.eqb (tr_effective_time tr) "") ||
  negb (String.eqb (tr_replacement tr) "") || bool_decide (tr_tombstone_generation tr ≠ None).
Definition has_next_root (tr : Transition) : bool :=
  negb (String.eqb (tr_next_root_package tr) "") || negb (length (tr_next_root_keys tr) =? 0)%nat ||
  negb (tr_next_root_threshold tr =? 0).

Definition validate_create (tr : Transition) : check :=
  guard (bool_decide (tr_from_generation tr ≠ None) || negb (String.eqb (tr_from_digest tr) "")) CodeCreateShape ;;?
  guard (negb (tr_to_generation tr =? 1)) CodeCreateShape ;;?
  guard (negb (String.eqb (tr_change_class tr) ChangeMajor)) CodeCreateShape.
Definition validate_revoke (tr : Transition) : check :=
  requireFrom tr ;;?
  guard (String.eqb (tr_reason tr) "") CodeTransitionShape ;;?
  guard (negb (mem_key (tr_reason tr) revocation_reasons)) CodeTransitionShape ;;?
  guard (String.eqb (tr_effective_time tr) "") CodeTransitionShape ;;?
  guard (negb (is_rfc3339 (tr_effective_time tr))) CodeTransitionShape ;;?
  match tr_tombstone_generation tr with
  | None => Some CodeTransitionShape
  | Some g => guard (g <? tr_to_generation tr) CodeTransitionShape
  end ;;?
  guard (negb (String.eqb (tr_replacement tr) "") && negb (is_digest (tr_replacement tr))) CodeTransitionShape.
Definition validate_root_rotate (tr : Transition) : check :=
  requireFrom tr ;;?
  guard (negb (is_digest (tr_next_root_package tr))) CodeTransitionShape ;;?
  guard (length (tr_next_root_keys tr) =? 0)%nat CodeTransitionShape ;;?
  check_all (λ k, guard (negb (is_digest k)) CodeTransitionShape) (tr_next_root_keys tr) ;;?
  guard (tr_next_root_threshold tr <? 1) CodeTransitionShape.

Definition ValidateTransition (tr : Transition) : check :=
  guard (negb (String.eqb (tr_version tr) TransitionVersion)) CodeTransitionShape ;;?
  guard (negb (mem_key (tr_action tr) actions)) CodeTransitionShape ;;?
  guard (negb (matches schemeRe (tr_scheme tr))) CodeTransitionShape ;;?
  guard (negb (matches namespaceRe (tr_namespace tr)) ||
         negb (String.eqb (Clean (tr_namespace tr)) (tr_namespace tr))) CodeTransitionShape ;;?
  guard (negb (String.eqb (tr_namespace tr) ("/" +:+ tr_scheme tr))) CodeNamespaceMismatch ;;?
  guard (tr_to_generation tr <? 1) CodeTransitionShape ;;?
  guard (negb (is_digest (tr_to_digest tr))) CodeTransitionShape ;;?
  guard (negb (is_change_class (tr_change_class tr))) CodeChangeClassInvalid ;;?
  guard (negb (matches clcRe (tr_clc_revision tr))) CodeTransitionShape ;;?
  guard (negb (String.eqb (tr_action tr) ActionRevoke) && has_revocation tr) CodeTransitionShape ;;?
  guard (negb (String.eqb (tr_action tr) ActionRootRotate) && has_next_root tr) CodeTransitionShape ;;?
  if String.eqb (tr_action tr) ActionCreate then validate_create tr
  else if String.eqb (tr_action tr) ActionUpdate then requireFrom tr
  else if String.eqb (tr_action tr) ActionRevoke then validate_revoke tr
  else if String.eqb (tr_action tr) ActionRootRotate then validate_root_rotate tr
  else None.

Definition transition_fields : gomap fkind :=
  [("@version", FStr); ("action", FStr); ("scheme", FStr); ("namespace", FStr); ("from_generation", FPtrInt64);
   ("to_generation", FInt64); ("from_digest", FStr); ("to_digest", FStr); ("change_class", FStr);
   ("target_clc_revision", FStr); ("revocation_reason", FStr); ("revocation_effective_time", FStr);
   ("replacement_digest", FStr); ("tombstone_generation", FPtrInt64); ("next_root_package_digest", FStr);
   ("next_root_keys", FStrings); ("next_root_threshold", FInt64)].
Definition transition_of (t : gomap fval) : Transition :=
  mkTransition (get_str "@version" t) (get_str "action" t) (get_str "scheme" t) (get_str "namespace" t)
    (get_ptr "from_generation" t) (get_int "to_generation" t) (get_str "from_digest" t) (get_str "to_digest" t)
    (get_str "change_class" t) (get_str "target_clc_revision" t) (get_str "revocation_reason" t)
    (get_str "revocation_effective_time" t) (get_str "replacement_digest" t) (get_ptr "tombstone_generation" t)
    (get_str "next_root_package_digest" t) (get_strs "next_root_keys" t) (get_int "next_root_threshold" t).

Definition ParseTransition (raw : string) : result Transition :=
  match decodeClosed transition_fields raw with
  | None => inr CodeTransitionShape
  | Some t => let tr := transition_of t in rguard (ValidateTransition tr) (inl tr)
  end.

Definition transition_any (tr : Transition) : any :=
  omitempty [
    member "@version" (AStr (tr_version tr)); member "action" (AStr (tr_action tr));
    member "scheme" (AStr (tr_scheme tr)); member "namespace" (AStr (tr_namespace tr));
    member_ptr "from_generation" (tr_from_generation tr);
    member "to_generation" (AInt KInt64 (tr_to_generation tr)); member_str "from_digest" (tr_from_digest tr);
    member "to_digest" (AStr (tr_to_digest tr)); member "change_class" (AStr (tr_change_class tr));
    member "target_clc_revision" (AStr (tr_clc_revision tr));
    member_str "revocation_reason" (tr_reason tr); member_str "revocation_effective_time" (tr_effective_time tr);
    member_str "replacement_digest" (tr_replacement tr);
    member_ptr "tombstone_generation" (tr_tombstone_generation tr);
    member_str "next_root_package_digest" (tr_next_root_package tr);
    member_strs "next_root_keys" (tr_next_root_keys tr);
    member_int "next_root_threshold" (tr_next_root_threshold tr)].
Definition TransitionDigest (tr : Transition) : result string := CanonicalDigest (transition_any tr).

Definition CapabilityFor (action : string) : result string :=
  if String.eqb action ActionCreate then inl CapCreate
  else if String.eqb action ActionUpdate then inl CapUpdate
  else if String.eqb action ActionRevoke then inl CapRevoke
  else if String.eqb action ActionRootRotate then inl CapRootRotate
  else inr CodeTransitionShape.

Definition BuildManagementOperation (p : Package) (tr : Transition) : result Operation :=
  let! capability := CapabilityFor (tr_action tr) in
  let op params := mkOp (FullCapabilityID capability) (Some params) in
  if String.eqb (tr_action tr) ActionCreate || String.eqb (tr_action tr) ActionUpdate then
    match MajorOf (pk_revision p) with
    | None => inr CodePackageShape
    | Some major =>
        inl (op [("namespace", AStr (tr_namespace tr)); ("change_class", AStr (tr_change_class tr));
                 ("major", AInt KInt major); ("clc_revision", AStr (tr_clc_revision tr))])
    end
  else if String.eqb (tr_action tr) ActionRevoke then
    inl (op [("namespace", AStr (tr_namespace tr)); ("package_digest", AStr (tr_from_digest tr));
             ("clc_revision", AStr (tr_clc_revision tr))])
  else if String.eqb (tr_from_digest tr) "" then inr CodeTransitionShape
  else inl (op [("package_digest", AStr (tr_from_digest tr)); ("clc_revision", AStr (tr_clc_revision tr))]).

Definition BuildApprovalOperation (p : Package) (tr : Transition) : result Operation :=
  match PackageDigest p with
  | inr _ => inr CodePackageShape
  | inl pkgDigest =>
      match TransitionDigest tr with
      | inr _ => inr CodeTransitionShape
      | inl trDigest =>
          inl (mkOp (FullCapabilityID CapApprove)
                 (Some [("namespace", AStr (tr_namespace tr)); ("package_digest", AStr pkgDigest);
                        ("transition_digest", AStr trDigest); ("clc_revision", AStr (tr_clc_revision tr))]))
      end
  end.

Definition operation_any (op : Operation) : any :=
  omitempty [member "id" (AStr (op_id op));
             match op_params op with Some ((_ :: _) as ps) => member "params" (AMap ps) | _ => None end].
Definition OperationDigest (op : Operation) : result string := CanonicalDigest (operation_any op).

(** [revisionFollows]: true is the nil error.  The comparison of the largest int
    comes before the increment, so [pmin+1] and [pmaj+1] do not wrap. *)
Definition revisionFollows (prev next changeClass : string) : bool :=
  match MajorOf prev, MinorOf prev, MajorOf next, MinorOf next with
  | Some pmaj, Some pmin, Some nmaj, Some nmin =>
      if String.eqb changeClass ChangePatch then (nmaj =? pmaj) && (nmin =? pmin)
      else if String.eqb changeClass ChangeMinor then
        negb (pmin =? max_int64) && (nmaj =? pmaj) && (nmin =? wrap64 (pmin + 1))
      else if String.eqb changeClass ChangeMajor then
        negb (pmaj =? max_int64) && (nmaj =? wrap64 (pmaj + 1)) && (nmin =? 0)
      else false
  | _, _, _, _ => false
  end.

Definition namespaceUnder (namespace : string) (prefixes : list string) : bool :=
  existsb (λ p, String.eqb namespace p || HasPrefix namespace (TrimSuffix p "/" +:+ "/")) prefixes.
