(* ===== verification/SchemeState.v ===== *)
(** * The registry state of a scheme namespace

    schemeadmin/policy.go (the trust policy and the deployer's view of one
    namespace) and state.go (the state transition that persists a confirmed
    package), with the theorems about every state reachable through it.

    Certificates, detached signatures and the identity extension are code of
    other packages: they are parameters here. *)

From stdpp Require Import relations.
From S2P Require Import Prelude GoStrings Regex GoFloat GoTime Json Canonical Ids Values Bounds.
From S2P Require Import JsonText JsonStruct.
From S2P Require Import Grants Constraints Authorize Containment Sha256 Domains DomainsProofs.
From S2P Require Import SchemeArtifacts.

(** ** The trust policy (policy.go) *)

(** A nil slice that is serialised without [omitempty] is [None]. *)
Record TrustPolicy := mkPolicy {
  po_root_package : string; po_root_keys : option (list string); po_root_threshold : Z;
  po_root_grants : option (list Grant); po_clc_revisions : option (list string);
  po_prefixes : option (list string); po_max_major : Z; po_declaration : string;
  po_observed_at : string; po_max_staleness : Z; po_approval_threshold : Z;
  po_next_root_package : string; po_next_root_keys : list string; po_next_root_threshold : Z
}.

Definition items {A} (l : option (list A)) : list A := default [] l.

Definition policyTime (p : TrustPolicy) : result Time :=
  if String.eqb (po_observed_at p) "" then inr CodePackageStale
  else match rfc3339_time (po_observed_at p) with Some t => inl t | None => inr CodePackageStale end.

(** The loop of [validateDistinctDigests], with the keys seen so far. *)
Fixpoint distinct_digests (seen keys : list string) : check :=
  match keys with
  | [] => None
  | k :: keys' =>
      guard (negb (is_digest k)) CodePackageShape ;;?
      guard (mem_key k seen) CodePackageShape ;;?
      distinct_digests (k :: seen) keys'
  end.
Definition validateDistinctDigests (keys : list string) : check := distinct_digests [] keys.

Definition prefix_ok (prefix : string) : bool :=
  negb (String.eqb prefix "" || String.eqb prefix "/" || negb (HasPrefix prefix "/") ||
        negb (String.eqb (Clean prefix) prefix)).

Definition ValidatePolicy (p : TrustPolicy) : check :=
  let keys := items (po_root_keys p) in
  let next := po_next_root_keys p in
  guard (negb (String.eqb (po_root_package p) "") && negb (is_digest (po_root_package p))) CodePackageShape ;;?
  guard (negb (length keys =? 0)%nat && (po_root_threshold p <? 1)) CodePackageShape ;;?
  guard (po_root_threshold p <? 0) CodePackageShape ;;?
  guard (Z.of_nat (length keys) <? po_root_threshold p) CodePackageShape ;;?
  guard (po_approval_threshold p <? 0) CodePackageShape ;;?
  guard (po_max_staleness p <? 0) CodePackageShape ;;?
  guard (po_max_major p <? 1) CodePackageShape ;;?
  (if negb (length keys =? 0)%nat then validateDistinctDigests keys else None) ;;?
  (if negb (length next =? 0)%nat then validateDistinctDigests next else None) ;;?
  guard (po_next_root_threshold p <? 0) CodePackageShape ;;?
  guard (Z.of_nat (length next) <? po_next_root_threshold p) CodePackageShape ;;?
  guard (negb (String.eqb (po_next_root_package p) "") && negb (is_digest (po_next_root_package p)))
    CodePackageShape ;;?
  check_all (λ prefix, guard (negb (prefix_ok prefix)) CodePackageShape) (items (po_prefixes p)) ;;?
  guard (String.eqb (po_declaration p) "") CodeDeclarationInvalid ;;?
  match ParseDeclaration (po_declaration p) with
  | inr e => Some e
  | inl decl =>
      guard (negb (String.eqb (dc_scheme decl) SchemeID)) CodeDeclarationInvalid ;;?
      check_all (λ k, guard (negb (is_digest k)) CodePackageShape) next
  end.

(** ** The registry state *)

Record RegistryEntry := mkEntry { re_generation : Z; re_digest : string }.
Record Revocation := mkRevocation {
  rv_digest : string; rv_generation : Z; rv_effective_time : string; rv_reason : string;
  rv_replacement : string; rv_tombstone : string; rv_signature : string
}.
Record Approval := mkApproval { ap_package : string; ap_transition : string; ap_approver : string; ap_signature : string }.
Record RegistryState := mkState {
  st_scheme : string; st_revision : string; st_generation : Z; st_digest : string;
  st_history : list RegistryEntry; st_revoked : list Revocation; st_approvals : list Approval
}.

Definition HeadOf (s : RegistryState) : Z :=
  fold_left (λ head e, if head <? re_generation e then re_generation e else head) (st_history s) (st_generation s).

Definition digestAt (s : RegistryState) (generation : Z) : option string :=
  if (st_generation s =? generation) && negb (String.eqb (st_digest s) "") then Some (st_digest s)
  else re_digest <$> List.find (λ e, re_generation e =? generation) (st_history s).

Definition isRevoked (s : RegistryState) (digest : string) : bool :=
  existsb (λ r, String.eqb (rv_digest r) digest) (st_revoked s).

(** [isRevokedAt]: [None] is the state error. *)
Fixpoint revoked_at (rs : list Revocation) (digest : string) (now : Time) : option bool :=
  match rs with
  | [] => Some false
  | r :: rs' =>
      if negb (String.eqb (rv_digest r) digest) then revoked_at rs' digest now
      else if negb (String.eqb (rv_replacement r) "") && String.eqb (rv_replacement r) (rv_digest r) then None
      else if String.eqb (rv_effective_time r) "" then Some true
      else match rfc3339_time (rv_effective_time r) with
           | None => None
           | Some t => if negb (now <? t) then Some true else revoked_at rs' digest now
           end
  end.
Definition isRevokedAt (s : RegistryState) (digest : string) (now : Time) : option bool :=
  revoked_at (st_revoked s) digest now.

Definition countApprovals (s : RegistryState) (pkgDigest trDigest : string) : Z :=
  Z.of_nat (length (List.filter (λ a, String.eqb (ap_package a) pkgDigest && String.eqb (ap_transition a) trDigest)
                      (st_approvals s))).

(** ** Confirmations *)

(** The decision record; its free-text detail is not modelled. *)
Record ConfirmationResult := mkConfirmed {
  cr_verdict : string; cr_reason : string; cr_action : string; cr_scheme : string; cr_namespace : string;
  cr_generation : Z; cr_package_digest : string; cr_transition_digest : string;
  cr_operation_digest : string; cr_approval_digest : string; cr_certificate_digest : string;
  cr_key_id : string; cr_policy_digest : string; cr_state_digest : string; cr_inputs_digest : string;
  cr_signed : bool; cr_revoked_digest : string; cr_revocation_reason : string;
  cr_revocation_time : string; cr_replacement : string; cr_tombstone_generation : Z
}.

Definition VerdictAccept : string := "accept".
Definition VerdictReject : string := "reject".

(** The identity a certificate carries ([pki.AIC]): the principal and its
    capabilities, each with its full identifier and its parameter text. *)
Record PrincipalUid := mkPrincipal { pu_identifier : string; pu_realm : string; pu_key_hash : list Z }.
Record AICCapability := mkAICCap { ac_full_id : string; ac_parameters : string }.
Record Identity := mkIdentity { id_principal : PrincipalUid; id_capabilities : list AICCapability }.

(** What the code calls in other packages: the DER bytes, the public key bytes
    and the key usage of a certificate; [cert.Verify] against a pool of roots at
    an instant; [pkcs7.VerifyDetached] (an error, or the certificate it
    recovered, which may be nil); [pki.ParseAIC] (an error, or a value that may
    be nil) and [pki.ValidateAIC]. *)
Record PKI (Cert : Type) := mkPKI {
  ct_raw : Cert → string; ct_spki : Cert → string; ct_key_usage : Cert → Z;
  ct_verify : Cert → list Cert → Time → bool;
  VerifyDetached : string → string → option (option Cert);
  ParseAIC : Cert → option (option Identity); ValidateAIC : Identity → bool
}.
Arguments mkPKI {Cert}.
Arguments ct_raw {Cert} _ _.
Arguments ct_spki {Cert} _ _.
Arguments ct_key_usage {Cert} _ _.
Arguments ct_verify {Cert} _ _ _ _.
Arguments VerifyDetached {Cert} _ _ _.
Arguments ParseAIC {Cert} _ _.
Arguments ValidateAIC {Cert} _ _.

(** A nil certificate pointer is [None]. *)
Record Confirmation (Cert : Type) := mkConfirmation {
  cf_package : Package; cf_transition : Transition; cf_definition : string; cf_declaration : string;
  cf_transition_bytes : string; cf_transition_signature : string; cf_publisher : option Cert;
  cf_roots : list (option Cert); cf_root_signers : list (option Cert); cf_state : RegistryState; cf_policy : TrustPolicy
}.
Arguments mkConfirmation {Cert}.
Arguments cf_package {Cert} _.
Arguments cf_transition {Cert} _.
Arguments cf_definition {Cert} _.
Arguments cf_declaration {Cert} _.
Arguments cf_transition_bytes {Cert} _.
Arguments cf_transition_signature {Cert} _.
Arguments cf_publisher {Cert} _.
Arguments cf_roots {Cert} _.
Arguments cf_root_signers {Cert} _.
Arguments cf_state {Cert} _.
Arguments cf_policy {Cert} _.

Section accept.
Context {Cert : Type} (pki : PKI Cert).

(** [verifyChain] of signed.go; bit 0 of the key usage is the digital
  signature. *)
Definition verifyChain (cert : option Cert) (roots : list (option Cert)) (now : Time) : check :=
match cert with
| None => Some CodeSignatureMissing
| Some cert =>
    guard (length roots =? 0)%nat CodeSignatureChain ;;?
    guard (negb (ct_key_usage pki cert =? 0) && (Z.land (ct_key_usage pki cert) 1 =? 0)) CodeSignatureChain ;;?
    guard (negb (ct_verify pki cert (omap id roots) now)) CodeSignatureChain
end.

(** [verifyCertificate] of confirm.go: the chain, the identity and its binding
  to the certificate key. *)
Definition verifyCertificate (cert : option Cert) (roots : list (option Cert)) (now : Time) : result Identity :=
rguard (verifyChain cert roots now)
  match cert with
  | None => inr CodeSignatureMissing
  | Some cert =>
      match ParseAIC pki cert with
      | None | Some None => inr CodeSignatureNoAIC
      | Some (Some aic) =>
          let hash := pu_key_hash (id_principal aic) in
          if negb (ValidateAIC pki aic) then inr CodeSignatureNoAIC
          else if (length hash =? 0)%nat || allZero hash then inr CodePublisherKeyBinding
          else if negb (bool_decide (hash = Sum256 (ct_spki pki cert))) then inr CodePublisherKeyBinding
          else inl aic
      end
  end.

Definition verifyTombstone (r : Revocation) (scheme : string) (roots : list (option Cert)) (now : Time) : check :=
guard (String.eqb (rv_tombstone r) "" || String.eqb (rv_signature r) "") CodeRevocationInvalid ;;?
match VerifyDetached pki (rv_signature r) (rv_tombstone r) with
| None => Some CodeRevocationInvalid
| Some cert =>
    match verifyCertificate cert roots now with
    | inr _ => Some CodeRevocationInvalid
    | inl _ =>
        match ParseTransition (rv_tombstone r) with
        | inr _ => Some CodeRevocationInvalid
        | inl tr =>
            guard (negb (String.eqb (tr_action tr) ActionRevoke) || negb (String.eqb (tr_scheme tr) scheme))
              CodeRevocationInvalid ;;?
            guard (negb (String.eqb (tr_from_digest tr) (rv_digest r))) CodeRevocationInvalid ;;?
            guard (negb (String.eqb (tr_reason tr) (rv_reason r)) ||
                   negb (String.eqb (tr_effective_time tr) (rv_effective_time r)) ||
                   negb (String.eqb (tr_replacement tr) (rv_replacement r))) CodeRevocationInvalid ;;?
            guard (negb (bool_decide (tr_tombstone_generation tr = Some (rv_generation r)))) CodeRevocationInvalid
        end
    end
end.

Definition verifyRevocations (s : RegistryState) (roots : list (option Cert)) (now : Time) : check :=
check_all (λ r, verifyTombstone r (st_scheme s) roots now) (st_revoked s).

(** The comparison of the transition with the state. *)
Definition accept_from (s : RegistryState) (tr : Transition) : check :=
if String.eqb (tr_action tr) ActionCreate then
  guard (negb (st_generation s =? 0) || negb (length (st_history s) =? 0)%nat || negb (String.eqb (st_digest s) ""))
    CodeStateNotEmpty ;;?
  guard (negb (tr_to_generation tr =? 1)) CodeCreateShape
else
  match tr_from_generation tr with
  | None => Some CodeTransitionShape
  | Some from =>
      guard (negb (st_generation s =? from)) CodeStateGeneration ;;?
      guard (negb (String.eqb (st_digest s) (tr_from_digest tr))) CodeStateDigest ;;?
      guard (negb (tr_to_generation tr =? wrap64 (st_generation s + 1))) CodeStateGeneration
  end.

(** The record a revocation adds. *)
Definition tombstone_of (c : Confirmation Cert) : Revocation :=
let tr := cf_transition c in
mkRevocation (tr_from_digest tr) (default (tr_to_generation tr) (tr_tombstone_generation tr))
  (tr_effective_time tr) (tr_reason tr) (tr_replacement tr) (cf_transition_bytes c) (cf_transition_signature c).

Definition revoke_record (s : RegistryState) (c : Confirmation Cert) (res : ConfirmationResult) : result Revocation :=
let tr := cf_transition c in
rguard (guard (String.eqb (tr_from_digest tr) "") CodeTransitionShape ;;?
        guard (String.eqb (tr_replacement tr) (tr_from_digest tr)) CodeRevocationInvalid ;;?
        guard (negb (is_rfc3339 (tr_effective_time tr))) CodeRevocationInvalid ;;?
        guard (isRevoked s (tr_from_digest tr)) CodeRevocationInvalid ;;?
        guard (String.eqb (cf_transition_bytes c) "" || String.eqb (cf_transition_signature c) "") CodeRevocationInvalid)
(let! now := policyTime (cf_policy c) in
 rguard (verifyTombstone (tombstone_of c) (pk_scheme (cf_package c)) (cf_roots c) now ;;?
         match TransitionDigest tr with
         | inr _ => Some CodeRevocationInvalid
         | inl d => guard (negb (String.eqb (cr_transition_digest res) d)) CodeRevocationInvalid
         end)
 (inl (tombstone_of c))).

(** The history with the new head, unless its last entry is of that generation. *)
Definition next_history (s : RegistryState) (head : RegistryEntry) : list RegistryEntry :=
match list.last (st_history s) with
| Some e => if re_generation e =? re_generation head then st_history s else st_history s ++ [head]
| None => st_history s ++ [head]
end.

(** [RegistryState.Accept]: the state to persist, or the failure (the state is
  then unchanged). *)
Definition Accept (s : RegistryState) (c : Confirmation Cert) (res : ConfirmationResult) : result RegistryState :=
let pkg := cf_package c in let tr := cf_transition c in
rguard (guard (negb (cr_signed res)) CodeStateUnverified ;;?
        guard (negb (String.eqb (cr_verdict res) VerdictAccept)) CodeStateShape)
(let! pkgDigest := PackageDigest pkg in
 let! trDigest := TransitionDigest tr in
 rguard (guard (negb (String.eqb (cr_package_digest res) pkgDigest) ||
                negb (String.eqb (cr_transition_digest res) trDigest)) CodeStateShape ;;?
         guard (negb (String.eqb (pk_scheme pkg) (tr_scheme tr))) CodePackageTransitionMismatch ;;?
         guard (negb (tr_to_generation tr =? pk_generation pkg)) CodePackageTransitionMismatch ;;?
         accept_from s tr ;;?
         match digestAt s (tr_to_generation tr) with
         | Some d => guard (negb (String.eqb d (cr_package_digest res))) CodeGenerationFork
         | None => None
         end)
 (let head := mkEntry (tr_to_generation tr) (cr_package_digest res) in
  let history := next_history s head in
  let next revoked :=
    mkState (pk_scheme pkg) (pk_revision pkg) (tr_to_generation tr) (cr_package_digest res)
      history revoked (st_approvals s) in
  if String.eqb (tr_action tr) ActionRevoke then
    let! record := revoke_record s c res in inl (next (st_revoked s ++ [record]))
  else inl (next (st_revoked s)))).
End accept.

(** ** What an accepted transition does *)

Section accepted.
Context {Cert : Type} (pki : PKI Cert).

Lemma PackageDigest_inl p d : PackageDigest p = inl d → ∃ canonical, d = Digest canonical.
Proof.
unfold PackageDigest, CanonicalDigest. destruct (CanonicalJSON _); [|done]. intros [= <-]. eauto.
Qed.

(** The successor the code builds, given the records it adds. *)
Definition successor (s : RegistryState) (c : Confirmation Cert) (res : ConfirmationResult)
  (history : list RegistryEntry) (records : list Revocation) : RegistryState :=
mkState (pk_scheme (cf_package c)) (pk_revision (cf_package c)) (tr_to_generation (cf_transition c))
  (cr_package_digest res) history (st_revoked s ++ records) (st_approvals s).

Record accepted (s : RegistryState) (c : Confirmation Cert) (res : ConfirmationResult) (s' : RegistryState) : Prop := {
ac_signed : cr_signed res = true;
ac_verdict : cr_verdict res = VerdictAccept;
ac_package : PackageDigest (cf_package c) = inl (cr_package_digest res);
ac_transition : TransitionDigest (cf_transition c) = inl (cr_transition_digest res);
ac_scheme : pk_scheme (cf_package c) = tr_scheme (cf_transition c);
ac_generation : tr_to_generation (cf_transition c) = pk_generation (cf_package c);
ac_from : accept_from s (cf_transition c) = None;
ac_fork : ∀ d, digestAt s (tr_to_generation (cf_transition c)) = Some d → d = cr_package_digest res;
ac_state : ∃ history records,
  s' = successor s c res history records ∧
  (history = st_history s ++ [mkEntry (tr_to_generation (cf_transition c)) (cr_package_digest res)] ∨
   history = st_history s ∧
   ∃ e, list.last (st_history s) = Some e ∧ re_generation e = tr_to_generation (cf_transition c)) ∧
  (records = [] ∧ tr_action (cf_transition c) ≠ ActionRevoke ∨
   records = [tombstone_of c] ∧ tr_action (cf_transition c) = ActionRevoke ∧
   revoke_record pki s c res = inl (tombstone_of c))
}.

Lemma revoke_record_inl s c res r : revoke_record pki s c res = inl r → r = tombstone_of c.
Proof.
unfold revoke_record. rewrite rguard_inl. intros [_ (now & _ & H)%rbind_inl].
apply rguard_inl in H as [_ H]. by injection H as <-.
Qed.

Lemma Accept_inl s c res s' : Accept pki s c res = inl s' → accepted s c res s'.
Proof.
unfold Accept. rewrite rguard_inl, check_seq_None, !guard_None.
intros [[Hsig Hver] (pd & Hpd & (td & Htd & H)%rbind_inl)%rbind_inl].
apply rguard_inl in H as [H Hst]. rewrite !check_seq_None, !guard_None in H.
destruct H as (Hbind & Hsch & Hgen & Hfrom & Hfork). go_bool. subst pd td.
split; auto.
- by apply Z.eqb_eq.
- intros d Hd. rewrite Hd in Hfork. apply guard_None in Hfork. by go_bool.
- set (h := next_history s _) in Hst.
  assert (h = st_history s ++ [mkEntry (tr_to_generation (cf_transition c)) (cr_package_digest res)] ∨
    h = st_history s ∧ ∃ e, list.last (st_history s) = Some e ∧ re_generation e = tr_to_generation (cf_transition c)) as Hh.
  { subst h. unfold next_history. cbn [re_generation]. destruct (list.last (st_history s)) as [e|]; [|by left].
    destruct (Z.eqb_spec (re_generation e) (tr_to_generation (cf_transition c))); [right; eauto|by left]. }
  exists h. destruct (String.eqb_spec (tr_action (cf_transition c)) ActionRevoke) as [Ha|Ha].
  + apply rbind_inl in Hst as (r & Hr & [= <-]). pose proof (revoke_record_inl _ _ _ _ Hr) as ->.
    exists [tombstone_of c]. split; [done|]. split; [done|]. by right.
  + injection Hst as <-. exists []. unfold successor. rewrite app_nil_r. split; [done|]. split; [done|]. by left.
Qed.
End accepted.

(** ** The invariant of the registry *)

(** An empty namespace. *)
Definition initial (s : RegistryState) : Prop :=
  st_generation s = 0 ∧ st_digest s = "" ∧ st_history s = [] ∧ st_revoked s = [].

(** The history holds the generations 1, 2, ..., head in order and ends in the
    head; each digest is revoked at most once, was a head before the current
    one, and carries a usable effective time and replacement. *)
Record registry_inv (s : RegistryState) : Prop := {
  ri_bounds : 0 <= st_generation s <= max_int64;
  ri_generations : re_generation <$> st_history s = seqZ 1 (st_generation s);
  ri_head : list.last (st_history s) =
    if st_generation s =? 0 then None else Some (mkEntry (st_generation s) (st_digest s));
  ri_empty : st_generation s = 0 → st_digest s = "";
  ri_revoked_once : NoDup (rv_digest <$> st_revoked s);
  ri_revoked_past : ∀ r, r ∈ st_revoked s →
    ∃ e, e ∈ st_history s ∧ re_digest e = rv_digest r ∧ re_generation e < st_generation s;
  ri_revoked_valid : ∀ r, r ∈ st_revoked s →
    is_rfc3339 (rv_effective_time r) = true ∧ rv_replacement r ≠ rv_digest r
}.

Lemma initial_inv s : initial s → registry_inv s.
Proof.
  intros (Hg & Hd & Hh & Hr). split; rewrite ?Hg, ?Hd, ?Hh, ?Hr; try done; try apply NoDup_nil_2;
    by intros r ?%not_elem_of_nil.
Qed.

Lemma wrap64_id z : min_int64 <= z <= max_int64 → wrap64 z = z.
Proof. unfold wrap64, min_int64, max_int64. intros. rewrite Z.mod_small by lia. lia. Qed.

(** Within the invariant a transition starts from the head and goes one
    generation further. *)
Lemma accept_from_next s tr :
  registry_inv s → accept_from s tr = None → 1 <= tr_to_generation tr <= max_int64 →
  tr_to_generation tr = st_generation s + 1 ∧
  (tr_action tr = ActionCreate ∧ initial s ∨
   tr_action tr ≠ ActionCreate ∧ tr_from_generation tr = Some (st_generation s) ∧ tr_from_digest tr = st_digest s).
Proof.
  intros I H Hto. unfold accept_from in H.
  destruct (String.eqb_spec (tr_action tr) ActionCreate) as [Ha|Ha].
  - rewrite check_seq_None, !guard_None in H. destruct H as [[[Hg Hh]%orb_false_iff Hd]%orb_false_iff H2].
    go_bool. apply Z.eqb_eq in Hg, H2. apply Nat.eqb_eq, length_zero_iff_nil in Hh.
    split; [lia|]. left. split; [done|]. repeat split; try done.
    destruct (st_revoked s) as [|r rs] eqn:Er; [done|].
    destruct (ri_revoked_past s I r) as (e & He & _); [rewrite Er; by left|].
    rewrite Hh in He. by apply not_elem_of_nil in He.
  - destruct (tr_from_generation tr) as [from|]; [|done].
    rewrite !check_seq_None, !guard_None in H. destruct H as (H1 & H2 & H3). go_bool.
    apply Z.eqb_eq in H1, H3. pose proof (ri_bounds s I). subst from.
    assert (st_generation s ≠ max_int64) as Hmax.
    { intros E. rewrite E in H3. change (wrap64 (max_int64 + 1)) with min_int64 in H3. unfold min_int64 in H3. lia. }
    rewrite wrap64_id in H3 by (unfold min_int64; lia). eauto 10.
Qed.

(** The head is the last entry of a non-empty history. *)
Lemma head_in_history s :
  registry_inv s → st_generation s ≠ 0 → mkEntry (st_generation s) (st_digest s) ∈ st_history s.
Proof.
  intros I Hne. pose proof (ri_head s I) as H. rewrite (proj2 (Z.eqb_neq _ _) Hne) in H.
  apply last_Some in H as [l ->]. set_solver.
Qed.

Section steps.
Context {Cert : Type} (pki : PKI Cert).

(** One persisted transition; the packages of the confirmation path are
  validated ([ParsePackage]) before a result is signed. *)
Definition accept_step (s : RegistryState) (c : Confirmation Cert) (res : ConfirmationResult) (s' : RegistryState) : Prop :=
ValidatePackage (cf_package c) = None ∧ pk_generation (cf_package c) <= max_int64 ∧
Accept pki s c res = inl s'.

(** What a step adds, within the invariant. *)
Record step_effect (s : RegistryState) (c : Confirmation Cert) (res : ConfirmationResult) (s' : RegistryState) : Prop := {
se_generation : st_generation s' = st_generation s + 1;
se_digest : st_digest s' = cr_package_digest res;
se_nonempty : cr_package_digest res ≠ "";
se_history : st_history s' = st_history s ++ [mkEntry (st_generation s + 1) (cr_package_digest res)];
se_origin : tr_action (cf_transition c) = ActionCreate ∧ initial s ∨
  tr_action (cf_transition c) ≠ ActionCreate ∧ tr_from_digest (cf_transition c) = st_digest s ∧
  tr_from_generation (cf_transition c) = Some (st_generation s);
se_revoked : st_revoked s' = st_revoked s ∧ tr_action (cf_transition c) ≠ ActionRevoke ∨
  tr_action (cf_transition c) = ActionRevoke ∧ st_revoked s' = st_revoked s ++ [tombstone_of c] ∧
  revoke_record pki s c res = inl (tombstone_of c)
}.

Lemma ValidatePackage_generation p : ValidatePackage p = None → 1 <= pk_generation p.
Proof.
unfold ValidatePackage. rewrite !check_seq_None, !guard_None. intros H.
destruct H as (_ & _ & _ & _ & _ & _ & _ & _ & H & _). lia.
Qed.

Lemma step_effects s c res s' :
registry_inv s → accept_step s c res s' → step_effect s c res s'.
Proof.
intros I (Hv%ValidatePackage_generation & Hmax & H%Accept_inl).
destruct H as [_ _ Hp _ _ Hg Hf _ (history & records & -> & Hh & Hr)].
destruct (accept_from_next s (cf_transition c) I Hf) as [Hto Horg]; [lia|].
assert (history = st_history s ++ [mkEntry (st_generation s + 1) (cr_package_digest res)]) as ->.
{ destruct Hh as [->|[-> (e & He & Hge)]]; [by rewrite Hto|]. rewrite (ri_head s I) in He.
  destruct (st_generation s =? 0); simplify_eq/=; lia. }
split; cbn [successor st_generation st_digest st_history st_revoked]; auto.
- apply PackageDigest_inl in Hp as [t ->]. done.
- destruct Horg as [?|(? & ? & ?)]; auto.
- destruct Hr as [[-> ?]|(-> & ? & ?)]; [left; by rewrite app_nil_r|by right].
Qed.

Lemma revoke_record_facts s c res r :
revoke_record pki s c res = inl r →
let tr := cf_transition c in
tr_from_digest tr ≠ "" ∧ tr_replacement tr ≠ tr_from_digest tr ∧ is_rfc3339 (tr_effective_time tr) = true ∧
tr_from_digest tr ∉ rv_digest <$> st_revoked s.
Proof.
unfold revoke_record. rewrite rguard_inl, !check_seq_None, !guard_None.
intros [(H1 & H2 & H3 & H4 & _) _]. go_bool. split_and!; auto.
intros (x & Hx & Hin)%list_elem_of_fmap. unfold isRevoked in H4.
apply (proj2 (not_true_iff_false _)) in H4. destruct H4. apply existsb_exists. exists x.
split; [by apply list_elem_of_In|]. by apply String.eqb_eq.
Qed.

Lemma step_inv s c res s' : registry_inv s → accept_step s c res s' → registry_inv s'.
Proof.
intros I Hstep. pose proof Hstep as (Hv%ValidatePackage_generation & Hmax & Hacc%Accept_inl).
pose proof (ac_generation _ _ _ _ _ Hacc) as Hgen.
destruct (step_effects _ _ _ _ I Hstep) as [Eg Ed En Eh Eo Er]. pose proof (ri_bounds s I) as Hb.
assert (st_generation s' = pk_generation (cf_package c)) as Hgs.
{ destruct (ac_state _ _ _ _ _ Hacc) as (? & ? & -> & _). done. }
assert (∀ e, e ∈ st_history s → e ∈ st_history s') as Hmono by (rewrite Eh; set_solver).
assert (∀ r, r ∈ st_revoked s → ∃ e, e ∈ st_history s' ∧ re_digest e = rv_digest r ∧ re_generation e < st_generation s')
  as Hpast.
{ intros r Hr. destruct (ri_revoked_past s I r Hr) as (e & He & ? & ?). exists e. split_and!; auto; lia. }
split.
- lia.
- rewrite Eh, fmap_app, (ri_generations s I), Eg, (seqZ_app 1 (st_generation s) 1) by lia.
  rewrite (seqZ_cons (1 + st_generation s) 1), (seqZ_nil (Z.succ (1 + st_generation s))) by lia. cbn. by rewrite Z.add_comm.
- rewrite Eh, last_snoc, Eg. destruct (Z.eqb_spec (st_generation s + 1) 0); [lia|]. by rewrite Ed.
- rewrite Eg. lia.
- destruct Er as [[-> _]|(_ & -> & Hrec)]; [apply (ri_revoked_once s I)|].
  apply revoke_record_facts in Hrec as (_ & _ & _ & Hnew). rewrite fmap_app. apply list.NoDup_app.
  split_and!; [apply (ri_revoked_once s I)| |apply NoDup_singleton].
  intros d Hd ->%list_elem_of_singleton. by apply Hnew.
- destruct Er as [[-> _]|(Ha & -> & Hrec)]; [done|]. intros r [Hr|Hr]%elem_of_app; [by apply Hpast|].
  apply list_elem_of_singleton in Hr as ->. destruct Eo as [[Ha' _]|(_ & Hfd & _)]; [by rewrite Ha in Ha'|].
  apply revoke_record_facts in Hrec as (Hne & _).
  assert (st_generation s ≠ 0) as Hg0.
  { intros E. rewrite Hfd in Hne. by apply Hne, (ri_empty s I). }
  exists (mkEntry (st_generation s) (st_digest s)). split; [apply Hmono, head_in_history; auto|].
  split; [by rewrite <- Hfd|]. cbn [re_generation]. lia.
- destruct Er as [[-> _]|(Ha & -> & Hrec)]; [apply (ri_revoked_valid s I)|].
  intros r [Hr|Hr]%elem_of_app; [by apply (ri_revoked_valid s I)|].
  apply list_elem_of_singleton in Hr as ->. apply revoke_record_facts in Hrec as (_ & ? & ? & _). done.
Qed.
End steps.

(** ** Reachable states *)

Definition with_approvals (s : RegistryState) (aps : list Approval) : RegistryState :=
  mkState (st_scheme s) (st_revision s) (st_generation s) (st_digest s) (st_history s) (st_revoked s) aps.

(** One step of a deployer: it persists a confirmed transition, or records
    approvals. *)
Inductive registry_step {Cert} (pki : PKI Cert) : RegistryState → RegistryState → Prop :=
  | step_accept s c res s' : accept_step pki s c res s' → registry_step pki s s'
  | step_approvals s aps : registry_step pki s (with_approvals s aps).

Definition reachable {Cert} (pki : PKI Cert) (s : RegistryState) : Prop :=
  ∃ s0, initial s0 ∧ rtc (registry_step pki) s0 s.

Lemma registry_step_inv {Cert} (pki : PKI Cert) s s' :
  registry_step pki s s' → registry_inv s → registry_inv s'.
Proof. intros [? ? ? ? H|? aps] I; [by eapply step_inv|]. by destruct I. Qed.

Lemma steps_inv {Cert} (pki : PKI Cert) s s' :
  rtc (registry_step pki) s s' → registry_inv s → registry_inv s'.
Proof. induction 1; eauto using registry_step_inv. Qed.

Lemma reachable_inv {Cert} (pki : PKI Cert) s : reachable pki s → registry_inv s.
Proof. intros (s0 & H0 & H). eauto using steps_inv, initial_inv. Qed.

(** ** The abstract ledger

    What a namespace promises: an append-only log of package digests, of which
    only the current head can be revoked, once. *)

Record ledger := mkLedger { lg_log : list string; lg_revoked : list string }.

Inductive ledger_step : ledger → ledger → Prop :=
  | ledger_publish l d : ledger_step l (mkLedger (lg_log l ++ [d]) (lg_revoked l))
  | ledger_revoke l h d :
      list.last (lg_log l) = Some h → h ∉ lg_revoked l →
      ledger_step l (mkLedger (lg_log l ++ [d]) (lg_revoked l ++ [h])).

Definition abstract_ledger (s : RegistryState) : ledger :=
  mkLedger (re_digest <$> st_history s) (rv_digest <$> st_revoked s).

Lemma step_refines {Cert} (pki : PKI Cert) s s' :
  registry_inv s → registry_step pki s s' → rtc ledger_step (abstract_ledger s) (abstract_ledger s').
Proof.
  intros I Hstep. destruct Hstep as [s c res s' H|s aps]; [|done]. destruct (step_effects _ _ _ _ _ I H) as [Eg Ed _ Eh Eo Er].
  unfold abstract_ledger. rewrite Eh, fmap_app. apply rtc_once. destruct Er as [[-> _]|(Ha & -> & Hrec)].
  - by apply (ledger_publish (mkLedger _ _)).
  - pose proof Hrec as (Hne & _ & _ & Hnew)%revoke_record_facts.
    destruct Eo as [[Ha' _]|(_ & Hfd & _)]; [by rewrite Ha in Ha'|].
    rewrite fmap_app. cbn [fmap list_fmap tombstone_of rv_digest re_digest].
    apply (ledger_revoke (mkLedger _ _)); [|done]. cbn [lg_log].
    rewrite fmap_last, (ri_head s I). destruct (Z.eqb_spec (st_generation s) 0) as [E|_].
    + by rewrite Hfd, (ri_empty s I E) in Hne.
    + cbn. by rewrite Hfd.
Qed.

(** Lookup by generation is lookup in the log. *)
Lemma find_generation (h : list RegistryEntry) k g :
  re_generation <$> h = seqZ k (Z.of_nat (length h)) →
  List.find (λ e, re_generation e =? g) h = if k <=? g then h !! Z.to_nat (g - k) else None.
Proof.
  revert k. induction h as [|e h IH]; intros k H; [by destruct (k <=? g)|].
  rewrite seqZ_cons in H by (simpl; lia). rewrite fmap_cons in H. injection H as He H.
  cbn [List.find]. rewrite He.
  destruct (Z.eqb_spec k g) as [->|Hne].
  - rewrite Z.leb_refl, Z.sub_diag. done.
  - rewrite (IH (Z.succ k)) by (rewrite H; f_equal; simpl; lia).
    destruct (Z.leb_spec k g), (Z.leb_spec (Z.succ k) g); try lia; [|done].
    replace (Z.to_nat (g - k)) with (S (Z.to_nat (g - Z.succ k))) by lia. done.
Qed.

Lemma digestAt_log s g :
  registry_inv s → 1 <= g → digestAt s g = lg_log (abstract_ledger s) !! Z.to_nat (g - 1).
Proof.
  intros I Hg. pose proof (ri_bounds s I) as Hb.
  assert (Z.of_nat (length (st_history s)) = st_generation s) as Hlen.
  { pose proof (f_equal length (ri_generations s I)) as E. rewrite length_fmap, length_seqZ in E. lia. }
  unfold digestAt, abstract_ledger. cbn [lg_log]. rewrite list_lookup_fmap.
  rewrite (find_generation _ 1) by (by rewrite Hlen, (ri_generations s I)).
  destruct (Z.leb_spec 1 g); [|lia]. destruct (Z.eqb_spec (st_generation s) g) as [E|]; [|done].
  destruct (negb _); [|done]. cbn [andb]. pose proof (ri_head s I) as Hl.
  destruct (Z.eqb_spec (st_generation s) 0); [lia|]. rewrite last_lookup in Hl.
  replace (Z.to_nat (g - 1)) with (pred (length (st_history s))) by lia. by rewrite Hl.
Qed.

(** C8: the registry implements an append-only ledger.  Every state a deployer
    can reach from an empty namespace by persisting confirmed transitions
    (create, update, revoke, root-rotate) is the image of a ledger built by
    appending digests and revoking only the current head, each digest at most
    once; its head is the last entry of the log, its generation is the length of
    the log, and the lookup by generation reads the log. *)
Theorem registry_refines_ledger {Cert} (pki : PKI Cert) s :
  reachable pki s →
  let l := abstract_ledger s in
  rtc ledger_step (mkLedger [] []) l ∧
  st_generation s = Z.of_nat (length (lg_log l)) ∧
  list.last (lg_log l) = (if st_generation s =? 0 then None else Some (st_digest s)) ∧
  (∀ g, 1 <= g → digestAt s g = lg_log l !! Z.to_nat (g - 1)) ∧
  NoDup (lg_revoked l) ∧ (∀ d, d ∈ lg_revoked l → d ∈ lg_log l).
Proof.
  intros Hr. pose proof (reachable_inv _ _ Hr) as I. cbn zeta. split_and!.
  - destruct Hr as (s0 & Hi & Hs). assert (abstract_ledger s0 = mkLedger [] []) as E0.
    { destruct Hi as (_ & _ & Eh & Er). unfold abstract_ledger. by rewrite Eh, Er. }
    rewrite <- E0. apply initial_inv in Hi. clear E0 I.
    induction Hs as [|x y z Hxy _ IH]; [done|]. etrans; [by eapply step_refines|]. eauto using registry_step_inv.
  - pose proof (f_equal length (ri_generations s I)) as E. pose proof (ri_bounds s I).
    rewrite length_fmap, length_seqZ in E. cbn [abstract_ledger lg_log]. rewrite length_fmap. lia.
  - cbn [abstract_ledger lg_log]. rewrite fmap_last, (ri_head s I). by destruct (st_generation s =? 0).
  - intros g Hg. by apply digestAt_log.
  - apply (ri_revoked_once s I).
  - intros d (r & -> & Hin)%list_elem_of_fmap. destruct (ri_revoked_past s I r Hin) as (e & He & Hd & _).
    cbn [abstract_ledger lg_log]. rewrite <- Hd. by apply list_elem_of_fmap_2.
Qed.

(** ** Revocation *)

Definition effective_by (now : Time) (r : Revocation) : bool :=
  match rfc3339_time (rv_effective_time r) with Some t => t <=? now | None => false end.

Lemma revoked_at_spec rs d now :
  (∀ r, r ∈ rs → is_rfc3339 (rv_effective_time r) = true ∧ rv_replacement r ≠ rv_digest r) →
  revoked_at rs d now = Some (existsb (λ r, String.eqb (rv_digest r) d && effective_by now r) rs).
Proof.
  induction rs as [|r rs IH]; intros Hv; [done|]. cbn [revoked_at existsb].
  rewrite IH by (intros; apply Hv; set_solver). destruct (Hv r) as [Ht Hr]; [by left|].
  destruct (String.eqb (rv_digest r) d); [|done]. cbn [negb andb].
  rewrite (proj2 (String.eqb_neq _ _) Hr), andb_false_r.
  destruct (String.eqb_spec (rv_effective_time r) "") as [E|_]; [by rewrite E in Ht|].
  unfold effective_by, is_rfc3339 in *. destruct (rfc3339_time _) as [t|]; [|done].
  rewrite Z.leb_antisym. by destruct (now <? t).
Qed.

Lemma isRevokedAt_inv s d now :
  registry_inv s →
  isRevokedAt s d now = Some (existsb (λ r, String.eqb (rv_digest r) d && effective_by now r) (st_revoked s)).
Proof. intros I. apply revoked_at_spec, (ri_revoked_valid s I). Qed.

Lemma steps_grow {Cert} (pki : PKI Cert) s s' :
  registry_inv s → rtc (registry_step pki) s s' →
  st_history s `prefix_of` st_history s' ∧ st_revoked s `prefix_of` st_revoked s'.
Proof.
  intros I H. induction H as [|x y z Hxy _ IH]; [done|].
  destruct (IH (registry_step_inv _ _ _ Hxy I)) as [P1 P2].
  destruct Hxy as [x c res y H|x aps]; [|done].
  destruct (step_effects _ _ _ _ _ I H) as [_ _ _ Eh _ Er].
  split; (etrans; [|eassumption]).
  - rewrite Eh. by apply prefix_app_r.
  - destruct Er as [[-> _]|(_ & -> & _)]; [done|]. by apply prefix_app_r.
Qed.

Lemma effective_by_mono now later r : now <= later → effective_by now r = true → effective_by later r = true.
Proof. unfold effective_by. destruct (rfc3339_time _); [|done]. lia. Qed.

(** C9: revocation is permanent and never early.  In every reachable state the
    revocation test of a digest succeeds without a state error and holds exactly
    when a recorded tombstone for it has become effective; once it holds it
    holds in every later state at every later time, and no recorded generation
    is ever dropped or rewritten. *)
Theorem revocation_permanent {Cert} (pki : PKI Cert) s s' :
  reachable pki s → rtc (registry_step pki) s s' →
  st_history s `prefix_of` st_history s' ∧
  ∀ d now, ∃ b, isRevokedAt s d now = Some b ∧
    (b = true ↔ ∃ r t, r ∈ st_revoked s ∧ rv_digest r = d ∧
                       rfc3339_time (rv_effective_time r) = Some t ∧ t <= now) ∧
    (b = true → ∀ later, now <= later → isRevokedAt s' d later = Some true).
Proof.
  intros Hr Hs. pose proof (reachable_inv _ _ Hr) as I. pose proof (steps_inv _ _ _ Hs I) as I'.
  destruct (steps_grow _ _ _ I Hs) as [Hh Hv]. split; [done|]. intros d now.
  eexists. split; [by apply isRevokedAt_inv|]. rewrite existsb_exists. split.
  - unfold effective_by. split.
    + intros (r & Hin%list_elem_of_In & H). go_bool. exists r. destruct (rfc3339_time _) as [t|]; [|done].
      exists t. split_and!; auto. lia.
    + intros (r & t & Hin & <- & Ht & Hle). exists r. split; [by apply list_elem_of_In|].
      rewrite String.eqb_refl, Ht. simpl. lia.
  - intros (r & Hin & H) later Hl. rewrite isRevokedAt_inv by done. f_equal. apply existsb_exists.
    go_bool. exists r. split.
    + apply list_elem_of_In. destruct Hv as [k ->]. apply elem_of_app. left. by apply list_elem_of_In.
    + rewrite (proj2 (String.eqb_eq _ _)) by done. by eapply effective_by_mono.
Qed.

(** ** A concrete namespace: created, then its first package is revoked *)

Definition w_identity : Identity :=
  mkIdentity (mkPrincipal "acme" "corp" (Sum256 "key")) [mkAICCap "varwof/scheme-admin-v1:scheme:*" ""].
Definition w_pki : PKI unit :=
  mkPKI (λ _, "certificate") (λ _, "key") (λ _, 1) (λ _ _ _, true)
    (λ sig _, if String.eqb sig "signature" then Some (Some tt) else None)
    (λ _, Some (Some w_identity)) (λ _, true).
Definition w_policy : TrustPolicy :=
  mkPolicy "" None 0 None None None 1 "" "2026-01-02T00:00:00Z" 0 0 "" [] 0.

Definition digest_text (r : result string) : string := match r with inl d => d | inr _ => "" end.
Definition w_package (g : Z) (prev : string) : Package :=
  mkPackage PackageVersion "acme/db-v1" "1.0" (Digest "definition") (Digest "declaration") "CLC-1.19" ChangeMajor
    prev "principal:acme" g "" "".
Definition w_digest1 : string := Eval vm_compute in digest_text (PackageDigest (w_package 1 "")).
Definition w_digest2 : string := Eval vm_compute in digest_text (PackageDigest (w_package 2 w_digest1)).
Definition w_create : Transition :=
  mkTransition TransitionVersion ActionCreate "acme/db-v1" "/acme/db-v1" None 1 "" w_digest1 ChangeMajor "CLC-1.19"
    "" "" "" None "" [] 0.
Definition w_revoke : Transition :=
  mkTransition TransitionVersion ActionRevoke "acme/db-v1" "/acme/db-v1" (Some 1) 2 w_digest1 w_digest2 ChangeMajor
    "CLC-1.19" "compromised" "2026-01-01T00:00:00Z" "" (Some 2) "" [] 0.
Definition w_text (tr : Transition) : string :=
  match CanonicalJSON (transition_any tr) with inl t => t | inr _ => "" end.
Definition w_result (p : Package) (tr : Transition) : ConfirmationResult :=
  mkConfirmed VerdictAccept "" (tr_action tr) (pk_scheme p) (tr_namespace tr) (pk_generation p)
    (digest_text (PackageDigest p)) (digest_text (TransitionDigest tr)) "" "" "" "" "" "" "" true "" "" "" "" 0.
Definition w_confirmation (s : RegistryState) (p : Package) (tr : Transition) : Confirmation unit :=
  mkConfirmation p tr "definition" "declaration" (w_text tr) "signature" (Some tt) [Some tt] [] s w_policy.
Definition w_accept (s : RegistryState) (p : Package) (tr : Transition) : RegistryState :=
  match Accept w_pki s (w_confirmation s p tr) (w_result p tr) with inl s' => s' | inr _ => s end.
Definition w_state0 : RegistryState := mkState "acme/db-v1" "" 0 "" [] [] [].
Definition w_state1 : RegistryState := Eval vm_compute in w_accept w_state0 (w_package 1 "") w_create.
Definition w_state2 : RegistryState := Eval vm_compute in w_accept w_state1 (w_package 2 w_digest1) w_revoke.

Lemma w_step1 : registry_step w_pki w_state0 w_state1.
Proof.
  apply (step_accept w_pki _ (w_confirmation w_state0 (w_package 1 "") w_create) (w_result (w_package 1 "") w_create)).
  vm_compute. done.
Qed.

Lemma w_step2 : registry_step w_pki w_state1 w_state2.
Proof.
  apply (step_accept w_pki _ (w_confirmation w_state1 (w_package 2 w_digest1) w_revoke)
           (w_result (w_package 2 w_digest1) w_revoke)).
  vm_compute. done.
Qed.

Lemma w_reachable1 : reachable w_pki w_state1.
Proof. exists w_state0. split; [done|]. apply rtc_once, w_step1. Qed.

Lemma w_reachable2 : reachable w_pki w_state2.
Proof. exists w_state0. split; [done|]. eapply rtc_l; [apply w_step1|]. apply rtc_once, w_step2. Qed.

Lemma registry_refines_ledger_witness :
  abstract_ledger w_state2 = mkLedger [w_digest1; w_digest2] [w_digest1] ∧
  rtc ledger_step (mkLedger [] []) (abstract_ledger w_state2).
Proof.
  split; [vm_compute; reflexivity|]. apply (registry_refines_ledger w_pki w_state2 w_reachable2).
Defined.

Lemma revocation_permanent_witness :
  isRevokedAt w_state1 w_digest1 (2026 * 366 * 86400 * Second) = Some false ∧
  st_history w_state1 `prefix_of` st_history w_state2.
Proof.
  split; [vm_compute; reflexivity|].
  apply (revocation_permanent w_pki w_state1 w_state2 w_reachable1 (rtc_once _ _ w_step2)).
Defined.
