(* ===== verification/SchemeConfirm.v ===== *)
(** * Confirmation of a scheme publication

    schemeadmin/confirm.go (the deployer's decision on one package and
    transition), signed.go (the same over detached signatures), approval.go (the
    approvals of a policy that requires them), delegation.go (sub-grants of
    administration authority) and [RegistryState.AcceptSigned] of state.go. *)

From S2P Require Import Prelude GoStrings Regex GoFloat GoTime Json Canonical Ids Values Bounds.
From S2P Require Import JsonText JsonStruct.
From S2P Require Import Grants Constraints Authorize Containment Sha256 Domains DomainsProofs.
From S2P Require Import SchemeArtifacts SchemeState.

(** ** The JSON objects behind the digests of the decision record *)

Definition strings_any (l : option (list string)) : any :=
  match l with None => ANil | Some l => AList (map AStr l) end.
Definition grant_any (g : Grant) : any :=
  omitempty [member "id" (AStr (g_id g));
             match g_params g with Some ((_ :: _) as m) => member "params" (AMap m) | _ => None end;
             match g_bounds g with Some ((_ :: _) as m) => member "param_bounds" (AMap m) | _ => None end;
             member_strs "constraints" (g_constraints g)].
(** A raw message: null when empty, an error when it is not JSON. *)
Definition raw_any (raw : string) : option any := if String.eqb raw "" then Some ANil else unmarshal_value raw.

Definition policy_any (p : TrustPolicy) : option any :=
  declaration ← raw_any (po_declaration p);
  Some (omitempty [
    member "root_package_digest" (AStr (po_root_package p)); member "root_keys" (strings_any (po_root_keys p));
    member "root_threshold" (AInt KInt (po_root_threshold p));
    member "root_grants" (match po_root_grants p with None => ANil | Some l => AList (map grant_any l) end);
    member "supported_clc_revisions" (strings_any (po_clc_revisions p));
    member "namespace_prefixes" (strings_any (po_prefixes p)); member "max_major" (AInt KInt (po_max_major p));
    member "administration_declaration" declaration; member "observed_at" (AStr (po_observed_at p));
    member_int "max_staleness_seconds" (po_max_staleness p); member_int "approval_threshold" (po_approval_threshold p);
    member_str "next_root_package_digest" (po_next_root_package p);
    member_strs "next_root_keys" (po_next_root_keys p); member_int "next_root_threshold" (po_next_root_threshold p)]).

(** A byte slice is its padded base64 text. *)
Definition member_bytes (k b : string) : option (string * any) :=
  if String.eqb b "" then None else Some (k, AStr (StdEncoding (bytes_of b))).
Definition member_list (k : string) (l : list any) : option (string * any) :=
  match l with [] => None | _ => Some (k, AList l) end.
Definition entry_any (e : RegistryEntry) : any :=
  omitempty [member "generation" (AInt KInt64 (re_generation e)); member "package_digest" (AStr (re_digest e))].
Definition revocation_any (r : Revocation) : any :=
  omitempty [member "package_digest" (AStr (rv_digest r)); member "generation" (AInt KInt64 (rv_generation r));
             member "effective_time" (AStr (rv_effective_time r)); member "reason" (AStr (rv_reason r));
             member_str "replacement_digest" (rv_replacement r); member_bytes "tombstone" (rv_tombstone r);
             member_bytes "signature" (rv_signature r)].
Definition approval_any (a : Approval) : any :=
  omitempty [member "package_digest" (AStr (ap_package a)); member "transition_digest" (AStr (ap_transition a));
             member "approver" (AStr (ap_approver a)); member_bytes "signature" (ap_signature a)].
Definition state_any (s : RegistryState) : any :=
  omitempty [member "scheme" (AStr (st_scheme s)); member_str "revision" (st_revision s);
             member "generation" (AInt KInt64 (st_generation s)); member "package_digest" (AStr (st_digest s));
             member_list "history" (map entry_any (st_history s));
             member_list "revoked" (map revocation_any (st_revoked s));
             member_list "approvals" (map approval_any (st_approvals s))].

(** [if d, err := ...; err == nil { field = d }]. *)
Definition digest_or_empty (r : result string) : string := match r with inl d => d | inr _ => "" end.
Definition PolicyDigest (p : TrustPolicy) : string :=
  match policy_any p with Some v => digest_or_empty (CanonicalDigest v) | None => "" end.
Definition StateDigest (s : RegistryState) : string := digest_or_empty (CanonicalDigest (state_any s)).

Definition inputsDigest (r : ConfirmationResult) : string :=
  digest_or_empty (CanonicalDigest (AMap [
    ("package_digest", AStr (cr_package_digest r)); ("transition_digest", AStr (cr_transition_digest r));
    ("management_operation_digest", AStr (cr_operation_digest r));
    ("approval_operation_digest", AStr (cr_approval_digest r));
    ("publisher_certificate_digest", AStr (cr_certificate_digest r)); ("publisher_key_id", AStr (cr_key_id r));
    ("trust_policy_digest", AStr (cr_policy_digest r)); ("registry_state_digest", AStr (cr_state_digest r));
    ("revoked_package_digest", AStr (cr_revoked_digest r)); ("revocation_reason", AStr (cr_revocation_reason r));
    ("revocation_effective_time", AStr (cr_revocation_time r)); ("replacement_digest", AStr (cr_replacement r));
    ("tombstone_generation", AInt KInt64 (cr_tombstone_generation r))])).

(** ** Sets of keys *)

(** [seen[x]++] and the count of a key. *)
Definition count_of (x : string) (seen : gomap Z) : Z := default 0 (mget x seen).
Definition count_keys (a : list string) : gomap Z := fold_left (λ seen x, mset x (count_of x seen + 1) seen) a [].
Fixpoint drain (seen : gomap Z) (b : list string) : bool :=
  match b with
  | [] => true
  | x :: b' => if count_of x seen =? 0 then false else drain (mset x (count_of x seen - 1) seen) b'
  end.
Definition sameSet (a b : list string) : bool :=
  if negb (length a =? length b)%nat then false else drain (count_keys a) b.

(** ** Grants of a certificate *)

Definition coversGrantID (grantID opID : string) : bool :=
  if String.eqb grantID opID then true
  else if HasSuffix grantID ":*" then
    let prefix := TrimSuffix grantID "*" in
    (String.length prefix <? String.length opID)%nat && HasPrefix opID prefix
  else false.

(** [raw["k"].(map[string]any)]: present with another type is a refusal. *)
Definition object_member (k : string) (raw : gomap any) : option (option (gomap any)) :=
  match mget k raw with None => Some None | Some (AMap m) => Some (Some m) | Some _ => None end.

Definition grantFromAICCapability (cap : AICCapability) : option Grant :=
  let bare := mkGrant (ac_full_id cap) None None [] in
  if String.eqb (ac_parameters cap) "" then Some bare
  else
    raw ← unmarshal_object (ac_parameters cap);
    params ← object_member "params" (entries raw);
    bounds ← object_member "param_bounds" (entries raw);
    match params, bounds with
    | None, None => Some (mkGrant (ac_full_id cap) raw None [])
    | _, _ => Some (mkGrant (ac_full_id cap) params bounds [])
    end.

Definition grantsFor (aic : Identity) (fullID : string) : list Grant :=
  omap (λ cap, if negb (coversGrantID (ac_full_id cap) fullID) then None else grantFromAICCapability cap)
    (id_capabilities aic).

Section confirm.
Context (lower_table : Z → Z).

(** The grants inside at least one root grant. *)
Definition contained_by (roots : list Grant) (dm : gomap DomainSpec) (g : Grant) : bool :=
existsb (λ r, bool_decide (ContainsWithDomains lower_table r g dm dm = None)) roots.
Definition containGrants (grants roots : list Grant) (dm : gomap DomainSpec) : list Grant :=
List.filter (contained_by roots dm) grants.

Context {Cert : Type} (pki : PKI Cert).

Definition names_principal (want : string) (p : PrincipalUid) : bool :=
String.eqb want (pu_identifier p) || String.eqb want (pu_realm p +:+ ":" +:+ pu_identifier p).

Definition verifyPublisher (pkg : Package) (cert : option Cert) (roots : list (option Cert)) (now : Time)
  : result Identity :=
let! aic := verifyCertificate pki cert roots now in
if negb (names_principal (TrimPrefix (pk_publisher pkg) "principal:") (id_principal aic))
then inr CodePublisherMismatch else inl aic.

(** ** Root rotation *)

Definition key_of (cert : Cert) : string := keyIDOf (ct_spki pki cert).

(** The distinct current-root keys among the verified signers. *)
Definition current_signers (p : TrustPolicy) (signers : list (option Cert)) : list string :=
remove_dups (List.filter (λ k, mem_key k (items (po_root_keys p))) (map key_of (omap id signers))).

Definition checkRootRotation (c : Confirmation Cert) (publisher : Cert) : check :=
let p := cf_policy c in let tr := cf_transition c in
let signerKey := key_of publisher in
let inCurrent := mem_key signerKey (items (po_root_keys p)) in
let inNext := mem_key signerKey (po_next_root_keys p) in
let signers := match cf_root_signers c with [] => [Some publisher] | l => l end in
guard (inNext && negb inCurrent) CodeRootSelfAuthorized ;;?
guard (negb inCurrent) CodeRootNoCurrentRoot ;;?
guard (po_root_threshold p <? 1) CodeRootPolicyMismatch ;;?
guard (Z.of_nat (length (current_signers p signers)) <? po_root_threshold p) CodeRootThreshold ;;?
guard (String.eqb (po_root_package p) "" || negb (String.eqb (tr_from_digest tr) (po_root_package p)))
  CodeRootPolicyMismatch ;;?
guard (String.eqb (po_next_root_package p) "" || (length (po_next_root_keys p) =? 0)%nat ||
       (po_next_root_threshold p <? 1)) CodeRootPolicyMismatch ;;?
guard (negb (String.eqb (tr_next_root_package tr) (po_next_root_package p))) CodeRootPolicyMismatch ;;?
guard (negb (tr_next_root_threshold tr =? po_next_root_threshold p)) CodeRootPolicyMismatch ;;?
guard (negb (sameSet (tr_next_root_keys tr) (po_next_root_keys p))) CodeRootPolicyMismatch ;;?
guard (Z.of_nat (length (tr_next_root_keys tr)) <? tr_next_root_threshold tr) CodeRootThreshold ;;?
guard (String.eqb (po_next_root_package p) (po_root_package p)) CodeRootSelfAuthorized ;;?
guard (negb (String.eqb (tr_to_digest tr) (po_next_root_package p))) CodeRootPolicyMismatch.

(** ** State, freshness *)

Definition checkState (c : Confirmation Cert) : check :=
let s := cf_state c in let tr := cf_transition c in
if String.eqb (tr_action tr) ActionCreate then
  guard (negb (length (st_history s) =? 0)%nat || negb (st_generation s =? 0) || negb (String.eqb (st_digest s) ""))
    CodeStateNotEmpty
else
  match digestAt s (tr_to_generation tr) with
  | Some d => guard (negb (String.eqb d (tr_to_digest tr))) CodeGenerationFork
  | None => None
  end ;;?
  match tr_from_generation tr with
  | None => Some CodeTransitionShape
  | Some from =>
      guard (negb (st_generation s =? from)) CodeStateGeneration ;;?
      guard (negb (String.eqb (st_digest s) (tr_from_digest tr))) CodeStateDigest ;;?
      guard (negb (tr_to_generation tr =? wrap64 (from + 1))) CodeStateGeneration ;;?
      guard (tr_to_generation tr <=? HeadOf s) CodeGenerationRollback ;;?
      guard (String.eqb (tr_action tr) ActionUpdate && negb (String.eqb (st_revision s) "") &&
             negb (revisionFollows (st_revision s) (pk_revision (cf_package c)) (tr_change_class tr)))
        CodeChangeClassInvalid
  end.

Definition clockSkew : Z := 5 * 60 * Second.

Definition checkFreshness (pkg : Package) (policy : TrustPolicy) : check :=
match policyTime policy with
| inr e => Some e
| inl now =>
    match (if String.eqb (pk_issued_at pkg) "" then Some 0 else rfc3339_time (pk_issued_at pkg)) with
    | None => Some CodePackageShape
    | Some issued =>
        guard (negb (String.eqb (pk_issued_at pkg) "") && After issued (now + clockSkew)) CodePackageStale ;;?
        (if String.eqb (pk_valid_until pkg) "" then None
         else match rfc3339_time (pk_valid_until pkg) with
              | None => Some CodePackageShape
              | Some vu =>
                  guard (negb (IsZero issued) && negb (After vu issued)) CodePackageShape ;;?
                  guard (After now vu) CodePackageExpired
              end) ;;?
        (if 0 <? po_max_staleness policy then
           guard (String.eqb (pk_issued_at pkg) "") CodePackageStale ;;?
           guard (seconds (po_max_staleness policy) <? Sub now issued) CodePackageStale
         else None)
    end
end.

(** ** Approvals (approval.go) *)

Definition maxApprovalRecords : nat := 4096.

Definition ApprovalSigningBytes (pkg : Package) (tr : Transition) : result string :=
let! op := BuildApprovalOperation pkg tr in
match CanonicalJSON (operation_any op) with inl b => inl b | inr _ => inr "" end.

(** The approver and key of one valid approval. *)
Definition approval_by (c : Confirmation Cert) (now : Time) (payload : string) (op : Operation)
  (dm : gomap DomainSpec) (a : Approval) : result (string * string) :=
if String.eqb (ap_signature a) "" then inr CodeApprovalInvalid
else
  match VerifyDetached pki (ap_signature a) payload with
  | None | Some None => inr CodeApprovalInvalid
  | Some (Some cert) =>
      match verifyCertificate pki (Some cert) (cf_roots c) now with
      | inr _ => inr CodeApprovalInvalid
      | inl aic =>
          let want := TrimPrefix (ap_approver a) "principal:" in
          if String.eqb want "" || negb (names_principal want (id_principal aic)) then inr CodeApprovalInvalid
          else
            let grants := grantsFor aic (op_id op) in
            if (length grants =? 0)%nat then inr CodeApprovalInvalid
            else
              let contained := containGrants grants (items (po_root_grants (cf_policy c))) dm in
              if (length contained =? 0)%nat then inr CodeApprovalInvalid
              else if negb (bool_decide (d_verdict (AuthorizeSetWithDomains lower_table contained op dm) = VerdictAllow))
              then inr CodeApprovalInvalid
              else inl (pu_realm (id_principal aic) +:+ ":" +:+ pu_identifier (id_principal aic), key_of cert)
      end
  end.

(** The loop: the principals and the keys that approved so far; a duplicate is
  an error. *)
Fixpoint count_approvals (c : Confirmation Cert) (now : Time) (pkgDigest trDigest payload : string) (op : Operation)
  (dm : gomap DomainSpec) (approvals : list Approval) (approvers keys : list string) : result (list string * list string) :=
match approvals with
| [] => inl (approvers, keys)
| a :: rest =>
    if negb (String.eqb (ap_package a) pkgDigest) || negb (String.eqb (ap_transition a) trDigest)
    then count_approvals c now pkgDigest trDigest payload op dm rest approvers keys
    else
      let! pk := approval_by c now payload op dm a in
      if mem_key pk.1 approvers then inr CodeApprovalInvalid
      else if mem_key pk.2 keys then inr CodeApprovalInvalid
      else count_approvals c now pkgDigest trDigest payload op dm rest (pk.1 :: approvers) (pk.2 :: keys)
end.

Definition verifyApprovals (c : Confirmation Cert) (now : Time) (pkgDigest trDigest : string) : result Z :=
match ApprovalSigningBytes (cf_package c) (cf_transition c), BuildApprovalOperation (cf_package c) (cf_transition c) with
| inl payload, inl op =>
    let dm := domainMapFor (po_declaration (cf_policy c)) (capabilityOf (op_id op)).1 in
    if (maxApprovalRecords <? length (st_approvals (cf_state c)))%nat then inr CodeApprovalInvalid
    else
      let! r := count_approvals c now pkgDigest trDigest payload op dm (st_approvals (cf_state c)) [] [] in
      inl (Z.of_nat (length r.1))
| _, _ => inr CodeApprovalInvalid
end.

(** ** The decision (confirm.go) *)

(** The package and the transition describe the same package. *)
Definition same_package (pkg : Package) (tr : Transition) : check :=
guard (negb (String.eqb (pk_scheme pkg) (tr_scheme tr))) CodePackageTransitionMismatch ;;?
guard (negb (pk_generation pkg =? tr_to_generation tr)) CodePackageTransitionMismatch ;;?
guard (negb (String.eqb (pk_change_class pkg) (tr_change_class tr))) CodePackageTransitionMismatch ;;?
guard (negb (String.eqb (pk_clc_revision pkg) (tr_clc_revision tr))) CodePackageTransitionMismatch ;;?
match PackageDigest pkg with
| inr _ => Some CodePackageTransitionMismatch
| inl d => guard (negb (String.eqb d (tr_to_digest tr))) CodePackageTransitionMismatch
end ;;?
guard (negb (String.eqb (tr_from_digest tr) "") && negb (String.eqb (pk_previous pkg) (tr_from_digest tr)))
  CodePackageTransitionMismatch.

(** The publisher's grants, inside the root authority, allow the operation. *)
Definition authority (c : Confirmation Cert) (aic : Identity) : check :=
match BuildManagementOperation (cf_package c) (cf_transition c) with
| inr e => Some e
| inl op =>
    let dm := domainMapFor (po_declaration (cf_policy c)) (capabilityOf (op_id op)).1 in
    let grants := grantsFor aic (op_id op) in
    let contained := containGrants grants (items (po_root_grants (cf_policy c))) dm in
    guard (length grants =? 0)%nat CodeAuthorityNoGrant ;;?
    guard (length contained =? 0)%nat CodeAuthorityNotContained ;;?
    guard (negb (bool_decide (d_verdict (AuthorizeSetWithDomains lower_table contained op dm) = VerdictAllow)))
      CodeAuthorityNotAuthorized
end.

(** The deployer's own adoption limits. *)
Definition adoption (c : Confirmation Cert) : check :=
guard (negb (namespaceUnder (tr_namespace (cf_transition c)) (items (po_prefixes (cf_policy c)))))
  CodeNamespaceOutsidePolicy ;;?
match MajorOf (pk_revision (cf_package c)) with
| None => Some CodePackageShape
| Some major => guard (po_max_major (cf_policy c) <? major) CodeMajorExceedsLimit
end.

Definition not_revoked (s : RegistryState) (digest : string) (now : Time) : check :=
match isRevokedAt s digest now with
| None => Some CodeRevocationInvalid
| Some true => Some CodePackageRevoked
| Some false => None
end.

Definition approvals_met (c : Confirmation Cert) (now : Time) (pkgDigest trDigest : string) : check :=
if 0 <? po_approval_threshold (cf_policy c) then
  match verifyApprovals c now pkgDigest trDigest with
  | inr e => Some e
  | inl n => guard (n <? po_approval_threshold (cf_policy c)) CodeApprovalInsufficient
  end
else None.

Definition decide (c : Confirmation Cert) (pkgDigest trDigest : string) (now : Time) : check :=
let pkg := cf_package c in let tr := cf_transition c in let p := cf_policy c in
ValidatePolicy p ;;?
ValidatePackage pkg ;;?
ValidateTransition tr ;;?
ValidatePayload pkg (cf_definition c) (cf_declaration c) ;;?
same_package pkg tr ;;?
match verifyPublisher pkg (cf_publisher c) (cf_roots c) now with
| inr e => Some e
| inl aic =>
    guard (negb (mem_key (pk_clc_revision pkg) (items (po_clc_revisions p)))) CodeCLCSupported ;;?
    guard (negb (mem_key (tr_clc_revision tr) (items (po_clc_revisions p)))) CodeCLCSupported ;;?
    (if String.eqb (tr_action tr) ActionRootRotate then
       match cf_publisher c with Some cert => checkRootRotation c cert | None => None end
     else None) ;;?
    authority c aic
end ;;?
adoption c ;;?
checkState c ;;?
verifyRevocations pki (cf_state c) (cf_roots c) now ;;?
not_revoked (cf_state c) (tr_from_digest tr) now ;;?
not_revoked (cf_state c) pkgDigest now ;;?
checkFreshness pkg p ;;?
approvals_met c now pkgDigest trDigest.

(** The record before the decision; [None] when the digest of an operation that
  could be built fails. *)
Definition operation_digest (op : result Operation) : option string :=
match op with
| inr _ => Some ""
| inl op => match OperationDigest op with inl d => Some d | inr _ => None end
end.

Definition record_of (c : Confirmation Cert) (verdict reason opDigest approvalDigest : string) (digested : bool)
  : ConfirmationResult :=
let pkg := cf_package c in let tr := cf_transition c in
let revoke := String.eqb (tr_action tr) ActionRevoke in
let only (s : string) := if revoke then s else "" in
let key (s : string) := if digested then s else "" in
mkConfirmed verdict reason (tr_action tr) (pk_scheme pkg) (tr_namespace tr) (pk_generation pkg)
  (key (digest_or_empty (PackageDigest pkg))) (key (digest_or_empty (TransitionDigest tr))) opDigest approvalDigest
  (key (match cf_publisher c with Some cert => Digest (ct_raw pki cert) | None => "" end))
  (key (match cf_publisher c with Some cert => key_of cert | None => "" end))
  (key (PolicyDigest (cf_policy c))) (key (StateDigest (cf_state c))) "" false
  (only (tr_from_digest tr)) (only (tr_reason tr)) (only (tr_effective_time tr)) (only (tr_replacement tr))
  (if revoke then default 0 (tr_tombstone_generation tr) else 0).

Definition with_inputs (r : ConfirmationResult) (signed : bool) (inputs : string) : ConfirmationResult :=
mkConfirmed (cr_verdict r) (cr_reason r) (cr_action r) (cr_scheme r) (cr_namespace r) (cr_generation r)
  (cr_package_digest r) (cr_transition_digest r) (cr_operation_digest r) (cr_approval_digest r)
  (cr_certificate_digest r) (cr_key_id r) (cr_policy_digest r) (cr_state_digest r) inputs signed
  (cr_revoked_digest r) (cr_revocation_reason r) (cr_revocation_time r) (cr_replacement r)
  (cr_tombstone_generation r).

(** The reason of a refusal: its code, "internal" for a foreign error. *)
Definition reason_of (code : string) : string := if String.eqb code "" then "internal" else code.

(** [confirm]: the record and the error. *)
Definition confirm (c : Confirmation Cert) : ConfirmationResult * check :=
match policyTime (cf_policy c) with
| inr e => (record_of c VerdictReject "" "" "" false, Some e)
| inl now =>
    match operation_digest (BuildManagementOperation (cf_package c) (cf_transition c)) with
    | None => (record_of c VerdictReject "" "" "" true, Some CodePackageShape)
    | Some opDigest =>
        match operation_digest (BuildApprovalOperation (cf_package c) (cf_transition c)) with
        | None => (record_of c VerdictReject "" opDigest "" true, Some CodePackageShape)
        | Some approvalDigest =>
            let finish verdict reason :=
              let r := record_of c verdict reason opDigest approvalDigest true in
              with_inputs r false (inputsDigest r) in
            match decide c (digest_or_empty (PackageDigest (cf_package c)))
                    (digest_or_empty (TransitionDigest (cf_transition c))) now with
            | Some e => (finish VerdictReject (reason_of e), Some e)
            | None => (finish VerdictAccept "", None)
            end
        end
    end
end.

(** [Confirm], the exported stub, verifies no signature and always refuses. *)
Definition Confirm (c : Confirmation Cert) : ConfirmationResult * check :=
(mkConfirmed VerdictReject "" (tr_action (cf_transition c)) (pk_scheme (cf_package c))
   (tr_namespace (cf_transition c)) (pk_generation (cf_package c)) "" "" "" "" "" "" "" "" "" false "" "" "" "" 0,
 Some CodeSignatureMissing).

(** ** Confirmation over detached signatures (signed.go) *)

Record SignedConfirmation := mkSigned {
sc_package : string; sc_signatures : list string; sc_transition : string; sc_transition_signatures : list string;
sc_definition : string; sc_declaration : string; sc_roots : list (option Cert);
sc_state : RegistryState; sc_policy : TrustPolicy
}.

Definition maxDetachedSignatures : nat := 64.

Definition shape_limits (c : SignedConfirmation) : check :=
guard (String.eqb (sc_package c) "" || String.eqb (sc_transition c) "") CodePackageShape ;;?
guard ((maxArtifactBytes <? Z.of_nat (String.length (sc_package c))) ||
       (maxArtifactBytes <? Z.of_nat (String.length (sc_transition c)))) CodePackageShape ;;?
guard (length (sc_signatures c) =? 0)%nat CodeSignatureMissing ;;?
guard ((maxDetachedSignatures <? length (sc_signatures c))%nat ||
       (maxDetachedSignatures <? length (sc_transition_signatures c))%nat) CodeSignatureInvalid ;;?
guard (length (sc_transition_signatures c) =? 0)%nat CodeTransitionSignatureMissing.

(** The certificates the signatures over one artifact recover; an invalid
  signature, or one without a certificate, fails. *)
Fixpoint recover (e : error) (raw : string) (sigs : list string) : result (list Cert) :=
match sigs with
| [] => inl []
| sig :: sigs' =>
    match VerifyDetached pki sig raw with
    | Some (Some cert) => let! certs := recover e raw sigs' in inl (cert :: certs)
    | _ => inr e
    end
end.

Definition chains (c : SignedConfirmation) (now : Time) (certs : list Cert) : check :=
check_all (λ cert, match verifyChain pki (Some cert) (sc_roots c) now with
                   | None => None
                   | Some _ => Some CodeSignatureChain
                   end) certs.

(** The signers that bind the package publisher, and the last refusal. *)
Definition binds_publisher (c : SignedConfirmation) (pkg : Package) (now : Time) (cert : Cert) : bool :=
match verifyPublisher pkg (Some cert) (sc_roots c) now with inl _ => true | inr _ => false end.
Definition last_refusal (c : SignedConfirmation) (pkg : Package) (now : Time) (signers : list Cert) : error :=
fold_left (λ e cert, match verifyPublisher pkg (Some cert) (sc_roots c) now with inl _ => e | inr e' => e' end)
  signers CodePublisherMismatch.

(** The keys of the candidates that also signed the transition. *)
Fixpoint transition_keys (c : SignedConfirmation) (pkg : Package) (now : Time) (publisherKeys : list string)
  (certs : list Cert) : result (list string) :=
match certs with
| [] => inl []
| cert :: certs' =>
    if mem_key (key_of cert) publisherKeys then
      let! aic := verifyPublisher pkg (Some cert) (sc_roots c) now in
      let! keys := transition_keys c pkg now publisherKeys certs' in inl (key_of cert :: keys)
    else transition_keys c pkg now publisherKeys certs'
end.

Definition transitionSignatureFor (publisher : Cert) (signatures : list string) (raw : string) : option string :=
List.find (λ sig, match VerifyDetached pki sig raw with
                  | Some (Some cert) => String.eqb (key_of cert) (key_of publisher)
                  | _ => false
                  end) signatures.

Definition confirmation_for (c : SignedConfirmation) (pkg : Package) (tr : Transition) (signers : list Cert)
  (publisher : Cert) (sig : string) : Confirmation Cert :=
mkConfirmation pkg tr (sc_definition c) (sc_declaration c) (sc_transition c) sig (Some publisher)
  (sc_roots c) (map Some signers) (sc_state c) (sc_policy c).

(** The candidates in turn: the first accepted result, else the last one. *)
Fixpoint try_candidates (c : SignedConfirmation) (pkg : Package) (tr : Transition) (signers : list Cert)
  (keys : list string) (last : ConfirmationResult * check) (candidates : list Cert) : ConfirmationResult * check :=
match candidates with
| [] => last
| publisher :: rest =>
    if negb (mem_key (key_of publisher) keys) then try_candidates c pkg tr signers keys last rest
    else
      match transitionSignatureFor publisher (sc_transition_signatures c) (sc_transition c) with
      | None => try_candidates c pkg tr signers keys last rest
      | Some sig =>
          let '(r, err) := confirm (confirmation_for c pkg tr signers publisher sig) in
          match err with
          | None => (with_inputs r true (cr_inputs_digest r), None)
          | Some e => try_candidates c pkg tr signers keys (r, Some e) rest
          end
      end
end.

(** The record of a refusal before the decision, and its reason. *)
Definition early (action scheme namespace : string) (generation : Z) (pkgDigest trDigest opDigest key : string)
  : ConfirmationResult :=
mkConfirmed VerdictReject "" action scheme namespace generation pkgDigest trDigest opDigest "" "" key "" "" ""
  false "" "" "" "" 0.
Definition with_reason (r : ConfirmationResult * check) : ConfirmationResult * check :=
match r with
| (res, Some e) =>
    if String.eqb (cr_reason res) "" then
      (mkConfirmed (cr_verdict res) (reason_of e) (cr_action res) (cr_scheme res) (cr_namespace res)
         (cr_generation res) (cr_package_digest res) (cr_transition_digest res) (cr_operation_digest res)
         (cr_approval_digest res) (cr_certificate_digest res) (cr_key_id res) (cr_policy_digest res)
         (cr_state_digest res) (cr_inputs_digest res) (cr_signed res) (cr_revoked_digest res)
         (cr_revocation_reason res) (cr_revocation_time res) (cr_replacement res) (cr_tombstone_generation res),
       Some e)
    else r
| _ => r
end.

(** What the signatures establish: the artifacts and the verified signers. *)
Definition open_signed (c : SignedConfirmation) : result (Package * Transition * list Cert * list Cert * Time) :=
rguard (shape_limits c)
(let! now := policyTime (sc_policy c) in
 let! signers := recover CodeSignatureInvalid (sc_package c) (sc_signatures c) in
 let! transitionCerts := recover CodeTransitionSignatureInvalid (sc_transition c) (sc_transition_signatures c) in
 let! pkg := ParsePackage (sc_package c) in
 rguard (chains c now signers ;;? chains c now transitionCerts)
 (let! tr := ParseTransition (sc_transition c) in inl (pkg, tr, signers, transitionCerts, now))).

Definition ConfirmSigned (c : SignedConfirmation) : ConfirmationResult * check :=
with_reason
match open_signed c with
| inr e => (early "" "" "" 0 "" "" "" "", Some e)
| inl (pkg, tr, signers, transitionCerts, now) =>
    let parsed opDigest :=
      early (tr_action tr) (pk_scheme pkg) (tr_namespace tr) (pk_generation pkg)
        (digest_or_empty (PackageDigest pkg)) (digest_or_empty (TransitionDigest tr)) opDigest
        (match signers with cert :: _ => key_of cert | [] => "" end) in
    match operation_digest (BuildManagementOperation pkg tr) with
    | None => (parsed "", Some CodePackageShape)
    | Some opDigest =>
        let res := parsed opDigest in
        let candidates := List.filter (binds_publisher c pkg now) signers in
        if (length candidates =? 0)%nat then (res, Some (last_refusal c pkg now signers))
        else
          match transition_keys c pkg now (map key_of candidates) transitionCerts with
          | inr e => (res, Some e)
          | inl [] => (res, Some CodeTransitionSignatureMissing)
          | inl keys => try_candidates c pkg tr signers keys (res, Some CodePublisherMismatch) candidates
          end
    end
end.

(** ** [RegistryState.AcceptSigned] (state.go) *)

Definition publisher_of (c : SignedConfirmation) (keyID : string) : option Cert :=
List.find (λ cert, String.eqb (key_of cert) keyID)
  (omap (λ sig, match VerifyDetached pki sig (sc_package c) with Some (Some cert) => Some cert | _ => None end)
     (sc_signatures c)).

Definition AcceptSigned (s : RegistryState) (c : SignedConfirmation) : result RegistryState * ConfirmationResult :=
let '(res, err) := ConfirmSigned c in
(match err with
 | Some e => inr e
 | None =>
     let! pkg := ParsePackage (sc_package c) in
     let! tr := ParseTransition (sc_transition c) in
     let sig :=
       match publisher_of c (cr_key_id res) with
       | Some cert => default "" (transitionSignatureFor cert (sc_transition_signatures c) (sc_transition c))
       | None => ""
       end in
     Accept pki s (mkConfirmation pkg tr (sc_definition c) (sc_declaration c) (sc_transition c) sig None
                     (sc_roots c) [] s (sc_policy c)) res
 end, res).

(** ** Delegation (delegation.go) *)

Record Delegation := mkDelegation { dg_delegator : string; dg_grantee : string; dg_parent : Grant; dg_child : Grant }.

Definition administrationCapabilities : list string :=
[CapCreate; CapUpdate; CapRevoke; CapDelegate; CapRootRotate; CapApprove].

Definition checkAdministrationGrant (g : Grant) : check :=
let '(capability, ok) := capabilityOf (g_id g) in
guard (negb ok) CodeDelegationNotContained ;;?
guard (negb (mem_key capability administrationCapabilities)) CodeDelegationNotContained.

Definition ValidateDelegation (d : Delegation) (policy : TrustPolicy) : check :=
guard (negb (String.eqb (dg_delegator d) "") && negb (matches principalRe (dg_delegator d)))
  CodeDelegationNotContained ;;?
guard (negb (matches principalRe (dg_grantee d))) CodeDelegationNotContained ;;?
checkAdministrationGrant (dg_parent d) ;;?
checkAdministrationGrant (dg_child d) ;;?
let '(capability, ok) := capabilityOf (g_id (dg_child d)) in
guard (negb ok) CodeDelegationNotContained ;;?
guard (HasSuffix capability "*") CodeDelegationNotContained ;;?
let dm := domainMapFor (po_declaration policy) capability in
let roots := items (po_root_grants policy) in
guard (length roots =? 0)%nat CodeAuthorityNotContained ;;?
guard (negb (contained_by roots dm (dg_parent d))) CodeAuthorityNotContained ;;?
match ContainsWithDomains lower_table (dg_parent d) (dg_child d) dm dm with
| Some _ => Some CodeDelegationNotContained
| None => None
end.

(** The closed decoder of a delegation and of its grants. *)
Definition grant_fields : gomap fkind :=
[("id", FStr); ("params", FObject); ("param_bounds", FObject); ("constraints", FStrings)].
Definition into_any_map (m : option (list (string * jtext))) : option (option (gomap any)) :=
match m with
| None => Some None
| Some m => m' ← into_struct_map unmarshal_any m; Some (Some m')
end.
Definition into_grant (m : option (list (string * jtext))) : option Grant :=
t ← decode_members grant_fields (default [] m) [];
params ← into_any_map (get_obj "params" t);
bounds ← into_any_map (get_obj "param_bounds" t);
Some (mkGrant (get_str "id" t) params bounds (get_strs "constraints" t)).
Definition delegation_fields : gomap fkind :=
[("delegator", FStr); ("grantee", FStr); ("parent", FStruct); ("child", FStruct)].
Definition decode_delegation (raw : string) : option Delegation :=
t ← decodeClosed delegation_fields raw;
parent ← into_grant (get_obj "parent" t);
child ← into_grant (get_obj "child" t);
Some (mkDelegation (get_str "delegator" t) (get_str "grantee" t) parent child).

Definition with_id (g : Grant) (id : string) : Grant := mkGrant id (g_params g) (g_bounds g) (g_constraints g).

Definition ValidateSignedDelegation (raw signature : string) (roots : list (option Cert)) (policy : TrustPolicy) : check :=
guard (maxArtifactBytes <? Z.of_nat (String.length raw)) CodeDelegationNotContained ;;?
guard (String.eqb signature "") CodeSignatureMissing ;;?
match VerifyDetached pki signature raw with
| None | Some None => Some CodeSignatureInvalid
| Some (Some cert) =>
    match policyTime policy with
    | inr e => Some e
    | inl now =>
        match verifyCertificate pki (Some cert) roots now with
        | inr e => Some e
        | inl aic =>
            match decode_delegation raw with
            | None => Some CodeDelegationNotContained
            | Some d =>
                guard (negb (String.eqb (dg_delegator d) "") &&
                       negb (names_principal (TrimPrefix (dg_delegator d) "principal:") (id_principal aic)))
                  CodePublisherMismatch ;;?
                let '(capability, ok) := capabilityOf (g_id (dg_parent d)) in
                guard (negb ok) CodeDelegationNotContained ;;?
                let dm := domainMapFor (po_declaration policy) capability in
                guard (negb (existsb (λ g, bool_decide
                         (ContainsWithDomains lower_table (with_id g (g_id (dg_parent d))) (dg_parent d) dm dm = None))
                         (grantsFor aic (FullCapabilityID CapDelegate)))) CodeAuthorityNotContained ;;?
                ValidateDelegation d policy
            end
        end
    end
end.

Definition BuildDelegationOperation (d : Delegation) : result Operation :=
rguard (checkAdministrationGrant (dg_child d))
  (inl (mkOp (g_id (dg_child d)) (Some (entries (g_params (dg_child d)))))).
End confirm.
