(* ===== verification/SchemeConfirmProofs.v ===== *)
(** * What a confirmed publication establishes

    Theorems about the deployer's decision: the digests it pins, the signatures,
    root keys, approvals and grants an acceptance rests on, that an accepted
    package can be persisted, and that delegated authority stays inside the root
    authority. *)

From stdpp Require Import relations.
From S2P Require Import Prelude GoStrings Regex GoFloat GoTime Json Canonical Ids Values Bounds.
From S2P Require Import JsonText JsonStruct.
From S2P Require Import Grants Constraints Authorize Containment Ceilings Sha256 Domains.
From S2P Require Import DomainsProofs.
From S2P Require Import SchemeArtifacts SchemeState SchemeConfirm.

(** ** Digests *)

Lemma lang_lit s : lang (lit s) s.
Proof.
  induction s as [|c s IH]; [constructor|]. destruct s as [|d s].
  - constructor. apply Ascii.eqb_refl.
  - change (lit (String c (String d s))) with (Cat (Chr (Ascii.eqb c)) (lit (String d s))).
    change (String c (String d s)) with (String c "" +:+ String d s). constructor; [|done].
    constructor. apply Ascii.eqb_refl.
Qed.

Lemma lang_Rep p n s : String.length s = n → str_forallb p s = true → lang (Rep n (Chr p)) s.
Proof.
  revert s. induction n as [|n IH]; intros [|c s]; try done; [constructor|].
  cbn. intros [= Hl] Hp. go_bool. change (String c s) with (String c "" +:+ s). constructor; [by constructor|].
  by apply IH.
Qed.

Lemma Sum256_is_byte s : Forall is_byte (Sum256 s).
Proof. apply Sum256_bytes. Qed.

(** Every digest the code computes has the form it requires of a digest: the
    content address of any bytes matches the pattern sha256:<43 characters of
    the URL alphabet>. *)
Lemma Digest_shape raw : is_digest (Digest raw) = true.
Proof.
  unfold is_digest, Digest. apply matches_lang. constructor; [apply lang_lit|]. apply lang_Rep.
  - pose proof (RawURLEncoding_length (Sum256 raw)) as H. rewrite Sum256_length in H. lia.
  - pose proof (RawURLEncoding_class _ (Sum256_is_byte raw)) as H. revert H.
    induction (RawURLEncoding (Sum256 raw)) as [|c s IH]; [done|]. cbn. intros H. go_bool. apply andb_true_iff.
    split; [|auto]. unfold b64url_class, cls_any, is_alnum in *. cbn. rewrite orb_false_r.
    by rewrite !orb_assoc, (orb_comm (is_lower c)).
Qed.

(** Equal digests come from equal SHA-256 sums. *)
Lemma Digest_inj a b : Digest a = Digest b → Sum256 a = Sum256 b.
Proof.
  unfold Digest. intros H. injection H as H.
  apply RawURLEncoding_inj; auto using Sum256_is_byte. by rewrite !Sum256_length.
Qed.

(** ** Same keys *)

Lemma count_of_mset x y n seen : count_of x (mset y n seen) = if String.eqb x y then n else count_of x seen.
Proof. unfold count_of. rewrite mget_mset. by destruct (String.eqb x y). Qed.

Lemma count_keys_fold x a seen :
  count_of x (fold_left (λ seen y, mset y (count_of y seen + 1) seen) a seen) =
  count_of x seen + Z.of_nat (count_occ String.string_dec a x).
Proof.
  revert seen. induction a as [|y a IH]; intros seen; cbn [fold_left count_occ]; [lia|]. rewrite IH, count_of_mset.
  destruct (String.string_dec y x) as [->|Hne].
  - rewrite String.eqb_refl. lia.
  - rewrite (proj2 (String.eqb_neq x y)) by congruence. lia.
Qed.

Lemma drain_true seen b :
  (∀ x, 0 <= count_of x seen) →
  drain seen b = true ↔ ∀ x, Z.of_nat (count_occ String.string_dec b x) <= count_of x seen.
Proof.
  revert seen. induction b as [|y b IH]; intros seen Hs; cbn [drain count_occ].
  - split; [intros _ x; apply Hs|done].
  - destruct (Z.eqb_spec (count_of y seen) 0) as [E|Hne].
    + split; [done|]. intros H. specialize (H y). destruct (String.string_dec y y); [lia|done].
    + rewrite IH.
      2:{ intros x. rewrite count_of_mset. specialize (Hs y) as Hy. specialize (Hs x).
          destruct (String.eqb x y); lia. }
      split; intros H x; specialize (H x); rewrite count_of_mset in *;
        destruct (String.string_dec y x) as [->|Hyx];
        rewrite ?String.eqb_refl, ?(proj2 (String.eqb_neq x y)) in * by congruence; lia.
Qed.

Lemma count_occ_length (a b : list string) :
  length a = length b → (∀ x, (count_occ String.string_dec b x <= count_occ String.string_dec a x)%nat) → a ≡ₚ b.
Proof.
  revert a. induction b as [|y b IH]; intros a Hl Hc.
  - by destruct a.
  - assert (In y a) as Hin.
    { apply (count_occ_In String.string_dec). specialize (Hc y). cbn in Hc.
      destruct (String.string_dec y y); [lia|done]. }
    apply in_split in Hin as (l1 & l2 & ->). rewrite <- Permutation_middle. f_equiv. apply IH.
    + rewrite length_app in *. simpl in *. lia.
    + intros x. specialize (Hc x). rewrite count_occ_app in *. cbn in Hc. destruct (String.string_dec y x); lia.
Qed.

(** The comparison of the proposed and the configured next root keys accepts
    exactly the rearrangements: two key lists pass iff one is a permutation of
    the other, repetitions counted. *)
Lemma sameSet_permutation a b : sameSet a b = true ↔ a ≡ₚ b.
Proof.
  unfold sameSet. assert (∀ x, count_of x (count_keys a) = Z.of_nat (count_occ String.string_dec a x)) as Ec.
  { intros x. unfold count_keys. by rewrite count_keys_fold. }
  destruct (Nat.eqb_spec (length a) (length b)) as [El|Hne]; cbn [negb].
  - rewrite drain_true by (intros x; rewrite Ec; lia). split.
    + intros H. apply count_occ_length; [done|]. intros x. specialize (H x). rewrite Ec in H. lia.
    + intros H x. rewrite Ec. by rewrite (proj1 (Permutation_count_occ String.string_dec a b) H x).
  - split; [done|]. intros H. by rewrite (Permutation_length H) in Hne.
Qed.

(** ** Payloads *)

Lemma ValidatePayload_None p definition declaration :
  ValidatePayload p definition declaration = None →
  Digest definition = pk_definition_digest p ∧ Digest declaration = pk_declaration_digest p ∧
  ∃ decl, ParseDeclaration declaration = inl decl ∧ dc_scheme decl = pk_scheme p ∧
    dc_clc_revision decl = pk_clc_revision p.
Proof.
  unfold ValidatePayload. rewrite !check_seq_None, !guard_None. intros (_ & _ & H1 & H2 & H). go_bool.
  split; [done|]. split; [done|]. destruct (ParseDeclaration declaration) as [decl|]; [|done].
  rewrite check_seq_None, !guard_None in H. destruct H as [H3 H4]. go_bool. eauto.
Qed.

(** ** Validated artifacts have a content address *)

Definition is_ascii (s : string) : bool := str_forallb (λ c, code c <? 128) s.

Lemma runes_ascii s n :
  is_ascii s = true → (String.length s <= n)%nat → forallb snd (runes_aux n s) = true.
Proof.
  revert n. induction s as [|c s IH]; intros n Hs Hn; [by destruct n|].
  cbn in Hs, Hn. go_bool. destruct n as [|n]; [lia|]. cbn [runes_aux decode_rune].
  rewrite H. cbn [forallb snd sdrop andb]. apply IH; [done|lia].
Qed.

Lemma checkCanonicalString_ascii s : is_ascii s = true → checkCanonicalString s = None.
Proof. intros H. unfold checkCanonicalString, ValidString, runes. by rewrite runes_ascii. Qed.

(** An expression all of whose characters are ASCII. *)
Definition re_ascii : re → bool := re_within (λ c, code c <? 128).

Lemma matches_ascii r s : re_ascii r = true → matches r s = true → is_ascii s = true.
Proof. intros Hr H%matches_lang. by eapply re_within_lang. Qed.

(** Members that the canonical form always has: ASCII text, integers, lists of
    ASCII texts. *)
Definition simple_value (v : any) : bool :=
  match v with
  | AStr s => is_ascii s
  | AInt _ _ => true
  | AList l => forallb (λ x, match x with AStr s => is_ascii s | _ => false end) l
  | _ => false
  end.

Lemma simple_value_ok v : simple_value v = true → validateCanonicalStrings v 1 = None ∧ encodable v = true.
Proof.
  destruct v as [| |s| | | |l|]; try done; cbn [simple_value]; intros H.
  - split; [|done]. by apply checkCanonicalString_ascii.
  - rewrite forallb_forall in H. split.
    + cbn. apply check_all_None. intros x Hx%list_elem_of_In. specialize (H x Hx).
      destruct x; try done. by apply checkCanonicalString_ascii.
    + apply forallb_forall. intros x Hx. specialize (H x Hx). by destruct x.
Qed.

Definition simple_member (m : option (string * any)) : bool :=
  match m with None => true | Some (k, v) => is_ascii k && simple_value v end.

Lemma simple_str k s : is_ascii k = true → is_ascii s = true → simple_member (member k (AStr s)) = true.
Proof. intros Hk Hs. cbn. by rewrite Hk, Hs. Qed.
Lemma simple_opt_str k s : is_ascii k = true → is_ascii s = true → simple_member (member_str k s) = true.
Proof. intros Hk Hs. unfold member_str. destruct (String.eqb s ""); [done|]. cbn. by rewrite Hk, Hs. Qed.
Lemma simple_int k kd z : is_ascii k = true → simple_member (member k (AInt kd z)) = true.
Proof. intros Hk. cbn. by rewrite Hk. Qed.
Lemma simple_opt_int k z : is_ascii k = true → simple_member (member_int k z) = true.
Proof. intros Hk. unfold member_int. destruct (z =? 0); [done|]. cbn. by rewrite Hk. Qed.
Lemma simple_ptr k z : is_ascii k = true → simple_member (member_ptr k z) = true.
Proof. intros Hk. destruct z; [|done]. cbn. by rewrite Hk. Qed.
Lemma simple_strs k l : is_ascii k = true → forallb is_ascii l = true → simple_member (member_strs k l) = true.
Proof.
  intros Hk Hl. unfold member_strs. destruct l as [|x l]; [done|]. cbn [simple_member simple_value]. rewrite Hk. cbn [andb].
  revert Hl. generalize (x :: l). clear. intros l Hl. apply forallb_forall. intros v (s & <- & Hs)%in_map_iff.
  rewrite forallb_forall in Hl. by apply Hl.
Qed.

Lemma simple_digest (l : list (option (string * any))) :
  forallb simple_member l = true → ∃ d, CanonicalDigest (omitempty l) = inl d.
Proof.
  intros H. unfold CanonicalDigest, omitempty.
  destruct (CanonicalJSON (AMap (omap id l))) as [t|e] eqn:E; [eauto|]. exfalso.
  assert (∀ k v, (k, v) ∈ omap id l → is_ascii k = true ∧ simple_value v = true) as H'.
  { intros k v (x & Hx & Ex)%list_elem_of_omap. cbn in Ex. subst x. rewrite forallb_forall in H.
    apply list_elem_of_In in Hx. specialize (H _ Hx). cbn in H. by go_bool. }
  assert (canonical_ok (AMap (omap id l))) as Hok.
  { split.
    - cbn [validateCanonicalStrings]. rewrite check_seq_None. split; [done|]. apply check_all_None. intros [k v] Hin.
      destruct (H' k v Hin) as [Hk Hv]. cbn [fst snd]. rewrite checkCanonicalString_ascii by done.
      by apply simple_value_ok.
    - apply forallb_forall. intros [k v] Hin%list_elem_of_In. destruct (H' k v Hin) as [_ Hv]. by apply simple_value_ok. }
  pose proof (proj2 (CanonicalJSON_inl (AMap (omap id l)) _) (conj Hok eq_refl)) as E'. congruence.
Qed.

#[local] Hint Resolve simple_str simple_opt_str simple_int simple_opt_int simple_ptr simple_strs : go.

Lemma is_digest_ascii s : is_digest s = true → is_ascii s = true.
Proof. apply matches_ascii. vm_compute. done. Qed.

Lemma mem_key_ascii s l : forallb is_ascii l = true → mem_key s l = true → is_ascii s = true.
Proof. rewrite forallb_forall, mem_key_true. intros H Hin. by apply H, list_elem_of_In. Qed.

Lemma requireFrom_ascii tr : requireFrom tr = None → is_ascii (tr_from_digest tr) = true.
Proof.
  unfold requireFrom. destruct (tr_from_generation tr); [|done]. rewrite check_seq_None, !guard_None.
  intros [_ H]. go_bool. by apply is_digest_ascii.
Qed.

(** The members of an action that is not a root rotation or revocation are
    empty. *)
Lemma has_next_root_false tr : has_next_root tr = false → tr_next_root_package tr = "" ∧ tr_next_root_keys tr = [].
Proof.
  intros [[H1 H2]%orb_false_iff _]%orb_false_iff. go_bool. split; [done|].
  by apply Nat.eqb_eq, length_zero_iff_nil in H2.
Qed.

Lemma has_revocation_false tr :
  has_revocation tr = false → tr_reason tr = "" ∧ tr_effective_time tr = "" ∧ tr_replacement tr = "".
Proof. intros [[[H1 H2]%orb_false_iff H3]%orb_false_iff _]%orb_false_iff. go_bool. done. Qed.

Lemma root_members_ascii tr :
  ValidateTransition tr = None → tr_action tr ≠ ActionRevoke →
  is_ascii (tr_from_digest tr) = true ∧ is_ascii (tr_next_root_package tr) = true ∧
  forallb is_ascii (tr_next_root_keys tr) = true.
Proof.
  intros H Ha. unfold ValidateTransition in H. rewrite !check_seq_None, !guard_None in H.
  destruct H as (_ & Hact & _ & _ & _ & _ & _ & _ & _ & _ & Hroot & Hcase). go_bool.
  destruct (String.eqb_spec (tr_action tr) ActionRootRotate) as [E|E].
  - rewrite E in Hcase. cbn in Hcase. unfold validate_root_rotate in Hcase.
    rewrite !check_seq_None, !guard_None, check_all_None in Hcase. destruct Hcase as (C1 & C2 & _ & C3 & _). go_bool.
    split; [by apply requireFrom_ascii|]. split; [by apply is_digest_ascii|]. apply forallb_forall.
    intros k Hk%list_elem_of_In. specialize (C3 k Hk). apply guard_None in C3. go_bool. by apply is_digest_ascii.
  - cbn [negb andb] in Hroot. apply has_next_root_false in Hroot as [-> ->]. split; [|done].
    destruct (String.eqb_spec (tr_action tr) ActionCreate) as [_|Hc].
    + unfold validate_create in Hcase. rewrite !check_seq_None, guard_None in Hcase.
      destruct Hcase as [[_ C]%orb_false_iff _]. go_bool. by rewrite C.
    + destruct (String.eqb_spec (tr_action tr) ActionUpdate); [by apply requireFrom_ascii|].
      destruct (String.eqb_spec (tr_action tr) ActionRevoke); [done|].
      exfalso. apply mem_key_true in Hact. unfold actions in Hact. set_solver.
Qed.

Lemma TransitionDigest_ok tr :
  ValidateTransition tr = None → tr_action tr ≠ ActionRevoke → ∃ d, TransitionDigest tr = inl d.
Proof.
  intros H Ha. destruct (root_members_ascii tr H Ha) as (F1 & F2 & F3).
  unfold ValidateTransition in H. rewrite !check_seq_None, !guard_None in H.
  destruct H as (Hv & Hact & Hsch & [Hns _]%orb_false_iff & _ & _ & Hto & Hcc & Hclc & Hrev & _). go_bool.
  rewrite (proj2 (String.eqb_neq _ _) Ha) in Hrev. cbn [negb andb] in Hrev.
  apply has_revocation_false in Hrev as (R1 & R2 & R3).
  unfold TransitionDigest, transition_any. rewrite R1, R2, R3, Hv. apply simple_digest.
  apply (matches_ascii schemeRe) in Hsch; [|vm_compute; done].
  apply (matches_ascii namespaceRe) in Hns; [|vm_compute; done].
  apply (matches_ascii clcRe) in Hclc; [|vm_compute; done].
  apply is_digest_ascii in Hto. apply mem_key_ascii in Hact, Hcc; [|vm_compute; done..].
  cbn [forallb]. repeat (apply andb_true_iff; split); auto with go.
Qed.

(** ** Decoded integers are in range *)

Definition ints_bounded (t : gomap fval) : Prop :=
  ∀ k z, mget k t = Some (VInt z) → min_int64 <= z <= max_int64.

Lemma into_int64_range l z : into_int64 l = Some z → min_int64 <= z <= max_int64.
Proof.
  unfold into_int64, Atoi. destruct (match l with String "-" _ => _ | _ => _ end)%char as [neg body].
  destruct (_ || _); [done|]. set (v := if neg then _ else _).
  destruct (Z.ltb_spec v min_int64); [done|]. destruct (Z.ltb_spec max_int64 v); [done|]. intros [= <-]. lia.
Qed.

Lemma decode_field_bounded k old j v z :
  (∀ z, old = Some (VInt z) → min_int64 <= z <= max_int64) →
  decode_field k old j = Some (Some v) → v = VInt z → min_int64 <= z <= max_int64.
Proof.
  intros Ho H ->. destruct k, j; cbn in H; simplify_eq; auto.
  - destruct (into_int64 lit) eqn:E; cbn in H; simplify_eq. by eapply into_int64_range.
  - destruct (into_int64 lit); cbn in H; simplify_eq.
  - destruct (mapM into_string l); cbn in H; simplify_eq.
Qed.

Lemma decode_members_bounded fields m t t' :
  ints_bounded t → decode_members fields m t = Some t' → ints_bounded t'.
Proof.
  revert t. induction m as [|[key j] m IH]; intros t Ht; cbn [decode_members]; [by intros [= <-]|].
  destruct (find_field fields key) as [[name k]|]; [|done]. cbn [mbind option_bind].
  destruct (decode_field k (mget name t) j) as [v|] eqn:E; [|done]. cbn [mbind option_bind]. apply IH.
  destruct v as [v|]; [|done]. intros k' z. rewrite mget_mset. destruct (String.eqb k' name); [|apply Ht].
  intros [= ->]. eapply decode_field_bounded; [|exact E|done]. intros z' Hz. by apply (Ht name).
Qed.

Lemma ParsePackage_inl raw pkg :
  ParsePackage raw = inl pkg → ValidatePackage pkg = None ∧ pk_generation pkg <= max_int64.
Proof.
  unfold ParsePackage. destruct (decodeClosed package_fields raw) as [t|] eqn:E; [|done].
  intros [Hv [= <-]]%rguard_inl. split; [done|]. unfold decodeClosed in E.
  destruct (_ <? _); [done|]. destruct (negb _); [done|]. destruct (read_document raw) as [j|]; [|done].
  cbn [mbind option_bind] in E. unfold decode_struct in E.
  assert (ints_bounded t) as Hb.
  { destruct j; try done; [injection E as <-; by intros ? ?|]. eapply decode_members_bounded; [|exact E]. by intros ? ?. }
  cbn [package_of pk_generation]. unfold get_int.
  destruct (mget "generation" t) as [[]|] eqn:Eg; try (unfold max_int64; lia). apply Hb in Eg. lia.
Qed.

Section confirmed.
Context (lt : Z → Z) {Cert : Type} (pki : PKI Cert).

(** ** Signed acceptance *)

Lemma recover_inl e raw sigs certs :
recover pki e raw sigs = inl certs →
∀ cert, cert ∈ certs → ∃ sig, sig ∈ sigs ∧ VerifyDetached pki sig raw = Some (Some cert).
Proof.
revert certs. induction sigs as [|sig sigs IH]; intros certs; cbn [recover].
- intros [= <-] cert H. by apply not_elem_of_nil in H.
- destruct (VerifyDetached pki sig raw) as [[cert0|]|] eqn:E; [|done|done].
  intros (certs' & Hr & [= <-])%rbind_inl cert [->|Hin]%elem_of_cons; [exists sig; set_solver|].
  destruct (IH _ Hr cert Hin) as (sig' & ? & ?). exists sig'. set_solver.
Qed.

Lemma with_reason_None r res : with_reason r = (res, None) → r = (res, None).
Proof. destruct r as [r [e|]]; cbn; [by destruct (String.eqb _ _)|done]. Qed.

(** A candidate accepted by the loop passed the whole decision. *)
Lemma try_candidates_None c pkg tr signers keys last candidates res :
snd last ≠ None →
try_candidates lt pki c pkg tr signers keys last candidates = (res, None) →
∃ publisher sig r, publisher ∈ candidates ∧ key_of pki publisher ∈ keys ∧
  transitionSignatureFor pki publisher (sc_transition_signatures c) (sc_transition c) = Some sig ∧
  confirm lt pki (confirmation_for c pkg tr signers publisher sig) = (r, None) ∧
  res = with_inputs r true (cr_inputs_digest r).
Proof.
revert last. induction candidates as [|p candidates IH]; intros last Hl; cbn [try_candidates].
- intros ->. done.
- destruct (mem_key (key_of pki p) keys) eqn:Ek; cbn [negb].
  2:{ intros H. destruct (IH _ Hl H) as (q & sig & r & Hq & Hrest). exists q, sig, r. set_solver. }
  destruct (transitionSignatureFor _ _ _ _) as [sig|] eqn:Es.
  2:{ intros H. destruct (IH _ Hl H) as (q & sig & r & Hq & Hrest). exists q, sig, r. set_solver. }
  destruct (confirm lt pki _) as [r [e|]] eqn:Ec.
  + intros H. destruct (IH (r, Some e) ltac:(done) H) as (q & sig' & r' & Hq & Hrest). exists q, sig', r'. set_solver.
  + intros [= <-]. exists p, sig, r. apply mem_key_true in Ek. split_and!; auto. by left.
Qed.

(** The decision an accepted record carries. *)
Lemma confirm_None c r :
confirm lt pki c = (r, None) →
∃ now opDigest approvalDigest, policyTime (cf_policy c) = inl now ∧
  decide lt pki c (digest_or_empty (PackageDigest (cf_package c)))
    (digest_or_empty (TransitionDigest (cf_transition c))) now = None ∧
  r = (let r := record_of pki c VerdictAccept "" opDigest approvalDigest true in with_inputs r false (inputsDigest r)).
Proof.
unfold confirm. destruct (policyTime (cf_policy c)) as [now|]; [|done].
destruct (operation_digest _) as [od|]; [|done]. destruct (operation_digest _) as [ad|]; [|done].
destruct (decide _ _ _ _ _ _) eqn:E; [done|]. intros [= <-]. eauto 10.
Qed.

(** What an accepted signed confirmation rests on. *)
Record signed_ok (c : SignedConfirmation (Cert := Cert)) (res : ConfirmationResult) (pkg : Package) (tr : Transition)
  (signers : list Cert) (publisher : Cert) (sig : string) (now : Time) : Prop := {
so_package : ParsePackage (sc_package c) = inl pkg;
so_transition : ParseTransition (sc_transition c) = inl tr;
so_time : policyTime (sc_policy c) = inl now;
so_signers : ∀ cert, cert ∈ signers →
  verifyChain pki (Some cert) (sc_roots c) now = None ∧
  ∃ s, s ∈ sc_signatures c ∧ VerifyDetached pki s (sc_package c) = Some (Some cert);
so_nonempty : signers ≠ [];
so_publisher : publisher ∈ signers;
so_signature : transitionSignatureFor pki publisher (sc_transition_signatures c) (sc_transition c) = Some sig;
so_decision : decide lt pki (confirmation_for c pkg tr signers publisher sig)
  (digest_or_empty (PackageDigest pkg)) (digest_or_empty (TransitionDigest tr)) now = None;
so_signed : cr_signed res = true;
so_verdict : cr_verdict res = VerdictAccept;
so_action : cr_action res = tr_action tr;
so_generation : cr_generation res = pk_generation pkg;
so_key : cr_key_id res = key_of pki publisher;
so_digests : cr_package_digest res = digest_or_empty (PackageDigest pkg) ∧
  cr_transition_digest res = digest_or_empty (TransitionDigest tr)
}.

Lemma chains_None c now certs cert :
chains pki c now certs = None → cert ∈ certs → verifyChain pki (Some cert) (sc_roots c) now = None.
Proof.
unfold chains. rewrite check_all_None. intros H Hin. specialize (H cert Hin).
by destruct (verifyChain pki (Some cert) (sc_roots c) now).
Qed.

Lemma ConfirmSigned_None c res :
ConfirmSigned lt pki c = (res, None) →
∃ pkg tr signers publisher sig now, signed_ok c res pkg tr signers publisher sig now.
Proof.
unfold ConfirmSigned. intros H%with_reason_None.
destruct (open_signed pki c) as [[[[[pkg tr] signers] tcerts] now]|] eqn:Eo; [|done].
destruct (operation_digest _) as [od|]; [|done].
destruct (length _ =? 0)%nat; [done|]. destruct (transition_keys _ _ _ _ _ _) as [[|k keys]|]; [done| |done].
apply try_candidates_None in H as (publisher & sig & r & Hp & _ & Hsig & Hc & ->); [|done].
apply list_elem_of_In, filter_In in Hp as [Hp%list_elem_of_In _].
apply confirm_None in Hc as (now' & od' & ad' & Ht & Hd & ->). cbn [confirmation_for cf_policy] in Ht.
unfold open_signed in Eo. apply rguard_inl in Eo as [_ (n & Hn & (ss & Hss & (ts & Hts & Eo)%rbind_inl)%rbind_inl)%rbind_inl].
apply rbind_inl in Eo as (p & Hpk & Eo). apply rguard_inl in Eo as [Hch (t & Htr & Eo)%rbind_inl].
injection Eo as -> -> -> -> ->. assert (now' = now) as -> by congruence.
apply check_seq_None in Hch as [Hch _].
exists pkg, tr, signers, publisher, sig, now. split; try done.
- intros cert Hin. split; [by eapply chains_None|]. by eapply recover_inl.
- intros ->. by apply not_elem_of_nil in Hp.
Qed.

(** The layers of the decision. *)
Record decided_ok (c : Confirmation Cert) (pkgDigest trDigest : string) (now : Time) (publisher : Cert) (aic : Identity) : Prop := {
dk_policy : ValidatePolicy (cf_policy c) = None;
dk_package : ValidatePackage (cf_package c) = None;
dk_transition : ValidateTransition (cf_transition c) = None;
dk_payload : ValidatePayload (cf_package c) (cf_definition c) (cf_declaration c) = None;
dk_same : same_package (cf_package c) (cf_transition c) = None;
dk_identity : verifyPublisher pki (cf_package c) (Some publisher) (cf_roots c) now = inl aic;
dk_rotation : tr_action (cf_transition c) = ActionRootRotate → checkRootRotation pki c publisher = None;
dk_authority : authority lt c aic = None;
dk_adoption : adoption c = None;
dk_state : checkState c = None;
dk_not_revoked : isRevokedAt (cf_state c) (tr_from_digest (cf_transition c)) now = Some false ∧
  isRevokedAt (cf_state c) pkgDigest now = Some false;
dk_approvals : approvals_met lt pki c now pkgDigest trDigest = None
}.

Lemma not_revoked_None s d now : not_revoked s d now = None → isRevokedAt s d now = Some false.
Proof. unfold not_revoked. by destruct (isRevokedAt s d now) as [[]|]. Qed.

Lemma decide_None c publisher pkgDigest trDigest now :
cf_publisher c = Some publisher → decide lt pki c pkgDigest trDigest now = None →
∃ aic, decided_ok c pkgDigest trDigest now publisher aic.
Proof.
intros Hp. unfold decide. rewrite Hp, !check_seq_None.
intros (H1 & H2 & H3 & H4 & H5 & H6 & H7 & H8 & _ & H9 & H10 & _ & H11).
destruct (verifyPublisher pki (cf_package c) (Some publisher) (cf_roots c) now) as [aic|] eqn:E; [|done].
rewrite !check_seq_None in H6. destruct H6 as (_ & _ & Hr & Ha).
exists aic. split; auto using not_revoked_None.
intros Hact%String.eqb_eq. by rewrite Hact in Hr.
Qed.

Lemma signed_decided c res pkg tr signers publisher sig now :
signed_ok c res pkg tr signers publisher sig now →
∃ aic, decided_ok (confirmation_for c pkg tr signers publisher sig) (digest_or_empty (PackageDigest pkg))
         (digest_or_empty (TransitionDigest tr)) now publisher aic.
Proof. intros S. apply decide_None; [done|]. apply (so_decision _ _ _ _ _ _ _ _ S). Qed.

(** ** Root rotation *)

(** C11: a root rotation needs a threshold of distinct current-root keys.  When a
  signed confirmation accepts a root rotation, there are at least as many
  distinct keys as the policy's threshold (itself at least one), each a
  configured current root key whose detached signature over the exact package
  bytes verified and whose certificate chains to the trust roots; the rotation
  starts from the configured root package, and its next keys are the configured
  next keys up to order. *)
Theorem root_rotation_threshold c res :
ConfirmSigned lt pki c = (res, None) → cr_action res = ActionRootRotate →
∃ now keys tr, policyTime (sc_policy c) = inl now ∧ ParseTransition (sc_transition c) = inl tr ∧
  NoDup keys ∧ 1 <= po_root_threshold (sc_policy c) <= Z.of_nat (length keys) ∧
  (∀ k, k ∈ keys → k ∈ items (po_root_keys (sc_policy c)) ∧
     ∃ sig cert, sig ∈ sc_signatures c ∧ VerifyDetached pki sig (sc_package c) = Some (Some cert) ∧
       key_of pki cert = k ∧ verifyChain pki (Some cert) (sc_roots c) now = None) ∧
  tr_from_digest tr = po_root_package (sc_policy c) ∧
  tr_to_digest tr = po_next_root_package (sc_policy c) ∧
  tr_next_root_keys tr ≡ₚ po_next_root_keys (sc_policy c).
Proof.
intros (pkg & tr & signers & publisher & sig & now & S)%ConfirmSigned_None Hact.
rewrite (so_action _ _ _ _ _ _ _ _ S) in Hact.
destruct (signed_decided _ _ _ _ _ _ _ _ S) as [aic D].
pose proof (dk_rotation _ _ _ _ _ _ D Hact) as H. unfold checkRootRotation in H.
rewrite !check_seq_None, !guard_None in H. cbn [confirmation_for cf_policy cf_transition cf_root_signers] in H.
destruct H as (_ & _ & Hth & Hn & Hfrom & _ & _ & _ & Hset & _ & _ & Hto). go_bool.
assert (match map Some signers with [] => [Some publisher] | l => l end = map Some signers) as Em.
{ pose proof (so_nonempty _ _ _ _ _ _ _ _ S). by destruct signers. }
rewrite Em in Hn. exists now, (current_signers pki (sc_policy c) (map Some signers)), tr.
split; [apply (so_time _ _ _ _ _ _ _ _ S)|]. split; [apply (so_transition _ _ _ _ _ _ _ _ S)|].
split; [apply NoDup_remove_dups|]. split; [lia|]. split.
- intros k Hk. unfold current_signers in Hk. apply elem_of_remove_dups, list_elem_of_In, filter_In in Hk as [Hk Hr].
  split; [by apply mem_key_true|]. apply in_map_iff in Hk as (cert & Hkey & Hc).
  assert (cert ∈ signers) as Hin.
  { apply list_elem_of_In, list_elem_of_omap in Hc as (x & Hx & E).
    apply list_elem_of_In, in_map_iff in Hx as (y & <- & Hy%list_elem_of_In). by injection E as ->. }
  destruct (so_signers _ _ _ _ _ _ _ _ S cert Hin) as (Hch & s & Hs & Hv). exists s, cert. auto.
- split; [done|]. split; [done|]. by apply sameSet_permutation.
Qed.

(** ** Approvals *)

(** The loop collects the approvals of the pair, each with its approver and key. *)
Lemma count_approvals_inl c now pd td payload op dm l approvers keys r :
count_approvals lt pki c now pd td payload op dm l approvers keys = inl r →
NoDup approvers → NoDup keys →
∃ m : list (Approval * (string * string)),
  r = (reverse (fst <$> (snd <$> m)) ++ approvers, reverse (snd <$> (snd <$> m)) ++ keys) ∧
  NoDup r.1 ∧ NoDup r.2 ∧
  ∀ a pk, (a, pk) ∈ m → a ∈ l ∧ ap_package a = pd ∧ ap_transition a = td ∧
    approval_by lt pki c now payload op dm a = inl pk.
Proof.
revert approvers keys r. induction l as [|a l IH]; intros approvers keys r; cbn [count_approvals].
- intros [= <-] Ha Hk. exists []. split_and!; try done. by intros ? ? ?%not_elem_of_nil.
- destruct (negb _ || negb _) eqn:Em.
  { intros H Ha Hk. destruct (IH _ _ _ H Ha Hk) as (m & -> & H1 & H2 & H3). exists m. split_and!; auto.
    intros a' pk Hin. destruct (H3 a' pk Hin) as (? & ? & ? & ?). set_solver. }
  intros ([p k] & Hby & H)%rbind_inl Ha Hk. cbn [fst snd] in H. go_bool.
  destruct (mem_key p approvers) eqn:E1; [done|]. destruct (mem_key k keys) eqn:E2; [done|].
  rewrite <- not_true_iff_false, mem_key_true in E1, E2.
  destruct (IH _ _ _ H) as (m & -> & N1 & N2 & N3); [by constructor..|].
  exists ((a, (p, k)) :: m). split_and!; try done.
  + rewrite !fmap_cons, !reverse_cons, <- !app_assoc. done.
  + intros a' pk [Hin|Hin]%elem_of_cons; [|destruct (N3 a' pk Hin) as (? & ? & ? & ?); set_solver].
    injection Hin as -> ->. split_and!; auto. by left.
Qed.

(** An approval counts only when its signer is verified, named, and allowed to
  approve by grants inside the root authority. *)
Lemma approval_by_inl c now payload op dm a pk :
approval_by lt pki c now payload op dm a = inl pk →
∃ cert aic, VerifyDetached pki (ap_signature a) payload = Some (Some cert) ∧
  verifyCertificate pki (Some cert) (cf_roots c) now = inl aic ∧
  names_principal (TrimPrefix (ap_approver a) "principal:") (id_principal aic) = true ∧
  pk = (pu_realm (id_principal aic) +:+ ":" +:+ pu_identifier (id_principal aic), key_of pki cert) ∧
  d_verdict (AuthorizeSetWithDomains lt
    (containGrants lt (grantsFor aic (op_id op)) (items (po_root_grants (cf_policy c))) dm) op dm) = VerdictAllow.
Proof.
unfold approval_by. destruct (String.eqb _ _); [done|].
destruct (VerifyDetached pki _ _) as [[cert|]|]; [|done..].
destruct (verifyCertificate pki _ _ _) as [aic|] eqn:Ev; [|done].
destruct (_ || negb _) eqn:En; [done|]. destruct (length _ =? 0)%nat; [done|]. destruct (length _ =? 0)%nat; [done|].
destruct (negb (bool_decide _)) eqn:Ed; [done|]. intros [= <-]. go_bool. exists cert, aic. done.
Qed.

(** An approval threshold counts distinct principals with distinct keys.
  When the policy requires approvals, an accepted confirmation has at least
  that many recorded approvals of exactly this package and transition, made by
  pairwise different principals with pairwise different keys, each signed over
  the canonical approval operation by a verified certificate whose grants,
  inside the root authority, allow the approval. *)
Lemma approvals_distinct c res :
ConfirmSigned lt pki c = (res, None) → 0 < po_approval_threshold (sc_policy c) →
∃ pkg tr payload op (m : list (Approval * (string * string))),
  ParsePackage (sc_package c) = inl pkg ∧ ParseTransition (sc_transition c) = inl tr ∧
  ApprovalSigningBytes pkg tr = inl payload ∧ BuildApprovalOperation pkg tr = inl op ∧
  po_approval_threshold (sc_policy c) <= Z.of_nat (length m) ∧
  NoDup (fst <$> (snd <$> m)) ∧ NoDup (snd <$> (snd <$> m)) ∧
  let dm := domainMapFor (po_declaration (sc_policy c)) (capabilityOf (op_id op)).1 in
  ∀ a p k, (a, (p, k)) ∈ m →
    a ∈ st_approvals (sc_state c) ∧ ap_package a = cr_package_digest res ∧ ap_transition a = cr_transition_digest res ∧
    ∃ cert aic, VerifyDetached pki (ap_signature a) payload = Some (Some cert) ∧ key_of pki cert = k ∧
      p = pu_realm (id_principal aic) +:+ ":" +:+ pu_identifier (id_principal aic) ∧
      d_verdict (AuthorizeSetWithDomains lt
        (containGrants lt (grantsFor aic (op_id op)) (items (po_root_grants (sc_policy c))) dm) op dm) = VerdictAllow.
Proof.
intros (pkg & tr & signers & publisher & sig & now & S)%ConfirmSigned_None Hth.
destruct (signed_decided _ _ _ _ _ _ _ _ S) as [aic D]. destruct (so_digests _ _ _ _ _ _ _ _ S) as [Epd Etd].
pose proof (dk_approvals _ _ _ _ _ _ D) as H. unfold approvals_met, verifyApprovals in H.
cbn [confirmation_for cf_policy cf_package cf_transition cf_state] in H.
apply Z.ltb_lt in Hth. rewrite Hth in H.
destruct (ApprovalSigningBytes pkg tr) as [payload|] eqn:Ep; [|done].
destruct (BuildApprovalOperation pkg tr) as [op|] eqn:Eop; [|done].
destruct (maxApprovalRecords <? _)%nat; [done|].
set (dm := domainMapFor _ _) in *.
destruct (count_approvals _ _ _ _ _ _ _ _ _ _ _ _) as [r|] eqn:Ec; [|done]. cbn [rbind] in H. apply guard_None in H.
apply count_approvals_inl in Ec as (m & -> & N1 & N2 & Hm); [|apply NoDup_nil_2..].
cbn [fst snd] in *. rewrite app_nil_r in *. rewrite length_reverse, !length_fmap in H.
rewrite reverse_Permutation in N1, N2.
exists pkg, tr, payload, op, m. split; [apply (so_package _ _ _ _ _ _ _ _ S)|].
split; [apply (so_transition _ _ _ _ _ _ _ _ S)|]. do 2 (split; [done|]). split; [lia|].
do 2 (split; [done|]). intros a p k Hin.
destruct (Hm a (p, k) Hin) as (Ha & Hp & Ht & Hby). rewrite Epd, Etd. do 3 (split; [done|]).
apply approval_by_inl in Hby as (cert & aic' & Hv & _ & _ & [= -> ->] & Hd). exists cert, aic'. done.
Qed.

(** ** Authority *)

Lemma ValidateTransition_namespace tr :
ValidateTransition tr = None →
HasPrefix (tr_namespace tr) "/" = true ∧ Clean (tr_namespace tr) = tr_namespace tr ∧
tr_namespace tr = "/" +:+ tr_scheme tr.
Proof.
unfold ValidateTransition. rewrite !check_seq_None, !guard_None.
intros (_ & _ & _ & [_ Hc]%orb_false_iff & Hn & _). go_bool. split_and!; auto.
rewrite Hn. apply HasPrefix_app. eauto.
Qed.

Lemma namespaceUnder_segments ns prefixes :
HasPrefix ns "/" = true → Clean ns = ns → (∀ p, p ∈ prefixes → prefix_ok p = true) →
namespaceUnder ns prefixes = true →
∃ l rest, path_of l ∈ prefixes ∧ l ≠ [] ∧ Forall good_seg (l ++ rest) ∧ ns = path_of (l ++ rest).
Proof.
intros H1 H2 Hp (p & Hin%list_elem_of_In & H)%existsb_exists. specialize (Hp p Hin) as Hok.
unfold prefix_ok in Hok. go_bool.
destruct (proj1 (clean_path p)) as (l & Hl & ->); [done|].
destruct (proj1 (clean_path ns)) as (m & Hm & ->); [done|].
assert (l `prefix_of` m) as [k ->].
{ apply prefix_segments; [done..|]. apply orb_true_iff in H as [H|H]; [left|by right]. by apply String.eqb_eq. }
exists l, k. split_and!; auto. by intros ->.
Qed.

Lemma ValidatePolicy_prefixes p prefix :
ValidatePolicy p = None → prefix ∈ items (po_prefixes p) → prefix_ok prefix = true.
Proof.
unfold ValidatePolicy. rewrite !check_seq_None.
intros (_ & _ & _ & _ & _ & _ & _ & _ & _ & _ & _ & _ & H & _) Hin. rewrite check_all_None in H.
specialize (H prefix Hin). apply guard_None in H. by go_bool.
Qed.

(** The certificate [publisher], whose identity is [aic], published the package:
  it made a package signature, a transition signature is by its key, its chain
  ends in the configured roots at the time of the policy, its identity is the one
  in the certificate, bound to the certificate key, and names the publisher of
  the package; the result records its key. *)
Definition published_by (c : SignedConfirmation (Cert := Cert)) (res : ConfirmationResult) (pkg : Package)
  (publisher : Cert) (aic : Identity) : Prop :=
(∃ s, s ∈ sc_signatures c ∧ VerifyDetached pki s (sc_package c) = Some (Some publisher)) ∧
(∃ s cert, s ∈ sc_transition_signatures c ∧ VerifyDetached pki s (sc_transition c) = Some (Some cert) ∧
   key_of pki cert = key_of pki publisher) ∧
(∃ now, policyTime (sc_policy c) = inl now ∧ verifyChain pki (Some publisher) (sc_roots c) now = None) ∧
ParseAIC pki publisher = Some (Some aic) ∧ pu_key_hash (id_principal aic) = Sum256 (ct_spki pki publisher) ∧
names_principal (TrimPrefix (pk_publisher pkg) "principal:") (id_principal aic) = true ∧
cr_key_id res = key_of pki publisher.

Lemma signed_published_by c res pkg tr signers publisher sig now aic :
signed_ok c res pkg tr signers publisher sig now →
verifyPublisher pki pkg (Some publisher) (sc_roots c) now = inl aic → published_by c res pkg publisher aic.
Proof.
intros S Hv. destruct (so_signers _ _ _ _ _ _ _ _ S publisher (so_publisher _ _ _ _ _ _ _ _ S)) as (Hch & Hs).
unfold verifyPublisher, verifyCertificate in Hv. rewrite Hch in Hv. cbn [rguard] in Hv.
apply rbind_inl in Hv as (aic' & Hc & Hn). destruct (negb _) eqn:En in Hn; [done|]. injection Hn as ->.
go_bool. destruct (ParseAIC pki publisher) as [[a|]|] eqn:Ea; [|done..].
destruct (negb _) in Hc; [done|]. destruct (_ || _) in Hc; [done|].
destruct (negb _) eqn:Eh in Hc; [done|]. injection Hc as ->. go_bool.
split; [done|]. split.
- pose proof (so_signature _ _ _ _ _ _ _ _ S) as Hsig. apply List.find_some in Hsig as [Hin Hm].
  destruct (VerifyDetached pki sig (sc_transition c)) as [[cert|]|] eqn:Ev; [|done..].
  exists sig, cert. split; [by apply list_elem_of_In|]. split; [done|]. by apply String.eqb_eq.
- split; [exists now; split; [apply (so_time _ _ _ _ _ _ _ _ S)|done]|]. do 3 (split; [done|]).
  apply (so_key _ _ _ _ _ _ _ _ S).
Qed.

(** C10: an accepted publication is authorized inside the root authority.  The
  definition and declaration bytes hash to the digests the package pins.  There is
  one publisher certificate: it made a package signature, its key made a
  transition signature, it chains to the configured roots, and the identity in it
  is bound to its key and names the publisher of the package.  The operation built
  from the package and the transition is allowed by grants of that certificate,
  each of which the deployer's root authority contains under the administration
  declaration.  The namespace extends, segment by segment, a prefix the deployer
  adopts, and the major revision is within its limit. *)
Theorem publication_authority c res :
ConfirmSigned lt pki c = (res, None) →
∃ pkg tr publisher aic op, ParsePackage (sc_package c) = inl pkg ∧ ParseTransition (sc_transition c) = inl tr ∧
  published_by c res pkg publisher aic ∧ BuildManagementOperation pkg tr = inl op ∧
  Digest (sc_definition c) = pk_definition_digest pkg ∧ Digest (sc_declaration c) = pk_declaration_digest pkg ∧
  (let dm := domainMapFor (po_declaration (sc_policy c)) (capabilityOf (op_id op)).1 in
   let grants := containGrants lt (grantsFor aic (op_id op)) (items (po_root_grants (sc_policy c))) dm in
   d_verdict (AuthorizeSetWithDomains lt grants op dm) = VerdictAllow ∧
   ∀ g, g ∈ grants → ∃ cap root, cap ∈ id_capabilities aic ∧ coversGrantID (ac_full_id cap) (op_id op) = true ∧
     grantFromAICCapability cap = Some g ∧ root ∈ items (po_root_grants (sc_policy c)) ∧
     ContainsWithDomains lt root g dm dm = None) ∧
  (∃ l rest, path_of l ∈ items (po_prefixes (sc_policy c)) ∧ l ≠ [] ∧ Forall good_seg (l ++ rest) ∧
     "/" +:+ pk_scheme pkg = path_of (l ++ rest)) ∧
  (∃ major, MajorOf (pk_revision pkg) = Some major ∧ major <= po_max_major (sc_policy c)).
Proof.
intros (pkg & tr & signers & publisher & sig & now & S)%ConfirmSigned_None.
destruct (signed_decided _ _ _ _ _ _ _ _ S) as [aic D].
pose proof (dk_authority _ _ _ _ _ _ D) as Ha. unfold authority in Ha.
cbn [confirmation_for cf_policy cf_package cf_transition] in Ha.
destruct (BuildManagementOperation pkg tr) as [op|] eqn:Eop; [|done].
rewrite !check_seq_None, !guard_None in Ha. destruct Ha as (_ & _ & Hd). go_bool.
pose proof (ValidatePayload_None _ _ _ (dk_payload _ _ _ _ _ _ D)) as (P1 & P2 & _).
pose proof (dk_same _ _ _ _ _ _ D) as Hs. unfold same_package in Hs. apply check_seq_None in Hs as [Hs%guard_None _].
pose proof (dk_adoption _ _ _ _ _ _ D) as Had. unfold adoption in Had. rewrite check_seq_None, guard_None in Had.
destruct Had as [Hns Hmaj]. destruct (ValidateTransition_namespace _ (dk_transition _ _ _ _ _ _ D)) as (N1 & N2 & N3).
go_bool. cbn [confirmation_for cf_policy cf_package cf_transition cf_definition cf_declaration] in *.
exists pkg, tr, publisher, aic, op. split; [apply (so_package _ _ _ _ _ _ _ _ S)|].
split; [apply (so_transition _ _ _ _ _ _ _ _ S)|].
split; [eapply signed_published_by; [done|apply (dk_identity _ _ _ _ _ _ D)]|]. do 3 (split; [done|]). split; [|split].
- split; [done|]. intros g Hg. unfold containGrants in Hg. apply list_elem_of_In, filter_In in Hg as [Hg Hc].
  apply list_elem_of_In, list_elem_of_omap in Hg as (cap & Hcap & Hg).
  destruct (coversGrantID _ _) eqn:Ecov; [|done]. apply existsb_exists in Hc as (root & Hr%list_elem_of_In & Hc).
  go_bool. by exists cap, root.
- rewrite Hs, <- N3. apply namespaceUnder_segments; auto.
  intros p Hp. by apply (ValidatePolicy_prefixes (sc_policy c)); [apply (dk_policy _ _ _ _ _ _ D)|].
- destruct (MajorOf (pk_revision pkg)) as [major|]; [|done]. apply guard_None in Hmaj. exists major. split; [done|]. lia.
Qed.

(** ** Persisting a confirmed package *)

(** Every state change of the signed interface is a step of the registry. *)
Lemma AcceptSigned_step s c s' res :
AcceptSigned lt pki s c = (inl s', res) → registry_step pki s s'.
Proof.
unfold AcceptSigned. destruct (ConfirmSigned lt pki c) as [r [e|]]; [done|]. intros [= H <-].
apply rbind_inl in H as (pkg & [Hv Hg]%ParsePackage_inl & (tr & _ & H)%rbind_inl).
eapply step_accept. split; [|split]; [..|exact H]; done.
Qed.

(** The checks of [Accept] on the state the confirmation was made for. *)
Lemma checkState_accept_from (c : Confirmation Cert) :
ValidateTransition (cf_transition c) = None → checkState c = None →
accept_from (cf_state c) (cf_transition c) = None ∧
∀ d, digestAt (cf_state c) (tr_to_generation (cf_transition c)) = Some d → d = tr_to_digest (cf_transition c).
Proof.
intros Hv H. unfold checkState, accept_from in *.
destruct (String.eqb (tr_action (cf_transition c)) ActionCreate) eqn:Ea.
- unfold ValidateTransition in Hv. rewrite !check_seq_None in Hv.
  destruct Hv as (_ & _ & _ & _ & _ & _ & _ & _ & _ & _ & _ & Hc). rewrite Ea in Hc.
  unfold validate_create in Hc. rewrite !check_seq_None, !guard_None in Hc. destruct Hc as (_ & Hto & _).
  apply guard_None in H as [[Hh Hg]%orb_false_iff Hd]%orb_false_iff. rewrite Hh, Hg, Hd, Hto. split; [done|].
  go_bool. apply Z.eqb_eq in Hg, Hto. apply Nat.eqb_eq, length_zero_iff_nil in Hh.
  intros d. unfold digestAt. by rewrite Hg, Hto, Hh.
- apply check_seq_None in H as [Hf H]. split.
  + destruct (tr_from_generation (cf_transition c)) as [from|]; [|done].
    rewrite !check_seq_None, !guard_None in H. destruct H as (H1 & H2 & H3 & _).
    rewrite H1, H2. go_bool. apply Z.eqb_eq in H1. by rewrite H1, H3.
  + intros d Hd. rewrite Hd in Hf. apply guard_None in Hf. by go_bool.
Qed.

Lemma same_package_None pkg tr :
same_package pkg tr = None →
pk_scheme pkg = tr_scheme tr ∧ pk_generation pkg = tr_to_generation tr ∧ PackageDigest pkg = inl (tr_to_digest tr).
Proof.
unfold same_package. rewrite !check_seq_None, !guard_None. intros (H1 & H2 & _ & _ & H3 & _). go_bool.
apply Z.eqb_eq in H2. destruct (PackageDigest pkg) as [d|]; [|done]. apply guard_None in H3. go_bool. by subst d.
Qed.

Lemma Accept_ok s (c : Confirmation Cert) res :
cr_signed res = true → cr_verdict res = VerdictAccept →
PackageDigest (cf_package c) = inl (cr_package_digest res) →
TransitionDigest (cf_transition c) = inl (cr_transition_digest res) →
pk_scheme (cf_package c) = tr_scheme (cf_transition c) →
pk_generation (cf_package c) = tr_to_generation (cf_transition c) →
accept_from s (cf_transition c) = None →
(∀ d, digestAt s (tr_to_generation (cf_transition c)) = Some d → d = cr_package_digest res) →
tr_action (cf_transition c) ≠ ActionRevoke →
Accept pki s c res = inl (mkState (pk_scheme (cf_package c)) (pk_revision (cf_package c))
  (tr_to_generation (cf_transition c)) (cr_package_digest res)
  (next_history s (mkEntry (tr_to_generation (cf_transition c)) (cr_package_digest res)))
  (st_revoked s) (st_approvals s)).
Proof.
intros H1 H2 H3 H4 H5 H6 H7 H8 H9. unfold Accept. rewrite H1, H2, H3, H4, H5, H6, H7. cbn [rbind].
rewrite !String.eqb_refl, Z.eqb_refl. cbn [negb orb guard check_seq rguard].
destruct (digestAt s _) as [d|].
- rewrite (H8 d), String.eqb_refl by done. cbn [negb guard]. by rewrite (proj2 (String.eqb_neq _ _) H9).
- by rewrite (proj2 (String.eqb_neq _ _) H9).
Qed.

Lemma next_history_prefix s head : st_history s `prefix_of` next_history s head.
Proof.
unfold next_history. destruct (list.last _) as [e|]; [destruct (_ =? _); [done|]|]; by apply prefix_app_r.
Qed.

(** What is confirmed can be persisted.  When a signed confirmation accepts a
  create, an update or a root rotation for a state, [AcceptSigned] on that
  state succeeds: the new state is one step of the registry away, one
  generation further, its head is the confirmed package and its revocations
  are unchanged. *)
Lemma confirmed_persistable c res :
ConfirmSigned lt pki c = (res, None) → cr_action res ≠ ActionRevoke →
∃ s', AcceptSigned lt pki (sc_state c) c = (inl s', res) ∧ registry_step pki (sc_state c) s' ∧
  st_generation s' = cr_generation res ∧ st_digest s' = cr_package_digest res ∧
  st_revoked s' = st_revoked (sc_state c) ∧ st_history (sc_state c) `prefix_of` st_history s'.
Proof.
intros Hc Hact. pose proof Hc as (pkg & tr & signers & publisher & sig & now & S)%ConfirmSigned_None.
destruct (signed_decided _ _ _ _ _ _ _ _ S) as [aic D]. rewrite (so_action _ _ _ _ _ _ _ _ S) in Hact.
destruct (so_digests _ _ _ _ _ _ _ _ S) as [Epd Etd].
destruct (checkState_accept_from _ (dk_transition _ _ _ _ _ _ D) (dk_state _ _ _ _ _ _ D)) as [Hfrom Hfork].
destruct (same_package_None _ _ (dk_same _ _ _ _ _ _ D)) as (Hs & Hg & Hp).
destruct (TransitionDigest_ok tr (dk_transition _ _ _ _ _ _ D) Hact) as [td Htd].
cbn [confirmation_for cf_transition cf_state cf_package] in *. rewrite Hp, Htd in *. cbn [digest_or_empty] in *.
set (s' := mkState (pk_scheme pkg) (pk_revision pkg) (tr_to_generation tr) (cr_package_digest res)
  (next_history (sc_state c) (mkEntry (tr_to_generation tr) (cr_package_digest res)))
  (st_revoked (sc_state c)) (st_approvals (sc_state c))).
assert (AcceptSigned lt pki (sc_state c) c = (inl s', res)) as Hacc; [|exists s'; split; [exact Hacc|]].
- unfold AcceptSigned. rewrite Hc, (so_package _ _ _ _ _ _ _ _ S), (so_transition _ _ _ _ _ _ _ _ S). cbn [rbind].
  rewrite Accept_ok; cbn [cf_package cf_transition]; try reflexivity; try congruence.
  + apply (so_signed _ _ _ _ _ _ _ _ S).
  + apply (so_verdict _ _ _ _ _ _ _ _ S).
  + intros d Hd. rewrite Epd. by apply Hfork.
- split; [by eapply AcceptSigned_step|]. cbn [st_generation st_digest st_revoked st_history].
  rewrite (so_generation _ _ _ _ _ _ _ _ S). split_and!; try done. apply next_history_prefix.
Qed.
End confirmed.

(** ** Delegation *)

Lemma wf_fold_mset {A} (l acc : gomap A) : wf_map acc → wf_map (fold_left (λ acc kv, mset kv.1 kv.2 acc) l acc).
Proof. revert acc. induction l as [|kv l IH]; intros acc H; [done|]. cbn. by apply IH, wf_mset. Qed.

Lemma wf_struct_map {A} (f : jtext → option A) m r : into_struct_map f m = Some r → wf_map r.
Proof.
  unfold into_struct_map. destruct (mapM _ m) as [l|]; [|done]. intros [= <-]. apply wf_fold_mset. constructor.
Qed.

(** The values of a decoded map are decoded values. *)
Lemma struct_map_values {A} (f : jtext → option A) m r k v :
  into_struct_map f m = Some r → (k, v) ∈ r → ∃ j, f j = Some v.
Proof.
  unfold into_struct_map. destruct (mapM _ m) as [l|] eqn:E; [|done]. intros [= <-].
  assert (∀ kv, kv ∈ l → ∃ j, f j = Some kv.2) as Hl.
  { intros kv Hin. apply mapM_Some in E. apply list_elem_of_lookup in Hin as [i Hi].
    destruct (Forall2_lookup_r _ _ _ _ _ E Hi) as ([k' j] & _ & Hj). cbn in Hj.
    destruct (f j) as [x|] eqn:Ej; [|done]. injection Hj as <-. eauto. }
  clear E. assert (∀ acc, (k, v) ∈ fold_left (λ acc kv, mset kv.1 kv.2 acc) l acc →
    (∃ j, f j = Some v) ∨ (k, v) ∈ acc) as H.
  { induction l as [|[k0 v0] l IH]; intros acc Hin; [by right|]. cbn in Hin.
    destruct (IH (λ kv H, Hl kv (list_elem_of_further _ _ _ H)) _ Hin) as [?|Hm]; [by left|].
    assert ((k, v) = (k0, v0) ∨ (k, v) ∈ acc) as [[= -> ->]|?]; [|left; by apply (Hl (k0, v0)); left|by right].
    clear - Hm. induction acc as [|[k1 v1] acc IH]; cbn in Hm; [by apply list_elem_of_singleton in Hm; auto|].
    destruct (String.eqb k0 k1); apply elem_of_cons in Hm as [Hm|Hm]; auto; set_solver. }
  intros Hin. destruct (H [] Hin) as [?|?%not_elem_of_nil]; done.
Qed.

Lemma domainMapFor_wf raw capability : wf_map (domainMapFor raw capability).
Proof.
  unfold domainMapFor. destruct (String.eqb raw ""); [constructor|].
  destruct (ParseDeclaration raw) as [decl|] eqn:E; [|constructor]. unfold DomainMap.
  destruct (mget capability (dc_capabilities decl)) as [c|] eqn:Ec; [|constructor].
  assert (wf_map (entries c)) as Hw.
  { unfold ParseDeclaration in E. destruct (decode_declaration raw) as [d|] eqn:Ed; [|done].
    destruct (negb _); [done|]. destruct (negb _); [done|]. injection E as <-.
    unfold decode_declaration in Ed. destruct (decodeClosed _ _) as [t|]; [|done]. cbn [mbind option_bind] in Ed.
    destruct (into_struct_map into_capability _) as [caps|] eqn:Em; [|done]. cbn [mbind option_bind] in Ed.
    injection Ed as <-. cbn [dc_capabilities] in Ec.
    destruct (struct_map_values _ _ _ _ _ Em (mget_elem _ _ _ Ec)) as [j Hj]. unfold into_capability in Hj.
    destruct (decode_struct _ _) as [t'|]; [|done]. cbn [mbind option_bind] in Hj.
    destruct (get_obj "params" t') as [m|]; [|injection Hj as <-; constructor].
    destruct (into_struct_map into_param m) as [ps|] eqn:Ep; [|done]. injection Hj as <-. by eapply wf_struct_map. }
  unfold wf_map, mkeys in *. change (map ?f ?l) with (f <$> l). rewrite <- list_fmap_compose. done.
Qed.

Lemma ValidateDelegation_None lt d policy :
  ValidateDelegation lt d policy = None →
  let dm := domainMapFor (po_declaration policy) (capabilityOf (g_id (dg_child d))).1 in
  (∃ root, root ∈ items (po_root_grants policy) ∧ ContainsWithDomains lt root (dg_parent d) dm dm = None) ∧
  ContainsWithDomains lt (dg_parent d) (dg_child d) dm dm = None ∧
  (capabilityOf (g_id (dg_child d))).1 ∈ administrationCapabilities.
Proof.
  unfold ValidateDelegation, checkAdministrationGrant. rewrite !check_seq_None.
  intros (_ & _ & _ & Hc & H). destruct (capabilityOf (g_id (dg_child d))) as [cap ok]. cbn [fst] in *.
  rewrite !check_seq_None, !guard_None in *. destruct Hc as [_ Hc], H as (_ & _ & _ & Hr & H). go_bool.
  apply mem_key_true in Hc. apply existsb_exists in Hr as (root & Hin%list_elem_of_In & Hr). go_bool.
  split; [eauto|]. split; [|done]. by destruct (ContainsWithDomains lt (dg_parent d) (dg_child d) _ _).
Qed.

(** Delegated administration authority stays inside the root authority.
    When a delegation is accepted, every operation the delegated grant allows
    under the administration declaration is allowed by the delegator's grant and
    by one of the deployer's configured root grants (with the side conditions of
    containment on the grants as compared). *)
Lemma delegation_within_root lt d policy op :
  ValidateDelegation lt d policy = None →
  let dm := domainMapFor (po_declaration policy) (capabilityOf (g_id (dg_child d))).1 in
  wf_map (entries (g_params (dg_parent d))) → wf_map (entries (g_params (dg_child d))) →
  wf_map (entries (op_params op)) →
  (∀ root, root ∈ items (po_root_grants policy) →
     wf_map (entries (g_params root)) ∧
     (ContainsWithDomains lt root (dg_parent d) dm dm = None → safe_under lt dm root (dg_parent d) = true)) →
  safe_under lt dm (dg_parent d) (dg_child d) = true →
  EntailsWithDomains lt (dg_child d) op dm = None →
  EntailsWithDomains lt (dg_parent d) op dm = None ∧
  ∃ root, root ∈ items (po_root_grants policy) ∧ EntailsWithDomains lt root op dm = None.
Proof.
  intros Hd dm Hp Hc Ho Hroots Hs He.
  apply ValidateDelegation_None in Hd as ((root & Hin & Hrp) & Hpc & _). fold dm in Hrp, Hpc.
  pose proof (domainMapFor_wf (po_declaration policy) (capabilityOf (g_id (dg_child d))).1) as Hdm. fold dm in Hdm.
  destruct (Hroots root Hin) as [Hrw Hrs].
  assert (EntailsWithDomains lt (dg_parent d) op dm = None) as Hpe.
  { apply (ContainsWithDomains_layers lt dm (dg_parent d) (dg_child d) op); auto. }
  split; [done|]. exists root. split; [done|]. apply (ContainsWithDomains_layers lt dm root (dg_parent d) op); auto.
Qed.

(** ** A concrete root rotation, approved once *)

Definition json_obj (members : list (string * string)) : string :=
  "{" +:+ Join "," (map (λ kv, quoted kv.1 +:+ ":" +:+ kv.2) members) +:+ "}".
Definition w_declaration (scheme : string) : string :=
  json_obj [("@version", quoted "CLC-SCHEME-v1"); ("scheme", quoted scheme); ("declaration_id", quoted "d1");
            ("clc_revision", quoted "CLC-1.19");
            ("capabilities", json_obj [("scheme:create", json_obj [("params",
               json_obj [("namespace", json_obj [("domain", quoted "path-prefix")])])])])].
Definition w_pkg (g : Z) (prev : string) : Package :=
  mkPackage PackageVersion "acme/db-v1" "1.0" (Digest "definition") (Digest (w_declaration "acme/db-v1"))
    "CLC-1.19" ChangeMajor prev "principal:acme" g "" "".
Definition w_root1 : string := Eval vm_compute in digest_text (PackageDigest (w_pkg 1 "")).
Definition w_root2 : string := Eval vm_compute in digest_text (PackageDigest (w_pkg 2 w_root1)).
Definition w_next_key : string := Eval vm_compute in Digest "next key".
Definition w_rotate : Transition :=
  mkTransition TransitionVersion ActionRootRotate "acme/db-v1" "/acme/db-v1" (Some 1) 2 w_root1 w_root2 ChangeMajor
    "CLC-1.19" "" "" "" None w_root2 [w_next_key] 1.
Definition w_admin_grant : Grant := mkGrant "varwof/scheme-admin-v1:scheme:*" None None [].
Definition w_root_policy : TrustPolicy :=
  mkPolicy w_root1 (Some [Digest "key"]) 1 (Some [w_admin_grant]) (Some ["CLC-1.19"]) (Some ["/acme"]) 1
    (w_declaration SchemeID) "2026-01-02T00:00:00Z" 0 1 w_root2 [w_next_key] 1.
Definition w_root_state : RegistryState :=
  mkState "acme/db-v1" "1.0" 1 w_root1 [mkEntry 1 w_root1] []
    [mkApproval w_root2 (digest_text (TransitionDigest w_rotate)) "principal:acme" "signature"].
Definition w_text_of (v : any) : string := match CanonicalJSON v with inl t => t | inr _ => "" end.
Definition w_signed : SignedConfirmation :=
  mkSigned (Cert := unit) (w_text_of (package_any (w_pkg 2 w_root1))) ["signature"] (w_text_of (transition_any w_rotate))
    ["signature"] "definition" (w_declaration "acme/db-v1") [Some tt] w_root_state w_root_policy.
Definition w_confirmed : ConfirmationResult := Eval vm_compute in (ConfirmSigned w_lower w_pki w_signed).1.

Lemma w_confirmed_ok : ConfirmSigned w_lower w_pki w_signed = (w_confirmed, None).
Proof. vm_compute. reflexivity. Qed.

Lemma root_rotation_threshold_witness :
  cr_action w_confirmed = ActionRootRotate ∧
  ∃ keys, NoDup keys ∧ 1 <= po_root_threshold w_root_policy <= Z.of_nat (length keys) ∧
    ∀ k, k ∈ keys → k ∈ items (po_root_keys w_root_policy).
Proof.
  split; [reflexivity|].
  destruct (root_rotation_threshold w_lower w_pki w_signed w_confirmed w_confirmed_ok eq_refl)
    as (now & keys & tr & _ & _ & Hn & Hl & Hk & _).
  exists keys. split; [exact Hn|]. split; [exact Hl|]. intros k Hin. exact (proj1 (Hk k Hin)).
Defined.

Lemma publication_authority_witness :
  ∃ pkg major, ParsePackage (sc_package w_signed) = inl pkg ∧
    Digest (sc_definition w_signed) = pk_definition_digest pkg ∧
    MajorOf (pk_revision pkg) = Some major ∧ major <= po_max_major w_root_policy ∧
    ∃ publisher aic, published_by w_pki w_signed w_confirmed pkg publisher aic.
Proof.
  destruct (publication_authority w_lower w_pki w_signed w_confirmed w_confirmed_ok)
    as (pkg & tr & publisher & aic & op & Hp & _ & Hpub & _ & Hd & _ & _ & _ & major & Hm & Hle).
  exists pkg, major. split; [exact Hp|]. split; [exact Hd|]. split; [exact Hm|]. split; [exact Hle|].
  exists publisher, aic. exact Hpub.
Defined.

Definition w_delegated : Delegation :=
  mkDelegation "" "principal:team"
    (mkGrant "varwof/scheme-admin-v1:scheme:create" (Some [("namespace", AStr "/acme")]) None [])
    (mkGrant "varwof/scheme-admin-v1:scheme:create" (Some [("namespace", AStr "/acme/eu")]) None []).
Definition w_create_op : Operation :=
  mkOp "varwof/scheme-admin-v1:scheme:create" (Some [("namespace", AStr "/acme/eu/db-v1")]).

