(* ===== verification/Report.v ===== *)
(** * Evidence reports: data, native check results, assessment

    projection/typed.go, projector.go, evidence.go and report.go: typed digests,
    freshness decisions, the attribution contract of a native check result, the
    comparison of a declared inventory with the results, and completeness.  A
    [ReportError] is its stable code; an error without a code is [Uncoded]. *)

From S2P Require Import Prelude GoStrings GoFloat GoTime Json Canonical JsonText JsonStruct Utf.
From S2P Require Import NumberText CanonicalText GoTimeText Evidence Sha256 Requirement Sources.
From S2P Require Import Ids Values Bounds Context RecordJson Challenge.

Inductive report_code :=
  | CodeReportShape | CodeReportDigest | CodeReportProfile | CodeReportInventory | CodeReportFactUnbound
  | CodeReportCheckBinding | CodeReportNotApplicable | CodeReportIncomplete | CodeReportSignature
  | CodeReportVerifier | CodeReportStale | CodeReportVerdict | CodeReportPolicy | CodeReportSnapshotMissing
  | CodeReportSnapshotRollback | CodeReportSnapshotFork | CodeReportSnapshotSource | CodeReportDerivation
  | CodeReportReplayMissing | CodeReportReplayMismatch | Uncoded.
#[global] Instance report_code_eq_dec : EqDecision report_code.
Proof. solve_decision. Defined.

(** ** Typed digests (typed.go) *)

Definition digestAlg : string := "sha-256".
Definition PDigest := string.
Definition hex_class (c : ascii) : bool := in_range 48 57 c || in_range 97 102 c.

(** [Digest.Validate]: true is the nil error. *)
Definition digest_valid (d : PDigest) : bool :=
  if negb (String.length d =? String.length digestAlg + 1 + 64)%nat then false
  else if negb (String.eqb (stake (String.length digestAlg + 1) d) (digestAlg +:+ ":")) then false
  else str_forallb hex_class (sdrop (String.length digestAlg + 1) d).
Definition digest_Empty (d : PDigest) : bool := String.eqb d "".
Definition ParseDigest (raw : string) : option PDigest := if digest_valid raw then Some raw else None.
Definition DigestFromBytes (sum : list Z) : PDigest := digestAlg +:+ ":" +:+ hex_text sum.

(** An optional digest. *)
Definition digest_ok (d : PDigest) : bool := digest_Empty d || digest_valid d.

(** ** Freshness decisions *)

Definition FreshnessFresh : string := "fresh".
Definition FreshnessCached : string := "cached".
Definition FreshnessStale : string := "stale".
Definition freshness_Valid (f : string) : bool :=
  String.eqb f FreshnessFresh || String.eqb f FreshnessCached || String.eqb f FreshnessStale.

Record FreshnessDecision := mkFreshness {
  fr_verdict : string;
  fr_checked_at : option Instant;
  fr_valid_until : option Instant;
  fr_generation : Z
}.

(** [FreshnessDecision.Validate]. *)
Definition freshness_ok (f : FreshnessDecision) : bool :=
  if negb (freshness_Valid (fr_verdict f)) then false
  else match fr_checked_at f, fr_valid_until f with
       | Some c, Some v => After (in_at v) (in_at c)
       | _, _ => true
       end.
Definition freshness_IsZero (f : FreshnessDecision) : bool := String.eqb (fr_verdict f) "".

(** ** Native check results (projector.go) *)

Definition NativeCheckSuccess : string := "success".
Definition NativeCheckFailed : string := "failed".
Definition NativeCheckUnavailable : string := "unavailable".
Definition NativeCheckNotApplicable : string := "not_applicable".
Definition outcome_Valid (o : string) : bool :=
  String.eqb o NativeCheckSuccess || String.eqb o NativeCheckFailed ||
  String.eqb o NativeCheckUnavailable || String.eqb o NativeCheckNotApplicable.

Record NativeCheckResult := mkResult {
  nr_check_id : string;
  nr_component_type : string;
  nr_evidence_digest : PDigest;
  nr_outcome : string;
  nr_reason : string;
  nr_verifier : string;
  nr_verifier_profile : PDigest;
  nr_trust_snapshot : PDigest;
  nr_status_snapshot : PDigest;
  nr_snapshot_source : string;
  nr_snapshot_generation : Z;
  nr_verification_time : Instant;
  nr_freshness : option FreshnessDecision;
  nr_replay : PDigest
}.

Definition blank (s : string) : bool := String.eqb (TrimSpace s) "".
Definition ran (r : NativeCheckResult) : bool :=
  String.eqb (nr_outcome r) NativeCheckSuccess || String.eqb (nr_outcome r) NativeCheckFailed.

(** [NativeCheckResult.validate]: true is the nil error. *)
Definition result_validate (r : NativeCheckResult) : bool :=
  if blank (nr_check_id r) then false
  else if blank (nr_component_type r) then false
  else if negb (outcome_Valid (nr_outcome r)) then false
  else if negb (digest_valid (nr_evidence_digest r)) then false
  else if blank (nr_verifier r) then false
  else if negb (digest_valid (nr_verifier_profile r)) then false
  else if IsZero (in_at (nr_verification_time r)) then false
  else if negb (digest_Empty (nr_replay r)) && negb (digest_valid (nr_replay r)) then false
  else if negb (String.eqb (nr_outcome r) NativeCheckSuccess) && blank (nr_reason r) then false
  else if ran r then
    if negb (digest_valid (nr_trust_snapshot r)) then false
    else if negb (digest_valid (nr_status_snapshot r)) then false
    else match nr_freshness r with
         | None => false
         | Some f =>
             if negb (freshness_ok f) then false
             else negb (String.eqb (nr_outcome r) NativeCheckSuccess &&
                        negb (String.eqb (fr_verdict f) FreshnessFresh) &&
                        negb (String.eqb (fr_verdict f) FreshnessCached))
         end
  else true.

(** ** Expectations and assessment (evidence.go) *)

Record NativeCheckExpectation := mkExpectation { ne_check_id : string; ne_component_type : string; ne_evidence_digest : PDigest }.

Definition NUL : ascii := chr 0.
Definition component_key (check component : string) (evidence : PDigest) : string :=
  check +:+ String NUL (component +:+ String NUL evidence).
Definition expectation_key (e : NativeCheckExpectation) : string :=
  component_key (ne_check_id e) (ne_component_type e) (ne_evidence_digest e).
Definition resultKey (r : NativeCheckResult) : string :=
  component_key (nr_check_id r) (nr_component_type r) (nr_evidence_digest r).

(** [NativeCheckExpectation.validate]. *)
Definition expectation_validate (e : NativeCheckExpectation) : bool :=
  if String.eqb (ne_check_id e) "" then false
  else if String.eqb (ne_component_type e) "" then false
  else digest_valid (ne_evidence_digest e).

Record NativeCheckConflict := mkConflict {
  nc_check_id : string;
  nc_component_type : string;
  nc_evidence_digest : PDigest;
  nc_outcomes : option (list string)
}.
(** A nil slice is [None]: the report's assessment is compared with
    [reflect.DeepEqual], which tells it from an empty one. *)
Record NativeCheckAssessment := mkAssessment {
  na_complete : bool;
  na_missing : option (list NativeCheckExpectation);
  na_unexpected : option (list NativeCheckResult);
  na_conflicting : option (list NativeCheckConflict)
}.

(** A slice that [append] made. *)
Definition appended {A} (l : list A) : option (list A) := match l with [] => None | _ => Some l end.

(** The map of outcome sets per component, in the order of insertion. *)
Definition note_outcome (outcomes : gomap (list string)) (r : NativeCheckResult) : gomap (list string) :=
  let key := resultKey r in
  let seen := default [] (mget key outcomes) in
  mset key (if mem_key (nr_outcome r) seen then seen else seen ++ [nr_outcome r]) outcomes.
Definition outcome_map (results : list NativeCheckResult) : gomap (list string) := fold_left note_outcome results [].

(** The loop over the expectations: the missing ones, and the keys declared. *)
Fixpoint missing_loop (outcomes : gomap (list string)) (keys : list string) (expected : list NativeCheckExpectation) :
    list NativeCheckExpectation * list string :=
  match expected with
  | [] => ([], keys)
  | want :: rest =>
      let key := expectation_key want in
      if mem_key key keys then
        let '(missing, keys') := missing_loop outcomes keys rest in (want :: missing, keys')
      else
        let '(missing, keys') := missing_loop outcomes (key :: keys) rest in
        (if (length (default [] (mget key outcomes)) =? 0)%nat then want :: missing else missing, keys')
  end.

Definition conflictFrom (key : string) (outcomes : list string) : NativeCheckConflict :=
  match Split NUL key with
  | [a; b; c] => mkConflict a b c (Some (sort_Strings outcomes))
  | _ => mkConflict "" "" "" (Some (sort_Strings outcomes))
  end.

Definition conflict_le (a b : NativeCheckConflict) : Prop := String.le (nc_check_id a) (nc_check_id b).
#[global] Instance conflict_le_dec : RelDecision conflict_le.
Proof. intros a b. unfold conflict_le. apply _. Defined.

(** [AssessNativeChecks].  [iter] is the order in which Go iterates over the map
    of outcomes (and in which [sort.Slice] leaves equal elements). *)
Definition AssessNativeChecks (iter : gomap (list string) → gomap (list string))
    (expected : list NativeCheckExpectation) (results : list NativeCheckResult) : NativeCheckAssessment :=
  let outcomes := outcome_map results in
  let '(missing, expectedKeys) := missing_loop outcomes [] expected in
  let conflicting := (λ kv, conflictFrom kv.1 kv.2) <$> List.filter (λ kv, (1 <? length kv.2)%nat) (iter outcomes) in
  let unexpected := List.filter (λ r, (0 <? length expectedKeys)%nat && negb (mem_key (resultKey r) expectedKeys)) results in
  mkAssessment
    ((0 <? length expected)%nat && (length missing =? 0)%nat && (length unexpected =? 0)%nat && (length conflicting =? 0)%nat)
    (appended missing) (appended unexpected) (appended (merge_sort conflict_le conflicting)).

(** ** Normalisation and completeness (report.go) *)

(** [normalizeResults]: the results themselves, or an error. *)
Fixpoint normalize_loop (seen : list string) (results : list NativeCheckResult) : bool :=
  match results with
  | [] => true
  | r :: rest =>
      result_validate r && negb (mem_key (resultKey r) seen) && normalize_loop (resultKey r :: seen) rest
  end.
Definition normalizeResults (results : list NativeCheckResult) : option (list NativeCheckResult) :=
  if normalize_loop [] results then Some results else None.

Definition requiredChecksComplete (required : list string) (results : list NativeCheckResult) : bool :=
  forallb (λ id, existsb (λ r, String.eqb (nr_check_id r) id) results) required.

Definition assessCompleteness (iter : gomap (list string) → gomap (list string)) (expected : list NativeCheckExpectation)
    (requiredChecks : list string) (results : list NativeCheckResult) : NativeCheckAssessment * bool :=
  let assessment := AssessNativeChecks iter expected results in
  let complete := requiredChecksComplete requiredChecks results in
  (assessment, if (0 <? length expected)%nat then complete && na_complete assessment else complete).

Fixpoint union_loop (seen : list string) (l : list string) : list string :=
  match l with
  | [] => []
  | v :: rest => if mem_key v seen then union_loop seen rest else v :: union_loop (v :: seen) rest
  end.
Definition unionStrings (a b : list string) : list string := union_loop [] (a ++ b).

(** [sameStrings], [sameStringSet] and [sameExpectations] compare multisets: the
    counts of [a] are used up by [b]. *)
Fixpoint remove_one (s : string) (l : list string) : option (list string) :=
  match l with
  | [] => None
  | x :: l' => if String.eqb s x then Some l' else (x ::.) <$> remove_one s l'
  end.
Fixpoint uses_up (left b : list string) : bool :=
  match b with
  | [] => true
  | s :: b' => match remove_one s left with Some left' => uses_up left' b' | None => false end
  end.
Definition sameStrings (a b : list string) : bool := (length a =? length b)%nat && uses_up a b.
Definition sameStringSet : list string → list string → bool := sameStrings.
Definition sameExpectations (a b : list NativeCheckExpectation) : bool :=
  sameStrings (expectation_key <$> a) (expectation_key <$> b).

(** ** The digests the program makes are well formed *)

Lemma hex_text_class l : Forall is_byte l → str_forallb hex_class (hex_text l) = true ∧ String.length (hex_text l) = (2 * length l)%nat.
Proof.
  assert (∀ z, 0 <= z < 16 → hex_class (hex_digit z) = true) as Hd.
  { intros z Hz. assert (z ∈ map Z.of_nat (seq 0 16)) as Hin.
    { apply list_elem_of_In, in_map_iff. exists (Z.to_nat z). split; [lia|]. apply in_seq. lia. }
    revert z Hz Hin. assert (forallb (λ z, hex_class (hex_digit z)) (map Z.of_nat (seq 0 16)) = true) as Hall by reflexivity.
    rewrite forallb_forall in Hall. intros z _ Hin. by apply Hall, list_elem_of_In. }
  induction 1 as [|b l Hb Hl [IH1 IH2]]; [done|]. unfold hex_text in *. cbn. rewrite IH1, IH2. unfold is_byte in Hb.
  rewrite !Hd by (Z.to_euclidean_division_equations; lia). split; [done|lia].
Qed.

Lemma DigestFromBytes_valid l : Forall is_byte l → length l = 32%nat → digest_valid (DigestFromBytes l) = true.
Proof.
  intros Hb Hl. destruct (hex_text_class l Hb) as [Hc Hn]. rewrite Hl in Hn. unfold digest_valid, DigestFromBytes.
  rewrite str_app_assoc, str_length_app, Hn.
  change (String.length digestAlg + 1)%nat with (String.length (digestAlg +:+ ":")).
  rewrite stake_app, sdrop_app, Nat.eqb_refl, String.eqb_refl. done.
Qed.

(** A digest contains no separator. *)
Lemma digest_no_NUL d : digest_valid d = true → no_sep NUL d.
Proof.
  unfold digest_valid. destruct (negb _); [done|]. destruct (negb (String.eqb _ _)) eqn:E; [done|].
  apply negb_false_iff, String.eqb_eq in E. intros H. rewrite <- (stake_sdrop (String.length digestAlg + 1) d), E.
  generalize dependent (sdrop (String.length digestAlg + 1) d). clear. intros s.
  unfold no_sep, contains_char. intros H. change (str_existsb (Ascii.eqb NUL) s = false). induction s as [|c s IH]; [done|]. cbn [str_forallb str_existsb] in *.
  apply andb_true_iff in H as [Hc Hs]. rewrite (IH Hs), orb_false_r. apply Ascii.eqb_neq. by intros <-.
Qed.

(** ** The assessment is exact *)

Lemma in_rev_elem {A} (l : list A) x : x ∈ rev l ↔ x ∈ l.
Proof. by rewrite !list_elem_of_In, <- in_rev. Qed.

(** The outcomes noted for a component. *)
Definition noted (outcomes : gomap (list string)) (k : string) : list string := default [] (mget k outcomes).

Lemma note_outcome_noted outcomes r k :
  noted (note_outcome outcomes r) k =
  if String.eqb k (resultKey r) then
    if mem_key (nr_outcome r) (noted outcomes k) then noted outcomes k else noted outcomes k ++ [nr_outcome r]
  else noted outcomes k.
Proof.
  unfold note_outcome, noted. rewrite mget_mset. by destruct (String.eqb_spec k (resultKey r)) as [->|].
Qed.

Lemma outcome_map_spec results :
  wf_map (outcome_map results) ∧
  ∀ k, NoDup (noted (outcome_map results) k) ∧
       ∀ o, o ∈ noted (outcome_map results) k ↔ ∃ r, r ∈ results ∧ resultKey r = k ∧ nr_outcome r = o.
Proof.
  unfold outcome_map. rewrite <- fold_left_rev_right.
  assert (∀ r, r ∈ results ↔ r ∈ rev results) as Hrev by (intros r; by rewrite <- in_rev_elem).
  setoid_rewrite Hrev. clear Hrev. induction (rev results) as [|r l [IHw IH]]; cbn [fold_right].
  { split; [constructor|]. intros k. split; [constructor|]. intros o. split; [by intros ?%not_elem_of_nil|].
    intros (r & ?%not_elem_of_nil & _). done. }
  split; [by apply wf_mset|]. intros k. destruct (IH k) as [IH1 IH2]. rewrite note_outcome_noted.
  destruct (String.eqb_spec k (resultKey r)) as [->|Hne].
  - destruct (mem_key (nr_outcome r) _) eqn:Em.
    + apply mem_key_true in Em. split; [done|]. intros o. rewrite IH2. setoid_rewrite elem_of_cons. split; [naive_solver|].
      intros (r' & [->|?] & E & <-); [by apply IH2|eauto].
    + assert (nr_outcome r ∉ noted (fold_right (λ y x, note_outcome x y) [] l) (resultKey r)) as Hn
        by (rewrite <- mem_key_true, Em; done).
      split; [apply list.NoDup_app; split; [done|]; split; [set_solver|apply list.NoDup_singleton]|].
      intros o. rewrite elem_of_app, list_elem_of_singleton, IH2. setoid_rewrite elem_of_cons. naive_solver.
  - split; [done|]. intros o. rewrite IH2. setoid_rewrite elem_of_cons. naive_solver.
Qed.

Lemma missing_loop_keys outcomes expected : ∀ keys missing keys',
  missing_loop outcomes keys expected = (missing, keys') →
  (∀ k, k ∈ keys' ↔ k ∈ keys ∨ k ∈ (expectation_key <$> expected)) ∧
  (missing = [] ↔ NoDup (expectation_key <$> expected) ∧ (∀ k, k ∈ keys → k ∉ (expectation_key <$> expected)) ∧
     ∀ e, e ∈ expected → noted outcomes (expectation_key e) ≠ []).
Proof.
  induction expected as [|e expected IH]; intros keys missing keys'; cbn [missing_loop].
  { intros [= <- <-]. split; [set_solver|]. split; [|done]. intros _. split; [constructor|]. set_solver. }
  rewrite fmap_cons, list.NoDup_cons. destruct (mem_key (expectation_key e) keys) eqn:Em.
  - apply mem_key_true in Em. destruct (missing_loop outcomes keys expected) as [m ks] eqn:E. intros [= <- <-].
    destruct (IH _ _ _ E) as [IH1 _]. split; [set_solver|]. split; [done|]. intros (_ & H & _). set_solver.
  - assert (expectation_key e ∉ keys) as Hn by (rewrite <- mem_key_true, Em; done).
    destruct (missing_loop outcomes (expectation_key e :: keys) expected) as [m ks] eqn:E. intros [= <- <-].
    destruct (IH _ _ _ E) as [IH1 IH2]. split; [set_solver|].
    assert ((length (default [] (mget (expectation_key e) outcomes)) =? 0)%nat = true ↔ noted outcomes (expectation_key e) = []) as Hz.
    { rewrite Nat.eqb_eq. unfold noted. by destruct (default [] _). }
    destruct (_ =? 0)%nat.
    + split; [done|]. intros (_ & _ & H). destruct (H e); [set_solver|by apply Hz].
    + assert (noted outcomes (expectation_key e) ≠ []) as Hne by (by intros ?%Hz). rewrite IH2.
      setoid_rewrite elem_of_cons. naive_solver.
Qed.

Lemma filter_nil {A} (f : A → bool) l : List.filter f l = [] ↔ ∀ x, x ∈ l → f x = false.
Proof.
  induction l as [|x l IH]; cbn; [split; [by intros _ x ?%not_elem_of_nil|done]|]. setoid_rewrite elem_of_cons.
  destruct (f x) eqn:E; [|rewrite IH; naive_solver]. split; [done|]. intros H. rewrite H in E; naive_solver.
Qed.

Lemma two_elements {A} (l : list A) : NoDup l → (1 <? length l)%nat = false ↔ ∀ x y, x ∈ l → y ∈ l → x = y.
Proof.
  intros Hn. rewrite Nat.ltb_ge. split.
  - destruct l as [|a [|b l]]; cbn; [set_solver|set_solver|lia].
  - intros H. destruct l as [|a [|b l]]; cbn; [lia|lia|]. apply list.NoDup_cons in Hn as [Hn _].
    rewrite (H a b) in Hn; set_solver.
Qed.

Lemma fmap_nil_iff' {A B} (f : A → B) l : f <$> l = [] ↔ l = [].
Proof. by destruct l. Qed.

Lemma length_eqb_nil {A} (l : list A) : (length l =? 0)%nat = true ↔ l = [].
Proof. by destruct l. Qed.

(** The inventory is not empty and repeats no component, every component has a
    result, every result is for a component of it, and no component is reported
    with two outcomes. *)
Definition covers_inventory (expected : list NativeCheckExpectation) (results : list NativeCheckResult) : Prop :=
  expected ≠ [] ∧ NoDup (expectation_key <$> expected) ∧
  (∀ e, e ∈ expected → ∃ r, r ∈ results ∧ resultKey r = expectation_key e) ∧
  (∀ r, r ∈ results → ∃ e, e ∈ expected ∧ expectation_key e = resultKey r) ∧
  (∀ r1 r2, r1 ∈ results → r2 ∈ results → resultKey r1 = resultKey r2 → nr_outcome r1 = nr_outcome r2).

Lemma Assess_complete iter expected results :
  (∀ m, iter m ≡ₚ m) →
  na_complete (AssessNativeChecks iter expected results) = true ↔
  covers_inventory expected results.
Proof.
  intros Hiter. unfold AssessNativeChecks, covers_inventory. destruct (outcome_map_spec results) as [Hw Ho].
  destruct (missing_loop _ [] expected) as [missing keys] eqn:Em. destruct (missing_loop_keys _ _ _ _ _ Em) as [Hk Hm].
  cbn [na_complete]. rewrite !andb_true_iff, !length_eqb_nil, Hm, filter_nil, fmap_nil_iff', filter_nil.
  assert (noted_ne : ∀ k, noted (outcome_map results) k ≠ [] ↔ ∃ r, r ∈ results ∧ resultKey r = k).
  { intros k. destruct (Ho k) as [_ Hk']. split.
    - destruct (noted _ k) as [|o l]; [done|]. intros _. destruct (proj1 (Hk' o)) as (r & ? & ? & _); [set_solver|eauto].
    - intros (r & Hr & E) En. rewrite En in Hk'. apply (not_elem_of_nil (nr_outcome r)), Hk'. eauto. }
  setoid_rewrite noted_ne.
  assert (∀ k, k ∈ keys ↔ k ∈ (expectation_key <$> expected)) as Hkeys by set_solver. clear Hk Hm Em.
  assert ((∀ kv, kv ∈ iter (outcome_map results) → (1 <? length kv.2)%nat = false) ↔
    ∀ r1 r2, r1 ∈ results → r2 ∈ results → resultKey r1 = resultKey r2 → nr_outcome r1 = nr_outcome r2) as ->.
  { setoid_rewrite Hiter. split.
    - intros H r1 r2 H1 H2 E. destruct (Ho (resultKey r1)) as [Hn Hel].
      assert ((1 <? length (noted (outcome_map results) (resultKey r1)))%nat = false) as Hlen.
      { unfold noted. destruct (mget _ _) as [l|] eqn:Eg; [|done]. apply (H (resultKey r1, l)). by apply mget_elem. }
      rewrite two_elements in Hlen by done. apply Hlen; apply Hel; eauto.
    - intros H [k l] Hin. apply (elem_mget k l) in Hin; [|done]. cbn [snd]. destruct (Ho k) as [Hn Hel].
      unfold noted in Hn, Hel. rewrite Hin in Hn, Hel. cbn [default id] in Hn, Hel. apply two_elements; [done|].
      intros x y (r1 & ? & E1 & <-)%Hel (r2 & ? & E2 & <-)%Hel. apply H; congruence. }
  assert (expected ≠ [] → ((0 <? length keys)%nat = true)) as Hpos.
  { intros Hne. destruct expected as [|e es]; [done|]. destruct keys as [|k ks]; [|done].
    destruct (proj2 (Hkeys (expectation_key e))); set_solver. }
  assert ((0 <? length expected)%nat = true ↔ expected ≠ []) as -> by (by destruct expected).
  split.
  - intros (((Hne & Hnd & _ & Hmiss) & Hun) & Hcf). split; [done|]. split; [done|]. split; [done|]. split; [|done].
    intros r Hr. specialize (Hun r Hr). rewrite (Hpos Hne) in Hun. cbn [andb] in Hun.
    apply negb_false_iff, mem_key_true, Hkeys, list_elem_of_fmap in Hun as (e & E & He). eauto.
  - intros (Hne & Hnd & Hmiss & Hun & Hcf). split; [split; [split; [done|]|]|done].
    + split; [done|]. split; [set_solver|done].
    + intros r Hr. rewrite (Hpos Hne). cbn [andb]. apply negb_false_iff, mem_key_true, Hkeys, list_elem_of_fmap.
      destruct (Hun r Hr) as (e & ? & ?). eauto.
Qed.

(** Normalised results are valid and one per component. *)
Lemma normalize_loop_true l : ∀ seen,
  normalize_loop seen l = true →
  Forall (λ r, result_validate r = true) l ∧ NoDup (resultKey <$> l) ∧ ∀ r, r ∈ l → resultKey r ∉ seen.
Proof.
  induction l as [|r l IH]; intros seen; cbn [normalize_loop].
  { intros _. split; [constructor|]. split; [constructor|]. by intros r ?%not_elem_of_nil. }
  intros [[Hv Hs%negb_true_iff]%andb_true_iff H]%andb_true_iff. destruct (IH _ H) as (H1 & H2 & H3).
  assert (resultKey r ∉ seen) as Hn by (rewrite <- mem_key_true, Hs; done).
  split; [by constructor|]. rewrite fmap_cons, list.NoDup_cons. split.
  - split; [|done]. intros (r' & E & Hr')%list_elem_of_fmap. apply (H3 r' Hr'). rewrite <- E. set_solver.
  - intros r' [->|Hr']%elem_of_cons; [done|]. intros Hin. apply (H3 r' Hr'). set_solver.
Qed.
