(* ===== verification/ReportData.v ===== *)
(** * Evidence reports: the report, the profile and the policy

    The types of projection/validate.go, evidence.go, derivation.go, report.go and
    lifecycle.go, with the JSON form [encoding/json] gives them.  The members of a
    struct are listed in the order of the canonical form.  A slice is a list, nil
    and empty not being told apart, except where the code compares with
    [reflect.DeepEqual] (the assessment). *)

From S2P Require Import Prelude GoStrings GoFloat GoTime Json Canonical JsonText JsonStruct Utf.
From S2P Require Import NumberText CanonicalText GoTimeText Evidence Sha256 Ids Values Bounds.
From S2P Require Import Requirement Sources Context RecordJson Challenge Report.

Definition ReportVersion : string := "VARWOF-EVIDENCE-REPORT-v1".

(** ** Assurance levels *)

Definition AssuranceE1 : string := "E1".
Definition AssuranceE2 : string := "E2".
Definition AssuranceE3 : string := "E3".
Definition assurance_Valid (a : string) : bool :=
  String.eqb a AssuranceE1 || String.eqb a AssuranceE2 || String.eqb a AssuranceE3.
Definition rank (a : string) : Z :=
  if String.eqb a AssuranceE2 then 2 else if String.eqb a AssuranceE3 then 3 else 1.

(** ** Types *)

Definition StatusNone : string := "none".
Definition StatusRequired : string := "required".

Record Profile := mkProfile {
  pf_id : string;
  pf_status_model : string;
  pf_required_checks : list string;
  pf_expectations : list NativeCheckExpectation;
  pf_na_authority : PDigest;
  pf_action_mapping : PDigest;
  pf_reason_namespace : string;
  pf_reason_registry : PDigest;
  pf_digest : PDigest
}.

Record VerifierIdentity := mkVerifier { vi_principal : string; vi_profile : PDigest }.

Record ProjectedObservation := mkObservation {
  ob_native_action : string;
  ob_clc_action : string;
  ob_action_type : string;
  ob_material_fields : list string;
  ob_material_profile : string;
  ob_mapping_profile : PDigest
}.

(** A fact of a report carries the zone offset of its instant, which its JSON form
    shows. *)
Record ReportFact := mkReportFact { rf_fact : EvidenceFact; rf_off : Z }.

Record ProjectedEvidenceRecord := mkEvidenceRecord {
  er_artifact : PDigest;
  er_native_record : PDigest;
  er_observation : string;
  er_fact : option ReportFact;
  er_fact_index : option Z;
  er_check_ids : list string;
  er_relation_tuple : PDigest
}.

Record Derivation := mkDerivation {
  dv_carrier : string;
  dv_artifact : PDigest;
  dv_verifier_profile : PDigest;
  dv_mapping_profile : PDigest;
  dv_fact_index : Z;
  dv_fact_digest : PDigest;
  dv_check_ids : list string
}.

(** A verdict as a report states it: any text may stand where the evaluation puts
    one of its three. *)
Record ReportEvaluation := mkReportEval { re_constraint : string; re_verdict : string; re_reason : string }.
Record ReportSatisfaction := mkSatisfaction {
  sa_requirement_id : string;
  sa_digest : Digest;
  sa_verdict : string;
  sa_expression : bool;
  sa_missing : list string;
  sa_constraints : list ReportEvaluation
}.
Definition evidence_verdict_text (v : EvidenceVerdict) : string :=
  match v with EvidenceSatisfied => "satisfied" | EvidenceViolated => "violated" | EvidenceUnknown => "unknown" end.
Definition satisfaction_of (r : RequirementResult) : ReportSatisfaction :=
  mkSatisfaction (rr_id r) (rr_digest r) (evidence_verdict_text (rr_verdict r)) (rr_expression r) (rr_missing r)
    ((λ e, mkReportEval (ev_constraint e) (evidence_verdict_text (ev_verdict e)) (ev_reason e)) <$> rr_constraints r).

Record Report := mkReport {
  rp_version : string;
  rp_assurance : string;
  rp_projector : string;
  rp_profile : option Profile;
  rp_verifier : option VerifierIdentity;
  rp_appraisal_time : option Instant;
  rp_source_format : string;
  rp_meta : gomap string;
  rp_requirement : option Requirement;
  rp_source_digest : option Digest;
  rp_projected_digest : option Digest;
  rp_results : list NativeCheckResult;
  rp_assessment : option NativeCheckAssessment;
  rp_complete : bool;
  rp_observation : option ProjectedObservation;
  rp_records : list ProjectedEvidenceRecord;
  rp_derivations : list Derivation;
  rp_facts : list ReportFact;
  rp_residuals : list string;
  rp_required_native : list string;
  rp_required_ids : list string;
  rp_satisfaction : option ReportSatisfaction
}.

Record SnapshotBinding := mkBinding {
  sb_source : string;
  sb_component_type : string;
  sb_evidence_digest : PDigest;
  sb_generation : Z;
  sb_digest : PDigest
}.
Definition SnapshotState := gomap SnapshotBinding.

Record Attestation := mkAttestation { at_type : string; at_digest : PDigest; at_quote : string }.

(** The policy; a nil map, function or certificate is [None]. *)
Record ReportPolicy (Cert : Type) := mkPolicy {
  pl_require_profile : bool;
  pl_allow_incomplete : bool;
  pl_roots : list (option Cert);
  pl_principals : list string;
  pl_profile_digest : PDigest;
  pl_requirement_digest : option Digest;
  pl_verifier_profiles : list PDigest;
  pl_snapshot_sources : list string;
  pl_reason_registries : gomap (gomap bool);
  pl_require_derivations : bool;
  pl_artifacts : gomap string;
  pl_require_artifacts : bool;
  pl_attestation_verifier : option (Attestation → PDigest → bool);
  pl_require_attestation : bool;
  pl_min_assurance : string;
  pl_required_ids : list string;
  pl_attestation_verified : bool;
  pl_max_age : Z;
  pl_max_clock_skew : Z;
  pl_timestamp_roots : list (option Cert);
  pl_require_timestamp : bool;
  pl_timestamp_clock_skew : Z;
  pl_now : Time;
  pl_snapshots : option SnapshotState;
  pl_require_snapshot_binding : bool;
  pl_replay_evidence : gomap string;
  pl_require_replay : bool
}.
Arguments mkPolicy {Cert}.
Arguments pl_require_profile {Cert} _.
Arguments pl_allow_incomplete {Cert} _.
Arguments pl_roots {Cert} _.
Arguments pl_principals {Cert} _.
Arguments pl_profile_digest {Cert} _.
Arguments pl_requirement_digest {Cert} _.
Arguments pl_verifier_profiles {Cert} _.
Arguments pl_snapshot_sources {Cert} _.
Arguments pl_reason_registries {Cert} _.
Arguments pl_require_derivations {Cert} _.
Arguments pl_artifacts {Cert} _.
Arguments pl_require_artifacts {Cert} _.
Arguments pl_attestation_verifier {Cert} _.
Arguments pl_require_attestation {Cert} _.
Arguments pl_min_assurance {Cert} _.
Arguments pl_required_ids {Cert} _.
Arguments pl_attestation_verified {Cert} _.
Arguments pl_max_age {Cert} _.
Arguments pl_max_clock_skew {Cert} _.
Arguments pl_timestamp_roots {Cert} _.
Arguments pl_require_timestamp {Cert} _.
Arguments pl_timestamp_clock_skew {Cert} _.
Arguments pl_now {Cert} _.
Arguments pl_snapshots {Cert} _.
Arguments pl_require_snapshot_binding {Cert} _.
Arguments pl_replay_evidence {Cert} _.
Arguments pl_require_replay {Cert} _.

#[global] Instance Digest_eq_dec : EqDecision Digest.
Proof. solve_decision. Defined.
#[global] Instance Instant_eq_dec : EqDecision Instant.
Proof. solve_decision. Defined.
#[global] Instance FreshnessDecision_eq_dec : EqDecision FreshnessDecision.
Proof. solve_decision. Defined.
#[global] Instance NativeCheckResult_eq_dec : EqDecision NativeCheckResult.
Proof. solve_decision. Defined.
#[global] Instance NativeCheckExpectation_eq_dec : EqDecision NativeCheckExpectation.
Proof. solve_decision. Defined.
#[global] Instance NativeCheckConflict_eq_dec : EqDecision NativeCheckConflict.
Proof. solve_decision. Defined.
#[global] Instance NativeCheckAssessment_eq_dec : EqDecision NativeCheckAssessment.
Proof. solve_decision. Defined.
#[global] Instance ReportEvaluation_eq_dec : EqDecision ReportEvaluation.
Proof. solve_decision. Defined.
#[global] Instance ReportSatisfaction_eq_dec : EqDecision ReportSatisfaction.
Proof. solve_decision. Defined.

(** ** JSON forms *)

(** An optional member that may fail to encode (an instant). *)
Definition opt_json {A} (f : A → option any) (k : string) (o : option A) : option (option (string * any)) :=
  match o with None => Some None | Some a => j ← f a; Some (Some (k, j)) end.
(** A slice that is left out when empty. *)
Definition list_json {A} (f : A → option any) (k : string) (l : list A) : option (option (string * any)) :=
  match l with [] => Some None | _ => js ← mapM f l; Some (Some (k, AList js)) end.

Definition expectation_json (e : NativeCheckExpectation) : any :=
  omitempty [member "checkId" (AStr (ne_check_id e)); member "componentType" (AStr (ne_component_type e));
             member "evidenceDigest" (AStr (ne_evidence_digest e))].
Definition profile_json (p : Profile) : any :=
  omitempty
    [member_str "actionMappingDigest" (pf_action_mapping p);
     match pf_expectations p with [] => None | l => member "expectations" (AList (expectation_json <$> l)) end;
     member "id" (AStr (pf_id p)); member_str "notApplicableAuthority" (pf_na_authority p);
     member_str "profileDigest" (pf_digest p); member_str "reasonNamespace" (pf_reason_namespace p);
     member_str "reasonRegistryDigest" (pf_reason_registry p); member_strs "requiredChecks" (pf_required_checks p);
     member "statusModel" (AStr (pf_status_model p))].
Definition verifier_json (v : VerifierIdentity) : any :=
  omitempty [member "principal" (AStr (vi_principal v)); member_str "verifierProfileDigest" (vi_profile v)].
Definition observation_json (o : ProjectedObservation) : any :=
  omitempty [member_str "actionType" (ob_action_type o); member_str "clcActionId" (ob_clc_action o);
             member_str "mappingProfileDigest" (ob_mapping_profile o); member_strs "materialFields" (ob_material_fields o);
             member_str "materialProfileId" (ob_material_profile o); member_str "nativeActionDigest" (ob_native_action o)].

(** [EvidenceFact] has no tags: its members carry the Go names. *)
Definition fact_json (f : ReportFact) : option any :=
  t ← time_text (f_issued (rf_fact f)) (rf_off f);
  Some (omitempty [member "IssuedAt" (AStr t); member "Subject" (AStr (f_subject (rf_fact f)));
                   member "Type" (AStr (f_type (rf_fact f))); member "Verified" (ABool (f_verified (rf_fact f)))]).
Definition record_json' (r : ProjectedEvidenceRecord) : option any :=
  fact ← opt_json fact_json "fact" (er_fact r);
  Some (omitempty [member "artifactDigest" (AStr (er_artifact r)); fact; member_ptr "factIndex" (er_fact_index r);
                   member_strs "nativeCheckIds" (er_check_ids r); member_str "nativeRecordDigest" (er_native_record r);
                   member_str "observationId" (er_observation r); member_str "relationTupleDigest" (er_relation_tuple r)]).
Definition derivation_json (d : Derivation) : any :=
  omitempty [member "artifactDigest" (AStr (dv_artifact d)); member "carrierId" (AStr (dv_carrier d));
             member "factDigest" (AStr (dv_fact_digest d)); member "factIndex" (AInt KInt (dv_fact_index d));
             member_str "mappingProfileDigest" (dv_mapping_profile d); member_strs "nativeCheckIds" (dv_check_ids d);
             member "verifierProfileDigest" (AStr (dv_verifier_profile d))].
Definition freshness_json (f : FreshnessDecision) : option any :=
  checked ← opt_json instant_json "checkedAt" (fr_checked_at f);
  valid ← opt_json instant_json "validUntil" (fr_valid_until f);
  Some (omitempty [checked; member_int "snapshotGeneration" (fr_generation f); valid; member "verdict" (AStr (fr_verdict f))]).
Definition result_json (r : NativeCheckResult) : option any :=
  fresh ← opt_json freshness_json "freshnessDecision" (nr_freshness r);
  time ← instant_json (nr_verification_time r);
  Some (omitempty
    [member "checkId" (AStr (nr_check_id r)); member "componentType" (AStr (nr_component_type r));
     member_str "evidenceDigest" (nr_evidence_digest r); fresh; member "outcome" (AStr (nr_outcome r));
     member_str "reason" (nr_reason r); member_str "replayDigest" (nr_replay r);
     member_str "statusSnapshotDigest" (nr_status_snapshot r); member_int "statusSnapshotGeneration" (nr_snapshot_generation r);
     member_str "statusSnapshotSource" (nr_snapshot_source r); member_str "trustSnapshotDigest" (nr_trust_snapshot r);
     member "verificationTime" time; member_str "verifier" (nr_verifier r);
     member_str "verifierProfileDigest" (nr_verifier_profile r)]).
Definition conflict_json (c : NativeCheckConflict) : any :=
  omitempty [member "checkId" (AStr (nc_check_id c)); member "componentType" (AStr (nc_component_type c));
             member_str "evidenceDigest" (nc_evidence_digest c);
             member "outcomes" (slice_json AStr (nc_outcomes c))].
Definition assessment_json (a : NativeCheckAssessment) : option any :=
  unexpected ← list_json result_json "unexpectedResults" (default [] (na_unexpected a));
  Some (omitempty [member "complete" (ABool (na_complete a));
    match default [] (na_conflicting a) with [] => None | l => member "conflictingResults" (AList (conflict_json <$> l)) end;
    match default [] (na_missing a) with [] => None | l => member "missingExpectations" (AList (expectation_json <$> l)) end;
    unexpected]).
Definition evaluation_json (e : ReportEvaluation) : any :=
  omitempty [member "constraint" (AStr (re_constraint e)); member_str "reason" (re_reason e);
             member "verdict" (AStr (re_verdict e))].
Definition satisfaction_json (s : ReportSatisfaction) : any :=
  omitempty
    [match sa_constraints s with [] => None | l => member "constraints" (AList (evaluation_json <$> l)) end;
     member "digest" (digest_json (sa_digest s)); member "expression" (ABool (sa_expression s));
     member_strs "missing_roles" (sa_missing s); member "requirement_id" (AStr (sa_requirement_id s));
     member "verdict" (AStr (sa_verdict s))].
Definition meta_json (m : gomap string) : option (string * any) :=
  match m with [] => None | _ => Some ("meta", AMap ((λ kv, (kv.1, AStr kv.2)) <$> m)) end.

Definition report_json (r : Report) : option any :=
  time ← opt_json instant_json "appraisalTime" (rp_appraisal_time r);
  records ← list_json record_json' "evidenceRecords" (rp_records r);
  facts ← list_json fact_json "facts" (rp_facts r);
  assessment ← opt_json assessment_json "nativeCheckAssessment" (rp_assessment r);
  results ← list_json result_json "nativeCheckResults" (rp_results r);
  Some (omitempty
    [member "@version" (AStr (rp_version r)); time; member "assurance" (AStr (rp_assurance r));
     match rp_derivations r with [] => None | l => member "derivations" (AList (derivation_json <$> l)) end;
     records; facts; meta_json (rp_meta r); assessment; results; member "nativeChecksComplete" (ABool (rp_complete r));
     (λ o, ("observation", observation_json o)) <$> rp_observation r; (λ p, ("profile", profile_json p)) <$> rp_profile r;
     member_digest "projectedRequirementDigest" (rp_projected_digest r); member "projectorId" (AStr (rp_projector r));
     member_strs "requiredCheckIds" (rp_required_ids r); member_strs "requiredNativeChecks" (rp_required_native r);
     (λ q, ("requirement", req_json q)) <$> rp_requirement r; member_strs "residuals" (rp_residuals r);
     (λ s, ("satisfaction", satisfaction_json s)) <$> rp_satisfaction r; member_str "sourceFormat" (rp_source_format r);
     member_digest "sourceRequirementDigest" (rp_source_digest r); (λ v, ("verifier", verifier_json v)) <$> rp_verifier r]).

(** The canonical bytes of a value with instants, and the digest over them. *)
Definition canonical_of (j : option any) : option string :=
  v ← j; match CanonicalJSON v with inl t => Some t | inr _ => None end.
Definition pdigest_of (j : option any) : option PDigest := t ← canonical_of j; Some (DigestFromBytes (Sum256 t)).

(** [Profile.Digest] and [Profile.Seal]. *)
Definition clear_digest (p : Profile) : Profile :=
  mkProfile (pf_id p) (pf_status_model p) (pf_required_checks p) (pf_expectations p) (pf_na_authority p)
    (pf_action_mapping p) (pf_reason_namespace p) (pf_reason_registry p) "".
Definition profile_Digest (p : Profile) : option PDigest := pdigest_of (Some (profile_json (clear_digest p))).
Definition Seal (p : Profile) : option Profile :=
  d ← profile_Digest p;
  Some (mkProfile (pf_id p) (pf_status_model p) (pf_required_checks p) (pf_expectations p) (pf_na_authority p)
          (pf_action_mapping p) (pf_reason_namespace p) (pf_reason_registry p) d).

(** [FactBindingDigest]. *)
Definition FactBindingDigest (fact : ReportFact) (artifact : PDigest) : option PDigest :=
  pdigest_of (f ← fact_json fact; Some (AMap [("artifact", AStr artifact); ("fact", f)])).
