(* ===== verification/ReportLifecycle.v ===== *)
(** * Report lifecycle: snapshot state and replay evidence

    projection/lifecycle.go and state.go: the accepted status snapshots, which a
    report may only advance, the comparison with replay artifacts, and the
    persisted form of the state. *)

From S2P Require Import Prelude GoStrings GoFloat GoTime Json Canonical JsonText JsonStruct Utf.
From S2P Require Import NumberText CanonicalText GoTimeText Evidence Sha256 Ids Values Bounds.
From S2P Require Import Requirement Sources Context RecordJson RecordFreeze Challenge Report.
From S2P Require Import ReportData.

(** ** Snapshot state *)

Definition snapshotKey (source componentType : string) (evidence : PDigest) : string :=
  component_key source componentType evidence.
Definition binding_key (b : SnapshotBinding) : string :=
  snapshotKey (sb_source b) (sb_component_type b) (sb_evidence_digest b).

Definition NewSnapshotState (bindings : list SnapshotBinding) : SnapshotState :=
  fold_left (λ state b, mset (binding_key b) b state) bindings [].

(** [SnapshotState.Bindings]: in the order of the keys. *)
Definition Bindings (s : SnapshotState) : list SnapshotBinding := omap (λ k, mget k s) (sort_Strings (mkeys s)).

(** [NativeCheckResult.snapshotBinding]. *)
Definition snapshotBinding (r : NativeCheckResult) : option SnapshotBinding + report_code :=
  let hasSource := negb (String.eqb (nr_snapshot_source r) "") in
  let hasGeneration := negb (nr_snapshot_generation r =? 0) in
  if negb hasSource && negb hasGeneration then inl None
  else if negb hasSource || negb hasGeneration then inr CodeReportSnapshotMissing
  else if nr_snapshot_generation r <? 1 then inr CodeReportSnapshotMissing
  else if negb (digest_valid (nr_status_snapshot r)) then inr CodeReportSnapshotMissing
  else inl (Some (mkBinding (nr_snapshot_source r) (nr_component_type r) (nr_evidence_digest r)
                    (nr_snapshot_generation r) (nr_status_snapshot r))).

(** One declared binding against the accepted state. *)
Definition advance (next : SnapshotState) (declared : SnapshotBinding) : SnapshotState + report_code :=
  let key := binding_key declared in
  match mget key next with
  | Some previous =>
      if sb_generation declared <? sb_generation previous then inr CodeReportSnapshotRollback
      else if (sb_generation declared =? sb_generation previous) && negb (String.eqb (sb_digest declared) (sb_digest previous))
      then inr CodeReportSnapshotFork
      else inl (mset key declared next)
  | None => inl (mset key declared next)
  end.

Fixpoint snapshot_loop (next : SnapshotState) (results : list NativeCheckResult) : SnapshotState + report_code :=
  match results with
  | [] => inl next
  | r :: rest =>
      match snapshotBinding r with
      | inr e => inr e
      | inl None => snapshot_loop next rest
      | inl (Some declared) =>
          match advance next declared with inr e => inr e | inl next' => snapshot_loop next' rest end
      end
  end.

(** [SnapshotState.Check]; a nil state is empty. *)
Definition state_Check (s : option SnapshotState) (rep : option Report) : SnapshotState + report_code :=
  match rep with
  | None => inr CodeReportShape
  | Some rep => snapshot_loop (default [] s) (rp_results rep)
  end.

(** ** Replay evidence *)

Definition ReplayVersion : string := "CLC-EVIDENCE-REPLAY-v1".
Record ReplayEvidence := mkReplay {
  ry_version : string;
  ry_check_id : string;
  ry_component_type : string;
  ry_evidence_digest : PDigest;
  ry_outcome : string;
  ry_verifier : string;
  ry_verifier_profile : PDigest
}.

(** [ReplayEvidence.Validate]: true is the nil error. *)
Definition replay_valid (r : ReplayEvidence) : bool :=
  if negb (String.eqb (ry_version r) ReplayVersion) then false
  else if String.eqb (ry_check_id r) "" || String.eqb (ry_component_type r) "" || String.eqb (ry_verifier r) "" then false
  else if negb (digest_valid (ry_evidence_digest r)) then false
  else if negb (digest_valid (ry_verifier_profile r)) then false
  else outcome_Valid (ry_outcome r).

(** [ReplayEvidence.Digest]. *)
Definition replay_json (r : ReplayEvidence) : any :=
  omitempty [member "@version" (AStr (ry_version r)); member "checkId" (AStr (ry_check_id r));
             member "componentType" (AStr (ry_component_type r)); member "evidenceDigest" (AStr (ry_evidence_digest r));
             member "outcome" (AStr (ry_outcome r)); member "verifier" (AStr (ry_verifier r));
             member "verifierProfileDigest" (AStr (ry_verifier_profile r))].
Definition replay_Digest (r : ReplayEvidence) : option PDigest := pdigest_of (Some (replay_json r)).

(** The first value of a stream: [Decoder.Decode]. *)
Definition read_first (raw : string) : option jtext :=
  '(v, _) ← read_value (S (2 * String.length raw)) 0 raw; Some v.

Definition replay_fields : gomap fkind :=
  [("@version", FStr); ("checkId", FStr); ("componentType", FStr); ("evidenceDigest", FStr); ("outcome", FStr);
   ("verifier", FStr); ("verifierProfileDigest", FStr)].
Definition decode_replay (raw : string) : option ReplayEvidence :=
  j ← read_first raw; t ← decode_struct replay_fields j;
  Some (mkReplay (get_str "@version" t) (get_str "checkId" t) (get_str "componentType" t) (get_str "evidenceDigest" t)
          (get_str "outcome" t) (get_str "verifier" t) (get_str "verifierProfileDigest" t)).

Definition replayMatchesResult (y : ReplayEvidence) (r : NativeCheckResult) : bool :=
  String.eqb (ry_check_id y) (nr_check_id r) && String.eqb (ry_component_type y) (nr_component_type r) &&
  String.eqb (ry_evidence_digest y) (nr_evidence_digest r) && String.eqb (ry_outcome y) (nr_outcome r) &&
  String.eqb (ry_verifier y) (nr_verifier r) && String.eqb (ry_verifier_profile y) (nr_verifier_profile r).

(** One result of [ValidateReplayEvidence]. *)
Definition replay_check (artifacts : gomap string) (require : bool) (r : NativeCheckResult) : option report_code :=
  if digest_Empty (nr_replay r) then guard require CodeReportReplayMissing
  else
    match mget (nr_replay r) artifacts with
    | None => Some CodeReportReplayMissing
    | Some raw =>
        if negb (String.eqb (DigestFromBytes (Sum256 raw)) (nr_replay r)) then Some CodeReportReplayMismatch
        else if negb (Check_dups raw) then Some CodeReportReplayMismatch
        else match decode_replay raw with
             | None => Some CodeReportReplayMismatch
             | Some y =>
                 guard (negb (replay_valid y)) CodeReportReplayMismatch ;;?
                 guard (negb (replayMatchesResult y r)) CodeReportReplayMismatch
             end
    end.
Definition ValidateReplayEvidence (rep : option Report) (artifacts : gomap string) (require : bool) : option report_code :=
  match rep with
  | None => Some CodeReportShape
  | Some rep => check_all (replay_check artifacts require) (rp_results rep)
  end.

(** ** The lifecycle check *)

Definition CheckReportLifecycle {Cert} (rep : Report) (policy : ReportPolicy Cert) : SnapshotState + report_code :=
  let sources :=
    if (0 <? length (pl_snapshot_sources policy))%nat then
      check_all (λ r, guard (negb (String.eqb (nr_snapshot_source r) "") &&
                             negb (mem_key (nr_snapshot_source r) (pl_snapshot_sources policy))) CodeReportSnapshotSource)
        (rp_results rep)
    else None in
  let bindings :=
    if pl_require_snapshot_binding policy then
      check_all (λ r, if negb (ran r) then None
                      else match snapshotBinding r with
                           | inr e => Some e
                           | inl None => Some CodeReportSnapshotMissing
                           | inl (Some _) => None
                           end) (rp_results rep)
    else None in
  match sources ;;? bindings with
  | Some e => inr e
  | None =>
      match state_Check (pl_snapshots policy) (Some rep) with
      | inr e => inr e
      | inl next =>
          match ValidateReplayEvidence (Some rep) (pl_replay_evidence policy) (pl_require_replay policy) with
          | Some e => inr e
          | None => inl next
          end
      end
  end.

(** ** The persisted state (state.go) *)

Definition StateVersion : string := "CLC-EVIDENCE-STATE-v1".
Definition MaxReportBytes : Z := 8 * 2 ^ 20.

Definition binding_json (b : SnapshotBinding) : any :=
  omitempty [member "componentType" (AStr (sb_component_type b)); member "digest" (AStr (sb_digest b));
             member "evidenceDigest" (AStr (sb_evidence_digest b)); member "generation" (AInt KInt64 (sb_generation b));
             member "source" (AStr (sb_source b))].
Definition state_json (s : SnapshotState) : any :=
  omitempty [member "@version" (AStr StateVersion); member "snapshots" (AList (binding_json <$> Bindings s))].
Definition MarshalState (s : SnapshotState) : option string := canonical_of (Some (state_json s)).

(** [DisallowUnknownFields]: a member without a field is an error. *)
Section closed_into.
Context {A : Type} (fields : gomap (A → jtext → option A)).
Definition known (kv : string * jtext) : bool := match find_field fields kv.1 with Some _ => true | None => false end.
Definition closed_into (a : A) (j : jtext) : option A :=
match j with
| JObj m => if forallb known m then decode_into_members fields m a else None
| JNull => Some a
| _ => None
end.
End closed_into.

Definition zero_binding : SnapshotBinding := mkBinding "" "" "" 0 "".
Definition into_binding : SnapshotBinding → jtext → option SnapshotBinding :=
  closed_into
    [("source", λ b j, s ← in_string (sb_source b) j;
        Some (mkBinding s (sb_component_type b) (sb_evidence_digest b) (sb_generation b) (sb_digest b)));
     ("componentType", λ b j, s ← in_string (sb_component_type b) j;
        Some (mkBinding (sb_source b) s (sb_evidence_digest b) (sb_generation b) (sb_digest b)));
     ("evidenceDigest", λ b j, s ← in_string (sb_evidence_digest b) j;
        Some (mkBinding (sb_source b) (sb_component_type b) s (sb_generation b) (sb_digest b)));
     ("generation", λ b j, z ← in_int64 (sb_generation b) j;
        Some (mkBinding (sb_source b) (sb_component_type b) (sb_evidence_digest b) z (sb_digest b)));
     ("digest", λ b j, s ← in_string (sb_digest b) j;
        Some (mkBinding (sb_source b) (sb_component_type b) (sb_evidence_digest b) (sb_generation b) s))].

Record StateFile := mkStateFile { sf_version : string; sf_snapshots : list SnapshotBinding }.
Definition into_state_file : StateFile → jtext → option StateFile :=
  closed_into
    [("@version", λ f j, s ← in_string (sf_version f) j; Some (mkStateFile s (sf_snapshots f)));
     ("snapshots", λ f j, l ← in_elems into_binding zero_binding (sf_snapshots f) j; Some (mkStateFile (sf_version f) l))].

Definition binding_valid (b : SnapshotBinding) : bool :=
  if String.eqb (sb_source b) "" then false
  else if String.eqb (sb_component_type b) "" then false
  else if negb (digest_valid (sb_evidence_digest b)) then false
  else if sb_generation b <? 1 then false
  else digest_valid (sb_digest b).

(** The loop of [ParseState]. *)
Fixpoint collect_bindings (state : SnapshotState) (l : list SnapshotBinding) : option SnapshotState :=
  match l with
  | [] => Some state
  | b :: rest =>
      if negb (binding_valid b) then None
      else match mget (binding_key b) state with
           | Some _ => None
           | None => collect_bindings (mset (binding_key b) b state) rest
           end
  end.

Definition ParseState (raw : string) : option SnapshotState :=
  if MaxReportBytes <? Z.of_nat (String.length raw) then None
  else if negb (Check_dups raw) then None
  else
    j ← read_document raw; file ← into_state_file (mkStateFile "" []) j;
    if negb (String.eqb (sf_version file) StateVersion) then None
    else collect_bindings [] (sf_snapshots file).

(** ** The accepted state only advances *)

(** The order on bindings of one coordinate: a later generation, or the same one
    with the same digest. *)
Definition binding_le (b b' : SnapshotBinding) : Prop :=
  sb_generation b <= sb_generation b' ∧ (sb_generation b = sb_generation b' → sb_digest b = sb_digest b').
Definition state_le (s s' : SnapshotState) : Prop :=
  ∀ k b, mget k s = Some b → ∃ b', mget k s' = Some b' ∧ binding_le b b'.

#[global] Instance binding_le_preorder : PreOrder binding_le.
Proof.
  split; [done|]. intros a b c [H1 H1'] [H2 H2']. split; [lia|]. intros E. rewrite H1', H2'; [done|lia..].
Qed.
#[global] Instance state_le_preorder : PreOrder state_le.
Proof.
  split; [by intros s k b H; exists b|]. intros s1 s2 s3 H12 H23 k b Hb.
  destruct (H12 k b Hb) as (b2 & Hb2 & L12), (H23 k b2 Hb2) as (b3 & Hb3 & L23). exists b3. split; [done|by trans b2].
Qed.

Lemma advance_inl s d s' :
  advance s d = inl s' ↔ s' = mset (binding_key d) d s ∧ ∀ p, mget (binding_key d) s = Some p → binding_le p d.
Proof.
  unfold advance, binding_le. destruct (mget (binding_key d) s) as [p|]; [|naive_solver].
  destruct (Z.ltb_spec (sb_generation d) (sb_generation p)).
  { split; [done|]. intros [_ Hp]. destruct (Hp p eq_refl). lia. }
  destruct (Z.eqb_spec (sb_generation d) (sb_generation p)) as [E|E]; cbn [andb].
  - destruct (String.eqb_spec (sb_digest d) (sb_digest p)) as [E'|E']; cbn [negb].
    + split; [intros [= <-]|by intros [-> _]]. split; [done|]. intros ? [= <-]. split; [lia|congruence].
    + split; [done|]. intros [_ Hp]. destruct (Hp p eq_refl) as [_ Hd]. by rewrite Hd in E'.
  - split; [intros [= <-]|by intros [-> _]]. split; [done|]. intros ? [= <-]. split; [lia|]. intros E'. by rewrite E' in E.
Qed.

Lemma advance_le s d s' : advance s d = inl s' → state_le s s' ∧ mget (binding_key d) s' = Some d.
Proof.
  intros [-> Hp]%advance_inl. split; [|by rewrite mget_mset, String.eqb_refl]. intros k b Hb. rewrite mget_mset.
  destruct (String.eqb_spec k (binding_key d)) as [->|]; [|by exists b]. exists d. split; [done|by apply Hp].
Qed.

Lemma snapshot_loop_le l : ∀ s s', snapshot_loop s l = inl s' → state_le s s'.
Proof.
  induction l as [|r l IH]; intros s s'; cbn [snapshot_loop]; [by intros [= <-]|].
  destruct (snapshotBinding r) as [[d|]|]; [|by apply IH|done]. destruct (advance s d) as [s1|] eqn:E; [|done].
  intros H%IH. apply advance_le in E as [E _]. by trans s1.
Qed.

(** What a result declares lies between the state before and the state after. *)
Lemma snapshot_loop_declared l : ∀ s s' i r d,
  snapshot_loop s l = inl s' → l !! i = Some r → snapshotBinding r = inl (Some d) →
  (∀ p, mget (binding_key d) s = Some p → binding_le p d) ∧
  ∃ b, mget (binding_key d) s' = Some b ∧ binding_le d b.
Proof.
  induction l as [|r0 l IH]; intros s s' i r d; cbn [snapshot_loop]; [done|]. destruct i as [|i].
  - intros H [= ->] Hd. rewrite Hd in H. destruct (advance s d) as [s1|] eqn:E; [|done].
    pose proof E as [_ Hp]%advance_inl. split; [done|]. apply advance_le in E as [_ E].
    by apply (snapshot_loop_le l s1 s' H).
  - intros H Hr Hd. cbn in Hr. destruct (snapshotBinding r0) as [[d0|]|]; [|by eapply IH|done].
    destruct (advance s d0) as [s1|] eqn:E; [|done]. destruct (IH _ _ _ _ _ H Hr Hd) as [H1 H2]. split; [|done].
    intros p Hp. apply advance_le in E as [E _]. destruct (E _ _ Hp) as (b & Hb & L). trans b; auto.
Qed.

Lemma snapshot_loop_order l : ∀ s s' i j r1 r2 d1 d2,
  snapshot_loop s l = inl s' → (i <= j)%nat → l !! i = Some r1 → l !! j = Some r2 →
  snapshotBinding r1 = inl (Some d1) → snapshotBinding r2 = inl (Some d2) → binding_key d1 = binding_key d2 →
  binding_le d1 d2.
Proof.
  induction l as [|r0 l IH]; intros s s' i j r1 r2 d1 d2; cbn [snapshot_loop]; [done|]. destruct i as [|i].
  - intros H _ [= ->] H2 D1 D2 K. rewrite D1 in H. destruct (advance s d1) as [s1|] eqn:E; [|done].
    destruct j as [|j]; [cbn in H2; simplify_eq; rewrite D1 in D2; by simplify_eq|]. apply advance_le in E as [_ E].
    destruct (snapshot_loop_declared _ _ _ _ _ _ H H2 D2) as [Hle _]. apply Hle. by rewrite <- K.
  - destruct j as [|j]; [lia|]. intros H Hij H1 H2 D1 D2 K. cbn in H1, H2.
    assert (i <= j)%nat as Hij' by lia.
    destruct (snapshotBinding r0) as [[d0|]|]; [|by eapply (IH s s' i j)|done].
    destruct (advance s d0) as [s1|]; [|done]. by eapply (IH s1 s' i j).
Qed.

Lemma snapshot_loop_app l1 l2 s :
  snapshot_loop s (l1 ++ l2) = match snapshot_loop s l1 with inl s1 => snapshot_loop s1 l2 | inr e => inr e end.
Proof.
  revert s. induction l1 as [|r l1 IH]; intros s; [done|]. cbn [app snapshot_loop].
  destruct (snapshotBinding r) as [[d|]|]; [|apply IH|done]. by destruct (advance s d).
Qed.

(** A deployer's history: each report is checked against the state the previous
    ones left, under any policy. *)
Inductive history : SnapshotState → list Report → SnapshotState → Prop :=
  | history_nil s : history s [] s
  | history_step {Cert} (policy : ReportPolicy Cert) s rep s1 reps s2 :
      pl_snapshots policy = Some s → CheckReportLifecycle rep policy = inl s1 → history s1 reps s2 →
      history s (rep :: reps) s2.

Lemma CheckReportLifecycle_loop {Cert} (policy : ReportPolicy Cert) rep s1 :
  CheckReportLifecycle rep policy = inl s1 →
  snapshot_loop (default [] (pl_snapshots policy)) (rp_results rep) = inl s1 ∧
  ValidateReplayEvidence (Some rep) (pl_replay_evidence policy) (pl_require_replay policy) = None.
Proof.
  unfold CheckReportLifecycle. destruct (_ ;;? _); [done|]. unfold state_Check.
  destruct (snapshot_loop _ _) as [s|]; [|done]. destruct (ValidateReplayEvidence _ _ _); [done|]. naive_solver.
Qed.

Lemma history_loop s reps s' : history s reps s' → snapshot_loop s (concat (rp_results <$> reps)) = inl s'.
Proof.
  induction 1 as [s|Cert policy s rep s1 reps s2 Hp Hc Hh IH]; [done|]. rewrite fmap_cons. cbn [concat].
  apply CheckReportLifecycle_loop in Hc as [Hc _]. rewrite Hp in Hc. cbn in Hc. by rewrite snapshot_loop_app, Hc.
Qed.

(** C38: accepted status snapshots are never rolled back and never fork.  Over any
    history of accepted reports, under whatever policies, the accepted generation
    of every coordinate only grows and keeps its digest while it stays; and of two
    results that declare the same coordinate, anywhere in the history, the later
    one declares a later generation or the same generation with the same digest. *)
Theorem snapshots_only_advance s reps s' :
  history s reps s' →
  state_le s s' ∧
  ∀ i j r1 r2 d1 d2, (i <= j)%nat →
    concat (rp_results <$> reps) !! i = Some r1 → concat (rp_results <$> reps) !! j = Some r2 →
    snapshotBinding r1 = inl (Some d1) → snapshotBinding r2 = inl (Some d2) → binding_key d1 = binding_key d2 →
    binding_le d1 d2 ∧ ∃ b, mget (binding_key d1) s' = Some b ∧ binding_le d2 b.
Proof.
  intros H%history_loop. split; [by eapply snapshot_loop_le|]. intros i j r1 r2 d1 d2 Hij H1 H2 D1 D2 K.
  split; [by eapply snapshot_loop_order|]. rewrite K. by eapply snapshot_loop_declared.
Qed.

(** ** The persisted form *)

(** A state the checks produce: entries under their own coordinate, each one that
    [ParseState] accepts, with a generation that binary64 holds exactly. *)
Definition generation_ok (g : Z) : Prop := g <= max_int64 ∧ int_exact g = true ∧ in_binary64 (of_Z g) = true.
Record state_ok (s : SnapshotState) : Prop := {
  so_wf : wf_map s;
  so_key : ∀ k b, mget k s = Some b → k = binding_key b;
  so_valid : ∀ k b, mget k s = Some b → binding_valid b = true ∧ generation_ok (sb_generation b)
}.

Lemma collect_bindings_app l : ∀ state,
  Forall (λ b, binding_valid b = true) l → NoDup (mkeys state ++ (binding_key <$> l)) →
  collect_bindings state l = Some (state ++ ((λ b, (binding_key b, b)) <$> l)).
Proof.
  induction l as [|b l IH]; intros state Hv Hn; cbn [collect_bindings]; [by rewrite app_nil_r|].
  apply list.Forall_cons in Hv as [Hb Hv]. rewrite fmap_cons in Hn. rewrite Hb. cbn [negb].
  pose proof Hn as (_ & Hd & _)%list.NoDup_app.
  assert (mget (binding_key b) state = None) as E by (apply mget_None; intros H; apply (Hd _ H); set_solver).
  rewrite E. assert (mset (binding_key b) b state = state ++ [(binding_key b, b)]) as ->.
  { pose proof (fold_mset_app [(binding_key b, b)] state) as H. cbn in H. apply H.
    apply list.NoDup_app in Hn as (Hn & _ & _). apply list.NoDup_app. split; [done|]. split; [|apply list.NoDup_singleton].
    intros k Hk Hk'. apply (Hd k Hk). cbn in Hk'. set_solver. }
  rewrite IH; [rewrite fmap_cons; by rewrite <- app_assoc|done|]. unfold mkeys in *. rewrite fmap_app, <- app_assoc. done.
Qed.

Lemma Bindings_keys s : state_ok s → binding_key <$> Bindings s = sort_Strings (mkeys s).
Proof.
  intros [Hw Hk _]. unfold Bindings. assert (∀ k, k ∈ sort_Strings (mkeys s) → k ∈ mkeys s) as Hin.
  { intros k. unfold sort_Strings. by rewrite merge_sort_Permutation. }
  induction (sort_Strings (mkeys s)) as [|k l IH]; [done|]. cbn [omap list_omap].
  destruct (mget k s) as [b|] eqn:E.
  - rewrite fmap_cons, IH by set_solver. by rewrite <- (Hk k b E).
  - apply mget_None in E. destruct E. apply Hin. set_solver.
Qed.

Lemma Bindings_elem s b : state_ok s → b ∈ Bindings s ↔ mget (binding_key b) s = Some b.
Proof.
  intros [Hw Hk _]. unfold Bindings. rewrite list_elem_of_omap. split.
  - intros (k & _ & E). by rewrite <- (Hk k b E).
  - intros E. exists (binding_key b). split; [|done]. unfold sort_Strings. rewrite merge_sort_Permutation.
    by eapply mkeys_elem, mget_elem.
Qed.

Lemma if_true {A} (b : bool) (x y : A) : b = true → (if b then x else y) = x.
Proof. by intros ->. Qed.

Lemma into_binding_json b :
  binding_valid b = true → generation_ok (sb_generation b) → into_binding zero_binding (jtext_of (binding_json b)) = Some b.
Proof.
  intros Hv (Hm & He & _). assert (1 <= sb_generation b) as Hg.
  { unfold binding_valid in Hv. repeat (case_match; try done). by apply Z.ltb_ge. }
  unfold binding_json. rewrite (jtext_omitempty ["componentType"; "digest"; "evidenceDigest"; "generation"; "source"]) by template.
  destruct b as [src ct ev g d]. cbn [sb_source sb_component_type sb_evidence_digest sb_generation sb_digest] in *.
  cbn [fmap list_fmap]. unfold into_binding, closed_into.
  rewrite if_true by reflexivity.
  rewrite (decode_step _ _ _ _ (mkBinding "" ct "" 0 "")) by (do 2 eexists; split; reflexivity).
  rewrite (decode_step _ _ _ _ (mkBinding "" ct "" 0 d)) by (do 2 eexists; split; reflexivity).
  rewrite (decode_step _ _ _ _ (mkBinding "" ct ev 0 d)) by (do 2 eexists; split; reflexivity).
  rewrite (decode_step _ _ _ _ (mkBinding "" ct ev g d)).
  2:{ do 2 eexists. split; [reflexivity|].
      exact (f_equal (mbind (λ z, Some (mkBinding "" ct ev z d))) (int64_exact g ltac:(lia) He)). }
  rewrite (decode_step _ _ _ _ (mkBinding src ct ev g d)) by (do 2 eexists; split; reflexivity). done.
Qed.

Lemma into_state_file_json s :
  state_ok s → into_state_file (mkStateFile "" []) (jtext_of (state_json s)) = Some (mkStateFile StateVersion (Bindings s)).
Proof.
  intros Hs. unfold state_json. rewrite (jtext_omitempty ["@version"; "snapshots"]) by template.
  cbn [fmap list_fmap]. unfold into_state_file, closed_into. rewrite if_true by reflexivity.
  rewrite (decode_step _ _ _ _ (mkStateFile StateVersion [])) by (do 2 eexists; split; reflexivity).
  rewrite (decode_step _ _ _ _ (mkStateFile StateVersion (Bindings s))); [done|]. do 2 eexists. split; [reflexivity|].
  assert (in_elems into_binding zero_binding [] (jtext_of (AList (binding_json <$> Bindings s))) = Some (Bindings s)) as E.
  { apply in_elems_json. intros b Hb%Bindings_elem; [|done]. destruct (so_valid s Hs _ _ Hb). by apply into_binding_json. }
  exact (f_equal (mbind (λ l, Some (mkStateFile StateVersion l))) E).
Qed.

Lemma state_json_ok s : state_ok s → numbers_in_range (state_json s) = true ∧ keyed (state_json s) = true.
Proof.
  intros Hs. assert (∀ b, b ∈ Bindings s → numbers_in_range (binding_json b) = true) as Hb.
  { intros b Hb%Bindings_elem; [|done]. destruct (so_valid s Hs _ _ Hb) as [_ (_ & _ & Hr)]. cbn. by rewrite Hr. }
  split.
  - cbn -[binding_json]. rewrite andb_true_r. apply forallb_forall. intros j Hj%list_elem_of_In.
    apply list_elem_of_fmap in Hj as (b & -> & ?). auto.
  - cbn -[binding_json]. rewrite andb_true_r. apply forallb_forall. intros j Hj%list_elem_of_In.
    apply list_elem_of_fmap in Hj as (b & -> & ?). reflexivity.
Qed.

(** The state that reading back gives: the entries in the order of their keys. *)
Definition sorted_state (s : SnapshotState) : SnapshotState := (λ b, (binding_key b, b)) <$> Bindings s.

Lemma sorted_state_mget s k : state_ok s → mget k (sorted_state s) = mget k s.
Proof.
  intros Hs. assert (wf_map (sorted_state s)) as Hw.
  { unfold wf_map, mkeys, sorted_state. rewrite <- list_fmap_compose.
    change (fst ∘ (λ b : SnapshotBinding, (binding_key b, b))) with binding_key. rewrite Bindings_keys by done.
    unfold sort_Strings. rewrite merge_sort_Permutation. apply (so_wf s Hs). }
  apply option_eq. intros b. split.
  - intros H%mget_elem. unfold sorted_state in H. apply list_elem_of_fmap in H as (b' & E & Hb). simplify_eq.
    by apply Bindings_elem in Hb.
  - intros H. apply elem_mget; [done|]. pose proof (so_key s Hs _ _ H) as ->. apply list_elem_of_fmap.
    exists b. split; [done|]. by apply Bindings_elem.
Qed.

Lemma Bindings_sorted_state s : state_ok s → Bindings (sorted_state s) = Bindings s.
Proof.
  intros Hs. unfold Bindings at 1. assert (mkeys (sorted_state s) = sort_Strings (mkeys s)) as E.
  { unfold sorted_state, mkeys. rewrite <- list_fmap_compose. by apply (Bindings_keys s). }
  rewrite E. assert (sort_Strings (sort_Strings (mkeys s)) = sort_Strings (mkeys s)) as ->.
  { apply (Sorted_unique String.le); [apply Sorted_merge_sort, _..|]. unfold sort_Strings. by rewrite !merge_sort_Permutation. }
  unfold Bindings. generalize (sort_Strings (mkeys s)). intros l. induction l as [|k l IH]; [done|]. cbn [omap list_omap].
  by rewrite sorted_state_mget, IH.
Qed.

(** Persisted snapshot state is what was accepted.  The canonical bytes
    [MarshalState] writes for a state of the checks, whose generations binary64
    holds, are accepted by [ParseState] up to its size limit and give the same
    binding for every coordinate; writing the parsed state gives the same bytes. *)
Lemma state_roundtrip s text :
  state_ok s → MarshalState s = Some text → Z.of_nat (String.length text) <= MaxReportBytes →
  ∃ s', ParseState text = Some s' ∧ (∀ k, mget k s' = mget k s) ∧ MarshalState s' = Some text.
Proof.
  intros Hs Ht Hl. exists (sorted_state s). split.
  - unfold MarshalState, canonical_of in Ht. cbn [mbind option_bind] in Ht.
    destruct (CanonicalJSON (state_json s)) as [t|] eqn:Ec; [|done]. simplify_eq.
    destruct (state_json_ok s Hs) as [Hr Hk]. unfold ParseState. rewrite (proj2 (Z.ltb_ge _ _) Hl).
    rewrite (CanonicalJSON_Check_dups _ _ Ec Hr Hk), (CanonicalJSON_document _ _ Ec Hr). cbn [negb mbind option_bind].
    rewrite into_state_file_json by done. cbn [mbind option_bind sf_version sf_snapshots]. rewrite String.eqb_refl. cbn [negb].
    rewrite collect_bindings_app; [done| |].
    + apply list.Forall_forall. intros b Hb%Bindings_elem; [|done]. by destruct (so_valid s Hs _ _ Hb).
    + cbn. rewrite Bindings_keys by done. unfold sort_Strings. rewrite merge_sort_Permutation. apply (so_wf s Hs).
  - split; [intros k; by apply sorted_state_mget|].
    unfold MarshalState, state_json in *. by rewrite Bindings_sorted_state.
Qed.

(** The states the checks reach from well-formed results are well formed. *)
Definition state_inv (s : SnapshotState) : Prop :=
  wf_map s ∧ ∀ k b, mget k s = Some b → k = binding_key b ∧ binding_valid b = true.

Lemma snapshotBinding_valid r d :
  result_validate r = true → snapshotBinding r = inl (Some d) → binding_valid d = true.
Proof.
  unfold result_validate. destruct (blank (nr_check_id r)); [done|]. destruct (blank (nr_component_type r)) eqn:Ec; [done|].
  destruct (negb (outcome_Valid _)); [done|]. destruct (negb (digest_valid (nr_evidence_digest r))) eqn:Ee; [done|]. intros _.
  unfold snapshotBinding. destruct (String.eqb (nr_snapshot_source r) "") eqn:Es, (nr_snapshot_generation r =? 0); try done.
  cbn [negb andb orb]. destruct (nr_snapshot_generation r <? 1) eqn:Eg; [done|].
  destruct (digest_valid (nr_status_snapshot r)) eqn:Ed; [|done]. cbn [negb]. intros [= <-].
  unfold binding_valid. cbn [sb_source sb_component_type sb_evidence_digest sb_generation sb_digest].
  rewrite Es, Ee, Eg, Ed. destruct (String.eqb_spec (nr_component_type r) "") as [E|]; [by rewrite E in Ec|done].
Qed.

Lemma snapshot_loop_inv l : ∀ s s',
  Forall (λ r, result_validate r = true) l → state_inv s → snapshot_loop s l = inl s' → state_inv s'.
Proof.
  induction l as [|r l IH]; intros s s' Hl Hs; cbn [snapshot_loop]; [by intros [= <-]|].
  apply list.Forall_cons in Hl as [Hr Hl]. destruct (snapshotBinding r) as [[d|]|] eqn:Ed; [|by apply IH|done].
  destruct (advance s d) as [s1|] eqn:Ea; [|done]. apply IH; [done|]. apply advance_inl in Ea as [-> _]. destruct Hs as [Hw Hs].
  split; [by apply wf_mset|]. intros k b. rewrite mget_mset. destruct (String.eqb_spec k (binding_key d)) as [->|]; [|apply Hs].
  intros [= <-]. split; [done|]. by eapply snapshotBinding_valid.
Qed.

(** ** Examples *)

Definition w_digest (c : ascii) : PDigest := "sha-256:" +:+ repeat_char c 64.
Definition w_result (generation : Z) (d : PDigest) : NativeCheckResult :=
  mkResult "status" "credential" (w_digest "a") NativeCheckSuccess "" "verifier" (w_digest "b") (w_digest "c") d
    "authority" generation (mkInstant (63900000000 * Second) true 0) (Some (mkFreshness FreshnessFresh None None 0)) "".
Definition w_report (generation : Z) (d : PDigest) : Report :=
  mkReport ReportVersion AssuranceE1 "p" None None (Some (mkInstant (63900000000 * Second) true 0)) "" [] None None None
    [w_result generation d] None true None [] [] [] [] [] [] None.
Definition w_policy (s : SnapshotState) : ReportPolicy unit :=
  mkPolicy false false [] [] "" None [] [] [] false [] false None false "" [] false 0 0 [] false 0 0 (Some s) true [] false.
Definition w_binding (generation : Z) (d : PDigest) : SnapshotBinding :=
  mkBinding "authority" "credential" (w_digest "a") generation d.
Definition w_state (generation : Z) (d : PDigest) : SnapshotState :=
  NewSnapshotState [w_binding generation d].

(** Generations beyond 2^53 are not persisted exactly: the state file of
    generation 2^53 + 1 is read back as generation 2^53, so the snapshot of
    generation 2^53 that was superseded is accepted again. *)
Lemma generation_rounded :
  match MarshalState (w_state (2 ^ 53 + 1) (w_digest "d")) with
  | Some text => ParseState text = Some (w_state (2 ^ 53) (w_digest "d"))
  | None => False
  end.
Proof. vm_compute. reflexivity. Qed.

Lemma w_history : history [] [w_report 1 (w_digest "d"); w_report 2 (w_digest "e")] (w_state 2 (w_digest "e")).
Proof.
  apply (history_step (w_policy []) [] (w_report 1 (w_digest "d")) (w_state 1 (w_digest "d"))); [reflexivity|vm_compute; reflexivity|].
  apply (history_step (w_policy (w_state 1 (w_digest "d"))) (w_state 1 (w_digest "d")) (w_report 2 (w_digest "e"))
    (w_state 2 (w_digest "e"))); [reflexivity|vm_compute; reflexivity|]. apply history_nil.
Defined.

Lemma snapshots_only_advance_witness :
  state_le [] (w_state 2 (w_digest "e")) ∧ binding_le (w_binding 1 (w_digest "d")) (w_binding 2 (w_digest "e")).
Proof.
  destruct (snapshots_only_advance _ _ _ w_history) as [H1 H2]. split; [exact H1|].
  apply (H2 0%nat 1%nat (w_result 1 (w_digest "d")) (w_result 2 (w_digest "e"))); [lia|..]; reflexivity.
Defined.

Lemma w_state_ok : state_ok (w_state 7 (w_digest "e")).
Proof.
  assert (∀ k b, mget k (w_state 7 (w_digest "e")) = Some b → k = binding_key b ∧ b = w_binding 7 (w_digest "e")) as H.
  { intros k b Hb. apply mget_elem in Hb. unfold w_state, NewSnapshotState in Hb. cbn [fold_left mset] in Hb.
    apply list_elem_of_singleton in Hb. by injection Hb as -> ->. }
  split.
  - apply list.NoDup_singleton.
  - intros k b Hb. by apply (H k b).
  - intros k b Hb. destruct (H k b Hb) as [_ ->]. split; [reflexivity|].
    unfold generation_ok. split; [vm_compute; discriminate|]. split; vm_compute; reflexivity.
Defined.

