(* ===== verification/ReportValidate.v ===== *)
(** * Validating and building evidence reports

    projection/validate.go, derivation.go and BuildEvidenceReport of evidence.go:
    the structural validation of a report, the deployer's policy on top of it, and
    the assembly of a report. *)

From S2P Require Import Prelude GoStrings GoFloat GoTime Json Canonical JsonText JsonStruct Utf.
From S2P Require Import NumberText CanonicalText GoTimeText Evidence Sha256 Ids Values Bounds.
From S2P Require Import Requirement Sources Context RecordJson RecordFreeze Challenge Report.
From S2P Require Import ReportData.
From S2P Require Import ReportLifecycle.

(** ** Profiles and verifiers *)

(** A namespace: a letter or digit, then letters, digits, periods and dashes. *)
Definition lower_digit (c : ascii) : bool := is_lower c || is_digit c.
Definition validReasonNamespace (ns : string) : bool :=
  match ns with
  | EmptyString => false
  | String c s => lower_digit c && str_forallb (λ c, lower_digit c || Ascii.eqb c "." || Ascii.eqb c "-") s
  end.

Fixpoint distinct_nonempty (seen l : list string) : bool :=
  match l with
  | [] => true
  | x :: rest => negb (String.eqb x "") && negb (mem_key x seen) && distinct_nonempty (x :: seen) rest
  end.
Fixpoint expectations_ok (seen : list string) (l : list NativeCheckExpectation) : bool :=
  match l with
  | [] => true
  | e :: rest =>
      expectation_validate e && negb (mem_key (expectation_key e) seen) && expectations_ok (expectation_key e :: seen) rest
  end.

(** [Profile.Validate]; every failure has the same code. *)
Definition profile_ok (p : Profile) : bool :=
  if String.eqb (pf_id p) "" then false
  else if (if String.eqb (pf_status_model p) StatusNone then negb (length (pf_required_checks p) =? 0)%nat
           else if String.eqb (pf_status_model p) StatusRequired then (length (pf_required_checks p) =? 0)%nat
           else true) then false
  else if negb (distinct_nonempty [] (pf_required_checks p)) then false
  else if (length (pf_expectations p) =? 0)%nat && String.eqb (pf_status_model p) StatusRequired then false
  else if negb (expectations_ok [] (pf_expectations p)) then false
  else if negb (String.eqb (pf_reason_namespace p) "") && negb (validReasonNamespace (pf_reason_namespace p)) then false
  else if negb (digest_Empty (pf_reason_registry p)) &&
          (String.eqb (pf_reason_namespace p) "" || negb (digest_valid (pf_reason_registry p))) then false
  else if negb (digest_Empty (pf_digest p)) && negb (bool_decide (profile_Digest p = Some (pf_digest p))) then false
  else digest_ok (pf_na_authority p) && digest_ok (pf_action_mapping p) && digest_ok (pf_digest p).
Definition profile_Validate (p : Profile) : option report_code := guard (negb (profile_ok p)) CodeReportProfile.

(** [VerifierIdentity.Validate]. *)
Definition verifier_Validate (v : VerifierIdentity) : option report_code :=
  guard (blank (vi_principal v)) CodeReportVerifier ;;?
  guard (digest_Empty (vi_profile v)) CodeReportVerifier ;;?
  guard (negb (digest_valid (vi_profile v))) CodeReportVerifier.

(** ** Parts of the report *)

Definition validateAssessment (iter : gomap (list string) → gomap (list string)) (rep : Report) (profile : Profile)
    (results : list NativeCheckResult) : option report_code :=
  match pf_expectations profile with
  | [] => match rp_assessment rep with Some _ => Some CodeReportInventory | None => None end
  | expectations =>
      let want := AssessNativeChecks iter expectations results in
      match rp_assessment rep with
      | None => Some CodeReportInventory
      | Some a => guard (negb (bool_decide (a = want))) CodeReportInventory
      end
  end.

Definition validateNotApplicableAuthority (profile : Profile) (results : list NativeCheckResult) : option report_code :=
  check_all (λ r, guard (String.eqb (nr_outcome r) NativeCheckNotApplicable &&
                         (digest_Empty (pf_na_authority profile) ||
                          negb (String.eqb (nr_verifier_profile r) (pf_na_authority profile)))) CodeReportNotApplicable) results.

(** [reasonCode]: the code after the namespace, [None] where it is not one. *)
Definition code_class (c : ascii) : bool :=
  lower_digit c || Ascii.eqb c "." || Ascii.eqb c "_" || Ascii.eqb c ":" || Ascii.eqb c "-".
Definition reasonCode (ns reason : string) : option string :=
  if String.eqb ns "" then None
  else
    let prefix := ns +:+ ":" in
    if (String.length reason <=? String.length prefix)%nat || negb (String.eqb (stake (String.length prefix) reason) prefix) then None
    else
      let code := sdrop (String.length prefix) reason in
      match code with
      | EmptyString => Some code
      | String c s => if lower_digit c && str_forallb code_class s then Some code else None
      end.

Definition validateReasonCodes (profile : Profile) (results : list NativeCheckResult) : option report_code :=
  check_all (λ r,
    if String.eqb (nr_reason r) "" then None
    else
      guard (String.eqb (pf_reason_namespace profile) "") CodeReportProfile ;;?
      match reasonCode (pf_reason_namespace profile) (nr_reason r) with
      | Some _ => None
      | None => Some CodeReportProfile
      end) results.

(** [factKey]: the year of [time.RFC3339Nano] has at least four digits. *)
Definition year_text (y : Z) : string :=
  (if y <? 0 then "-" else "") +:+ (let s := Itoa (Z.abs y) in repeat_char "0" (4 - String.length s) +:+ s).
Definition nano_text (t : Time) : string :=
  let c := civil_of t 0 in
  year_text (cv_year c) +:+ String "-" (two (cv_month c) +:+ String "-" (two (cv_day c) +:+ String "T"
    (two (cv_hour c) +:+ String ":" (two (cv_min c) +:+ String ":" (two (cv_sec c) +:+ nanos_text (cv_nsec c) +:+ "Z"))))).
Definition bool_text (b : bool) : string := if b then "true" else "false".
Definition factKey (f : ReportFact) : string :=
  let g := rf_fact f in
  f_type g +:+ String NUL (f_subject g +:+ String NUL (bool_text (f_verified g) +:+ String NUL (nano_text (f_issued g)))).

(** [checkIDsBoundToArtifact]: true is the nil error. *)
Definition checkIDsBoundToArtifact (ids : list string) (artifact : PDigest) (results : list NativeCheckResult) : bool :=
  forallb (λ id, existsb (λ r, String.eqb (nr_check_id r) id && String.eqb (nr_evidence_digest r) artifact) results) ids.

(** An index into a slice, as Go's int. *)
Definition fact_at (facts : list ReportFact) (i : Z) : option ReportFact :=
  if (i <? 0) || (Z.of_nat (length facts) <=? i) then None else facts !! Z.to_nat i.
Definition mem_index (i : Z) (l : list Z) : bool := existsb (Z.eqb i) l.

(** The loop of [validateLineage]: the indices that were used. *)
Fixpoint lineage_loop (facts : list ReportFact) (results : list NativeCheckResult) (used : list Z)
    (records : list ProjectedEvidenceRecord) : list Z + report_code :=
  match records with
  | [] => inl used
  | r :: rest =>
      match er_fact r with
      | None =>
          if match er_fact_index r with Some _ => true | None => false end then inr CodeReportFactUnbound
          else if (0 <? length (er_check_ids r))%nat &&
                  negb (checkIDsBoundToArtifact (er_check_ids r) (er_artifact r) results) then inr CodeReportCheckBinding
          else lineage_loop facts results used rest
      | Some fact =>
          match er_fact_index r with
          | None => inr CodeReportFactUnbound
          | Some index =>
              match fact_at facts index with
              | None => inr CodeReportFactUnbound
              | Some f =>
                  if mem_index index used then inr CodeReportFactUnbound
                  else if negb (String.eqb (factKey f) (factKey fact)) then inr CodeReportFactUnbound
                  else if (length (er_check_ids r) =? 0)%nat then inr CodeReportCheckBinding
                  else if negb (checkIDsBoundToArtifact (er_check_ids r) (er_artifact r) results) then inr CodeReportCheckBinding
                  else lineage_loop facts results (index :: used) rest
              end
          end
      end
  end.
Definition indices (facts : list ReportFact) : list Z := Z.of_nat <$> seq 0 (length facts).
Definition validateLineage (rep : Report) (results : list NativeCheckResult) : option report_code :=
  match lineage_loop (rp_facts rep) results [] (rp_records rep) with
  | inr e => Some e
  | inl used => check_all (λ i, guard (negb (mem_index i used)) CodeReportFactUnbound) (indices (rp_facts rep))
  end.

(** ** Derivations (derivation.go) *)

Fixpoint derivationMatchesRecord (records : list ProjectedEvidenceRecord) (d : Derivation) : bool :=
  match records with
  | [] => false
  | r :: rest =>
      if bool_decide (er_fact_index r = Some (dv_fact_index d)) then
        if negb (String.eqb (er_artifact r) (dv_artifact d)) then false
        else negb ((0 <? length (dv_check_ids d))%nat && negb (sameStringSet (dv_check_ids d) (er_check_ids r)))
      else derivationMatchesRecord rest d
  end.

(** One derivation, given the indices seen before it. *)
Definition derivation_ok (rep : Report) (seen : list Z) (d : Derivation) : bool :=
  if String.eqb (dv_carrier d) "" then false
  else if negb (digest_valid (dv_artifact d)) then false
  else if negb (digest_valid (dv_verifier_profile d)) then false
  else if negb (digest_ok (dv_mapping_profile d)) then false
  else match fact_at (rp_facts rep) (dv_fact_index d) with
       | None => false
       | Some fact =>
           if mem_index (dv_fact_index d) seen then false
           else if match rp_verifier rep with
                   | Some v => negb (String.eqb (dv_verifier_profile d) (vi_profile v))
                   | None => false
                   end then false
           else if match rp_observation rep with
                   | Some o => negb (digest_Empty (dv_mapping_profile d)) &&
                               negb (String.eqb (dv_mapping_profile d) (ob_mapping_profile o))
                   | None => false
                   end then false
           else if negb (bool_decide (FactBindingDigest fact (dv_artifact d) = Some (dv_fact_digest d))) then false
           else derivationMatchesRecord (rp_records rep) d
       end.
Fixpoint derivations_loop (rep : Report) (seen : list Z) (l : list Derivation) : option (list Z) :=
  match l with
  | [] => Some seen
  | d :: rest => if derivation_ok rep seen d then derivations_loop rep (dv_fact_index d :: seen) rest else None
  end.
Definition validateDerivations (rep : Report) : option report_code :=
  match rp_derivations rep with
  | [] => None
  | l =>
      match derivations_loop rep [] l with
      | None => Some CodeReportDerivation
      | Some seen => check_all (λ i, guard (negb (mem_index i seen)) CodeReportDerivation) (indices (rp_facts rep))
      end
  end.

(** ** The report *)

Definition result_digests_ok (r : NativeCheckResult) : bool :=
  digest_ok (nr_evidence_digest r) && digest_ok (nr_verifier_profile r) && digest_ok (nr_trust_snapshot r) &&
  digest_ok (nr_status_snapshot r) && digest_ok (nr_replay r).

Definition record_digests (r : ProjectedEvidenceRecord) : option report_code :=
  guard (negb (digest_valid (er_artifact r))) CodeReportDigest ;;?
  guard (negb (digest_ok (er_native_record r))) CodeReportDigest ;;?
  guard (negb (digest_ok (er_relation_tuple r))) CodeReportDigest.

(** The records that name an observation name the report's. *)
Definition observation_bound (rep : Report) : option report_code :=
  match rp_observation rep with
  | Some o =>
      let ident := if String.eqb (ob_native_action o) "" then ob_clc_action o else ob_native_action o in
      check_all (λ r, if String.eqb (er_observation r) "" then None
                      else guard (String.eqb ident "" || negb (String.eqb (er_observation r) ident)) CodeReportCheckBinding)
        (rp_records rep)
  | None => check_all (λ r, guard (negb (String.eqb (er_observation r) "")) CodeReportCheckBinding) (rp_records rep)
  end.

Definition verifier_bound (rep : Report) (results : list NativeCheckResult) : option report_code :=
  match rp_verifier rep with
  | None => None
  | Some v =>
      verifier_Validate v ;;?
      check_all (λ r,
        guard (negb (String.eqb (nr_verifier r) (vi_principal v))) CodeReportVerifier ;;?
        guard (negb (String.eqb (nr_verifier_profile r) (vi_profile v))) CodeReportVerifier) results
  end.

Definition requirement_bound (rep : Report) : option report_code :=
  match rp_requirement rep, rp_projected_digest rep with
  | Some req, Some d =>
      match req_Digest req with
      | inr _ => Some CodeReportShape
      | inl want => guard (negb (digest_Equal want d)) CodeReportDigest
      end
  | _, _ => None
  end.

Definition with_profile (o : option Profile) (f : Profile → option report_code) : option report_code :=
  match o with Some p => f p | None => None end.

Definition ValidateEvidenceReport (iter : gomap (list string) → gomap (list string)) (rep : option Report) : option report_code :=
  match rep with
  | None => Some CodeReportShape
  | Some rep =>
      with_profile (rp_profile rep) profile_Validate ;;?
      check_all (λ r, guard (negb (result_digests_ok r)) CodeReportDigest) (rp_results rep) ;;?
      guard (negb (String.eqb (rp_version rep) ReportVersion)) CodeReportShape ;;?
      guard (negb (assurance_Valid (rp_assurance rep))) CodeReportShape ;;?
      match normalizeResults (rp_results rep) with
      | None => Some CodeReportShape
      | Some results =>
          check_all record_digests (rp_records rep) ;;?
          match rp_observation rep with
          | Some o => guard (negb (digest_ok (ob_mapping_profile o))) CodeReportDigest
          | None => None
          end ;;?
          with_profile (rp_profile rep) (λ p,
            validateAssessment iter rep p results ;;? validateNotApplicableAuthority p results) ;;?
          requirement_bound rep ;;?
          with_profile (rp_profile rep) (λ p, validateReasonCodes p results) ;;?
          verifier_bound rep results ;;?
          match rp_appraisal_time rep with
          | None => Some CodeReportShape
          | Some t => guard (IsZero (in_at t)) CodeReportShape
          end ;;?
          observation_bound rep ;;?
          (if (0 <? length (rp_records rep))%nat || match rp_profile rep with Some _ => true | None => false end
           then validateLineage rep results else None) ;;?
          validateDerivations rep
      end
  end.

(** ** The deployer's policy *)

Section policy.
Context {Cert : Type} (iter : gomap (list string) → gomap (list string)).

(** Completeness, recomputed. *)
Definition required_set (rep : Report) (policy : ReportPolicy Cert) : list string :=
  let required := unionStrings (rp_required_ids rep) (pl_required_ids policy) in
  match rp_profile rep with Some p => unionStrings required (pf_required_checks p) | None => required end.
Definition recomputed_complete (rep : Report) (policy : ReportPolicy Cert) : bool :=
  let complete := requiredChecksComplete (required_set rep policy) (rp_results rep) in
  match rp_profile rep with
  | Some p =>
      if (0 <? length (pf_expectations p))%nat &&
         negb (match rp_assessment rep with Some a => na_complete a | None => false end) then false else complete
  | None => complete
  end.

Definition reasons_registered (rep : Report) (policy : ReportPolicy Cert) : option report_code :=
  match rp_profile rep with
  | Some p =>
      if digest_Empty (pf_reason_registry p) then None
      else match mget (pf_reason_registry p) (pl_reason_registries policy) with
           | None => Some CodeReportPolicy
           | Some registry =>
               check_all (λ r,
                 if String.eqb (nr_reason r) "" then None
                 else match reasonCode (pf_reason_namespace p) (nr_reason r) with
                      | Some code => guard (negb (default false (mget code registry))) CodeReportPolicy
                      | None => Some CodeReportPolicy
                      end) (rp_results rep)
           end
  | None => None
  end.

Definition artifacts_match (policy : ReportPolicy Cert) (d : Derivation) : option report_code :=
  match mget (dv_artifact d) (pl_artifacts policy) with
  | None => guard (pl_require_artifacts policy) CodeReportPolicy
  | Some raw => guard (negb (String.eqb (DigestFromBytes (Sum256 raw)) (dv_artifact d))) CodeReportPolicy
  end.

Definition is_some {A} (o : option A) : bool := match o with Some _ => true | None => false end.

Definition assurance_policy (rep : Report) (policy : ReportPolicy Cert) : option report_code :=
  guard ((rank AssuranceE2 <=? rank (rp_assurance rep)) && (length (rp_derivations rep) =? 0)%nat) CodeReportPolicy ;;?
  guard (String.eqb (rp_assurance rep) AssuranceE3 && negb (pl_attestation_verified policy)) CodeReportPolicy ;;?
  guard (negb (String.eqb (pl_min_assurance policy) "") && (rank (rp_assurance rep) <? rank (pl_min_assurance policy)))
    CodeReportPolicy ;;?
  guard (pl_require_derivations policy && (length (rp_derivations rep) =? 0)%nat) CodeReportPolicy.

Definition VerifyEvidenceReport (orep : option Report) (policy : ReportPolicy Cert) : option report_code :=
  ValidateEvidenceReport iter orep ;;?
  match orep with
  | None => None
  | Some rep =>
      guard (negb (String.eqb (pl_min_assurance policy) "") && negb (assurance_Valid (pl_min_assurance policy))) CodeReportPolicy ;;?
      guard (pl_require_profile policy && negb (is_some (rp_profile rep))) CodeReportProfile ;;?
      guard (negb (Bool.eqb (recomputed_complete rep policy) (rp_complete rep))) CodeReportIncomplete ;;?
      guard (negb (digest_Empty (pl_profile_digest policy)) &&
             match rp_profile rep with
             | Some p => negb (String.eqb (pf_digest p) (pl_profile_digest policy))
             | None => true
             end) CodeReportPolicy ;;?
      match pl_requirement_digest policy with
      | Some want =>
          match rp_projected_digest rep with
          | Some d => guard (negb (digest_Equal d want)) CodeReportPolicy
          | None => Some CodeReportPolicy
          end
      | None => None
      end ;;?
      reasons_registered rep policy ;;?
      assurance_policy rep policy ;;?
      check_all (artifacts_match policy) (rp_derivations rep) ;;?
      (if (0 <? length (pl_verifier_profiles policy))%nat then
         guard (negb match rp_verifier rep with
                     | Some v => mem_key (vi_profile v) (pl_verifier_profiles policy)
                     | None => false
                     end) CodeReportPolicy
       else None) ;;?
      guard (match rp_profile rep with Some p => String.eqb (pf_status_model p) StatusRequired | None => false end &&
             negb (rp_complete rep)) CodeReportIncomplete ;;?
      guard (negb (rp_complete rep) && negb (pl_allow_incomplete policy)) CodeReportIncomplete ;;?
      (if is_some (pl_snapshots policy) || (0 <? length (pl_replay_evidence policy))%nat ||
          (0 <? length (pl_snapshot_sources policy))%nat || pl_require_snapshot_binding policy || pl_require_replay policy
       then match CheckReportLifecycle rep policy with inr e => Some e | inl _ => None end
       else None)
  end.
End policy.

(** ** Assembling a report (evidence.go) *)

Record EvidenceInputs := mkEvidenceInputs {
  ei_projector : string;
  ei_source_format : string;
  ei_meta : gomap string;
  ei_requirement : option Requirement;
  ei_source_digest : option Digest;
  ei_projected_digest : option Digest;
  ei_required_native : list string;
  ei_required_ids : list string;
  ei_expectations : list NativeCheckExpectation;
  ei_results : list NativeCheckResult;
  ei_profile : option Profile;
  ei_verifier : option VerifierIdentity;
  ei_assurance : string;
  ei_carrier : string;
  ei_facts : option (list ReportFact);
  ei_observation : option ProjectedObservation;
  ei_records : list ProjectedEvidenceRecord;
  ei_residuals : list string;
  ei_now : Instant
}.

(** [uniqueFactIndex]; the loop carries the index found so far. *)
Fixpoint unique_loop (key : string) (i : Z) (found : Z) (facts : list ReportFact) : option Z :=
  match facts with
  | [] => if found =? -1 then None else Some found
  | f :: rest =>
      if negb (String.eqb (factKey f) key) then unique_loop key (i + 1) found rest
      else if negb (found =? -1) then None
      else unique_loop key (i + 1) i rest
  end.
Definition uniqueFactIndex (facts : list ReportFact) (fact : ReportFact) : option Z := unique_loop (factKey fact) 0 (-1) facts.

(** A record without an index gets one where its fact is unique. *)
Definition index_record (facts : list ReportFact) (r : ProjectedEvidenceRecord) : option ProjectedEvidenceRecord :=
  match er_fact r, er_fact_index r with
  | Some fact, None =>
      i ← uniqueFactIndex facts fact;
      Some (mkEvidenceRecord (er_artifact r) (er_native_record r) (er_observation r) (er_fact r) (Some i)
              (er_check_ids r) (er_relation_tuple r))
  | _, _ => Some r
  end.

Definition derive (carrier : string) (profile mapping : PDigest) (r : ProjectedEvidenceRecord) : option (list Derivation) :=
  match er_fact r, er_fact_index r with
  | Some fact, Some i =>
      d ← FactBindingDigest fact (er_artifact r);
      Some [mkDerivation carrier (er_artifact r) profile mapping i d (er_check_ids r)]
  | _, _ => Some []
  end.

(** The profile's part of the inputs: display checks, required checks, inventory. *)
Definition profile_inputs (inp : EvidenceInputs) : (list string * list string * list NativeCheckExpectation) + report_code :=
  match ei_profile inp with
  | None => inl (ei_required_native inp, ei_required_ids inp, ei_expectations inp)
  | Some p =>
      match profile_Validate p with
      | Some e => inr e
      | None =>
          let ids := unionStrings (ei_required_ids inp) (pf_required_checks p) in
          let display := match ei_required_native inp with [] => pf_required_checks p | l => l end in
          match ei_expectations inp with
          | [] => inl (display, ids, pf_expectations p)
          | es => if sameExpectations es (pf_expectations p) then inl (display, ids, es) else inr CodeReportProfile
          end
      end
  end.

Definition derivations_for (inp : EvidenceInputs) (records : list ProjectedEvidenceRecord) : list Derivation + report_code :=
  if String.eqb (ei_carrier inp) "" then inl []
  else match ei_verifier inp with
       | None => inr CodeReportDerivation
       | Some v =>
           if digest_Empty (vi_profile v) then inr CodeReportDerivation
           else
             let mapping := match ei_observation inp with Some o => ob_mapping_profile o | None => "" end in
             match mapM (derive (ei_carrier inp) (vi_profile v) mapping) records with
             | Some ds => inl (concat ds)
             | None => inr CodeReportDerivation
             end
       end.

(** The projected verdict, where there is a requirement and something to evaluate. *)
Definition satisfaction_for (inp : EvidenceInputs) (now : Instant) : option ReportSatisfaction + report_code :=
  match ei_requirement inp with
  | Some req =>
      if is_some (ei_facts inp) || negb (length (ei_results inp) =? 0)%nat then
        match EvaluateRequirement req (rf_fact <$> default [] (ei_facts inp)) (mkCtx (in_at now) "" "") with
        | inl r => inl (Some (satisfaction_of r))
        | inr _ => inr Uncoded
        end
      else inl None
  | None => inl None
  end.

(** [BuildEvidenceReport]; [wall] is the clock the code reads where no instant is
    given. *)
Definition BuildEvidenceReport (iter : gomap (list string) → gomap (list string)) (wall : Time) (inp : EvidenceInputs) :
    Report + report_code :=
  match normalizeResults (ei_results inp) with
  | None => inr Uncoded
  | Some results =>
      match profile_inputs inp with
      | inr e => inr e
      | inl (display, ids, expectations) =>
          if negb (forallb expectation_validate expectations) then inr CodeReportShape
          else
            let now := if IsZero (in_at (ei_now inp)) then mkInstant wall true 0 else ei_now inp in
            let '(assessment, complete) := assessCompleteness iter expectations ids results in
            match satisfaction_for inp now with
            | inr e => inr e
            | inl satisfaction =>
                match mapM (index_record (default [] (ei_facts inp))) (ei_records inp) with
                | None => inr CodeReportFactUnbound
                | Some records =>
                    match derivations_for inp records with
                    | inr e => inr e
                    | inl derivations =>
                        let assurance := if String.eqb (ei_assurance inp) ""
                                         then (if (0 <? length derivations)%nat then AssuranceE2 else AssuranceE1)
                                         else ei_assurance inp in
                        if negb (assurance_Valid assurance) then inr CodeReportShape
                        else if (rank AssuranceE2 <=? rank assurance) && (length derivations =? 0)%nat then inr CodeReportPolicy
                        else
                          let rep := mkReport ReportVersion assurance (ei_projector inp) (ei_profile inp) (ei_verifier inp)
                            (Some now) (ei_source_format inp) (ei_meta inp) (ei_requirement inp) (ei_source_digest inp)
                            (ei_projected_digest inp) results
                            (if (0 <? length expectations)%nat then Some assessment else None) complete
                            (ei_observation inp) records derivations (default [] (ei_facts inp)) (ei_residuals inp)
                            display ids satisfaction in
                          match ValidateEvidenceReport iter (Some rep) with Some e => inr e | None => inl rep end
                    end
                end
            end
      end
  end.

(** ** Lineage *)

Lemma omap_unique {A B} (f : A → option B) l : ∀ j1 j2 a1 a2 b,
  NoDup (omap f l) → l !! j1 = Some a1 → l !! j2 = Some a2 → f a1 = Some b → f a2 = Some b → j1 = j2.
Proof.
  induction l as [|a l IH]; intros j1 j2 a1 a2 b Hn H1 H2 F1 F2; [done|]. cbn [omap list_omap] in Hn.
  assert (∀ j a', l !! j = Some a' → f a = Some b → f a' = Some b → False) as Hd.
  { intros j a' Hj Fa Fa'. rewrite Fa in Hn. apply list.NoDup_cons in Hn as [Hn _]. apply Hn, list_elem_of_omap.
    exists a'. split; [by eapply list_elem_of_lookup_2|done]. }
  destruct j1 as [|j1], j2 as [|j2]; cbn in H1, H2; [done|simplify_eq; by destruct (Hd j2 a2)|simplify_eq; by destruct (Hd j1 a1)|].
  f_equal. eapply IH; [|done..]. destruct (f a); [by apply list.NoDup_cons in Hn as [_ Hn]|done].
Qed.

Lemma mem_index_true i l : mem_index i l = true ↔ i ∈ l.
Proof. unfold mem_index. rewrite existsb_exists. setoid_rewrite Z.eqb_eq. setoid_rewrite <- list_elem_of_In. naive_solver. Qed.

Lemma fact_at_nat facts i : fact_at facts (Z.of_nat i) = facts !! i.
Proof.
  unfold fact_at. destruct (Z.ltb_spec (Z.of_nat i) 0); [lia|]. cbn [orb].
  destruct (Z.leb_spec (Z.of_nat (length facts)) (Z.of_nat i)); [|by rewrite Nat2Z.id].
  symmetry. apply lookup_ge_None. lia.
Qed.

(** The checks named for an artifact have results over it. *)
Definition gated (results : list NativeCheckResult) (artifact : PDigest) (ids : list string) : Prop :=
  ∀ id, id ∈ ids → ∃ r, r ∈ results ∧ nr_check_id r = id ∧ nr_evidence_digest r = artifact.

Lemma checkIDsBound_true ids artifact results :
  checkIDsBoundToArtifact ids artifact results = true ↔ gated results artifact ids.
Proof.
  unfold checkIDsBoundToArtifact, gated. rewrite forallb_forall. setoid_rewrite <- list_elem_of_In.
  setoid_rewrite existsb_exists. setoid_rewrite andb_true_iff. setoid_rewrite String.eqb_eq.
  setoid_rewrite <- list_elem_of_In. naive_solver.
Qed.

(** A record that [validateLineage] accepts. *)
Definition record_bound (facts : list ReportFact) (results : list NativeCheckResult) (r : ProjectedEvidenceRecord) : Prop :=
  match er_fact r with
  | None => er_fact_index r = None ∧ gated results (er_artifact r) (er_check_ids r)
  | Some fact => ∃ i f, er_fact_index r = Some i ∧ fact_at facts i = Some f ∧ factKey f = factKey fact ∧
                        er_check_ids r ≠ [] ∧ gated results (er_artifact r) (er_check_ids r)
  end.

Lemma lineage_loop_inl facts results records : ∀ used used',
  lineage_loop facts results used records = inl used' → NoDup used →
  NoDup used' ∧ (∀ i, i ∈ used' ↔ i ∈ used ∨ i ∈ omap er_fact_index records) ∧
  NoDup (omap er_fact_index records) ∧ (∀ i, i ∈ omap er_fact_index records → i ∉ used) ∧
  Forall (record_bound facts results) records.
Proof.
  induction records as [|r records IH]; intros used used'; cbn [lineage_loop].
  { intros [= <-] Hn. split; [done|]. split; [set_solver|]. split; [constructor|]. split; [set_solver|constructor]. }
  destruct (er_fact r) as [fact|] eqn:Ef.
  - destruct (er_fact_index r) as [i|] eqn:Ei; [|done]. destruct (fact_at facts i) as [f|] eqn:Ea; [|done].
    destruct (mem_index i used) eqn:Em; [done|]. destruct (negb (String.eqb _ _)) eqn:Ek; [done|].
    destruct (_ =? 0)%nat eqn:El; [done|]. destruct (negb (checkIDsBoundToArtifact _ _ _)) eqn:Eb; [done|]. intros H Hn.
    assert (i ∉ used) as Hi by (rewrite <- mem_index_true, Em; done).
    destruct (IH _ _ H) as (H1 & H2 & H3 & H4 & H5); [by apply list.NoDup_cons|]. cbn [omap list_omap]. rewrite Ei.
    split; [done|]. split; [set_solver|]. split; [apply list.NoDup_cons; split; [intros Hin; by apply (H4 i Hin); set_solver|done]|].
    split; [set_solver|]. constructor; [|done]. unfold record_bound. rewrite Ef. exists i, f.
    apply negb_false_iff, String.eqb_eq in Ek. apply negb_false_iff, checkIDsBound_true in Eb. repeat split; try done.
    intros E. by rewrite E in El.
  - destruct (er_fact_index r) as [i|] eqn:Ei; [done|]. destruct (_ && _) eqn:Eb; [done|]. intros H Hn.
    destruct (IH _ _ H Hn) as (H1 & H2 & H3 & H4 & H5). cbn [omap list_omap]. rewrite Ei. repeat split; try done; try apply H2.
    constructor; [|done]. unfold record_bound. rewrite Ef. split; [done|].
    destruct (er_check_ids r) as [|id ids]; [by intros id ?%not_elem_of_nil|]. cbn [length Nat.ltb Nat.leb andb] in Eb.
    by apply negb_false_iff, checkIDsBound_true in Eb.
Qed.

Lemma indices_elem facts i : i ∈ indices facts ↔ ∃ n, i = Z.of_nat n ∧ (n < length facts)%nat.
Proof. unfold indices. rewrite list_elem_of_fmap. setoid_rewrite elem_of_seq. split; intros (n & -> & ?); exists n; split; (done || lia). Qed.

Lemma validateLineage_None rep results :
  validateLineage rep results = None →
  NoDup (omap er_fact_index (rp_records rep)) ∧ Forall (record_bound (rp_facts rep) results) (rp_records rep) ∧
  ∀ n, (n < length (rp_facts rep))%nat → Z.of_nat n ∈ omap er_fact_index (rp_records rep).
Proof.
  unfold validateLineage. destruct (lineage_loop _ _ _ _) as [used|] eqn:E; [|done].
  destruct (lineage_loop_inl _ _ _ _ _ E) as (_ & H2 & H3 & _ & H5); [constructor|]. rewrite check_all_None. intros H.
  split; [done|]. split; [done|]. intros n Hn. specialize (H (Z.of_nat n)). rewrite guard_None, negb_false_iff, mem_index_true in H.
  destruct (proj1 (H2 (Z.of_nat n))) as [?%not_elem_of_nil|?]; [|done|done]. apply H, indices_elem. eauto.
Qed.

(** The parts of a successful validation. *)
Record report_ok (iter : gomap (list string) → gomap (list string)) (rep : Report) : Prop := {
  rk_profile : ∀ p, rp_profile rep = Some p →
    profile_ok p = true ∧ validateAssessment iter rep p (rp_results rep) = None ∧
    validateNotApplicableAuthority p (rp_results rep) = None ∧ validateReasonCodes p (rp_results rep) = None;
  rk_results : normalize_loop [] (rp_results rep) = true;
  rk_requirement : requirement_bound rep = None;
  rk_verifier : verifier_bound rep (rp_results rep) = None;
  rk_time : ∃ t, rp_appraisal_time rep = Some t ∧ in_at t ≠ 0;
  rk_lineage : rp_records rep ≠ [] ∨ rp_profile rep ≠ None → validateLineage rep (rp_results rep) = None;
  rk_derivations : validateDerivations rep = None
}.

Lemma ValidateEvidenceReport_None iter rep : ValidateEvidenceReport iter (Some rep) = None → report_ok iter rep.
Proof.
  unfold ValidateEvidenceReport, normalizeResults. rewrite !check_seq_None. intros (Hp & _ & _ & _ & H).
  destruct (normalize_loop [] (rp_results rep)) eqn:En; [|done]. rewrite !check_seq_None in H.
  destruct H as (_ & _ & Hpa & Hr & Hpr & Hv & Ht & _ & Hl & Hd). split; try done.
  - intros p E. rewrite E in Hp, Hpa, Hpr. cbn in Hp, Hpa, Hpr. unfold profile_Validate in Hp.
    apply guard_None, negb_false_iff in Hp. apply check_seq_None in Hpa. naive_solver.
  - destruct (rp_appraisal_time rep) as [t|]; [|done]. exists t. split; [done|]. apply guard_None in Ht. unfold IsZero in Ht. lia.
  - intros Hor. destruct (rp_records rep) as [|r l]; [|exact Hl]. destruct (rp_profile rep); [exact Hl|]. by destruct Hor.
Qed.

Lemma derivations_loop_seen rep l : ∀ acc seen,
  derivations_loop rep acc l = Some seen → ∀ i, i ∈ seen → i ∈ acc ∨
  ∃ d, d ∈ l ∧ dv_fact_index d = i ∧
    ∃ f, fact_at (rp_facts rep) i = Some f ∧ FactBindingDigest f (dv_artifact d) = Some (dv_fact_digest d).
Proof.
  induction l as [|d l IH]; intros acc seen; cbn [derivations_loop]; [intros [= ->]; auto|].
  destruct (derivation_ok rep acc d) eqn:Eok; [|done]. intros H i Hi. destruct (IH _ _ H i Hi) as [[->|?]%elem_of_cons|(d' & ? & ?)].
  - right. exists d. split; [set_solver|]. split; [done|]. unfold derivation_ok in Eok.
    destruct (fact_at _ _) as [f|]; [|repeat (case_match; try done)]. exists f. split; [done|].
    destruct (negb (bool_decide (FactBindingDigest f (dv_artifact d) = Some (dv_fact_digest d)))) eqn:Eb;
      [repeat (case_match; try done)|by apply negb_false_iff, bool_decide_eq_true in Eb].
  - by left.
  - right. exists d'. split; [set_solver|done].
Qed.

(** No fact without an artifact.  In a report that validates and has records
    or a profile, every fact is bound by exactly one evidence record, which
    carries the same fact and names at least one check; each check it names has a
    valid result over the record's own artifact.  Where derivations are present,
    every fact has one whose digest binds the fact to its artifact. *)
Lemma facts_have_lineage iter rep :
  ValidateEvidenceReport iter (Some rep) = None → rp_records rep ≠ [] ∨ rp_profile rep ≠ None →
  ∀ n fact, rp_facts rep !! n = Some fact →
    (∃ j r f, rp_records rep !! j = Some r ∧ er_fact_index r = Some (Z.of_nat n) ∧ er_fact r = Some f ∧
       factKey f = factKey fact ∧ er_check_ids r ≠ [] ∧
       (∀ j' r', rp_records rep !! j' = Some r' → er_fact_index r' = Some (Z.of_nat n) → j' = j) ∧
       ∀ id, id ∈ er_check_ids r → ∃ res, res ∈ rp_results rep ∧ result_validate res = true ∧
         nr_check_id res = id ∧ nr_evidence_digest res = er_artifact r) ∧
    (rp_derivations rep ≠ [] → ∃ d, d ∈ rp_derivations rep ∧ dv_fact_index d = Z.of_nat n ∧
       FactBindingDigest fact (dv_artifact d) = Some (dv_fact_digest d)).
Proof.
  intros [_ Hnorm _ _ _ Hl Hd]%ValidateEvidenceReport_None Hor n fact Hn.
  destruct (validateLineage_None _ _ (Hl Hor)) as (Hnd & Hb & Hall).
  destruct (normalize_loop_true _ _ Hnorm) as (Hval & _ & _). rewrite list.Forall_forall in Hval. rewrite list.Forall_forall in Hb.
  assert (n < length (rp_facts rep))%nat as Hlt by (by eapply lookup_lt_Some). split.
  - apply Hall, list_elem_of_omap in Hlt as (r & Hr & Ei). pose proof (Hb r Hr) as H. unfold record_bound in H.
    destruct (er_fact r) as [f|] eqn:Ef; [|destruct H; congruence]. destruct H as (i & f' & Ei' & Ha & Ek & Hne & Hg).
    apply list_elem_of_lookup in Hr as [j Hj]. exists j, r, f. rewrite Ei in Ei'. simplify_eq.
    rewrite fact_at_nat, Hn in Ha. simplify_eq. do 5 (split; [done|]). split; [intros j' r' Hj' E'; by eapply omap_unique|].
    intros id Hid. destruct (Hg id Hid) as (res & Hres & E1 & E2). exists res. split; [done|]. split; [by apply Hval|done].
  - intros Hne. unfold validateDerivations in Hd. destruct (rp_derivations rep) as [|d0 ds] eqn:Ed; [done|]. rewrite <- Ed in *.
    destruct (derivations_loop rep [] (rp_derivations rep)) as [seen|] eqn:El; [|done]. rewrite check_all_None in Hd.
    specialize (Hd (Z.of_nat n)). rewrite guard_None, negb_false_iff, mem_index_true in Hd.
    destruct (derivations_loop_seen _ _ _ _ El (Z.of_nat n)) as [?%not_elem_of_nil|(d & Hd' & Ei & f & Hf & Hb')]; [|done|].
    + apply Hd, indices_elem. eauto.
    + rewrite fact_at_nat, Hn in Hf. simplify_eq. eauto.
Qed.

(** ** Completeness *)

Lemma union_loop_elem l : ∀ seen x, x ∈ union_loop seen l ↔ x ∈ l ∧ x ∉ seen.
Proof.
  induction l as [|v l IH]; intros seen x; cbn [union_loop]; [set_solver|]. destruct (mem_key v seen) eqn:E.
  - apply mem_key_true in E. rewrite IH. set_solver.
  - assert (v ∉ seen) as Hn by (rewrite <- mem_key_true, E; done). rewrite elem_of_cons, IH.
    destruct (decide (x = v)) as [->|]; set_solver.
Qed.

Lemma unionStrings_elem a b x : x ∈ unionStrings a b ↔ x ∈ a ∨ x ∈ b.
Proof. unfold unionStrings. rewrite union_loop_elem. set_solver. Qed.

Lemma requiredChecksComplete_true required results :
  requiredChecksComplete required results = true ↔ ∀ id, id ∈ required → ∃ r, r ∈ results ∧ nr_check_id r = id.
Proof.
  unfold requiredChecksComplete. rewrite forallb_forall. setoid_rewrite <- list_elem_of_In. setoid_rewrite existsb_exists.
  setoid_rewrite String.eqb_eq. setoid_rewrite <- list_elem_of_In. done.
Qed.

(** A result that says the check succeeded rests on a fresh or cached snapshot. *)
Lemma success_fresh r :
  result_validate r = true → nr_outcome r = NativeCheckSuccess →
  ∃ f, nr_freshness r = Some f ∧ fr_verdict f ∈ [FreshnessFresh; FreshnessCached].
Proof.
  unfold result_validate, ran. intros H Ho. rewrite Ho in H. destruct (nr_freshness r) as [f|]; [|by repeat (case_match; try done)].
  exists f. split; [done|]. destruct (negb (freshness_ok f)); [by repeat (case_match; try done)|].
  rewrite String.eqb_refl in H. cbn [andb orb] in H.
  destruct (String.eqb_spec (fr_verdict f) FreshnessFresh) as [->|]; [set_solver|].
  destruct (String.eqb_spec (fr_verdict f) FreshnessCached) as [->|]; [set_solver|]. by repeat (case_match; try done).
Qed.

(** C37: an accepted report left no required check out.  When the policy accepts a
    report and does not allow incomplete ones, every check that the report, its
    profile or the deployer requires has a result, the profile's inventory is
    covered exactly, every result is attributed and well formed (a success rests on
    a fresh or cached snapshot), and a check is reported as not applicable only
    under the authority the profile names. *)
Theorem accepted_report_complete {Cert} iter rep (policy : ReportPolicy Cert) :
  (∀ m, iter m ≡ₚ m) → VerifyEvidenceReport iter (Some rep) policy = None → pl_allow_incomplete policy = false →
  (∀ id, id ∈ rp_required_ids rep ∨ id ∈ pl_required_ids policy ∨
         (∃ p, rp_profile rep = Some p ∧ id ∈ pf_required_checks p) →
     ∃ r, r ∈ rp_results rep ∧ nr_check_id r = id) ∧
  (∀ p, rp_profile rep = Some p → pf_expectations p ≠ [] → covers_inventory (pf_expectations p) (rp_results rep)) ∧
  (∀ r, r ∈ rp_results rep → result_validate r = true ∧
     (nr_outcome r = NativeCheckSuccess →
        ∃ f, nr_freshness r = Some f ∧ fr_verdict f ∈ [FreshnessFresh; FreshnessCached]) ∧
     ∀ p, rp_profile rep = Some p → nr_outcome r = NativeCheckNotApplicable →
       pf_na_authority p ≠ "" ∧ nr_verifier_profile r = pf_na_authority p).
Proof.
  intros Hiter. unfold VerifyEvidenceReport. rewrite !check_seq_None, !guard_None.
  intros (Hv & _ & _ & Hc & _ & _ & _ & _ & _ & _ & _ & Hinc & _) Hallow.
  apply ValidateEvidenceReport_None in Hv as [Hp Hnorm _ _ _ _ _]. destruct (normalize_loop_true _ _ Hnorm) as (Hval & _ & _).
  rewrite Hallow, andb_true_r in Hinc. apply negb_false_iff in Hinc. rewrite Hinc in Hc.
  apply negb_false_iff, Bool.eqb_prop in Hc. unfold recomputed_complete in Hc.
  assert (requiredChecksComplete (required_set rep policy) (rp_results rep) = true ∧
    ∀ p, rp_profile rep = Some p → pf_expectations p ≠ [] → ∃ a, rp_assessment rep = Some a ∧ na_complete a = true) as [Hreq Ha].
  { destruct (rp_profile rep) as [p|]; [|done]. destruct (_ && _) eqn:E; [done|]. split; [done|]. intros p' [= <-] Hne.
    destruct (pf_expectations p); [done|]. cbn in E. destruct (rp_assessment rep) as [a|]; [|done]. exists a. split; [done|].
    by apply negb_false_iff in E. }
  split; [|split].
  - intros id Hid. rewrite requiredChecksComplete_true in Hreq. apply Hreq. unfold required_set.
    destruct (rp_profile rep) as [p|]; rewrite ?unionStrings_elem; [|naive_solver]. destruct Hid as [?|[?|(p' & [= <-] & ?)]]; tauto.
  - intros p E Hne. destruct (Ha p E Hne) as (a & Ea & Hca). destruct (Hp p E) as (_ & Has & _). unfold validateAssessment in Has.
    rewrite Ea in Has. destruct (pf_expectations p) as [|e es] eqn:Ee; [done|]. apply guard_None, negb_false_iff, bool_decide_eq_true in Has.
    subst a. by apply Assess_complete in Hca.
  - intros r Hr. rewrite list.Forall_forall in Hval. split; [by apply Hval|]. split; [apply success_fresh; auto|].
    intros p E Ho. destruct (Hp p E) as (_ & _ & Hna & _). unfold validateNotApplicableAuthority in Hna. rewrite check_all_None in Hna.
    specialize (Hna r Hr). rewrite guard_None, Ho, String.eqb_refl in Hna. cbn [andb] in Hna.
    apply orb_false_iff in Hna as [H1 H2]. apply negb_false_iff, String.eqb_eq in H2. split; [|done]. intros Ee.
    unfold digest_Empty in H1. by rewrite Ee in H1.
Qed.

(** ** Built reports *)

Lemma requiredChecksComplete_ext a b results :
  (∀ x, x ∈ a ↔ x ∈ b) → requiredChecksComplete a results = requiredChecksComplete b results.
Proof.
  intros H. apply eq_iff_eq_true. rewrite !requiredChecksComplete_true. by setoid_rewrite H.
Qed.

(** What a successful build consists of. *)
Lemma BuildEvidenceReport_inl iter wall inp rep :
  BuildEvidenceReport iter wall inp = inl rep →
  ∃ display ids expectations now,
    profile_inputs inp = inl (display, ids, expectations) ∧
    now = (if IsZero (in_at (ei_now inp)) then mkInstant wall true 0 else ei_now inp) ∧
    rp_appraisal_time rep = Some now ∧ rp_profile rep = ei_profile inp ∧ rp_required_ids rep = ids ∧
    rp_results rep = ei_results inp ∧ rp_requirement rep = ei_requirement inp ∧ rp_facts rep = default [] (ei_facts inp) ∧
    rp_complete rep = (assessCompleteness iter expectations ids (ei_results inp)).2 ∧
    rp_assessment rep = (if (0 <? length expectations)%nat
                         then Some (AssessNativeChecks iter expectations (ei_results inp)) else None) ∧
    satisfaction_for inp now = inl (rp_satisfaction rep) ∧ ValidateEvidenceReport iter (Some rep) = None.
Proof.
  unfold BuildEvidenceReport. unfold normalizeResults. destruct (normalize_loop [] _); [|done].
  destruct (profile_inputs inp) as [[[display ids] expectations]|]; [|done]. destruct (negb (forallb _ _)); [done|].
  set (now := if IsZero _ then _ else _). destruct (assessCompleteness iter expectations ids (ei_results inp)) as [a c] eqn:Ea.
  destruct (satisfaction_for inp now) as [sat|] eqn:Es; [|done]. destruct (mapM _ _) as [records|]; [|done].
  destruct (derivations_for _ _) as [ds|]; [|done]. destruct (negb (assurance_Valid _)); [done|]. destruct (_ && _); [done|].
  set (r := mkReport _ _ _ _ _ _ _ _ _ _ _ _ _ _ _ _ _ _ _ _ _ _).
  destruct (ValidateEvidenceReport iter (Some r)) eqn:Ev; [done|]. intros [= <-].
  exists display, ids, expectations, now. unfold assessCompleteness in Ea. injection Ea as Ea1 Ea2.
  cbn [r rp_appraisal_time rp_profile rp_required_ids rp_results rp_requirement rp_facts rp_complete rp_assessment rp_satisfaction].
  unfold assessCompleteness. cbn [snd]. rewrite <- Ea2, Ea1. repeat (split; [done|]). done.
Qed.

(** C39: what the code builds, it accepts.  A report that is built validates; with a
    profile, or without an inventory, its completeness flag is the one a verifier
    without requirements of its own recomputes; and its verdict is the evaluation
    of its own requirement over its own facts at its own appraisal instant. *)
Theorem built_report_consistent {Cert} iter wall inp rep (policy : ReportPolicy Cert) :
  BuildEvidenceReport iter wall inp = inl rep →
  ValidateEvidenceReport iter (Some rep) = None ∧
  (ei_profile inp ≠ None ∨ ei_expectations inp = [] → pl_required_ids policy = [] →
   recomputed_complete rep policy = rp_complete rep) ∧
  (∀ s, rp_satisfaction rep = Some s → ∃ req t r,
     rp_requirement rep = Some req ∧ rp_appraisal_time rep = Some t ∧
     EvaluateRequirement req (rf_fact <$> rp_facts rep) (mkCtx (in_at t) "" "") = inl r ∧ s = satisfaction_of r).
Proof.
  intros (display & ids & expectations & now & Hp & _ & Et & Ep & Ei & Er & Eq & Ef & Ec & Ea & Es & Hv)%BuildEvidenceReport_inl.
  split; [done|]. split.
  - intros Hor Hreq. unfold recomputed_complete, required_set. rewrite Ec, Ea, Er, Ep, Ei, Hreq.
    unfold profile_inputs in Hp. destruct (ei_profile inp) as [p|].
    + destruct (profile_Validate p); [done|].
      assert (length expectations = length (pf_expectations p) ∧ ids = unionStrings (ei_required_ids inp) (pf_required_checks p)) as [Hl ->].
      { destruct (ei_expectations inp) as [|e es]; [by simplify_eq|]. destruct (sameExpectations _ _) eqn:Ese; [|done]. simplify_eq.
        split; [|done]. unfold sameExpectations, sameStrings in Ese. apply andb_true_iff in Ese as [Hl%Nat.eqb_eq _].
        rewrite !length_fmap in Hl. done. }
      unfold assessCompleteness. cbn [snd]. rewrite <- Hl.
      rewrite (requiredChecksComplete_ext _ (unionStrings (ei_required_ids inp) (pf_required_checks p))).
      2:{ intros x. rewrite !unionStrings_elem. set_solver. }
      destruct (0 <? length expectations)%nat; cbn [andb]; [|done].
      destruct (na_complete _); cbn [negb]; [by rewrite andb_true_r|by rewrite andb_false_r].
    + simplify_eq. destruct Hor as [|Hexp]; [done|]. rewrite Hexp. unfold assessCompleteness. cbn [snd length Nat.ltb Nat.leb].
      apply requiredChecksComplete_ext. intros x. rewrite unionStrings_elem. set_solver.
  - intros s Hs. unfold satisfaction_for in Es. rewrite Hs in Es. rewrite Eq, Et, Ef. destruct (ei_requirement inp) as [req|]; [|done].
    destruct (_ || _); [|done]. destruct (EvaluateRequirement _ _ _) as [r|] eqn:E; [|done]. simplify_eq. by exists req, now, r.
Qed.

(** ** Examples *)

Definition w_profile : Profile :=
  mkProfile "prof" StatusRequired ["status"] [mkExpectation "status" "credential" (w_digest "a")] "" "" "" "" "".
Definition w_requirement : Requirement := mkReq RequirementVersion "r1" "" "human" [].
Definition w_fact : ReportFact := mkReportFact (mkFact "human" "alice" (63899999000 * Second) true) 0.
Definition w_inputs (profile : option Profile) (expectations : list NativeCheckExpectation) : EvidenceInputs :=
  mkEvidenceInputs "p" "jwt" [] (Some w_requirement) None None [] [] expectations [w_result 1 (w_digest "d")] profile
    (Some (mkVerifier "verifier" (w_digest "b"))) "" "jwt" (Some [w_fact]) None
    [mkEvidenceRecord (w_digest "a") "" "" (Some w_fact) None ["status"] ""] [] (mkInstant (63900000000 * Second) true 0).
Definition from_inl {A B} (d : A) (x : A + B) : A := match x with inl a => a | inr _ => d end.
Definition w_built : Report := Eval vm_compute in
  from_inl (w_report 1 "") (BuildEvidenceReport id 0 (w_inputs (Some w_profile) [])).
Definition w_plain_policy : ReportPolicy unit :=
  mkPolicy true false [] [] "" None [] [] [] true [] false None false "E2" ["status"] false 0 0 [] false 0 0 None false [] false.
Definition w_lenient_policy : ReportPolicy unit :=
  mkPolicy false true [] [] "" None [] [] [] false [] false None false "" [] false 0 0 [] false 0 0 None false [] false.

(** Without a profile, a report with an inventory that is not fully reported is
    built and validates, but no policy accepts it: the flag it was built with is
    compared with one that ignores the inventory. *)
Lemma inventory_without_profile :
  match BuildEvidenceReport id 0 (w_inputs None [mkExpectation "status" "credential" (w_digest "a");
                                                 mkExpectation "other" "credential" (w_digest "a")]) with
  | inl rep => rp_complete rep = false ∧ ValidateEvidenceReport id (Some rep) = None ∧
               VerifyEvidenceReport id (Some rep) w_lenient_policy = Some CodeReportIncomplete
  | inr _ => False
  end.
Proof. vm_compute. done. Qed.

Lemma accepted_report_complete_witness : covers_inventory (pf_expectations w_profile) (rp_results w_built).
Proof.
  destruct (accepted_report_complete (λ m, m) w_built w_plain_policy) as (_ & H & _).
  - reflexivity.
  - vm_compute. reflexivity.
  - reflexivity.
  - apply (H w_profile); [reflexivity|discriminate].
Defined.

Lemma built_report_consistent_witness :
  ValidateEvidenceReport id (Some w_built) = None ∧ recomputed_complete w_built w_lenient_policy = true.
Proof.
  destruct (built_report_consistent id 0 (w_inputs (Some w_profile) []) w_built w_lenient_policy) as (H1 & H2 & _).
  - vm_compute. reflexivity.
  - split; [exact H1|]. apply H2; [left; discriminate|reflexivity].
Defined.
