(* ===== verification/ReportDecode.v ===== *)
(** * Evidence reports: reading a report

    [encoding/json] with [DisallowUnknownFields] on the structs of a report.  The
    fields of a struct are read independently of each other: a field takes the
    members of the document that resolve to it, in their order, each into the
    value that is there.  An empty digest value is taken as nil. *)

From S2P Require Import Prelude GoStrings GoFloat GoTime Json Canonical JsonText JsonStruct Utf.
From S2P Require Import NumberText CanonicalText GoTimeText Evidence Sha256 Ids Values Bounds.
From S2P Require Import Requirement Sources Context RecordJson RecordFreeze Record Envelope.
From S2P Require Import Challenge Report ReportData ReportLifecycle.

(** ** Structs *)

Section struct.
Context (names : list string).

(** The field a member resolves to. *)
Definition resolve (key : string) : option string := fst <$> find_field ((λ n, (n, tt)) <$> names) key.
Definition hits (k key : string) : bool :=
  match resolve key with Some n => String.eqb n k | None => false end.
Definition known_member (kv : string * jtext) : bool := match resolve kv.1 with Some _ => true | None => false end.

Fixpoint field {B} (k : string) (upd : B → jtext → option B) (b : B) (m : list (string * jtext)) : option B :=
  match m with
  | [] => Some b
  | (key, j) :: m' => if hits k key then b' ← upd b j; field k upd b' m' else field k upd b m'
  end.

Definition closed_struct {A} (old : A) (read : list (string * jtext) → option A) (j : jtext) : option A :=
  match j with
  | JObj m => if forallb known_member m then read m else None
  | JNull => Some old
  | _ => None
  end.
End struct.

(** ** Members *)

Definition in_bool (old : bool) (j : jtext) : option bool :=
  match j with JBool b => Some b | JNull => Some old | _ => None end.
Definition in_int_ptr (old : option Z) (j : jtext) : option (option Z) :=
  match j with JNum l => Some <$> into_int64 l | JNull => Some None | _ => None end.

Definition in_meta (old : gomap string) (j : jtext) : option (gomap string) := default [] <$> in_string_map (Some old) j.

Definition zero_instant : Instant := mkInstant 0 true 0.
Definition in_instant (old : Instant) (j : jtext) : option Instant :=
  t ← in_time (in_at old, in_utc old, in_off old) j; Some (mkInstant t.1.1 t.1.2 t.2).

(** ** The structs of a report *)

Definition digest_names : list string := ["alg"; "value"].
Definition closed_digest (d : Digest) : jtext → option Digest :=
  closed_struct digest_names d (λ m,
    a ← field digest_names "alg" in_string (dg_alg d) m;
    v ← field digest_names "value" (λ _, in_bytes) (dg_value d) m;
    Some (mkDigest a v)).

Definition expectation_names : list string := ["checkId"; "componentType"; "evidenceDigest"].
Definition zero_expectation : NativeCheckExpectation := mkExpectation "" "" "".
Definition into_expectation (e : NativeCheckExpectation) : jtext → option NativeCheckExpectation :=
  closed_struct expectation_names e (λ m,
    c ← field expectation_names "checkId" in_string (ne_check_id e) m;
    t ← field expectation_names "componentType" in_string (ne_component_type e) m;
    d ← field expectation_names "evidenceDigest" in_string (ne_evidence_digest e) m;
    Some (mkExpectation c t d)).

Definition profile_names : list string :=
  ["id"; "statusModel"; "requiredChecks"; "expectations"; "notApplicableAuthority"; "actionMappingDigest";
   "reasonNamespace"; "reasonRegistryDigest"; "profileDigest"].
Definition zero_profile : Profile := mkProfile "" "" [] [] "" "" "" "" "".
Definition into_profile (p : Profile) : jtext → option Profile :=
  closed_struct profile_names p (λ m,
    i ← field profile_names "id" in_string (pf_id p) m;
    s ← field profile_names "statusModel" in_string (pf_status_model p) m;
    c ← field profile_names "requiredChecks" in_strings (pf_required_checks p) m;
    e ← field profile_names "expectations" (in_elems into_expectation zero_expectation) (pf_expectations p) m;
    n ← field profile_names "notApplicableAuthority" in_string (pf_na_authority p) m;
    a ← field profile_names "actionMappingDigest" in_string (pf_action_mapping p) m;
    r ← field profile_names "reasonNamespace" in_string (pf_reason_namespace p) m;
    g ← field profile_names "reasonRegistryDigest" in_string (pf_reason_registry p) m;
    d ← field profile_names "profileDigest" in_string (pf_digest p) m;
    Some (mkProfile i s c e n a r g d)).

Definition verifier_names : list string := ["principal"; "verifierProfileDigest"].
Definition zero_verifier : VerifierIdentity := mkVerifier "" "".
Definition into_verifier (v : VerifierIdentity) : jtext → option VerifierIdentity :=
  closed_struct verifier_names v (λ m,
    p ← field verifier_names "principal" in_string (vi_principal v) m;
    d ← field verifier_names "verifierProfileDigest" in_string (vi_profile v) m;
    Some (mkVerifier p d)).

Definition observation_names : list string :=
  ["nativeActionDigest"; "clcActionId"; "actionType"; "materialFields"; "materialProfileId"; "mappingProfileDigest"].
Definition zero_observation : ProjectedObservation := mkObservation "" "" "" [] "" "".
Definition into_observation (o : ProjectedObservation) : jtext → option ProjectedObservation :=
  closed_struct observation_names o (λ m,
    n ← field observation_names "nativeActionDigest" in_string (ob_native_action o) m;
    c ← field observation_names "clcActionId" in_string (ob_clc_action o) m;
    t ← field observation_names "actionType" in_string (ob_action_type o) m;
    f ← field observation_names "materialFields" in_strings (ob_material_fields o) m;
    p ← field observation_names "materialProfileId" in_string (ob_material_profile o) m;
    d ← field observation_names "mappingProfileDigest" in_string (ob_mapping_profile o) m;
    Some (mkObservation n c t f p d)).

Definition fact_names : list string := ["Type"; "Subject"; "IssuedAt"; "Verified"].
Definition zero_fact : ReportFact := mkReportFact (mkFact "" "" 0 false) 0.
Definition into_fact (f : ReportFact) : jtext → option ReportFact :=
  closed_struct fact_names f (λ m,
    t ← field fact_names "Type" in_string (f_type (rf_fact f)) m;
    s ← field fact_names "Subject" in_string (f_subject (rf_fact f)) m;
    i ← field fact_names "IssuedAt" in_instant (mkInstant (f_issued (rf_fact f)) true (rf_off f)) m;
    v ← field fact_names "Verified" in_bool (f_verified (rf_fact f)) m;
    Some (mkReportFact (mkFact t s (in_at i) v) (in_off i))).

Definition record_names : list string :=
  ["artifactDigest"; "nativeRecordDigest"; "observationId"; "fact"; "factIndex"; "nativeCheckIds"; "relationTupleDigest"].
Definition zero_evidence_record : ProjectedEvidenceRecord := mkEvidenceRecord "" "" "" None None [] "".
Definition into_evidence_record (r : ProjectedEvidenceRecord) : jtext → option ProjectedEvidenceRecord :=
  closed_struct record_names r (λ m,
    a ← field record_names "artifactDigest" in_string (er_artifact r) m;
    n ← field record_names "nativeRecordDigest" in_string (er_native_record r) m;
    o ← field record_names "observationId" in_string (er_observation r) m;
    f ← field record_names "fact" (in_ptr into_fact zero_fact) (er_fact r) m;
    i ← field record_names "factIndex" in_int_ptr (er_fact_index r) m;
    c ← field record_names "nativeCheckIds" in_strings (er_check_ids r) m;
    t ← field record_names "relationTupleDigest" in_string (er_relation_tuple r) m;
    Some (mkEvidenceRecord a n o f i c t)).

Definition derivation_names : list string :=
  ["carrierId"; "artifactDigest"; "verifierProfileDigest"; "mappingProfileDigest"; "factIndex"; "factDigest"; "nativeCheckIds"].
Definition zero_derivation : Derivation := mkDerivation "" "" "" "" 0 "" [].
Definition into_derivation (d : Derivation) : jtext → option Derivation :=
  closed_struct derivation_names d (λ m,
    c ← field derivation_names "carrierId" in_string (dv_carrier d) m;
    a ← field derivation_names "artifactDigest" in_string (dv_artifact d) m;
    v ← field derivation_names "verifierProfileDigest" in_string (dv_verifier_profile d) m;
    p ← field derivation_names "mappingProfileDigest" in_string (dv_mapping_profile d) m;
    i ← field derivation_names "factIndex" in_int64 (dv_fact_index d) m;
    f ← field derivation_names "factDigest" in_string (dv_fact_digest d) m;
    n ← field derivation_names "nativeCheckIds" in_strings (dv_check_ids d) m;
    Some (mkDerivation c a v p i f n)).

Definition freshness_names : list string := ["verdict"; "checkedAt"; "validUntil"; "snapshotGeneration"].
Definition zero_freshness : FreshnessDecision := mkFreshness "" None None 0.
Definition into_freshness (f : FreshnessDecision) : jtext → option FreshnessDecision :=
  closed_struct freshness_names f (λ m,
    v ← field freshness_names "verdict" in_string (fr_verdict f) m;
    c ← field freshness_names "checkedAt" (in_ptr in_instant zero_instant) (fr_checked_at f) m;
    u ← field freshness_names "validUntil" (in_ptr in_instant zero_instant) (fr_valid_until f) m;
    g ← field freshness_names "snapshotGeneration" in_int64 (fr_generation f) m;
    Some (mkFreshness v c u g)).

Definition result_names : list string :=
  ["checkId"; "componentType"; "evidenceDigest"; "outcome"; "reason"; "verifier"; "verifierProfileDigest";
   "trustSnapshotDigest"; "statusSnapshotDigest"; "statusSnapshotSource"; "statusSnapshotGeneration"; "verificationTime";
   "freshnessDecision"; "replayDigest"].
Definition zero_result : NativeCheckResult := mkResult "" "" "" "" "" "" "" "" "" "" 0 zero_instant None "".
Definition into_result (r : NativeCheckResult) : jtext → option NativeCheckResult :=
  closed_struct result_names r (λ m,
    c ← field result_names "checkId" in_string (nr_check_id r) m;
    t ← field result_names "componentType" in_string (nr_component_type r) m;
    e ← field result_names "evidenceDigest" in_string (nr_evidence_digest r) m;
    o ← field result_names "outcome" in_string (nr_outcome r) m;
    w ← field result_names "reason" in_string (nr_reason r) m;
    v ← field result_names "verifier" in_string (nr_verifier r) m;
    p ← field result_names "verifierProfileDigest" in_string (nr_verifier_profile r) m;
    n ← field result_names "trustSnapshotDigest" in_string (nr_trust_snapshot r) m;
    s ← field result_names "statusSnapshotDigest" in_string (nr_status_snapshot r) m;
    a ← field result_names "statusSnapshotSource" in_string (nr_snapshot_source r) m;
    g ← field result_names "statusSnapshotGeneration" in_int64 (nr_snapshot_generation r) m;
    i ← field result_names "verificationTime" in_instant (nr_verification_time r) m;
    f ← field result_names "freshnessDecision" (in_ptr into_freshness zero_freshness) (nr_freshness r) m;
    y ← field result_names "replayDigest" in_string (nr_replay r) m;
    Some (mkResult c t e o w v p n s a g i f y)).

Definition conflict_names : list string := ["checkId"; "componentType"; "evidenceDigest"; "outcomes"].
Definition zero_conflict : NativeCheckConflict := mkConflict "" "" "" None.
Definition into_conflict (c : NativeCheckConflict) : jtext → option NativeCheckConflict :=
  closed_struct conflict_names c (λ m,
    i ← field conflict_names "checkId" in_string (nc_check_id c) m;
    t ← field conflict_names "componentType" in_string (nc_component_type c) m;
    e ← field conflict_names "evidenceDigest" in_string (nc_evidence_digest c) m;
    o ← field conflict_names "outcomes" (in_slice in_string "") (nc_outcomes c) m;
    Some (mkConflict i t e o)).

Definition assessment_names : list string := ["complete"; "missingExpectations"; "unexpectedResults"; "conflictingResults"].
Definition zero_assessment : NativeCheckAssessment := mkAssessment false None None None.
Definition into_assessment (a : NativeCheckAssessment) : jtext → option NativeCheckAssessment :=
  closed_struct assessment_names a (λ m,
    c ← field assessment_names "complete" in_bool (na_complete a) m;
    e ← field assessment_names "missingExpectations" (in_slice into_expectation zero_expectation) (na_missing a) m;
    r ← field assessment_names "unexpectedResults" (in_slice into_result zero_result) (na_unexpected a) m;
    x ← field assessment_names "conflictingResults" (in_slice into_conflict zero_conflict) (na_conflicting a) m;
    Some (mkAssessment c e r x)).

Definition rconstraint_names : list string := ["role"; "constraint"].
Definition zero_rconstraint : RequirementConstraint := mkRC "" "".
Definition into_rconstraint (c : RequirementConstraint) : jtext → option RequirementConstraint :=
  closed_struct rconstraint_names c (λ m,
    r ← field rconstraint_names "role" in_string (rc_role c) m;
    t ← field rconstraint_names "constraint" in_string (rc_constraint c) m;
    Some (mkRC r t)).

Definition requirement_names : list string := ["@version"; "requirement_id"; "purpose"; "expression"; "constraints"].
Definition zero_requirement : Requirement := mkReq "" "" "" "" [].
Definition into_requirement (r : Requirement) : jtext → option Requirement :=
  closed_struct requirement_names r (λ m,
    v ← field requirement_names "@version" in_string (req_version r) m;
    i ← field requirement_names "requirement_id" in_string (req_id r) m;
    p ← field requirement_names "purpose" in_string (req_purpose r) m;
    e ← field requirement_names "expression" in_string (req_expression r) m;
    c ← field requirement_names "constraints" (in_elems into_rconstraint zero_rconstraint) (req_constraints r) m;
    Some (mkReq v i p e c)).

Definition evaluation_names : list string := ["constraint"; "verdict"; "reason"].
Definition zero_evaluation : ReportEvaluation := mkReportEval "" "" "".
Definition into_evaluation (e : ReportEvaluation) : jtext → option ReportEvaluation :=
  closed_struct evaluation_names e (λ m,
    c ← field evaluation_names "constraint" in_string (re_constraint e) m;
    v ← field evaluation_names "verdict" in_string (re_verdict e) m;
    r ← field evaluation_names "reason" in_string (re_reason e) m;
    Some (mkReportEval c v r)).

Definition satisfaction_names : list string :=
  ["requirement_id"; "digest"; "verdict"; "expression"; "missing_roles"; "constraints"].
Definition zero_satisfaction : ReportSatisfaction := mkSatisfaction "" zero_digest "" false [] [].
Definition into_satisfaction (s : ReportSatisfaction) : jtext → option ReportSatisfaction :=
  closed_struct satisfaction_names s (λ m,
    i ← field satisfaction_names "requirement_id" in_string (sa_requirement_id s) m;
    d ← field satisfaction_names "digest" closed_digest (sa_digest s) m;
    v ← field satisfaction_names "verdict" in_string (sa_verdict s) m;
    e ← field satisfaction_names "expression" in_bool (sa_expression s) m;
    r ← field satisfaction_names "missing_roles" in_strings (sa_missing s) m;
    c ← field satisfaction_names "constraints" (in_elems into_evaluation zero_evaluation) (sa_constraints s) m;
    Some (mkSatisfaction i d v e r c)).

(** ** The report *)

Definition report_names : list string :=
  ["@version"; "assurance"; "projectorId"; "profile"; "verifier"; "appraisalTime"; "sourceFormat"; "meta"; "requirement";
   "sourceRequirementDigest"; "projectedRequirementDigest"; "nativeCheckResults"; "nativeCheckAssessment";
   "nativeChecksComplete"; "observation"; "evidenceRecords"; "derivations"; "facts"; "residuals"; "requiredNativeChecks";
   "requiredCheckIds"; "satisfaction"].
Definition zero_report : Report :=
  mkReport "" "" "" None None None "" [] None None None [] None false None [] [] [] [] [] [] None.
Definition into_report (r : Report) : jtext → option Report :=
  closed_struct report_names r (λ m,
    ver ← field report_names "@version" in_string (rp_version r) m;
    asr ← field report_names "assurance" in_string (rp_assurance r) m;
    prj ← field report_names "projectorId" in_string (rp_projector r) m;
    prf ← field report_names "profile" (in_ptr into_profile zero_profile) (rp_profile r) m;
    vid ← field report_names "verifier" (in_ptr into_verifier zero_verifier) (rp_verifier r) m;
    tim ← field report_names "appraisalTime" (in_ptr in_instant zero_instant) (rp_appraisal_time r) m;
    fmt ← field report_names "sourceFormat" in_string (rp_source_format r) m;
    met ← field report_names "meta" in_meta (rp_meta r) m;
    req ← field report_names "requirement" (in_ptr into_requirement zero_requirement) (rp_requirement r) m;
    sdg ← field report_names "sourceRequirementDigest" (in_ptr closed_digest zero_digest) (rp_source_digest r) m;
    pdg ← field report_names "projectedRequirementDigest" (in_ptr closed_digest zero_digest) (rp_projected_digest r) m;
    res ← field report_names "nativeCheckResults" (in_elems into_result zero_result) (rp_results r) m;
    ass ← field report_names "nativeCheckAssessment" (in_ptr into_assessment zero_assessment) (rp_assessment r) m;
    cmp ← field report_names "nativeChecksComplete" in_bool (rp_complete r) m;
    obs ← field report_names "observation" (in_ptr into_observation zero_observation) (rp_observation r) m;
    rec ← field report_names "evidenceRecords" (in_elems into_evidence_record zero_evidence_record) (rp_records r) m;
    der ← field report_names "derivations" (in_elems into_derivation zero_derivation) (rp_derivations r) m;
    fct ← field report_names "facts" (in_elems into_fact zero_fact) (rp_facts r) m;
    rsd ← field report_names "residuals" in_strings (rp_residuals r) m;
    rnc ← field report_names "requiredNativeChecks" in_strings (rp_required_native r) m;
    ids ← field report_names "requiredCheckIds" in_strings (rp_required_ids r) m;
    sat ← field report_names "satisfaction" (in_ptr into_satisfaction zero_satisfaction) (rp_satisfaction r) m;
    Some (mkReport ver asr prj prf vid tim fmt met req sdg pdg res ass cmp obs rec der fct rsd rnc ids sat)).
