(* ===== verification/ReportRead.v ===== *)
(** * Evidence reports: a report is read back from its canonical form

    The reader of ReportDecode.v inverts the encoder of ReportData.v on the reports
    the canonical form can carry: UTC instants, integers that binary64 holds,
    a metadata map listed in canonical order. *)

From S2P Require Import Prelude GoStrings GoFloat GoTime Json Canonical JsonText JsonStruct Utf.
From S2P Require Import NumberText CanonicalText GoTimeText Evidence Sha256 Ids Values Bounds.
From S2P Require Import Requirement Sources Context RecordJson RecordFreeze Record Envelope.
From S2P Require Import Challenge Report ReportData ReportLifecycle ReportDecode.

(** ** Structs *)

(** A value whose canonical text is read back as it is. *)
Definition sound (v : any) : Prop := numbers_in_range v = true ∧ keyed v = true.
Definition sound_opt (o : option (string * any)) : Prop := match o with None => True | Some kv => sound kv.2 end.
Definition reads {B} (upd : B → jtext → option B) (b : B) (v : any) (val : B) : Prop :=
  sound v ∧ upd b (jtext_of v) = Some val.
Definition entry {B} (upd : B → jtext → option B) (b : B) (o : option (string * any)) (val : B) : Prop :=
  match o with None => val = b | Some kv => reads upd b kv.2 val end.

Lemma entry_sound {B} (upd : B → jtext → option B) b o val : entry upd b o val → sound_opt o.
Proof. destruct o as [kv|]; [|done]. by intros [H _]. Qed.

Definition members_of (l : list (option (string * any))) : list (string * jtext) :=
  omap id (fmap (λ kv, (kv.1, jtext_of kv.2)) <$> l).
Definition resolves (names : list string) (k : string) : bool := bool_decide (resolve names k = Some k).

(** The member under a key. *)
Fixpoint entry_of (k : string) (keys : list string) (l : list (option (string * any))) : option (string * any) :=
  match keys, l with
  | k' :: ks, o :: l' => if String.eqb k' k then o else entry_of k ks l'
  | _, _ => None
  end.

Lemma field_absent {B} names keys l k (upd : B → jtext → option B) b :
  under keys l → forallb (resolves names) keys = true → k ∉ keys → field names k upd b (members_of l) = Some b.
Proof.
  intros Hu. induction Hu as [|k' [kv|] keys l Ho Hu IH]; intros Hr Hk; [done|..]; cbn [forallb] in Hr;
    apply andb_true_iff in Hr as [Hr1%bool_decide_eq_true Hr]; unfold members_of;
    cbn [fmap list_fmap option_fmap option_map omap list_omap id]; [|apply IH; set_solver].
  subst k'. cbn [field]. unfold hits. rewrite Hr1.
  destruct (String.eqb_spec kv.1 k) as [E|]; [rewrite E in Hk|apply IH]; set_solver.
Qed.

Lemma field_entry {B} names keys l k (upd : B → jtext → option B) b val :
  good_template keys = true → under keys l → forallb (resolves names) keys = true →
  entry upd b (entry_of k keys l) val → field names k upd b (members_of l) = Some val.
Proof.
  unfold good_template. rewrite !andb_true_iff. intros [[_ Hnd%bool_decide_eq_true] _] Hu. revert Hnd.
  induction Hu as [|k' o keys l Ho Hu IH]; intros Hnd Hr He; [cbn in *; congruence|].
  apply list.NoDup_cons in Hnd as [Hk Hnd]. cbn [forallb] in Hr. apply andb_true_iff in Hr as [Hr1%bool_decide_eq_true Hr].
  unfold members_of. cbn [entry_of] in He. destruct o as [kv|]; cbn [fmap list_fmap option_fmap option_map omap list_omap id].
  - subst k'. cbn [field]. unfold hits. rewrite Hr1. destruct (String.eqb_spec kv.1 k) as [<-|Hne]; [|by apply IH].
    destruct He as [_ ->]. by apply (field_absent names keys).
  - destruct (String.eqb_spec k' k) as [->|]; [|by apply IH]. cbn in He. subst val. by apply (field_absent names keys).
Qed.

Lemma known_members names keys l :
  under keys l → forallb (resolves names) keys = true → forallb (known_member names) (members_of l) = true.
Proof.
  intros Hu. induction Hu as [|k' [kv|] keys l Ho Hu IH]; intros Hr; [done|..]; cbn [forallb] in Hr;
    apply andb_true_iff in Hr as [Hr1%bool_decide_eq_true Hr]; unfold members_of;
    cbn [fmap list_fmap option_fmap option_map omap list_omap id forallb]; [|auto].
  apply andb_true_iff. split; [|auto]. subst k'. unfold known_member. cbn [fst]. by rewrite Hr1.
Qed.

Lemma sound_omitempty keys l : good_template keys = true → under keys l → Forall sound_opt l → sound (omitempty l).
Proof.
  unfold good_template, omitempty. rewrite !andb_true_iff. intros [[_ Hnd%bool_decide_eq_true] _] Hu Hs.
  assert (mkeys (omap id l) `sublist_of` keys) as Hsub.
  { clear -Hu. unfold mkeys. induction Hu as [|k [kv|] keys l E Hu IH]; [done| |by constructor]. cbn. subst. by constructor. }
  assert (∀ kv, kv ∈ omap id l → sound kv.2) as Hall.
  { intros kv Hkv. apply list_elem_of_omap in Hkv as (o & Ho & Eo). rewrite list.Forall_forall in Hs. specialize (Hs o Ho).
    unfold id in Eo. by subst o. }
  split; cbn [numbers_in_range keyed].
  - apply forallb_forall. intros kv Hkv%list_elem_of_In. by apply Hall.
  - apply andb_true_iff. split; [apply bool_decide_eq_true; by eapply sublist_NoDup|].
    apply forallb_forall. intros kv Hkv%list_elem_of_In. by apply Hall.
Qed.

Lemma struct_reads {A} names keys l (old new : A) read :
  good_template keys = true → under keys l → forallb (resolves names) keys = true → Forall sound_opt l →
  read (members_of l) = Some new →
  sound (omitempty l) ∧ closed_struct names old read (jtext_of (omitempty l)) = Some new.
Proof.
  intros Ht Hu Hr Hs Hread. split; [by eapply sound_omitempty|]. rewrite (jtext_omitempty keys) by done.
  unfold closed_struct. change (omap id _) with (members_of l). by rewrite (known_members names keys).
Qed.

(** ** Members *)

Definition int_ok (z : Z) : Prop := 0 <= z <= max_int64 ∧ int_exact z = true ∧ in_binary64 (of_Z z) = true.
Definition instant_ok (i : Instant) : Prop := in_utc i = true ∧ in_off i = 0 ∧ in_calendar (in_at i).

Lemma int_text k z : int_ok z → sound (AInt k z) ∧ jtext_of (AInt k z) = JNum (Itoa z) ∧ into_int64 (Itoa z) = Some z.
Proof.
  intros (Hz & E & Hb). split; [|split].
  - split; [|done]. done.
  - cbn. by apply String.eqb_eq in E as ->.
  - destruct (decide (z = 0)) as [->|]; [reflexivity|]. pose proof (int64_exact z ltac:(lia) E) as H.
    cbn [jtext_of canon_number in_int64] in H. by apply String.eqb_eq in E as <-.
Qed.

Lemma entry_str k s : entry in_string "" (member k (AStr s)) s.
Proof. done. Qed.
Lemma entry_str_omit k s : entry in_string "" (member_str k s) s.
Proof. unfold member_str. by destruct (String.eqb_spec s ""). Qed.
Lemma entry_bool k v : entry in_bool false (member k (ABool v)) v.
Proof. done. Qed.
Lemma entry_int k kind z : int_ok z → entry in_int64 0 (member k (AInt kind z)) z.
Proof. intros (Hs & Hj & Hi)%(int_text kind). split; [done|]. cbn [snd]. by rewrite Hj. Qed.
Lemma entry_int_omit k z : int_ok z → entry in_int64 0 (member_int k z) z.
Proof. intros H. unfold member_int. destruct (Z.eqb_spec z 0); [done|]. by apply (entry_int k). Qed.
Lemma entry_int_ptr k z : (∀ i, z = Some i → int_ok i) → entry in_int_ptr None (member_ptr k z) z.
Proof.
  intros H. destruct z as [i|]; [|done]. destruct (int_text KInt64 i (H i eq_refl)) as (Hs & Hj & Hi).
  split; [done|]. cbn [snd]. by rewrite Hj; cbn; rewrite Hi.
Qed.

Lemma sound_list l : Forall sound l → sound (AList l).
Proof.
  intros H. rewrite list.Forall_forall in H. split; cbn [numbers_in_range keyed]; apply forallb_forall; intros x Hx%list_elem_of_In;
    by apply H.
Qed.

Lemma elems_read {A} (f : A → jtext → option A) zero l js :
  Forall2 (λ x j, reads f zero j x) l js → elems_into f zero [] (jtext_of <$> js) = Some l.
Proof. induction 1 as [|x j l js [_ Hx] Hl IH]; [done|]. cbn [fmap list_fmap elems_into hd tl]. by rewrite Hx, IH. Qed.

(** Arrays of structs, where the encoder of an element may fail. *)
Lemma entry_list {A} (f : A → jtext → option A) (g : A → option any) zero k l o :
  (∀ x j, x ∈ l → g x = Some j → reads f zero j x) → list_json g k l = Some o → entry (in_elems f zero) [] o l.
Proof.
  unfold list_json. intros H E. destruct l as [|x l]; [by simplify_eq|].
  destruct (mapM g (x :: l)) as [js|] eqn:Em; [|done]. cbn [mbind option_bind] in E. simplify_eq.
  assert (Forall2 (λ x j, reads f zero j x) (x :: l) js) as Hf.
  { apply mapM_Some in Em. revert H. generalize (x :: l) js Em. clear. intros l js Hl. induction Hl as [|x j l js Hx Hl IH]; [by constructor|].
    intros H. constructor; [apply H; [left|done]|]. apply IH. intros y z Hy. apply H. by right. }
  split; cbn [snd]; [|by apply elems_read]. apply sound_list. clear -Hf. induction Hf as [|? ? ? ? [? _]]; by constructor.
Qed.
Lemma entry_list_plain {A} (f : A → jtext → option A) (g : A → any) zero k l :
  (∀ x, x ∈ l → reads f zero (g x) x) →
  entry (in_elems f zero) [] (match l with [] => None | x :: l' => member k (AList (g <$> x :: l')) end) l.
Proof.
  intros H. apply (entry_list f (λ x, Some (g x)) zero k).
  - intros x j Hx [= <-]. by apply H.
  - unfold list_json. destruct l as [|x l]; [done|]. assert (mapM (λ x, Some (g x)) (x :: l) = Some (g <$> x :: l)) as ->; [|done].
    apply mapM_Some_2, Forall2_fmap_r, Forall_Forall2_diag. by apply list.Forall_forall.
Qed.
(** A slice that is left out when empty, nil told apart. *)
Lemma entry_list_nil {A} (f : A → jtext → option A) (g : A → option any) zero k (l : option (list A)) o :
  l ≠ Some [] → (∀ x j, x ∈ default [] l → g x = Some j → reads f zero j x) → list_json g k (default [] l) = Some o →
  entry (in_slice f zero) None o l.
Proof.
  intros Hne H E. pose proof (entry_list f g zero k _ o H E) as He. destruct l as [[|x l]|]; [done| |by simplify_eq/=].
  change (default [] (Some (x :: l))) with (x :: l) in *. unfold list_json in E. destruct (mapM g _) as [js|]; [|done]. cbn [mbind option_bind] in E. simplify_eq.
  destruct He as [Hs He]. split; [done|]. cbn [snd jtext_of in_elems in_slice] in *. change (default [] None) with (@nil A). by rewrite He.
Qed.

Lemma entry_texts k l : entry in_strings [] (member_strs k l) l.
Proof.
  assert (member_strs k l = match l with [] => None | x :: l' => member k (AList (AStr <$> x :: l')) end) as -> by (by destruct l).
  by apply entry_list_plain.
Qed.

(** Pointers. *)
Lemma entry_ptr {A} (f : A → jtext → option A) (g : A → option any) zero k (x : option A) o :
  (∀ a j, x = Some a → g a = Some j → reads f zero j a ∧ jtext_of j ≠ JNull) → opt_json g k x = Some o →
  entry (in_ptr f zero) None o x.
Proof.
  unfold opt_json. intros H E. destruct x as [a|]; [|by simplify_eq]. destruct (g a) as [j|] eqn:Eg; [|done].
  cbn [mbind option_bind] in E. simplify_eq. destruct (H a j eq_refl Eg) as [[Hs Hr] Hn]. split; [done|]. cbn [snd]. unfold in_ptr.
  cbn [default]. unfold id. destruct (jtext_of j); [done|..]; by rewrite Hr.
Qed.
Lemma entry_ptr_plain {A} (f : A → jtext → option A) (g : A → any) zero k (x : option A) :
  (∀ a, x = Some a → reads f zero (g a) a ∧ jtext_of (g a) ≠ JNull) →
  entry (in_ptr f zero) None ((λ a, (k, g a)) <$> x) x.
Proof.
  intros H. apply (entry_ptr f (λ a, Some (g a)) zero k); [|by destruct x]. intros a j E [= <-]. by apply H.
Qed.

Lemma reads_instant i b j : instant_ok i → instant_json i = Some j → reads in_instant b j i ∧ jtext_of j ≠ JNull.
Proof.
  intros (Hu & Ho & Hc). destruct (time_text_roundtrip _ Hc) as (s & c & Ht & Hp & Hz & Hc' & Hoff). destruct i as [t u off].
  cbn in *. subst. unfold instant_json. cbn [in_at in_off]. rewrite Ht. cbn. intros [= <-]. split; [|done]. split; [done|].
  unfold in_instant. cbn [jtext_of in_time]. rewrite Hp. cbn [mbind option_bind]. rewrite Hc'. cbn. by rewrite Hz, Hoff.
Qed.

(** ** The structs of a report *)

Create HintDb entries.
#[export] Hint Resolve entry_str entry_str_omit entry_bool entry_int entry_int_omit entry_int_ptr entry_texts : entries.

Lemma object_not_null l : jtext_of (omitempty l) ≠ JNull.
Proof. done. Qed.

(** The keys of a template, with members that are left out. *)
Definition keyed_by (k : string) (o : option (string * any)) : Prop := match o with None => True | Some kv => kv.1 = k end.
Lemma keyed_member k v : keyed_by k (member k v).
Proof. done. Qed.
Lemma keyed_str k s : keyed_by k (member_str k s).
Proof. unfold member_str. by destruct (String.eqb s ""). Qed.
Lemma keyed_int k z : keyed_by k (member_int k z).
Proof. unfold member_int. by destruct (z =? 0). Qed.
Lemma keyed_texts k l : keyed_by k (member_strs k l).
Proof. by destruct l. Qed.
Lemma keyed_fmap {A} k (g : A → any) x : keyed_by k ((λ a, (k, g a)) <$> x).
Proof. by destruct x. Qed.
Lemma keyed_list_plain {A} k (g : A → any) l :
  keyed_by k (match l with [] => None | x :: l' => member k (AList (g <$> x :: l')) end).
Proof. by destruct l. Qed.
Lemma keyed_opt {A} (f : A → option any) k x o : opt_json f k x = Some o → keyed_by k o.
Proof.
  unfold opt_json. destruct x as [a|]; [|by intros [= <-]]. destruct (f a); [|done]. cbn [mbind option_bind]. by intros [= <-].
Qed.
Lemma keyed_list {A} (f : A → option any) k l o : list_json f k l = Some o → keyed_by k o.
Proof.
  unfold list_json. destruct l; [by intros [= <-]|]. destruct (mapM f _); [|done]. cbn [mbind option_bind]. by intros [= <-].
Qed.
Lemma keyed_meta m : keyed_by "meta" (meta_json m).
Proof. by destruct m. Qed.
#[export] Hint Resolve keyed_member keyed_str keyed_int keyed_texts keyed_fmap keyed_list_plain keyed_opt keyed_list
  keyed_meta : entries.

Ltac template_of :=
  unfold under; repeat first [apply Forall2_nil_2|apply Forall2_cons_2];
  match goal with |- match ?o with None => True | Some kv => kv.1 = ?k end => change (keyed_by k o) end;
  unfold member_ptr, member_digest; eauto with entries.

Ltac read_entry := cbv [entry_of String.eqb Ascii.eqb Bool.eqb]; eauto with entries.

(** The side goals of [struct_reads] for concrete names and keys; [side] proves
    the entries. *)
Ltac read_struct names keys :=
  apply (struct_reads names keys);
  [vm_compute; reflexivity
  |template_of
  |vm_compute; reflexivity
  |repeat first [apply list.Forall_nil; exact I|apply list.Forall_cons; split]; try (eapply entry_sound; read_entry)
  |repeat (erewrite (field_entry names keys);
     [cbn [mbind option_bind]|vm_compute; reflexivity|template_of|vm_compute; reflexivity|read_entry]); try reflexivity].

Lemma entry_bytes v : Forall is_byte v → entry (λ _, in_bytes) [] (member "value" (bytes_json v)) v.
Proof.
  intros H. destruct v as [|x v]; [done|]. split; [done|]. cbn [snd member bytes_json jtext_of in_bytes]. unfold StdEncoding.
  by rewrite b64_decode_encode.
Qed.
#[export] Hint Resolve entry_bytes : entries.

Lemma reads_digest d : digest_bytes d → reads closed_digest zero_digest (digest_json d) d.
Proof.
  unfold digest_bytes. destruct d as [alg v]. cbn [dg_value]. intros H.
  read_struct digest_names ["alg"; "value"].
Qed.

Lemma reads_expectation e : reads into_expectation zero_expectation (expectation_json e) e.
Proof. destruct e as [c t d]. read_struct expectation_names ["checkId"; "componentType"; "evidenceDigest"]. Qed.
#[export] Hint Resolve reads_expectation reads_digest : entries.

Lemma reads_profile p : reads into_profile zero_profile (profile_json p) p.
Proof.
  destruct p as [i s c e n a r g d]. unfold profile_json. cbn [pf_expectations].
  pose proof (entry_list_plain into_expectation expectation_json zero_expectation "expectations" e (λ x _, reads_expectation x)).
  read_struct profile_names ["actionMappingDigest"; "expectations"; "id"; "notApplicableAuthority"; "profileDigest";
    "reasonNamespace"; "reasonRegistryDigest"; "requiredChecks"; "statusModel"].
Qed.
Lemma reads_verifier v : reads into_verifier zero_verifier (verifier_json v) v.
Proof. destruct v as [p d]. read_struct verifier_names ["principal"; "verifierProfileDigest"]. Qed.
Lemma reads_observation o : reads into_observation zero_observation (observation_json o) o.
Proof.
  destruct o as [n c t f p d].
  read_struct observation_names ["actionType"; "clcActionId"; "mappingProfileDigest"; "materialFields"; "materialProfileId";
    "nativeActionDigest"].
Qed.

Definition fact_ok (f : ReportFact) : Prop := rf_off f = 0 ∧ in_calendar (f_issued (rf_fact f)).
Lemma reads_fact f j : fact_ok f → fact_json f = Some j → reads into_fact zero_fact j f.
Proof.
  destruct f as [[t s i v] off]. intros [Ho Hc] E. cbn [rf_off rf_fact f_issued] in *. subst off.
  unfold fact_json in E. cbn [rf_off rf_fact f_issued f_type f_subject f_verified] in E.
  destruct (reads_instant (mkInstant i true 0) zero_instant (AStr (default "" (time_text i 0)))) as [Hr _]; [done| |].
  { unfold instant_json. cbn [in_at in_off]. by destruct (time_text i 0). }
  destruct (time_text i 0) as [text|]; [|done]. cbn [mbind option_bind] in E. simplify_eq.
  assert (entry in_instant zero_instant (member "IssuedAt" (AStr text)) (mkInstant i true 0)) as He by exact Hr.
  read_struct fact_names ["IssuedAt"; "Subject"; "Type"; "Verified"].
Qed.

Definition evidence_record_ok (r : ProjectedEvidenceRecord) : Prop :=
  (∀ f, er_fact r = Some f → fact_ok f) ∧ ∀ i, er_fact_index r = Some i → int_ok i.
Lemma not_null_fact f j : fact_json f = Some j → jtext_of j ≠ JNull.
Proof. unfold fact_json. destruct (time_text _ _); [|done]. cbn [mbind option_bind]. by intros [= <-]. Qed.
Lemma reads_evidence_record r j :
  evidence_record_ok r → record_json' r = Some j → reads into_evidence_record zero_evidence_record j r.
Proof.
  destruct r as [a n o f i c t]. intros [Hf Hi] E. cbn [er_fact er_fact_index] in *. unfold record_json' in E. cbn [er_fact] in E.
  destruct (opt_json fact_json "fact" f) as [e|] eqn:Ef; [|done]. cbn [mbind option_bind] in E. simplify_eq.
  assert (entry (in_ptr into_fact zero_fact) None e f) as He.
  { apply (entry_ptr _ fact_json _ "fact"); [|done]. intros a' j Ea Ej. split; [by eapply reads_fact; eauto|by eapply not_null_fact]. }
  read_struct record_names ["artifactDigest"; "fact"; "factIndex"; "nativeCheckIds"; "nativeRecordDigest"; "observationId";
    "relationTupleDigest"].
Qed.

Lemma reads_derivation d : int_ok (dv_fact_index d) → reads into_derivation zero_derivation (derivation_json d) d.
Proof.
  destruct d as [c a v p i f n]. cbn [dv_fact_index]. intros Hi.
  read_struct derivation_names ["artifactDigest"; "carrierId"; "factDigest"; "factIndex"; "mappingProfileDigest";
    "nativeCheckIds"; "verifierProfileDigest"].
Qed.

Definition freshness_wf (f : FreshnessDecision) : Prop :=
  (∀ i, fr_checked_at f = Some i → instant_ok i) ∧ (∀ i, fr_valid_until f = Some i → instant_ok i) ∧ int_ok (fr_generation f).
Lemma entry_instant_ptr k x o :
  (∀ i, x = Some i → instant_ok i) → opt_json instant_json k x = Some o → entry (in_ptr in_instant zero_instant) None o x.
Proof. intros H. apply entry_ptr. intros i j E Ej. apply reads_instant; auto. Qed.
Lemma reads_freshness f j : freshness_wf f → freshness_json f = Some j → reads into_freshness zero_freshness j f.
Proof.
  destruct f as [v c u g]. intros (Hc & Hu & Hg) E. cbn [fr_checked_at fr_valid_until fr_generation] in *.
  unfold freshness_json in E. cbn [fr_checked_at fr_valid_until] in E.
  destruct (opt_json instant_json "checkedAt" c) as [oc|] eqn:Ec; [|done]. cbn [mbind option_bind] in E.
  destruct (opt_json instant_json "validUntil" u) as [ou|] eqn:Eu; [|done]. cbn [mbind option_bind] in E. simplify_eq.
  pose proof (entry_instant_ptr _ _ _ Hc Ec). pose proof (entry_instant_ptr _ _ _ Hu Eu).
  read_struct freshness_names ["checkedAt"; "snapshotGeneration"; "validUntil"; "verdict"].
Qed.

Definition result_wf (r : NativeCheckResult) : Prop :=
  instant_ok (nr_verification_time r) ∧ int_ok (nr_snapshot_generation r) ∧ ∀ f, nr_freshness r = Some f → freshness_wf f.
Lemma not_null_freshness f j : freshness_json f = Some j → jtext_of j ≠ JNull.
Proof.
  unfold freshness_json. destruct (opt_json _ "checkedAt" _); [|done]. cbn [mbind option_bind].
  destruct (opt_json _ "validUntil" _); [|done]. cbn [mbind option_bind]. by intros [= <-].
Qed.
Lemma reads_result r j : result_wf r → result_json r = Some j → reads into_result zero_result j r.
Proof.
  destruct r as [c t e o w v p n s a g i f y]. intros (Hi & Hg & Hf) E.
  cbn [nr_verification_time nr_snapshot_generation nr_freshness] in *. unfold result_json in E. cbn [nr_verification_time nr_freshness] in E.
  destruct (opt_json freshness_json "freshnessDecision" f) as [fo|] eqn:Ef; [|done]. cbn [mbind option_bind] in E.
  destruct (instant_json i) as [ji|] eqn:Ei; [|done]. cbn [mbind option_bind] in E. simplify_eq.
  assert (entry (in_ptr into_freshness zero_freshness) None fo f) as He.
  { apply (entry_ptr _ freshness_json _ "freshnessDecision"); [|done]. intros a' j Ea Ej.
    split; [by eapply reads_freshness; eauto|by eapply not_null_freshness]. }
  assert (entry in_instant zero_instant (member "verificationTime" ji) i) as Ht by (by apply reads_instant).
  read_struct result_names ["checkId"; "componentType"; "evidenceDigest"; "freshnessDecision"; "outcome"; "reason";
    "replayDigest"; "statusSnapshotDigest"; "statusSnapshotGeneration"; "statusSnapshotSource"; "trustSnapshotDigest";
    "verificationTime"; "verifier"; "verifierProfileDigest"].
Qed.

Lemma reads_conflict c : reads into_conflict zero_conflict (conflict_json c) c.
Proof.
  destruct c as [i t e o].
  assert (entry (in_slice in_string "") None (member "outcomes" (slice_json AStr o)) o) as Ho.
  { destruct o as [l|]; [|done]. split; cbn [snd slice_json jtext_of in_slice].
    - apply sound_list, Forall_fmap, list.Forall_forall. intros x _. by split.
    - change (default [] None) with (@nil string). rewrite (elems_read in_string "" l); [done|].
      apply Forall2_fmap_r, Forall_Forall2_diag, list.Forall_forall. intros x _. by split. }
  read_struct conflict_names ["checkId"; "componentType"; "evidenceDigest"; "outcomes"].
Qed.

Definition assessment_wf (a : NativeCheckAssessment) : Prop :=
  na_missing a ≠ Some [] ∧ na_unexpected a ≠ Some [] ∧ na_conflicting a ≠ Some [] ∧
  ∀ r, r ∈ default [] (na_unexpected a) → result_wf r.
Lemma entry_list_nil_plain {A} (f : A → jtext → option A) (g : A → any) zero k (l : option (list A)) :
  l ≠ Some [] → (∀ x, reads f zero (g x) x) →
  entry (in_slice f zero) None (match default [] l with [] => None | x :: l' => member k (AList (g <$> x :: l')) end) l.
Proof.
  intros Hne H. apply (entry_list_nil f (λ x, Some (g x)) zero k); [done|by intros x j _ [= <-]|].
  unfold list_json. destruct (default [] l) as [|x l']; [done|].
  assert (mapM (λ x, Some (g x)) (x :: l') = Some (g <$> x :: l')) as ->; [|done].
  apply mapM_Some_2, Forall2_fmap_r, Forall_Forall2_diag. by apply list.Forall_forall.
Qed.
Lemma reads_assessment a j : assessment_wf a → assessment_json a = Some j → reads into_assessment zero_assessment j a.
Proof.
  destruct a as [c e r x]. intros (He & Hr & Hx & Hw) E. cbn [na_missing na_unexpected na_conflicting] in *.
  unfold assessment_json in E. cbn [na_unexpected na_missing na_conflicting] in E.
  destruct (list_json result_json "unexpectedResults" (default [] r)) as [ro|] eqn:Er; [|done]. cbn [mbind option_bind] in E.
  simplify_eq. pose proof (entry_list_nil_plain _ _ _ "missingExpectations" e He reads_expectation).
  pose proof (entry_list_nil_plain _ _ _ "conflictingResults" x Hx reads_conflict).
  assert (entry (in_slice into_result zero_result) None ro r).
  { apply (entry_list_nil _ result_json _ "unexpectedResults"); [done| |done]. intros y j Hy. apply reads_result. auto. }
  read_struct assessment_names ["complete"; "conflictingResults"; "missingExpectations"; "unexpectedResults"].
Qed.

Lemma reads_evaluation e : reads into_evaluation zero_evaluation (evaluation_json e) e.
Proof. destruct e as [c v r]. read_struct evaluation_names ["constraint"; "reason"; "verdict"]. Qed.
Lemma reads_satisfaction s :
  digest_bytes (sa_digest s) → reads into_satisfaction zero_satisfaction (satisfaction_json s) s.
Proof.
  destruct s as [i d v e r c]. cbn [sa_digest]. intros Hd. unfold satisfaction_json. cbn [sa_constraints].
  assert (entry closed_digest zero_digest (member "digest" (digest_json d)) d) by (by apply reads_digest).
  pose proof (entry_list_plain _ _ _ "constraints" c (λ x _, reads_evaluation x)).
  read_struct satisfaction_names ["constraints"; "digest"; "expression"; "missing_roles"; "requirement_id"; "verdict"].
Qed.

(** The requirement is written in the order of its struct. *)
Definition rconstraint_json (c : RequirementConstraint) : any :=
  omitempty [member "constraint" (AStr (rc_constraint c)); member "role" (AStr (rc_role c))].
Definition requirement_json (r : Requirement) : any :=
  omitempty [member "@version" (AStr (req_version r));
    match req_constraints r with [] => None | c :: cs => member "constraints" (AList (rconstraint_json <$> c :: cs)) end;
    member "expression" (AStr (req_expression r)); member_str "purpose" (req_purpose r);
    member "requirement_id" (AStr (req_id r))].

Lemma req_json_text r : jtext_of (req_json r) = jtext_of (requirement_json r).
Proof.
  destruct r as [v i p e cs]. unfold req_json, requirement_json.
  cbn [req_version req_id req_purpose req_expression req_constraints].
  set (row := λ c : RequirementConstraint, AMap [("role", AStr (rc_role c)); ("constraint", AStr (rc_constraint c))]).
  assert (∀ l : list RequirementConstraint, jtext_of (AList (row <$> l)) = jtext_of (AList (rconstraint_json <$> l))) as E.
  { intros l. cbn [jtext_of]. f_equal. induction l as [|[r c] l IH]; [done|]. rewrite !fmap_cons, IH. reflexivity. }
  unfold member_str. destruct (String.eqb p ""), cs as [|c cs]; try reflexivity; specialize (E (c :: cs));
    revert E; generalize (AList (row <$> c :: cs)) (AList (rconstraint_json <$> c :: cs)); intros x y E;
    unfold omitempty, member; cbn [omap list_omap id app]; cbn [jtext_of fmap list_fmap fst snd]; rewrite E;
    generalize (jtext_of y); intros; reflexivity.
Qed.
Lemma reads_requirement r : reads into_requirement zero_requirement (req_json r) r.
Proof.
  assert (reads into_requirement zero_requirement (requirement_json r) r) as [_ Hr].
  { destruct r as [v i p e cs]. unfold requirement_json. cbn [req_constraints].
    assert (∀ c, reads into_rconstraint zero_rconstraint (rconstraint_json c) c) as Hc.
    { intros [ro c]. read_struct rconstraint_names ["constraint"; "role"]. }
    pose proof (entry_list_plain _ _ _ "constraints" cs (λ x _, Hc x)).
    read_struct requirement_names ["@version"; "constraints"; "expression"; "purpose"; "requirement_id"]. }
  split; [|by rewrite req_json_text]. unfold req_json.
  assert (sound (AList ((λ c, AMap [("role", AStr (rc_role c)); ("constraint", AStr (rc_constraint c))]) <$> req_constraints r)))
    as [H1 H2].
  { apply sound_list, Forall_fmap, list.Forall_forall. intros c _. by split. }
  destruct (req_constraints r) as [|c cs], (String.eqb (req_purpose r) ""); try (by split);
    revert H1 H2; generalize (AList ((λ c, AMap [("role", AStr (rc_role c)); ("constraint", AStr (rc_constraint c))]) <$> c :: cs));
    intros x H1 H2; (split; [cbn [numbers_in_range app forallb snd]; by rewrite H1
                            |cbn [keyed app forallb snd]; rewrite H2; reflexivity]).
Qed.

(** Metadata: a map in canonical order. *)
Definition meta_ok (m : gomap string) : Prop := wf_map m ∧ sorted16 m = m.
Lemma entry_meta m : meta_ok m → entry in_meta [] (meta_json m) m.
Proof.
  intros [Hw Hs]. destruct m as [|kv m]; [done|]. unfold meta_json. set (l := kv :: m) in *. split; cbn [snd].
  - split; cbn [numbers_in_range keyed].
    + apply forallb_forall. intros x Hx%list_elem_of_In. by apply list_elem_of_fmap in Hx as (y & -> & _).
    + apply andb_true_iff. split.
      * apply bool_decide_eq_true. unfold wf_map, mkeys in *. by rewrite <- list_fmap_compose.
      * apply forallb_forall. intros x Hx%list_elem_of_In. by apply list_elem_of_fmap in Hx as (y & -> & _).
  - unfold in_meta, in_string_map. cbn [jtext_of]. rewrite <- list_fmap_compose.
    change (sorted16 _) with (sorted16 ((λ kv : string * string, (kv.1, JStr kv.2)) <$> l)).
    rewrite sorted16_fmap, Hs.
    assert (mapM (λ kv : string * jtext, s ← into_string kv.2; Some (kv.1, s)) ((λ kv : string * string, (kv.1, JStr kv.2)) <$> l) = Some l)
      as ->.
    { apply mapM_Some_2, Forall2_fmap_l, Forall_Forall2_diag, list.Forall_forall. by intros [k s] _. }
    cbn [mbind option_bind]. change (Grants.entries (Some [])) with (@nil (string * string)).
    rewrite (fold_mset_app l []) by exact Hw. done.
Qed.
#[export] Hint Resolve entry_meta : entries.

(** ** The report *)

(** The reports the canonical form carries. *)
Record report_wf (r : Report) : Prop := {
  rw_time : ∀ i, rp_appraisal_time r = Some i → instant_ok i;
  rw_meta : meta_ok (rp_meta r);
  rw_source : ∀ d, rp_source_digest r = Some d → digest_bytes d;
  rw_projected : ∀ d, rp_projected_digest r = Some d → digest_bytes d;
  rw_results : ∀ x, x ∈ rp_results r → result_wf x;
  rw_assessment : ∀ a, rp_assessment r = Some a → assessment_wf a;
  rw_records : ∀ x, x ∈ rp_records r → evidence_record_ok x;
  rw_derivations : ∀ d, d ∈ rp_derivations r → int_ok (dv_fact_index d);
  rw_facts : ∀ f, f ∈ rp_facts r → fact_ok f;
  rw_satisfaction : ∀ s, rp_satisfaction r = Some s → digest_bytes (sa_digest s)
}.

Lemma not_null_assessment a j : assessment_json a = Some j → jtext_of j ≠ JNull.
Proof. unfold assessment_json. destruct (list_json _ _ _); [|done]. cbn [mbind option_bind]. by intros [= <-]. Qed.
Lemma not_null_requirement r : jtext_of (req_json r) ≠ JNull.
Proof. by rewrite req_json_text. Qed.

Lemma reads_report r j : report_wf r → report_json r = Some j → reads into_report zero_report j r.
Proof.
  destruct r as [ver asr prj prf vid tim fmt met req sdg pdg res ass cmp obs rec der fct rsd rnc ids sat].
  intros [Ht Hm Hs Hp Hr Ha He Hd Hf Hv] E. cbn [rp_appraisal_time rp_meta rp_source_digest rp_projected_digest rp_results
    rp_assessment rp_records rp_derivations rp_facts rp_satisfaction] in *.
  unfold report_json in E. cbn [rp_appraisal_time rp_results rp_assessment rp_records rp_facts] in E.
  destruct (opt_json instant_json "appraisalTime" tim) as [ot|] eqn:Et; [|done]. cbn [mbind option_bind] in E.
  destruct (list_json record_json' "evidenceRecords" rec) as [oe|] eqn:Ee; [|done]. cbn [mbind option_bind] in E.
  destruct (list_json fact_json "facts" fct) as [of'|] eqn:Ef; [|done]. cbn [mbind option_bind] in E.
  destruct (opt_json assessment_json "nativeCheckAssessment" ass) as [oa|] eqn:Ea; [|done]. cbn [mbind option_bind] in E.
  destruct (list_json result_json "nativeCheckResults" res) as [or'|] eqn:Er; [|done]. cbn [mbind option_bind] in E. simplify_eq.
  cbn [rp_derivations].
  pose proof (entry_instant_ptr _ _ _ Ht Et).
  pose proof (entry_list into_evidence_record _ zero_evidence_record _ _ _ (λ x j Hx, reads_evidence_record x j (He x Hx)) Ee).
  pose proof (entry_list into_fact _ zero_fact _ _ _ (λ x j Hx, reads_fact x j (Hf x Hx)) Ef).
  pose proof (entry_list into_result _ zero_result _ _ _ (λ x j Hx, reads_result x j (Hr x Hx)) Er).
  pose proof (entry_ptr into_assessment _ zero_assessment _ _ _
    (λ a j Ex Ej, conj (reads_assessment a j (Ha a Ex) Ej) (not_null_assessment a j Ej)) Ea).
  pose proof (entry_list_plain into_derivation _ zero_derivation "derivations" der (λ x Hx, reads_derivation x (Hd x Hx))).
  pose proof (entry_ptr_plain into_observation _ zero_observation "observation" obs (λ x _, conj (reads_observation x) (object_not_null _))).
  pose proof (entry_ptr_plain into_profile _ zero_profile "profile" prf (λ x _, conj (reads_profile x) (object_not_null _))).
  pose proof (entry_ptr_plain into_verifier _ zero_verifier "verifier" vid (λ x _, conj (reads_verifier x) (object_not_null _))).
  pose proof (entry_ptr_plain into_requirement _ zero_requirement "requirement" req
    (λ x _, conj (reads_requirement x) (not_null_requirement x))).
  pose proof (entry_ptr_plain into_satisfaction _ zero_satisfaction "satisfaction" sat
    (λ x Ex, conj (reads_satisfaction x (Hv x Ex)) (object_not_null _))).
  pose proof (entry_ptr_plain closed_digest _ zero_digest "sourceRequirementDigest" sdg
    (λ x Ex, conj (reads_digest x (Hs x Ex)) (object_not_null _))).
  pose proof (entry_ptr_plain closed_digest _ zero_digest "projectedRequirementDigest" pdg
    (λ x Ex, conj (reads_digest x (Hp x Ex)) (object_not_null _))).
  read_struct report_names ["@version"; "appraisalTime"; "assurance"; "derivations"; "evidenceRecords"; "facts"; "meta";
    "nativeCheckAssessment"; "nativeCheckResults"; "nativeChecksComplete"; "observation"; "profile";
    "projectedRequirementDigest"; "projectorId"; "requiredCheckIds"; "requiredNativeChecks"; "requirement"; "residuals";
    "satisfaction"; "sourceFormat"; "sourceRequirementDigest"; "verifier"].
Qed.
