(* ===== verification/ReportSigned.v ===== *)
(** * Signed evidence reports

    projection/envelope.go, timestamp.go, attestation.go and reportauth.go: a
    report inside a DSSE envelope, with a timestamp and an attestation beside it.
    Signatures, certificate chains and the identity extension are code of other
    repositories: they are the record [ReportPKI], without assumptions. *)

From S2P Require Import Prelude GoStrings GoFloat GoTime Json Canonical JsonText JsonStruct Utf.
From S2P Require Import NumberText CanonicalText GoTimeText Evidence Sha256 Ids Values Bounds.
From S2P Require Import SchemeState.
From S2P Require Import Requirement Sources Context RecordJson RecordFreeze Record Envelope.
From S2P Require Import Challenge Report ReportData ReportLifecycle ReportValidate ReportDecode.
From S2P Require Import ReportRead.

(** ** Envelopes (envelope.go) *)

Definition MaxEnvelopeSignatures : Z := 64.
Definition MaxSignatureBytes : Z := 64 * 2 ^ 10.

Record ReportSignature := mkRSignature { rs_keyid : string; rs_sig : string }.
Record ReportEnvelope := mkREnvelope {
  re_payload_type : string;
  re_payload : string;
  re_signatures : list ReportSignature
}.

(** A byte slice as a string. *)
Definition text_of (l : list Z) : string := String.string_of_list_ascii (chr <$> l).

Definition decodeBase64URL (value : string) : option string :=
  raw ← b64_decode true value;
  if negb (String.eqb (RawURLEncoding raw) value) then None else Some (text_of raw).

(** One signature of the loop of [EnvelopeBytes]. *)
Definition signature_bytes (s : ReportSignature) : option string :=
  raw ← decodeBase64URL (rs_sig s);
  if MaxSignatureBytes <? Z.of_nat (String.length raw) then None else Some raw.
Definition EnvelopeBytes (oenv : option ReportEnvelope) : option (string * list string) :=
  env ← oenv;
  if MaxEnvelopeSignatures <? Z.of_nat (length (re_signatures env)) then None
  else
    payload ← decodeBase64URL (re_payload env);
    if MaxReportBytes <? Z.of_nat (String.length payload) then None
    else sigs ← mapM signature_bytes (re_signatures env); Some (payload, sigs).

Definition signature_names : list string := ["keyid"; "sig"].
Definition into_signature (s : ReportSignature) : jtext → option ReportSignature :=
  closed_struct signature_names s (λ m,
    k ← field signature_names "keyid" in_string (rs_keyid s) m;
    g ← field signature_names "sig" in_string (rs_sig s) m;
    Some (mkRSignature k g)).
Definition envelope_names : list string := ["payloadType"; "payload"; "signatures"].
Definition zero_envelope : ReportEnvelope := mkREnvelope "" "" [].
Definition into_envelope (e : ReportEnvelope) : jtext → option ReportEnvelope :=
  closed_struct envelope_names e (λ m,
    t ← field envelope_names "payloadType" in_string (re_payload_type e) m;
    p ← field envelope_names "payload" in_string (re_payload e) m;
    s ← field envelope_names "signatures" (in_elems into_signature (mkRSignature "" "")) (re_signatures e) m;
    Some (mkREnvelope t p s)).
Definition DecodeEnvelope (raw : string) : option ReportEnvelope :=
  if 3 * MaxReportBytes <? Z.of_nat (String.length raw) then None
  else
    j ← read_first raw; env ← into_envelope zero_envelope j;
    match EnvelopeBytes (Some env) with None => None | Some _ => Some env end.

(** ** What the code calls in other repositories *)

Inductive ExtKeyUsage := ExtKeyUsageAny | ExtKeyUsageTimeStamping.

(** [pkcs7.VerifyDetached] (an error, or the certificate it recovered, which may be
    nil); [cert.Verify] against a pool of roots for a usage at an instant;
    [pki.ParseAIC] (an error, or a value that may be nil) and [pki.ValidateAIC];
    the key and the validity of a certificate. *)
Record ReportPKI (Cert : Type) := mkReportPKI {
  rk_detached : string → string → option (option Cert);
  rk_verify : Cert → list Cert → ExtKeyUsage → Time → bool;
  rk_parse : Cert → option (option Identity);
  rk_validate : Identity → bool;
  rk_spki : Cert → string;
  rk_not_before : Cert → Time;
  rk_not_after : Cert → Time
}.
Arguments mkReportPKI {Cert}.
Arguments rk_detached {Cert} _.
Arguments rk_verify {Cert} _.
Arguments rk_parse {Cert} _.
Arguments rk_validate {Cert} _.
Arguments rk_spki {Cert} _.
Arguments rk_not_before {Cert} _.
Arguments rk_not_after {Cert} _.

(** ** Timestamps (timestamp.go) *)

Record TimestampAssertion := mkTimestamp { ta_digest : PDigest; ta_time : Instant; ta_token : string }.

Definition EnvelopeDigest (env : option ReportEnvelope) : option PDigest :=
  '(payload, _) ← EnvelopeBytes env;
  Some (DigestFromBytes (Sum256 (PAE (from_option re_payload_type "" env) payload))).

(** [Format(time.RFC3339)] in UTC: to the second. *)
Definition second_text (t : Time) : string :=
  let c := civil_of t 0 in
  year_text (cv_year c) +:+ String "-" (two (cv_month c) +:+ String "-" (two (cv_day c) +:+ String "T"
    (two (cv_hour c) +:+ String ":" (two (cv_min c) +:+ String ":" (two (cv_sec c) +:+ "Z"))))).
Definition timestampBytes (digest : PDigest) (at_ : Time) : option string :=
  canonical_of (Some (omitempty [member "digest" (AStr digest); member "time" (AStr (second_text at_))])).

(** [NewTimestampAssertion]; [build] is [pkcs7.BuildSignedData] with the
    authority's certificate and signer. *)
Definition NewTimestampAssertion (build : string → option (list Z)) (env : option ReportEnvelope) (at_ : Instant) :
    option TimestampAssertion :=
  digest ← EnvelopeDigest env; body ← timestampBytes digest (in_at at_); der ← build body;
  Some (mkTimestamp digest (UTC at_) (RawURLEncoding der)).

(** [base64.RawURLEncoding.EncodedLen]. *)
Definition EncodedLen (n : Z) : Z := n / 3 * 4 + (n mod 3 * 8 + 5) / 6.

Section signed.
Context {Cert : Type} (pki : ReportPKI Cert).

Definition verifyTimestamp (assertion : option TimestampAssertion) (env : option ReportEnvelope) (roots : list (option Cert))
    (now : Time) (skew : Z) : option report_code :=
  match assertion with
  | None => Some CodeReportStale
  | Some a =>
      match EnvelopeDigest env with
      | None => Some CodeReportShape
      | Some want =>
          guard (negb (String.eqb (ta_digest a) want)) CodeReportStale ;;?
          guard (length roots =? 0)%nat CodeReportStale ;;?
          match timestampBytes (ta_digest a) (in_at (ta_time a)) with
          | None => Some CodeReportStale
          | Some body =>
              guard (EncodedLen MaxSignatureBytes <? Z.of_nat (String.length (ta_token a))) CodeReportStale ;;?
              match decodeBase64URL (ta_token a) with
              | None => Some CodeReportStale
              | Some token =>
                  match rk_detached pki token body with
                  | None | Some None => Some CodeReportStale
                  | Some (Some cert) =>
                      guard (negb (rk_verify pki cert (omap id roots) ExtKeyUsageTimeStamping now)) CodeReportStale ;;?
                      guard (Before (in_at (ta_time a)) (rk_not_before pki cert) ||
                             After (in_at (ta_time a)) (rk_not_after pki cert)) CodeReportStale ;;?
                      guard (After (in_at (ta_time a)) (now + skew)) CodeReportStale
                  end
              end
          end
      end
  end.

(** ** Signers (reportauth.go) *)

(** [verifyReportCertificate]: true is the nil error. *)
Definition verifyReportCertificate (cert : Cert) (roots : list (option Cert)) (now : Time) : bool :=
  if (length roots =? 0)%nat then false else rk_verify pki cert (omap id roots) ExtKeyUsageAny now.

Definition mustKeyHash (cert : Cert) : list Z := Sum256 (rk_spki pki cert).
Definition allZeroBytes (b : list Z) : bool := forallb (Z.eqb 0) b.

Definition certificateIdentity (cert : Cert) : Identity + report_code :=
  match rk_parse pki cert with
  | None | Some None => inr CodeReportVerifier
  | Some (Some aic) =>
      let hash := pu_key_hash (id_principal aic) in
      if negb (rk_validate pki aic) then inr CodeReportVerifier
      else if (length hash =? 0)%nat || allZeroBytes hash then inr CodeReportVerifier
      else if negb (bool_decide (hash = mustKeyHash cert)) then inr CodeReportVerifier
      else inl aic
  end.

Definition principalMatches (declared : string) (aic : Identity) : bool :=
  let want := TrimPrefix declared "principal:" in
  let id := pu_identifier (id_principal aic) in
  String.eqb want id || String.eqb want (pu_realm (id_principal aic) +:+ ":" +:+ id).
Definition principalAllowed (allowed : list string) (aic : Identity) : bool :=
  existsb (λ entry, principalMatches entry aic) allowed.

(** ** Signing *)

Definition ReportPayloadType : string := "application/vnd.varwof.evidence-report-v1+json".
(** Five minutes. *)
Definition reportClockSkew : Z := 300 * Second.

Definition with_projected (rep : Report) (d : Digest) : Report :=
  mkReport (rp_version rep) (rp_assurance rep) (rp_projector rep) (rp_profile rep) (rp_verifier rep)
    (rp_appraisal_time rep) (rp_source_format rep) (rp_meta rep) (rp_requirement rep) (rp_source_digest rep) (Some d)
    (rp_results rep) (rp_assessment rep) (rp_complete rep) (rp_observation rep) (rp_records rep) (rp_derivations rep)
    (rp_facts rep) (rp_residuals rep) (rp_required_native rep) (rp_required_ids rep) (rp_satisfaction rep).

(** The digest of the requirement is filled in before signing. *)
Definition fill_requirement_digest (rep : Report) : Report + report_code :=
  match rp_requirement rep, rp_projected_digest rep with
  | Some req, None => match req_Digest req with inl d => inl (with_projected rep d) | inr _ => inr CodeReportShape end
  | _, _ => inl rep
  end.

(** [SignEvidenceReport]: the report, which the code completes in place, and the
    envelope.  [iter] is the map order of the assessment, [build] is
    [pkcs7.BuildSignedData] with the certificate and the signer. *)
Definition SignEvidenceReport (iter : gomap (list string) → gomap (list string)) (build : string → option (list Z))
    (orep : option Report) (ocert : option Cert) : (Report * ReportEnvelope) + report_code :=
  match orep, ocert with
  | Some rep0, Some cert =>
      match fill_requirement_digest rep0 with
      | inr e => inr e
      | inl rep =>
          match rp_verifier rep with
          | None => inr CodeReportVerifier
          | Some v =>
              match ValidateEvidenceReport iter (Some rep) with
              | Some e => inr e
              | None =>
                  match certificateIdentity cert with
                  | inr e => inr e
                  | inl aic =>
                      if negb (principalMatches (vi_principal v) aic) then inr CodeReportVerifier
                      else match canonical_of (report_json rep) with
                           | None => inr CodeReportShape
                           | Some payload =>
                               match build (PAE ReportPayloadType payload) with
                               | None => inr CodeReportSignature
                               | Some der =>
                                   inl (rep, mkREnvelope ReportPayloadType (RawURLEncoding (bytes_of payload))
                                               [mkRSignature (RawURLEncoding (mustKeyHash cert)) (RawURLEncoding der)])
                               end
                           end
                  end
              end
          end
      end
  | _, _ => inr CodeReportSignature
  end.

(** ** Verifying *)

(** One signature: its signer. *)
Definition verify_signature (policy : ReportPolicy Cert) (now : Time) (pae sig : string) : Identity + report_code :=
  match rk_detached pki sig pae with
  | None | Some None => inr CodeReportSignature
  | Some (Some cert) =>
      if negb (verifyReportCertificate cert (pl_roots policy) now) then inr CodeReportSignature
      else match certificateIdentity cert with
           | inr _ => inr CodeReportSignature
           | inl aic =>
               if (0 <? length (pl_principals policy))%nat && negb (principalAllowed (pl_principals policy) aic)
               then inr CodeReportPolicy else inl aic
           end
  end.
Fixpoint verify_signatures (policy : ReportPolicy Cert) (now : Time) (pae : string) (sigs : list string) :
    list Identity + report_code :=
  match sigs with
  | [] => inl []
  | sig :: rest =>
      match verify_signature policy now pae sig with
      | inr e => inr e
      | inl aic => match verify_signatures policy now pae rest with inr e => inr e | inl l => inl (aic :: l) end
      end
  end.

Definition decodeSignedReport (payload : string) : Report + report_code :=
  if MaxReportBytes <? Z.of_nat (String.length payload) then inr CodeReportShape
  else if negb (Check_dups payload) then inr CodeReportShape
  else match j ← read_document payload; into_report zero_report j with
       | Some rep => inl rep
       | None => inr CodeReportShape
       end.

Definition checkReportAge (rep : Report) (policy : ReportPolicy Cert) (now anchor : Time) : option report_code :=
  match rp_appraisal_time rep with
  | None => Some CodeReportShape
  | Some t =>
      let skew := if 0 <? pl_max_clock_skew policy then pl_max_clock_skew policy else reportClockSkew in
      guard (After (in_at t) (now + skew)) CodeReportStale ;;?
      let reference := if negb (IsZero anchor) then anchor else in_at t in
      guard ((0 <? pl_max_age policy) && (pl_max_age policy <? Sub now reference)) CodeReportStale
  end.

Definition recomputeSatisfaction (rep : Report) : option report_code :=
  match rp_requirement rep with
  | None => match rp_satisfaction rep with Some _ => Some CodeReportVerdict | None => None end
  | Some req =>
      match rp_satisfaction rep with
      | None => Some CodeReportVerdict
      | Some s =>
          match EvaluateRequirement req (rf_fact <$> rp_facts rep)
                  (mkCtx (from_option in_at 0 (rp_appraisal_time rep)) "" "") with
          | inr _ => Some CodeReportShape
          | inl got => guard (negb (bool_decide (satisfaction_of got = s))) CodeReportVerdict
          end
      end
  end.

(** The pins that a signed report needs: a sealed profile and a policy that names
    its digest, and a policy that names the requirement. *)
Definition pins_present (rep : Report) (policy : ReportPolicy Cert) : option report_code :=
  match rp_profile rep with
  | Some p =>
      guard (digest_Empty (pf_digest p)) CodeReportProfile ;;?
      guard (digest_Empty (pl_profile_digest policy)) CodeReportPolicy
  | None => None
  end ;;?
  match rp_requirement rep, pl_requirement_digest policy with
  | Some _, None => Some CodeReportPolicy
  | _, _ => None
  end.
Definition profile_pinned (rep : Report) (policy : ReportPolicy Cert) : option report_code :=
  if digest_Empty (pl_profile_digest policy) then None
  else match rp_profile rep with
       | Some p => guard (negb (String.eqb (pf_digest p) (pl_profile_digest policy))) CodeReportPolicy
       | None => Some CodeReportPolicy
       end.
(** The appraisal and the timestamp lie close to each other. *)
Definition anchored (rep : Report) (anchor : Time) (skew : Z) : option report_code :=
  if IsZero anchor then None
  else match rp_appraisal_time rep with
       | None => Some CodeReportShape
       | Some t => guard (After (in_at t) (anchor + skew) || (skew <? Sub anchor (in_at t))) CodeReportStale
       end.

(** The checks after the signatures, on the decoded report. *)
Definition check_decoded (iter : gomap (list string) → gomap (list string)) (policy : ReportPolicy Cert) (now anchor : Time)
    (anchorSkew : Z) (payload : string) (signers : list Identity) (rep : Report) : (Report * SnapshotState) + report_code :=
  match canonical_of (report_json rep) with
  | None => inr CodeReportShape
  | Some canonical =>
      match guard (negb (String.eqb canonical payload)) CodeReportShape ;;?
            match rp_verifier rep with
            | None => Some CodeReportVerifier
            | Some v =>
                pins_present rep policy ;;?
                check_all (λ aic, guard (negb (principalMatches (vi_principal v) aic)) CodeReportVerifier) signers
            end ;;?
            VerifyEvidenceReport iter (Some rep) policy ;;?
            profile_pinned rep policy ;;?
            anchored rep anchor anchorSkew ;;?
            checkReportAge rep policy now anchor ;;?
            recomputeSatisfaction rep with
      | Some e => inr e
      | None => match CheckReportLifecycle rep policy with inr e => inr e | inl next => inl (rep, next) end
      end
  end.

(** The instant of the verification; [wall] is the clock. *)
Definition verification_instant (wall : Time) (policy : ReportPolicy Cert) : Time :=
  if IsZero (pl_now policy) then wall else pl_now policy.
Definition anchor_skew (policy : ReportPolicy Cert) : Z :=
  if 0 <? pl_timestamp_clock_skew policy then pl_timestamp_clock_skew policy else reportClockSkew.

(** A timestamp that is there, or is required, is checked. *)
Definition check_timestamp (oenv : option ReportEnvelope) (assertion : option TimestampAssertion) (policy : ReportPolicy Cert)
    (now : Time) : option report_code :=
  if is_some assertion || pl_require_timestamp policy
  then verifyTimestamp assertion oenv (pl_timestamp_roots policy) now (anchor_skew policy) else None.

Definition VerifySignedEvidenceReportAt (iter : gomap (list string) → gomap (list string)) (wall : Time)
    (oenv : option ReportEnvelope) (assertion : option TimestampAssertion) (policy : ReportPolicy Cert) :
    (Report * SnapshotState) + report_code :=
  match oenv with
  | None => inr CodeReportShape
  | Some env =>
      if negb (String.eqb (re_payload_type env) ReportPayloadType) then inr CodeReportShape
      else match EnvelopeBytes oenv with
      | None => inr CodeReportShape
      | Some (payload, sigs) =>
          if String.eqb payload "" then inr CodeReportShape
          else if (length sigs =? 0)%nat then inr CodeReportSignature
          else
            let now := verification_instant wall policy in
            let skew := anchor_skew policy in
            match check_timestamp oenv assertion policy now with
            | Some e => inr e
            | None =>
                let anchor := from_option (λ a, in_at (ta_time a)) 0 assertion in
                match verify_signatures policy now (PAE ReportPayloadType payload) sigs with
                | inr e => inr e
                | inl signers =>
                    match decodeSignedReport payload with
                    | inr e => inr e
                    | inl rep => check_decoded iter policy now anchor skew payload signers rep
                    end
                end
            end
      end
  end.
Definition VerifySignedEvidenceReport (iter : gomap (list string) → gomap (list string)) (wall : Time)
    (env : option ReportEnvelope) (policy : ReportPolicy Cert) : (Report * SnapshotState) + report_code :=
  VerifySignedEvidenceReportAt iter wall env None policy.

(** ** Signed reports (attestation.go) *)

Record SignedReport := mkSigned {
  sr_envelope : option ReportEnvelope;
  sr_timestamp : option TimestampAssertion;
  sr_attestation : option Attestation
}.

Definition attested (policy : ReportPolicy Cert) : ReportPolicy Cert :=
  mkPolicy (pl_require_profile policy) (pl_allow_incomplete policy) (pl_roots policy) (pl_principals policy)
    (pl_profile_digest policy) (pl_requirement_digest policy) (pl_verifier_profiles policy) (pl_snapshot_sources policy)
    (pl_reason_registries policy) (pl_require_derivations policy) (pl_artifacts policy) (pl_require_artifacts policy)
    (pl_attestation_verifier policy) (pl_require_attestation policy) (pl_min_assurance policy) (pl_required_ids policy) true
    (pl_max_age policy) (pl_max_clock_skew policy) (pl_timestamp_roots policy) (pl_require_timestamp policy)
    (pl_timestamp_clock_skew policy) (pl_now policy) (pl_snapshots policy) (pl_require_snapshot_binding policy)
    (pl_replay_evidence policy) (pl_require_replay policy).

Definition VerifySignedReport (iter : gomap (list string) → gomap (list string)) (wall : Time)
    (osigned : option SignedReport) (policy : ReportPolicy Cert) : (Report * SnapshotState) + report_code :=
  match osigned with
  | Some (mkSigned (Some env) stamp attestation) =>
      match EnvelopeDigest (Some env) with
      | None => inr CodeReportShape
      | Some digest =>
          match attestation with
          | Some a =>
              if negb (String.eqb (at_digest a) digest) then inr CodeReportPolicy
              else match pl_attestation_verifier policy with
                   | None => inr CodeReportPolicy
                   | Some verify =>
                       if verify a digest then VerifySignedEvidenceReportAt iter wall (Some env) stamp (attested policy)
                       else inr CodeReportPolicy
                   end
          | None =>
              if pl_require_attestation policy then inr CodeReportPolicy
              else VerifySignedEvidenceReportAt iter wall (Some env) stamp policy
          end
      end
  | _ => inr CodeReportShape
  end.
End signed.

(** [DecodeAttestationQuote]. *)
Definition DecodeAttestationQuote (a : Attestation) : option string :=
  if EncodedLen (2 ^ 20) <? Z.of_nat (String.length (at_quote a)) then None else decodeBase64URL (at_quote a).

Definition timestamp_names : list string := ["digest"; "time"; "token"].
Definition into_timestamp (a : TimestampAssertion) : jtext → option TimestampAssertion :=
  closed_struct timestamp_names a (λ m,
    d ← field timestamp_names "digest" in_string (ta_digest a) m;
    t ← field timestamp_names "time" in_instant (ta_time a) m;
    k ← field timestamp_names "token" in_string (ta_token a) m;
    Some (mkTimestamp d t k)).
Definition attestation_names : list string := ["type"; "digest"; "quote"].
Definition into_attestation (a : Attestation) : jtext → option Attestation :=
  closed_struct attestation_names a (λ m,
    t ← field attestation_names "type" in_string (at_type a) m;
    d ← field attestation_names "digest" in_string (at_digest a) m;
    q ← field attestation_names "quote" in_string (at_quote a) m;
    Some (mkAttestation t d q)).
Definition signed_names : list string := ["envelope"; "timestamp"; "attestation"].
Definition into_signed (s : SignedReport) : jtext → option SignedReport :=
  closed_struct signed_names s (λ m,
    e ← field signed_names "envelope" (in_ptr into_envelope zero_envelope) (sr_envelope s) m;
    t ← field signed_names "timestamp" (in_ptr into_timestamp (mkTimestamp "" zero_instant "")) (sr_timestamp s) m;
    a ← field signed_names "attestation" (in_ptr into_attestation (mkAttestation "" "" "")) (sr_attestation s) m;
    Some (mkSigned e t a)).
Definition DecodeSignedReport (raw : string) : option SignedReport :=
  if 3 * MaxReportBytes <? Z.of_nat (String.length raw) then None
  else if negb (Check_dups raw) then None
  else
    j ← read_document raw; signed ← into_signed (mkSigned None None None) j;
    match sr_envelope signed with None => None | Some _ => Some signed end.

(** ** What acceptance means *)

Section accepted.
Context {Cert : Type} (pki : ReportPKI Cert).

(** A signature of the report's verifier over the report. *)
Record signed_by (policy : ReportPolicy Cert) (now : Time) (payload : string) (v : VerifierIdentity) (sig : string)
    (cert : Cert) (aic : Identity) : Prop := {
  sb_signature : rk_detached pki sig (PAE ReportPayloadType payload) = Some (Some cert);
  sb_chain : pl_roots policy ≠ [] ∧ rk_verify pki cert (omap id (pl_roots policy)) ExtKeyUsageAny now = true;
  sb_identity : rk_parse pki cert = Some (Some aic) ∧ rk_validate pki aic = true;
  sb_key : pu_key_hash (id_principal aic) = Sum256 (rk_spki pki cert);
  sb_verifier : principalMatches (vi_principal v) aic = true;
  sb_allowed : pl_principals policy ≠ [] → principalAllowed (pl_principals policy) aic = true
}.

(** A timestamp of an authority over the envelope, close to the appraisal. *)
Record stamped_by (policy : ReportPolicy Cert) (now : Time) (env : ReportEnvelope) (appraisal : Time) (a : TimestampAssertion)
    (cert : Cert) : Prop := {
  st_digest : EnvelopeDigest (Some env) = Some (ta_digest a);
  st_signature : ∃ token body, decodeBase64URL (ta_token a) = Some token ∧
    timestampBytes (ta_digest a) (in_at (ta_time a)) = Some body ∧ rk_detached pki token body = Some (Some cert);
  st_chain : rk_verify pki cert (omap id (pl_timestamp_roots policy)) ExtKeyUsageTimeStamping now = true;
  st_valid : rk_not_before pki cert <= in_at (ta_time a) <= rk_not_after pki cert;
  st_now : in_at (ta_time a) <= now + anchor_skew policy;
  st_close : in_at (ta_time a) ≠ 0 →
    appraisal <= in_at (ta_time a) + anchor_skew policy ∧ Sub (in_at (ta_time a)) appraisal <= anchor_skew policy
}.

(** The age of a report is counted from its timestamp where there is one. *)
Definition reference_time (a : option TimestampAssertion) (appraisal : Time) : Time :=
  match a with Some a => if IsZero (in_at (ta_time a)) then appraisal else in_at (ta_time a) | None => appraisal end.

Record report_binds (iter : gomap (list string) → gomap (list string)) (policy : ReportPolicy Cert) (now : Time)
    (env : ReportEnvelope) (stamp : option TimestampAssertion) (rep : Report) (next : SnapshotState) : Prop := {
  rb_signed : ∃ payload sigs v, EnvelopeBytes (Some env) = Some (payload, sigs) ∧
    canonical_of (report_json rep) = Some payload ∧ rp_verifier rep = Some v ∧ sigs ≠ [] ∧
    ∀ sig, sig ∈ sigs → ∃ cert aic, signed_by policy now payload v sig cert aic;
  rb_policy : VerifyEvidenceReport iter (Some rep) policy = None;
  rb_requirement : ∀ req, rp_requirement rep = Some req →
    ∃ want d, pl_requirement_digest policy = Some want ∧ rp_projected_digest rep = Some d ∧ digest_Equal d want = true ∧
      ∃ own, req_Digest req = inl own ∧ digest_Equal own d = true;
  rb_profile : ∀ p, rp_profile rep = Some p →
    pf_digest p = pl_profile_digest policy ∧ profile_Digest p = Some (pl_profile_digest policy);
  rb_verdict : match rp_satisfaction rep with
    | Some s => ∃ req t got, rp_requirement rep = Some req ∧ rp_appraisal_time rep = Some t ∧
        EvaluateRequirement req (rf_fact <$> rp_facts rep) (mkCtx (in_at t) "" "") = inl got ∧ s = satisfaction_of got
    | None => rp_requirement rep = None
    end;
  rb_time : ∃ t, rp_appraisal_time rep = Some t ∧
    in_at t <= now + (if 0 <? pl_max_clock_skew policy then pl_max_clock_skew policy else reportClockSkew) ∧
    (0 < pl_max_age policy → Sub now (reference_time stamp (in_at t)) <= pl_max_age policy) ∧
    (pl_require_timestamp policy = true → stamp ≠ None) ∧
    ∀ a, stamp = Some a → ∃ cert, stamped_by policy now env (in_at t) a cert;
  rb_state : CheckReportLifecycle rep policy = inl next
}.

Lemma certificateIdentity_inl cert aic :
  certificateIdentity pki cert = inl aic →
  rk_parse pki cert = Some (Some aic) ∧ rk_validate pki aic = true ∧ pu_key_hash (id_principal aic) = Sum256 (rk_spki pki cert).
Proof.
  unfold certificateIdentity, mustKeyHash. destruct (rk_parse pki cert) as [[a|]|]; [|done..].
  destruct (rk_validate pki a) eqn:Ev; [|done]. cbn [negb]. destruct (_ || _); [done|].
  case_bool_decide; [|done]. cbn [negb]. by intros [= ->].
Qed.

Lemma verify_signature_inl policy now payload sig aic v :
  verify_signature pki policy now (PAE ReportPayloadType payload) sig = inl aic → principalMatches (vi_principal v) aic = true →
  ∃ cert, signed_by policy now payload v sig cert aic.
Proof.
  unfold verify_signature, verifyReportCertificate. intros H Hm. destruct (rk_detached _ _ _) as [[cert|]|] eqn:Ed; [|done..].
  exists cert. destruct (length (pl_roots policy) =? 0)%nat eqn:Er; [done|].
  destruct (rk_verify _ _ _ _ _) eqn:Ev; [|done]. cbn [negb] in H.
  destruct (certificateIdentity pki cert) as [a|] eqn:Ei; [|done]. destruct (_ && _) eqn:Ea; [done|]. simplify_eq.
  apply certificateIdentity_inl in Ei as (Hp & Hv & Hk). split; try done.
  - split; [|done]. intros E. by rewrite E in Er.
  - intros Hne. destruct (pl_principals policy); [done|]. cbn in Ea. by apply negb_false_iff.
Qed.

Lemma verify_signatures_inl policy now payload v sigs : ∀ signers,
  verify_signatures pki policy now (PAE ReportPayloadType payload) sigs = inl signers →
  (∀ aic, aic ∈ signers → principalMatches (vi_principal v) aic = true) →
  ∀ sig, sig ∈ sigs → ∃ cert aic, signed_by policy now payload v sig cert aic.
Proof.
  induction sigs as [|s sigs IH]; intros signers H Hm sig Hin; [by apply not_elem_of_nil in Hin|]. cbn [verify_signatures] in H.
  destruct (verify_signature _ _ _ _ s) as [aic|] eqn:Es; [|done]. destruct (verify_signatures _ _ _ _ sigs) as [l|] eqn:El; [|done].
  simplify_eq. apply elem_of_cons in Hin as [->|Hin].
  - destruct (verify_signature_inl _ _ _ _ _ v Es) as [cert Hc]; [apply Hm; left|]. by exists cert, aic.
  - apply (IH l); [done| |done]. intros a Ha. apply Hm. by right.
Qed.

Lemma verifyTimestamp_None policy now env a :
  verifyTimestamp pki (Some a) (Some env) (pl_timestamp_roots policy) now (anchor_skew policy) = None →
  ∃ cert, ∀ appraisal,
    (in_at (ta_time a) ≠ 0 → appraisal <= in_at (ta_time a) + anchor_skew policy ∧
                             Sub (in_at (ta_time a)) appraisal <= anchor_skew policy) →
    stamped_by policy now env appraisal a cert.
Proof.
  unfold verifyTimestamp. destruct (EnvelopeDigest (Some env)) as [want|] eqn:Ed; [|done]. rewrite !check_seq_None, !guard_None.
  intros (Hd%negb_false_iff%String.eqb_eq & _ & H). destruct (timestampBytes _ _) as [body|] eqn:Eb; [|done].
  rewrite check_seq_None in H. destruct H as [_ H]. destruct (decodeBase64URL (ta_token a)) as [token|] eqn:Et; [|done].
  destruct (rk_detached pki token body) as [[cert|]|] eqn:Es; [|done..]. rewrite !check_seq_None, !guard_None in H.
  destruct H as (Hc%negb_false_iff & [Hb Ha]%orb_false_iff & Hn). exists cert. intros appraisal Hclose.
  unfold Before, After in *. split; [congruence|by exists token, body|done|lia|lia|done].
Qed.

Lemma requirement_pinned iter (policy : ReportPolicy Cert) rep :
  VerifyEvidenceReport iter (Some rep) policy = None → pins_present rep policy = None → ∀ req, rp_requirement rep = Some req →
  ∃ want d, pl_requirement_digest policy = Some want ∧ rp_projected_digest rep = Some d ∧ digest_Equal d want = true ∧
    ∃ own, req_Digest req = inl own ∧ digest_Equal own d = true.
Proof.
  unfold VerifyEvidenceReport, pins_present. rewrite !check_seq_None. intros (Hv & _ & _ & _ & _ & Hr & _) [_ Hp] req E.
  apply ValidateEvidenceReport_None in Hv as [_ _ Hb _ _ _ _]. unfold requirement_bound in Hb. rewrite E in Hb, Hp.
  destruct (pl_requirement_digest policy) as [want|]; [|done]. destruct (rp_projected_digest rep) as [d|]; [|done].
  exists want, d. do 2 (split; [done|]). apply guard_None, negb_false_iff in Hr. split; [done|].
  destruct (req_Digest req) as [own|]; [|done]. exists own. split; [done|]. by apply guard_None, negb_false_iff in Hb.
Qed.

Lemma profile_is_pinned iter (policy : ReportPolicy Cert) rep :
  ValidateEvidenceReport iter (Some rep) = None → pins_present rep policy = None → profile_pinned rep policy = None →
  ∀ p, rp_profile rep = Some p → pf_digest p = pl_profile_digest policy ∧ profile_Digest p = Some (pl_profile_digest policy).
Proof.
  unfold pins_present, profile_pinned. intros [Hp _ _ _ _ _ _]%ValidateEvidenceReport_None [H1 _]%check_seq_None H2 p E.
  destruct (Hp p E) as [Hok _]. rewrite E in H1, H2. apply check_seq_None in H1 as [H1 H3].
  rewrite guard_None in H1, H3. rewrite H3 in H2. apply guard_None, negb_false_iff, String.eqb_eq in H2.
  split; [done|]. rewrite <- H2. destruct (decide (profile_Digest p = Some (pf_digest p))) as [|Hne]; [done|].
  unfold profile_ok in Hok. rewrite H1, (bool_decide_eq_false_2 _ Hne) in Hok. cbn [negb andb] in Hok. by repeat case_match.
Qed.

Lemma recomputeSatisfaction_None rep t :
  rp_appraisal_time rep = Some t → recomputeSatisfaction rep = None →
  match rp_satisfaction rep with
  | Some s => ∃ req t got, rp_requirement rep = Some req ∧ rp_appraisal_time rep = Some t ∧
      EvaluateRequirement req (rf_fact <$> rp_facts rep) (mkCtx (in_at t) "" "") = inl got ∧ s = satisfaction_of got
  | None => rp_requirement rep = None
  end.
Proof.
  unfold recomputeSatisfaction. intros Et H. rewrite Et in H. cbn [from_option] in H.
  destruct (rp_requirement rep) as [req|], (rp_satisfaction rep) as [s|]; try done.
  destruct (EvaluateRequirement _ _ _) as [got|] eqn:E; [|done]. apply guard_None, negb_false_iff, bool_decide_eq_true in H.
  by exists req, t, got.
Qed.

Lemma VerifyAt_binds iter wall env stamp policy rep next :
  VerifySignedEvidenceReportAt pki iter wall (Some env) stamp policy = inl (rep, next) →
  report_binds iter policy (verification_instant wall policy) env stamp rep next.
Proof.
  unfold VerifySignedEvidenceReportAt. destruct (String.eqb (re_payload_type env) _) eqn:Ety; [|done]. cbn [negb].
  destruct (EnvelopeBytes (Some env)) as [[payload sigs]|] eqn:Eb; [|done]. destruct (String.eqb payload ""); [done|].
  destruct (length sigs =? 0)%nat eqn:Es; [done|]. set (now := verification_instant wall policy).
  destruct (check_timestamp _ _ _ _ _) eqn:Est; [done|]. destruct (verify_signatures _ _ _ _ _) as [signers|] eqn:Esig; [|done].
  destruct (decodeSignedReport payload) as [rep'|]; [|done]. unfold check_decoded.
  destruct (canonical_of (report_json rep')) as [canonical|] eqn:Ec; [|done]. destruct (guard _ _ ;;? _) eqn:Eall; [done|].
  destruct (CheckReportLifecycle rep' policy) as [next'|] eqn:El; [|done]. intros [= -> ->].
  rewrite !check_seq_None in Eall. destruct Eall as (Hcan & Hver & Hpol & Hpin & Hanc & Hage & Hsat).
  apply guard_None, negb_false_iff, String.eqb_eq in Hcan as ->.
  destruct (rp_verifier rep) as [v|] eqn:Ev; [|done]. apply check_seq_None in Hver as [Hpins Hprin].
  pose proof Hpol as [Hval _]%check_seq_None. destruct (ValidateEvidenceReport_None _ _ Hval) as [_ _ _ _ (t & Et & _) _ _].
  split.
  - exists payload, sigs, v. do 3 (split; [done|]). split; [by destruct sigs|].
    apply (verify_signatures_inl policy now payload v sigs signers Esig). intros aic Ha. rewrite check_all_None in Hprin.
    by apply Hprin, guard_None, negb_false_iff in Ha.
  - done.
  - by apply (requirement_pinned iter).
  - by apply (profile_is_pinned iter).
  - by apply (recomputeSatisfaction_None _ t).
  - exists t. split; [done|]. unfold checkReportAge in Hage. rewrite Et in Hage. apply check_seq_None in Hage as [Hf Ho].
    rewrite guard_None in Hf, Ho. unfold After in Hf. split; [destruct (0 <? pl_max_clock_skew policy); lia|].
    split; [|split].
    + intros Hm. rewrite (proj2 (Z.ltb_lt _ _) Hm) in Ho. cbn [andb] in Ho. destruct stamp as [a|]; cbn in Ho |- *.
      * destruct (IsZero _); cbn [negb] in Ho; lia.
      * lia.
    + intros Hr ->. unfold check_timestamp in Est. by rewrite Hr in Est.
    + intros a ->. apply verifyTimestamp_None in Est as [cert Hc]. exists cert. apply Hc. intros Hnz.
      unfold anchored in Hanc. cbn [from_option] in Hanc. unfold IsZero in Hanc. rewrite (proj2 (Z.eqb_neq _ _) Hnz), Et in Hanc.
      apply guard_None, orb_false_iff in Hanc as [H1 H2]. unfold After in H1. lia.
  - done.
Qed.
End accepted.

(** C34: an accepted signed report is what its verifier signed and what the deployer
    pinned.  The signed bytes are the canonical form of the returned report; every
    signature over them verifies, chains to a root at the verification instant,
    and its certificate's own key identifies the report's verifier (and an allowed
    one); the requirement and the profile are the pinned ones, with their digests
    recomputed; the verdict is the evaluation of that requirement over the report's
    facts at its appraisal instant; the report is neither from the future nor too
    old, a required timestamp covers this envelope and lies close to the appraisal;
    a required attestation was accepted for this envelope; and the returned
    snapshot state is the one the lifecycle check reached. *)
Theorem signed_report_binds {Cert} (pki : ReportPKI Cert) iter wall env stamp attestation policy rep next :
  VerifySignedReport pki iter wall (Some (mkSigned (Some env) stamp attestation)) policy = inl (rep, next) →
  (∃ policy', report_binds pki iter policy' (verification_instant wall policy) env stamp rep next ∧
     policy' = match attestation with Some _ => attested policy | None => policy end) ∧
  (pl_require_attestation policy = true → attestation ≠ None) ∧
  (rp_assurance rep = AssuranceE3 → attestation ≠ None ∨ pl_attestation_verified policy = true) ∧
  ∀ a, attestation = Some a → ∃ verify, pl_attestation_verifier policy = Some verify ∧
    EnvelopeDigest (Some env) = Some (at_digest a) ∧ verify a (at_digest a) = true.
Proof.
  unfold VerifySignedReport. destruct (EnvelopeDigest (Some env)) as [digest|] eqn:Ed; [|done].
  destruct attestation as [a|].
  - destruct (String.eqb (at_digest a) digest) eqn:Ea; [|done]. apply String.eqb_eq in Ea. cbn [negb].
    destruct (pl_attestation_verifier policy) as [verify|]; [|done]. destruct (verify a digest) eqn:Ev; [|done].
    intros H%VerifyAt_binds. split; [by exists (attested policy)|]. do 2 (split; [by try left|]).
    intros ? [= <-]. exists verify. rewrite Ea. done.
  - destruct (pl_require_attestation policy) eqn:Er; [done|]. intros H%VerifyAt_binds. split; [by exists policy|].
    split; [done|]. split; [|done]. intros E3. right. destruct H as [_ Hp _ _ _ _ _]. unfold VerifyEvidenceReport in Hp.
    rewrite !check_seq_None in Hp. destruct Hp as (_ & _ & _ & _ & _ & _ & _ & Ha & _). unfold assurance_policy in Ha.
    rewrite !check_seq_None, !guard_None in Ha. destruct Ha as (_ & Ha & _). rewrite E3 in Ha. cbn in Ha. by apply negb_false_iff.
Qed.

(** What a timestamp authority signs fixes the asserted instant to the second only:
    one token stands for every instant of its second. *)
Lemma timestamp_to_the_second digest t t' : t / Second = t' / Second → timestampBytes digest t = timestampBytes digest t'.
Proof.
  intros E. assert (second_text t = second_text t') as H; [|unfold timestampBytes; by rewrite H].
  unfold second_text, civil_of. rewrite !Z.mul_0_l, !Z.add_0_r, E. destruct (date_of _) as [[y m] d]. reflexivity.
Qed.

(** ** What is signed is accepted *)

Lemma text_of_bytes s : text_of (bytes_of s) = s.
Proof.
  unfold text_of, bytes_of. rewrite <- (String.string_of_list_ascii_of_string s) at 2. f_equal.
  induction (String.list_ascii_of_string s) as [|c l IH]; [done|]. cbn. rewrite chr_code. by f_equal.
Qed.

Lemma text_of_length l : String.length (text_of l) = length l.
Proof. unfold text_of. induction l as [|c l IH]; [done|]. cbn. by rewrite <- IH. Qed.

Lemma decodeBase64URL_encode l : Forall is_byte l → decodeBase64URL (RawURLEncoding l) = Some (text_of l).
Proof.
  intros H. unfold decodeBase64URL, RawURLEncoding. rewrite b64_decode_encode by done. cbn [mbind option_bind].
  by rewrite String.eqb_refl.
Qed.

Lemma decode_canonical rep payload :
  report_wf rep → canonical_of (report_json rep) = Some payload → Z.of_nat (String.length payload) <= MaxReportBytes →
  decodeSignedReport payload = inl rep.
Proof.
  intros Hw Hc Hl. unfold canonical_of in Hc. destruct (report_json rep) as [j|] eqn:Ej; [|done]. cbn [mbind option_bind] in Hc.
  destruct (CanonicalJSON j) as [t|] eqn:Et; [|done]. simplify_eq. destruct (reads_report rep j Hw Ej) as [[Hn Hk] Hr].
  unfold decodeSignedReport. rewrite (proj2 (Z.ltb_ge _ _) Hl), (CanonicalJSON_Check_dups _ _ Et Hn Hk). cbn [negb].
  rewrite (CanonicalJSON_document _ _ Et Hn). cbn [mbind option_bind]. by rewrite Hr.
Qed.

(** What the signature library documents: a signature that was built verifies over
    the content it was built for and gives the signer's certificate back. *)
Record signer_law {Cert} (pki : ReportPKI Cert) (build : string → option (list Z)) (cert : Cert) : Prop := {
  sl_bytes : ∀ content der, build content = Some der → Forall is_byte der ∧ Z.of_nat (length der) <= MaxSignatureBytes;
  sl_verifies : ∀ content der, build content = Some der → rk_detached pki (text_of der) content = Some (Some cert)
}.

(** The deployer's checks on a report that needs no envelope. *)
Definition deployer_checks {Cert} (iter : gomap (list string) → gomap (list string)) (now : Time) (policy : ReportPolicy Cert)
    (rep : Report) : (Report * SnapshotState) + report_code :=
  match pins_present rep policy ;;? VerifyEvidenceReport iter (Some rep) policy ;;? profile_pinned rep policy ;;?
        checkReportAge rep policy now 0 ;;? recomputeSatisfaction rep with
  | Some e => inr e
  | None => match CheckReportLifecycle rep policy with inr e => inr e | inl next => inl (rep, next) end
  end.

Lemma bytes_of_bytes s : Forall is_byte (bytes_of s).
Proof.
  unfold bytes_of. apply list.Forall_forall. intros x Hx%list_elem_of_In. apply in_map_iff in Hx as (c & <- & _).
  unfold is_byte. apply code_range.
Qed.

Lemma SignEvidenceReport_inl {Cert} (pki : ReportPKI Cert) iter build rep0 cert rep env :
  SignEvidenceReport pki iter build (Some rep0) (Some cert) = inl (rep, env) →
  ∃ v aic payload der, rp_verifier rep = Some v ∧ certificateIdentity pki cert = inl aic ∧
    principalMatches (vi_principal v) aic = true ∧ canonical_of (report_json rep) = Some payload ∧
    build (PAE ReportPayloadType payload) = Some der ∧
    env = mkREnvelope ReportPayloadType (RawURLEncoding (bytes_of payload))
            [mkRSignature (RawURLEncoding (mustKeyHash pki cert)) (RawURLEncoding der)].
Proof.
  unfold SignEvidenceReport. destruct (fill_requirement_digest rep0) as [r|]; [|done].
  destruct (rp_verifier r) as [v|] eqn:Ev; [|done]. destruct (ValidateEvidenceReport iter (Some r)); [done|].
  destruct (certificateIdentity pki cert) as [aic|] eqn:Ei; [|done].
  destruct (principalMatches (vi_principal v) aic) eqn:Em; [|done]. cbn [negb].
  destruct (canonical_of (report_json r)) as [payload|] eqn:Ec; [|done].
  destruct (build (PAE ReportPayloadType payload)) as [der|] eqn:Eb; [|done]. intros [= <- <-].
  by exists v, aic, payload, der.
Qed.

(** C35: the envelope is transparent.  Take a report whose instants are calendar
    instants in UTC, whose integers the canonical form writes digit for digit, whose
    metadata is listed by its keys, without repetition, and whose digests are bytes;
    its canonical text is within the size limit of a report.  Let it be signed by
    a primitive whose signatures are bytes within the size limit and verify to the
    signing certificate, let the deployer's roots and allowlist accept that
    certificate, and let the policy require no timestamp.  Then verifying the
    envelope ends exactly as the deployer's own checks on that report end: it is
    accepted, with the same next snapshot state, or refused with the same code.
    The report that comes back is the one that was signed. *)
Theorem signed_envelope_transparent {Cert} (pki : ReportPKI Cert) iter build wall rep0 rep cert env policy :
  SignEvidenceReport pki iter build (Some rep0) (Some cert) = inl (rep, env) →
  report_wf rep → (∀ payload, canonical_of (report_json rep) = Some payload → Z.of_nat (String.length payload) <= MaxReportBytes) →
  signer_law pki build cert →
  verifyReportCertificate pki cert (pl_roots policy) (verification_instant wall policy) = true →
  (∀ aic, certificateIdentity pki cert = inl aic → pl_principals policy = [] ∨ principalAllowed (pl_principals policy) aic = true) →
  pl_require_timestamp policy = false →
  VerifySignedEvidenceReport pki iter wall (Some env) policy =
    deployer_checks iter (verification_instant wall policy) policy rep.
Proof.
  intros (v & aic & payload & der & Ev & Ei & Em & Ec & Eb & ->)%SignEvidenceReport_inl Hw Hl [Hb Hd] Hchain Hallow Hts.
  specialize (Hl payload Ec). destruct (Hb _ _ Eb) as [Hby Hlen].
  unfold VerifySignedEvidenceReport, VerifySignedEvidenceReportAt. cbn [re_payload_type]. rewrite String.eqb_refl. cbn [negb].
  assert (EnvelopeBytes (Some (mkREnvelope ReportPayloadType (RawURLEncoding (bytes_of payload))
    [mkRSignature (RawURLEncoding (mustKeyHash pki cert)) (RawURLEncoding der)])) = Some (payload, [text_of der])) as ->.
  { unfold EnvelopeBytes. cbn [mbind option_bind re_signatures re_payload length]. change (MaxEnvelopeSignatures <? Z.of_nat 1) with false.
    rewrite decodeBase64URL_encode, text_of_bytes by apply bytes_of_bytes. cbn [mbind option_bind]. rewrite (proj2 (Z.ltb_ge _ _) Hl).
    cbn [mapM]. unfold signature_bytes. cbn [rs_sig]. rewrite decodeBase64URL_encode by done. cbn [mbind option_bind].
    by rewrite text_of_length, (proj2 (Z.ltb_ge _ _) Hlen). }
  assert (String.eqb payload "" = false) as ->.
  { destruct (String.eqb_spec payload "") as [->|]; [|done]. pose proof (decode_canonical _ _ Hw Ec Hl) as H. done. }
  cbn [length Nat.eqb]. unfold check_timestamp. cbn [is_some orb]. rewrite Hts. cbn [from_option].
  unfold verify_signatures, verify_signature. rewrite (Hd _ _ Eb), Hchain, Ei. cbn [negb].
  assert ((0 <? length (pl_principals policy))%nat && negb (principalAllowed (pl_principals policy) aic) = false) as ->.
  { destruct (Hallow aic Ei) as [->| ->]; [done|]. by rewrite andb_false_r. }
  rewrite (decode_canonical _ _ Hw Ec Hl). unfold check_decoded, deployer_checks. rewrite Ec, String.eqb_refl, Ev. cbn [negb guard check_all check_seq].
  rewrite Em. change (anchored rep 0 (anchor_skew policy)) with (@None report_code).
  destruct (pins_present rep policy); reflexivity.
Qed.

(** ** Examples *)

Definition w_sealed : Profile := Eval vm_compute in default w_profile (Seal w_profile).
Definition w_unsigned : Report := Eval vm_compute in from_inl (w_report 1 "") (BuildEvidenceReport id 0 (w_inputs (Some w_sealed) [])).
Definition w_identity : Identity := mkIdentity (mkPrincipal "verifier" "realm" (Sum256 "key")) [].
Definition w_rpki : ReportPKI unit :=
  mkReportPKI (λ sig content, if String.eqb sig (text_of (Sum256 content)) then Some (Some tt) else None)
    (λ _ _ _ _, true) (λ _, Some (Some w_identity)) (λ _, true) (λ _, "key") (λ _, 0) (λ _, 2 ^ 70).
Definition w_build (content : string) : option (list Z) := Some (Sum256 content).
Definition w_pair : Report * ReportEnvelope := Eval vm_compute in
  from_inl (w_unsigned, zero_envelope) (SignEvidenceReport w_rpki id w_build (Some w_unsigned) (Some tt)).
Definition w_requirement_digest : Digest := Eval vm_compute in
  from_inl zero_digest (req_Digest w_requirement).
Definition w_signed_policy : ReportPolicy unit :=
  mkPolicy true false [Some tt] ["principal:verifier"] (pf_digest w_sealed) (Some w_requirement_digest) [] [] [] true [] false None
    false "E2" ["status"] false (3600 * Second) 0 [] false 0 (63900000100 * Second) None true [] false.

Lemma w_signer_law : signer_law w_rpki w_build tt.
Proof.
  split; intros content der [= <-].
  - split; [apply Sum256_bytes|]. rewrite Sum256_length. done.
  - cbn [rk_detached w_rpki]. by rewrite String.eqb_refl.
Qed.

Lemma signed_report_binds_witness :
  report_binds w_rpki id w_signed_policy (63900000100 * Second) w_pair.2 None w_pair.1 (w_state 1 (w_digest "d")).
Proof.
  destruct (signed_report_binds w_rpki id 0 w_pair.2 None None w_signed_policy w_pair.1 (w_state 1 (w_digest "d")))
    as [(policy' & H & E) _]; [vm_compute; reflexivity|]. rewrite E in H. exact H.
Defined.

Lemma w_calendar t : (0 <=? cv_year (civil_of t 0)) && (cv_year (civil_of t 0) <=? 9999) = true → in_calendar t.
Proof. unfold in_calendar. lia. Qed.
Lemma w_int z : (0 <=? z) && (z <=? max_int64) && int_exact z && in_binary64 (of_Z z) = true → int_ok z.
Proof. unfold int_ok. intros [[H1 H2]%andb_true_iff H3]%andb_true_iff. split; [lia|done]. Qed.
Lemma all_bytes_checked l : forallb (λ b, (0 <=? b) && (b <? 256)) l = true → Forall is_byte l.
Proof.
  intros H. rewrite forallb_forall in H. apply list.Forall_forall. intros b Hb%list_elem_of_In. specialize (H b Hb). unfold is_byte. lia.
Qed.

Lemma w_pair_wf : report_wf w_pair.1.
Proof.
  split.
  - intros i [= <-]. split; [done|]. split; [done|]. apply w_calendar. reflexivity.
  - split; [apply list.NoDup_nil; exact I|reflexivity].
  - discriminate.
  - intros d [= <-]. apply all_bytes_checked. reflexivity.
  - intros x Hx. apply list_elem_of_singleton in Hx as ->. split; [|split].
    + split; [done|]. split; [done|]. apply w_calendar. reflexivity.
    + apply w_int. vm_compute. reflexivity.
    + intros f [= <-]. split; [discriminate|]. split; [discriminate|]. apply w_int. vm_compute. reflexivity.
  - intros a [= <-]. split; [discriminate|]. split; [discriminate|]. split; [discriminate|]. intros r Hr. by apply not_elem_of_nil in Hr.
  - intros x Hx. apply list_elem_of_singleton in Hx as ->. split; [|intros i [= <-]; apply w_int; vm_compute; reflexivity].
    intros f [= <-]. split; [done|]. apply w_calendar. reflexivity.
  - intros d Hd. apply list_elem_of_singleton in Hd as ->. apply w_int. vm_compute. reflexivity.
  - intros f Hf. apply list_elem_of_singleton in Hf as ->. split; [done|]. apply w_calendar. reflexivity.
  - intros s [= <-]. apply all_bytes_checked. reflexivity.
Qed.

Definition w_payload : string := Eval vm_compute in default "" (canonical_of (report_json w_pair.1)).

Lemma signed_envelope_transparent_witness :
  VerifySignedEvidenceReport w_rpki id 0 (Some w_pair.2) w_signed_policy =
    deployer_checks id (63900000100 * Second) w_signed_policy w_pair.1.
Proof.
  apply (signed_envelope_transparent w_rpki id w_build 0 w_unsigned w_pair.1 tt w_pair.2 w_signed_policy).
  - vm_compute. reflexivity.
  - apply w_pair_wf.
  - intros payload H. assert (Some payload = Some w_payload) as [= ->] by (etransitivity; [symmetry; exact H|vm_compute; reflexivity]).
    vm_compute. discriminate.
  - apply w_signer_law.
  - reflexivity.
  - intros aic H. assert (@inl Identity report_code aic = inl w_identity) as [= ->]
      by (etransitivity; [symmetry; exact H|vm_compute; reflexivity]). right. vm_compute. reflexivity.
  - reflexivity.
Defined.
