(* ===== verification/Projection.v ===== *)
(** * Projectors

    projection/registry.go, normalize.go, init.go, clc_native.go and emilia_aec.go
    with [Project] of report.go: foreign requirement documents are recognised,
    rewritten into a requirement of the language, and evaluated.  Errors carry only
    text, which is left out: [None] is an error. *)

From S2P Require Import Prelude GoStrings GoFloat GoTime Json Canonical JsonText JsonStruct Utf.
From S2P Require Import NumberText CanonicalText GoTimeText Evidence Sha256 Ids Values Bounds.
From S2P Require Import SchemeState.
From S2P Require Import Requirement Sources Context ActionMatch RecordJson RecordFreeze Record.
From S2P Require Import Envelope.
From S2P Require Import Challenge Report ReportData ReportLifecycle ReportValidate ReportDecode.
From S2P Require Import ReportRead ReportSigned.

(** ** Views and projectors (projector.go) *)

Record ProjectedView := mkView {
  pv_action : option ActionId;
  pv_facts : list ReportFact;
  pv_requirement : option Requirement;
  pv_source_digest : option Digest;
  pv_projected_digest : option Digest;
  pv_residuals : list string;
  pv_required_native : list string;
  pv_required_ids : list string;
  pv_meta : gomap string
}.

(** The pins of a projection; a nil map is empty. *)
Record ProjectionContext := mkProjection {
  px_now : Instant;
  px_initiator : string;
  px_executor : string;
  px_role_map : gomap string
}.

Record Projector := mkProjector {
  pj_ID : string;
  pj_Match : string → bool;
  pj_Project : string → ProjectionContext → option ProjectedView
}.

(** [sourceRequirementDigest]: a number is kept as its literal and written by the
    canonical form, so an out-of-range literal is an error either way. *)
Definition sourceRequirementDigest (raw : string) : option Digest :=
  j ← read_first raw; v ← unmarshal_any j; match DigestOf v with inl d => Some d | inr _ => None end.

(** ** The registry (registry.go): nil projectors are [None] *)

Definition Registry := list (option Projector).

Definition Register (ps : Registry) (p : option Projector) : Registry :=
  match p with
  | None => ps
  | Some q =>
      if String.eqb (pj_ID q) "" then ps
      else if existsb (λ e, match e with Some e => String.eqb (pj_ID e) (pj_ID q) | None => false end) ps then ps
      else ps ++ [p]
  end.
Definition Find (ps : Registry) (raw : string) : option Projector := List.find (λ p, pj_Match p raw) (omap id ps).
Definition List_ (ps : Registry) : list Projector := omap id ps.

(** ** Requirement documents (semantics/requirement.go) *)

(** The document is closed; what follows its first value is left unread. *)
Definition ParseRequirement (raw : string) : option Requirement :=
  if negb (Check_dups raw) then None
  else
    j ← read_first raw; req ← into_requirement zero_requirement j;
    match Validate req with Some _ => None | None => Some req end.

(** ** Documents in the language itself (clc_native.go) *)

Definition clcNative_ID : string := "clc/requirement-v1".
(** [json.Unmarshal] into a struct with one member. *)
Definition version_of (raw : string) : option string :=
  j ← read_document raw; decode_into [("@version", λ v j, in_string v j)] "" j.
Definition clcNative_Match (raw : string) : bool :=
  match version_of raw with Some v => String.eqb v RequirementVersion | None => false end.

(** The metadata both projectors write. *)
Definition view_meta (id format : string) (now : Instant) : gomap string :=
  let t := second_text (in_at now) in
  [("projector_id", id); ("source_format", format); ("mapped_at_utc", t)] ++
  (if IsZero (in_at now) then [] else [("project_ctx_now_utc", t)]).

Definition clcNative_Project (raw : string) (ctx : ProjectionContext) : option ProjectedView :=
  source ← sourceRequirementDigest raw;
  req ← ParseRequirement raw;
  match req_Digest req with
  | inr _ => None
  | inl projected =>
      Some (mkView None [] (Some req) (Some source) (Some projected) [] [] []
              (view_meta clcNative_ID RequirementVersion (px_now ctx)))
  end.

(** ** Authorization evidence chains (emilia_aec.go) *)

Record aecRoleConstraint := mkAecRole {
  ac_type : string;
  ac_component : string;
  ac_threshold : Z;
  ac_subject_source : string
}.
Record aecBinding := mkAecBinding { ab_from : string; ab_relation : string; ab_to : string }.
Record aecRequirement := mkAec {
  ae_version : string;
  ae_id : string;
  ae_purpose : string;
  ae_expression : string;
  ae_freshness : gomap Z;
  ae_status : list string;
  ae_roles : list aecRoleConstraint;
  ae_bindings : list aecBinding
}.

Definition in_int_map (old : gomap Z) (j : jtext) : option (gomap Z) :=
  match j with
  | JObj m => l ← mapM (λ kv, z ← in_int64 0 kv.2; Some (kv.1, z)) m;
              Some (fold_left (λ acc kv, mset kv.1 kv.2 acc) l old)
  | JNull => Some []
  | _ => None
  end.

Definition zero_aec_role : aecRoleConstraint := mkAecRole "" "" 0 "".
Definition into_aec_role : aecRoleConstraint → jtext → option aecRoleConstraint :=
  decode_into
    [("type", λ r j, s ← in_string (ac_type r) j;
        Some (mkAecRole s (ac_component r) (ac_threshold r) (ac_subject_source r)));
     ("component_type", λ r j, s ← in_string (ac_component r) j;
        Some (mkAecRole (ac_type r) s (ac_threshold r) (ac_subject_source r)));
     ("threshold", λ r j, z ← in_int64 (ac_threshold r) j;
        Some (mkAecRole (ac_type r) (ac_component r) z (ac_subject_source r)));
     ("subject_id_source", λ r j, s ← in_string (ac_subject_source r) j;
        Some (mkAecRole (ac_type r) (ac_component r) (ac_threshold r) s))].
Definition zero_aec_binding : aecBinding := mkAecBinding "" "" "".
Definition into_aec_binding : aecBinding → jtext → option aecBinding :=
  decode_into
    [("from_type", λ b j, s ← in_string (ab_from b) j; Some (mkAecBinding s (ab_relation b) (ab_to b)));
     ("relation", λ b j, s ← in_string (ab_relation b) j; Some (mkAecBinding (ab_from b) s (ab_to b)));
     ("to_type", λ b j, s ← in_string (ab_to b) j; Some (mkAecBinding (ab_from b) (ab_relation b) s))].

Definition aec_names : list string :=
  ["@version"; "requirement_id"; "purpose"; "expression"; "freshness_sec"; "status_required"; "role_constraints";
   "required_bindings"].
Definition zero_aec : aecRequirement := mkAec "" "" "" "" [] [] [] [].
(** [json.Unmarshal]: members without a field are skipped. *)
Definition into_aec (j : jtext) : option aecRequirement :=
  match j with
  | JObj m =>
      v ← field aec_names "@version" in_string "" m;
      i ← field aec_names "requirement_id" in_string "" m;
      p ← field aec_names "purpose" in_string "" m;
      e ← field aec_names "expression" in_string "" m;
      f ← field aec_names "freshness_sec" in_int_map [] m;
      s ← field aec_names "status_required" in_strings [] m;
      r ← field aec_names "role_constraints" (in_elems into_aec_role zero_aec_role) [] m;
      b ← field aec_names "required_bindings" (in_elems into_aec_binding zero_aec_binding) [] m;
      Some (mkAec v i p e f s r b)
  | JNull => Some zero_aec
  | _ => None
  end.

Definition emiliaAEC_ID : string := "emilia/ep-aec-requirement-v1".
Definition AECVersion : string := "EP-AEC-REQUIREMENT-v1".
Definition emiliaAEC_Match (raw : string) : bool :=
  Check_dups raw &&
  match unmarshal_object raw with
  | Some (Some m) => match mget "@version" m with Some (AStr v) => String.eqb v AECVersion | _ => false end
  | _ => false
  end.

(** A role is looked up, never guessed. *)
Definition pinnedRole (roleMap : gomap string) (foreign : string) : option string :=
  if String.eqb foreign "" then None
  else match mget foreign roleMap with
       | Some mapped => if String.eqb mapped "" then None else Some mapped
       | None => None
       end.

Definition bindingRolePrefix : string := "clc:evidence-binding:".
Definition maxBindingRoleBytes : Z := 256.
Definition isAECIdentifierByte (c : ascii) : bool :=
  is_alnum c || Ascii.eqb c "." || Ascii.eqb c ":" || Ascii.eqb c "-" || Ascii.eqb c "_".
(** [validateAECIdentifier]: true is the nil error. *)
Definition validateAECIdentifier (value : string) : bool :=
  negb (String.eqb value "") && ValidString value && str_forallb isAECIdentifierByte value.
(** [binary.BigEndian.AppendUint32]. *)
Definition uint32be (n : Z) : list Z := [n / 2 ^ 24 mod 256; n / 2 ^ 16 mod 256; n / 2 ^ 8 mod 256; n mod 256].
Definition sized (s : string) : list Z := uint32be (Z.of_nat (String.length s)) ++ bytes_of s.
Definition BindingRoleName (b : aecBinding) : option string :=
  let parts := [ab_from b; ab_relation b; ab_to b] in
  if negb (forallb (λ v, negb (maxBindingRoleBytes <? Z.of_nat (String.length v)) && validateAECIdentifier v) parts) then None
  else
    let role := bindingRolePrefix +:+ RawURLEncoding (concat (sized <$> parts)) in
    if maxBindingRoleBytes <? Z.of_nat (String.length role) then None else Some role.

(** The members the projection does not understand, by name; the texts that name
    them are left out. *)
Definition aecRoleConstraintMembers : list string := ["type"; "component_type"; "threshold"; "subject_id_source"].
Definition aecBindingMembers : list string := ["from_type"; "relation"; "to_type"].
Definition unknown_members (known : list string) (m : list (string * jtext)) : list string :=
  List.filter (λ k, negb (mem_key k known)) (sort_Strings (mkeys (raw_map m))).
Definition unknownAECMembers (m : list (string * jtext)) : list string := unknown_members aec_names m.
(** Elements that are not objects make the decoding fail, which is ignored. *)
Definition elem_members (j : jtext) : option (list (string * jtext)) :=
  match j with JObj m => Some m | JNull => Some [] | _ => None end.
Definition unknown_in (known : list string) (j : option jtext) : list string :=
  match j with
  | Some (JArr l) => match mapM elem_members l with Some ms => concat (unknown_members known <$> ms) | None => [] end
  | _ => []
  end.
Definition unknownNestedAECMembers (m : list (string * jtext)) : list string :=
  unknown_in aecRoleConstraintMembers (mget "role_constraints" (raw_map m)) ++
  unknown_in aecBindingMembers (mget "required_bindings" (raw_map m)).

(** A string as [json.Marshal] writes it and the decoder reads it back: a byte that
    is not UTF-8 becomes U+FFFD.  Strings that were themselves decoded hold none. *)
Definition coerce_utf8 (s : string) : string :=
  if ValidString s then s else foldr (λ rv t, encode_rune rv.1 +:+ t) "" (runes s).

(** The constraints of the projected requirement. *)
Definition freshness_text (n : Z) : string := "varwof/evidence-v1:freshness:sec:" +:+ Itoa n.
Definition quorum_text (n : Z) : string := "varwof/evidence-v1:quorum:distinct:" +:+ Itoa n.
Definition freshness_constraint (roleMap : gomap string) (a : aecRequirement) (r : string) : option RequirementConstraint :=
  role ← pinnedRole roleMap r; Some (mkRC (coerce_utf8 role) (freshness_text (default 0 (mget r (ae_freshness a))))).
Definition quorum_constraint (roleMap : gomap string) (rc : aecRoleConstraint) : option RequirementConstraint :=
  if negb (String.eqb (ac_type rc) "distinct-subject-quorum") then None
  else
    role ← pinnedRole roleMap (ac_component rc);
    if negb (String.eqb (ac_subject_source rc) "native-verifier") then None
    else Some (mkRC (coerce_utf8 role) (quorum_text (ac_threshold rc))).
Definition status_check (roleMap : gomap string) (r : string) : option string :=
  _ ← pinnedRole roleMap r; Some ("status_required:" +:+ r).

(** The expression parts: a binding role is added once. *)
Fixpoint binding_parts (seen roles : list string) : list string :=
  match roles with
  | [] => []
  | r :: rest => if mem_key r seen then binding_parts seen rest else r :: binding_parts (r :: seen) rest
  end.
Fixpoint join_and (parts : list string) : string :=
  match parts with
  | [] => ""
  | [p] => p
  | p :: rest => p +:+ " AND " +:+ join_and rest
  end.
Definition binding_check (b : aecBinding) : string :=
  "required_binding:" +:+ ab_from b +:+ ":" +:+ ab_relation b +:+ ":" +:+ ab_to b.
Definition binding_residual (b : aecBinding) (role : string) : string :=
  "required_binding " +:+ ab_from b +:+ " -" +:+ ab_relation b +:+ "-> " +:+ ab_to b +:+
  ": native verifier must emit derived role " +:+ role.

(** The requirement that is marshalled and parsed again. *)
Definition projected_requirement (roleMap : gomap string) (a : aecRequirement) (roles : list string) : option Requirement :=
  fresh ← mapM (freshness_constraint roleMap a) (sort_Strings (mkeys (ae_freshness a)));
  quorum ← mapM (quorum_constraint roleMap) (ae_roles a);
  let req := mkReq RequirementVersion (ae_id a) (ae_purpose a)
               (join_and (("(" +:+ ae_expression a +:+ ")") :: binding_parts [] roles)) (fresh ++ quorum) in
  match Validate req with Some _ => None | None => Some req end.

Definition role_map_meta (roleMap : gomap string) (meta : gomap string) : gomap string :=
  fold_left (λ acc k, mset ("role_map/" +:+ k) (default "" (mget k roleMap)) acc) (sort_Strings (mkeys roleMap)) meta.

Definition emiliaAEC_Project (raw : string) (ctx : ProjectionContext) : option ProjectedView :=
  if negb (Check_dups raw) then None
  else
    source ← sourceRequirementDigest raw;
    j ← read_document raw;
    a ← into_aec j;
    m ← elem_members j;
    if (0 <? length (unknownAECMembers m ++ unknownNestedAECMembers m))%nat then None
    else
      checks ← mapM (status_check (px_role_map ctx)) (ae_status a);
      roles ← mapM BindingRoleName (ae_bindings a);
      req ← projected_requirement (px_role_map ctx) a roles;
      match req_Digest req with
      | inr _ => None
      | inl projected =>
          Some (mkView None [] (Some req) (Some source) (Some projected)
                  (zip_with binding_residual (ae_bindings a) roles)
                  (checks ++ (binding_check <$> ae_bindings a)) checks
                  (role_map_meta (px_role_map ctx) (view_meta emiliaAEC_ID AECVersion (px_now ctx))))
      end.

(** ** The registered projectors (init.go) *)

Definition emiliaAEC : Projector := mkProjector emiliaAEC_ID emiliaAEC_Match emiliaAEC_Project.
Definition clcNative : Projector := mkProjector clcNative_ID clcNative_Match clcNative_Project.
Definition init_projectors : Registry := Register (Register [] (Some emiliaAEC)) (Some clcNative).

(** ** Projecting (normalize.go, report.go) *)

Definition Normalize (wall : Time) (ps : Registry) (raw : string) (ctx : ProjectionContext) : option ProjectedView :=
  let ctx := if IsZero (in_at (px_now ctx))
             then mkProjection (mkInstant wall true 0) (px_initiator ctx) (px_executor ctx) (px_role_map ctx) else ctx in
  p ← Find ps raw; pj_Project p raw ctx.

Record ProjectOptions := mkOptions {
  op_now : Instant;
  op_role_map : gomap string;
  op_facts : option (list ReportFact);
  op_results : list NativeCheckResult;
  op_expectations : list NativeCheckExpectation
}.

(** [Project]; an error of the report is a code, one of the projection is not. *)
Definition Project (iter : gomap (list string) → gomap (list string)) (wall : Time) (ps : Registry) (raw : string)
    (opts : ProjectOptions) : option (Report + report_code) :=
  results ← normalizeResults (op_results opts);
  p ← Find ps raw;
  let now := if IsZero (in_at (op_now opts)) then mkInstant wall true 0 else op_now opts in
  view ← pj_Project p raw (mkProjection now "" "" (op_role_map opts));
  Some (BuildEvidenceReport iter wall
    (mkEvidenceInputs (pj_ID p) (default "" (mget "source_format" (pv_meta view))) (pv_meta view) (pv_requirement view)
       (pv_source_digest view) (pv_projected_digest view) (pv_required_native view) (pv_required_ids view)
       (op_expectations opts) results None None "" "" (op_facts opts) None [] (pv_residuals view) now)).
Definition ProjectAndEvaluate (iter : gomap (list string) → gomap (list string)) (wall : Time) (ps : Registry) (raw : string)
    (facts : option (list ReportFact)) (now : Instant) : option (Report + report_code) :=
  Project iter wall ps raw (mkOptions now [] facts [] []).
