(* ===== verification/ProjectionProofs.v ===== *)
(** * Projectors: what a projection keeps

    The role of a binding names one binding; a projected requirement that is
    satisfied has met every obligation of the document it was projected from. *)

From S2P Require Import Prelude GoStrings Regex GoFloat GoTime Json Canonical JsonText.
From S2P Require Import JsonStruct Utf.
From S2P Require Import NumberText CanonicalText GoTimeText Evidence Sha256 Ids Values Bounds.
From S2P Require Import SchemeState.
From S2P Require Import Requirement Sources Context ActionMatch RecordJson RecordFreeze Record.
From S2P Require Import Envelope.
From S2P Require Import Challenge Report ReportData ReportLifecycle ReportValidate ReportDecode.
From S2P Require Import ReportRead ReportSigned Projection.

(** ** Parsing inside parentheses *)

(** Two runs, one of them with more tokens behind a token that is no operator, find
    the same expression. *)
Lemma parse_embed t0 more : requirementOperator t0 = None → ∀ f,
  (∀ d ts n x rest n1 g e m x' rest' m1,
     parseTerm f d ts n = Some (inl (x, (rest, n1))) → parseTerm g e (ts ++ t0 :: more) m = Some (inl (x', (rest', m1))) →
     x' = x ∧ rest' = rest ++ t0 :: more) ∧
  (∀ d ts n x rest n1 g e m x' rest' m1,
     parseExpr f d ts n = Some (inl (x, (rest, n1))) → parseExpr g e (ts ++ t0 :: more) m = Some (inl (x', (rest', m1))) →
     x' = x ∧ rest' = rest ++ t0 :: more) ∧
  (∀ d l ts n x rest n1 g e m x' rest' m1,
     parseRest f d l ts n = Some (inl (x, (rest, n1))) → parseRest g e l (ts ++ t0 :: more) m = Some (inl (x', (rest', m1))) →
     x' = x ∧ rest' = rest ++ t0 :: more).
Proof.
  intros Ht0 f. induction f as [|f (IT & IE & IR)]; [done|]. split_and!.
  - intros d ts n x rest n1 [|g] e m x' rest' m1; [done|]. cbn [parseTerm]. destruct ts as [|tok ts]; [done|]. cbn [app].
    destruct (String.eqb tok "(").
    + intros (y & ts1 & k1 & H1 & H)%pbind_Some (y' & ts1' & k1' & H1' & H')%pbind_Some.
      destruct (IE _ _ _ _ _ _ _ _ _ _ _ _ H1 H1') as [-> ->]. destruct ts1 as [|t ts1]; [done|]. cbn [app] in H'.
      destruct (String.eqb t ")"); [|done]. by simplify_eq.
    + destruct (_ || _); [done|]. intros. by simplify_eq.
  - intros d ts n x rest n1 [|g] e m x' rest' m1; [done|]. cbn [parseExpr]. destruct (_ <? d); [done|]. destruct (_ <? e); [done|].
    intros (y & ts1 & k1 & H1 & H)%pbind_Some (y' & ts1' & k1' & H1' & H')%pbind_Some.
    destruct (IT _ _ _ _ _ _ _ _ _ _ _ _ H1 H1') as [-> ->]. by eapply IR.
  - intros d l ts n x rest n1 [|g] e m x' rest' m1; [done|]. cbn [parseRest]. destruct ts as [|tok ts]; cbn [app].
    + rewrite Ht0. intros. by simplify_eq.
    + destruct (requirementOperator tok) as [op|]; [|intros; by simplify_eq].
      intros (y & ts1 & k1 & H1 & H)%pbind_Some (y' & ts1' & k1' & H1' & H')%pbind_Some.
      destruct (IT _ _ _ _ _ _ _ _ _ _ _ _ H1 H1') as [-> ->]. destruct (_ <? k1 + 1); [done|]. destruct (_ <? k1' + 1); [done|].
      by eapply IR.
Qed.

(** ** Conjuncts at the end *)

Definition and_tokens (rs : list string) : list string := rs ≫= (λ r, ["AND"; r]).
Definition conjoin (x : requirementExpr) (rs : list string) : requirementExpr :=
  fold_left (λ acc r, Binary AND acc (Ident r)) rs x.

Lemma eval_conjoin p rs : ∀ x, eval p (conjoin x rs) = eval p x && forallb p rs.
Proof.
  induction rs as [|r rs IH]; intros x; cbn [conjoin fold_left forallb]; [by rewrite andb_true_r|].
  unfold conjoin in IH. rewrite IH. cbn [eval]. by rewrite andb_assoc.
Qed.

Lemma parse_ident f d r ts n : role_name r = true → parseTerm (S f) d (r :: ts) n = Some (inl (Ident r, (ts, n))).
Proof.
  unfold role_name. rewrite !andb_true_iff, !negb_true_iff. intros [[H1 H2] H3]. cbn [parseTerm]. by rewrite H1, H2, H3.
Qed.

Lemma parseRest_and rs : forallb role_name rs = true → ∀ f d l n x rest n1,
  parseRest f d l (and_tokens rs) n = Some (inl (x, (rest, n1))) → x = conjoin l rs ∧ rest = [].
Proof.
  induction rs as [|r rs IH]; intros Hr [|f] d l n x rest n1; [done| |done|].
  - cbn. intros. by simplify_eq.
  - cbn [forallb] in Hr. apply andb_true_iff in Hr as [Hr Hrs]. change (and_tokens (r :: rs)) with ("AND" :: r :: and_tokens rs).
    cbn [parseRest]. change (requirementOperator "AND") with (Some AND). cbv iota.
    intros (y & ts1 & k1 & H1 & H)%pbind_Some. destruct f as [|f]; [done|]. rewrite parse_ident in H1 by done. simplify_eq.
    destruct (_ <? _); [done|]. apply (IH Hrs) in H. exact H.
Qed.

Lemma parse_suffix rs : rs ≠ [] → forallb role_name rs = true → ∀ f,
  (∀ d ts n x rest n1, parseTerm f d (ts ++ and_tokens rs) n = Some (inl (x, (rest, n1))) → ∃ ts', rest = ts' ++ and_tokens rs) ∧
  (∀ d ts n x rest n1, parseExpr f d (ts ++ and_tokens rs) n = Some (inl (x, (rest, n1))) →
     (∃ ts', rest = ts' ++ and_tokens rs) ∨ rest = [] ∧ ∃ y, x = conjoin y rs) ∧
  (∀ d l ts n x rest n1, parseRest f d l (ts ++ and_tokens rs) n = Some (inl (x, (rest, n1))) →
     (∃ ts', rest = ts' ++ and_tokens rs) ∨ rest = [] ∧ ∃ y, x = conjoin y rs).
Proof.
  intros Hne Hr f. induction f as [|f (IT & IE & IR)]; [done|]. split_and!.
  - intros d ts n x rest n1. cbn [parseTerm]. destruct ts as [|tok ts]; cbn [app].
    + destruct rs as [|r rs]; [done|]. done.
    + destruct (String.eqb tok "(").
      * intros (y & ts1 & k1 & H1 & H)%pbind_Some. apply IE in H1 as [[ts' ->]|[-> _]]; [|done].
        destruct ts' as [|t ts']; cbn [app] in H.
        { destruct rs as [|r rs]; done. }
        destruct (String.eqb t ")"); [|done]. simplify_eq. by exists ts'.
      * destruct (_ || _); [done|]. intros. simplify_eq. by exists ts.
  - intros d ts n x rest n1. cbn [parseExpr]. destruct (_ <? d); [done|].
    intros (y & ts1 & k1 & H1 & H)%pbind_Some. apply IT in H1 as [ts' ->]. by apply IR in H.
  - intros d l ts n x rest n1. destruct ts as [|tok ts].
    + cbn [app]. intros H. right. apply parseRest_and in H as [-> ->]; [|done]. split; [done|]. by exists l.
    + cbn [parseRest app]. destruct (requirementOperator tok) as [op|].
      * intros (y & ts1 & k1 & H1 & H)%pbind_Some. apply IT in H1 as [ts' ->]. destruct (_ <? _); [done|]. by apply IR in H.
      * intros. simplify_eq. left. by exists (tok :: ts).
Qed.

(** ** Scanning the joined expression *)

Lemma emit_app cur a b : emit cur (a ++ b) = emit cur a ++ b.
Proof. by destruct cur. Qed.

(** A byte that ends an identifier and begins nothing longer. *)
Definition boundary (c : ascii) : bool := negb (isIdentByte c) && negb (Ascii.eqb c "&") && negb (Ascii.eqb c "|").

Lemma scan_boundary c t cur b : boundary c = true → scan cur (String c t) = inl b → ∃ b', scan "" (String c t) = inl b' ∧ b = emit cur b'.
Proof.
  unfold boundary. rewrite !andb_true_iff, !negb_true_iff. intros [[H1 H2] H3]. cbn [scan]. rewrite H1, H2, H3.
  destruct (is_blank c).
  - intros (ts & -> & [= <-])%rbind_inl. cbn. by exists ts.
  - destruct (_ || _); [|done]. intros (ts & -> & [= <-])%rbind_inl. cbn. by eexists.
Qed.

Lemma scan_split c t : boundary c = true → ∀ n s cur ts, (String.length s <= n)%nat → scan cur (s +:+ String c t) = inl ts →
  ∃ a b, scan cur s = inl a ∧ scan "" (String c t) = inl b ∧ ts = a ++ b.
Proof.
  intros Hc n. induction n as [|n IH]; intros s cur ts Hn H.
  { destruct s; [|cbn in Hn; lia]. apply scan_boundary in H as (b & Hb & ->); [|done]. exists (emit cur []), b.
    by rewrite <- emit_app. }
  destruct s as [|c1 s]; [apply scan_boundary in H as (b & Hb & ->); [|done]; exists (emit cur []), b; by rewrite <- emit_app|].
  rewrite append_cons in H. cbn [scan String.length] in *. destruct (isIdentByte c1); [apply IH in H; [done|lia]|].
  destruct (is_blank c1).
  { apply rbind_inl in H as (ts1 & H1 & [= <-]). apply IH in H1 as (a & b & -> & Hb & ->); [|lia].
    exists (emit cur a), b. cbn. by rewrite emit_app. }
  destruct (Ascii.eqb c1 "(" || Ascii.eqb c1 ")").
  { apply rbind_inl in H as (ts1 & H1 & [= <-]). apply IH in H1 as (a & b & -> & Hb & ->); [|lia].
    exists (emit cur (String c1 "" :: a)), b. cbn. by rewrite <- emit_app. }
  destruct (Ascii.eqb c1 "&" || Ascii.eqb c1 "|") eqn:Eop; [|done]. destruct s as [|c2 s].
  - change ("" +:+ String c t) with (String c t) in H. cbv iota beta in H. destruct (Ascii.eqb c c1) eqn:E2; [|done]. apply Ascii.eqb_eq in E2 as ->. unfold boundary in Hc.
    apply andb_true_iff in Hc as [Hc H2%negb_true_iff]. apply andb_true_iff in Hc as [_ H1%negb_true_iff]. by rewrite H1, H2 in Eop.
  - rewrite append_cons in H. destruct (Ascii.eqb c2 c1); [|done]. apply rbind_inl in H as (ts1 & H1 & [= <-]).
    cbn in Hn. apply IH in H1 as (a & b & -> & Hb & ->); [|lia].
    exists (emit cur (String c1 (String c1 "") :: a)), b. cbn. by rewrite <- emit_app.
Qed.

Lemma scan_ident r : str_forallb isIdentByte r = true → ∀ cur, scan cur r = inl (emit (cur +:+ r) []).
Proof.
  induction r as [|c r IH]; intros Hr cur; [by rewrite str_app_nil|]. cbn [str_forallb] in Hr. apply andb_true_iff in Hr as [Hc Hr].
  cbn [scan]. rewrite Hc, (IH Hr), <- str_app_assoc. done.
Qed.

(** The roles appended to an expression. *)
Fixpoint and_text (rs : list string) : string := match rs with [] => "" | r :: rest => " AND " +:+ r +:+ and_text rest end.
Lemma join_and_text p rs : join_and (p :: rs) = p +:+ and_text rs.
Proof.
  revert p. induction rs as [|r rs IH]; intros p; [cbn; by rewrite str_app_nil|]. cbn [and_text].
  change (join_and (p :: r :: rs)) with (p +:+ " AND " +:+ join_and (r :: rs)). by rewrite IH.
Qed.

Definition role_text (r : string) : bool := negb (String.eqb r "") && str_forallb isIdentByte r && role_name r.

Lemma scan_and_text rs : forallb role_text rs = true → ∀ b, scan "" (and_text rs) = inl b → b = and_tokens rs.
Proof.
  induction rs as [|r rs IH]; cbn [forallb and_text]; [by intros _ b [= <-]|]. intros [Hr Hrs]%andb_true_iff b H.
  unfold role_text in Hr. apply andb_true_iff in Hr as [[Hne Hid]%andb_true_iff _].
  change (" AND " +:+ r +:+ and_text rs) with (String " " ("AND" +:+ String " " (r +:+ and_text rs))) in H.
  apply (scan_split " " _ eq_refl 0 "" "") in H as (a & b1 & Ha & H & ->); [|done]. cbn [scan] in Ha. simplify_eq.
  cbn [scan] in H. change (isIdentByte " ") with false in H. change (is_blank " ") with true in H. cbv iota in H.
  apply rbind_inl in H as (ts & H & [= <-]). apply (scan_split " " _ eq_refl 3 "AND" "") in H as (a & b2 & Ha & H & ->); [|cbn; lia].
  rewrite scan_ident in Ha by done. cbn in Ha. simplify_eq. cbn [scan] in H. change (isIdentByte " ") with false in H.
  change (is_blank " ") with true in H. cbv iota in H. apply rbind_inl in H as (ts & H & [= <-]). cbn [emit app].
  assert (ts = r :: and_tokens rs) as ->; [|done]. destruct rs as [|r2 rs].
  - cbn [and_text] in H. rewrite str_app_nil, scan_ident in H by done. by destruct r; simplify_eq.
  - change (and_text (r2 :: rs)) with (String " " ("AND " +:+ r2 +:+ and_text rs)) in *.
    apply (scan_split " " _ eq_refl (String.length r)) in H as (a & b3 & Ha & H & ->); [|done]. rewrite scan_ident in Ha by done.
    apply (IH Hrs) in H as ->. by destruct r; simplify_eq.
Qed.

(** An expression in parentheses, followed by roles: the roles are conjuncts, and
    the expression, where it parses on its own, is the other one. *)
Lemma parse_conjoined e rs x :
  forallb role_text rs = true → parseRequirementExpression (join_and (("(" +:+ e +:+ ")") :: rs)) = inl x →
  (∃ y, x = conjoin y rs) ∧ ∀ y, parseRequirementExpression e = inl y → x = conjoin y rs.
Proof.
  intros Hrs H. rewrite join_and_text in H. unfold parseRequirementExpression in H. destruct (String.eqb (TrimSpace _) ""); [done|].
  apply rbind_inl in H as (ts & Htok & Hparse). unfold tokenizeRequirement in Htok. apply rbind_inl in Htok as (ts0 & Hscan & Htok).
  assert (ts0 = ts) as -> by (destruct ts0; [done|by simplify_eq]). clear Htok.
  change (("(" +:+ e +:+ ")") +:+ and_text rs) with (String "(" ((e +:+ ")") +:+ and_text rs)) in Hscan.
  rewrite <- str_app_assoc in Hscan. change (")" +:+ and_text rs) with (String ")" (and_text rs)) in Hscan.
  cbn [scan] in Hscan. change (isIdentByte "(") with false in Hscan. change (is_blank "(") with false in Hscan.
  change (Ascii.eqb "(" "(" || Ascii.eqb "(" ")") with true in Hscan. cbv iota in Hscan.
  apply rbind_inl in Hscan as (ts1 & Hscan & [= <-]). apply (scan_split ")" _ eq_refl (String.length e)) in Hscan as (te & b & He & Hb & ->); [|done].
  cbn [scan] in Hb. change (isIdentByte ")") with false in Hb. change (is_blank ")") with false in Hb.
  change (Ascii.eqb ")" "(" || Ascii.eqb ")" ")") with true in Hb. cbv iota in Hb. apply rbind_inl in Hb as (tb & Hb & [= <-]).
  apply (scan_and_text rs Hrs) in Hb as ->. cbn [emit] in Hparse.
  assert (forallb role_name rs = true) as Hnames.
  { rewrite forallb_forall in *. intros r Hr. specialize (Hrs r Hr). unfold role_text in Hrs. by apply andb_true_iff in Hrs as [_ ?]. }
  unfold parse_tokens in Hparse. destruct (parseExpr _ 0 _ 0) as [[[x0 [rest n]]|]|] eqn:Ep; [|done..].
  destruct rest; [|done]. simplify_eq. split.
  - destruct rs as [|r rs]; [by exists x|].
    change (String "(" "" :: te ++ String ")" "" :: and_tokens (r :: rs))
      with ((String "(" "" :: te) ++ String ")" "" :: and_tokens (r :: rs)) in Ep.
    rewrite cons_middle, app_assoc in Ep. apply parse_suffix in Ep as [[ts' E]|[_ ?]]; [|done..].
    by destruct ts'.
  - intros y Hy. unfold parseRequirementExpression in Hy. destruct (String.eqb (TrimSpace e) ""); [done|].
    unfold tokenizeRequirement in Hy. rewrite He in Hy. cbn [rbind] in Hy. destruct te as [|t te]; [done|]. cbn [rbind] in Hy.
    unfold parse_tokens in Hy. destruct (parseExpr (parse_fuel (t :: te)) 0 (t :: te) 0) as [[[y0 [rest' n']]|]|] eqn:Ey; [|done..].
    destruct rest'; [|done]. simplify_eq. revert Ep. generalize (parse_fuel (String "(" "" :: (t :: te) ++ String ")" "" :: and_tokens rs)).
    intros [|F] Ep; [done|]. cbn [parseExpr] in Ep. change (maxRequirementDepth <? 0) with false in Ep. cbv iota in Ep.
    apply pbind_Some in Ep as (z & ts1 & k1 & H1 & H). destruct F as [|F]; [done|]. cbn [parseTerm] in H1.
    change (String.eqb (String "(" "") "(") with true in H1. cbv iota in H1. apply pbind_Some in H1 as (z' & ts2 & k2 & H2 & H1).
    destruct (parse_embed (String ")" "") (and_tokens rs) eq_refl (parse_fuel (t :: te))) as (_ & Hemb & _).
    destruct (Hemb _ _ _ _ _ _ _ _ _ _ _ _ Ey H2) as [-> ->]. cbn [app] in H1.
    change (String.eqb (String ")" "") ")") with true in H1. cbv iota in H1. simplify_eq.
    by apply (parseRest_and rs Hnames) in H as [-> _].
Qed.

Lemma binding_parts_elem roles : ∀ seen r, r ∈ binding_parts seen roles ↔ r ∈ roles ∧ r ∉ seen.
Proof.
  induction roles as [|r0 roles IH]; intros seen r; cbn [binding_parts]; [set_solver|].
  destruct (mem_key r0 seen) eqn:E.
  - apply mem_key_true in E. rewrite IH. set_solver.
  - assert (r0 ∉ seen) as Hn by (intros H%mem_key_true; congruence). rewrite elem_of_cons, IH. destruct (decide (r = r0)); set_solver.
Qed.

Lemma encoded_role_text l : Forall is_byte l → role_text (bindingRolePrefix +:+ RawURLEncoding l) = true.
Proof.
  intros Hc%RawURLEncoding_class. revert Hc. generalize (RawURLEncoding l). intros s Hs. unfold role_text. rewrite !andb_true_iff.
  split; [split; [reflexivity|]|reflexivity]. rewrite str_forallb_app. apply andb_true_iff. split; [reflexivity|].
  induction s as [|c s IH]; [done|]. cbn [str_forallb] in *. apply andb_true_iff in Hs as [Hc Hs]. apply andb_true_iff.
  split; [|auto]. unfold b64url_class, isIdentByte, is_alnum in *. rewrite !orb_true_iff in *. tauto.
Qed.

Lemma sized_bytes s : Forall is_byte (sized s).
Proof.
  apply Forall_app. split; [|apply bytes_of_bytes]. unfold uint32be, is_byte.
  repeat (apply list.Forall_cons; split; [apply Z.mod_pos_bound; lia|]). by apply list.Forall_nil.
Qed.

Definition binding_payload (b : aecBinding) : list Z := concat (sized <$> [ab_from b; ab_relation b; ab_to b]).
Lemma BindingRoleName_Some b r :
  BindingRoleName b = Some r →
  r = bindingRolePrefix +:+ RawURLEncoding (binding_payload b) ∧ Forall is_byte (binding_payload b) ∧
  ∀ s, s ∈ [ab_from b; ab_relation b; ab_to b] → Z.of_nat (String.length s) <= maxBindingRoleBytes.
Proof.
  unfold BindingRoleName. fold (binding_payload b). destruct (forallb _ _) eqn:Ef; [|done]. cbn [negb].
  destruct (_ <? _); [done|]. intros E. injection E as <-. split; [done|]. split.
  - apply Forall_concat, Forall_fmap, list.Forall_forall. intros s _. apply sized_bytes.
  - intros s Hs. rewrite forallb_forall in Ef. specialize (Ef s (proj1 (list_elem_of_In _ _) Hs)).
    apply andb_true_iff in Ef as [Ef%negb_true_iff _]. by apply Z.ltb_ge.
Qed.

Lemma bytes_of_length s : length (bytes_of s) = String.length s.
Proof. unfold bytes_of. rewrite length_map. induction s as [|c s IH]; [done|]. cbn. by rewrite IH. Qed.

Lemma sized_inj s t l l' :
  Z.of_nat (String.length s) < 2 ^ 32 → Z.of_nat (String.length t) < 2 ^ 32 → sized s ++ l = sized t ++ l' → s = t ∧ l = l'.
Proof.
  intros Hs Ht H. unfold sized, uint32be in H. cbn [app] in H. injection H as H1 H2 H3 H4 H.
  assert (String.length s = String.length t) as Hl.
  { apply Nat2Z.inj. Z.to_euclidean_division_equations. lia. }
  apply app_inj_1 in H as [Hb ->]; [|by rewrite !bytes_of_length].
  split; [|done]. rewrite <- (text_of_bytes s), <- (text_of_bytes t). by rewrite Hb.
Qed.

(** The derived role of a required binding names that binding and no other. *)
Lemma BindingRoleName_injective b b' r : BindingRoleName b = Some r → BindingRoleName b' = Some r → b = b'.
Proof.
  intros (E & Hb & Hl)%BindingRoleName_Some (E' & Hb' & Hl')%BindingRoleName_Some. rewrite E in E'.
  assert (RawURLEncoding (binding_payload b) = RawURLEncoding (binding_payload b')) as Er.
  { revert E'. generalize (RawURLEncoding (binding_payload b)) (RawURLEncoding (binding_payload b')). intros x y E'.
    unfold bindingRolePrefix in E'. by repeat (rewrite !append_cons in E'; injection E' as E'). }
  assert (binding_payload b = binding_payload b') as Ep.
  { pose proof (b64_decode_encode true _ Hb) as D. unfold RawURLEncoding in Er. rewrite Er, b64_decode_encode in D by done.
    congruence. }
  unfold maxBindingRoleBytes in *. destruct b as [f rl t], b' as [f' rl' t']. unfold binding_payload in Ep. cbn [ab_from ab_relation ab_to] in *.
  change (sized f ++ sized rl ++ sized t ++ [] = sized f' ++ sized rl' ++ sized t' ++ []) in Ep.
  apply sized_inj in Ep as [-> Ep]; [|pose proof (Hl f ltac:(set_solver)); lia|pose proof (Hl' f' ltac:(set_solver)); lia].
  apply sized_inj in Ep as [-> Ep]; [|pose proof (Hl rl ltac:(set_solver)); lia|pose proof (Hl' rl' ltac:(set_solver)); lia].
  apply sized_inj in Ep as [-> _]; [done|pose proof (Hl t ltac:(set_solver)); lia|pose proof (Hl' t' ltac:(set_solver)); lia].
Qed.

(** ** A satisfied projection has met the document's obligations *)

Lemma emiliaAEC_Project_Some raw ctx view :
  emiliaAEC_Project raw ctx = Some view →
  ∃ j m a roles req, read_document raw = Some j ∧ into_aec j = Some a ∧ elem_members j = Some m ∧
    unknownAECMembers m = [] ∧ unknownNestedAECMembers m = [] ∧
    mapM (status_check (px_role_map ctx)) (ae_status a) = Some (pv_required_ids view) ∧
    mapM BindingRoleName (ae_bindings a) = Some roles ∧
    projected_requirement (px_role_map ctx) a roles = Some req ∧ pv_requirement view = Some req ∧
    sourceRequirementDigest raw = pv_source_digest view.
Proof.
  unfold emiliaAEC_Project. destruct (Check_dups raw); [|done]. cbn [negb].
  destruct (sourceRequirementDigest raw) as [source|] eqn:Es; [|done]. cbn [mbind option_bind].
  destruct (read_document raw) as [j|] eqn:Ej; [|done]. cbn [mbind option_bind].
  destruct (into_aec j) as [a|] eqn:Ea; [|done]. cbn [mbind option_bind].
  destruct (elem_members j) as [m|] eqn:Em; [|done]. cbn [mbind option_bind].
  destruct (unknownAECMembers m ++ unknownNestedAECMembers m) as [|u us] eqn:Eu; [|done]. change (0 <? length [])%nat with false. cbv iota.
  destruct (mapM (status_check _) _) as [checks|] eqn:Ec; [|done]. cbn [mbind option_bind].
  destruct (mapM BindingRoleName _) as [roles|] eqn:Er; [|done]. cbn [mbind option_bind].
  destruct (projected_requirement _ a roles) as [req|] eqn:Eq; [|done]. cbn [mbind option_bind].
  destruct (req_Digest req) as [d|]; [|done]. intros [= <-]. apply app_eq_nil in Eu as [Eu1 Eu2].
  by exists j, m, a, roles, req.
Qed.

Lemma projected_requirement_Some roleMap a roles req :
  projected_requirement roleMap a roles = Some req →
  req_expression req = join_and (("(" +:+ ae_expression a +:+ ")") :: binding_parts [] roles) ∧
  (∀ r n, mget r (ae_freshness a) = Some n →
     ∃ role, pinnedRole roleMap r = Some role ∧ mkRC (coerce_utf8 role) (freshness_text n) ∈ req_constraints req) ∧
  ∀ rc, rc ∈ ae_roles a → ac_type rc = "distinct-subject-quorum" ∧ ac_subject_source rc = "native-verifier" ∧
     ∃ role, pinnedRole roleMap (ac_component rc) = Some role ∧
       mkRC (coerce_utf8 role) (quorum_text (ac_threshold rc)) ∈ req_constraints req.
Proof.
  unfold projected_requirement. destruct (mapM (freshness_constraint roleMap a) _) as [fresh|] eqn:Ef; [|done]. cbn [mbind option_bind].
  destruct (mapM (quorum_constraint roleMap) _) as [quorum|] eqn:Eq; [|done]. cbn [mbind option_bind].
  destruct (Validate _); [done|]. intros [= <-]. cbn [req_expression req_constraints]. split; [done|].
  apply mapM_Some in Ef, Eq. split.
  - intros r n Hn. assert (r ∈ sort_Strings (mkeys (ae_freshness a))) as Hr.
    { unfold sort_Strings. rewrite merge_sort_Permutation. by eapply mkeys_elem, mget_elem. }
    apply list_elem_of_lookup in Hr as [i Hi]. destruct (Forall2_lookup_l _ _ _ _ _ Ef Hi) as (c & Hc & E).
    unfold freshness_constraint in E. rewrite Hn in E. destruct (pinnedRole roleMap r) as [role|]; [|done].
    cbn [mbind option_bind default] in E. unfold id in E. simplify_eq. exists role. split; [done|].
    apply elem_of_app. left. by eapply list_elem_of_lookup_2.
  - intros rc Hrc. apply list_elem_of_lookup in Hrc as [i Hi]. destruct (Forall2_lookup_l _ _ _ _ _ Eq Hi) as (c & Hc & E).
    unfold quorum_constraint in E. destruct (String.eqb_spec (ac_type rc) "distinct-subject-quorum") as [Ht|]; [|done].
    cbn [negb] in E. destruct (pinnedRole roleMap (ac_component rc)) as [role|]; [|done]. cbn [mbind option_bind] in E.
    destruct (String.eqb_spec (ac_subject_source rc) "native-verifier") as [Hs|]; [|done]. cbn [negb] in E. simplify_eq.
    split; [done|]. split; [done|]. exists role. split; [done|]. apply elem_of_app. right. by eapply list_elem_of_lookup_2.
Qed.

(** C36: a projection drops no obligation.  When the requirement projected from an
    evidence-chain document is satisfied by the facts, then: the document's own
    expression holds of the verified roles; every freshness bound and every quorum
    of the document is satisfied for the role the relying party pinned for it; the
    derived role of every required binding is present; every status check is among
    the checks the report requires; and the document had no member beyond those
    the projection reads. *)
Theorem aec_projection_keeps_obligations raw ctx view facts ectx req res :
  emiliaAEC_Project raw ctx = Some view → pv_requirement view = Some req →
  EvaluateRequirement req facts ectx = inl res → rr_verdict res = EvidenceSatisfied →
  ∃ j m a, read_document raw = Some j ∧ into_aec j = Some a ∧ elem_members j = Some m ∧
    (∀ y, parseRequirementExpression (ae_expression a) = inl y → eval (present facts) y = true) ∧
    (∀ r n, mget r (ae_freshness a) = Some n → ∃ role, pinnedRole (px_role_map ctx) r = Some role ∧
       ev_verdict (evaluate (freshness_text n) (EvidenceFactsOfRole facts (coerce_utf8 role)) ectx) = EvidenceSatisfied) ∧
    (∀ rc, rc ∈ ae_roles a → ac_type rc = "distinct-subject-quorum" ∧ ∃ role, pinnedRole (px_role_map ctx) (ac_component rc) = Some role ∧
       ev_verdict (evaluate (quorum_text (ac_threshold rc)) (EvidenceFactsOfRole facts (coerce_utf8 role)) ectx) = EvidenceSatisfied) ∧
    (∀ b, b ∈ ae_bindings a → ∃ role, BindingRoleName b = Some role ∧ present facts role = true) ∧
    (∀ s, s ∈ ae_status a → ("status_required:" +:+ s) ∈ pv_required_ids view) ∧
    unknownAECMembers m = [] ∧ unknownNestedAECMembers m = [].
Proof.
  intros (j & m & a & roles & req' & Ej & Ea & Em & Hu1 & Hu2 & Hc & Hb & Hp & Hr & _)%emiliaAEC_Project_Some Hreq He Hv.
  rewrite Hr in Hreq. simplify_eq. exists j, m, a. do 3 (split; [done|]).
  apply projected_requirement_Some in Hp as (Hx & Hf & Hq). apply mapM_Some in Hb, Hc.
  pose proof (EvaluateRequirement_satisfied _ _ _ _ He Hv) as [(x & Hpx & Hex) Hcs]. rewrite Hx in Hpx.
  assert (forallb role_text (binding_parts [] roles) = true) as Ht.
  { apply forallb_forall. intros r Hin%list_elem_of_In. apply binding_parts_elem in Hin as [Hin _].
    apply list_elem_of_lookup in Hin as [i Hi]. destruct (Forall2_lookup_r _ _ _ _ _ Hb Hi) as (b & _ & E).
    apply BindingRoleName_Some in E as (-> & Hby & _). by apply encoded_role_text. }
  destruct (parse_conjoined _ _ _ Ht Hpx) as [[y0 Hy0] Hown]. split_and!; [| | | | |done|done].
  - intros y Hy. apply Hown in Hy as ->. rewrite eval_conjoin in Hex. by apply andb_true_iff in Hex as [? _].
  - intros r n Hn. destruct (Hf r n Hn) as (role & Hrole & Hin). exists role. split; [done|]. exact (Hcs _ Hin).
  - intros rc Hrc. destruct (Hq rc Hrc) as (Hty & _ & role & Hrole & Hin). split; [done|]. exists role. split; [done|]. exact (Hcs _ Hin).
  - intros b Hin. apply list_elem_of_lookup in Hin as [i Hi]. destruct (Forall2_lookup_l _ _ _ _ _ Hb Hi) as (role & Hro & E).
    exists role. split; [done|]. rewrite Hy0, eval_conjoin in Hex. apply andb_true_iff in Hex as [_ Hex].
    rewrite forallb_forall in Hex. apply Hex, list_elem_of_In, binding_parts_elem. split; [by eapply list_elem_of_lookup_2|set_solver].
  - intros s Hin. apply list_elem_of_lookup in Hin as [i Hi]. destruct (Forall2_lookup_l _ _ _ _ _ Hc Hi) as (c & Hc' & E).
    unfold status_check in E. destruct (pinnedRole _ s); [|done]. cbn [mbind option_bind] in E. simplify_eq.
    by eapply list_elem_of_lookup_2.
Qed.

(** ** Examples *)

Definition w_aec (expression : string) : string :=
  writeCanonicalJSON (AMap
    [("@version", AStr AECVersion); ("requirement_id", AStr "r1"); ("expression", AStr expression);
     ("freshness_sec", AMap [("human", AInt KInt 60)]); ("status_required", AList [AStr "human"]);
     ("role_constraints", AList [AMap [("type", AStr "distinct-subject-quorum"); ("component_type", AStr "human");
                                      ("threshold", AInt KInt 2); ("subject_id_source", AStr "native-verifier")]]);
     ("required_bindings", AList [AMap [("from_type", AStr "human"); ("relation", AStr "approves"); ("to_type", AStr "action")]])]).
Definition w_binding_role : string := Eval vm_compute in
  default "" (BindingRoleName (mkAecBinding "human" "approves" "action")).
Definition w_projection (role : string) : ProjectionContext :=
  mkProjection (mkInstant (63900000000 * Second) true 0) "" "" [("human", role)].
Definition w_chain_facts (role : string) : list EvidenceFact :=
  [mkFact role "alice" (63899999990 * Second) true; mkFact role "bob" (63899999980 * Second) true;
   mkFact w_binding_role "x" (63899999980 * Second) true].
Definition w_ectx : EvidenceContext := mkCtx (63900000000 * Second) "" "".
Definition w_verdict (raw role : string) : option EvidenceVerdict :=
  view ← emiliaAEC_Project raw (w_projection role); req ← pv_requirement view;
  match EvaluateRequirement req (w_chain_facts role) w_ectx with inl r => Some (rr_verdict r) | inr _ => None end.

(** The role map is applied to the constraints but not to the expression: under a
    bridge that renames a role, facts that fill the role do not fill the
    expression. *)
Lemma expression_not_bridged :
  w_verdict (w_aec "human") "human" = Some EvidenceSatisfied ∧
  w_verdict (w_aec "human") "human-authorization" = Some EvidenceViolated.
Proof. vm_compute. done. Qed.

(** Text that is no expression becomes one between the parentheses. *)
Lemma unbalanced_expression_accepted :
  w_verdict (w_aec "human) OR (policy") "human" = Some EvidenceSatisfied ∧
  parseRequirementExpression "human) OR (policy" = inr (wrap ErrRequirementExpression ("unexpected " +:+ Quote ")")).
Proof. vm_compute. done. Qed.

(** Two documents that differ in an integer beyond 2^53 have one source digest. *)
Lemma source_digest_rounds :
  sourceRequirementDigest "[9007199254740993]" = sourceRequirementDigest "[9007199254740992]" ∧
  sourceRequirementDigest "[9007199254740993]" ≠ None.
Proof. vm_compute. done. Qed.

Definition w_view : ProjectedView := Eval vm_compute in
  default (mkView None [] None None None [] [] [] []) (emiliaAEC_Project (w_aec "human") (w_projection "human")).
Definition w_view_requirement : Requirement := Eval vm_compute in default zero_requirement (pv_requirement w_view).
Definition w_result_of : RequirementResult := Eval vm_compute in
  from_inl (mkRes "" zero_digest EvidenceUnknown false [] []) (EvaluateRequirement w_view_requirement (w_chain_facts "human") w_ectx).

Lemma aec_projection_keeps_obligations_witness :
  present (w_chain_facts "human") w_binding_role = true ∧ "status_required:human" ∈ pv_required_ids w_view.
Proof.
  destruct (aec_projection_keeps_obligations (w_aec "human") (w_projection "human") w_view (w_chain_facts "human") w_ectx
    w_view_requirement w_result_of) as (j & m & a & Hj & Ha & _ & _ & _ & _ & Hb & Hs & _).
  - vm_compute. reflexivity.
  - reflexivity.
  - vm_compute. reflexivity.
  - reflexivity.
  - assert (a = mkAec AECVersion "r1" "" "human" [("human", 60)] ["human"]
      [mkAecRole "distinct-subject-quorum" "human" 2 "native-verifier"] [mkAecBinding "human" "approves" "action"]) as ->.
    { assert (Some a = (j ← read_document (w_aec "human"); into_aec j)) as E by (rewrite Hj; symmetry; exact Ha).
      vm_compute in E. injection E as ->. reflexivity. }
    split; [|apply (Hs "human"); left]. destruct (Hb (mkAecBinding "human" "approves" "action")) as (role & Er & Hp); [left|].
    vm_compute in Er. injection Er as <-. exact Hp.
Defined.

(** ** The registry *)

(** Names are distinct and not empty, and a name keeps its first projector. *)
Definition registry_ok (ps : Registry) : Prop := NoDup (pj_ID <$> omap id ps) ∧ "" ∉ pj_ID <$> omap id ps.

Lemma Register_ok ps p : registry_ok ps → registry_ok (Register ps p) ∧ omap id ps `prefix_of` omap id (Register ps p).
Proof.
  intros [Hn He]. unfold Register. destruct p as [p|]; [|done]. destruct (String.eqb_spec (pj_ID p) "") as [|Hne]; [done|].
  destruct (existsb _ ps) eqn:Ex; [done|]. rewrite omap_app. cbn [omap list_omap id]. split; [|by exists [p]].
  unfold registry_ok. rewrite omap_app. cbn [omap list_omap id]. rewrite fmap_app. split; [|set_solver].
  apply list.NoDup_app. split; [done|]. split; [|apply list.NoDup_singleton]. intros i Hi Hin.
  apply list_elem_of_singleton in Hin as ->. apply list_elem_of_fmap in Hi as (q & Eq & Hq).
  apply list_elem_of_omap in Hq as (o & Ho & Eo). unfold id in Eo. subst o.
  assert (existsb (λ e, match e with Some e => String.eqb (pj_ID e) (pj_ID p) | None => false end) ps = true) as H; [|congruence].
  apply existsb_exists. exists (Some q). split; [by apply list_elem_of_In|]. by apply String.eqb_eq.
Qed.
