(* ===== verification/RuleExec.v ===== *)
(** * Rule execution

    ruleexec/budget.go, condition.go, flow.go, structure.go, executor.go: the
    execution budget, the condition language, the flow language and the
    executor.  The budget and the task variables are mutable objects in the
    source; here they are passed and returned.  Values are the JSON values of
    [any] ([json.Number] and typed slices are not represented). *)

From Stdlib Require Import Floats.SpecFloat.
From S2P Require Import Prelude GoStrings GoTime Regex GoFloat Json Ids Values Bounds Evidence.

(** ** Errors *)

Inductive BudgetKind := KindSteps | KindDepth | KindNesting | KindTimeout.
Record BudgetError := mkBudgetError { be_kind : BudgetKind; be_used : Z; be_max : Z }.

(** What an execution can fail with: an exceeded budget, a condition or flow
    that cannot be evaluated, an error of the operation handler, a nil pointer
    dereference, or one of these wrapped with the phase it occurred in. *)
Inductive exec_error :=
  | EBudget (e : BudgetError)
  | EText (s : string)
  | EOp (op s : string)
  | EPanic
  | EWrap (phase : string) (e : exec_error).

(** [errors.As] for a budget error. *)
Fixpoint is_budget (e : exec_error) : bool :=
  match e with EBudget _ => true | EWrap _ e => is_budget e | _ => false end.
Fixpoint is_panic (e : exec_error) : bool :=
  match e with EPanic => true | EWrap _ e => is_panic e | _ => false end.

Abbreviation eres A := (sum A exec_error) (only parsing).

(** ** The budget *)

Record Budget := mkBudget {
  b_max_steps : Z;
  b_max_depth : Z;
  b_max_nesting : Z;
  b_deadline : Time;
  b_steps : Z;
  b_nesting : Z
}.

Definition DefaultMaxSteps : Z := 10000.
Definition DefaultMaxDepth : Z := 64.
Definition DefaultMaxNesting : Z := 64.
Definition NewBudget : Budget := mkBudget DefaultMaxSteps DefaultMaxDepth DefaultMaxNesting 0 0 0.

Definition set_steps (n : Z) (b : Budget) : Budget :=
  mkBudget (b_max_steps b) (b_max_depth b) (b_max_nesting b) (b_deadline b) n (b_nesting b).
Definition set_nesting (n : Z) (b : Budget) : Budget :=
  mkBudget (b_max_steps b) (b_max_depth b) (b_max_nesting b) (b_deadline b) (b_steps b) n.

(** [Budget.Exit]. *)
Definition Exit (b : Budget) : Budget :=
  if 0 <? b_nesting b then set_nesting (b_nesting b - 1) b else b.

(** [Budget.Enter]: the refusal, if any, and the budget left behind. *)
Definition Enter (depth : Z) (b : Budget) : option exec_error * Budget :=
  if b_max_depth b <? depth then (Some (EBudget (mkBudgetError KindDepth depth (b_max_depth b))), b)
  else
    let b' := set_nesting (b_nesting b + 1) b in
    if b_max_nesting b <? b_nesting b' then
      (Some (EBudget (mkBudgetError KindNesting (b_nesting b') (b_max_nesting b))), b')
    else (None, b').

(** ** Conditions *)

Inductive Condition := mkCond {
  c_op : string;
  c_path : string;
  c_value : any;
  c_window : list string;
  c_items : list Condition
}.

Section Condition_ind.
Context (P : Condition → Prop)
(H : ∀ op path value window items, Forall P items → P (mkCond op path value window items)).
Fixpoint Condition_nested_ind (c : Condition) : P c :=
match c with
| mkCond op path value window items =>
    H op path value window items
      ((fix go l : Forall P l :=
          match l with
          | [] => Forall_nil_2 _
          | x :: l' => Forall_cons_2 _ x l' (Condition_nested_ind x) (go l')
          end) items)
end.
End Condition_ind.

Definition knownConditionOps (op : string) : bool :=
  mem_key op ["and"; "or"; "not"; "eq"; "neq"; "lt"; "lte"; "gt"; "gte"; "in"; "between"; "is-null"].

(** The path walk; the empty path resolves to nothing. *)
Fixpoint walk_path (cur : any) (parts : list string) : option any :=
  match parts with
  | [] => Some cur
  | p :: rest =>
      match cur with
      | AMap m => match mget p m with Some v => walk_path v rest | None => None end
      | _ => None
      end
  end.
Definition resolvePath (ctx : gomap any) (path : string) : option any :=
  if String.eqb path "" then None else walk_path (AMap ctx) (Split "." path).

Definition toNumber (v : any) : option float64 :=
  match v with
  | AFloat f | AFloat32 f => Some f
  | AInt (KInt | KInt64) z => Some (of_Z z)
  | _ => None
  end.
Definition toBound (s : string) : option float64 := ParseFloat s.

Definition normalizeNum (v : any) : any := match toNumber v with Some f => AFloat f | None => v end.

Definition equal_values (got want : any) : bool := DeepEqual (normalizeNum got) (normalizeNum want).

Definition evalLeaf (op : string) (got want : any) (window : list string) : eres bool :=
  if String.eqb op "eq" then
    inl (if is_nil got || is_nil want then false else equal_values got want)
  else if String.eqb op "neq" then
    inl (if is_nil got || is_nil want then false else negb (equal_values got want))
  else if mem_key op ["lt"; "lte"; "gt"; "gte"] then
    if is_nil got || is_nil want then inl false
    else match toNumber got, toNumber want with
         | Some gf, Some wf =>
             inl (if String.eqb op "lt" then flt gf wf
                  else if String.eqb op "lte" then fle gf wf
                  else if String.eqb op "gt" then flt wf gf
                  else fle wf gf)
         | _, _ => inr (EText ("op " +:+ op +:+ " requires numeric operands"))
         end
  else if String.eqb op "in" then
    match want with
    | AList l =>
        if is_nil got then inl false
        else inl (existsb (λ item, negb (is_nil item) && equal_values got item) l)
    | _ => inr (EText "op in requires a list value")
    end
  else if String.eqb op "between" then
    match window with
    | [lo; hi] =>
        if is_nil got then inl false
        else match toNumber got, toBound lo, toBound hi with
             | Some gf, Some l, Some h => inl (fle l gf && fle gf h)
             | _, _, _ => inr (EText "op between requires numeric operands")
             end
    | _ => inr (EText "op between requires window [lo, hi]")
    end
  else if String.eqb op "is-null" then inl (is_nil got)
  else inr (EText ("unknown condition op " +:+ Quote op)).

Section evaluation.
(** [time.Now()] at the n-th charged step. *)
Context (clock : Z → Time).

(** [Budget.Step]. *)
Definition Step_charge (b : Budget) : option exec_error * Budget :=
let b' := set_steps (b_steps b + 1) b in
if b_max_steps b <? b_steps b' then
  (Some (EBudget (mkBudgetError KindSteps (b_steps b') (b_max_steps b))), b')
else if negb (IsZero (b_deadline b)) && After (clock (b_steps b')) (b_deadline b) then
  (Some (EBudget (mkBudgetError KindTimeout 0 0)), b')
else (None, b').

(** The item loops of [and] ([stop = false]) and [or] ([stop = true]). *)
Section item_loop.
Context (evl : Condition → Budget → eres bool * Budget) (stop : bool).
Fixpoint item_loop (items : list Condition) (b : Budget) : eres bool * Budget :=
  match items with
  | [] => (inl (negb stop), b)
  | it :: rest =>
  let '(r, b') := evl it b in
  match r with
  | inr e => (inr e, b')
  | inl v => if Bool.eqb v stop then (inl stop, b') else item_loop rest b'
  end
  end.
End item_loop.

Fixpoint EvalCondition (ctx : gomap any) (depth : Z) (c : Condition) (b : Budget) {struct c} :
  eres bool * Budget :=
match Step_charge b with
| (Some e, b1) => (inr e, b1)
| (None, b1) =>
    match Enter depth b1 with
    | (Some e, b2) => (inr e, b2)
    | (None, b2) =>
        let '(r, b3) :=
          match c with
          | mkCond op path value window items =>
              if String.eqb op "and" then item_loop (EvalCondition ctx (depth + 1)) false items b2
              else if String.eqb op "or" then item_loop (EvalCondition ctx (depth + 1)) true items b2
              else if String.eqb op "not" then
                match items with
                | [it] =>
                    let '(r, b3) := EvalCondition ctx (depth + 1) it b2 in
                    (match r with inl v => inl (negb v) | inr e => inr e end, b3)
                | _ => (inr (EText "op not requires exactly 1 item"), b2)
                end
              else if String.eqb op "is-null" then
                (inl (match resolvePath ctx path with None => true | Some v => is_nil v end), b2)
              else if negb (knownConditionOps op) then
                (inr (EText ("unknown condition op " +:+ Quote op)), b2)
              else match resolvePath ctx path with
                   | None => (inr (EText ("condition path " +:+ Quote path +:+ " not found")), b2)
                   | Some v => (evalLeaf op v value window, b2)
                   end
          end in
        (r, Exit b3)
    end
end.
End evaluation.

(** ** Flows *)

Inductive Step := mkStep {
  s_name : string;
  s_kind : string;
  s_op : string;
  s_condition : option Condition;
  s_then : list Step;
  s_else : list Step;
  s_steps : list Step
}.
Record Flow := mkFlow { fl_steps : list Step }.

Section Step_ind.
Context (P : Step → Prop)
(H : ∀ name kind op cond th el ss, Forall P th → Forall P el → Forall P ss →
       P (mkStep name kind op cond th el ss)).
Fixpoint Step_nested_ind (s : Step) : P s :=
let fix go (l : list Step) : Forall P l :=
  match l with
  | [] => Forall_nil_2 _
  | x :: l' => Forall_cons_2 _ x l' (Step_nested_ind x) (go l')
  end in
match s with
| mkStep name kind op cond th el ss => H name kind op cond th el ss (go th) (go el) (go ss)
end.
End Step_ind.

(** The state of a run: task variables, request facts, budget, and the
    operations handed to the handler so far. *)
Record fstate := mkFState {
  fs_vars : gomap any;
  fs_request : gomap any;
  fs_budget : Budget;
  fs_calls : list string
}.

Definition with_budget (b : Budget) (s : fstate) : fstate :=
  mkFState (fs_vars s) (fs_request s) b (fs_calls s).

(** [evalContext]. *)
Definition evalContext (s : fstate) : gomap any := mset "request" (AMap (fs_request s)) (fs_vars s).

Section flow.
Context (clock : Z → Time).

(** The operation handler is the gateway's code: it receives both maps, which
  it may modify, and returns the variables to merge or an error. *)
Context (handler : string → gomap any → gomap any → (gomap any * gomap any) * result (gomap any)).

Definition run_op (op : string) (s : fstate) : option exec_error * fstate :=
let '((vars, req), out) := handler op (fs_vars s) (fs_request s) in
let s' := mkFState vars req (fs_budget s) (fs_calls s ++ [op]) in
match out with
| inr e => (Some (EOp op e), s')
| inl m => (None, mkFState (fold_left (λ acc kv, mset kv.1 kv.2 acc) m vars) req (fs_budget s) (fs_calls s'))
end.

(** The step loop of [runSteps], over the execution of one step. *)
Section step_loop.
Context (run : Step → fstate → option exec_error * fstate).
Fixpoint step_loop (steps : list Step) (s : fstate) : option exec_error * fstate :=
  match steps with
  | [] => (None, s)
  | st :: rest =>
  match run st s with
  | (Some e, s') => (Some e, s')
  | (None, s') => step_loop rest s'
  end
  end.

(** [runSteps]: enter, loop, exit on every path after a successful entry. *)
Definition runSteps_with (depth : Z) (steps : list Step) (s : fstate) : option exec_error * fstate :=
  match Enter depth (fs_budget s) with
  | (Some e, b) => (Some e, with_budget b s)
  | (None, b) =>
  let '(r, s') := step_loop steps (with_budget b s) in
  (r, with_budget (Exit (fs_budget s')) s')
  end.
End step_loop.

Fixpoint runStep (depth : Z) (st : Step) (s : fstate) {struct st} : option exec_error * fstate :=
match Step_charge clock (fs_budget s) with
| (Some e, b) => (Some e, with_budget b s)
| (None, b) =>
    let s := with_budget b s in
    match st with
    | mkStep name kind op cond th el ss =>
        if String.eqb kind "op" then run_op op s
        else if String.eqb kind "if" then
          match cond with
          | None => (Some EPanic, s)
          | Some c =>
              let '(r, b') := EvalCondition clock (evalContext s) (depth + 1) c (fs_budget s) in
              let s' := with_budget b' s in
              match r with
              | inr e => (Some e, s')
              | inl ok => if ok then runSteps_with (runStep (depth + 1)) (depth + 1) th s'
                          else runSteps_with (runStep (depth + 1)) (depth + 1) el s'
              end
          end
        else if String.eqb kind "seq" then runSteps_with (runStep (depth + 1)) (depth + 1) ss s
        else (Some (EText ("unknown step kind " +:+ Quote kind)), s)
    end
end.

Definition runSteps (depth : Z) (steps : list Step) (s : fstate) : option exec_error * fstate :=
runSteps_with (runStep depth) depth steps s.

Definition RunFlow (f : Flow) (s : fstate) : option exec_error * fstate := runSteps 0 (fl_steps f) s.
End flow.

(** ** Static checks *)

Section check_list.
Context {A : Type} (f : A → option exec_error).
Fixpoint check_list (l : list A) : option exec_error :=
match l with
| [] => None
| x :: l' => match f x with Some e => Some e | None => check_list l' end
end.
End check_list.

(** [walkBounds] on a list of steps, over one step. *)
Definition bounds_with (walk : Step → option exec_error) (maxNesting depth : Z) (steps : list Step) :
    option exec_error :=
  if maxNesting <? depth then
    Some (EText ("static bound check: nesting depth " +:+ Itoa depth +:+ " > budget " +:+ Itoa maxNesting))
  else check_list walk steps.

Fixpoint walkBounds_step (maxNesting depth : Z) (st : Step) : option exec_error :=
  match st with
  | mkStep _ kind _ _ th el ss =>
      if String.eqb kind "if" then
        match bounds_with (walkBounds_step maxNesting (depth + 1)) maxNesting (depth + 1) th with
        | Some e => Some e
        | None => bounds_with (walkBounds_step maxNesting (depth + 1)) maxNesting (depth + 1) el
        end
      else if String.eqb kind "seq" then
        bounds_with (walkBounds_step maxNesting (depth + 1)) maxNesting (depth + 1) ss
      else None
  end.
Definition walkBounds (maxNesting depth : Z) (steps : list Step) : option exec_error :=
  bounds_with (walkBounds_step maxNesting depth) maxNesting depth steps.

Definition CheckStaticBounds (f : Flow) (b : Budget) : option exec_error :=
  walkBounds (b_max_nesting b) 1 (fl_steps f).

Definition knownStepKinds (k : string) : bool := mem_key k ["op"; "if"; "seq"].

Definition null_comparison (op : string) : exec_error :=
  EText ("condition " +:+ op +:+ ": comparing to null is not supported; use " +:+ quoted "is-null"
         +:+ " (or " +:+ quoted "not" +:+ " + " +:+ quoted "is-null" +:+ ")").

Fixpoint checkCondition (c : Condition) : option exec_error :=
  match c with
  | mkCond op path value _ items =>
      if mem_key op ["eq"; "neq"; "lt"; "lte"; "gt"; "gte"] && is_nil value && negb (String.eqb path "") then
        Some (null_comparison op)
      else if String.eqb op "in" && match value with AList l => existsb is_nil l | _ => false end then
        Some (EText ("condition in: null elements are not allowed; use " +:+ quoted "is-null" +:+ " per value"))
      else if negb (knownConditionOps op) then Some (EText ("unknown condition op " +:+ Quote op))
      else check_list checkCondition items
  end.

Definition check_opt_condition (c : option Condition) : option exec_error :=
  match c with Some c => checkCondition c | None => None end.

Fixpoint checkStep (st : Step) : option exec_error :=
  match st with
  | mkStep name kind _ cond th el ss =>
      if negb (knownStepKinds kind) then Some (EText ("unknown step kind " +:+ Quote kind))
      else if String.eqb kind "if" && match cond with None => true | Some _ => false end then
        Some (EText ("if step " +:+ Quote name +:+ " requires a condition"))
      else match check_opt_condition cond with
           | Some e => Some e
           | None =>
               match check_list checkStep th with
               | Some e => Some e
               | None => match check_list checkStep el with
                         | Some e => Some e
                         | None => check_list checkStep ss
                         end
               end
           end
  end.
Definition checkSteps (steps : list Step) : option exec_error := check_list checkStep steps.

(** ** The executor *)

(** A signed rule.  [json.RawMessage] members are JSON text, empty when absent. *)
Record RuleConstraint := mkRuleConstraint { rc_scheme : string; rc_id : string; rc_params : string }.
Record Rule := mkRule {
  ru_id : string;
  ru_version : string;
  ru_scheme : string;
  ru_capability : string;
  ru_params : string;
  ru_conditions : option Condition;
  ru_constraints : list RuleConstraint;
  ru_flow : option Flow
}.

Definition versionRe : re :=
  Cat (Plus digit) (Cat (lit ".") (Cat (Plus digit) (Cat (lit ".") (Plus digit)))).

Definition prefixed (p : string) (e : exec_error) : exec_error := EWrap p e.

Definition ValidateStructure (r : Rule) : option exec_error :=
  if (String.length (ru_id r) =? 0)%nat || (128 <? String.length (ru_id r))%nat then
    Some (EText "rule_id must be 1..128 chars")
  else if negb (matches versionRe (ru_version r)) then Some (EText "version must be semver x.y.z")
  else if negb (contains_char "/" (ru_scheme r)) then Some (EText "scheme must be vendor/product")
  else match check_opt_condition (ru_conditions r) with
       | Some e => Some (prefixed "conditions" e)
       | None =>
           match ru_flow r with
           | None => None
           | Some f => match checkSteps (fl_steps f) with
                       | Some e => Some (prefixed "flow" e)
                       | None => None
                       end
           end
       end.

Record ExecDecision := mkExecDecision { x_allow : bool; x_reason : string; x_steps : Z }.

Section executor.
Context (clock : Z → Time)
(handler : string → gomap any → gomap any → (gomap any * gomap any) * result (gomap any)).

(** [RuleExecutor.Decide]: the outcome, the budget left in the executor and
  the operations handed to the handler. *)
Definition Decide (r : Rule) (request : gomap any) (b : Budget) : eres ExecDecision * Budget * list string :=
match ValidateStructure r with
| Some e => (inr (prefixed "phase2: invalid rule" e), b, [])
| None =>
    match match ru_flow r with Some f => CheckStaticBounds f b | None => None end with
    | Some e => (inr (prefixed "phase2: static bounds" e), b, [])
    | None =>
        let '(cond, b1) :=
          match ru_conditions r with
          | None => (inl true, b)
          | Some c => EvalCondition clock [("request", AMap request)] 0 c b
          end in
        match cond with
        | inr e => (inr (prefixed "phase2: conditions" e), b1, [])
        | inl false => (inl (mkExecDecision false "conditions not satisfied" 0), b1, [])
        | inl true =>
            match ru_flow r with
            | None => (inl (mkExecDecision true "" (b_steps b1)), b1, [])
            | Some f =>
                let '(err, s) := RunFlow clock handler f (mkFState [] request b1 []) in
                match err with
                | Some e => (inr (prefixed "phase2: flow" e), fs_budget s, fs_calls s)
                | None => (inl (mkExecDecision true "" (b_steps (fs_budget s))), fs_budget s, fs_calls s)
                end
            end
        end
    end
end.
End executor.

(** ** Published ceilings (ruleexec/defaults.go) *)

Record BudgetDefaults := mkDefaults { bd_max_steps : Z; bd_max_depth : Z; bd_max_nesting : Z }.
Definition MaxStepsCeiling : Z := 10000.
Definition MaxDepthCeiling : Z := 64.
Definition MaxNestingCeiling : Z := 64.

(** The checks [LoadBudgetDefaults] makes on the decoded file. *)
Definition check_defaults (d : BudgetDefaults) : check :=
  guard ((bd_max_steps d <=? 0) || (bd_max_depth d <=? 0) || (bd_max_nesting d <=? 0)) "invalid budget defaults" ;;?
  guard ((MaxStepsCeiling <? bd_max_steps d) || (MaxDepthCeiling <? bd_max_depth d)
         || (MaxNestingCeiling <? bd_max_nesting d)) "budget defaults must not relax published ceilings".
Definition BudgetFromDefaults (d : BudgetDefaults) : Budget :=
  mkBudget (bd_max_steps d) (bd_max_depth d) (bd_max_nesting d) 0 0 0.

(** ** A sample run *)

Definition w_handler (op : string) (vars req : gomap any) : (gomap any * gomap any) * result (gomap any) :=
  ((vars, req), inl [("last", AStr op)]).
Definition w_cond (op : string) (value : any) : Condition := mkCond op "request.n" value [] [].
Definition w_flow : Flow :=
  mkFlow [mkStep "" "op" "db:open" None [] [] [];
          mkStep "" "if" "" (Some (w_cond "lt" (jnum "10")))
            [mkStep "" "op" "db:select" None [] [] []] [mkStep "" "op" "db:deny" None [] [] []] [];
          mkStep "" "seq" "" None [] [] [mkStep "" "op" "db:close" None [] [] []]].
Definition w_rule : Rule :=
  mkRule "r1" "1.0.0" "std/database-v1" "query:SELECT" "" (Some (w_cond "gte" (jnum "0"))) [] (Some w_flow).

Example decide_sample :
  Decide (λ _, 0) w_handler w_rule [("n", jnum "3")] NewBudget =
  (inl (mkExecDecision true "" 7), set_steps 7 NewBudget, ["db:open"; "db:select"; "db:close"]).
Proof. vm_compute. reflexivity. Qed.
