(* ===== verification/RuleExecProofs.v ===== *)
(** * The execution of rules is bounded

    Theorems on the condition and flow languages of ruleexec: every operation
    node runs at most once and in order, a run charges at most one step per node,
    the nesting counter is balanced, an adequate budget is never exceeded, and a
    rule that passes the structure check cannot dereference a missing condition. *)

From S2P Require Import Prelude GoStrings GoTime GoFloat Json Values Bounds Evidence RuleExec.

(** ** Operations run at most once *)

(** The operations a step can reach, in program order. *)
Fixpoint step_ops (st : Step) : list string :=
  match st with
  | mkStep _ kind op _ th el ss =>
      if String.eqb kind "op" then [op]
      else if String.eqb kind "if" then flat_map step_ops th ++ flat_map step_ops el
      else if String.eqb kind "seq" then flat_map step_ops ss
      else []
  end.

Section runs.
Context (clock : Z → Time)
(handler : string → gomap any → gomap any → (gomap any * gomap any) * result (gomap any)).

(** [run] appends to the log a subsequence of [ops]. *)
Definition logs (ops : list string) (run : fstate → option exec_error * fstate) : Prop :=
∀ s, ∃ l, fs_calls (run s).2 = fs_calls s ++ l ∧ sublist l ops.

Lemma logs_loop run steps :
Forall (λ st, logs (step_ops st) (run st)) steps → logs (flat_map step_ops steps) (step_loop run steps).
Proof.
induction 1 as [|st steps Hst _ IH]; intros s; cbn [step_loop flat_map].
- exists []. by rewrite app_nil_r.
- destruct (Hst s) as (l & Hl & Hs). destruct (run st s) as [[e|] s1]; cbn [fst snd] in *.
  + exists l. split; [done|]. by apply sublist_inserts_r.
  + destruct (IH s1) as (l' & Hl' & Hs'). exists (l ++ l'). split; [by rewrite Hl', Hl, app_assoc|].
    by apply sublist_app.
Qed.

Lemma logs_runSteps run depth steps :
Forall (λ st, logs (step_ops st) (run st)) steps → logs (flat_map step_ops steps) (runSteps_with run depth steps).
Proof.
intros H s. unfold runSteps_with. destruct (Enter depth (fs_budget s)) as [[e|] b].
- exists []. simpl. rewrite app_nil_r. split; [done|apply sublist_nil_l].
- destruct (logs_loop run steps H (with_budget b s)) as (l & Hl & Hs).
  destruct (step_loop run steps (with_budget b s)) as [r s']. exists l. done.
Qed.

Lemma logs_more ops ops' run : sublist ops ops' → logs ops run → logs ops' run.
Proof. intros Hs H s. destruct (H s) as (l & ? & ?). exists l. split; [done|]. by trans ops. Qed.

Lemma logs_step st : ∀ depth, logs (step_ops st) (runStep clock handler depth st).
Proof.
induction st as [name kind op cond th el ss Hth Hel Hss] using Step_nested_ind. intros depth s.
assert (∀ l, Forall (λ st, ∀ depth, logs (step_ops st) (runStep clock handler depth st)) l →
   Forall (λ st, logs (step_ops st) (runStep clock handler (depth + 1) st)) l) as Hd.
{ intros l H. eapply list.Forall_impl; [exact H|]. intros st Hst. apply Hst. }
cbn [runStep step_ops]. destruct (Step_charge clock (fs_budget s)) as [[e|] b].
{ exists []. simpl. rewrite app_nil_r. split; [done|apply sublist_nil_l]. }
set (s1 := with_budget b s). change (fs_calls s) with (fs_calls s1).
destruct (String.eqb kind "op").
{ exists [op]. unfold run_op. destruct (handler _ _ _) as [[vars req] out]. by destruct out. }
destruct (String.eqb kind "if").
{ destruct cond as [c|]; [|exists []; rewrite app_nil_r; split; [done|apply sublist_nil_l]].
  destruct (EvalCondition _ _ _ _ _) as [[ok|e] b']; [|exists []; simpl; rewrite app_nil_r; split;
    [done|apply sublist_nil_l]].
  change (fs_calls s1) with (fs_calls (with_budget b' s1)). destruct ok.
  - eapply logs_more; [|apply logs_runSteps, Hd, Hth]. by apply sublist_inserts_r.
  - eapply logs_more; [|apply logs_runSteps, Hd, Hel]. by apply sublist_inserts_l. }
destruct (String.eqb kind "seq"); [apply logs_runSteps, Hd, Hss|].
exists []. rewrite app_nil_r. split; [done|apply sublist_nil_l].
Qed.
End runs.

(** No amplification.  Whatever the handler and the clock do, the operations
    a decision hands to the handler are a subsequence of the operation nodes of
    the rule's flow in program order: every node runs at most once, and none runs
    that the flow does not contain. *)
Lemma Decide_at_most_once clock handler r request b :
  sublist (Decide clock handler r request b).2
          (match ru_flow r with Some f => flat_map step_ops (fl_steps f) | None => [] end).
Proof.
  unfold Decide. destruct (ValidateStructure r); [apply sublist_nil_l|].
  destruct (match ru_flow r with Some f => _ | None => None end); [apply sublist_nil_l|].
  destruct (match ru_conditions r with None => _ | Some c => _ end) as [[[]|e] b1]; try apply sublist_nil_l.
  destruct (ru_flow r) as [f|]; [|apply sublist_nil_l].
  assert (logs (flat_map step_ops (fl_steps f)) (RunFlow clock handler f)) as H.
  { apply logs_runSteps, list.Forall_forall. intros st _. apply logs_step. }
  destruct (H (mkFState [] request b1 [])) as (l & Hl & Hs).
  destruct (RunFlow clock handler f _) as [[e|] s]; simpl in *; by rewrite Hl.
Qed.

(** ** What an evaluation charges *)

Definition same_limits (b b' : Budget) : Prop :=
  b_max_steps b' = b_max_steps b ∧ b_max_depth b' = b_max_depth b ∧
  b_max_nesting b' = b_max_nesting b ∧ b_deadline b' = b_deadline b.

(** [charged size height depth b b' over]: a piece of work of at most [size]
    steps and [height] levels, started at [depth] with budget [b], left [b'];
    [over] tells whether it ended with a budget error.  Limits never change,
    steps only grow and by at most [size], the nesting counter is restored unless
    the budget was exceeded, and it is not exceeded when the work fits. *)
Record charged (size height depth : Z) (b b' : Budget) (over : bool) : Prop := {
  ch_limits : same_limits b b';
  ch_steps : b_steps b <= b_steps b' <= b_steps b + size;
  ch_nesting : b_nesting b <= b_nesting b';
  ch_balanced : over = false → b_nesting b' = b_nesting b;
  ch_fits : b_deadline b = 0 → b_steps b + size <= b_max_steps b → depth + height - 1 <= b_max_depth b →
            b_nesting b + height <= b_max_nesting b → over = false
}.

Definition over_err (e : option exec_error) : bool := match e with Some e => is_budget e | None => false end.
Definition over_res {A} (r : eres A) : bool := match r with inr e => is_budget e | inl _ => false end.

Lemma same_limits_trans a b c : same_limits a b → same_limits b c → same_limits a c.
Proof. unfold same_limits. intuition congruence. Qed.

Lemma charged_none depth b : charged 0 0 depth b b false.
Proof. split; [done|lia|lia|done|done]. Qed.

Lemma charged_seq s1 s2 h1 h2 depth b b1 b2 over :
  0 <= s2 → 0 <= h1 → 0 <= h2 → charged s1 h1 depth b b1 false → charged s2 h2 depth b1 b2 over →
  charged (s1 + s2) (Z.max h1 h2) depth b b2 over.
Proof.
  intros ? ? ? [L1 S1 N1 B1 F1] [L2 S2 N2 B2 F2]. specialize (B1 eq_refl).
  destruct L1 as (E1 & E2 & E3 & E4). split; [by eapply same_limits_trans|lia|lia| |].
  - intros Ho. rewrite (B2 Ho). done.
  - intros. apply F2; lia || congruence.
Qed.

Lemma charged_weaken s h s' h' depth b b' over :
  s <= s' → h <= h' → charged s h depth b b' over → charged s' h' depth b b' over.
Proof. intros ? ? [L S N B F]. split; [done|lia|lia|done|]. intros. apply F; lia. Qed.

(** A level: enter, work, exit. *)
Lemma Enter_None depth b b' :
  Enter depth b = (None, b') →
  b' = set_nesting (b_nesting b + 1) b ∧ depth <= b_max_depth b ∧ b_nesting b + 1 <= b_max_nesting b.
Proof.
  unfold Enter. simpl. destruct (Z.ltb_spec (b_max_depth b) depth); [done|].
  destruct (Z.ltb_spec (b_max_nesting b) (b_nesting b + 1)); [done|]. intros; simplify_eq. auto.
Qed.

Lemma Enter_Some depth b e b' :
  Enter depth b = (Some e, b') → is_budget e = true ∧ same_limits b b' ∧ b_steps b' = b_steps b ∧
  b_nesting b <= b_nesting b' ∧ (b_max_depth b < depth ∨ b_max_nesting b < b_nesting b + 1).
Proof.
  unfold Enter. simpl. destruct (Z.ltb_spec (b_max_depth b) depth).
  - intros; simplify_eq. unfold same_limits. split_and!; [done..|lia|auto].
  - destruct (Z.ltb_spec (b_max_nesting b) (b_nesting b + 1)); [|done]. intros; simplify_eq.
    unfold same_limits. simpl. split_and!; [done..|lia|auto].
Qed.

Lemma charged_level s h depth b b1 b2 over :
  0 <= s → 0 <= h → 0 <= b_nesting b →
  Enter depth b = (None, b1) → charged s h (depth + 1) b1 b2 over →
  charged s (h + 1) depth b (Exit b2) over.
Proof.
  intros ? ? ? (-> & Hd & Hn)%Enter_None [L S N B F]. simpl in *.
  destruct L as (E1 & E2 & E3 & E4). simpl in *.
  assert (b_nesting (Exit b2) = b_nesting b2 - 1 ∧ same_limits b2 (Exit b2) ∧ b_steps (Exit b2) = b_steps b2)
    as (En & El & Es).
  { unfold Exit. destruct (Z.ltb_spec 0 (b_nesting b2)); [done|lia]. }
  split; [eapply same_limits_trans; [|done]; done|lia|lia| |].
  - intros Ho. specialize (B Ho). lia.
  - intros. apply F; lia || done.
Qed.

Lemma Enter_over s h depth b e b1 :
  0 <= s → 0 <= h → Enter depth b = (Some e, b1) → charged s (h + 1) depth b b1 (is_budget e).
Proof.
  intros ? ? (Hb & Hl & Hs & Hn & Hover)%Enter_Some. rewrite Hb.
  split; [done|lia|lia|done|]. intros. exfalso. lia.
Qed.

(** One charged step. *)
Section step.
Context (clock : Z → Time).
Lemma Step_charge_within b b1 :
Step_charge clock b = (None, b1) → b1 = set_steps (b_steps b + 1) b ∧ b_steps b + 1 <= b_max_steps b.
Proof.
unfold Step_charge. simpl. destruct (Z.ltb_spec (b_max_steps b) (b_steps b + 1)); [done|].
destruct (_ && _); [done|]. intros; by simplify_eq.
Qed.
Lemma Step_charge_None b b1 : Step_charge clock b = (None, b1) → b1 = set_steps (b_steps b + 1) b.
Proof. intros H. by apply Step_charge_within in H as [? _]. Qed.

Lemma Step_charge_over s h depth b e b1 :
1 <= s → Step_charge clock b = (Some e, b1) → charged s h depth b b1 (is_budget e).
Proof.
intros Hs. unfold Step_charge. simpl. destruct (Z.ltb_spec (b_max_steps b) (b_steps b + 1)).
- intros; simplify_eq. split; simpl; [done|lia|lia|done|]. intros. lia.
- destruct (negb _ && _) eqn:E; [|done]. intros; simplify_eq. split; simpl; [done|lia|lia|done|].
  intros Hz. unfold IsZero in E. rewrite Hz in E. done.
Qed.

Lemma charged_step s h depth b b1 b2 over :
0 <= s → Step_charge clock b = (None, b1) → charged s h depth b1 b2 over → charged (s + 1) h depth b b2 over.
Proof.
intros ? ->%Step_charge_None [L S N B F]. simpl in *. split; [done|lia|lia|done|]. intros. apply F; simpl; lia || done.
Qed.
End step.

(** ** Conditions *)

Fixpoint csize (c : Condition) : Z :=
  match c with mkCond _ _ _ _ items => 1 + fold_right (λ c acc, csize c + acc) 0 items end.
Fixpoint cheight (c : Condition) : Z :=
  match c with mkCond _ _ _ _ items => 1 + fold_right (λ c acc, Z.max (cheight c) acc) 0 items end.

Lemma items_nonneg (f : Condition → Z) (op : Z → Z → Z) items :
  (∀ x y, 0 <= x → 0 <= y → 0 <= op x y) → Forall (λ c, 0 <= f c) items →
  0 <= fold_right (λ c acc, op (f c) acc) 0 items.
Proof. intros H. induction 1 as [|c items ? ? IH]; simpl; auto with lia. Qed.

Lemma csize_pos c : 1 <= csize c.
Proof.
  induction c as [op path v w items IH] using Condition_nested_ind. simpl.
  assert (0 <= fold_right (λ c acc, csize c + acc) 0 items); [|lia].
  apply (items_nonneg csize Z.add); [lia|]. eapply list.Forall_impl; [exact IH|]. simpl. lia.
Qed.

Lemma cheight_pos c : 1 <= cheight c.
Proof.
  induction c as [op path v w items IH] using Condition_nested_ind. simpl.
  assert (0 <= fold_right (λ c acc, Z.max (cheight c) acc) 0 items); [|lia].
  apply (items_nonneg cheight Z.max); [lia|]. eapply list.Forall_impl; [exact IH|]. simpl. lia.
Qed.

Section conditions.
Context (clock : Z → Time) (ctx : gomap any).

Definition cond_charged (evl : Budget → eres bool * Budget) (size height depth : Z) : Prop :=
∀ b, 0 <= b_nesting b → charged size height depth b (evl b).2 (over_res (evl b).1).

Lemma item_loop_charged evl stop depth items :
Forall (λ c, cond_charged (evl c) (csize c) (cheight c) depth) items →
cond_charged (item_loop evl stop items) (fold_right (λ c acc, csize c + acc) 0 items)
  (fold_right (λ c acc, Z.max (cheight c) acc) 0 items) depth.
Proof.
induction 1 as [|c items Hc Hi IH]; intros b Hb; cbn [item_loop fold_right].
{ apply charged_none. }
assert (0 <= fold_right (λ c acc, csize c + acc) 0 items) as Hs.
{ apply (items_nonneg csize Z.add); [lia|]. apply list.Forall_forall. intros x _. pose proof (csize_pos x). lia. }
assert (0 <= fold_right (λ c acc, Z.max (cheight c) acc) 0 items) as Hh.
{ apply (items_nonneg cheight Z.max); [lia|]. apply list.Forall_forall. intros x _. pose proof (cheight_pos x). lia. }
pose proof (csize_pos c). pose proof (cheight_pos c). specialize (Hc b Hb).
destruct (evl c b) as [[v|e] b1]; simpl in Hc.
- destruct (Bool.eqb v stop).
  + eapply charged_weaken; [| |exact Hc]; lia.
  + eapply charged_seq; [lia|lia|lia|exact Hc|]. apply IH. destruct Hc as [_ _ ? _ _]. lia.
- eapply charged_weaken; [| |exact Hc]; lia.
Qed.

(** What an evaluation charges after its own step. *)
Lemma EvalCondition_level op path v w items depth b b1 :
Forall (λ c, ∀ depth, cond_charged (EvalCondition clock ctx depth c) (csize c) (cheight c) depth) items →
0 <= b_nesting b → Step_charge clock b = (None, b1) →
let out := EvalCondition clock ctx depth (mkCond op path v w items) b in
charged (fold_right (λ c acc, csize c + acc) 0 items)
  (fold_right (λ c acc, Z.max (cheight c) acc) 0 items + 1) depth b1 out.2 (over_res out.1).
Proof.
intros IH Hb E1. set (size := fold_right (λ c acc, csize c + acc) 0 items).
set (height := fold_right (λ c acc, Z.max (cheight c) acc) 0 items).
assert (0 <= size ∧ 0 <= height) as [Hs Hh].
{ split; [apply (items_nonneg csize Z.add)|apply (items_nonneg cheight Z.max)]; try lia;
    apply list.Forall_forall; intros x _; [pose proof (csize_pos x)|pose proof (cheight_pos x)]; lia. }
cbn [EvalCondition]. rewrite E1. cbn zeta.
assert (0 <= b_nesting b1) as Hb1 by (apply Step_charge_None in E1 as ->; done).
destruct (Enter depth b1) as [[e|] b2] eqn:E2.
{ cbn [fst snd over_res]. by eapply Enter_over. }
assert (0 <= b_nesting b2) as Hb2 by (apply Enter_None in E2 as (-> & _); simpl; lia).
assert (charged size height (depth + 1) b2 b2 false) as Hnone.
{ eapply charged_weaken; [| |apply charged_none]; lia. }
set (work := if String.eqb op "and" then _ else _).
assert (charged size height (depth + 1) b2 work.2 (over_res work.1)) as Hw.
{ subst work. destruct (String.eqb op "and"); [|destruct (String.eqb op "or")].
  1,2: apply item_loop_charged; [|done]; eapply list.Forall_impl; [exact IH|]; intros c Hc; apply Hc.
  destruct (String.eqb op "not").
  { destruct items as [|it [|]]; try exact Hnone. apply list.Forall_cons in IH as [Hit _].
    specialize (Hit (depth + 1) b2 Hb2). destruct (EvalCondition clock ctx (depth + 1) it b2) as [[r|e] b3].
    - eapply charged_weaken; [| |exact Hit]; subst size height; simpl; lia.
    - eapply charged_weaken; [| |exact Hit]; subst size height; simpl; lia. }
  destruct (String.eqb op "is-null"); [exact Hnone|]. destruct (negb _); [exact Hnone|].
  destruct (resolvePath ctx path) as [x|]; [|exact Hnone].
  assert (over_res (evalLeaf op x v w) = false) as He.
  { unfold evalLeaf. repeat case_match; done. }
  cbn [fst snd]. by rewrite He. }
destruct work as [r b3]. cbn [fst snd] in *. by eapply charged_level.
Qed.

Lemma EvalCondition_charged c : ∀ depth,
cond_charged (EvalCondition clock ctx depth c) (csize c) (cheight c) depth.
Proof.
induction c as [op path v w items IH] using Condition_nested_ind. intros depth b Hb.
cbn [csize cheight]. rewrite (Z.add_comm 1 (fold_right _ _ _)), (Z.add_comm 1 (fold_right _ _ _)).
assert (0 <= fold_right (λ c acc, csize c + acc) 0 items) as Hs.
{ apply (items_nonneg csize Z.add); [lia|]. apply list.Forall_forall. intros x _. pose proof (csize_pos x). lia. }
destruct (Step_charge clock b) as [[e|] b1] eqn:E1.
- cbn [EvalCondition]. rewrite E1. cbn [fst snd over_res]. eapply Step_charge_over; [lia|exact E1].
- eapply charged_step; [lia|exact E1|]. by apply EvalCondition_level.
Qed.

(** A condition that is answered has charged at least its own step, within the
  limit. *)
Lemma EvalCondition_answered c depth b v b' :
0 <= b_nesting b → EvalCondition clock ctx depth c b = (inl v, b') →
b_steps b + 1 <= b_max_steps b ∧ b_steps b + 1 <= b_steps b' ∧ same_limits b b' ∧ b_nesting b' = b_nesting b.
Proof.
intros Hb E. destruct c as [op path val w items].
pose proof (EvalCondition_charged (mkCond op path val w items) depth b Hb) as [L _ _ B _].
destruct (Step_charge clock b) as [[e|] b1] eqn:E1.
{ cbn [EvalCondition] in E. by rewrite E1 in E. }
assert (Forall (λ c, ∀ depth, cond_charged (EvalCondition clock ctx depth c) (csize c) (cheight c) depth) items)
  as Hi by (apply list.Forall_forall; auto using EvalCondition_charged).
destruct (EvalCondition_level op path val w items depth b b1 Hi Hb E1) as [_ S _ _ _].
rewrite E in *. simpl in *. apply Step_charge_within in E1 as [-> ?]. simpl in S. split_and!; [done|lia|done|auto].
Qed.
End conditions.

(** ** Flows *)

Definition copt (f : Condition → Z) (c : option Condition) : Z := match c with Some c => f c | None => 0 end.

(** Steps of a list, and levels of a list (its own level included). *)
Section step_measure.
Context (f : Step → Z).
Definition total (l : list Step) : Z := fold_right (λ st acc, f st + acc) 0 l.
Definition levels (l : list Step) : Z := 1 + fold_right (λ st acc, Z.max (f st) acc) 0 l.
End step_measure.

Fixpoint ssize (st : Step) : Z :=
  match st with
  | mkStep _ kind _ cond th el ss =>
      1 + (if String.eqb kind "op" then 0
           else if String.eqb kind "if" then copt csize cond + (total ssize th + total ssize el)
           else if String.eqb kind "seq" then total ssize ss else 0)
  end.
Fixpoint sheight (st : Step) : Z :=
  match st with
  | mkStep _ kind _ cond th el ss =>
      if String.eqb kind "op" then 0
      else if String.eqb kind "if" then Z.max (copt cheight cond) (Z.max (levels sheight th) (levels sheight el))
      else if String.eqb kind "seq" then levels sheight ss else 0
  end.

Lemma copt_nonneg f c : (∀ c, 1 <= f c) → 0 <= copt f c.
Proof. intros H. destruct c as [c|]; simpl; [specialize (H c)|]; lia. Qed.

Lemma total_nonneg f l : Forall (λ st, 0 <= f st) l → 0 <= total f l.
Proof. induction 1; simpl; unfold total in *; simpl; lia. Qed.

Lemma levels_pos f l : 1 <= levels f l.
Proof. unfold levels. assert (0 <= fold_right (λ st acc, Z.max (f st) acc) 0 l); [|lia]. induction l; simpl; lia. Qed.

Lemma ssize_pos st : 1 <= ssize st.
Proof.
  induction st as [name kind op cond th el ss Hth Hel Hss] using Step_nested_ind. cbn [ssize].
  assert (∀ l, Forall (λ st, 1 <= ssize st) l → 0 <= total ssize l) as Ht.
  { intros l H. apply total_nonneg. eapply list.Forall_impl; [exact H|]. simpl. lia. }
  pose proof (copt_nonneg csize cond csize_pos). pose proof (Ht th Hth). pose proof (Ht el Hel). pose proof (Ht ss Hss).
  destruct (String.eqb kind "op"), (String.eqb kind "if"), (String.eqb kind "seq"); lia.
Qed.

Lemma sheight_nonneg st : 0 <= sheight st.
Proof.
  destruct st as [name kind op cond th el ss]. cbn [sheight].
  pose proof (levels_pos sheight th). pose proof (levels_pos sheight el). pose proof (levels_pos sheight ss).
  destruct (String.eqb kind "op"), (String.eqb kind "if"), (String.eqb kind "seq"); lia.
Qed.

Section flows.
Context (clock : Z → Time)
(handler : string → gomap any → gomap any → (gomap any * gomap any) * result (gomap any)).

Definition run_charged (run : fstate → option exec_error * fstate) (size height depth : Z) : Prop :=
∀ s, 0 <= b_nesting (fs_budget s) →
  charged size height depth (fs_budget s) (fs_budget (run s).2) (over_err (run s).1).

Lemma step_loop_charged run depth steps :
Forall (λ st, run_charged (run st) (ssize st) (sheight st) depth) steps →
run_charged (step_loop run steps) (total ssize steps) (levels sheight steps - 1) depth.
Proof.
unfold total, levels. induction 1 as [|st steps Hst _ IH]; intros s Hb; cbn [step_loop fold_right].
{ apply charged_none. }
assert (0 <= fold_right (λ st acc, ssize st + acc) 0 steps) as Hs.
{ apply (total_nonneg ssize). apply list.Forall_forall. intros x _. pose proof (ssize_pos x). lia. }
pose proof (levels_pos sheight steps) as Hl. unfold levels in Hl.
pose proof (ssize_pos st). pose proof (sheight_nonneg st). specialize (Hst s Hb).
set (h := fold_right (λ st acc, Z.max (sheight st) acc) 0 steps) in *.
destruct (run st s) as [[e|] s1]; cbn [fst snd over_err] in *.
- eapply charged_weaken; [| |exact Hst]; lia.
- replace (1 + Z.max (sheight st) h - 1) with (Z.max (sheight st) h) by lia.
  eapply charged_seq; [lia|lia| |exact Hst|]; [lia|].
  replace h with (1 + h - 1) by lia. apply IH. destruct Hst as [_ _ ? _ _]. lia.
Qed.

Lemma runSteps_charged run depth steps :
Forall (λ st, run_charged (run st) (ssize st) (sheight st) (depth + 1)) steps →
run_charged (runSteps_with run depth steps) (total ssize steps) (levels sheight steps) depth.
Proof.
intros H s Hb. unfold runSteps_with.
assert (0 <= total ssize steps) as Hs.
{ apply total_nonneg, list.Forall_forall. intros x _. pose proof (ssize_pos x). lia. }
pose proof (levels_pos sheight steps) as Hl.
replace (levels sheight steps) with ((levels sheight steps - 1) + 1) by lia.
destruct (Enter depth (fs_budget s)) as [[e|] b] eqn:E.
- cbn [fst snd over_err with_budget fs_budget]. eapply Enter_over; [lia|lia|exact E].
- assert (0 <= b_nesting b) as Hb' by (apply Enter_None in E as (-> & _); simpl; lia).
  pose proof (step_loop_charged run (depth + 1) steps H (with_budget b s) Hb') as Hw.
  destruct (step_loop run steps (with_budget b s)) as [r s']. cbn [fst snd with_budget fs_budget] in *.
  eapply charged_level; [lia|lia|exact Hb|exact E|exact Hw].
Qed.

Lemma runStep_charged st : ∀ depth,
run_charged (runStep clock handler depth st) (ssize st) (sheight st) (depth + 1).
Proof.
induction st as [name kind op cond th el ss Hth Hel Hss] using Step_nested_ind. intros depth s Hb.
assert (∀ l, Forall (λ st, ∀ depth, run_charged (runStep clock handler depth st) (ssize st) (sheight st) (depth + 1)) l →
   run_charged (runSteps_with (runStep clock handler (depth + 1)) (depth + 1) l) (total ssize l) (levels sheight l)
     (depth + 1)) as Hd.
{ intros l H. apply runSteps_charged. eapply list.Forall_impl; [exact H|]. intros st Hst. apply Hst. }
assert (∀ l, 0 <= total ssize l) as Ht.
{ intros l. apply total_nonneg, list.Forall_forall. intros x _. pose proof (ssize_pos x). lia. }
pose proof (Ht th); pose proof (Ht el); pose proof (Ht ss); clear Ht.
pose proof (levels_pos sheight th); pose proof (levels_pos sheight el); pose proof (levels_pos sheight ss).
pose proof (copt_nonneg csize cond csize_pos). pose proof (copt_nonneg cheight cond cheight_pos).
cbn [runStep ssize sheight]. set (extra := if String.eqb kind "op" then 0 else _).
assert (0 <= extra) as Hex by (subst extra; destruct (String.eqb kind "op"), (String.eqb kind "if"), (String.eqb kind "seq"); lia).
replace (1 + extra) with (extra + 1) by lia.
destruct (Step_charge clock (fs_budget s)) as [[e|] b] eqn:E1.
{ cbn [fst snd over_err with_budget fs_budget]. eapply Step_charge_over; [lia|exact E1]. }
eapply charged_step; [done|exact E1|].
assert (0 <= b_nesting b) as Hb' by (apply Step_charge_None in E1 as ->; done).
set (s1 := with_budget b s). change (0 <= b_nesting (fs_budget s1)) in Hb'.
match goal with |- charged ?a ?h ?d _ ?c ?o => change (charged a h d (fs_budget s1) c o) end. subst extra.
destruct (String.eqb kind "op").
{ unfold run_op. destruct (handler _ _ _) as [[vars req] [m|e]]; apply charged_none. }
destruct (String.eqb kind "if").
{ destruct cond as [c|]; [|eapply charged_weaken; [| |apply charged_none]; simpl; lia].
  pose proof (EvalCondition_charged clock (evalContext s1) c (depth + 1) (fs_budget s1) Hb') as Hc.
  cbn [copt] in *. destruct (EvalCondition _ _ _ c _) as [[ok|e] b2]; cbn [fst snd over_res over_err] in *.
  - assert (0 <= b_nesting b2) as Hb2 by (destruct Hc as [_ _ ? _ _]; lia).
    set (s2 := with_budget b2 s1).
    change (charged (csize c) (cheight c) (depth + 1) (fs_budget s1) (fs_budget s2) false) in Hc.
    destruct ok.
    + eapply charged_weaken; [| |eapply charged_seq; [| | |exact Hc|apply (Hd th Hth s2 Hb2)]]; lia.
    + eapply charged_weaken; [| |eapply charged_seq; [| | |exact Hc|apply (Hd el Hel s2 Hb2)]]; lia.
  - eapply charged_weaken; [| |exact Hc]; lia. }
destruct (String.eqb kind "seq").
- apply (Hd ss Hss s1 Hb').
- apply charged_none.
Qed.
End flows.

(** ** Decisions *)

(** The number of nodes of a rule and the levels it needs. *)
Definition rule_size (r : Rule) : Z :=
  copt csize (ru_conditions r) + match ru_flow r with Some f => total ssize (fl_steps f) | None => 0 end.
Definition rule_height (r : Rule) : Z :=
  Z.max (copt cheight (ru_conditions r)) (match ru_flow r with Some f => levels sheight (fl_steps f) | None => 0 end).

(** The static checks fail with plain errors only. *)
Definition soft (e : option exec_error) : bool :=
  match e with Some e => negb (is_budget e) && negb (is_panic e) | None => true end.

Lemma check_list_soft {A} (f : A → option exec_error) l :
  (∀ x, soft (f x) = true) → soft (check_list f l) = true.
Proof. intros H. induction l as [|x l IH]; [done|]. simpl. specialize (H x). by destruct (f x). Qed.

Lemma check_list_soft_Forall {A} (f : A → option exec_error) l :
  Forall (λ x, soft (f x) = true) l → soft (check_list f l) = true.
Proof. induction 1 as [|x l H _ IH]; [done|]. simpl. by destruct (f x). Qed.

Lemma checkCondition_soft c : soft (checkCondition c) = true.
Proof.
  induction c as [op path v w items IH] using Condition_nested_ind. cbn [checkCondition].
  destruct (_ && _ && _); [done|]. destruct (String.eqb op "in" && _); [done|]. destruct (negb _); [done|].
  by apply check_list_soft_Forall.
Qed.

Lemma checkStep_soft st : soft (checkStep st) = true.
Proof.
  induction st as [name kind op cond th el ss Hth Hel Hss] using Step_nested_ind. cbn [checkStep].
  destruct (negb _); [done|]. destruct (String.eqb kind "if" && _); [done|].
  assert (soft (check_opt_condition cond) = true) as Hc by (destruct cond; [apply checkCondition_soft|done]).
  destruct (check_opt_condition cond); [done|].
  apply check_list_soft_Forall in Hth, Hel, Hss.
  destruct (check_list checkStep th); [done|]. by destruct (check_list checkStep el).
Qed.

Lemma ValidateStructure_soft r : soft (ValidateStructure r) = true.
Proof.
  unfold ValidateStructure. do 3 (case_match; [done|]).
  assert (soft (check_opt_condition (ru_conditions r)) = true) as Hc
    by (destruct (ru_conditions r); [apply checkCondition_soft|done]).
  destruct (check_opt_condition (ru_conditions r)); [done|]. destruct (ru_flow r) as [f|]; [|done].
  assert (soft (checkSteps (fl_steps f)) = true) as Hs by (apply check_list_soft, checkStep_soft).
  by destruct (checkSteps (fl_steps f)).
Qed.

Lemma walkBounds_step_soft n st : ∀ depth, soft (walkBounds_step n depth st) = true.
Proof.
  induction st as [name kind op cond th el ss Hth Hel Hss] using Step_nested_ind. intros depth.
  assert (∀ l, Forall (λ st, ∀ depth, soft (walkBounds_step n depth st) = true) l →
     soft (bounds_with (walkBounds_step n (depth + 1)) n (depth + 1) l) = true) as Hd.
  { intros l H. unfold bounds_with. destruct (_ <? _); [done|]. apply check_list_soft_Forall.
    eapply list.Forall_impl; [exact H|]. intros st Hst. apply Hst. }
  cbn [walkBounds_step]. specialize (Hd th Hth) as H1. specialize (Hd el Hel) as H2. specialize (Hd ss Hss) as H3.
  destruct (String.eqb kind "if"); [by destruct (bounds_with _ _ _ th)|]. by destruct (String.eqb kind "seq").
Qed.

Lemma CheckStaticBounds_soft f b : soft (CheckStaticBounds f b) = true.
Proof.
  unfold CheckStaticBounds, walkBounds, bounds_with. destruct (_ <? _); [done|].
  apply check_list_soft. intros st. apply walkBounds_step_soft.
Qed.

Section decide.
Context (clock : Z → Time)
(handler : string → gomap any → gomap any → (gomap any * gomap any) * result (gomap any)).

Lemma RunFlow_charged f :
run_charged (RunFlow clock handler f) (total ssize (fl_steps f)) (levels sheight (fl_steps f)) 0.
Proof. apply runSteps_charged, list.Forall_forall. intros st _. apply runStep_charged. Qed.

Lemma Decide_charged r request b :
0 <= b_nesting b →
charged (rule_size r) (rule_height r) 0 b (Decide clock handler r request b).1.2
  (over_res (Decide clock handler r request b).1.1).
Proof.
intros Hb. unfold Decide, rule_size, rule_height.
set (fsz := match ru_flow r with Some f => _ | None => 0 end).
set (fh := match ru_flow r with Some f => levels _ _ | None => 0 end).
assert (0 <= fsz ∧ 0 <= fh) as [Hf1 Hf2].
{ subst fsz fh. destruct (ru_flow r) as [f|]; [|done]. pose proof (levels_pos sheight (fl_steps f)).
  split; [|lia]. apply total_nonneg, list.Forall_forall. intros x _. pose proof (ssize_pos x). lia. }
pose proof (copt_nonneg csize (ru_conditions r) csize_pos).
pose proof (copt_nonneg cheight (ru_conditions r) cheight_pos).
assert (charged (copt csize (ru_conditions r) + fsz) (Z.max (copt cheight (ru_conditions r)) fh) 0 b b false) as Hnone
  by (eapply charged_weaken; [| |apply charged_none]; lia).
pose proof (ValidateStructure_soft r) as Hv. destruct (ValidateStructure r) as [e|].
{ simpl in *. go_bool. by rewrite H1. }
set (sb := match ru_flow r with Some f => CheckStaticBounds f b | None => None end).
assert (soft sb = true) as Hsb by (subst sb; destruct (ru_flow r); [apply CheckStaticBounds_soft|done]).
destruct sb as [e|]; [simpl in *; go_bool; by rewrite H1|].
set (cres := match ru_conditions r with None => _ | Some c => _ end).
assert (charged (copt csize (ru_conditions r)) (copt cheight (ru_conditions r)) 0 b cres.2 (over_res cres.1)) as Hc.
{ subst cres. destruct (ru_conditions r); [by apply EvalCondition_charged|apply charged_none]. }
destruct cres as [[[]|e] b1]; cbn [fst snd over_res] in *;
  try (eapply charged_weaken; [| |exact Hc]; lia).
assert (0 <= b_nesting b1) as Hb1 by (destruct Hc as [_ _ ? _ _]; lia).
destruct (ru_flow r) as [f|]; cbn [fst snd over_res] in *; [|eapply charged_weaken; [| |exact Hc]; lia].
pose proof (RunFlow_charged f (mkFState [] request b1 []) Hb1) as Hrun.
destruct (RunFlow clock handler f _) as [[e|] s]; cbn [fst snd over_res over_err fs_budget] in *;
  by eapply charged_seq.
Qed.
End decide.

(** A decision charges at most one step per node of the rule, never relaxes
    a limit, and leaves the nesting counter as it found it unless it ended with a
    budget error. *)
Lemma Decide_bounded clock handler r request b out b' calls :
  0 <= b_nesting b → Decide clock handler r request b = (out, b', calls) →
  b_steps b <= b_steps b' <= b_steps b + rule_size r ∧ same_limits b b' ∧
  (over_res out = false → b_nesting b' = b_nesting b).
Proof.
  intros Hb E. pose proof (Decide_charged clock handler r request b Hb) as [L S _ B _].
  rewrite E in *. simpl in *. auto.
Qed.

(** An adequate budget is never exceeded: without a deadline, a rule whose
    nodes fit the remaining steps and whose levels fit the depth and nesting
    limits cannot fail with a budget error. *)
Lemma Decide_adequate clock handler r request b :
  0 <= b_nesting b → b_deadline b = 0 → b_steps b + rule_size r <= b_max_steps b →
  rule_height r - 1 <= b_max_depth b → b_nesting b + rule_height r <= b_max_nesting b →
  over_res (Decide clock handler r request b).1.1 = false.
Proof.
  intros Hb Hdl Hs Hd Hn. pose proof (Decide_charged clock handler r request b Hb) as [_ _ _ _ F].
  apply F; [done|done|lia|done].
Qed.

(** ** No nil dereference *)

Definition panic_err (e : option exec_error) : bool := match e with Some e => is_panic e | None => false end.
Definition panic_res {A} (r : eres A) : bool := match r with inr e => is_panic e | inl _ => false end.

Lemma Enter_panic depth b : panic_err (Enter depth b).1 = false.
Proof. unfold Enter. by repeat case_match. Qed.
Lemma Step_charge_panic clock b : panic_err (Step_charge clock b).1 = false.
Proof. unfold Step_charge. by repeat case_match. Qed.

Lemma item_loop_panic evl stop items :
  Forall (λ c, ∀ b, panic_res (evl c b).1 = false) items → ∀ b, panic_res (item_loop evl stop items b).1 = false.
Proof.
  induction 1 as [|c items Hc _ IH]; intros b; [done|]. cbn [item_loop]. specialize (Hc b).
  destruct (evl c b) as [[v|e] b1]; [|done]. by destruct (Bool.eqb v stop).
Qed.

Lemma EvalCondition_panic clock ctx c : ∀ depth b, panic_res (EvalCondition clock ctx depth c b).1 = false.
Proof.
  induction c as [op path v w items IH] using Condition_nested_ind. intros depth b. cbn [EvalCondition].
  pose proof (Step_charge_panic clock b) as H1. destruct (Step_charge clock b) as [[e|] b1]; [done|].
  pose proof (Enter_panic depth b1) as H2. destruct (Enter depth b1) as [[e|] b2]; [done|].
  set (work := if String.eqb op "and" then _ else _). assert (panic_res work.1 = false) as Hw.
  { subst work. destruct (String.eqb op "and"); [|destruct (String.eqb op "or")].
    1,2: apply item_loop_panic; eapply list.Forall_impl; [exact IH|]; intros c Hc b0; apply Hc.
    destruct (String.eqb op "not").
    { destruct items as [|it [|]]; try done. apply list.Forall_cons in IH as [Hit _].
      specialize (Hit (depth + 1) b2). by destruct (EvalCondition _ _ _ it b2) as [[]]. }
    destruct (String.eqb op "is-null"); [done|]. destruct (negb _); [done|].
    destruct (resolvePath ctx path); [|done]. simpl. unfold evalLeaf. by repeat case_match. }
  by destruct work.
Qed.

Section panics.
Context (clock : Z → Time)
(handler : string → gomap any → gomap any → (gomap any * gomap any) * result (gomap any)).

Lemma step_loop_panic run steps :
Forall (λ st, ∀ s, panic_err (run st s).1 = false) steps → ∀ s, panic_err (step_loop run steps s).1 = false.
Proof.
induction 1 as [|st steps Hst _ IH]; intros s; [done|]. cbn [step_loop]. specialize (Hst s).
by destruct (run st s) as [[]].
Qed.

Lemma runSteps_panic run depth steps :
Forall (λ st, ∀ s, panic_err (run st s).1 = false) steps → ∀ s, panic_err (runSteps_with run depth steps s).1 = false.
Proof.
intros H s. unfold runSteps_with. pose proof (Enter_panic depth (fs_budget s)) as He.
destruct (Enter depth (fs_budget s)) as [[e|] b]; [done|].
pose proof (step_loop_panic run steps H (with_budget b s)). by destruct (step_loop run steps _).
Qed.

Lemma check_list_None {A} (f : A → option exec_error) l : check_list f l = None → Forall (λ x, f x = None) l.
Proof. induction l as [|x l IH]; [constructor|]. simpl. destruct (f x) eqn:E; [done|]. auto. Qed.

Lemma runStep_panic st : ∀ depth s, checkStep st = None → panic_err (runStep clock handler depth st s).1 = false.
Proof.
induction st as [name kind op cond th el ss Hth Hel Hss] using Step_nested_ind. intros depth s H.
assert (∀ l, Forall (λ st, ∀ depth s, checkStep st = None → panic_err (runStep clock handler depth st s).1 = false) l →
   check_list checkStep l = None →
   ∀ s, panic_err (runSteps_with (runStep clock handler (depth + 1)) (depth + 1) l s).1 = false) as Hd.
{ intros l Hl Hc%check_list_None. apply runSteps_panic. rewrite list.Forall_forall in *. auto. }
cbn [checkStep] in H. destruct (negb _); [done|]. destruct (String.eqb kind "if" && _) eqn:Eif; [done|].
destruct (check_opt_condition cond); [done|].
destruct (check_list checkStep th) eqn:E1; [done|]. destruct (check_list checkStep el) eqn:E2; [done|].
cbn [runStep]. pose proof (Step_charge_panic clock (fs_budget s)) as Hs.
destruct (Step_charge clock (fs_budget s)) as [[e|] b]; [done|].
destruct (String.eqb kind "op").
{ unfold run_op. by destruct (handler _ _ _) as [[? ?] []]. }
destruct (String.eqb kind "if").
{ destruct cond as [c|]; [|done].
  set (s1 := with_budget b s).
  pose proof (EvalCondition_panic clock (evalContext s1) c (depth + 1) (fs_budget s1)) as Hc.
  destruct (EvalCondition _ _ _ c _) as [[ok|e] b2]; [|done]. destruct ok; auto. }
destruct (String.eqb kind "seq"); auto.
Qed.
End panics.

(** C40: the executor never dereferences a missing condition: the structure check
    it runs first refuses every flow in which that could happen. *)
Theorem Decide_no_panic clock handler r request b :
  panic_res (Decide clock handler r request b).1.1 = false.
Proof.
  unfold Decide. pose proof (ValidateStructure_soft r) as Hv. destruct (ValidateStructure r) as [e|] eqn:Ev.
  { simpl in *. by go_bool. }
  set (sb := match ru_flow r with Some f => CheckStaticBounds f b | None => None end).
  assert (soft sb = true) as Hsb by (subst sb; destruct (ru_flow r); [apply CheckStaticBounds_soft|done]).
  destruct sb as [e|]; [simpl in *; by go_bool|].
  set (cres := match ru_conditions r with None => _ | Some c => _ end).
  assert (panic_res cres.1 = false) as Hc by (subst cres; destruct (ru_conditions r); [apply EvalCondition_panic|done]).
  destruct cres as [[[]|e] b1]; [|done|done]. unfold ValidateStructure in Ev.
  do 3 (case_match; [done|]). destruct (check_opt_condition (ru_conditions r)); [done|].
  destruct (ru_flow r) as [f|]; [|done]. destruct (checkSteps (fl_steps f)) eqn:Es; [done|].
  assert (∀ s, panic_err (RunFlow clock handler f s).1 = false) as Hr.
  { apply runSteps_panic. apply check_list_None in Es. eapply list.Forall_impl; [exact Es|].
    intros st Hst s. by apply runStep_panic. }
  specialize (Hr (mkFState [] request b1 [])). by destruct (RunFlow _ _ _ _) as [[]].
Qed.

(** ** Concrete instances *)

