(* ===== verification/Gateway.v ===== *)
(** * The rule gateway and the publication boundary

    ruleexec/gateway_plugin.go (the plugin that executes a rule for every
    request), ruleexec/signer_grant.go (a rule may only be published by a signer
    whose own grant covers it) and the checks ruleexec/ruleplugin_load.go makes
    before it builds a plugin.

    The certificate, the parser of its AIC extension and the full identifier of
    a capability are code of another repository: they are parameters here, with
    no assumption on them. *)

From S2P Require Import Prelude GoStrings GoTime Regex GoFloat Json Canonical Ids Values Bounds.
From S2P Require Import JsonText JsonStruct.
From S2P Require Import Grants Constraints Authorize Containment Evidence RuleExec.
From S2P Require Import RuleExecProofs.

(** ** The plugin (gateway_plugin.go) *)

Inductive PluginResult := PluginDeny (reason : string) | PluginAllow (reason : string) (steps : Z).

Section plugin.
Context (clock : Z → Time)
(handler : string → gomap any → gomap any → (gomap any * gomap any) * result (gomap any)).

(** [RulePlugin.Execute] on the request map: the answer (or the wrapped error),
  the budget left in the plugin's executor and the operations performed. *)
Definition Execute (r : Rule) (req : gomap any) (b : Budget) : eres PluginResult * Budget * list string :=
let '(dec, b', calls) := Decide clock handler r req b in
(match dec with
 | inr e => inr (prefixed ("rule " +:+ ru_id r) e)
 | inl d => if negb (x_allow d) then inl (PluginDeny (x_reason d))
            else inl (PluginAllow ("rule " +:+ ru_id r +:+ " ok") (x_steps d))
 end, b', calls).

(** The requests a plugin serves in its life: the executor, and with it the
  budget, is created once. *)
Fixpoint serve (r : Rule) (reqs : list (gomap any)) (b : Budget) : list (eres PluginResult) * Budget :=
match reqs with
| [] => ([], b)
| req :: reqs' =>
    let '(out, b1, _) := Execute r req b in
    let '(outs, b2) := serve r reqs' b1 in
    (out :: outs, b2)
end.
End plugin.

(** ** The publication boundary (signer_grant.go) *)

(** [pki.Capability] and [pki.AIC], the members the code reads. *)
Record Capability := mkCap { cap_scheme : string; cap_id : string; cap_params : string }.
Record AIC := mkAIC { aic_capabilities : list Capability; aic_constraints : list Capability }.

Definition coversID (grantID opID : string) : bool :=
  if String.eqb grantID opID then true
  else if HasSuffix grantID ":*" then
    let prefix := TrimSuffix grantID "*" in
    HasPrefix opID prefix && (String.length prefix <? String.length opID)%nat
  else false.

Section boundary.
Context {Cert : Type} (ParseAIC : Cert → result (option AIC)) (FullID : Capability → string).
(** The text of a JSON decoding error. *)
Context (json_error : string → string).

(** A declared constraint value; an absent one is the nil interface. *)
Definition constraint_value (what raw : string) : result any :=
if String.eqb raw "" then inl ANil
else match unmarshal_value raw with Some v => inl v | None => inr (what +:+ json_error raw) end.

(** One rule constraint against the first signer constraint of its identifier. *)
Definition constraint_within (rc : RuleConstraint) (scs : list Capability) : check :=
match List.find (λ sc, String.eqb (cap_id sc) (rc_id rc)) scs with
| None => Some ("signer grant: rule constraint " +:+ rc_scheme rc +:+ ":" +:+ rc_id rc
                +:+ " is not declared by the signer")
| Some sc =>
    match constraint_value ("signer grant: rule constraint " +:+ rc_id rc +:+ " params: ") (rc_params rc) with
    | inr e => Some e
    | inl ruleValue =>
        match constraint_value ("signer grant: signer constraint " +:+ cap_id sc +:+ " params: ")
                (cap_params sc) with
        | inr e => Some e
        | inl signerValue =>
            match ConstraintWithin ruleValue signerValue with
            | Some e => Some ("signer grant: rule constraint " +:+ rc_scheme rc +:+ ":" +:+ rc_id rc
                              +:+ " exceeds the signer's bound: " +:+ e)
            | None => None
            end
        end
    end
end.
Definition ruleConstraintsWithinSigner (rule : Rule) (aic : AIC) : check :=
check_all (λ rc, constraint_within rc (aic_constraints aic)) (ru_constraints rule).

(** The capability loop: the first capability that entails the rule's operation
  decides. *)
Fixpoint boundary_loop (rule : Rule) (aic : AIC) (op : Operation) (caps : list Capability) : check :=
match caps with
| [] => Some ("signer grant: rule capability " +:+ op_id op +:+ " is not covered by the signer's AIC grant")
| cap :: caps' =>
    if negb (coversID (FullID cap) (op_id op)) then boundary_loop rule aic op caps'
    else
      match raw_object (cap_params cap) with
      | None => Some ("signer grant: signer capability " +:+ FullID cap +:+ " params: "
                      +:+ json_error (cap_params cap))
      | Some gp =>
          match Entails (mkGrant (FullID cap) gp None []) op with
          | None => ruleConstraintsWithinSigner rule aic
          | Some _ => boundary_loop rule aic op caps'
          end
      end
end.

(** The operation a rule stands for. *)
Definition rule_operation (rule : Rule) (params : option (gomap any)) : Operation :=
mkOp (ru_scheme rule +:+ ":" +:+ ru_capability rule) params.

Definition RuleWithinSignerGrant (rule : option Rule) (signer : option Cert) : check :=
match rule, signer with
| Some rule, Some signer =>
    match ParseAIC signer with
    | inr e => Some (wrap "signer grant: parse AIC" e)
    | inl None =>
        Some "signer grant: signer certificate has no AIC extension; cannot authorize rule publication"
    | inl (Some aic) =>
        match raw_object (ru_params rule) with
        | None => Some ("signer grant: rule params: " +:+ json_error (ru_params rule))
        | Some params => boundary_loop rule aic (rule_operation rule params) (aic_capabilities aic)
        end
    end
| _, _ => Some "signer grant: rule and signer certificate are required"
end.
End boundary.

(** ** The budget of a plugin is spent once *)

Definition answered (out : eres PluginResult) : Prop := match out with inl _ => True | inr _ => False end.

(** An answered request of a rule with conditions costs at least one step. *)
Lemma Execute_answered clock handler r c req b out b' calls :
  ru_conditions r = Some c → 0 <= b_nesting b →
  Execute clock handler r req b = (inl out, b', calls) →
  b_steps b + 1 <= b_max_steps b ∧ b_steps b + 1 <= b_steps b' ∧
  b_max_steps b' = b_max_steps b ∧ b_nesting b' = b_nesting b.
Proof.
  intros Hc Hb E. unfold Execute in E. destruct (Decide clock handler r req b) as [[dec bd] cs] eqn:Ed.
  destruct dec as [d|e]; [|done]. assert (bd = b') as -> by (by destruct (negb (x_allow d)); simplify_eq).
  clear E. pose proof (Decide_charged clock handler r req b Hb) as [(Lm & _) _ _ B _].
  rewrite Ed in Lm, B. simpl in Lm, B. specialize (B eq_refl). unfold Decide in Ed.
  destruct (ValidateStructure r); [done|].
  destruct (match ru_flow r with Some f => CheckStaticBounds f b | None => None end); [done|].
  rewrite Hc in Ed. destruct (EvalCondition clock _ 0 c b) as [cond b1] eqn:Ec.
  destruct cond as [v|e]; [|done]. apply EvalCondition_answered in Ec as (H1 & H2 & (H3 & _) & H4); [|done].
  assert (b_steps b1 <= b_steps b'); [|split_and!; lia].
  destruct v; [|by simplify_eq/=]. destruct (ru_flow r) as [f|]; [|by simplify_eq/=].
  assert (0 <= b_nesting b1) as Hb1 by lia.
  pose proof (RunFlow_charged clock handler f (mkFState [] req b1 []) Hb1) as [_ S _ _ _].
  destruct (RunFlow clock handler f _) as [[e|] s]; simplify_eq/=. lia.
Qed.

Lemma serve_answered clock handler r c reqs : ∀ b outs b',
  ru_conditions r = Some c → 0 <= b_nesting b → serve clock handler r reqs b = (outs, b') →
  Forall answered outs → reqs ≠ [] → b_steps b + Z.of_nat (length reqs) <= b_max_steps b.
Proof.
  induction reqs as [|req reqs IH]; intros b outs b' Hc Hb; cbn [serve]; [done|].
  destruct (Execute clock handler r req b) as [[out b1] calls] eqn:Ex.
  destruct (serve clock handler r reqs b1) as [outs2 b2] eqn:Es. intros [= <- <-] [Ho Hos]%list.Forall_cons _.
  destruct out as [res|]; [|done].
  apply (Execute_answered _ _ _ c) in Ex as (H1 & H2 & H3 & H4); [|done..].
  destruct reqs as [|req' reqs]; [simpl; lia|].
  specialize (IH b1 outs2 b2 Hc). rewrite Nat2Z.inj_succ || cbn [length].
  assert (b_steps b1 + Z.of_nat (length (req' :: reqs)) <= b_max_steps b1) by (apply IH; [lia|done..]).
  cbn [length] in *. lia.
Qed.

Lemma answered_or_error outs : Forall answered outs ∨ ∃ e, inr e ∈ outs.
Proof.
  induction outs as [|[p|e] outs [IH|[e' IH]]]; [by left|left; by constructor|right; set_solver..].
Qed.

(** The executor of a loaded plugin shares one budget over all its requests.
    A plugin that starts with the default budget and whose rule has a condition
    answers at most 10000 requests in its life: in any longer sequence some
    request ends with an error, which the gateway treats as a denial, although
    no single request is expensive. *)
Lemma RulePlugin_runs_out clock handler r c reqs :
  ru_conditions r = Some c → DefaultMaxSteps < Z.of_nat (length reqs) →
  ∃ e, inr e ∈ (serve clock handler r reqs NewBudget).1.
Proof.
  intros Hc Hn. destruct (serve clock handler r reqs NewBudget) as [outs b'] eqn:Es. cbn [fst].
  destruct (answered_or_error outs) as [Hf|He]; [exfalso|done].
  assert (reqs ≠ []) as Hne by (intros ->; unfold DefaultMaxSteps in Hn; simpl in Hn; lia).
  pose proof (serve_answered _ _ _ _ _ NewBudget _ _ Hc ltac:(done) Es Hf Hne) as H. simpl in H.
  unfold DefaultMaxSteps in *. lia.
Qed.

(** ** The boundary is a narrowing *)

(** A rule seen as the grant it hands out. *)
Definition rule_grant (rule : Rule) (params : option (gomap any)) : Grant :=
  mkGrant (ru_scheme rule +:+ ":" +:+ ru_capability rule) params None [].

(** A grant without Bounds that entails the parameters of another grant taken as
    a request entails every request of that grant, where no number or object of
    the second stands for a member of an enumeration of the first. *)
Lemma Entails_as_request g rid params cs req :
  g_bounds g = None →
  Entails g (mkOp rid params) = None → narrows_shape (AMap (entries (g_params g))) (AMap (entries params)) = true →
  Entails (mkGrant rid params None cs) req = None → Entails g req = None.
Proof.
  intros Hgb. rewrite !Entails_None. rewrite Hgb. simpl. intros [Hid Hg] Hs [Hid' Hr].
  split; [by eapply id_covers_trans|]. destruct Hg as [Hu|(V1 & V2 & V3 & [D1 D2 D3 D4 _ D6])]; [by left|].
  destruct Hr as [Hu|(_ & W2 & W3 & [E1 E2 E3 E4 _ E6])].
  { destruct (entries (g_params g)) as [|[k v] gp] eqn:Eg.
    - left. unfold unbound, mlen. rewrite Hgb. unfold entries in *. by rewrite Eg.
    - exfalso. destruct (D4 k v) as (x & Hx & _); [set_solver|]. unfold unbound, mlen, entries in *. simpl in Hu.
      destruct params as [[|]|]; done. }
  right. split_and!; [done..|]. split; [done|done|done| |set_solver|].
  - intros k v Hin. destruct (D4 k v Hin) as (pv & Hpv & Hsub).
    destruct (E4 k pv (mget_elem _ _ _ Hpv)) as (ov & Hov & Hosub). exists ov. split; [done|].
    assert ((0 < mlen (g_params g))%nat) as Hlen.
    { unfold mlen, entries in *. destruct (default [] (g_params g)); [set_solver|simpl; lia]. }
    apply (valueSubset_trans v ov pv); [..|done|done].
    + eapply canonical_ok_mget; [by apply op_canonical|done].
    + eapply canonical_ok_mget; [|done]. apply (op_canonical (mkOp rid params)). apply V3.
    + by apply (canonical_ok_map (entries (g_params g)) (k, v)); [apply ValidateGrantParams_canonical, V2|].
    + by eapply narrows_shape_map.
  - intros k Hk. destruct (E6 k Hk) as [Hp|?]; [|set_solver]. by apply D6.
Qed.

Lemma constraint_within_None json_error rc scs :
  constraint_within json_error rc scs = None →
  ∃ sc rv sv w1 w2, sc ∈ scs ∧ cap_id sc = rc_id rc ∧ constraint_value json_error w1 (rc_params rc) = inl rv ∧
    constraint_value json_error w2 (cap_params sc) = inl sv ∧ ConstraintWithin rv sv = None.
Proof.
  unfold constraint_within. destruct (List.find _ scs) as [sc|] eqn:Ef; [|done].
  apply find_some in Ef as [Hin Hid%String.eqb_eq]. rewrite <- list_elem_of_In in Hin.
  destruct (constraint_value _ _ (rc_params rc)) as [rv|] eqn:E1; [|done].
  destruct (constraint_value _ _ (cap_params sc)) as [sv|] eqn:E2; [|done].
  destruct (ConstraintWithin rv sv) eqn:E3; [done|]. naive_solver.
Qed.

Lemma boundary_loop_None FullID json_error rule aic op caps :
  boundary_loop FullID json_error rule aic op caps = None →
  ∃ cap gp, cap ∈ caps ∧ raw_object (cap_params cap) = Some gp ∧
    Entails (mkGrant (FullID cap) gp None []) op = None ∧
    ruleConstraintsWithinSigner json_error rule aic = None.
Proof.
  induction caps as [|cap caps IH]; cbn [boundary_loop]; [done|].
  assert (boundary_loop FullID json_error rule aic op caps = None → ∃ cap0 gp, cap0 ∈ cap :: caps ∧
    raw_object (cap_params cap0) = Some gp ∧ Entails (mkGrant (FullID cap0) gp None []) op = None ∧
    ruleConstraintsWithinSigner json_error rule aic = None) as Hrest.
  { intros (cap0 & gp & Hin & H)%IH. exists cap0, gp. split; [set_solver|done]. }
  destruct (negb _); [exact Hrest|]. destruct (raw_object (cap_params cap)) as [gp|] eqn:Eg; [|done].
  destruct (Entails _ op) eqn:Ee; [exact Hrest|]. intros H. exists cap, gp. split_and!; [set_solver|done..].
Qed.

(** C26: a published rule stays within its signer.  When the loader accepts a rule
    under a signer's certificate, one capability of the signer's own AIC entails
    the operation the rule stands for, and with it every request the rule's
    parameters admit (where no number or object of the rule stands for a member
    of an enumeration of the signer); and every constraint of the rule is
    declared by the signer with a value that bounds the rule's. *)
Theorem RuleWithinSignerGrant_sound {Cert} (ParseAIC : Cert → result (option AIC)) FullID json_error rule signer :
  RuleWithinSignerGrant ParseAIC FullID json_error (Some rule) (Some signer) = None →
  ∃ aic cap gp params,
    ParseAIC signer = inl (Some aic) ∧ cap ∈ aic_capabilities aic ∧ raw_object (cap_params cap) = Some gp ∧
    raw_object (ru_params rule) = Some params ∧
    Entails (mkGrant (FullID cap) gp None []) (rule_operation rule params) = None ∧
    (narrows_shape (AMap (entries gp)) (AMap (entries params)) = true →
     ∀ req, Entails (rule_grant rule params) req = None → Entails (mkGrant (FullID cap) gp None []) req = None) ∧
    (∀ rc, rc ∈ ru_constraints rule →
     ∃ sc rv sv w1 w2, sc ∈ aic_constraints aic ∧ cap_id sc = rc_id rc ∧
       constraint_value json_error w1 (rc_params rc) = inl rv ∧
       constraint_value json_error w2 (cap_params sc) = inl sv ∧ ConstraintWithin rv sv = None).
Proof.
  cbn [RuleWithinSignerGrant]. destruct (ParseAIC signer) as [[aic|]|]; try done.
  destruct (raw_object (ru_params rule)) as [params|] eqn:Ep; [|done].
  intros (cap & gp & Hin & Hg & He & Hc)%boundary_loop_None.
  exists aic, cap, gp, params. split_and!; [done..| |].
  - intros Hs req. by apply Entails_as_request.
  - intros rc Hrc. apply constraint_within_None. unfold ruleConstraintsWithinSigner in Hc.
    rewrite check_all_None in Hc. by apply Hc.
Qed.

(** ** Concrete instances *)

Definition w_requests : list (gomap any) := repeat [("n", jnum "3")] (Z.to_nat 10001).

Definition w_aic : AIC :=
  mkAIC [mkCap "std/database-v1" "query:*" ("{" +:+ quoted "limit" +:+ ": 100}")]
    [mkCap "constraint" "max_rows" "500"].
Definition w_signed : Rule :=
  mkRule "r1" "1.0.0" "std/database-v1" "query:SELECT" ("{" +:+ quoted "limit" +:+ ": 20}") None
    [mkRuleConstraint "constraint" "max_rows" "100"] None.
Definition w_fullid (c : Capability) : string := cap_scheme c +:+ ":" +:+ cap_id c.

Lemma RuleWithinSignerGrant_sound_witness :
  ∃ aic cap gp params,
    @inl (option AIC) string (Some w_aic) = inl (Some aic) ∧ cap ∈ aic_capabilities aic ∧
    raw_object (cap_params cap) = Some gp ∧
    raw_object (ru_params w_signed) = Some params ∧
    Entails (mkGrant (w_fullid cap) gp None []) (rule_operation w_signed params) = None ∧
    (narrows_shape (AMap (entries gp)) (AMap (entries params)) = true →
     ∀ req, Entails (rule_grant w_signed params) req = None → Entails (mkGrant (w_fullid cap) gp None []) req = None) ∧
    (∀ rc, rc ∈ ru_constraints w_signed →
     ∃ sc rv sv w1 w2, sc ∈ aic_constraints aic ∧ cap_id sc = rc_id rc ∧
       constraint_value id w1 (rc_params rc) = inl rv ∧
       constraint_value id w2 (cap_params sc) = inl sv ∧ ConstraintWithin rv sv = None).
Proof.
  apply (RuleWithinSignerGrant_sound (λ _ : unit, inl (Some w_aic)) w_fullid id w_signed tt).
  vm_compute. reflexivity.
Defined.
