(* ===== verification/SqlGen.v ===== *)
(** * The database scheme: parameter contract and SQL generation

    params_validate.go of the root package (the contract of the database
    scheme's table parameters) and ruleexec/sqlgen.go (the translation of the
    parameters of a query:SELECT rule into a parameterised MySQL statement).

    Both functions start by decoding the raw parameters with [json.Unmarshal]
    into a struct; the model starts from the decoded struct [db_params]. *)

From Stdlib Require Import DecimalString.
From S2P Require Import Prelude GoStrings Regex GoFloat Json Canonical Bounds.

(** The decoded parameters.  An absent or null map is [None]; a declared limit is
    the value of its [max] member. *)
Record db_params := mkDb {
  p_tables : list string;
  p_columns : option (gomap any);
  p_filter_columns : gomap (list string);
  p_row_filter : option (gomap any);
  p_limit : option Z;
  p_order_by : option (list string)
}.

Definition or_nil {A} (m : option (gomap A)) : gomap A := match m with Some m => m | None => [] end.

(** [m[k].(string)] and [m[k].([]any)]. *)
Definition str_member (k : string) (m : gomap any) : option string :=
  match mget k m with Some (AStr s) => Some s | _ => None end.

Definition star : string := "*".

(** ** The parameter contract (params_validate.go) *)

Definition not_array (tbl : string) : error :=
  "columns[" +:+ Quote tbl +:+ "] must be an array or " +:+ quoted star.
Definition row_error (tbl d : string) : error := "row_filter[" +:+ Quote tbl +:+ "] " +:+ d.

(** [checkFilterColumns]; [allowed = None] is the nil map, no restriction. *)
Fixpoint checkFilterColumns (allowed : option (list string)) (tbl : string) (node : any) : check :=
  match node with
  | AMap m =>
      match str_member "column" m with
      | Some col =>
          match allowed with
          | Some l => guard (negb (mem_key col l))
              (row_error tbl ("references column " +:+ Quote col +:+ " outside the column allowlist"))
          | None => None
          end
      | None =>
          match mget_with "and" (λ v, match v with
                                      | AList l => Some (check_all (checkFilterColumns allowed tbl) l)
                                      | _ => None
                                      end) None m with
          | Some r => r
          | None =>
              match mget_with "or" (λ v, match v with
                                         | AList l => Some (check_all (checkFilterColumns allowed tbl) l)
                                         | _ => None
                                         end) None m with
              | Some r => r
              | None =>
                  match mget_with "not" (λ v, Some (checkFilterColumns allowed tbl v)) None m with
                  | Some r => r
                  | None => Some (row_error tbl "invalid filter structure")
                  end
              end
          end
      end
  | _ => Some (row_error tbl "must be a filter object")
  end.

(** One entry of the columns map. *)
Definition check_columns (tables : list string) (kv : string * any) : check :=
  guard (negb (mem_key kv.1 tables)) ("columns references unlisted table " +:+ Quote kv.1) ;;?
  match kv.2 with
  | AStr cv => guard (negb (String.eqb cv star)) (not_array kv.1)
  | AList cv =>
      check_all (λ c, match c with
                      | AStr _ => None
                      | _ => Some ("columns[" +:+ Quote kv.1 +:+ "] must be strings")
                      end) cv ;;?
      guard (length cv =? 0)%nat ("columns[" +:+ Quote kv.1 +:+ "] must not be empty")
  | _ => Some (not_array kv.1)
  end.

Definition strings_in (l : list any) : list string :=
  omap (λ v, match v with AStr s => Some s | _ => None end) l.

(** [allowed[tbl]] after the columns loop: the column set, nil without one. *)
Definition allowed_columns (p : db_params) (tbl : string) : option (list string) :=
  match mget tbl (or_nil (p_columns p)) with Some (AList cv) => Some (strings_in cv) | _ => None end.

Definition check_filter_columns (tables : list string) (kv : string * list string) : check :=
  guard (negb (mem_key kv.1 tables)) ("filter_columns references unlisted table " +:+ Quote kv.1) ;;?
  guard (length kv.2 =? 0)%nat ("filter_columns[" +:+ Quote kv.1 +:+ "] must not be empty").

(** [permit]: the filter columns of the table, or else its returnable columns. *)
Definition permit (p : db_params) (tbl : string) : option (list string) :=
  match mget tbl (p_filter_columns p) with
  | Some (c :: cols) => Some (c :: cols)
  | _ => allowed_columns p tbl
  end.

Fixpoint check_order_by (seen : list string) (cols : list string) : check :=
  match cols with
  | [] => None
  | c :: cols' =>
      guard (String.eqb c "") "order_by entries must be non-empty column names" ;;?
      guard (mem_key c seen) ("order_by entries must be unique (repeat " +:+ Quote c +:+ ")") ;;?
      check_order_by (c :: seen) cols'
  end.

Definition validateDatabaseTableParams (capability : string) (p : db_params) : check :=
  guard ((length (p_tables p) =? 0)%nat || (32 <? length (p_tables p))%nat) "tables must contain 1..32 entries" ;;?
  check_all (check_columns (p_tables p)) (or_nil (p_columns p)) ;;?
  check_all (check_filter_columns (p_tables p)) (p_filter_columns p) ;;?
  match p_row_filter p with
  | Some rf =>
      check_all (λ kv,
        guard (negb (mem_key kv.1 (p_tables p))) ("row_filter references unlisted table " +:+ Quote kv.1) ;;?
        checkFilterColumns (permit p kv.1) kv.1 kv.2) rf
  | None =>
      guard (String.eqb capability "query:UPDATE" || String.eqb capability "query:DELETE")
        ("row_filter is required by " +:+ capability)
  end ;;?
  match p_limit p with
  | Some mx => guard ((mx <? 1) || (100000 <? mx)) "limit.max must be in 1..100000"
  | None => None
  end ;;?
  match p_order_by p with
  | Some cols =>
      guard (String.eqb capability "query:SELECT") "order_by is only declared by query:UPDATE and query:DELETE" ;;?
      guard (length cols =? 0)%nat "order_by must name at least one column" ;;?
      check_order_by [] cols
  | None => None
  end.

(** [ValidateSchemeParams]; [raw] is the outcome of decoding non-empty raw
    parameters, [None] where there are none. *)
Definition ValidateSchemeParams (scheme capability : string) (raw : option (result db_params)) : check :=
  match raw with
  | None => None
  | Some dec =>
      if negb (String.eqb scheme "std/database-v1") then None
      else if mem_key capability ["query:SELECT"; "query:UPDATE"; "query:DELETE"] then
        match dec with
        | inr e => Some (wrap "malformed params" e)
        | inl p => validateDatabaseTableParams capability p
        end
      else None
  end.

(** ** The generator (ruleexec/sqlgen.go) *)

(** The backquote that delimits a MySQL identifier. *)
Definition tick : ascii := "096"%char.
Fixpoint double_ticks (s : string) : string :=
  match s with
  | EmptyString => ""
  | String c s' => if Ascii.eqb c tick then String c (String c (double_ticks s')) else String c (double_ticks s')
  end.
Definition quoteIdent (s : string) : string := String tick (double_ticks s +:+ String tick "").

(** [strings.Join] with a separator of several bytes. *)
Fixpoint join_with (sep : string) (l : list string) : string :=
  match l with
  | [] => ""
  | [x] => x
  | x :: l' => x +:+ sep +:+ join_with sep l'
  end.

Definition sqlOp (op : string) : option string :=
  mget op [("=", "="); ("!=", "!="); ("<", "<"); ("<=", "<="); (">", ">"); (">=", ">=");
           ("in", "IN"); ("not in", "NOT IN"); ("between", "BETWEEN"); ("like", "LIKE");
           ("is null", "IS NULL"); ("is not null", "IS NOT NULL")].

Definition is_str (v : any) : bool := match v with AStr _ => true | _ => false end.
Definition colExpr (col : string) (val : any) : string :=
  let q := quoteIdent col in
  match val with
  | AStr _ => "BINARY " +:+ q
  | AList l => if existsb is_str l then "BINARY " +:+ q else q
  | _ => q
  end.

Definition comparison (op : string) : bool := mem_key op ["="; "!="; "<"; "<="; ">"; ">="].
Definition fragment_result := result (string * list any).

Definition renderCondition (col op : string) (val : any) : fragment_result :=
  match sqlOp op with
  | None => inr ("unsupported filter op " +:+ Quote op)
  | Some kw =>
      let q := colExpr col val in
      if comparison op then
        if is_nil val then
          inr ("op " +:+ op +:+ ": comparing to NULL is not supported; use " +:+ quoted "is null" +:+ " / "
               +:+ quoted "is not null")
        else inl (q +:+ " " +:+ kw +:+ " ?", [val])
      else if String.eqb op "in" || String.eqb op "not in" then
        match val with
        | AList (x :: l) =>
            if existsb is_nil (x :: l) then
              inr ("op " +:+ op +:+ ": null elements are not allowed; use " +:+ quoted "is null" +:+ " per column")
            else inl (q +:+ " " +:+ kw +:+ " (" +:+ join_with ", " (map (λ _, "?") (x :: l)) +:+ ")", x :: l)
        | _ => inr ("op " +:+ op +:+ " requires a non-empty list")
        end
      else if String.eqb op "between" then
        match val with
        | AList [lo; hi] =>
            if is_nil lo || is_nil hi then inr "op between: null bounds are not allowed"
            else inl (q +:+ " " +:+ kw +:+ " ? AND ?", [lo; hi])
        | _ => inr "op between requires [lo, hi]"
        end
      else if String.eqb op "like" then
        if is_nil val then inr "op like: comparing to NULL is not supported"
        else inl (q +:+ " " +:+ kw +:+ " ?", [val])
      else if String.eqb op "is null" || String.eqb op "is not null" then inl (q +:+ " " +:+ kw, [])
      else inr ("unsupported filter op " +:+ Quote op)
  end.

(** The loop of [renderList]. *)
Section render_items.
Context (render : any → fragment_result).
Fixpoint render_items (items : list any) : result (list string * list any) :=
match items with
| [] => inl ([], [])
| it :: rest =>
    let! sa := render it in
    let! pa := render_items rest in
    inl (("(" +:+ sa.1 +:+ ")") :: pa.1, sa.2 ++ pa.2)
end.
Definition renderList (join : string) (items : list any) : fragment_result :=
match items with
| [] => inr "filter list must not be empty"
| _ => let! pa := render_items items in inl (join_with join pa.1, pa.2)
end.
End render_items.

Fixpoint filterToSQL (node : any) : fragment_result :=
  match node with
  | AMap m =>
      match str_member "column" m with
      | Some col => renderCondition col (default "" (str_member "op" m)) (default ANil (mget "value" m))
      | None =>
          match mget_with "and" (λ v, match v with
                                      | AList l => Some (renderList filterToSQL " AND " l)
                                      | _ => None
                                      end) None m with
          | Some r => r
          | None =>
              match mget_with "or" (λ v, match v with
                                         | AList l => Some (renderList filterToSQL " OR " l)
                                         | _ => None
                                         end) None m with
              | Some r => r
              | None =>
                  match mget_with "not" (λ v, Some (filterToSQL v)) None m with
                  | Some r => let! sa := r in inl ("NOT (" +:+ sa.1 +:+ ")", sa.2)
                  | None => inr "invalid filter structure"
                  end
              end
          end
      end
  | _ => inr "filter must be an object"
  end.

(** [sqlColumnList]; a missing entry is the nil interface. *)
Definition sqlColumnList (v : any) (tbl : string) : result string :=
  match v with
  | AStr cv => if String.eqb cv star then inl star else inr (not_array tbl)
  | AList cv =>
      if (length cv =? 0)%nat then inr ("columns[" +:+ Quote tbl +:+ "] must not be empty")
      else if forallb is_str cv then inl (join_with ", " (quoteIdent <$> strings_in cv))
      else inr ("columns[" +:+ Quote tbl +:+ "] must be strings")
  | _ => inr (not_array tbl)
  end.

Definition limit_text (l : option Z) : string :=
  match l with Some mx => if 0 <? mx then " LIMIT " +:+ Itoa mx else "" | None => "" end.

(** [GenerateSelectSQL] on the decoded parameters. *)
Definition GenerateSelectSQL (p : db_params) : fragment_result :=
  match p_tables p with
  | [tbl] =>
      let! cols := sqlColumnList (default ANil (mget tbl (or_nil (p_columns p)))) tbl in
      let! wa := match mget tbl (or_nil (p_row_filter p)) with
                 | None => inl ("", [])
                 | Some filt => let! sa := filterToSQL filt in inl (" WHERE " +:+ sa.1, sa.2)
                 end in
      inl ("SELECT " +:+ cols +:+ " FROM " +:+ quoteIdent tbl +:+ wa.1 +:+ limit_text (p_limit p), wa.2)
  | _ => inr "v1 SELECT requires exactly one table"
  end.

(** ** Reading the statement back

    A lexer for the fragment of MySQL the generator emits: words, identifiers
    between backquotes (a doubled backquote stands for one), and punctuation.
    Every other byte outside an identifier is refused. *)

Inductive token := TWord (w : string) | TIdent (s : string) | TSym (c : ascii).
Inductive mode := MNormal | MWord (w : string) | MIdent (s : string) | MTick (s : string).

Definition word_char (c : ascii) : bool := is_digit c || in_range 65 90 c || in_range 97 122 c.
Definition sym_char (c : ascii) : bool :=
  existsb (Ascii.eqb c) ["("; ")"; ","; "?"; "*"; "="; "<"; ">"; "!"]%char.
Definition snoc (s : string) (c : ascii) : string := s +:+ String c "".

Definition normal_step (c : ascii) : option (mode * list token) :=
  if Ascii.eqb c tick then Some (MIdent "", [])
  else if word_char c then Some (MWord (String c ""), [])
  else if Ascii.eqb c " " then Some (MNormal, [])
  else if sym_char c then Some (MNormal, [TSym c])
  else None.

(** The token a mode ends with; an open identifier is an error. *)
Definition flush (m : mode) : option (list token) :=
  match m with
  | MNormal => Some []
  | MWord w => Some [TWord w]
  | MTick s => Some [TIdent s]
  | MIdent _ => None
  end.

Definition step (m : mode) (c : ascii) : option (mode * list token) :=
  match m with
  | MNormal => normal_step c
  | MWord w => if word_char c then Some (MWord (snoc w c), [])
               else '(m', out) ← normal_step c; Some (m', TWord w :: out)
  | MIdent s => if Ascii.eqb c tick then Some (MTick s, []) else Some (MIdent (snoc s c), [])
  | MTick s => if Ascii.eqb c tick then Some (MIdent (snoc s tick), [])
               else '(m', out) ← normal_step c; Some (m', TIdent s :: out)
  end.

Fixpoint run (m : mode) (s : string) : option (mode * list token) :=
  match s with
  | EmptyString => Some (m, [])
  | String c s' => '(m1, o1) ← step m c; '(m2, o2) ← run m1 s'; Some (m2, o1 ++ o2)
  end.

Definition lex (s : string) : option (list token) :=
  '(m, out) ← run MNormal s; o ← flush m; Some (out ++ o).

Definition idents (ts : list token) : list string :=
  omap (λ t, match t with TIdent s => Some s | _ => None end) ts.
Definition holes (ts : list token) : nat :=
  length (List.filter (λ t, match t with TSym c => Ascii.eqb c "?" | _ => false end) ts).
Definition keywords : list string :=
  ["SELECT"; "FROM"; "WHERE"; "LIMIT"; "BINARY"; "AND"; "OR"; "NOT"; "IN"; "BETWEEN"; "LIKE"; "IS"; "NULL"].
Definition words (ts : list token) : list string :=
  omap (λ t, match t with TWord w => Some w | _ => None end) ts.

(** The columns a filter compares, in order. *)
Fixpoint filter_columns (node : any) : list string :=
  match node with
  | AMap m =>
      match str_member "column" m with
      | Some col => [col]
      | None =>
          match mget_with "and" (λ v, match v with AList l => Some (flat_map filter_columns l) | _ => None end) None m with
          | Some r => r
          | None =>
              match mget_with "or" (λ v, match v with AList l => Some (flat_map filter_columns l) | _ => None end) None m with
              | Some r => r
              | None => mget_with "not" filter_columns [] m
              end
          end
      end
  | _ => []
  end.

(** ** Lemmas *)

Lemma run_app s1 s2 : ∀ m,
  run m (s1 +:+ s2) = '(m1, o1) ← run m s1; '(m2, o2) ← run m1 s2; Some (m2, o1 ++ o2).
Proof.
  induction s1 as [|c s1 IH]; intros m; simpl.
  - change ("" +:+ s2) with s2. by destruct (run m s2) as [[]|].
  - destruct (step m c) as [[m1 o1]|]; simpl; [|done]. rewrite IH.
    destruct (run m1 s1) as [[m2 o2]|]; simpl; [|done].
    destruct (run m2 s2) as [[m3 o3]|]; simpl; [|done]. by rewrite app_assoc.
Qed.

(** A text that starts with a delimiter ends the token before it. *)
Definition delim (c : ascii) : bool := Ascii.eqb c " " || sym_char c.
Definition starts_delim (s : string) : bool := match s with String c _ => delim c | EmptyString => true end.

(** [renders s ts]: [s] reads as the complete tokens [ts]. *)
Definition renders (s : string) (ts : list token) : Prop :=
  ∃ m out o, run MNormal s = Some (m, out) ∧ flush m = Some o ∧ ts = out ++ o.

Lemma lex_renders s ts : lex s = Some ts ↔ renders s ts.
Proof.
  unfold lex, renders. destruct (run MNormal s) as [[m out]|]; simpl; [|naive_solver].
  destruct (flush m) as [o|] eqn:E; simpl; naive_solver.
Qed.

Lemma normal_step_delim c : delim c = true →
  ∃ out, normal_step c = Some (MNormal, out) ∧ word_char c = false ∧ Ascii.eqb c tick = false.
Proof. destruct c as [[] [] [] [] [] [] [] []]; vm_compute; intros; simplify_eq; eauto. Qed.

Lemma run_after m o s m' out : flush m = Some o → starts_delim s = true → s ≠ "" →
  run MNormal s = Some (m', out) → run m s = Some (m', o ++ out).
Proof.
  destruct s as [|c s]; [done|]. intros Hf Hd _ Hr. simpl in *.
  destruct (normal_step_delim c Hd) as (out1 & Hn & Hw & Ht). rewrite Hn in Hr. simpl in Hr.
  destruct m as [|w|i|i]; simplify_eq/=; rewrite ?Hw, ?Ht, Hn; simpl; destruct (run MNormal s) as [[]|];
    simplify_eq/=; done.
Qed.

(** [closed s ts]: [s] ends outside every token, so that anything may follow. *)
Definition closed (s : string) (ts : list token) : Prop := run MNormal s = Some (MNormal, ts).

Lemma closed_renders s ts : closed s ts → renders s ts.
Proof. intros H. exists MNormal, ts, []. by rewrite app_nil_r. Qed.

Lemma closed_app s1 t1 s2 t2 : closed s1 t1 → closed s2 t2 → closed (s1 +:+ s2) (t1 ++ t2).
Proof. unfold closed. intros H1 H2. by rewrite run_app, H1; simpl; rewrite H2. Qed.

Lemma closed_then s1 t1 s2 t2 : closed s1 t1 → renders s2 t2 → renders (s1 +:+ s2) (t1 ++ t2).
Proof.
  intros H1 (m & out & o & H2 & Hf & ->). exists m, (t1 ++ out), o.
  rewrite run_app, H1; simpl; rewrite H2; simpl. by rewrite app_assoc.
Qed.

Lemma renders_closed s1 t1 s2 t2 :
  renders s1 t1 → starts_delim s2 = true → s2 ≠ "" → closed s2 t2 → closed (s1 +:+ s2) (t1 ++ t2).
Proof.
  intros (m & out & o & H1 & Hf & ->) Hd Hne H2. unfold closed in *. rewrite run_app, H1. simpl.
  rewrite (run_after m o s2 MNormal t2) by done. simpl. by rewrite app_assoc.
Qed.

Lemma renders_app s1 t1 s2 t2 :
  renders s1 t1 → starts_delim s2 = true → renders s2 t2 → renders (s1 +:+ s2) (t1 ++ t2).
Proof.
  intros (m & out & o & H1 & Hf & ->) Hd (m2 & out2 & o2 & H2 & Hf2 & ->).
  destruct (decide (s2 = "")) as [->|Hne].
  - simplify_eq/=. rewrite str_app_nil. exists m, out, o. by rewrite app_nil_r.
  - exists m2, ((out ++ o) ++ out2), o2. rewrite run_app, H1. simpl.
    rewrite (run_after m o s2 m2 out2) by done. simpl. by rewrite !app_assoc.
Qed.

(** ** Identifiers *)

Lemma run_double s : ∀ acc, run (MIdent acc) (double_ticks s) = Some (MIdent (acc +:+ s), []).
Proof.
  induction s as [|c s IH]; intros acc; simpl; [by rewrite str_app_nil|].
  destruct (Ascii.eqb_spec c tick) as [->|Hc].
  - simpl. rewrite IH. simpl. unfold snoc. by rewrite <- str_app_assoc.
  - simpl. rewrite (proj2 (Ascii.eqb_neq c tick) Hc). simpl. rewrite IH. simpl. unfold snoc. by rewrite <- str_app_assoc.
Qed.

(** Whatever the text of an identifier, its quoted form is read as one
    identifier, with that text. *)
Lemma quoteIdent_renders s : renders (quoteIdent s) [TIdent s].
Proof.
  exists (MTick s), [], [TIdent s]. split_and!; [|done..]. unfold quoteIdent. simpl.
  rewrite run_app, run_double. done.
Qed.

(** ** Fragments

    A fragment of the statement is described by the identifiers it names, in
    order, and its number of placeholders; all its words are keywords. *)

Definition described (ids : list string) (n : nat) (ts : list token) : Prop :=
  idents ts = ids ∧ holes ts = n ∧ Forall (λ w, w ∈ keywords) (words ts).
Definition frag (reads : string → list token → Prop) (s : string) (ids : list string) (n : nat) : Prop :=
  ∃ ts, reads s ts ∧ described ids n ts.

Lemma described_app ids1 n1 t1 ids2 n2 t2 :
  described ids1 n1 t1 → described ids2 n2 t2 → described (ids1 ++ ids2) (n1 + n2)%nat (t1 ++ t2).
Proof.
  intros (<- & <- & H1) (<- & <- & H2). unfold described, idents, holes, words in *.
  rewrite !omap_app, List.filter_app, length_app, Forall_app. done.
Qed.

(** Fixed text between the variable parts, with its number of placeholders. *)
Definition is_glue (g : string) (n : nat) : bool :=
  match lex g with
  | Some ts => bool_decide (idents ts = []) && (holes ts =? n)%nat && forallb (λ w, mem_key w keywords) (words ts)
  | None => false
  end.
Definition ends_open (g : string) : bool :=
  match run MNormal g with Some (MNormal, _) => true | _ => false end.

Lemma is_glue_frag g n : is_glue g n = true → frag renders g [] n.
Proof.
  unfold is_glue. destruct (lex g) as [ts|] eqn:E; [|done]. intros. go_bool.
  exists ts. split; [by apply lex_renders|]. split_and!; [done|by apply Nat.eqb_eq|].
  apply list.Forall_forall. intros w Hw. rewrite forallb_forall in H0.
  apply list_elem_of_In, H0 in Hw. unfold mem_key in Hw. apply existsb_exists in Hw as (x & Hx & ->%String.eqb_eq).
  by apply list_elem_of_In.
Qed.

Lemma glue_closed g n : is_glue g n = true → ends_open g = true → frag closed g [] n.
Proof.
  intros (ts & Hr & Hd)%is_glue_frag Ho. exists ts. split; [|done]. unfold ends_open, closed in *.
  destruct Hr as (m & out & o & Hr & Hf & ->). rewrite Hr in *. destruct m; simplify_eq/=. by rewrite app_nil_r.
Qed.

Lemma frag_left g n s ids k :
  is_glue g n = true → ends_open g = true → frag renders s ids k → frag renders (g +:+ s) ids (n + k).
Proof.
  intros Hg Ho (ts & Hr & Hd). destruct (glue_closed _ _ Hg Ho) as (tg & Hc & Hdg).
  exists (tg ++ ts). split; [by apply closed_then|]. by apply (described_app [] n tg).
Qed.

Lemma frag_app s1 ids1 n1 s2 ids2 n2 :
  frag renders s1 ids1 n1 → starts_delim s2 = true → frag renders s2 ids2 n2 →
  frag renders (s1 +:+ s2) (ids1 ++ ids2) (n1 + n2).
Proof.
  intros (t1 & H1 & D1) Hs (t2 & H2 & D2). exists (t1 ++ t2).
  split; [by apply renders_app|by apply described_app].
Qed.

Lemma frag_right s ids k g n :
  frag renders s ids k → starts_delim g = true → is_glue g n = true → frag renders (s +:+ g) ids (k + n).
Proof. intros Hf Hs Hg%is_glue_frag. rewrite <- (app_nil_r ids). by apply frag_app. Qed.

Lemma frag_ident s : frag renders (quoteIdent s) [s] 0.
Proof. exists [TIdent s]. split; [apply quoteIdent_renders|done]. Qed.

Lemma frag_join sep l xs :
  is_glue sep 0 = true → ends_open sep = true → starts_delim sep = true → sep ≠ "" →
  Forall2 (λ s x, frag renders s x.1 x.2) l xs →
  frag renders (join_with sep l) (flat_map fst xs) (sum_list_with snd xs).
Proof.
  intros Hg Ho Hd Hne. induction 1 as [|s [ids n] l xs H1 H2 IH]; [by exists []; split; [exists MNormal, [], []|]|].
  destruct l as [|s' l].
  - inversion H2; subst. simpl. by rewrite app_nil_r, Nat.add_0_r.
  - cbn [flat_map sum_list_with fst snd] in *. cbn [join_with].
    apply frag_app; [done| |by apply (frag_left sep 0)]. by destruct sep.
Qed.

(** Split a text at its fixed parts. *)
Ltac glue := vm_compute; reflexivity.

Lemma colExpr_frag col val : frag renders (colExpr col val) [col] 0.
Proof.
  unfold colExpr. pose proof (frag_ident col) as H.
  repeat case_match; try exact H; by apply (frag_left "BINARY " 0).
Qed.

Lemma holes_list (l : list any) :
  frag renders (join_with ", " (map (λ _, "?") l)) [] (length l).
Proof.
  pose proof (frag_join ", " (map (λ _, "?") l) (map (λ _, ([], 1%nat)) l)) as H.
  assert (flat_map fst (map (λ _ : any, (@nil string, 1%nat)) l) = []) as E1
    by (clear; by induction l).
  assert (sum_list_with snd (map (λ _ : any, (@nil string, 1%nat)) l) = length l) as E2
    by (clear; induction l; simpl; lia).
  rewrite E1, E2 in H. apply H; [glue..|done|]. clear. induction l; constructor; [by apply is_glue_frag|done].
Qed.

Lemma renderCondition_frag col op val s args :
  renderCondition col op val = inl (s, args) → frag renders s [col] (length args).
Proof.
  unfold renderCondition. pose proof (colExpr_frag col val) as Hq. destruct (sqlOp op) as [kw|] eqn:Eo; [|done].
  assert (op = "is null" ∧ kw = "IS NULL" ∨ op = "is not null" ∧ kw = "IS NOT NULL" ∨
          (is_glue (" " +:+ kw +:+ " ?") 1 = true ∧ is_glue (" " +:+ kw +:+ " ? AND ?") 2 = true ∧
           is_glue (" " +:+ kw +:+ " (") 0 = true ∧ ends_open (" " +:+ kw +:+ " (") = true ∧
           op ≠ "is null" ∧ op ≠ "is not null")) as Hkw.
  { apply mget_elem in Eo. rewrite !elem_of_cons in Eo.
    repeat (destruct Eo as [Eo|Eo]; [simplify_eq; auto; right; right; split_and!; vm_compute; done|]).
    inversion Eo. }
  destruct Hkw as [[-> ->]|[[-> ->]|(G1 & G2 & G3 & G4 & N1 & N2)]].
  1,2: intros [= <- <-]; by apply (frag_right _ [col] 0 _ 0).
  apply String.eqb_neq in N1, N2. rewrite N1, N2. cbn [orb]. intros H.
  repeat case_match; simplify_eq; try by apply (frag_right _ [col] 0).
  set (js := join_with _ _).
  replace (" " +:+ kw +:+ " (" +:+ js +:+ ")") with ((" " +:+ kw +:+ " (") +:+ (js +:+ ")"))
    by (by rewrite !str_app_assoc).
  rewrite <- (app_nil_r [col]). change (length (a :: l0)) with (0 + (0 + length (a :: l0)))%nat.
  apply frag_app; [done|done|]. apply frag_left; [done..|].
  rewrite <- (Nat.add_0_r (length _)). apply frag_right; [apply holes_list|done..].
Qed.

(** A filter renders to its columns and one placeholder per argument. *)
Lemma render_items_frag render items ps args :
  render_items render items = inl (ps, args) →
  Forall (λ it, ∀ s a, render it = inl (s, a) → frag renders s (filter_columns it) (length a)) items →
  ∃ xs, Forall2 (λ s x, frag renders s x.1 x.2) ps xs ∧
        flat_map fst xs = flat_map filter_columns items ∧ sum_list_with snd xs = length args.
Proof.
  intros H Hf. revert ps args H. induction Hf as [|it items Hit _ IH]; intros ps args; cbn [render_items].
  - intros [= <- <-]. by exists [].
  - rewrite rbind_inl. intros ([s a] & Hs & H). apply rbind_inl in H as ([ps' args'] & Hp & [= <- <-]).
    destruct (IH _ _ Hp) as (xs & Hxs & E1 & E2). exists ((filter_columns it, length a) :: xs). split_and!.
    + constructor; [|done]. cbn [fst snd].
      rewrite <- (Nat.add_0_l (length a)). apply (frag_left "(" 0); [done..|].
      rewrite <- (Nat.add_0_r (length a)). apply frag_right; [by apply Hit|done..].
    + simpl. by rewrite E1.
    + simpl. rewrite E2, length_app. done.
Qed.

Lemma renderList_frag render join items s args :
  is_glue join 0 = true → ends_open join = true → starts_delim join = true → join ≠ "" →
  renderList render join items = inl (s, args) →
  Forall (λ it, ∀ s a, render it = inl (s, a) → frag renders s (filter_columns it) (length a)) items →
  frag renders s (flat_map filter_columns items) (length args).
Proof.
  intros ?? ?? H Hf. destruct items as [|it items]; [done|]. cbn [renderList] in H.
  apply rbind_inl in H as ([ps a] & Hp & [= <- <-]).
  destruct (render_items_frag _ _ _ _ Hp Hf) as (xs & Hxs & <- & <-). by apply frag_join.
Qed.

Lemma mget_subvalue k v m : mget k m = Some v → subvalue v (AMap m).
Proof. intros H%mget_elem. by eapply sub_member. Qed.

Lemma mget_list_subvalue k l m v : mget k m = Some (AList l) → v ∈ l → subvalue v (AMap m).
Proof. intros H%mget_elem Hv. eapply sub_member_trans; [done|by apply sub_elem]. Qed.

Lemma filterToSQL_frag node : ∀ s args,
  filterToSQL node = inl (s, args) → frag renders s (filter_columns node) (length args).
Proof.
  induction node as [node IH] using any_strong_ind. intros s args.
  destruct node as [| | | | | | |m]; try done. cbn [filterToSQL filter_columns].
  destruct (str_member "column" m) as [col|]; [by apply renderCondition_frag|].
  rewrite !mget_with_mget.
  assert (∀ k l, mget k m = Some (AList l) → Forall (λ it, ∀ s a, filterToSQL it = inl (s, a) →
            frag renders s (filter_columns it) (length a)) l) as Hl.
  { intros k l E. apply list.Forall_forall. intros it Hit. by eapply IH, mget_list_subvalue. }
  destruct (mget "and" m) as [[]|] eqn:Ea; try (intros H; eapply renderList_frag; [..|exact H|by eapply Hl]; done).
  all: destruct (mget "or" m) as [[]|] eqn:Eo; try (intros H; eapply renderList_frag; [..|exact H|by eapply Hl]; done).
  all: destruct (mget "not" m) as [v|] eqn:En; [|done].
  all: intros H; apply rbind_inl in H as ([s' a'] & H & [= <- <-]).
  all: rewrite <- (Nat.add_0_l (length a')); apply (frag_left "NOT (" 0); [done..|].
  all: rewrite <- (Nat.add_0_r (length a')); apply frag_right; [|done..].
  all: eapply IH; [by eapply mget_subvalue|done].
Qed.

(** ** The statement *)

Definition column_idents (v : any) : list string :=
  match v with AList cv => strings_in cv | _ => [] end.

Lemma sqlColumnList_frag v tbl cols :
  sqlColumnList v tbl = inl cols → frag renders cols (column_idents v) 0.
Proof.
  unfold sqlColumnList. destruct v as [| |s| | | |cv|]; try done.
  - destruct (String.eqb s star); intros [= <-]. by apply is_glue_frag.
  - destruct (length cv =? 0)%nat; [done|]. destruct (forallb is_str cv); [|done]. intros [= <-]. simpl.
    pose proof (frag_join ", " (quoteIdent <$> strings_in cv) ((λ c, ([c], 0%nat)) <$> strings_in cv)) as H.
    set (l := strings_in cv) in *. clearbody l.
    assert (flat_map fst ((λ c, ([c], 0%nat)) <$> l) = l) as E1 
      by (clear; induction l as [|x l IH]; [done|]; rewrite fmap_cons; simpl; by rewrite IH).
    assert (sum_list_with snd ((λ c : string, ([c], 0%nat)) <$> l) = 0%nat) as E2
      by (clear; induction l as [|x l IH]; [done|]; rewrite fmap_cons; simpl; by rewrite IH).
    rewrite E1, E2 in H. apply H; [glue..|done|]. clear. induction l; constructor; [apply frag_ident|done].
Qed.

(** A decimal numeral is one word. *)
Definition all_word (s : string) : Prop := ∀ w, run (MWord w) s = Some (MWord (w +:+ s), []).

Lemma all_word_cons c s : word_char c = true → all_word s → all_word (String c s).
Proof.
  intros Hc Hs w. simpl. rewrite Hc. simpl. rewrite Hs. simpl. unfold snoc. by rewrite <- str_app_assoc.
Qed.

Lemma digits_word d : all_word (NilEmpty.string_of_uint d).
Proof.
  induction d; cbn [NilEmpty.string_of_uint]; try (by apply all_word_cons).
  intros w. simpl. by rewrite str_app_nil.
Qed.

Lemma all_word_renders c s : word_char c = true → all_word s → renders (String c s) [TWord (String c s)].
Proof.
  intros Hc Hs. exists (MWord (String c s)), [], [TWord (String c s)]. split_and!; [|done..].
  simpl. unfold normal_step. assert (Ascii.eqb c tick = false) as ->.
  { destruct (Ascii.eqb_spec c tick) as [->|]; [|done]. by vm_compute in Hc. }
  rewrite Hc. simpl. rewrite Hs. done.
Qed.

Lemma Itoa_word z : 0 < z → renders (Itoa z) [TWord (Itoa z)].
Proof.
  intros Hz. unfold Itoa. destruct z as [|p|p]; try lia. simpl.
  assert (∀ d, renders (NilZero.string_of_uint d) [TWord (NilZero.string_of_uint d)]) as H; [|apply H].
  intros d. unfold NilZero.string_of_uint. pose proof (digits_word d) as Hd.
  destruct d; cbn [NilEmpty.string_of_uint] in *; apply all_word_renders; try done; try apply digits_word.
Qed.

Definition limit_tokens (l : option Z) : list token :=
  match l with Some mx => if 0 <? mx then [TWord "LIMIT"; TWord (Itoa mx)] else [] | None => [] end.

Lemma limit_renders l : renders (limit_text l) (limit_tokens l) ∧ starts_delim (limit_text l) = true.
Proof.
  unfold limit_text, limit_tokens. destruct l as [mx|]; [|by split; [exists MNormal, [], []|]].
  destruct (Z.ltb_spec 0 mx); [|by split; [exists MNormal, [], []|]]. split; [|done].
  apply (closed_then " LIMIT " [TWord "LIMIT"]); [done|by apply Itoa_word].
Qed.

(** The identifiers the statement of one table names. *)
Definition select_columns (p : db_params) (tbl : string) : list string :=
  column_idents (default ANil (mget tbl (or_nil (p_columns p)))).
Definition select_filter_columns (p : db_params) (tbl : string) : list string :=
  match mget tbl (or_nil (p_row_filter p)) with Some f => filter_columns f | None => [] end.

Lemma GenerateSelectSQL_tokens p text args :
  GenerateSelectSQL p = inl (text, args) →
  ∃ tbl ts, p_tables p = [tbl] ∧ lex text = Some (ts ++ limit_tokens (p_limit p)) ∧
    described (select_columns p tbl ++ [tbl] ++ select_filter_columns p tbl) (length args) ts.
Proof.
  unfold GenerateSelectSQL, select_columns, select_filter_columns.
  intros H. destruct (p_tables p) as [|tbl []]; try discriminate. apply rbind_inl in H as (cols & Hc & H).
  apply rbind_inl in H as ([w a] & Hw & [= <- <-]). cbn [fst snd].
  apply sqlColumnList_frag in Hc. 
  set (fids := match mget tbl (or_nil (p_row_filter p)) with Some f => filter_columns f | None => [] end).
  assert (frag renders w fids (length a) ∧ starts_delim w = true) as [Hf Hd].
  { subst fids. destruct (mget tbl (or_nil (p_row_filter p))) as [f|].
    - apply rbind_inl in Hw as ([s' a'] & Hs & [= <- <-]). split; [|done].
      apply (frag_left " WHERE " 0); [done..|by apply filterToSQL_frag].
    - injection Hw as <- <-. by split; [apply is_glue_frag|]. }
  set (ids := column_idents _) in *.
  assert (frag renders ("SELECT " +:+ (cols +:+ (" FROM " +:+ (quoteIdent tbl +:+ w)))) (ids ++ [tbl] ++ fids) (length a))
    as (ts & Hr & Hds).
  { apply (frag_left "SELECT " 0); [done..|]. apply (frag_app _ _ 0); [done..|].
    apply (frag_left " FROM " 0); [done..|]. apply (frag_app _ _ 0); [apply frag_ident|done..]. }
  exists tbl, ts. split_and!; [done| |done]. apply lex_renders.
  destruct (limit_renders (p_limit p)) as [Hl Hld].
  pose proof (renders_app _ _ _ _ Hr Hld Hl) as E. by rewrite <- !str_app_assoc in E.
Qed.

Lemma described_limit ids n ts l : described ids n ts →
  idents (ts ++ limit_tokens l) = ids ∧ holes (ts ++ limit_tokens l) = n.
Proof.
  intros (<- & <- & _). unfold idents, holes. rewrite omap_app, List.filter_app, length_app.
  unfold limit_tokens. repeat case_match; simpl; by rewrite ?app_nil_r, ?Nat.add_0_r.
Qed.

(** C25: no injection.  The generated statement reads back as one table query
    whose identifiers are exactly the declared columns, the table and the
    columns the filter compares, whatever bytes their names contain; it has one
    placeholder per bound argument, and every other word is a keyword or the
    declared limit, so no value is ever part of the text. *)
Theorem GenerateSelectSQL_no_injection p text args :
  GenerateSelectSQL p = inl (text, args) →
  ∃ tbl toks, p_tables p = [tbl] ∧ lex text = Some toks ∧
    idents toks = select_columns p tbl ++ [tbl] ++ select_filter_columns p tbl ∧
    holes toks = length args ∧
    ∀ w, w ∈ words toks → w ∈ keywords ∨ ∃ mx, p_limit p = Some mx ∧ w = Itoa mx.
Proof.
  intros H. destruct (GenerateSelectSQL_tokens _ _ _ H) as (tbl & ts & Ht & Hl & Hd).
  exists tbl, (ts ++ limit_tokens (p_limit p)).
  destruct (described_limit _ _ _ (p_limit p) Hd) as [-> ->]. split_and!; try done.
  destruct Hd as (_ & _ & Hk). rewrite list.Forall_forall in Hk. unfold words in *. intros w.
  rewrite omap_app, elem_of_app. intros [Hw|Hw]; [by left; apply Hk|].
  unfold limit_tokens in Hw. destruct (p_limit p) as [mx|]; [|set_solver].
  destruct (0 <? mx); simpl in Hw; [|set_solver]. apply elem_of_cons in Hw as [->|Hw]; [by left; set_solver|].
  apply list_elem_of_singleton in Hw as ->. right. eauto.
Qed.

(** ** The statement stays within the contract *)

Lemma checkFilterColumns_columns l tbl node :
  checkFilterColumns (Some l) tbl node = None → ∀ c, c ∈ filter_columns node → c ∈ l.
Proof.
  induction node as [node IH] using any_strong_ind. destruct node as [| | | | | | |m]; try done.
  cbn [checkFilterColumns filter_columns]. destruct (str_member "column" m) as [col|].
  { rewrite guard_None, negb_false_iff, mem_key_true. intros ? c ->%list_elem_of_singleton. done. }
  rewrite !mget_with_mget.
  assert (∀ k vs, mget k m = Some (AList vs) → check_all (checkFilterColumns (Some l) tbl) vs = None →
            ∀ c, c ∈ flat_map filter_columns vs → c ∈ l) as Hl.
  { intros k vs E Hc c. rewrite list_elem_of_In, in_flat_map. intros (v & Hv & Hcv).
    rewrite <- !list_elem_of_In in *. rewrite check_all_None in Hc.
    eapply IH; [by eapply mget_list_subvalue|by apply Hc|done]. }
  destruct (mget "and" m) as [[]|] eqn:Ea; try (by eapply Hl).
  all: destruct (mget "or" m) as [[]|] eqn:Eo; try (by eapply Hl).
  all: destruct (mget "not" m) as [v|] eqn:En; [|done].
  all: intros H; eapply IH; [by eapply mget_subvalue|done].
Qed.

(** An accepted contract bounds the statement.  For parameters the database
    scheme accepts for query:SELECT, every column the statement returns is in the
    declared list of the table, every column its filter compares is in the
    table's filter columns (or else its returnable columns) where such a list is
    declared, and a declared limit is between 1 and 100000 and ends the
    statement. *)
Lemma SELECT_within_contract p text args toks :
  ValidateSchemeParams "std/database-v1" "query:SELECT" (Some (inl p)) = None →
  GenerateSelectSQL p = inl (text, args) → lex text = Some toks →
  ∃ tbl cols fcols, p_tables p = [tbl] ∧ idents toks = cols ++ [tbl] ++ fcols ∧
    (∀ c, c ∈ cols → ∃ l, allowed_columns p tbl = Some l ∧ c ∈ l) ∧
    (∀ l c, permit p tbl = Some l → c ∈ fcols → c ∈ l) ∧
    (∀ mx, p_limit p = Some mx → 1 <= mx <= 100000 ∧ ∃ pre, toks = pre ++ [TWord "LIMIT"; TWord (Itoa mx)]).
Proof.
  intros Hv Hg Hl. destruct (GenerateSelectSQL_tokens _ _ _ Hg) as (tbl & ts & Ht & Hl' & Hd).
  rewrite Hl in Hl'. injection Hl' as ->. destruct (described_limit _ _ _ (p_limit p) Hd) as [-> _].
  change (validateDatabaseTableParams "query:SELECT" p = None) in Hv. unfold validateDatabaseTableParams in Hv.
  rewrite !check_seq_None in Hv. destruct Hv as (_ & _ & _ & Hrf & Hlim & _).
  exists tbl, (select_columns p tbl), (select_filter_columns p tbl). split_and!; [done|done|..].
  - intros c. unfold select_columns, allowed_columns.
    destruct (mget tbl (or_nil (p_columns p))) as [[]|]; simpl; set_solver.
  - intros l c Hp. unfold select_filter_columns. destruct (p_row_filter p) as [rf|]; [|set_solver]. simpl.
    destruct (mget tbl rf) as [f|] eqn:Ef; [|set_solver]. rewrite check_all_None in Hrf.
    apply mget_elem, Hrf in Ef. rewrite check_seq_None in Ef. destruct Ef as [_ Ef]. cbn [fst snd] in Ef.
    rewrite Hp in Ef. by eapply checkFilterColumns_columns.
  - intros mx Hm. rewrite Hm in *. apply guard_None in Hlim. go_bool. split; [lia|].
    exists ts. unfold limit_tokens. by rewrite (proj2 (Z.ltb_lt 0 mx)) by lia.
Qed.

(** ** Concrete instances *)

(** A table and a column whose names try to close the quotation. *)
Definition w_table : string := "users" +:+ String tick "; DROP TABLE x; --".
Definition w_column : string := String tick (String tick " OR 1=1").
Definition w_params : db_params :=
  mkDb [w_table] (Some [(w_table, AList [AStr "id"; AStr w_column])]) [(w_table, ["tenant"; "age"])]
    (Some [(w_table, AMap [("and", AList
       [AMap [("column", AStr "tenant"); ("op", AStr "in"); ("value", AList [AStr "a"; AStr "b"])];
        AMap [("not", AMap [("column", AStr "age"); ("op", AStr "<"); ("value", jnum "18")])]])])])
    (Some 50) None.
Definition w_statement : string := match GenerateSelectSQL w_params with inl (s, _) => s | inr e => e end.
Definition w_args : list any := match GenerateSelectSQL w_params with inl (_, a) => a | inr _ => [] end.
Definition w_tokens : list token := match lex w_statement with Some ts => ts | None => [] end.

Lemma GenerateSelectSQL_no_injection_witness :
  length w_args = 3%nat ∧ ∃ tbl toks, p_tables w_params = [tbl] ∧ lex w_statement = Some toks ∧
    idents toks = select_columns w_params tbl ++ [tbl] ++ select_filter_columns w_params tbl ∧
    holes toks = length w_args ∧
    ∀ w, w ∈ words toks → w ∈ keywords ∨ ∃ mx, p_limit w_params = Some mx ∧ w = Itoa mx.
Proof.
  split; [vm_compute; reflexivity|].
  apply (GenerateSelectSQL_no_injection w_params w_statement w_args). vm_compute. reflexivity.
Defined.

