(* ===== verification/Catalog.v ===== *)
(** * Capability catalogs

    catalog/catalog.go, delta.go and discovery.go: the three closed artifacts of
    the catalog plane (a snapshot, a delta against one exact snapshot, and a
    pointer to a snapshot), their decoders, their validation and their content
    addresses.

    A failure is the stable code of the package's [Error]; an error of another
    package that passes through has the code "".  The free-text detail is not
    modelled. *)

From S2P Require Import Prelude GoStrings Regex GoFloat GoTime Json Canonical Ids Values Bounds.
From S2P Require Import JsonText JsonStruct Grants RecordJson ReportDecode Sha256.
From S2P Require Import SchemeArtifacts SchemeState.

(** ** Constants (catalog.go) *)

Definition CatalogVersion : string := "CLC-CAPABILITY-CATALOG-v1".
Definition DeltaVersion : string := "CLC-CAPABILITY-CATALOG-DELTA-v1".
Definition DiscoveryVersion : string := "CLC-CATALOG-DISCOVERY-v1".

Definition CodeCatalogShape : error := "catalog_shape".
Definition CodeCatalogDigest : error := "catalog_digest_mismatch".
Definition CodeDuplicateEntry : error := "catalog_duplicate_entry".
Definition CodeSchemeUnsupported : error := "catalog_scheme_unsupported".
Definition CodeDeclarationMismatch : error := "catalog_declaration_mismatch".
Definition CodeEntryOutsideAuthority : error := "catalog_entry_outside_authority".
Definition CodeIdentityMismatch : error := "catalog_identity_mismatch".
Definition CodeBootstrap : error := "catalog_bootstrap_required".
Definition CodeRollback : error := "catalog_generation_rollback".
Definition CodeFork : error := "catalog_generation_fork".
Definition CodePreviousDigest : error := "catalog_previous_digest_mismatch".
Definition CodeExpired : error := "catalog_expired".
Definition CodeStale : error := "catalog_stale".
Definition CodeStatusUnavailable : error := "catalog_status_unavailable".
Definition CodeStatusStale : error := "catalog_status_stale".
Definition CodeProviderMismatch : error := "catalog_provider_mismatch".
Definition CodeKeyRevoked : error := "signature_key_revoked".
Definition CodeDeltaShape : error := "delta_shape".
Definition CodeDeltaBase : error := "delta_base_mismatch".
Definition CodeDeltaOperation : error := "delta_operation_invalid".
Definition CodeDeltaDigest : error := "delta_digest_mismatch".
Definition CodeDirectoryConflict : error := "directory_conflict".
Definition CodeShardMissing : error := "directory_shard_missing".
Definition CodeDiscoveryShape : error := "discovery_shape".
Definition CodeDiscoveryVerdict : error := "discovery_verdict_member".

(** The names of catalogs and domains (segments of lower-case letters, digits and
    the listed characters, separated by slashes) and the status references; the
    digest, scheme and principal patterns are those of schemeadmin. *)
Definition nameRe : re :=
  Cat (Chr (cls "")) (Cat (Star (Chr (cls ".-")))
    (Star (Cat (lit "/") (Cat (Chr (cls "")) (Star (Chr (cls "._-"))))))).
Definition referenceRe : re := Cat (Chr is_alnum) (Star (Chr (cls_any "._:/-"))).

(** ** The snapshot *)

(** A nil map, slice or pointer is [None]. *)
Record Operation := mkOperation { o_operation : string; o_params : option (gomap any) }.
Record Status := mkStatus { ss_reference : string; ss_checked_at : string }.
Record Entry := mkCatalogEntry {
  e_capability : string; e_provider : string; e_scheme : string; e_declaration_digest : string;
  e_operations : option (list Operation); e_status : option Status
}.
Record Catalog := mkCatalog {
  ct_version : string; ct_domain : string; ct_catalog_id : string; ct_generation : Z;
  ct_issued_at : string; ct_valid_until : string; ct_previous_digest : string; ct_producer : string;
  ct_entries : option (list Entry)
}.

Definition Entries (c : Catalog) : list Entry := items (ct_entries c).
Definition Operations (e : Entry) : list Operation := items (e_operations e).

(** [op.Grant(capability)]. *)
Definition op_grant (op : Operation) (capability : string) : Grant := mkGrant capability (o_params op) None [].

Definition parseTime (raw : string) : option Time := if String.eqb raw "" then None else rfc3339_time raw.

(** [strings.TrimSpace(s) == "" || strings.ContainsAny(s, " \t\r\n")]. *)
Definition white (c : ascii) : bool := existsb (Ascii.eqb c) [" "%char; chr 9; chr 13; chr 10].
Definition not_reference (s : string) : bool := String.eqb (TrimSpace s) "" || str_existsb white s.

(** The loop over the operations of an entry, with the names seen so far. *)
Fixpoint operations_ok (seen : list string) (ops : list Operation) : check :=
  match ops with
  | [] => None
  | op :: ops' =>
      guard (String.eqb (TrimSpace (o_operation op)) "") CodeCatalogShape ;;?
      match ValidateOperationParams (entries (o_params op)) with Some _ => Some CodeCatalogShape | None => None end ;;?
      guard (mem_key (o_operation op) seen) CodeCatalogShape ;;?
      operations_ok (o_operation op :: seen) ops'
  end.

Definition status_ok (s : Status) : check :=
  guard (negb (matches referenceRe (ss_reference s))) CodeCatalogShape ;;?
  match parseTime (ss_checked_at s) with None => Some CodeCatalogShape | Some _ => None end.

(** [Entry.validate]. *)
Definition entry_validate (e : Entry) : check :=
  guard (negb (matches schemeRe (e_scheme e))) CodeCatalogShape ;;?
  guard (negb (HasPrefix (e_capability e) (e_scheme e +:+ ":")) ||
         (String.length (e_capability e) =? String.length (e_scheme e) + 1)%nat) CodeCatalogShape ;;?
  match ValidateCapabilityID (e_capability e) with Some _ => Some CodeCatalogShape | None => None end ;;?
  guard (not_reference (e_provider e)) CodeCatalogShape ;;?
  guard (negb (is_digest (e_declaration_digest e))) CodeCatalogShape ;;?
  guard (length (Operations e) =? 0)%nat CodeCatalogShape ;;?
  operations_ok [] (Operations e) ;;?
  match e_status e with None => None | Some s => status_ok s end.

(** The window of an artifact: both instants parse and the second is later. *)
Definition window_ok (shape : error) (issued until : string) : check :=
  match parseTime issued with
  | None => Some shape
  | Some i =>
      match parseTime until with
      | None => Some shape
      | Some u => guard (negb (After u i)) shape
      end
  end.

(** The loop over the entries, with the capabilities seen so far. *)
Fixpoint entries_ok (seen : list string) (es : list Entry) : check :=
  match es with
  | [] => None
  | e :: es' =>
      entry_validate e ;;?
      guard (mem_key (e_capability e) seen) CodeDuplicateEntry ;;?
      entries_ok (e_capability e :: seen) es'
  end.

(** [Catalog.Validate]. *)
Definition Validate (c : Catalog) : check :=
  guard (negb (String.eqb (ct_version c) CatalogVersion)) CodeCatalogShape ;;?
  guard (negb (matches nameRe (ct_domain c))) CodeCatalogShape ;;?
  guard (negb (matches nameRe (ct_catalog_id c))) CodeCatalogShape ;;?
  guard (ct_generation c <? 1) CodeCatalogShape ;;?
  guard (negb (matches principalRe (ct_producer c))) CodeCatalogShape ;;?
  window_ok CodeCatalogShape (ct_issued_at c) (ct_valid_until c) ;;?
  (if ct_generation c =? 1 then guard (negb (String.eqb (ct_previous_digest c) "")) CodeCatalogShape
   else guard (negb (is_digest (ct_previous_digest c))) CodeCatalogShape) ;;?
  guard (length (Entries c) =? 0)%nat CodeCatalogShape ;;?
  entries_ok [] (Entries c).

(** ** Content addresses *)

Definition operation_any (o : Operation) : any :=
  omitempty [member "operation" (AStr (o_operation o));
             match o_params o with Some ((_ :: _) as m) => member "params" (AMap m) | _ => None end].
Definition status_any (s : Status) : any :=
  omitempty [member "reference" (AStr (ss_reference s)); member "checked_at" (AStr (ss_checked_at s))].
Definition slice_any {A} (f : A → any) (l : option (list A)) : any :=
  match l with None => ANil | Some l => AList (map f l) end.
Definition catalog_entry_any (e : Entry) : any :=
  omitempty [member "capability" (AStr (e_capability e)); member "provider" (AStr (e_provider e));
             member "scheme" (AStr (e_scheme e)); member "scheme_declaration_digest" (AStr (e_declaration_digest e));
             member "operations" (slice_any operation_any (e_operations e));
             (λ s, ("status", status_any s)) <$> e_status e].
Definition catalog_any (c : Catalog) : any :=
  omitempty [member "@version" (AStr (ct_version c)); member "domain" (AStr (ct_domain c));
             member "catalog_id" (AStr (ct_catalog_id c)); member "generation" (AInt KInt64 (ct_generation c));
             member "issued_at" (AStr (ct_issued_at c)); member "valid_until" (AStr (ct_valid_until c));
             member_str "previous_digest" (ct_previous_digest c); member "producer" (AStr (ct_producer c));
             member "entries" (slice_any catalog_entry_any (ct_entries c))].

(** [Catalog.Digest]. *)
Definition CatalogDigest (c : Catalog) : result string := CanonicalDigest (catalog_any c).

(** [DigestOfDeclaration] and the [DigestOf] of internal/schemedecl it calls: the
    address of the declaration without its [digest] member, "" on an error.  A
    number is canonicalised through its float64 value on both readings. *)
Definition DigestOfDeclaration (raw : string) : string :=
  if negb (Check_dups raw) then ""
  else match unmarshal_object raw with
       | None => ""
       | Some m =>
           match CanonicalDigest (match m with None => ANil | Some m => AMap (mdel "digest" m) end) with
           | inl d => d
           | inr _ => ""
           end
       end.

(** ** The closed decoders *)

Definition operation_names : list string := ["operation"; "params"].
Definition into_operation (o : Operation) : jtext → option Operation :=
  closed_struct operation_names o (λ m,
    n ← field operation_names "operation" in_string (o_operation o) m;
    p ← field operation_names "params" in_any_map (o_params o) m;
    Some (mkOperation n p)).

Definition status_names : list string := ["reference"; "checked_at"].
Definition into_status (s : Status) : jtext → option Status :=
  closed_struct status_names s (λ m,
    r ← field status_names "reference" in_string (ss_reference s) m;
    c ← field status_names "checked_at" in_string (ss_checked_at s) m;
    Some (mkStatus r c)).

Definition zero_operation : Operation := mkOperation "" None.
Definition zero_status : Status := mkStatus "" "".
Definition zero_entry : Entry := mkCatalogEntry "" "" "" "" None None.
Definition zero_catalog : Catalog := mkCatalog "" "" "" 0 "" "" "" "" None.

Definition entry_names : list string :=
  ["capability"; "provider"; "scheme"; "scheme_declaration_digest"; "operations"; "status"].
Definition into_entry (e : Entry) : jtext → option Entry :=
  closed_struct entry_names e (λ m,
    c ← field entry_names "capability" in_string (e_capability e) m;
    p ← field entry_names "provider" in_string (e_provider e) m;
    s ← field entry_names "scheme" in_string (e_scheme e) m;
    d ← field entry_names "scheme_declaration_digest" in_string (e_declaration_digest e) m;
    o ← field entry_names "operations" (in_slice into_operation zero_operation) (e_operations e) m;
    t ← field entry_names "status" (in_ptr into_status zero_status) (e_status e) m;
    Some (mkCatalogEntry c p s d o t)).

Definition catalog_names : list string :=
  ["@version"; "domain"; "catalog_id"; "generation"; "issued_at"; "valid_until"; "previous_digest"; "producer"; "entries"].
Definition into_catalog (c : Catalog) : jtext → option Catalog :=
  closed_struct catalog_names c (λ m,
    v ← field catalog_names "@version" in_string (ct_version c) m;
    d ← field catalog_names "domain" in_string (ct_domain c) m;
    n ← field catalog_names "catalog_id" in_string (ct_catalog_id c) m;
    g ← field catalog_names "generation" in_int64 (ct_generation c) m;
    i ← field catalog_names "issued_at" in_string (ct_issued_at c) m;
    u ← field catalog_names "valid_until" in_string (ct_valid_until c) m;
    h ← field catalog_names "previous_digest" in_string (ct_previous_digest c) m;
    p ← field catalog_names "producer" in_string (ct_producer c) m;
    e ← field catalog_names "entries" (in_slice into_entry zero_entry) (ct_entries c) m;
    Some (mkCatalog v d n g i u h p e)).

(** [decodeClosed]: bounded, no repeated member, no undeclared member, nothing
    after the value. *)
Definition decode_closed {A} (into : A → jtext → option A) (zero : A) (raw : string) : option A :=
  if maxArtifactBytes <? Z.of_nat (String.length raw) then None
  else if negb (Check_dups raw) then None
  else j ← read_document raw; into zero j.

Definition ParseCatalog (raw : string) : result Catalog :=
  match decode_closed into_catalog zero_catalog raw with
  | None => inr CodeCatalogShape
  | Some c => rguard (Validate c) (inl c)
  end.

(** ** The delta (delta.go) *)

Record Delta := mkDelta {
  dl_version : string; dl_domain : string; dl_catalog_id : string; dl_base_generation : Z; dl_target_generation : Z;
  dl_base_digest : string; dl_target_digest : string; dl_issued_at : string; dl_valid_until : string;
  dl_producer : string; dl_add : list Entry; dl_replace : list Entry; dl_remove : list string
}.
Definition zero_delta : Delta := mkDelta "" "" "" 0 0 "" "" "" "" "" [] [] [].

(** [note] and the three loops that call it: the capabilities touched so far. *)
Definition note (touched : list string) (capability : string) : check :=
  guard (String.eqb capability "") CodeDeltaOperation ;;?
  guard (mem_key capability touched) CodeDeltaOperation.
Fixpoint note_entries (touched : list string) (es : list Entry) : result (list string) :=
  match es with
  | [] => inl touched
  | e :: es' => rguard (entry_validate e ;;? note touched (e_capability e)) (note_entries (e_capability e :: touched) es')
  end.
Fixpoint note_removed (touched : list string) (cs : list string) : result (list string) :=
  match cs with
  | [] => inl touched
  | c :: cs' => rguard (note touched c) (note_removed (c :: touched) cs')
  end.
Definition touched (d : Delta) : result (list string) :=
  let! t := note_entries [] (dl_add d) in
  let! t := note_entries t (dl_replace d) in
  note_removed t (dl_remove d).

(** [Delta.Validate]. *)
Definition delta_Validate (d : Delta) : check :=
  guard (negb (String.eqb (dl_version d) DeltaVersion)) CodeDeltaShape ;;?
  guard (negb (matches nameRe (dl_domain d))) CodeDeltaShape ;;?
  guard (negb (matches nameRe (dl_catalog_id d))) CodeDeltaShape ;;?
  guard (dl_base_generation d <? 1) CodeDeltaShape ;;?
  guard (negb (dl_target_generation d =? wrap64 (dl_base_generation d + 1))) CodeDeltaShape ;;?
  guard (negb (is_digest (dl_base_digest d)) || negb (is_digest (dl_target_digest d))) CodeDeltaShape ;;?
  guard (negb (matches principalRe (dl_producer d))) CodeDeltaShape ;;?
  window_ok CodeDeltaShape (dl_issued_at d) (dl_valid_until d) ;;?
  guard ((length (dl_add d) =? 0)%nat && (length (dl_replace d) =? 0)%nat && (length (dl_remove d) =? 0)%nat)
    CodeDeltaShape ;;?
  match touched d with inr e => Some e | inl _ => None end.

Definition delta_any (d : Delta) : any :=
  omitempty [member "@version" (AStr (dl_version d)); member "domain" (AStr (dl_domain d));
             member "catalog_id" (AStr (dl_catalog_id d));
             member "base_generation" (AInt KInt64 (dl_base_generation d));
             member "target_generation" (AInt KInt64 (dl_target_generation d));
             member "base_digest" (AStr (dl_base_digest d)); member "target_digest" (AStr (dl_target_digest d));
             member "issued_at" (AStr (dl_issued_at d)); member "valid_until" (AStr (dl_valid_until d));
             member "producer" (AStr (dl_producer d));
             match dl_add d with [] => None | l => member "add" (AList (map catalog_entry_any l)) end;
             match dl_replace d with [] => None | l => member "replace" (AList (map catalog_entry_any l)) end;
             member_strs "remove" (dl_remove d)].
Definition DeltaDigest (d : Delta) : result string := CanonicalDigest (delta_any d).

Definition delta_names : list string :=
  ["@version"; "domain"; "catalog_id"; "base_generation"; "target_generation"; "base_digest"; "target_digest";
   "issued_at"; "valid_until"; "producer"; "add"; "replace"; "remove"].
Definition in_entries (old : list Entry) (j : jtext) : option (list Entry) :=
  items <$> in_slice into_entry zero_entry (Some old) j.
Definition into_delta (d : Delta) : jtext → option Delta :=
  closed_struct delta_names d (λ m,
    v ← field delta_names "@version" in_string (dl_version d) m;
    o ← field delta_names "domain" in_string (dl_domain d) m;
    n ← field delta_names "catalog_id" in_string (dl_catalog_id d) m;
    b ← field delta_names "base_generation" in_int64 (dl_base_generation d) m;
    t ← field delta_names "target_generation" in_int64 (dl_target_generation d) m;
    h ← field delta_names "base_digest" in_string (dl_base_digest d) m;
    g ← field delta_names "target_digest" in_string (dl_target_digest d) m;
    i ← field delta_names "issued_at" in_string (dl_issued_at d) m;
    u ← field delta_names "valid_until" in_string (dl_valid_until d) m;
    p ← field delta_names "producer" in_string (dl_producer d) m;
    a ← field delta_names "add" in_entries (dl_add d) m;
    r ← field delta_names "replace" in_entries (dl_replace d) m;
    x ← field delta_names "remove" in_strings (dl_remove d) m;
    Some (mkDelta v o n b t h g i u p a r x)).
Definition ParseDelta (raw : string) : result Delta :=
  match decode_closed into_delta zero_delta raw with
  | None => inr CodeDeltaShape
  | Some d => rguard (delta_Validate d) (inl d)
  end.

(** The edits of [Apply] on the map of the existing entries. *)
Fixpoint remove_all (existing : gomap Entry) (cs : list string) : result (gomap Entry) :=
  match cs with
  | [] => inl existing
  | c :: cs' => rguard (guard (negb (mhas c existing)) CodeDeltaOperation) (remove_all (mdel c existing) cs')
  end.
(** Replacing requires the capability to exist ([must] true), adding requires it
    not to. *)
Fixpoint put_all (must : bool) (existing : gomap Entry) (es : list Entry) : result (gomap Entry) :=
  match es with
  | [] => inl existing
  | e :: es' =>
      rguard (guard (negb (Bool.eqb (mhas (e_capability e) existing) must)) CodeDeltaOperation)
        (put_all must (mset (e_capability e) e existing) es')
  end.
Definition existing_of (c : Catalog) : gomap Entry :=
  fold_left (λ m e, mset (e_capability e) e m) (Entries c) [].
Definition edited (base : Catalog) (d : Delta) : result (gomap Entry) :=
  let! m := remove_all (existing_of base) (dl_remove d) in
  let! m := put_all true m (dl_replace d) in
  put_all false m (dl_add d).
(** The entries in the order of their capabilities. *)
Definition sorted_entries (m : gomap Entry) : list Entry := omap (λ k, mget k m) (sort_Strings (mkeys m)).

Definition next_catalog (base : Catalog) (d : Delta) (baseDigest : string) (m : gomap Entry) : Catalog :=
  mkCatalog CatalogVersion (ct_domain base) (ct_catalog_id base) (dl_target_generation d) (dl_issued_at d)
    (dl_valid_until d) baseDigest (ct_producer base) (Some (sorted_entries m)).

(** [Apply]. *)
Definition Apply (base : Catalog) (d : Delta) : result Catalog :=
  rguard (delta_Validate d)
  (match CatalogDigest base with
   | inr _ => inr CodeDeltaBase
   | inl baseDigest =>
       rguard (guard (negb (String.eqb (ct_domain base) (dl_domain d)) ||
                      negb (String.eqb (ct_catalog_id base) (dl_catalog_id d))) CodeDeltaBase ;;?
               guard (negb (ct_generation base =? dl_base_generation d)) CodeDeltaBase ;;?
               guard (negb (String.eqb baseDigest (dl_base_digest d))) CodeDeltaBase)
       (let! m := edited base d in
        let next := next_catalog base d baseDigest m in
        rguard (Validate next)
        (match CatalogDigest next with
         | inr _ => inr CodeDeltaDigest
         | inl digest => rguard (guard (negb (String.eqb digest (dl_target_digest d))) CodeDeltaDigest) (inl next)
         end))
   end).

(** ** The pointer (discovery.go) *)

Record Discovery := mkDiscovery {
  ds_version : string; ds_provider : string; ds_catalog_id : string; ds_catalog_digest : string; ds_generation : Z;
  ds_issued_at : string; ds_valid_until : string; ds_status_reference : string; ds_declarations : list string
}.
Definition zero_discovery : Discovery := mkDiscovery "" "" "" "" 0 "" "" "" [].

Definition verdictMembers : list string :=
  ["verdict"; "authorized"; "authorised"; "verified"; "approved"; "allowed"; "trusted"; "accepted"].

Definition discovery_Validate (d : Discovery) : check :=
  guard (negb (String.eqb (ds_version d) DiscoveryVersion)) CodeDiscoveryShape ;;?
  guard (negb (matches nameRe (ds_catalog_id d))) CodeDiscoveryShape ;;?
  guard (String.eqb (ds_provider d) "") CodeDiscoveryShape ;;?
  guard (negb (String.eqb (TrimSpace (ds_provider d)) (ds_provider d)) || str_existsb white (ds_provider d))
    CodeDiscoveryShape ;;?
  guard (negb (is_digest (ds_catalog_digest d))) CodeDiscoveryShape ;;?
  guard (ds_generation d <? 1) CodeDiscoveryShape ;;?
  window_ok CodeDiscoveryShape (ds_issued_at d) (ds_valid_until d) ;;?
  check_all (λ digest, guard (negb (is_digest digest)) CodeDiscoveryShape) (ds_declarations d).

Definition discovery_names : list string :=
  ["@version"; "provider"; "catalog_id"; "catalog_digest"; "generation"; "issued_at"; "valid_until";
   "status_reference"; "scheme_declaration_digests"].
Definition into_discovery (d : Discovery) : jtext → option Discovery :=
  closed_struct discovery_names d (λ m,
    v ← field discovery_names "@version" in_string (ds_version d) m;
    p ← field discovery_names "provider" in_string (ds_provider d) m;
    c ← field discovery_names "catalog_id" in_string (ds_catalog_id d) m;
    h ← field discovery_names "catalog_digest" in_string (ds_catalog_digest d) m;
    g ← field discovery_names "generation" in_int64 (ds_generation d) m;
    i ← field discovery_names "issued_at" in_string (ds_issued_at d) m;
    u ← field discovery_names "valid_until" in_string (ds_valid_until d) m;
    s ← field discovery_names "status_reference" in_string (ds_status_reference d) m;
    l ← field discovery_names "scheme_declaration_digests" in_strings (ds_declarations d) m;
    Some (mkDiscovery v p c h g i u s l)).

(** [ParseDiscovery]: the probe reads the document as a map of raw messages. *)
Definition ParseDiscovery (raw : string) : result Discovery :=
  match j ← read_document raw; match j with JNull => Some [] | JObj m => Some m | _ => None end with
  | None => inr CodeDiscoveryShape
  | Some probe =>
      if existsb (λ k, mem_key k (mkeys probe)) verdictMembers then inr CodeDiscoveryVerdict
      else match decode_closed into_discovery zero_discovery raw with
           | None => inr CodeDiscoveryShape
           | Some d => rguard (discovery_Validate d) (inl d)
           end
  end.

(** [Discovery.Match]. *)
Definition Match (d : Discovery) (c : Catalog) : check :=
  match CatalogDigest c with
  | inr _ => Some CodeDiscoveryShape
  | inl digest =>
      guard (negb (String.eqb (ds_catalog_id d) (ct_catalog_id c))) CodeDiscoveryShape ;;?
      guard (negb (ds_generation d =? ct_generation c)) CodeDiscoveryShape ;;?
      guard (negb (String.eqb (ds_catalog_digest d) digest)) CodeCatalogDigest ;;?
      (if (length (ds_declarations d) =? 0)%nat then None
       else check_all (λ e, guard (negb (mem_key (e_declaration_digest e) (ds_declarations d))) CodeDeclarationMismatch)
              (Entries c)) ;;?
      guard (negb (length (Entries c) =? 0)%nat &&
             negb (existsb (λ e, String.eqb (e_provider e) (ds_provider d)) (Entries c))) CodeDiscoveryShape ;;?
      (if String.eqb (ds_valid_until d) "" then None
       else match parseTime (ds_valid_until d) with
            | None => Some CodeDiscoveryShape
            | Some until =>
                match parseTime (ct_valid_until c) with
                | None => Some CodeDiscoveryShape
                | Some catalogUntil => guard (After catalogUntil until) CodeDiscoveryShape
                end
            end)
  end.
