(* ===== verification/CatalogTrust.v ===== *)
(** * Admission of a catalog

    catalog/policy.go (the deployer's policy and persisted state, and the
    transition that accepts a catalog), verify.go (the admission algorithm),
    signed.go (the same over a detached signature) and rotation.go (the window in
    which two sets of trust roots are accepted).

    Certificates, detached signatures and the identity extension are code of
    other packages: they are parameters here. *)

From S2P Require Import Prelude GoStrings Regex GoFloat GoTime Json Canonical Ids Values Bounds.
From S2P Require Import JsonText JsonStruct Grants Sha256 Domains SchemeArtifacts SchemeState.
From S2P Require Import SchemeConfirm.
From S2P Require Import Catalog.

(** ** Policy and state (policy.go) *)

(** The declarations by scheme; the resolver is deployment code. *)
Record TrustPolicy := mkTrust {
  tp_domain : string; tp_catalog_id : string; tp_producer : string; tp_schemes : option (gomap string);
  tp_max_staleness : Z; tp_max_status_staleness : Z; tp_require_status : bool; tp_status_values : gomap string;
  tp_status_resolver : option (string → result string); tp_provider_bindings : gomap string; tp_observed_at : string
}.

Record GenerationRecord := mkGeneration { gr_generation : Z; gr_digest : string }.
Record RegistryState := mkRegistry {
  rg_domain : string; rg_catalog_id : string; rg_producer : string; rg_generation : Z; rg_digest : string;
  rg_history : list GenerationRecord
}.
Definition zero_state : RegistryState := mkRegistry "" "" "" 0 "" [].

Definition health_values : list string := ["healthy"; "unhealthy"; "degraded"; "unknown"].

Definition policy_scheme (kv : string * string) : check :=
  guard (negb (matches schemeRe kv.1)) CodeSchemeUnsupported ;;?
  match ParseDeclaration kv.2 with
  | inr _ => Some CodeDeclarationMismatch
  | inl decl => guard (negb (String.eqb (dc_scheme decl) kv.1)) CodeDeclarationMismatch
  end.

Definition ValidatePolicy (p : TrustPolicy) : check :=
  guard (negb (matches nameRe (tp_domain p))) CodeCatalogShape ;;?
  guard (negb (matches nameRe (tp_catalog_id p))) CodeCatalogShape ;;?
  guard (negb (String.eqb (tp_producer p) "") && negb (matches principalRe (tp_producer p))) CodeCatalogShape ;;?
  guard (mlen (tp_schemes p) =? 0)%nat CodeSchemeUnsupported ;;?
  check_all policy_scheme (entries (tp_schemes p)) ;;?
  guard ((tp_max_staleness p <? 0) || (tp_max_status_staleness p <? 0)) CodeCatalogShape ;;?
  guard (tp_require_status p && (length (tp_status_values p) =? 0)%nat &&
         match tp_status_resolver p with None => true | Some _ => false end) CodeStatusUnavailable ;;?
  check_all (λ kv, guard (not_reference kv.1) CodeCatalogShape ;;?
                   guard (negb (mem_key kv.2 health_values)) CodeCatalogShape) (tp_status_values p) ;;?
  check_all (λ kv, guard (not_reference kv.1) CodeCatalogShape ;;?
                   guard (negb (matches principalRe kv.2)) CodeCatalogShape) (tp_provider_bindings p) ;;?
  match parseTime (tp_observed_at p) with None => Some CodeStale | Some _ => None end.

(** [declaration]: the digest of the pinned declaration of a scheme. *)
Definition declaration (p : TrustPolicy) (scheme : string) : result string :=
  match mget scheme (entries (tp_schemes p)) with
  | None => inr CodeSchemeUnsupported
  | Some raw =>
      match ParseDeclaration raw with
      | inr _ => inr CodeDeclarationMismatch
      | inl _ => let digest := DigestOfDeclaration raw in
                 if String.eqb digest "" then inr CodeDeclarationMismatch else inl digest
      end
  end.

(** [domains] and its exported name [DomainMap]. *)
Definition domains (p : TrustPolicy) (scheme capability : string) : gomap DomainSpec :=
  match mget scheme (entries (tp_schemes p)) with
  | None => []
  | Some raw => match ParseDeclaration raw with inr _ => [] | inl decl => DomainMap decl capability end
  end.

(** ** The JSON objects behind the digests of the decision record *)

Definition member_map (k : string) (m : gomap string) : option (string * any) :=
  match m with [] => None | _ => Some (k, AMap (map (λ kv, (kv.1, AStr kv.2)) m)) end.
Definition trust_any (p : TrustPolicy) : option any :=
  schemes ← match tp_schemes p with
            | None => Some ANil
            | Some m => AMap <$> mapM (λ kv, d ← raw_any kv.2; Some (kv.1, AMap [("declaration", d)])) m
            end;
  Some (omitempty [
    member "domain" (AStr (tp_domain p)); member "catalog_id" (AStr (tp_catalog_id p));
    member_str "producer" (tp_producer p); member "schemes" schemes;
    member_int "max_staleness_seconds" (tp_max_staleness p);
    member_int "max_status_staleness_seconds" (tp_max_status_staleness p);
    if tp_require_status p then member "require_status" (ABool true) else None;
    member_map "status_values" (tp_status_values p); member_map "provider_bindings" (tp_provider_bindings p);
    member "observed_at" (AStr (tp_observed_at p))]).
Definition generation_any (r : GenerationRecord) : any :=
  omitempty [member "generation" (AInt KInt64 (gr_generation r)); member "digest" (AStr (gr_digest r))].
Definition registry_any (s : RegistryState) : any :=
  omitempty [member_str "domain" (rg_domain s); member_str "catalog_id" (rg_catalog_id s);
             member_str "producer" (rg_producer s); member "generation" (AInt KInt64 (rg_generation s));
             member_str "digest" (rg_digest s); member_list "history" (map generation_any (rg_history s))].

Definition trust_digest (p : TrustPolicy) : string :=
  match trust_any p with Some j => digest_or_empty (CanonicalDigest j) | None => "" end.
Definition registry_digest (s : RegistryState) : string := digest_or_empty (CanonicalDigest (registry_any s)).

(** ** The checks (verify.go) *)

Record Result := mkCatalogResult {
  rs_verdict : string; rs_reason : string; rs_domain : string; rs_catalog_id : string; rs_producer : string;
  rs_generation : Z; rs_catalog_digest : string; rs_signer_key : string; rs_signer_certificate : string;
  rs_aic : string; rs_policy : string; rs_state : string; rs_inputs : string;
  rs_signature_verified : bool; rs_delta_verified : bool
}.
(** [Result{Verdict: VerdictReject, Reason: reason}]. *)
Definition rejected (reason : error) : Result :=
  mkCatalogResult VerdictReject reason "" "" "" 0 "" "" "" "" "" "" "" false false.

Definition digestAt (s : RegistryState) (generation : Z) : string :=
  if rg_generation s =? generation then rg_digest s
  else match List.find (λ r, gr_generation r =? generation) (rg_history s) with
       | Some r => gr_digest r
       | None => ""
       end.

(** The persisted identity is that of the catalog where it is set. *)
Definition same_identity (s : RegistryState) (c : Catalog) : check :=
  guard (negb (String.eqb (rg_domain s) "") && negb (String.eqb (rg_domain s) (ct_domain c))) CodeIdentityMismatch ;;?
  guard (negb (String.eqb (rg_catalog_id s) "") && negb (String.eqb (rg_catalog_id s) (ct_catalog_id c)))
    CodeIdentityMismatch ;;?
  guard (negb (String.eqb (rg_producer s) "") && negb (String.eqb (rg_producer s) (ct_producer c))) CodeIdentityMismatch.

(** The generation already holds another catalog. *)
Definition forks (s : RegistryState) (c : Catalog) (digest : string) : check :=
  let recorded := digestAt s (ct_generation c) in
  guard (negb (String.eqb recorded "") && negb (String.eqb recorded digest)) CodeFork.

Definition checkGeneration (c : Catalog) (s : RegistryState) (digest : string) : check :=
  same_identity s c ;;?
  (if rg_generation s =? 0 then guard (negb (ct_generation c =? 1)) CodeBootstrap
   else
     forks s c digest ;;?
     guard (ct_generation c <? rg_generation s) CodeRollback ;;?
     (if ct_generation c =? rg_generation s then guard (negb (String.eqb digest (rg_digest s))) CodeFork
      else
        guard (negb (ct_generation c =? wrap64 (rg_generation s + 1))) CodeRollback ;;?
        guard (negb (String.eqb (ct_previous_digest c) (rg_digest s))) CodePreviousDigest)).

Definition check_pin (p : TrustPolicy) (e : Entry) : check :=
  match declaration p (e_scheme e) with
  | inr code => Some code
  | inl digest => guard (negb (String.eqb (e_declaration_digest e) digest)) CodeDeclarationMismatch
  end.
Definition checkDeclarationPins (es : list Entry) (p : TrustPolicy) : check := check_all (check_pin p) es.

Definition checkProviderBindings (c : Catalog) (p : TrustPolicy) : check :=
  if (length (tp_provider_bindings p) =? 0)%nat then None
  else check_all (λ e,
    match mget (e_provider e) (tp_provider_bindings p) with
    | None => Some CodeProviderMismatch
    | Some producer => guard (negb (String.eqb producer (ct_producer c))) CodeProviderMismatch
    end) (Entries c).

(** The instants are compared as in [checkFreshness] and in [checkDeltaFreshness]
    (delta_signed.go), which does not repeat the comparison of the two. *)
Definition too_old (p : TrustPolicy) (now issued : Time) : check :=
  guard ((0 <? tp_max_staleness p) && (seconds (tp_max_staleness p) <? Sub now issued)) CodeStale.
Definition checkFreshness (c : Catalog) (p : TrustPolicy) : check :=
  match parseTime (tp_observed_at p) with
  | None => Some CodeStale
  | Some now =>
      match parseTime (ct_valid_until c) with
      | None => Some CodeCatalogShape
      | Some until =>
          match parseTime (ct_issued_at c) with
          | None => Some CodeCatalogShape
          | Some issued =>
              guard (After issued (now + clockSkew)) CodeStale ;;?
              guard (negb (After until issued)) CodeCatalogShape ;;?
              guard (After now until) CodeExpired ;;?
              too_old p now issued
          end
      end
  end.

(** The health value of a reference: the pinned one, unless the resolver gives a
    value of its own. *)
Definition health (p : TrustPolicy) (reference : string) : result (option string) :=
  let value := mget reference (tp_status_values p) in
  match tp_status_resolver p with
  | None => inl value
  | Some resolve =>
      match resolve reference with
      | inr _ => inr CodeStatusUnavailable
      | inl resolved => inl (if String.eqb resolved "" then value else Some resolved)
      end
  end.
Definition check_health (p : TrustPolicy) (reference : string) : check :=
  match health p reference with
  | inr code => Some code
  | inl None => Some CodeStatusUnavailable
  | inl (Some value) => guard (negb (String.eqb value "healthy")) CodeStatusUnavailable
  end.
Definition check_status (p : TrustPolicy) (now : Time) (e : Entry) : check :=
  match e_status e with
  | None => guard (tp_require_status p) CodeStatusUnavailable
  | Some s =>
      match parseTime (ss_checked_at s) with
      | None => Some CodeCatalogShape
      | Some checked =>
          guard (After checked now) CodeStatusStale ;;?
          guard ((0 <? tp_max_status_staleness p) && (seconds (tp_max_status_staleness p) <? Sub now checked))
            CodeStatusStale ;;?
          (if tp_require_status p then check_health p (ss_reference s) else None)
      end
  end.
Definition checkStatus (c : Catalog) (p : TrustPolicy) : check :=
  match parseTime (tp_observed_at p) with
  | None => Some CodeStale
  | Some now => check_all (check_status p now) (Entries c)
  end.

(** [capabilityOf]; the grants of a certificate are read as in schemeadmin, whose
    [grantsFor], [coversGrantID] and [grantFromAICCapability] are the same code. *)
Definition entry_capability (e : Entry) : string := TrimPrefix (e_capability e) (e_scheme e +:+ ":").
Definition catalog_grantsFor : Identity → string → list Grant := grantsFor.

Section authority.
Context (lower_table : Z → Z).

Definition op_covered (grants : list Grant) (dm : gomap DomainSpec) (capability : string) (op : Operation) : bool :=
existsb (λ g, bool_decide (ContainsWithDomains lower_table g (op_grant op capability) dm dm = None)) grants.
Definition check_entry_authority (p : TrustPolicy) (aic : Identity) (e : Entry) : check :=
let grants := catalog_grantsFor aic (e_capability e) in
let dm := domains p (e_scheme e) (entry_capability e) in
guard (length grants =? 0)%nat CodeEntryOutsideAuthority ;;?
check_all (λ op, guard (negb (op_covered grants dm (e_capability e) op)) CodeEntryOutsideAuthority) (Operations e).
Definition checkAuthority (es : list Entry) (p : TrustPolicy) (aic : Identity) : check :=
check_all (check_entry_authority p aic) es.

(** ** The signer *)

(** A certificate with its extensions, by object identifier; [OIDAIC] is that of
    the identity extension. *)
Context {Cert : Type} (pki : PKI Cert) (extensions : Cert → list (string * string)) (OIDAIC : string).

Definition aicExtensionDigest (cert : Cert) : string :=
match mget OIDAIC (extensions cert) with Some value => Digest value | None => "" end.

Definition verifySigner (producer : string) (cert : option Cert) (roots : list (option Cert)) (now : Time) : result Identity :=
rguard (verifyChain pki cert roots now)
  match cert with
  | None => inr CodeSignatureMissing
  | Some cert =>
      match ParseAIC pki cert with
      | None | Some None => inr CodeSignatureNoAIC
      | Some (Some aic) =>
          let hash := pu_key_hash (id_principal aic) in
          if negb (ValidateAIC pki aic) then inr CodeSignatureNoAIC
          else if negb (names_principal (TrimPrefix producer "principal:") (id_principal aic)) then inr CodePublisherMismatch
          else if (length hash =? 0)%nat || allZero hash then inr CodePublisherKeyBinding
          else if negb (bool_decide (hash = Sum256 (ct_spki pki cert))) then inr CodePublisherKeyBinding
          else inl aic
      end
  end.

(** ** The admission algorithm *)

Record Verification := mkVerification {
  vf_catalog : Catalog; vf_signer : option Cert; vf_roots : list (option Cert); vf_policy : TrustPolicy;
  vf_state : RegistryState
}.

Definition decide (v : Verification) (catalogDigest : string) : check :=
let c := vf_catalog v in let p := vf_policy v in
ValidatePolicy p ;;?
Validate c ;;?
guard (negb (String.eqb (ct_domain c) (tp_domain p))) CodeIdentityMismatch ;;?
guard (negb (String.eqb (ct_catalog_id c) (tp_catalog_id p))) CodeIdentityMismatch ;;?
guard (negb (String.eqb (tp_producer p) "") && negb (String.eqb (ct_producer c) (tp_producer p))) CodeIdentityMismatch ;;?
match parseTime (tp_observed_at p) with
| None => Some CodeStale
| Some now =>
    match verifySigner (ct_producer c) (vf_signer v) (vf_roots v) now with
    | inr code => Some code
    | inl aic =>
        checkDeclarationPins (Entries c) p ;;?
        checkProviderBindings c p ;;?
        checkGeneration c (vf_state v) catalogDigest ;;?
        checkFreshness c p ;;?
        checkStatus c p ;;?
        checkAuthority (Entries c) p aic
    end
end.

Definition key_of_signer (cert : option Cert) : string := match cert with Some c => keyIDOf (ct_spki pki c) | None => "" end.
Definition cert_digest (cert : option Cert) : string := match cert with Some c => Digest (ct_raw pki c) | None => "" end.
Definition aic_digest (cert : option Cert) : string := match cert with Some c => aicExtensionDigest c | None => "" end.

Definition verify_inputs (catalog signer certificate aic policy state : string) : string :=
digest_or_empty (CanonicalDigest (AMap [
  ("catalog", AStr catalog); ("signer", AStr signer); ("signer_certificate", AStr certificate);
  ("aic", AStr aic); ("policy", AStr policy); ("state", AStr state)])).

(** The record of a decision with the given verdict, and [verify]. *)
Definition decided (v : Verification) (verdict reason : string) : Result :=
let c := vf_catalog v in let d := digest_or_empty (CatalogDigest c) in
let key := key_of_signer (vf_signer v) in let certificate := cert_digest (vf_signer v) in
let aic := aic_digest (vf_signer v) in
let policy := trust_digest (vf_policy v) in let state := registry_digest (vf_state v) in
mkCatalogResult verdict reason (ct_domain c) (ct_catalog_id c) (ct_producer c) (ct_generation c) d key certificate
  aic policy state (verify_inputs d key certificate aic policy state) false false.
Definition verify (v : Verification) : Result * check :=
match decide v (digest_or_empty (CatalogDigest (vf_catalog v))) with
| Some code => (decided v VerdictReject code, Some code)
| None => (decided v VerdictAccept "", None)
end.

(** [res.signatureVerified = true]. *)
Definition mark_signed (r : Result) : Result :=
mkCatalogResult (rs_verdict r) (rs_reason r) (rs_domain r) (rs_catalog_id r) (rs_producer r) (rs_generation r)
  (rs_catalog_digest r) (rs_signer_key r) (rs_signer_certificate r) (rs_aic r) (rs_policy r) (rs_state r) (rs_inputs r)
  true (rs_delta_verified r).

(** The exported [Verify] refuses always. *)
Definition Verify (v : Verification) : Result * check :=
let c := vf_catalog v in
(mkCatalogResult VerdictReject CodeSignatureMissing (ct_domain c) (ct_catalog_id c) (ct_producer c) (ct_generation c)
   "" "" "" "" "" "" "" false false, Some CodeSignatureMissing).

(** [VerifySigned] (signed.go). *)
Definition VerifySigned (raw signature : string) (roots : list (option Cert)) (policy : TrustPolicy) (state : RegistryState)
  : Result * check :=
let refuse code := (rejected code, Some code) in
if maxArtifactBytes <? Z.of_nat (String.length raw) then refuse CodeCatalogShape
else if String.eqb signature "" then refuse CodeSignatureMissing
else match VerifyDetached pki signature raw with
     | None => refuse CodeSignatureInvalid
     | Some signer =>
         match ParseCatalog raw with
         | inr code => refuse code
         | inl c =>
             match verify (mkVerification c signer roots policy state) with
             | (res, Some code) => (res, Some code)
             | (res, None) => (mark_signed res, None)
             end
         end
     end.

(** ** Accepting a catalog (policy.go) *)

Definition generation_le (a b : GenerationRecord) : Prop := gr_generation a <= gr_generation b.
#[global] Instance generation_le_dec : RelDecision generation_le.
Proof using. intros a b. unfold generation_le. apply _. Defined.

(** [add]: a generation is recorded once. *)
Definition add_record (history : list GenerationRecord) (r : GenerationRecord) : list GenerationRecord :=
if (gr_generation r =? 0) || existsb (λ x, gr_generation x =? gr_generation r) history then history
else history ++ [r].
Definition next_records (s : RegistryState) (generation : Z) (digest : string) : list GenerationRecord :=
merge_sort generation_le
  (fold_left add_record (mkGeneration generation digest :: rg_history s ++ [mkGeneration (rg_generation s) (rg_digest s)]) []).

(** [advance]: the state to persist, or the failure. *)
Definition advance (s : RegistryState) (c : Catalog) (res : Result) : result RegistryState :=
rguard (Validate c ;;? same_identity s c)
(let! digest := CatalogDigest c in
 rguard (guard (negb (String.eqb (rs_catalog_digest res) digest) || negb (rs_generation res =? ct_generation c) ||
                negb (String.eqb (rs_producer res) (ct_producer c))) CodeStateUnverified)
 (let next := mkRegistry (ct_domain c) (ct_catalog_id c) (ct_producer c) (ct_generation c) digest
                (next_records s (ct_generation c) digest) in
  if rg_generation s =? 0 then
    rguard (guard (negb (length (rg_history s) =? 0)%nat || negb (String.eqb (rg_digest s) "")) CodeFork ;;?
            guard (negb (ct_generation c =? 1)) CodeBootstrap ;;?
            forks s c digest) (inl next)
  else if ct_generation c <? rg_generation s then inr CodeRollback
  else if ct_generation c =? rg_generation s then
    rguard (guard (negb (String.eqb digest (rg_digest s))) CodeFork) (inl s)
  else
    rguard (guard (negb (ct_generation c =? wrap64 (rg_generation s + 1))) CodeRollback ;;?
            guard (negb (String.eqb (ct_previous_digest c) (rg_digest s))) CodePreviousDigest ;;?
            forks s c digest) (inl next))).

Definition Accept (s : RegistryState) (c : Catalog) (res : Result) : result RegistryState :=
rguard (guard (negb (rs_signature_verified res) || negb (String.eqb (rs_verdict res) VerdictAccept)) CodeStateUnverified)
  (advance s c res).

Definition AcceptDelta (s : RegistryState) (base c : Catalog) (res : Result) : result RegistryState :=
rguard (guard (negb (rs_delta_verified res) || negb (String.eqb (rs_verdict res) VerdictAccept)) CodeStateUnverified)
(let! baseDigest := CatalogDigest base in
 rguard (guard ((rg_generation s =? 0) || negb (ct_generation base =? rg_generation s) ||
                negb (String.eqb baseDigest (rg_digest s))) CodeRollback)
   (advance s c res)).

Definition AcceptSigned (s : RegistryState) (raw signature : string) (roots : list (option Cert)) (policy : TrustPolicy)
  : result RegistryState * Result :=
match VerifySigned raw signature roots policy s with
| (res, Some code) => (inr code, res)
| (res, None) => (let! c := ParseCatalog raw in Accept s c res, res)
end.

(** ** Rotation of the trust roots (rotation.go) *)

Record TrustRotation := mkRotation {
  tr_current : list (option Cert); tr_next : list (option Cert); tr_overlap_until : Time; tr_revoked_keys : gomap bool
}.
Definition rotation_Validate (r : TrustRotation) : check :=
guard ((length (tr_current r) =? 0)%nat && (length (tr_next r) =? 0)%nat) CodeSignatureChain ;;?
guard (negb (length (tr_next r) =? 0)%nat && IsZero (tr_overlap_until r)) CodeSignatureChain.
Definition RootsAt (r : TrustRotation) (now : Time) : result (list (option Cert)) :=
rguard (rotation_Validate r)
  (inl (if (length (tr_next r) =? 0)%nat then tr_current r
        else if now <? tr_overlap_until r then tr_current r ++ tr_next r
        else tr_next r)).

Definition with_verdict (r : Result) (verdict reason : string) : Result :=
mkCatalogResult verdict reason (rs_domain r) (rs_catalog_id r) (rs_producer r) (rs_generation r) (rs_catalog_digest r)
  (rs_signer_key r) (rs_signer_certificate r) (rs_aic r) (rs_policy r) (rs_state r) (rs_inputs r)
  (rs_signature_verified r) (rs_delta_verified r).

Definition rotation_VerifySigned (r : TrustRotation) (raw signature : string) (policy : TrustPolicy) (state : RegistryState)
  : Result * result Catalog :=
match parseTime (tp_observed_at policy) with
| None => (rejected CodeStale, inr CodeStale)
| Some now =>
    match RootsAt r now with
    | inr code => (rejected code, inr code)
    | inl roots =>
        match VerifySigned raw signature roots policy state with
        | (res, Some code) => (res, inr code)
        | (res, None) =>
            if default false (mget (rs_signer_key res) (tr_revoked_keys r)) then
              (with_verdict res VerdictReject CodeKeyRevoked, inr CodeKeyRevoked)
            else (res, ParseCatalog raw)
        end
    end
end.
End authority.
