(* ===== verification/CatalogExchange.v ===== *)
(** * Exchange of catalogs

    catalog/delta_signed.go (a delta over a detached signature), exchange.go (the
    bundle of a directory: served, fetched and applied), compose.go (shards of one
    catalog), index.go (lookup) and cache.go (the last fetched bundle). *)

From S2P Require Import Prelude GoStrings Regex GoFloat GoTime Json Canonical Ids Values Bounds.
From S2P Require Import JsonText JsonStruct Grants Sha256 Domains SchemeArtifacts SchemeState.
From S2P Require Import SchemeConfirm.
From S2P Require Import Catalog CatalogTrust.

(** ** Signed deltas (delta_signed.go) *)

Definition checkDeltaFreshness (d : Delta) (p : TrustPolicy) : check :=
  match parseTime (tp_observed_at p) with
  | None => Some CodeStale
  | Some now =>
      match parseTime (dl_issued_at d) with
      | None => Some CodeDeltaShape
      | Some issued =>
          match parseTime (dl_valid_until d) with
          | None => Some CodeDeltaShape
          | Some until =>
              guard (After issued (now + clockSkew)) CodeStale ;;?
              guard (After now until) CodeExpired ;;?
              too_old p now issued
          end
      end
  end.

(** The bundle of one generation: bytes, not a verdict. *)
Record DirectoryBundle := mkBundle {
  bd_snapshot : string; bd_snapshot_signature : string; bd_delta : string; bd_delta_signature : string
}.
Record ApplyOutcome := mkOutcome {
  ao_result : Result; ao_catalog : option Catalog; ao_state : RegistryState; ao_used_delta : bool; ao_delta_error : string
}.

Section exchange.
Context (lower_table : Z → Z) {Cert : Type} (pki : PKI Cert) (extensions : Cert → list (string * string)) (OIDAIC : string).
#[local] Abbreviation verifySigner := (verifySigner pki).
#[local] Abbreviation checkAuthority := (checkAuthority lower_table).
#[local] Abbreviation VerifySigned := (VerifySigned lower_table pki extensions OIDAIC).

(** The checks before the delta is applied: the base, the identities, the window,
  the signer, and the entries the delta brings. *)
Definition delta_signer (d : Delta) (signer : option Cert) (base : Catalog) (roots : list (option Cert)) (p : TrustPolicy)
  : result Identity :=
let affected := dl_add d ++ dl_replace d in
rguard (Validate base ;;?
        guard (negb (String.eqb (dl_domain d) (ct_domain base)) || negb (String.eqb (dl_catalog_id d) (ct_catalog_id base)))
          CodeDeltaBase ;;?
        guard (negb (String.eqb (dl_domain d) (tp_domain p)) || negb (String.eqb (dl_catalog_id d) (tp_catalog_id p)))
          CodeIdentityMismatch ;;?
        guard (negb (String.eqb (dl_producer d) (ct_producer base))) CodeDeltaBase ;;?
        guard (negb (String.eqb (tp_producer p) "") && negb (String.eqb (dl_producer d) (tp_producer p)))
          CodeIdentityMismatch ;;?
        checkDeltaFreshness d p)
(match parseTime (tp_observed_at p) with
 | None => inr CodeStale
 | Some now =>
     let! aic := verifySigner (dl_producer d) signer roots now in
     rguard (checkDeclarationPins affected p ;;? checkAuthority affected p aic) (inl aic)
 end).

(** The catalog the delta produces, checked as a whole. *)
Definition delta_next (d : Delta) (signer : option Cert) (base : Catalog) (roots : list (option Cert)) (p : TrustPolicy)
  : result Catalog :=
let! aic := delta_signer d signer base roots p in
let! next := Apply base d in
rguard (checkDeclarationPins (Entries next) p ;;?
        checkProviderBindings next p ;;?
        checkFreshness next p ;;?
        checkStatus next p ;;?
        checkAuthority (Entries next) p aic)
  (inl next).

Definition delta_inputs (catalog base delta signer policy : string) : string :=
digest_or_empty (CanonicalDigest (AMap [
  ("catalog", AStr catalog); ("base", AStr base); ("delta", AStr delta); ("signer", AStr signer); ("policy", AStr policy)])).

(** The record while the delta is checked: before and after it is parsed, and
  after the policy is validated. *)
Definition base_record (base : Catalog) (reason : error) : Result :=
mkCatalogResult VerdictReject reason (ct_domain base) (ct_catalog_id base) (ct_producer base) (ct_generation base)
  "" "" "" "" "" "" "" false false.
Definition delta_record (d : Delta) (signer : option Cert) (policy reason : string) : Result :=
mkCatalogResult VerdictReject reason (dl_domain d) (dl_catalog_id d) (dl_producer d) (dl_target_generation d) ""
  (key_of_signer pki signer) (cert_digest pki signer) (aic_digest extensions OIDAIC signer) policy "" "" false false.
Definition accepted_delta (d : Delta) (signer : option Cert) (policy : string) (next : Catalog) (digest inputs : string)
  (verdict : string) (verified : bool) : Result :=
mkCatalogResult verdict "" (dl_domain d) (dl_catalog_id d) (dl_producer d) (ct_generation next) digest
  (key_of_signer pki signer) (cert_digest pki signer) (aic_digest extensions OIDAIC signer) policy "" inputs false verified.

Definition VerifySignedDelta (raw signature : string) (base : Catalog) (roots : list (option Cert)) (p : TrustPolicy)
  : Result * result Catalog :=
if maxArtifactBytes <? Z.of_nat (String.length raw) then (base_record base CodeCatalogShape, inr CodeCatalogShape)
else
  match VerifyDetached pki signature raw with
  | None => (base_record base CodeSignatureInvalid, inr CodeSignatureInvalid)
  | Some signer =>
      match ParseDelta raw with
      | inr code => (base_record base code, inr code)
      | inl d =>
          match ValidatePolicy p with
          | Some code => (delta_record d signer "" code, inr code)
          | None =>
              let policy := trust_digest p in
              match delta_next d signer base roots p with
              | inr code => (delta_record d signer policy code, inr code)
              | inl next =>
                  match CatalogDigest next with
                  | inr code => (delta_record d signer policy CodeDeltaDigest, inr code)
                  | inl digest =>
                      match DeltaDigest d with
                      | inr code => (accepted_delta d signer policy next digest "" VerdictReject false, inr code)
                      | inl deltaDigest =>
                          let inputs := delta_inputs digest (digest_or_empty (CatalogDigest base)) deltaDigest
                                          (key_of_signer pki signer) policy in
                          (accepted_delta d signer policy next digest inputs VerdictAccept true, inl next)
                      end
                  end
              end
          end
      end
  end.

Definition VerifySignedDeltaWithState (raw signature : string) (base : Catalog) (roots : list (option Cert))
  (p : TrustPolicy) (s : RegistryState) : Result * result Catalog :=
let refuse code := (rejected code, inr code) in
if rg_generation s =? 0 then refuse CodeBootstrap
else
  match CatalogDigest base with
  | inr code => (rejected CodeCatalogShape, inr code)
  | inl baseDigest =>
      if negb (String.eqb (rg_domain s) "") && negb (String.eqb (rg_domain s) (ct_domain base)) then
        refuse CodeIdentityMismatch
      else if negb (String.eqb (rg_catalog_id s) "") && negb (String.eqb (rg_catalog_id s) (ct_catalog_id base)) then
        refuse CodeIdentityMismatch
      else if negb (rg_generation s =? ct_generation base) || negb (String.eqb (rg_digest s) baseDigest) then
        refuse CodeRollback
      else VerifySignedDelta raw signature base roots p
  end.

(** ** Directory bundles (exchange.go) *)

(** The outcome of the delta path: the accepted catalog and state, or the error
  for which the snapshot is taken ("" without a delta).  The text of an error is
  its code. *)
Definition apply_delta (b : DirectoryBundle) (base : Catalog) (roots : list (option Cert)) (p : TrustPolicy)
  (s : RegistryState) : (Result * Catalog * RegistryState) + error :=
if String.eqb (bd_delta b) "" then inr ""
else
  match VerifySignedDeltaWithState (bd_delta b) (bd_delta_signature b) base roots p s with
  | (_, inr code) => inr code
  | (res, inl next) =>
      match AcceptDelta s base next res with
      | inl advanced => inl (res, next, advanced)
      | inr code => inr code
      end
  end.

(** [DirectoryBundle.Apply]. *)
Definition bundle_Apply (b : DirectoryBundle) (base : Catalog) (roots : list (option Cert)) (p : TrustPolicy)
  (s : RegistryState) : ApplyOutcome * check :=
match apply_delta b base roots p s with
| inl (res, next, advanced) => (mkOutcome res (Some next) advanced true "", None)
| inr deltaErr =>
    match VerifySigned (bd_snapshot b) (bd_snapshot_signature b) roots p s with
    | (res, Some code) => (mkOutcome res None zero_state false deltaErr, Some code)
    | (res, None) =>
        match ParseCatalog (bd_snapshot b) with
        | inr code => (mkOutcome res None zero_state false deltaErr, Some code)
        | inl cat =>
            match Accept s cat res with
            | inr code => (mkOutcome res (Some cat) zero_state false deltaErr, Some code)
            | inl advanced => (mkOutcome res (Some cat) advanced false deltaErr, None)
            end
        end
    end
end.

(** ** Shards of one catalog (compose.go) *)

Record VerifiedSource := mkSource { vs_name : string; vs_catalog : Catalog; vs_result : Result; vs_verified : bool }.
Record CompositeCatalog := mkComposite {
  cc_domain : string; cc_catalog_id : string; cc_generation : Z; cc_entries : list Entry; cc_sources : list string;
  cc_source_digests : gomap string
}.

Definition VerifySource (name raw signature : string) (roots : list (option Cert)) (p : TrustPolicy) (s : RegistryState)
  : result VerifiedSource :=
if String.eqb name "" then inr CodeShardMissing
else match VerifySigned raw signature roots p s with
     | (_, Some code) => inr code
     | (res, None) => let! cat := ParseCatalog raw in inl (mkSource name cat res true)
     end.
End exchange.

(** [CompositeCatalog.Entry]. *)
Definition composite_entry (c : CompositeCatalog) (capability : string) : option Entry :=
  List.find (λ e, String.eqb (e_capability e) capability) (cc_entries c).

Definition sameEntry (a b : Entry) : bool :=
  match CanonicalJSON (catalog_entry_any a), CanonicalJSON (catalog_entry_any b) with
  | inl ra, inl rb => String.eqb ra rb
  | _, _ => false
  end.

(** The entries of one shard: the entries by capability and, in their order, the
    entries of the composite. *)
Fixpoint merge_entries (by_cap : gomap Entry) (out : list Entry) (es : list Entry) : result (gomap Entry * list Entry) :=
  match es with
  | [] => inl (by_cap, out)
  | e :: es' =>
      match mget (e_capability e) by_cap with
      | Some prior => if negb (sameEntry prior e) then inr CodeDirectoryConflict else merge_entries by_cap out es'
      | None => merge_entries (mset (e_capability e) e by_cap) (out ++ [e]) es'
      end
  end.

(** [out] after the first shard, and the checks of a later one. *)
Definition composite_of (out : option CompositeCatalog) (c : Catalog) : result CompositeCatalog :=
  match out with
  | None => inl (mkComposite (ct_domain c) (ct_catalog_id c) (ct_generation c) [] [] [])
  | Some o =>
      if negb (String.eqb (cc_domain o) (ct_domain c)) || negb (String.eqb (cc_catalog_id o) (ct_catalog_id c)) then
        inr CodeDirectoryConflict
      else if negb (cc_generation o =? ct_generation c) then inr CodeDirectoryConflict
      else inl o
  end.

(** The loop over the sources: the names seen are those of [out]. *)
Fixpoint compose_loop (seen : list string) (out : option CompositeCatalog) (by_cap : gomap Entry) (sources : list VerifiedSource)
    : result (list string * option CompositeCatalog) :=
  match sources with
  | [] => inl (seen, out)
  | src :: sources' =>
      let c := vs_catalog src in
      rguard (guard (negb (vs_verified src)) CodeStateUnverified ;;? guard (mem_key (vs_name src) seen) CodeShardMissing)
      (let! o := composite_of out c in
       let! (by_cap', entries') := merge_entries by_cap (cc_entries o) (Entries c) in
       compose_loop (vs_name src :: seen)
         (Some (mkComposite (cc_domain o) (cc_catalog_id o) (cc_generation o) entries' (cc_sources o ++ [vs_name src])
                  (mset (vs_name src) (rs_catalog_digest (vs_result src)) (cc_source_digests o))))
         by_cap' sources')
  end.

Definition entry_le (a b : Entry) : Prop := String.le (e_capability a) (e_capability b).
#[global] Instance entry_le_dec : RelDecision entry_le.
Proof. intros a b. unfold entry_le. apply _. Defined.

Definition ComposeVerified (sources : list VerifiedSource) (required : list string) : result CompositeCatalog :=
  if (length sources =? 0)%nat then inr CodeShardMissing
  else
    let! (seen, out) := compose_loop [] None [] sources in
    match out with
    | None => inr CodeShardMissing
    | Some o =>
        rguard (check_all (λ name, guard (negb (mem_key name seen)) CodeShardMissing) required)
          (inl (mkComposite (cc_domain o) (cc_catalog_id o) (cc_generation o) (merge_sort entry_le (cc_entries o))
                  (sort_Strings (cc_sources o)) (cc_source_digests o)))
    end.

(** ** Lookup (index.go) *)

(** The positions by first byte (256 shards) and by name. *)
Record Index := mkIndex { ix_shards : list (list nat); ix_by_name : gomap nat }.
Definition empty_index : Index := mkIndex (replicate 256 []) [].

Definition shard_key (capability : string) : nat :=
  match capability with String c _ => nat_of_ascii c | EmptyString => 0%nat end.
Definition index_entry (idx : Index) (ie : nat * Entry) : Index :=
  let capability := e_capability ie.2 in
  if mhas capability (ix_by_name idx) then idx
  else mkIndex (alter (λ l, l ++ [ie.1]) (shard_key capability) (ix_shards idx)) (mset capability ie.1 (ix_by_name idx)).
Definition BuildIndex (c : Catalog) : Index := fold_left index_entry (imap pair (Entries c)) empty_index.

(** A nil index is [None]. *)
Definition Lookup (i : option Index) (c : Catalog) (capability : string) : option Entry :=
  idx ← i; n ← mget capability (ix_by_name idx); Entries c !! n.
Definition Shard (i : option Index) (capability : string) : list nat :=
  match i with
  | None => []
  | Some idx => if String.eqb capability "" then [] else default [] (ix_shards idx !! shard_key capability)
  end.

(** ** Serving and fetching a bundle (exchange.go) *)

(** What reading a response yields: its status and its body. *)
Record Response := mkResponse { rp_status : Z; rp_body : result string }.

Definition served (b : DirectoryBundle) (path : string) : string :=
  if String.eqb path "/catalog" then bd_snapshot b
  else if String.eqb path "/catalog.p7s" then bd_snapshot_signature b
  else if String.eqb path "/delta" then bd_delta b
  else if String.eqb path "/delta.p7s" then bd_delta_signature b
  else "".
(** [Handler]: the body of the not-found answer is the text of [http.NotFound]. *)
Definition Handler (b : DirectoryBundle) (path : string) : Response :=
  if String.eqb (served b path) "" then mkResponse 404 (inl ("404 page not found" +:+ String (chr 10) ""))
  else mkResponse 200 (inl (served b path)).

(** [get]: [client] is [client.Do] on a GET request of a URL.  The reader stops one
    byte past the limit, so a longer body is refused whatever its length. *)
Definition fetch_get (client : string → result Response) (base path : string) : result string :=
  let! resp := client (base +:+ path) in
  if rp_status resp =? 404 then inl ""
  else if negb (rp_status resp =? 200) then inr ""
  else
    let! raw := rp_body resp in
    if maxArtifactBytes <? Z.of_nat (String.length raw) then inr "" else inl raw.

Definition FetchDirectory (client : string → result Response) (url : string) : result DirectoryBundle :=
  let base := TrimRight "/"%char url in
  let! snapshot := fetch_get client base "/catalog" in
  let! signature := fetch_get client base "/catalog.p7s" in
  let! delta := fetch_get client base "/delta" in
  let! deltaSignature := fetch_get client base "/delta.p7s" in
  if String.eqb snapshot "" || String.eqb signature "" then inr CodeCatalogShape
  else inl (mkBundle snapshot signature delta deltaSignature).

(** ** The cache (cache.go) *)

Record DirectoryCache := mkCache { ca_bundle : DirectoryBundle; ca_fetched : Time; ca_ttl : Z; ca_max_stale : Z }.
(** What a fetch returns: the bundle, whether it is the cached one, whether it is
    stale; [fetch] is what [FetchDirectory] yields now. *)
Definition Fetch (c : DirectoryCache) (fetch : result DirectoryBundle) (now : Time)
    : DirectoryCache * result (DirectoryBundle * bool * bool) :=
  if negb (IsZero (ca_fetched c)) && (0 <? ca_ttl c) && (Sub now (ca_fetched c) <? ca_ttl c) then
    (c, inl (ca_bundle c, true, false))
  else
    match fetch with
    | inl b => (mkCache b now (ca_ttl c) (ca_max_stale c), inl (b, false, false))
    | inr code =>
        if negb (IsZero (ca_fetched c)) && ((ca_max_stale c =? 0) || (Sub now (ca_fetched c) <=? ca_max_stale c)) then
          (c, inl (ca_bundle c, true, true))
        else (c, inr code)
    end.

(** ** A sample deployment

    Small enough to compute with: one scheme, a publisher whose certificate bounds
    an amount, the first generation of its catalog, a signed delta to the second,
    and the states that accept them.  The witnesses of the catalog theorems are
    taken from it. *)

Definition obj (members : list (string * string)) : string :=
  "{" +:+ Join "," (map (λ kv, quoted kv.1 +:+ ":" +:+ kv.2) members) +:+ "}".
Definition text_of (v : any) : string := match CanonicalJSON v with inl t => t | inr _ => "" end.

Definition pay_declaration : string :=
  let amount := obj [("params", obj [("amount", obj [("domain", quoted "bound")])])] in
  obj [("@version", quoted "CLC-SCHEME-v1"); ("scheme", quoted "acme/pay-v1"); ("declaration_id", quoted "d1");
       ("clc_revision", quoted "CLC-1.19");
       ("capabilities", obj [("money:transfer", amount); ("money:refund", amount); ("money:orders", amount)])].
Definition pay_digest : string := Eval vm_compute in DigestOfDeclaration pay_declaration.

Definition amount (z : Z) : option (gomap any) := Some [("amount", AFloat (of_Z z))].
Definition pay_entry (name : string) (limit : Z) : Entry :=
  mkCatalogEntry ("acme/pay-v1:money:" +:+ name) "acme-bank" "acme/pay-v1" pay_digest
    (Some [mkOperation "execute" (amount limit)]) (Some (mkStatus "status/1" "2026-01-01T00:00:00Z")).
Definition first_catalog : Catalog :=
  mkCatalog CatalogVersion "acme.example" "pay" 1 "2026-01-01T00:00:00Z" "2026-02-01T00:00:00Z" "" "principal:acme"
    (Some [pay_entry "transfer" 50; pay_entry "orders" 10]).
Definition first_digest : string := Eval vm_compute in digest_or_empty (CatalogDigest first_catalog).
Definition second_catalog : Catalog :=
  mkCatalog CatalogVersion "acme.example" "pay" 2 "2026-01-02T00:00:00Z" "2026-02-02T00:00:00Z" first_digest
    "principal:acme" (Some [pay_entry "refund" 20; pay_entry "transfer" 70]).
Definition second_digest : string := Eval vm_compute in digest_or_empty (CatalogDigest second_catalog).
Definition pay_delta : Delta :=
  mkDelta DeltaVersion "acme.example" "pay" 1 2 first_digest second_digest "2026-01-02T00:00:00Z" "2026-02-02T00:00:00Z"
    "principal:acme" [pay_entry "refund" 20] [pay_entry "transfer" 70] ["acme/pay-v1:money:orders"].

(** The publisher may publish every capability of the scheme up to 100. *)
Definition publisher : Identity :=
  mkIdentity (mkPrincipal "acme" "corp" (Sum256 "key"))
    [mkAICCap "acme/pay-v1:money:*" (obj [("params", obj [("amount", "100")])])].
Definition pay_pki : PKI unit :=
  mkPKI (λ _, "certificate") (λ _, "key") (λ _, 1) (λ _ roots _, negb (length roots =? 0)%nat)
    (λ sig raw, if String.eqb sig (SchemeArtifacts.Digest raw) then Some (Some tt) else None)
    (λ _, Some (Some publisher)) (λ _, true).
Definition pay_extensions (_ : unit) : list (string * string) := [("1.3.6.1", "aic")].
Definition pay_lower (r : Z) : Z := r.
Definition pay_policy : TrustPolicy :=
  mkTrust "acme.example" "pay" "principal:acme" (Some [("acme/pay-v1", pay_declaration)]) 0 0 true
    [("status/1", "healthy")] None [("acme-bank", "principal:acme")] "2026-01-03T00:00:00Z".

Definition first_text : string := Eval vm_compute in text_of (catalog_any first_catalog).
Definition delta_text : string := Eval vm_compute in text_of (delta_any pay_delta).
Definition first_signature : string := Eval vm_compute in SchemeArtifacts.Digest first_text.
Definition delta_signature : string := Eval vm_compute in SchemeArtifacts.Digest delta_text.
Definition pay_bundle : DirectoryBundle := mkBundle first_text first_signature delta_text delta_signature.

Definition first_result : Result := Eval vm_compute in
  (VerifySigned pay_lower pay_pki pay_extensions "1.3.6.1" first_text first_signature [Some tt] pay_policy zero_state).1.
Definition first_state : RegistryState :=
  mkRegistry "acme.example" "pay" "principal:acme" 1 first_digest [mkGeneration 1 first_digest].
Definition second_state : RegistryState :=
  mkRegistry "acme.example" "pay" "principal:acme" 2 second_digest
    [mkGeneration 1 first_digest; mkGeneration 2 second_digest].
Definition pay_outcome : ApplyOutcome := Eval vm_compute in
  (bundle_Apply pay_lower pay_pki pay_extensions "1.3.6.1" pay_bundle first_catalog [Some tt] pay_policy first_state).1.

Lemma first_verified :
  VerifySigned pay_lower pay_pki pay_extensions "1.3.6.1" first_text first_signature [Some tt] pay_policy zero_state =
  (first_result, None).
Proof. vm_compute. reflexivity. Qed.
Lemma first_accepted : Accept zero_state first_catalog first_result = inl first_state.
Proof. vm_compute. reflexivity. Qed.
Lemma bundle_applied :
  bundle_Apply pay_lower pay_pki pay_extensions "1.3.6.1" pay_bundle first_catalog [Some tt] pay_policy first_state =
  (pay_outcome, None).
Proof. vm_compute. reflexivity. Qed.
Lemma second_accepted : AcceptDelta first_state first_catalog second_catalog (ao_result pay_outcome) = inl second_state.
Proof. vm_compute. reflexivity. Qed.
