(* ===== verification/CatalogProofs.v ===== *)
(** * Deltas and the accepted history of a catalog

    What [Apply] does to the entries of a catalog, seen as a finite map, and the
    chain of generations every reachable registry state records. *)

From stdpp Require Import gmap relations.
From S2P Require Import Prelude GoStrings Regex GoFloat GoTime Json Canonical Ids Values Bounds.
From S2P Require Import JsonText JsonStruct Grants Sha256 Domains SchemeArtifacts SchemeState.
From S2P Require Import SchemeConfirm.
From S2P Require Import Catalog CatalogTrust CatalogExchange.

(** ** Lists determined by their keys *)

Lemma keyed_perm_eq {A B} (f : A → B) l1 l2 :
  NoDup (f <$> l1) → l1 ≡ₚ l2 → f <$> l1 = f <$> l2 → l1 = l2.
Proof.
  revert l2. induction l1 as [|x l1 IH]; intros l2 Hnd Hp Hk.
  - by apply Permutation_nil_l in Hp.
  - destruct l2 as [|y l2]; [done|]. rewrite !fmap_cons in Hk. injection Hk as Hxy Hk.
    rewrite fmap_cons in Hnd. apply list.NoDup_cons in Hnd as [Hx Hnd].
    assert (x = y) as ->.
    { assert (x ∈ y :: l2) as Hin by (rewrite <- Hp; left).
      apply elem_of_cons in Hin as [|Hin]; [done|]. destruct Hx. rewrite Hk.
      apply list_elem_of_fmap. eauto. }
    f_equal. apply IH; [done| |done]. by apply Permutation_cons_inv in Hp.
Qed.

Lemma mdel_get {A} k k' (m : gomap A) : mget k' (mdel k m) = if String.eqb k' k then None else mget k' m.
Proof.
  unfold mdel. induction m as [|[k0 v] m IH]; [by destruct (String.eqb k' k)|].
  rewrite filter_cons. cbn [fst]. case_decide as E; cbn [mget].
  - rewrite IH. destruct (String.eqb_spec k' k0), (String.eqb_spec k' k); congruence.
  - assert (k0 = k) as -> by (destruct (base.decide (k0 = k)); [done|contradiction]).
    rewrite IH. by destruct (String.eqb k' k).
Qed.

Lemma wf_mdel {A} k (m : gomap A) : wf_map m → wf_map (mdel k m).
Proof.
  unfold wf_map, mdel, mkeys. intros H. induction m as [|[k0 v] m IH]; [done|].
  rewrite fmap_cons in H. apply list.NoDup_cons in H as [Hk H]. rewrite filter_cons. case_decide; [|by apply IH].
  rewrite fmap_cons. apply list.NoDup_cons. split; [|by apply IH]. cbn [fst] in *. contradict Hk.
  apply list_elem_of_fmap in Hk as ([k1 w] & -> & [_ Hin]%list_elem_of_filter).
  apply list_elem_of_fmap. by exists (k1, w).
Qed.

Lemma mhas_get {A} k (m : gomap A) : mhas k m = true ↔ is_Some (mget k m).
Proof. unfold mhas. destruct (mget k m); split; intros H; done. Qed.

(** ** The entries as a finite map *)

Definition put_entries (m : gmap string Entry) (es : list Entry) : gmap string Entry :=
  fold_left (λ m e, <[e_capability e := e]> m) es m.
Definition entry_map (es : list Entry) : gmap string Entry := put_entries ∅ es.
Definition catalog_map (c : Catalog) : gmap string Entry := entry_map (Entries c).

Definition entry_at (k : string) (old : option Entry) (es : list Entry) : option Entry :=
  fold_left (λ o e, if String.eqb k (e_capability e) then Some e else o) es old.

Lemma entry_map_from m es k :
  put_entries m es !! k = entry_at k (m !! k) es.
Proof.
  revert m. induction es as [|e es IH]; intros m; [done|].
  unfold put_entries. cbn [fold_left]. fold (put_entries (<[e_capability e := e]> m) es). rewrite IH. unfold entry_at. cbn [fold_left].
  f_equal. destruct (String.eqb_spec k (e_capability e)) as [->|]; [apply lookup_insert_eq|by apply lookup_insert_ne].
Qed.
Lemma entry_map_lookup es k : entry_map es !! k = entry_at k None es.
Proof. unfold entry_map. by rewrite entry_map_from, lookup_empty. Qed.

Lemma existing_from m es k :
  mget k (fold_left (λ m e, mset (e_capability e) e m) es m) = entry_at k (mget k m) es.
Proof.
  revert m. induction es as [|e es IH]; intros m; [done|]. cbn [fold_left]. rewrite IH, mget_mset. by unfold entry_at.
Qed.
Lemma existing_lookup c k : mget k (existing_of c) = catalog_map c !! k.
Proof. unfold existing_of, catalog_map. by rewrite existing_from, entry_map_lookup. Qed.

Lemma wf_existing c : wf_map (existing_of c).
Proof.
  unfold existing_of. assert (wf_map (@nil (string * Entry))) as H by apply NoDup_nil_2. revert H.
  generalize (@nil (string * Entry)). induction (Entries c) as [|e es IH]; intros m H; [done|].
  cbn [fold_left]. apply IH, wf_mset, H.
Qed.

Lemma entry_at_notin k o es : k ∉ e_capability <$> es → entry_at k o es = o.
Proof.
  revert o. induction es as [|e es IH]; intros o; [done|]. rewrite fmap_cons, not_elem_of_cons. intros [Hk H].
  unfold entry_at. cbn [fold_left]. apply String.eqb_neq in Hk as ->. by apply IH.
Qed.
Lemma entry_at_in k o es : k ∈ e_capability <$> es → ∃ e, entry_at k o es = Some e ∧ e ∈ es ∧ e_capability e = k.
Proof.
  revert o. induction es as [|e es IH]; intros o; [by intros ?%not_elem_of_nil|]. rewrite fmap_cons. intros H.
  unfold entry_at. cbn [fold_left]. fold (entry_at k (if String.eqb k (e_capability e) then Some e else o) es).
  destruct (base.decide (k ∈ e_capability <$> es)) as [Hin|Hin].
  - destruct (IH (if String.eqb k (e_capability e) then Some e else o) Hin) as (e' & ? & ? & ?).
    exists e'. split; [done|]. split; [by right|done].
  - rewrite entry_at_notin by done. apply elem_of_cons in H as [->|]; [|done].
    rewrite String.eqb_refl. exists e. split; [done|]. split; [left|done].
Qed.
Lemma entry_map_key es k e : entry_map es !! k = Some e → e ∈ es ∧ e_capability e = k.
Proof.
  rewrite entry_map_lookup. intros H. destruct (base.decide (k ∈ e_capability <$> es)) as [Hin|Hin].
  - destruct (entry_at_in k None es Hin) as (e' & E & ?). rewrite E in H. by injection H as ->.
  - by rewrite entry_at_notin in H.
Qed.
Lemma entry_map_dom es k : is_Some (entry_map es !! k) ↔ k ∈ e_capability <$> es.
Proof.
  split; intros H.
  - destruct H as [e [He <-]%entry_map_key]. apply list_elem_of_fmap. eauto.
  - destruct (entry_at_in k None es H) as (e & E & _). rewrite entry_map_lookup, E. eauto.
Qed.
(** With distinct capabilities the map holds exactly the entries of the list. *)
Lemma entry_map_elem es e : NoDup (e_capability <$> es) → e ∈ es → entry_map es !! e_capability e = Some e.
Proof.
  intros Hnd He. destruct (proj2 (entry_map_dom es (e_capability e))) as [e' E]; [apply list_elem_of_fmap; eauto|].
  rewrite E. f_equal. destruct (entry_map_key _ _ _ E) as [He' Hk].
  apply list_elem_of_lookup in He as [i Hi]. apply list_elem_of_lookup in He' as [j Hj].
  assert (i = j) as ->; [|congruence]. eapply (NoDup_lookup (e_capability <$> es) i j); [done| |].
  - by rewrite list_lookup_fmap, Hi.
  - rewrite list_lookup_fmap, Hj. cbn. by rewrite Hk.
Qed.

(** ** The edits of a delta *)

Lemma entry_at_app k o es es' : entry_at k o (es ++ es') = entry_at k (entry_at k o es) es'.
Proof. apply fold_left_app. Qed.
Lemma entry_at_default k o es : entry_at k o es = match entry_at k None es with Some e => Some e | None => o end.
Proof.
  destruct (base.decide (k ∈ e_capability <$> es)) as [H|H]; [|by rewrite !entry_at_notin].
  revert o. induction es as [|e es IH]; intros o; [by apply not_elem_of_nil in H|].
  change (entry_at k (if String.eqb k (e_capability e) then Some e else o) es =
          match entry_at k (if String.eqb k (e_capability e) then Some e else None) es with Some e => Some e | None => o end).
  destruct (base.decide (k ∈ e_capability <$> es)) as [Hin|Hin].
  - rewrite (IH Hin), (IH Hin (if String.eqb k (e_capability e) then Some e else None)).
    destruct (entry_at_in k None es Hin) as (e' & -> & _). done.
  - rewrite !entry_at_notin by done. rewrite fmap_cons in H. apply elem_of_cons in H as [->|]; [|done].
    by rewrite String.eqb_refl.
Qed.

Lemma remove_all_get m cs m' :
  remove_all m cs = inl m' →
  (wf_map m → wf_map m') ∧ ∀ k, mget k m' = if bool_decide (k ∈ cs) then None else mget k m.
Proof.
  revert m. induction cs as [|c cs IH]; intros m; cbn [remove_all].
  - intros [= <-]. split; [done|]. intros k. by rewrite bool_decide_eq_false_2 by apply not_elem_of_nil.
  - intros [_ [Hwf Hget]%IH]%rguard_inl. split; [intros ?; by apply Hwf, wf_mdel|]. intros k. rewrite Hget, mdel_get.
    destruct (String.eqb_spec k c) as [->|Hne].
    + rewrite (bool_decide_eq_true_2 (c ∈ c :: cs)) by left. by destruct (bool_decide _).
    + by rewrite (bool_decide_ext (k ∈ c :: cs) (k ∈ cs)) by (rewrite elem_of_cons; naive_solver).
Qed.
Lemma remove_all_ok m cs :
  NoDup cs → (∃ m', remove_all m cs = inl m') ↔ ∀ c, c ∈ cs → is_Some (mget c m).
Proof.
  intros Hnd. revert m. induction Hnd as [|c cs Hc Hnd IH]; intros m; cbn [remove_all].
  - split; [by intros _ c ?%not_elem_of_nil|eauto].
  - setoid_rewrite rguard_inl. setoid_rewrite guard_None. setoid_rewrite negb_false_iff. setoid_rewrite mhas_get.
    assert ((∃ m', remove_all (mdel c m) cs = inl m') ↔ ∀ k, k ∈ cs → is_Some (mget k m)) as E.
    { rewrite IH. apply forall_proper. intros k. rewrite mdel_get. destruct (String.eqb_spec k c) as [->|]; naive_solver. }
    split.
    + intros (m' & Hm & Hr) k Hk. apply elem_of_cons in Hk as [->|Hk]; [done|]. by apply E; [eauto|].
    + intros H. destruct (proj2 E) as [m' Hm']; [intros k Hk; apply H; by right|]. exists m'. split; [|done].
      apply H. left.
Qed.

Lemma put_all_get must m es m' :
  put_all must m es = inl m' → (wf_map m → wf_map m') ∧ ∀ k, mget k m' = entry_at k (mget k m) es.
Proof.
  revert m. induction es as [|e es IH]; intros m; cbn [put_all]; [by intros [= <-]|].
  intros [_ [Hwf Hget]%IH]%rguard_inl. split; [intros ?; by apply Hwf, wf_mset|].
  intros k. rewrite Hget, mget_mset. done.
Qed.
Lemma put_all_ok must m es :
  NoDup (e_capability <$> es) →
  (∃ m', put_all must m es = inl m') ↔ ∀ e, e ∈ es → mhas (e_capability e) m = must.
Proof.
  revert m. induction es as [|e es IH]; intros m; cbn [put_all].
  - split; [by intros _ e ?%not_elem_of_nil|eauto].
  - rewrite fmap_cons. intros [He Hnd]%list.NoDup_cons.
    setoid_rewrite rguard_inl. setoid_rewrite guard_None. setoid_rewrite negb_false_iff. setoid_rewrite eqb_true_iff.
    assert ((∃ m', put_all must (mset (e_capability e) e m) es = inl m') ↔
            ∀ x, x ∈ es → mhas (e_capability x) m = must) as E.
    { rewrite (IH _ Hnd). split; intros H x Hx; specialize (H x Hx); unfold mhas in *; rewrite mget_mset in *.
      all: destruct (String.eqb_spec (e_capability x) (e_capability e)) as [Hxe|]; [|done].
      all: destruct He; rewrite <- Hxe; apply list_elem_of_fmap; eauto. }
    split.
    + intros (m' & Hm & Hr) x Hx. apply elem_of_cons in Hx as [->|Hx]; [done|]. by apply E; [eauto|].
    + intros H. destruct (proj2 E) as [m' Hm']; [intros x Hx; apply H; by right|]. exists m'. split; [|done].
      apply H. left.
Qed.

(** The capabilities a delta touches, in the order of the checks. *)
Definition delta_caps (d : Delta) : list string :=
  (e_capability <$> dl_add d) ++ (e_capability <$> dl_replace d) ++ dl_remove d.

Lemma note_None t c : note t c = None ↔ c ≠ "" ∧ c ∉ t.
Proof.
  unfold note, mem_key. rewrite check_seq_None, !guard_None, String.eqb_neq.
  rewrite <- not_true_iff_false, existsb_exists. setoid_rewrite String.eqb_eq.
  setoid_rewrite <- list_elem_of_In. naive_solver.
Qed.

Lemma note_entries_inl t es t' :
  NoDup t →
  (note_entries t es = inl t') ↔
  t' = reverse (e_capability <$> es) ++ t ∧ NoDup t' ∧ ("" ∉ e_capability <$> es) ∧ ∀ e, e ∈ es → entry_validate e = None.
Proof.
  revert t. induction es as [|e es IH]; intros t Ht; cbn [note_entries fmap list_fmap].
  - rewrite reverse_nil. split; [intros [= <-]|by intros [-> _]]. split_and!; [done..| |]; [apply not_elem_of_nil|].
    by intros ? ?%not_elem_of_nil.
  - rewrite rguard_inl, check_seq_None, note_None, reverse_cons, <- app_assoc. cbn [app]. split.
    + intros [(Hv & Hc & Hn) H]. apply IH in H as (-> & Hnd & He & Hf); [|by apply list.NoDup_cons]. split_and!; [done..| |].
      * apply not_elem_of_cons. done.
      * intros x [->|Hx]%elem_of_cons; auto.
    + intros (-> & Hnd & He & Hf). apply not_elem_of_cons in He as [Hc He].
      pose proof Hnd as (_ & _ & [Hn _]%list.NoDup_cons)%list.NoDup_app. split; [split_and!; [apply Hf; left|congruence|done]|].
      apply IH; [by apply list.NoDup_cons|]. split_and!; [done..|]. intros x Hx. apply Hf. by right.
Qed.

Lemma note_removed_inl t cs t' :
  NoDup t → (note_removed t cs = inl t') ↔ t' = reverse cs ++ t ∧ NoDup t' ∧ "" ∉ cs.
Proof.
  revert t. induction cs as [|c cs IH]; intros t Ht; cbn [note_removed].
  - rewrite reverse_nil. split; [intros [= <-]|by intros [-> _]]. split_and!; [done..|]. apply not_elem_of_nil.
  - rewrite rguard_inl, note_None, reverse_cons, <- app_assoc. cbn [app]. split.
    + intros [(Hc & Hn) H]. apply IH in H as (-> & Hnd & He); [|by apply list.NoDup_cons]. split_and!; [done..|].
      by apply not_elem_of_cons.
    + intros (-> & Hnd & He). apply not_elem_of_cons in He as [Hc He].
      pose proof Hnd as (_ & _ & [Hn _]%list.NoDup_cons)%list.NoDup_app. split; [split; congruence|].
      apply IH; [by apply list.NoDup_cons|]. by split_and!.
Qed.

(** The touched capabilities are distinct and named, and the entries valid. *)
Record delta_ok (d : Delta) : Prop := {
  do_distinct : NoDup (delta_caps d);
  do_named : "" ∉ delta_caps d;
  do_entries : ∀ e, e ∈ dl_add d ++ dl_replace d → entry_validate e = None
}.

Lemma reverse_caps d :
  reverse (dl_remove d) ++ reverse (e_capability <$> dl_replace d) ++ reverse (e_capability <$> dl_add d) ++ [] =
  reverse (delta_caps d).
Proof. unfold delta_caps. by rewrite !reverse_app, app_nil_r, <- app_assoc. Qed.

Lemma touched_ok d : (∃ t, touched d = inl t) ↔ delta_ok d.
Proof.
  unfold touched. setoid_rewrite rbind_inl. split.
  - intros (t & t1 & H1 & (t2 & H2 & H3)%rbind_inl).
    apply note_entries_inl in H1 as (-> & N1 & E1 & V1); [|apply NoDup_nil_2].
    apply note_entries_inl in H2 as (-> & N2 & E2 & V2); [|done].
    apply note_removed_inl in H3 as (-> & N3 & E3); [|done]. rewrite reverse_caps, reverse_Permutation in N3.
    split; [done| |]; unfold delta_caps; set_solver.
  - intros [N E V]. rewrite <- (reverse_Permutation (delta_caps d)), <- reverse_caps in N. unfold delta_caps in E.
    rewrite !not_elem_of_app in E. setoid_rewrite elem_of_app in V.
    pose proof N as (_ & _ & N2)%list.NoDup_app. pose proof N2 as (_ & _ & N1)%list.NoDup_app.
    eexists. exists (reverse (e_capability <$> dl_add d) ++ []). split; [|apply rbind_inl; eexists; split].
    + apply note_entries_inl; [apply NoDup_nil_2|]. naive_solver.
    + apply note_entries_inl; [done|]. naive_solver.
    + apply note_removed_inl; [done|]. naive_solver.
Qed.

(** ** Sorted entries *)

Lemma sorted_entries_keys m : wf_map m → (∀ k e, mget k m = Some e → e_capability e = k) →
  e_capability <$> sorted_entries m = sort_Strings (mkeys m).
Proof.
  intros Hwf Hk. unfold sorted_entries.
  set (at_key := λ k, mget k m).
  assert (∀ l : list string, (∀ k, k ∈ l → k ∈ mkeys m) → e_capability <$> (omap at_key l : list Entry) = l) as H.
  { induction l as [|k l IH]; intros Hl; [done|].
    assert (is_Some (at_key k)) as [e E] by (apply mhas_get, mhas_true, Hl; left).
    change (omap at_key (k :: l)) with (match at_key k with Some y => y :: omap at_key l | None => omap at_key l end).
    rewrite E, fmap_cons, (Hk _ _ E). f_equal. apply IH. intros k' ?. apply Hl. by right. }
  apply H. intros k. unfold sort_Strings. by rewrite merge_sort_Permutation.
Qed.

Lemma sorted_entries_elem m e : e ∈ sorted_entries m ↔ ∃ k, mget k m = Some e.
Proof.
  unfold sorted_entries, sort_Strings. rewrite list_elem_of_omap. setoid_rewrite merge_sort_Permutation. split.
  - intros (k & _ & E). eauto.
  - intros [k E]. exists k. split; [|done]. apply mhas_true. by rewrite mhas_get, E.
Qed.

(** The entries in strict order of their capabilities. *)
Definition sorted_caps (es : list Entry) : Prop :=
  Sorted String.le (e_capability <$> es) ∧ NoDup (e_capability <$> es).

Lemma sorted_entries_map m : wf_map m → (∀ k e, mget k m = Some e → e_capability e = k) →
  sorted_caps (sorted_entries m) ∧ ∀ k, entry_map (sorted_entries m) !! k = mget k m.
Proof.
  intros Hwf Hk. pose proof (sorted_entries_keys m Hwf Hk) as Hs.
  assert (sorted_caps (sorted_entries m)) as Hc.
  { unfold sorted_caps. rewrite Hs. unfold sort_Strings. split; [apply (Sorted_merge_sort _)|].
    by rewrite merge_sort_Permutation. }
  split; [done|]. intros k. destruct (mget k m) as [e|] eqn:E.
  - rewrite <- (Hk _ _ E). apply entry_map_elem; [apply Hc|]. apply sorted_entries_elem. eauto.
  - destruct (entry_map (sorted_entries m) !! k) as [e|] eqn:E'; [|done].
    apply entry_map_key in E' as [(k' & E')%sorted_entries_elem Hke]. apply Hk in E' as Hke'. congruence.
Qed.

(** Sorted entries are determined by their map. *)
Lemma sorted_caps_unique es es' :
  sorted_caps es → sorted_caps es' → entry_map es = entry_map es' → es = es'.
Proof.
  intros [S N] [S' N'] Hm.
  assert (∀ e, e ∈ es ↔ e ∈ es') as He.
  { intros e. split; intros H; [pose proof (entry_map_elem es e N H) as E|pose proof (entry_map_elem es' e N' H) as E].
    all: [> rewrite Hm in E | rewrite <- Hm in E]; by apply entry_map_key in E as [? _]. }
  apply (keyed_perm_eq e_capability).
  - done.
  - apply NoDup_Permutation; [by apply NoDup_fmap_1 in N|by apply NoDup_fmap_1 in N'|done].
  - apply sorted_NoDup_unique; [done..|]. intros k. rewrite !list_elem_of_fmap. naive_solver.
Qed.

(** ** What [Apply] does *)

(** The entries of the next generation: those the delta brings, and those of the
    base it does not remove. *)
Definition target_map (base : Catalog) (d : Delta) : gmap string Entry :=
  entry_map (dl_replace d ++ dl_add d) ∪ filter (λ kv, kv.1 ∉ dl_remove d) (catalog_map base).

Record applies (base : Catalog) (d : Delta) (next : Catalog) : Prop := {
  ap_delta : delta_Validate d = None;
  ap_domain : ct_domain base = dl_domain d;
  ap_catalog_id : ct_catalog_id base = dl_catalog_id d;
  ap_generation : ct_generation base = dl_base_generation d;
  ap_base : CatalogDigest base = inl (dl_base_digest d);
  ap_removed : ∀ k, k ∈ dl_remove d → is_Some (catalog_map base !! k);
  ap_replaced : ∀ e, e ∈ dl_replace d → is_Some (catalog_map base !! e_capability e);
  ap_added : ∀ e, e ∈ dl_add d → catalog_map base !! e_capability e = None;
  ap_next : ∃ es, sorted_caps es ∧ entry_map es = target_map base d ∧
    next = mkCatalog CatalogVersion (ct_domain base) (ct_catalog_id base) (dl_target_generation d) (dl_issued_at d)
             (dl_valid_until d) (dl_base_digest d) (ct_producer base) (Some es);
  ap_valid : Validate next = None;
  ap_target : CatalogDigest next = inl (dl_target_digest d)
}.

Lemma target_map_lookup base d k :
  target_map base d !! k =
  entry_at k (if bool_decide (k ∈ dl_remove d) then None else catalog_map base !! k) (dl_replace d ++ dl_add d).
Proof.
  unfold target_map. rewrite entry_at_default, lookup_union, entry_map_lookup.
  destruct (entry_at k None _) as [e|]; [by apply union_Some_l|]. rewrite (left_id_L None _).
  rewrite map_lookup_filter. destruct (catalog_map base !! k) as [e|]; cbn [mbind option_bind];
    case_bool_decide; [by rewrite option_guard_False by naive_solver|by rewrite option_guard_True|done..].
Qed.
Lemma target_map_key base d k e : target_map base d !! k = Some e → e_capability e = k.
Proof.
  unfold target_map. rewrite lookup_union_Some_raw, map_lookup_filter_Some.
  intros [E|[_ [E _]]]; by apply entry_map_key in E as [_ ?].
Qed.

Lemma edited_get base d m :
  edited base d = inl m → wf_map m ∧ ∀ k, mget k m = target_map base d !! k.
Proof.
  unfold edited. intros (m1 & [W1 G1]%remove_all_get & (m2 & [W2 G2]%put_all_get & [W3 G3]%put_all_get)%rbind_inl)%rbind_inl.
  split; [by apply W3, W2, W1, wf_existing|]. intros k.
  rewrite G3, G2, G1, target_map_lookup, entry_at_app, existing_lookup. done.
Qed.

Lemma edited_ok base d :
  delta_ok d →
  (∃ m, edited base d = inl m) ↔
  (∀ k, k ∈ dl_remove d → is_Some (catalog_map base !! k)) ∧
  (∀ e, e ∈ dl_replace d → is_Some (catalog_map base !! e_capability e)) ∧
  (∀ e, e ∈ dl_add d → catalog_map base !! e_capability e = None).
Proof.
  intros [N _ _]. unfold delta_caps in N. apply list.NoDup_app in N as (Na & Da & Nr).
  apply list.NoDup_app in Nr as (Nr & Dr & Nx). setoid_rewrite elem_of_app in Da.
  assert (∀ m1, remove_all (existing_of base) (dl_remove d) = inl m1 →
    ∀ e, e_capability e ∉ dl_remove d → mget (e_capability e) m1 = catalog_map base !! e_capability e) as G1.
  { intros m1 [_ G]%remove_all_get e He. by rewrite G, bool_decide_eq_false_2, existing_lookup. }
  assert (∀ m1 m2, put_all true m1 (dl_replace d) = inl m2 → ∀ e, e ∈ dl_add d →
    mget (e_capability e) m2 = mget (e_capability e) m1) as G2.
  { intros m1 m2 [_ G]%put_all_get e He. rewrite G. apply entry_at_notin.
    intros ?. destruct (Da (e_capability e)); [apply list_elem_of_fmap|]; eauto. }
  assert (∀ m1, remove_all (existing_of base) (dl_remove d) = inl m1 →
    (∃ m2, put_all true m1 (dl_replace d) = inl m2) ↔ ∀ e, e ∈ dl_replace d → is_Some (catalog_map base !! e_capability e)) as E2.
  { intros m1 H1. rewrite put_all_ok by done. apply forall_proper. intros e. split; intros H He.
    all: specialize (H He); rewrite mhas_get, (G1 m1 H1) in *; [done|]; apply Dr, list_elem_of_fmap; eauto. }
  assert (∀ m1 m2, remove_all (existing_of base) (dl_remove d) = inl m1 → put_all true m1 (dl_replace d) = inl m2 →
    (∃ m3, put_all false m2 (dl_add d) = inl m3) ↔ ∀ e, e ∈ dl_add d → catalog_map base !! e_capability e = None) as E3.
  { intros m1 m2 H1 H2. rewrite put_all_ok by done. apply forall_proper. intros e.
    assert (e ∈ dl_add d → mget (e_capability e) m2 = catalog_map base !! e_capability e) as G.
    { intros He. rewrite (G2 m1 m2 H2 e He). apply (G1 m1 H1). intros ?.
      destruct (Da (e_capability e)); [apply list_elem_of_fmap|]; eauto. }
    unfold mhas. split; intros H He; specialize (H He); specialize (G He); rewrite G in *;
      by destruct (catalog_map base !! e_capability e). }
  assert ((∃ m1, remove_all (existing_of base) (dl_remove d) = inl m1) ↔
    ∀ k, k ∈ dl_remove d → is_Some (catalog_map base !! k)) as E1.
  { rewrite remove_all_ok by done. by setoid_rewrite existing_lookup. }
  unfold edited. split.
  - intros (m & (m1 & H1 & (m2 & H2 & H3)%rbind_inl)%rbind_inl). split_and!.
    + apply E1. eauto.
    + apply (E2 m1); eauto.
    + apply (E3 m1 m2); eauto.
  - intros ([m1 H1]%E1 & [m2 H2]%(E2 m1 H1) & [m3 H3]%(E3 m1 m2 H1 H2)). exists m3. rewrite H1. cbn [rbind]. by rewrite H2.
Qed.

Lemma delta_Validate_ok d : delta_Validate d = None → delta_ok d.
Proof.
  unfold delta_Validate. rewrite !check_seq_None. intros H. apply touched_ok.
  destruct (touched d) as [t|e]; [eauto|]. by destruct_and! H.
Qed.

Lemma next_entries base d m :
  edited base d = inl m → sorted_caps (sorted_entries m) ∧ entry_map (sorted_entries m) = target_map base d.
Proof.
  intros [Hwf Hget]%edited_get.
  destruct (sorted_entries_map m Hwf) as [Hs Hm].
  { intros k e. rewrite Hget. apply target_map_key. }
  split; [done|]. apply map_eq. intros k. by rewrite Hm, Hget.
Qed.

Lemma Apply_inl base d next : Apply base d = inl next → applies base d next.
Proof.
  unfold Apply. intros [Hd H]%rguard_inl. destruct (CatalogDigest base) as [bd|] eqn:Hb; [|done].
  apply rguard_inl in H as [Hg (m & Hm & [Hv H]%rguard_inl)%rbind_inl].
  rewrite !check_seq_None, !guard_None in Hg. destruct Hg as (Hi & Hgen & Hbd). go_bool. apply Z.eqb_eq in Hgen. subst bd.
  destruct (CatalogDigest (next_catalog _ _ _ _)) as [nd|] eqn:Hn; [|done].
  apply rguard_inl in H as [Ht [= <-]]. rewrite guard_None in Ht. go_bool. subst nd.
  destruct (proj1 (edited_ok base d (delta_Validate_ok d Hd))) as (Hr & Hp & Ha); [eauto|].
  split; try done. exists (sorted_entries m). destruct (next_entries base d m Hm) as [Hs He].
  by split_and!.
Qed.

Lemma Apply_complete base d next : applies base d next → Apply base d = inl next.
Proof.
  intros [Hd Hdo Hc Hgen Hb Hr Hp Ha (es & Hs & He & Hnext) Hv Ht].
  destruct (proj2 (edited_ok base d (delta_Validate_ok d Hd))) as [m Hm]; [done|].
  destruct (next_entries base d m Hm) as [Hs' He'].
  assert (es = sorted_entries m) as -> by (apply sorted_caps_unique; congruence).
  unfold Apply. rewrite Hd, Hb, Hdo, Hc, Hgen, !String.eqb_refl, Z.eqb_refl, Hm.
  cbn [rguard rbind guard check_seq negb orb]. fold (next_catalog base d (dl_base_digest d) m) in Hnext.
  rewrite <- Hnext, Hv, Ht, String.eqb_refl. done.
Qed.

(** C14: [Apply] succeeds exactly when the delta is valid and names this base by
    domain, identity, generation and digest, removes and replaces only present
    capabilities and adds only absent ones; the result is then the next
    generation of the same producer that names the base as its predecessor and
    whose entries, in the order of their capabilities, are the map of the base
    updated by the delta, provided that catalog is valid and has the target
    digest. *)
Theorem Apply_exact base d next : Apply base d = inl next ↔ applies base d next.
Proof. split; [apply Apply_inl|apply Apply_complete]. Qed.

(** *** The order in which a delta is written *)

Record reordered (d d' : Delta) : Prop := {
  ro_header : d' = mkDelta (dl_version d) (dl_domain d) (dl_catalog_id d) (dl_base_generation d) (dl_target_generation d)
    (dl_base_digest d) (dl_target_digest d) (dl_issued_at d) (dl_valid_until d) (dl_producer d)
    (dl_add d') (dl_replace d') (dl_remove d');
  ro_add : dl_add d ≡ₚ dl_add d'; ro_replace : dl_replace d ≡ₚ dl_replace d'; ro_remove : dl_remove d ≡ₚ dl_remove d'
}.

Lemma reordered_caps d d' : reordered d d' → delta_caps d ≡ₚ delta_caps d'.
Proof. intros [_ Ha Hp Hr]. unfold delta_caps. by rewrite Ha, Hp, Hr. Qed.

Lemma reordered_ok d d' : reordered d d' → delta_ok d → delta_ok d'.
Proof.
  intros H [N E V]. pose proof (reordered_caps d d' H) as Hc. destruct H as [_ Ha Hp Hr]. split.
  - by rewrite <- Hc.
  - by rewrite <- Hc.
  - intros e. rewrite <- Ha, <- Hp. apply V.
Qed.

Lemma reordered_Validate d d' : reordered d d' → delta_Validate d = None → delta_Validate d' = None.
Proof.
  intros H Hd. pose proof (proj2 (touched_ok d') (reordered_ok d d' H (delta_Validate_ok d Hd))) as [t Ht].
  destruct H as [Hh Ha Hp Hr]. revert Hd. unfold delta_Validate. rewrite Ht, !check_seq_None.
  rewrite Hh. cbn [dl_version dl_domain dl_catalog_id dl_base_generation dl_target_generation dl_base_digest
    dl_target_digest dl_issued_at dl_valid_until dl_producer dl_add dl_replace dl_remove].
  rewrite <- Ha, <- Hp, <- Hr. naive_solver.
Qed.

Lemma put_perm_at k es es' : NoDup (e_capability <$> es) → es ≡ₚ es' → entry_map es !! k = entry_map es' !! k.
Proof.
  intros N Hp. assert (NoDup (e_capability <$> es')) as N' by (by rewrite <- Hp).
  destruct (entry_map es !! k) as [e|] eqn:E.
  - apply entry_map_key in E as [He <-]. rewrite Hp in He. symmetry. by apply entry_map_elem.
  - destruct (entry_map es' !! k) as [e|] eqn:E'; [|done]. apply entry_map_key in E' as [He <-].
    rewrite <- Hp in He. by rewrite (entry_map_elem es e N He) in E.
Qed.

Lemma reordered_target base d d' : reordered d d' → delta_ok d → target_map base d = target_map base d'.
Proof.
  intros [_ Ha Hp Hr] [N _ _]. unfold target_map. f_equal.
  - apply map_eq. intros k. apply put_perm_at; [|by rewrite Ha, Hp].
    unfold delta_caps in N. rewrite app_assoc in N. apply list.NoDup_app in N as [N _].
    by rewrite fmap_app, (Permutation_app_comm (e_capability <$> dl_replace d)).
  - apply map_filter_strong_ext. intros k e. cbn [fst]. by rewrite Hr.
Qed.

Lemma reordered_applies base d d' next : reordered d d' → applies base d next → applies base d' next.
Proof.
  intros H [Hd Hdo Hc Hgen Hb Hr Hp Ha (es & Hs & He & Hnext) Hv Ht].
  pose proof (reordered_target base d d' H (delta_Validate_ok d Hd)) as Htm.
  pose proof (reordered_Validate d d' H Hd) as Hd'. destruct H as [Hh Ea Ep Er].
  split; try done; try (by rewrite Hh).
  - intros k. rewrite <- Er. apply Hr.
  - intros e. rewrite <- Ep. apply Hp.
  - intros e. rewrite <- Ea. apply Ha.
  - exists es. rewrite <- Htm. split_and!; [done..|]. by rewrite Hh.
Qed.

(** The catalog a delta produces does not depend on the order in which its
    entries and removals are written. *)
Lemma Apply_order base d d' next : reordered d d' → Apply base d = inl next → Apply base d' = inl next.
Proof. intros H Ha%Apply_inl. by apply Apply_complete, (reordered_applies base d). Qed.

(** The digest of a generation above 2^53 does not tell it from its neighbour. *)
Definition at_generation (g : Z) : Catalog :=
  mkCatalog CatalogVersion "acme.example" "pay" g "2026-01-01T00:00:00Z" "2026-02-01T00:00:00Z" first_digest
    "principal:acme" (Some [pay_entry "transfer" 50]).
Lemma generation_rounded_digest :
  Validate (at_generation (2 ^ 53)) = None ∧ Validate (at_generation (2 ^ 53 + 1)) = None ∧
  CatalogDigest (at_generation (2 ^ 53)) = CatalogDigest (at_generation (2 ^ 53 + 1)) ∧
  ∃ digest, CatalogDigest (at_generation (2 ^ 53)) = inl digest.
Proof.
  split; [vm_compute; reflexivity|]. split; [vm_compute; reflexivity|]. split; [vm_compute; reflexivity|].
  exists (digest_or_empty (CatalogDigest (at_generation (2 ^ 53)))). vm_compute. reflexivity.
Qed.

(** The sample delta leads from the first generation to the second. *)
Lemma pay_delta_applies : Apply first_catalog pay_delta = inl second_catalog.
Proof. vm_compute. reflexivity. Qed.
