(* ===== verification/CatalogHistory.v ===== *)
(** * The history of an accepted catalog

    Every registry state reachable through [Accept] and [AcceptDelta]
    (catalog/policy.go) records one digest for each generation from 1 to its head,
    each the digest of a valid catalog that names its predecessor; the record only
    grows, and the identity of the catalog never changes. *)

From stdpp Require Import relations.
From S2P Require Import Prelude GoStrings Regex GoFloat GoTime Json Canonical Ids Values Bounds.
From S2P Require Import JsonText JsonStruct Grants Sha256 Domains SchemeArtifacts SchemeState.
From S2P Require Import SchemeConfirm.
From S2P Require Import Catalog CatalogTrust CatalogExchange CatalogProofs.

(** ** One transition *)

(** What [advance] checks and returns. *)
Record advanced (s : RegistryState) (c : Catalog) (res : Result) (digest : string) (s' : RegistryState) : Prop := {
  ad_valid : Validate c = None;
  ad_identity : same_identity s c = None;
  ad_digest : CatalogDigest c = inl digest;
  ad_binds : rs_catalog_digest res = digest ∧ rs_generation res = ct_generation c ∧ rs_producer res = ct_producer c;
  ad_generation : checkGeneration c s digest = None;
  ad_state :
    (s' = s ∧ rg_generation s ≠ 0 ∧ ct_generation c = rg_generation s ∧ digest = rg_digest s) ∨
    (s' = mkRegistry (ct_domain c) (ct_catalog_id c) (ct_producer c) (ct_generation c) digest
            (next_records s (ct_generation c) digest) ∧
     ct_generation c = wrap64 (rg_generation s + 1) ∧ rg_generation s < ct_generation c ∧
     (rg_generation s ≠ 0 → ct_previous_digest c = rg_digest s) ∧
     (rg_generation s = 0 → rg_history s = [] ∧ rg_digest s = ""))
}.

Lemma catalog_advance_inl s c res s' : advance s c res = inl s' → ∃ digest, advanced s c res digest s'.
Proof.
  unfold advance. rewrite rguard_inl, check_seq_None.
  intros [[Hv Hi] (digest & Hd & [Hb H]%rguard_inl)%rbind_inl]. exists digest.
  apply guard_None, orb_false_iff in Hb as [[Hbd Hgen]%orb_false_iff Hbp]. go_bool. apply Z.eqb_eq in Hgen.
  destruct (Z.eqb_spec (rg_generation s) 0) as [H0|H0].
  { apply rguard_inl in H as [Hg [= <-]]. rewrite !check_seq_None, !guard_None in Hg. destruct Hg as ([Hh He]%orb_false_iff & H1 & _).
    go_bool. apply Nat.eqb_eq, length_zero_iff_nil in Hh. apply Z.eqb_eq in H1.
    split; try done.
    - unfold checkGeneration. rewrite Hi, H0, H1. done.
    - right. rewrite H0, H1. split_and!; [done..|]. done. }
  destruct (Z.ltb_spec (ct_generation c) (rg_generation s)) as [Hlt|Hge]; [done|].
  destruct (Z.eqb_spec (ct_generation c) (rg_generation s)) as [He|Hne].
  { apply rguard_inl in H as [Hg [= <-]]. rewrite guard_None in Hg. go_bool. split; try done; [|by left].
    unfold checkGeneration, forks, digestAt. rewrite Hi, He, Hg, Z.eqb_refl, String.eqb_refl.
    rewrite (proj2 (Z.eqb_neq _ _) H0), Z.ltb_irrefl, andb_false_r. done. }
  apply rguard_inl in H as [Hg [= <-]]. rewrite !check_seq_None, !guard_None in Hg. destruct Hg as (Hn & Hp & Hf).
  go_bool. apply Z.eqb_eq in Hn. split; try done.
  - unfold checkGeneration. rewrite Hi, Hf, (proj2 (Z.eqb_neq _ _) H0), (proj2 (Z.eqb_neq _ _) Hne), Hp, String.eqb_refl.
    rewrite (proj2 (Z.ltb_ge _ _) Hge), <- Hn, Z.eqb_refl. done.
  - right. split_and!; try done. lia.
Qed.

(** ** The invariant *)

(** The [i]-th record of a history is the digest of a valid catalog of this
    identity and generation that names the record before it. *)
Definition linked (s : RegistryState) (h : list GenerationRecord) : Prop :=
  ∀ i r, h !! i = Some r → ∃ c,
    Validate c = None ∧ CatalogDigest c = inl (gr_digest r) ∧ ct_generation c = gr_generation r ∧
    ct_domain c = rg_domain s ∧ ct_catalog_id c = rg_catalog_id s ∧ ct_producer c = rg_producer s ∧
    ct_previous_digest c = match i with O => "" | S i' => default "" (gr_digest <$> h !! i') end.

Record catalog_inv (s : RegistryState) : Prop := {
  ci_bounds : 0 <= rg_generation s <= max_int64;
  ci_generations : gr_generation <$> rg_history s = seqZ 1 (rg_generation s);
  ci_head : list.last (rg_history s) =
    if rg_generation s =? 0 then None else Some (mkGeneration (rg_generation s) (rg_digest s));
  ci_linked : linked s (rg_history s)
}.

Lemma zero_inv : catalog_inv zero_state.
Proof. split; try done. Qed.

(** The records of a transition: the history with the new head. *)
Lemma add_records_fresh h l :
  NoDup (gr_generation <$> h ++ l) → 0 ∉ (gr_generation <$> l) → fold_left add_record l h = h ++ l.
Proof.
  revert h. induction l as [|r l IH]; intros h N Z0; [by rewrite app_nil_r|]. cbn [fold_left].
  rewrite fmap_cons in Z0. apply not_elem_of_cons in Z0 as [Hr Z0].
  assert (add_record h r = h ++ [r]) as ->.
  { unfold add_record. rewrite (proj2 (Z.eqb_neq _ _)) by congruence. cbn [orb].
    destruct (existsb _ h) eqn:E; [|done]. apply existsb_exists in E as (x & Hx & Hxr). apply Z.eqb_eq in Hxr.
    rewrite fmap_app, fmap_cons in N. apply list.NoDup_app in N as (_ & D & _).
    destruct (D (gr_generation x)); [apply list_elem_of_fmap; exists x; split; [done|by apply list_elem_of_In]|].
    rewrite Hxr. left. }
  rewrite IH; [by rewrite <- app_assoc|by rewrite <- app_assoc|done].
Qed.

Lemma sorted_generations_unique l1 l2 :
  NoDup (gr_generation <$> l1) → l1 ≡ₚ l2 → Sorted generation_le l1 → Sorted generation_le l2 → l1 = l2.
Proof.
  intros N Hp S1 S2. apply (keyed_perm_eq gr_generation); [done..|].
  assert (∀ l, Sorted generation_le l → Sorted Z.le (gr_generation <$> l)) as HS.
  { induction 1 as [|x l Hl IH Hx]; [constructor|]. rewrite fmap_cons. constructor; [done|].
    inversion Hx; subst; by constructor. }
  apply (Sorted_unique Z.le); [by apply HS..|]. by rewrite Hp.
Qed.

#[global] Instance generation_le_total : Total generation_le.
Proof. intros a b. unfold generation_le. lia. Qed.

Lemma seqZ_single m : seqZ m 1 = [m].
Proof. unfold seqZ. change (Z.to_nat 1) with 1%nat. cbn [seq fmap list_fmap]. f_equal. Qed.
Lemma seqZ_snoc n : 0 <= n → seqZ 1 (n + 1) = seqZ 1 n ++ [n + 1].
Proof. intros. rewrite seqZ_app, seqZ_single by lia. by rewrite (Z.add_comm 1). Qed.
Lemma seqZ_sorted m n : Sorted Z.le (seqZ m n).
Proof.
  unfold seqZ. generalize 0%nat as o. induction (Z.to_nat n) as [|k IH]; intros o; [constructor|].
  cbn [seq fmap list_fmap]. constructor; [apply IH|]. destruct k; constructor. lia.
Qed.
Lemma sorted_by_generation l : Sorted Z.le (gr_generation <$> l) → Sorted generation_le l.
Proof.
  intros HS. remember (gr_generation <$> l) as k eqn:Hk. revert l Hk.
  induction HS as [|x k Hs IH Hx]; intros [|r l] Hk; try done. rewrite fmap_cons in Hk. injection Hk as -> ->.
  constructor; [by apply IH|]. destruct l as [|r' l]; [constructor|]. inversion Hx; subst. by constructor.
Qed.

Lemma inv_NoDup s : catalog_inv s → NoDup (gr_generation <$> rg_history s).
Proof. intros [_ Hg _ _]. rewrite Hg. apply NoDup_seqZ. Qed.

Lemma inv_generation s g : catalog_inv s → g ∈ gr_generation <$> rg_history s ↔ 1 <= g <= rg_generation s.
Proof. intros [_ Hg _ _]. rewrite Hg, elem_of_seqZ. lia. Qed.

Lemma add_head s h r : catalog_inv s → add_record (r :: rg_history s ++ h) (mkGeneration (rg_generation s) (rg_digest s)) = r :: rg_history s ++ h.
Proof.
  intros Hi. unfold add_record. cbn [gr_generation].
  destruct (Z.eqb_spec (rg_generation s) 0) as [E|E]; [done|]. cbn [orb].
  assert (rg_generation s ∈ gr_generation <$> rg_history s) as (x & Hg & Hx)%list_elem_of_fmap.
  { apply inv_generation; [done|]. pose proof (ci_bounds s Hi). lia. }
  assert (existsb (λ y, gr_generation y =? rg_generation s) (r :: rg_history s ++ h) = true) as ->; [|done].
  apply existsb_exists. exists x. split; [|by apply Z.eqb_eq]. apply list_elem_of_In. set_solver.
Qed.

Lemma next_records_snoc s digest :
  catalog_inv s →
  next_records s (rg_generation s + 1) digest = rg_history s ++ [mkGeneration (rg_generation s + 1) digest].
Proof.
  intros Hi. pose proof (ci_bounds s Hi) as Hb. unfold next_records. set (r := mkGeneration (rg_generation s + 1) digest).
  assert (NoDup (gr_generation <$> r :: rg_history s)) as N.
  { rewrite fmap_cons. apply list.NoDup_cons. split; [|by apply inv_NoDup]. rewrite inv_generation by done. cbn. lia. }
  rewrite app_comm_cons, fold_left_app, (add_records_fresh [] (r :: rg_history s)); [|done|].
  2:{ rewrite fmap_cons, not_elem_of_cons, inv_generation by done. cbn. lia. }
  cbn [fold_left app]. rewrite <- (app_nil_r (rg_history s)), add_head, app_nil_r by done.
  apply sorted_generations_unique.
  - by rewrite merge_sort_Permutation.
  - by rewrite merge_sort_Permutation, Permutation_cons_append.
  - apply (Sorted_merge_sort _).
  - apply sorted_by_generation. rewrite fmap_app, (ci_generations s Hi).
    change (gr_generation <$> [r]) with [rg_generation s + 1].
    rewrite <- seqZ_snoc by lia. apply seqZ_sorted.
Qed.

(** A valid catalog has an identity. *)
Lemma Validate_named c : Validate c = None → ct_domain c ≠ "" ∧ ct_catalog_id c ≠ "" ∧ ct_producer c ≠ "" ∧ 1 <= ct_generation c.
Proof.
  unfold Validate. rewrite !check_seq_None, !guard_None. intros (_ & Hd & Hi & Hg & Hp & _). go_bool.
  apply Z.ltb_ge in Hg. split_and!; [intros E; rewrite E in *; discriminate..|done].
Qed.
Lemma Validate_first c : Validate c = None → ct_generation c = 1 → ct_previous_digest c = "".
Proof.
  unfold Validate. rewrite !check_seq_None. intros (_ & _ & _ & _ & _ & _ & H & _) E. rewrite E in H.
  cbn in H. apply guard_None in H. by go_bool.
Qed.

Lemma same_identity_eq s c :
  catalog_inv s → rg_generation s ≠ 0 → same_identity s c = None →
  ct_domain c = rg_domain s ∧ ct_catalog_id c = rg_catalog_id s ∧ ct_producer c = rg_producer s.
Proof.
  intros Hi H0. assert (∃ c0, Validate c0 = None ∧ ct_domain c0 = rg_domain s ∧ ct_catalog_id c0 = rg_catalog_id s ∧
    ct_producer c0 = rg_producer s) as (c0 & (Nd & Ni & Np & _)%Validate_named & Hd & Hc & Hp).
  { pose proof (ci_head s Hi) as Hh. rewrite (proj2 (Z.eqb_neq _ _) H0), last_lookup in Hh.
    destruct (ci_linked s Hi _ _ Hh) as (c0 & ? & _ & _ & ? & ? & ? & _). eauto. }
  rewrite Hd in Nd. rewrite Hc in Ni. rewrite Hp in Np.
  unfold same_identity. rewrite !check_seq_None, !guard_None.
  rewrite (proj2 (String.eqb_neq _ _) Nd), (proj2 (String.eqb_neq _ _) Ni), (proj2 (String.eqb_neq _ _) Np).
  cbn [negb andb]. intros (?&?&?). go_bool. done.
Qed.

(** What a transition does to the record. *)
Record grows (s s' : RegistryState) : Prop := {
  gw_history : rg_history s `prefix_of` rg_history s';
  gw_identity : rg_generation s ≠ 0 →
    rg_domain s' = rg_domain s ∧ rg_catalog_id s' = rg_catalog_id s ∧ rg_producer s' = rg_producer s
}.

Lemma linked_identity s s' h :
  rg_domain s' = rg_domain s → rg_catalog_id s' = rg_catalog_id s → rg_producer s' = rg_producer s →
  linked s h → linked s' h.
Proof. intros Hd Hi Hp H i r Hr. rewrite Hd, Hi, Hp. by apply H. Qed.

Lemma advanced_inv s c res digest s' :
  advanced s c res digest s' → catalog_inv s → catalog_inv s' ∧ grows s s'.
Proof.
  intros [Hv Hid Hd _ _ [[-> _]|(-> & Hw & Hlt & Hprev & Hfirst)]] Hi; [by split; [|split]|].
  pose proof (ci_bounds s Hi) as Hb. pose proof (Validate_named c Hv) as (_ & _ & _ & H1).
  assert (rg_generation s < max_int64) as Hmax.
  { destruct (base.decide (rg_generation s = max_int64)) as [E|]; [|lia]. rewrite E in Hw.
    change (wrap64 (max_int64 + 1)) with min_int64 in Hw. unfold min_int64 in Hw. lia. }
  rewrite wrap64_id in Hw by (unfold min_int64, max_int64 in *; lia).
  assert (rg_generation s ≠ 0 → ct_domain c = rg_domain s ∧ ct_catalog_id c = rg_catalog_id s ∧
    ct_producer c = rg_producer s) as Hsame by (intros ?; by apply same_identity_eq).
  rewrite Hw, next_records_snoc by done. split; [|by split; [apply prefix_app_r|]].
  split; cbn [rg_generation rg_history rg_digest].
  - lia.
  - by rewrite fmap_app, (ci_generations s Hi), seqZ_snoc by lia.
  - rewrite last_snoc, (proj2 (Z.eqb_neq _ _)) by lia. done.
  - intros i r. destruct (base.decide (i < length (rg_history s))%nat) as [Hi'|Hi'].
    + rewrite lookup_app_l by done. intros Hr.
      assert (rg_generation s ≠ 0) as H0.
      { intros E. destruct (Hfirst E) as [E' _]. rewrite E' in Hi'. cbn in Hi'. lia. }
      destruct (Hsame H0) as (Ed & Ei & Ep). destruct (ci_linked s Hi i r Hr) as (c0 & ? & ? & ? & ? & ? & ? & Hpd).
      exists c0. cbn [rg_domain rg_catalog_id rg_producer]. split_and!; [done|done|done|congruence..|]. rewrite Hpd.
      destruct i; [done|]. by rewrite lookup_app_l by lia.
    + intros [Hr|[Hle Hr]]%lookup_app_Some; [by apply lookup_lt_Some in Hr|].
      apply list_lookup_singleton_Some in Hr as [Hi0 <-]. cbn [gr_digest gr_generation].
      exists c. split_and!; try done. destruct (base.decide (rg_generation s = 0)) as [E|E].
      * destruct (Hfirst E) as [E' _]. rewrite E' in *. cbn in Hi0. assert (i = 0%nat) as -> by lia.
        apply Validate_first; [done|]. lia.
      * pose proof (ci_head s Hi) as Hh. rewrite (proj2 (Z.eqb_neq _ _) E), last_lookup in Hh.
        pose proof (lookup_lt_Some _ _ _ Hh). destruct i as [|i]; [lia|].
        replace (pred (length (rg_history s))) with i in Hh by lia.
        rewrite lookup_app_l, Hh by (by apply lookup_lt_Some in Hh). by apply Hprev.
Qed.

(** ** Reachable states *)

(** Accepting a signed catalog, or the catalog a signed delta produced. *)
Inductive installs : RegistryState → RegistryState → Prop :=
  | installs_signed s c res s' : Accept s c res = inl s' → installs s s'
  | installs_delta s base c res s' : AcceptDelta s base c res = inl s' → installs s s'.

Lemma catalog_Accept_inl s c res s' : Accept s c res = inl s' →
  rs_signature_verified res = true ∧ rs_verdict res = VerdictAccept ∧ ∃ digest, advanced s c res digest s'.
Proof.
  unfold Accept. intros [Hg H%catalog_advance_inl]%rguard_inl. apply guard_None in Hg. by go_bool.
Qed.
Lemma AcceptDelta_inl s base c res s' : AcceptDelta s base c res = inl s' →
  rs_delta_verified res = true ∧ rs_verdict res = VerdictAccept ∧
  CatalogDigest base = inl (rg_digest s) ∧ ct_generation base = rg_generation s ∧ rg_generation s ≠ 0 ∧
  ∃ digest, advanced s c res digest s'.
Proof.
  unfold AcceptDelta. intros [Hg (bd & Hb & [Hh H%catalog_advance_inl]%rguard_inl)%rbind_inl]%rguard_inl.
  apply guard_None in Hg, Hh. apply orb_false_iff in Hh as [[H0 Hgen]%orb_false_iff Hd]. go_bool.
  apply Z.eqb_neq in H0. apply Z.eqb_eq in Hgen. subst bd. done.
Qed.

Lemma installs_inv s s' : installs s s' → catalog_inv s → catalog_inv s' ∧ grows s s'.
Proof.
  intros [????(_ & _ & digest & H)%catalog_Accept_inl|?????(_ & _ & _ & _ & _ & digest & H)%AcceptDelta_inl] Hi; by eapply advanced_inv.
Qed.

Lemma installs_reachable s s' : rtc installs s s' → catalog_inv s → catalog_inv s' ∧ grows s s'.
Proof.
  induction 1 as [s|s s1 s' H1 _ IH]; intros Hi; [by split; [|split]|].
  destruct (installs_inv s s1 H1 Hi) as [Hi1 [P1 I1]]. destruct (IH Hi1) as [Hi' [P2 I2]].
  split; [done|]. split; [by etrans|]. intros H0. assert (rg_generation s1 ≠ 0) as H1'.
  { intros E. pose proof (ci_generations s1 Hi1) as E1. rewrite E in E1. apply fmap_nil_inv in E1. rewrite E1 in P1.
    apply prefix_nil_inv in P1. pose proof (ci_head s Hi) as Eh. rewrite P1, (proj2 (Z.eqb_neq _ _) H0) in Eh. done. }
  destruct (I1 H0) as (?&?&?), (I2 H1') as (?&?&?). split_and!; congruence.
Qed.

(** C12: Every state reachable by accepting catalogs and deltas records exactly the
    generations 1 to its head, one digest each, and each digest is that of a valid
    catalog of the same domain, identity and producer whose previous_digest is the
    digest recorded before it (none for the first); states reached later only
    extend the record and keep the identity, so there is no rollback and no
    fork. *)
Theorem catalog_history_chain s s' :
  rtc installs zero_state s → rtc installs s s' → catalog_inv s ∧ catalog_inv s' ∧ grows s s'.
Proof.
  intros H1 H2. destruct (installs_reachable _ _ H1 zero_inv) as [Hi _].
  destruct (installs_reachable _ _ H2 Hi) as [Hi' Hg]. done.
Qed.

Lemma catalog_history_chain_witness :
  rg_history second_state = [mkGeneration 1 first_digest; mkGeneration 2 second_digest] ∧
  catalog_inv second_state ∧ grows first_state second_state.
Proof.
  split; [reflexivity|]. apply (catalog_history_chain first_state second_state).
  - apply rtc_once. exact (installs_signed _ _ _ _ first_accepted).
  - apply rtc_once. exact (installs_delta _ _ _ _ _ second_accepted).
Defined.
