(* ===== verification/CatalogAdmission.v ===== *)
(** * What an admitted catalog satisfies

    The guarantees of [VerifySigned], of the trust rotation and of
    [DirectoryBundle.Apply]: the catalog a deployer installs was checked as a whole
    against its policy, its state and the certificate of its signer, whichever way
    it arrived. *)

From stdpp Require Import relations.
From S2P Require Import Prelude GoStrings Regex GoFloat GoTime Json Canonical Ids Values Bounds.
From S2P Require Import JsonText JsonStruct Grants Constraints Authorize Containment Sha256.
From S2P Require Import Domains DomainsProofs.
From S2P Require Import SchemeArtifacts SchemeState SchemeConfirm SchemeConfirmProofs.
From S2P Require Import Catalog CatalogTrust CatalogExchange CatalogProofs.
From S2P Require Import CatalogHistory.

Section admission.
Context (lower_table : Z → Z) {Cert : Type} (pki : PKI Cert) (extensions : Cert → list (string * string)) (OIDAIC : string).
#[local] Abbreviation VerifySigned := (VerifySigned lower_table pki extensions OIDAIC).
#[local] Abbreviation VerifySignedDelta := (VerifySignedDelta lower_table pki extensions OIDAIC).
#[local] Abbreviation VerifySignedDeltaWithState := (VerifySignedDeltaWithState lower_table pki extensions OIDAIC).
#[local] Abbreviation bundle_Apply := (bundle_Apply lower_table pki extensions OIDAIC).
#[local] Abbreviation decide := (decide lower_table pki).

(** ** The signer *)

(** The certificate chains to the roots now, its identity is valid, names the
  producer and is bound to the certificate key. *)
Record signer_ok (producer : string) (cert : Cert) (roots : list (option Cert)) (now : Time) (aic : Identity) : Prop := {
so_chain : ct_verify pki cert (omap id roots) now = true;
so_usage : ct_key_usage pki cert = 0 ∨ Z.testbit (ct_key_usage pki cert) 0 = true;
so_aic : ParseAIC pki cert = Some (Some aic);
so_valid : ValidateAIC pki aic = true;
so_names : names_principal (TrimPrefix producer "principal:") (id_principal aic) = true;
so_key : pu_key_hash (id_principal aic) = Sum256 (ct_spki pki cert)
}.

Lemma verifySigner_inl producer cert roots now aic :
verifySigner pki producer cert roots now = inl aic → ∃ c, cert = Some c ∧ signer_ok producer c roots now aic.
Proof using Type.
unfold verifySigner. intros [Hc H]%rguard_inl. destruct cert as [cert|]; [|done]. exists cert. split; [done|].
cbn [verifyChain] in Hc. rewrite !check_seq_None, !guard_None in Hc. destruct Hc as (_ & Hu & Hv).
destruct (ParseAIC pki cert) as [[a|]|] eqn:Ha; try done. cbn zeta in H.
destruct (ValidateAIC pki a) eqn:Hva; [|done]. destruct (names_principal _ _) eqn:Hn; [|done]. cbn [negb] in H.
destruct (_ || _); [done|]. destruct (bool_decide _) eqn:Hk; [|done]. injection H as <-. go_bool.
split; try done. apply andb_false_iff in Hu as [Hu|Hu].
- left. by apply negb_false_iff, Z.eqb_eq in Hu.
- right. apply Z.eqb_neq in Hu. destruct (Z.testbit (ct_key_usage pki cert) 0) eqn:E; [done|]. destruct Hu.
  change 1 with (Z.ones 1). rewrite Z.land_ones, Z.pow_1_r by done. rewrite <- Z.bit0_mod, E. done.
Qed.

(** ** The decision *)

(** The published operations are inside the grants of the identity. *)
Definition within_authority (p : TrustPolicy) (aic : Identity) (c : Catalog) : Prop :=
∀ e op, e ∈ Entries c → op ∈ Operations e →
  ∃ cap g, cap ∈ id_capabilities aic ∧ coversGrantID (ac_full_id cap) (e_capability e) = true ∧
    grantFromAICCapability cap = Some g ∧
    let dm := domains p (e_scheme e) (entry_capability e) in
    ContainsWithDomains lower_table g (op_grant op (e_capability e)) dm dm = None.

Lemma checkAuthority_None p aic c :
checkAuthority lower_table (Entries c) p aic = None → within_authority p aic c.
Proof using Type.
intros H e op He Hop. unfold checkAuthority in H. rewrite check_all_None in H. specialize (H e He).
unfold check_entry_authority in H. rewrite check_seq_None, check_all_None in H. destruct H as [_ H].
specialize (H op Hop). apply guard_None in H. go_bool. unfold op_covered in H. apply existsb_exists in H as (g & Hg & Hc).
apply list_elem_of_In in Hg. go_bool. unfold catalog_grantsFor, grantsFor in Hg.
apply list_elem_of_omap in Hg as (cap & Hcap & Hg). destruct (coversGrantID _ _) eqn:Hcov; [|done]. cbn [negb] in Hg.
by exists cap, g.
Qed.

(** Each entry pins the declaration the policy holds for its scheme. *)
Definition pinned (p : TrustPolicy) (e : Entry) : Prop :=
∃ raw decl, mget (e_scheme e) (entries (tp_schemes p)) = Some raw ∧ ParseDeclaration raw = inl decl ∧
  e_declaration_digest e = DigestOfDeclaration raw.

Lemma checkDeclarationPins_None p es : checkDeclarationPins es p = None → ∀ e, e ∈ es → pinned p e.
Proof using Type.
unfold checkDeclarationPins. rewrite check_all_None. intros H e He. specialize (H e He). unfold check_pin, declaration in H.
destruct (mget (e_scheme e) _) as [raw|] eqn:Em; [|done]. destruct (ParseDeclaration raw) as [decl|] eqn:Ed; [|done].
cbn zeta in H. destruct (String.eqb _ ""); [done|]. apply guard_None in H. go_bool. by exists raw, decl.
Qed.

(** The window: issued not after now (with the tolerated skew), not expired, and
  not older than the policy allows. *)
Definition fresh (p : TrustPolicy) (c : Catalog) (now : Time) : Prop :=
∃ issued until, parseTime (ct_issued_at c) = Some issued ∧ parseTime (ct_valid_until c) = Some until ∧
  issued < until ∧ issued <= now + clockSkew ∧ now <= until ∧
  (0 < tp_max_staleness p → Sub now issued <= seconds (tp_max_staleness p)).

Lemma checkFreshness_None p c now :
parseTime (tp_observed_at p) = Some now → checkFreshness c p = None → fresh p c now.
Proof using Type.
unfold checkFreshness. intros ->. destruct (parseTime (ct_valid_until c)) as [until|] eqn:Eu; [|done].
destruct (parseTime (ct_issued_at c)) as [issued|] eqn:Ei; [|done].
unfold too_old, After. rewrite !check_seq_None, !guard_None. intros (H1 & H2 & H3 & H4). go_bool.
exists issued, until. split_and!; [done..| | | |].
- by apply Z.ltb_lt.
- by apply Z.ltb_ge.
- by apply Z.ltb_ge.
- intros Hs. apply Z.ltb_lt in Hs. rewrite Hs in H4. by apply Z.ltb_ge.
Qed.

(** Required health: every entry has a status that is not in the future, not too
  old, and resolves to "healthy". *)
Definition healthy (p : TrustPolicy) (c : Catalog) (now : Time) : Prop :=
∀ e, e ∈ Entries c →
  match e_status e with
  | None => tp_require_status p = false
  | Some s => ∃ checked, parseTime (ss_checked_at s) = Some checked ∧ checked <= now ∧
      (0 < tp_max_status_staleness p → Sub now checked <= seconds (tp_max_status_staleness p)) ∧
      (tp_require_status p = true → health p (ss_reference s) = inl (Some "healthy"))
  end.

Lemma checkStatus_None p c now :
parseTime (tp_observed_at p) = Some now → checkStatus c p = None → healthy p c now.
Proof using Type.
unfold checkStatus. intros ->. rewrite check_all_None. intros H e He. specialize (H e He). unfold check_status in H.
destruct (e_status e) as [s|]; [|by apply guard_None in H]. destruct (parseTime (ss_checked_at s)) as [checked|]; [|done].
unfold After in H. rewrite !check_seq_None, !guard_None in H. destruct H as (H1 & H2 & H3).
exists checked. split_and!; [done|by apply Z.ltb_ge| |].
- intros Hs. apply Z.ltb_lt in Hs. rewrite Hs in H2. by apply Z.ltb_ge.
- intros Hr. rewrite Hr in H3. unfold check_health in H3. destruct (health p _) as [[v|]|]; [|done..].
  apply guard_None in H3. go_bool. by subst v.
Qed.

(** A bound provider is bound to the producer. *)
Definition attributed (p : TrustPolicy) (c : Catalog) : Prop :=
tp_provider_bindings p ≠ [] → ∀ e, e ∈ Entries c → mget (e_provider e) (tp_provider_bindings p) = Some (ct_producer c).

Lemma checkProviderBindings_None p c : checkProviderBindings c p = None → attributed p c.
Proof using Type.
unfold checkProviderBindings, attributed. destruct (tp_provider_bindings p) as [|b bs]; [done|]. cbn [length Nat.eqb].
rewrite check_all_None. intros H _ e He. specialize (H e He). destruct (mget (e_provider e) _) as [q|]; [|done].
apply guard_None in H. go_bool. by subst q.
Qed.

(** The catalog is the first one, the head again, or the successor of the head. *)
Definition continues (s : RegistryState) (c : Catalog) (digest : string) : Prop :=
(rg_generation s = 0 ∧ ct_generation c = 1) ∨
(ct_generation c = rg_generation s ∧ digest = rg_digest s) ∨
(ct_generation c = wrap64 (rg_generation s + 1) ∧ ct_previous_digest c = rg_digest s ∧ rg_generation s < ct_generation c).

Lemma checkGeneration_None c s digest :
checkGeneration c s digest = None → same_identity s c = None ∧ continues s c digest.
Proof using Type.
unfold checkGeneration. intros [Hi H]%check_seq_None. split; [done|].
destruct (Z.eqb_spec (rg_generation s) 0) as [H0|H0].
- left. apply guard_None in H. go_bool. apply Z.eqb_eq in H. done.
- right. rewrite !check_seq_None, !guard_None in H. destruct H as (_ & Hge & H). apply Z.ltb_ge in Hge.
  destruct (Z.eqb_spec (ct_generation c) (rg_generation s)) as [E|E].
  + left. apply guard_None in H. go_bool. by subst.
  + right. rewrite check_seq_None, !guard_None in H. destruct H as [Hn Hp]. go_bool. apply Z.eqb_eq in Hn.
    split_and!; [done..|lia].
Qed.

(** ** Admitted catalogs *)

Record admitted (p : TrustPolicy) (s : RegistryState) (roots : list (option Cert)) (c : Catalog) (digest : string)
  (cert : Cert) (aic : Identity) (now : Time) : Prop := {
am_valid : Validate c = None;
am_identity : ct_domain c = tp_domain p ∧ ct_catalog_id c = tp_catalog_id p ∧ (tp_producer p ≠ "" → ct_producer c = tp_producer p);
am_now : parseTime (tp_observed_at p) = Some now;
am_signer : signer_ok (ct_producer c) cert roots now aic;
am_pinned : ∀ e, e ∈ Entries c → pinned p e;
am_attributed : attributed p c;
am_fresh : fresh p c now;
am_healthy : healthy p c now;
am_authority : within_authority p aic c;
am_continues : same_identity s c = None ∧ continues s c digest
}.

Lemma decide_admitted c signer roots p s digest :
decide (mkVerification c signer roots p s) digest = None →
∃ cert aic now, signer = Some cert ∧ admitted p s roots c digest cert aic now.
Proof using Type.
unfold decide. cbn [vf_catalog vf_policy vf_signer vf_roots vf_state]. rewrite !check_seq_None, !guard_None.
intros (_ & Hv & Hd & Hi & Hp & H). go_bool.
destruct (parseTime (tp_observed_at p)) as [now|] eqn:Et; [|done].
destruct (verifySigner pki _ _ _ _) as [aic|] eqn:Es; [|done]. apply verifySigner_inl in Es as (cert & -> & Hs).
rewrite !check_seq_None in H. destruct H as (H1 & H2 & H3 & H4 & H5 & H6). exists cert, aic, now. split; [done|].
split; try done.
- split_and!; [done..|]. intros Hne. apply String.eqb_neq in Hne. rewrite Hne in Hp. cbn [negb andb] in Hp. by go_bool.
- by apply checkDeclarationPins_None.
- by apply checkProviderBindings_None.
- by apply checkFreshness_None.
- by apply checkStatus_None.
- by apply checkAuthority_None.
- by apply checkGeneration_None.
Qed.

Lemma VerifySigned_decide raw sig roots p s res :
VerifySigned raw sig roots p s = (res, None) →
∃ c signer, VerifyDetached pki sig raw = Some signer ∧ ParseCatalog raw = inl c ∧
  rs_catalog_digest res = digest_or_empty (CatalogDigest c) ∧ rs_signer_key res = key_of_signer pki signer ∧
  decide (mkVerification c signer roots p s) (rs_catalog_digest res) = None.
Proof using Type.
unfold VerifySigned. destruct (_ <? _); [done|]. destruct (String.eqb sig ""); [done|].
destruct (VerifyDetached pki sig raw) as [signer|]; [|done]. destruct (ParseCatalog raw) as [c|]; [|done].
unfold verify. cbn [vf_catalog].
destruct (decide _ _) eqn:Hd; [done|]. intros [= <-]. exists c, signer. done.
Qed.

(** *** Deltas *)

Lemma VerifySignedDelta_inl raw sig base roots p res next :
VerifySignedDelta raw sig base roots p = (res, inl next) →
∃ signer d, VerifyDetached pki sig raw = Some signer ∧ ParseDelta raw = inl d ∧ ValidatePolicy p = None ∧
  delta_next lower_table pki d signer base roots p = inl next ∧ rs_signer_key res = key_of_signer pki signer ∧
  CatalogDigest next = inl (rs_catalog_digest res) ∧ rs_verdict res = VerdictAccept.
Proof using Type.
unfold VerifySignedDelta. destruct (_ <? _); [done|]. destruct (VerifyDetached pki sig raw) as [signer|]; [|done].
destruct (ParseDelta raw) as [d|]; [|done]. destruct (ValidatePolicy p) eqn:Hp; [done|]. cbn zeta.
destruct (delta_next _ _ _ _ _ _ _) as [n|] eqn:Hn; [|done]. destruct (CatalogDigest n) as [digest|] eqn:Hd; [|done].
destruct (DeltaDigest d); [|done]. intros [= <- <-]. by exists signer, d.
Qed.

(** What the delta path checks is what [decide] checks of the catalog it
  produces, once the state accepts its generation. *)
Lemma delta_next_decide d signer base roots p next s digest :
ValidatePolicy p = None → delta_next lower_table pki d signer base roots p = inl next →
checkGeneration next s digest = None → decide (mkVerification next signer roots p s) digest = None.
Proof using Type.
intros Hpol (aic & Hs & (n & Ha%Apply_inl & [Hc [= ->]]%rguard_inl)%rbind_inl)%rbind_inl Hg.
unfold delta_signer in Hs. apply rguard_inl in Hs as [Hb Hs]. rewrite !check_seq_None, !guard_None in Hb. rewrite !check_seq_None in Hc.
destruct Hb as (_ & _ & Hid & Hpr & Hpp & _). destruct Hc as (C1 & C2 & C3 & C4 & C5).
apply orb_false_iff in Hid as [Hdo Hci]. go_bool.
destruct (parseTime (tp_observed_at p)) as [now|] eqn:Et; [|done].
apply rbind_inl in Hs as (aic' & Hsig & [_ [= ->]]%rguard_inl).
destruct Ha as [_ Ado Aci _ _ _ _ _ (es & _ & _ & En) Hv _].
assert (ct_domain next = dl_domain d ∧ ct_catalog_id next = dl_catalog_id d ∧ ct_producer next = dl_producer d) as (E1 & E2 & E3).
{ rewrite En. cbn [ct_domain ct_catalog_id ct_producer]. by split_and!. }
unfold decide. cbn [vf_catalog vf_policy vf_signer vf_roots vf_state].
rewrite Hpol, Hv, E1, E2, E3, Hdo, Hci, !String.eqb_refl, Hpp, Et, Hsig, C1, C2, Hg, C3, C4, C5. done.
Qed.

(** ** The guarantees *)

(** A signed catalog that is accepted was signed, over exactly these bytes, by
    a certificate that chains to the trust roots at the observed time and whose
    identity names the producer; every published operation is inside a grant of
    that identity under the pinned declaration, every entry pins that declaration,
    is attributed and healthy as the policy requires, and the catalog is fresh, of
    the policy's identity and continues the persisted generation. *)
Lemma signed_catalog_admitted raw sig roots p s res :
VerifySigned raw sig roots p s = (res, None) →
∃ c cert aic now, VerifyDetached pki sig raw = Some (Some cert) ∧ ParseCatalog raw = inl c ∧
  admitted p s roots c (rs_catalog_digest res) cert aic now.
Proof using Type.
intros (c & signer & Hv & Hp & _ & _ & (cert & aic & now & -> & H)%decide_admitted)%VerifySigned_decide.
by exists c, cert, aic, now.
Qed.

Lemma apply_delta_inl b base roots p s res next s' :
apply_delta lower_table pki extensions OIDAIC b base roots p s = inl (res, next, s') →
∃ signer d digest, VerifyDetached pki (bd_delta_signature b) (bd_delta b) = Some signer ∧ ParseDelta (bd_delta b) = inl d ∧
  Apply base d = inl next ∧ CatalogDigest base = inl (rg_digest s) ∧ AcceptDelta s base next res = inl s' ∧
  CatalogDigest next = inl digest ∧ decide (mkVerification next signer roots p s) digest = None.
Proof using Type.
unfold apply_delta. destruct (String.eqb _ ""); [done|].
destruct (VerifySignedDeltaWithState _ _ _ _ _ _) as [r [n|]] eqn:Hw; [|done].
destruct (AcceptDelta s base n r) as [a|] eqn:Ha; [|done]. intros [= <- <- <-].
assert (VerifySignedDelta (bd_delta b) (bd_delta_signature b) base roots p = (r, inl n)) as Hd.
{ revert Hw. unfold VerifySignedDeltaWithState. destruct (_ =? 0); [done|]. destruct (CatalogDigest base); [|done].
  cbn zeta. destruct (_ && _); [done|]. destruct (_ && _); [done|]. by destruct (_ || _). }
apply VerifySignedDelta_inl in Hd as (signer & d & Hs & Hp & Hpol & Hn & _ & Hdig & _).
pose proof Ha as (_ & _ & Hb & _ & _ & digest & Had)%AcceptDelta_inl.
exists signer, d, digest. pose proof Hn as (aic & _ & (n' & HA & [_ [= ->]]%rguard_inl)%rbind_inl)%rbind_inl.
split_and!; try done; [apply Had|]. eapply delta_next_decide; [done..|]. apply Had.
Qed.

(** The bytes and the signature the installed catalog rests on. *)
Definition installed_from (o : ApplyOutcome) (b : DirectoryBundle) : string * string :=
if ao_used_delta o then (bd_delta b, bd_delta_signature b) else (bd_snapshot b, bd_snapshot_signature b).

(** C13: Whichever way a bundle is applied, by its delta or by its snapshot, the
    installed catalog satisfies the whole admission check against the policy and
    the state: a delta is no shortcut, the untouched entries included.  The
    signature verifies over the bytes that were used, those bytes are the catalog,
    or a delta that leads from the accepted head to it, and the new state records
    the catalog's digest as its head. *)
Theorem bundle_apply_admits b base roots p s o :
bundle_Apply b base roots p s = (o, None) →
∃ c cert aic now digest,
  ao_catalog o = Some c ∧ CatalogDigest c = inl digest ∧
  VerifyDetached pki (installed_from o b).2 (installed_from o b).1 = Some (Some cert) ∧
  (if ao_used_delta o
   then ∃ d, ParseDelta (bd_delta b) = inl d ∧ Apply base d = inl c ∧ CatalogDigest base = inl (rg_digest s)
   else ParseCatalog (bd_snapshot b) = inl c) ∧
  admitted p s roots c digest cert aic now ∧
  rg_generation (ao_state o) = ct_generation c ∧ rg_digest (ao_state o) = digest ∧ installs s (ao_state o).
Proof using Type.
assert (∀ c res digest s', advanced s c res digest s' → rg_generation s' = ct_generation c ∧ rg_digest s' = digest) as Hhead.
{ intros c res digest s' [_ _ _ _ _ [(-> & _ & ? & ?)|[-> _]]]; by split. }
unfold bundle_Apply.
destruct (apply_delta _ _ _ _ _ _ _ _ _) as [[[res next] s']|e] eqn:Hd.
- apply apply_delta_inl in Hd as (signer & d & digest & Hv & Hp & Ha & Hb & Hacc & Hdig & Hdec). intros [= <-].
  apply decide_admitted in Hdec as (cert & aic & now & -> & Hadm). exists next, cert, aic, now, digest.
  pose proof Hacc as (_ & _ & _ & _ & _ & digest' & Hadv)%AcceptDelta_inl.
  assert (digest' = digest) as -> by (pose proof (ad_digest _ _ _ _ _ Hadv); congruence).
  destruct (Hhead _ _ _ _ Hadv). split_and!; try done; [by exists d|by eapply installs_delta].
- destruct (VerifySigned _ _ _ _ _) as [res [|]] eqn:Hv; [done|]. destruct (ParseCatalog _) as [c|] eqn:Hp; [|done].
  destruct (Accept s c res) as [s'|] eqn:Ha; [|done]. intros [= <-].
  apply VerifySigned_decide in Hv as (c' & signer & Hsig & Hp' & _ & _ & Hdec). assert (c' = c) as -> by congruence.
  apply decide_admitted in Hdec as (cert & aic & now & -> & Hadm).
  pose proof Ha as (_ & _ & digest & Hadv)%catalog_Accept_inl.
  pose proof (proj1 (ad_binds _ _ _ _ _ Hadv)) as Hbind. rewrite Hbind in Hadm. exists c, cert, aic, now, digest.
  destruct (Hhead _ _ _ _ Hadv). pose proof (ad_digest _ _ _ _ _ Hadv). split_and!; try done. by eapply installs_signed.
Qed.

(** C15: Under a rotation of the trust roots, an accepted catalog is admitted under
    the roots of its window: before the end of the overlap the current or next
    roots, from then on the next roots alone, so an old root is no longer trusted;
    and the key of its signer is not revoked. *)
Theorem rotation_retires_roots r raw sig p s res c :
rotation_VerifySigned lower_table pki extensions OIDAIC r raw sig p s = (res, inl c) →
∃ cert aic now roots, VerifyDetached pki sig raw = Some (Some cert) ∧ ParseCatalog raw = inl c ∧
  admitted p s roots c (rs_catalog_digest res) cert aic now ∧
  (tr_next r ≠ [] → tr_overlap_until r <= now → roots = tr_next r) ∧
  (∀ root, root ∈ roots → root ∈ tr_current r ++ tr_next r) ∧ roots ≠ [] ∧
  mget (keyIDOf (ct_spki pki cert)) (tr_revoked_keys r) ≠ Some true.
Proof using Type.
unfold rotation_VerifySigned. destruct (parseTime (tp_observed_at p)) as [now|] eqn:Et; [|done].
destruct (RootsAt r now) as [roots|] eqn:Hr; [|done].
destruct (VerifySigned _ _ _ _ _) as [res' [|]] eqn:Hv; [done|].
apply VerifySigned_decide in Hv as (c' & signer & Hsig & Hp & _ & Hk & (cert & aic & now' & -> & Hadm)%decide_admitted).
destruct (default false _) eqn:Hrev; [done|]. intros [= <- Hc]. assert (c' = c) as -> by congruence.
assert (now' = now) as -> by (pose proof (am_now _ _ _ _ _ _ _ _ Hadm); congruence).
exists cert, aic, now, roots. split_and!; try done; unfold RootsAt in Hr; apply rguard_inl in Hr as [Hval [= Hr]].
- intros Hne Hle. rewrite (proj2 (Nat.eqb_neq _ _)) in Hr by (by destruct (tr_next r)).
  by rewrite (proj2 (Z.ltb_ge _ _) Hle) in Hr.
- intros root. rewrite <- Hr. destruct (_ =? _)%nat, (now <? tr_overlap_until r); rewrite ?elem_of_app; tauto.
- unfold rotation_Validate in Hval. rewrite check_seq_None, !guard_None in Hval. destruct Hval as [Hval _].
  rewrite <- Hr. destruct (tr_current r), (tr_next r), (now <? tr_overlap_until r); done.
- intros E. rewrite Hk in Hrev. cbn [key_of_signer] in Hrev. by rewrite E in Hrev.
Qed.
End admission.

(** ** Concrete instances *)

Example signed_catalog_admitted_sample :
  ∃ c, ParseCatalog first_text = inl c ∧ Validate c = None ∧ ct_producer c = "principal:acme".
Proof.
  destruct (signed_catalog_admitted pay_lower pay_pki pay_extensions "1.3.6.1" first_text first_signature [Some tt]
              pay_policy zero_state first_result first_verified) as (c & cert & aic & now & _ & Hp & H).
  exists c. split; [exact Hp|]. split; [exact (am_valid _ _ _ _ _ _ _ _ _ _ H)|].
  apply (am_identity _ _ _ _ _ _ _ _ _ _ H). discriminate.
Defined.

Lemma bundle_apply_admits_witness :
  ao_used_delta pay_outcome = true ∧ ao_state pay_outcome = second_state ∧
  ∃ c, ao_catalog pay_outcome = Some c ∧ Validate c = None.
Proof.
  split; [reflexivity|]. split; [vm_compute; reflexivity|].
  destruct (bundle_apply_admits pay_lower pay_pki pay_extensions "1.3.6.1" pay_bundle first_catalog [Some tt] pay_policy
              first_state pay_outcome bundle_applied) as (c & cert & aic & now & digest & Hc & _ & _ & _ & H & _).
  exists c. split; [exact Hc|exact (am_valid _ _ _ _ _ _ _ _ _ _ H)].
Defined.

(** The overlap ended before the observed time. *)
Definition pay_rotation : TrustRotation := mkRotation (Cert := unit) [] [Some tt] 1 [("sha256:old", true)].
Definition rotated : Result * result Catalog :=
  Eval vm_compute in rotation_VerifySigned pay_lower pay_pki pay_extensions "1.3.6.1" pay_rotation first_text
    first_signature pay_policy zero_state.

Lemma rotation_retires_roots_witness :
  ∃ now roots c, roots = [Some tt] ∧ rotated.2 = inl c ∧ parseTime (tp_observed_at pay_policy) = Some now ∧
    tr_overlap_until pay_rotation <= now.
Proof.
  destruct rotated as [res [c|e]] eqn:E; [|discriminate].
  destruct (rotation_retires_roots pay_lower pay_pki pay_extensions "1.3.6.1" pay_rotation first_text first_signature
              pay_policy zero_state res c) as (cert & aic & now & roots & _ & _ & H & Hr & _).
  { rewrite <- E. vm_compute. reflexivity. }
  assert (tr_overlap_until pay_rotation <= now) as Hle.
  { pose proof (am_now _ _ _ _ _ _ _ _ _ _ H) as Hn. vm_compute in Hn. injection Hn as <-. vm_compute. discriminate. }
  exists now, roots, c. split; [exact (Hr ltac:(discriminate) Hle)|]. split; [reflexivity|].
  split; [exact (am_now _ _ _ _ _ _ _ _ _ _ H)|exact Hle].
Defined.
