(* ===== verification/CatalogDirectory.v ===== *)
(** * Lookup, shards, fetching and caching

    The lookup index of a catalog is the linear scan; the composition of shards is
    the union of their entries; a served bundle is fetched back unchanged; and the
    cache serves what was fetched within its bounds (catalog/index.go, compose.go,
    exchange.go and cache.go). *)

From S2P Require Import Prelude GoStrings Regex GoFloat GoTime Json Canonical Ids Values Bounds.
From S2P Require Import JsonText JsonStruct Grants Sha256 Domains SchemeArtifacts SchemeState.
From S2P Require Import SchemeConfirm.
From S2P Require Import Catalog CatalogTrust CatalogExchange CatalogProofs.

(** ** The index *)

Definition index_of (es : list Entry) : Index := fold_left index_entry (imap pair es) empty_index.

Lemma index_of_snoc es e : index_of (es ++ [e]) = index_entry (index_of es) (length es, e).
Proof. unfold index_of. rewrite imap_app, fold_left_app. cbn. by rewrite Nat.add_0_r. Qed.

(** The first position of a capability. *)
Definition first_at (es : list Entry) (k : string) (n : nat) : Prop :=
  (∃ e, es !! n = Some e ∧ e_capability e = k) ∧ ∀ j e, (j < n)%nat → es !! j = Some e → e_capability e ≠ k.

Lemma first_at_unique es k n m : first_at es k n → first_at es k m → n = m.
Proof.
  intros [(e & He & Hk) Hn] [(e' & He' & Hk') Hm]. destruct (lt_eq_lt_dec n m) as [[H|H]|H]; [|done|].
  - by destruct (Hm n e).
  - by destruct (Hn m e').
Qed.

Lemma first_at_snoc es e k n :
  first_at (es ++ [e]) k n ↔ first_at es k n ∨ (n = length es ∧ e_capability e = k ∧ k ∉ e_capability <$> es).
Proof.
  split.
  - intros [(x & Hx & Hk) Hf]. destruct (base.decide (n < length es)%nat) as [H|H].
    + left. rewrite lookup_app_l in Hx by done. split; [eauto|]. intros j y Hj Hy. apply (Hf j y Hj).
      rewrite lookup_app_l; [done|]. by apply lookup_lt_Some in Hy.
    + right. apply lookup_app_Some in Hx as [Hx|[Hl Hx]]; [by apply lookup_lt_Some in Hx|].
      apply list_lookup_singleton_Some in Hx as [Hn <-]. split_and!; [lia|done|].
      intros (y & Hy & Hin)%list_elem_of_fmap. apply list_elem_of_lookup in Hin as [j Hj].
      assert (j < length es)%nat by (by apply lookup_lt_Some in Hj). apply (Hf j y); [lia| |done].
      by rewrite lookup_app_l.
  - intros [[(x & Hx & Hk) Hf]|(-> & Hk & Hn)].
    + assert (n < length es)%nat by (by apply lookup_lt_Some in Hx). split.
      * exists x. by rewrite lookup_app_l.
      * intros j y Hj. rewrite lookup_app_l by lia. by apply Hf.
    + split; [exists e; by rewrite list_lookup_middle|]. intros j y Hj. rewrite lookup_app_l by done. intros Hy E.
      destruct Hn. apply list_elem_of_fmap. exists y. split; [done|]. by apply list_elem_of_lookup; eauto.
Qed.

Lemma find_first es k :
  List.find (λ e, String.eqb (e_capability e) k) es = None ∧ k ∉ e_capability <$> es ∨
  ∃ n, first_at es k n ∧ List.find (λ e, String.eqb (e_capability e) k) es = es !! n.
Proof.
  induction es as [|e es IH]; [left; split; [done|apply not_elem_of_nil]|]. cbn [List.find].
  destruct (String.eqb_spec (e_capability e) k) as [<-|Hne].
  - right. exists 0%nat. split; [split; [eauto|lia]|done].
  - destruct IH as [[E Hn]|(n & [(x & Hx & Hk) Hf] & E)].
    + left. split; [done|]. rewrite fmap_cons, not_elem_of_cons. done.
    + right. exists (S n). split; [|done]. split; [eauto|]. intros [|j] y Hj; [by intros [= <-]|].
      cbn. intros. eapply Hf; [|done]. lia.
Qed.

Lemma first_at_elem es k : k ∈ e_capability <$> es ↔ ∃ n, first_at es k n.
Proof.
  split.
  - intros Hk. destruct (find_first es k) as [[_ ?]|(n & Hf & _)]; [done|eauto].
  - intros (n & (e & He & <-) & _). apply list_elem_of_fmap. exists e. split; [done|]. by apply list_elem_of_lookup; eauto.
Qed.

Lemma index_names es k n : mget k (ix_by_name (index_of es)) = Some n ↔ first_at es k n.
Proof.
  revert k n. induction es as [|e es IH] using rev_ind; intros k n.
  - split; [done|]. by intros [(e & He & _) _].
  - rewrite index_of_snoc, first_at_snoc. unfold index_entry. cbn [fst snd].
    assert (mhas (e_capability e) (ix_by_name (index_of es)) = true ↔ e_capability e ∈ e_capability <$> es) as Hh.
    { rewrite mhas_get, first_at_elem. unfold is_Some. by setoid_rewrite IH. }
    destruct (mhas _ _) eqn:E.
    + rewrite IH. split; [by left|]. intros [?|(_ & <- & Hn)]; [done|]. destruct Hn. by apply Hh.
    + cbn [ix_by_name]. rewrite mget_mset. assert (e_capability e ∉ e_capability <$> es) as Hn by (intros ?%Hh; done).
      destruct (String.eqb_spec k (e_capability e)) as [->|Hne].
      * split; [intros [= <-]; by right|]. intros [?|(-> & _)]; [|done]. destruct Hn. apply first_at_elem. eauto.
      * rewrite IH. split; [by left|]. intros [?|(_ & <- & _)]; done.
Qed.

Lemma index_shards_length es : length (ix_shards (index_of es)) = 256%nat.
Proof.
  induction es as [|e es IH] using rev_ind; [done|]. rewrite index_of_snoc. unfold index_entry. cbn [fst snd].
  destruct (mhas _ _); [done|]. cbn [ix_shards]. by rewrite length_alter.
Qed.
Lemma shard_key_bound k : (shard_key k < 256)%nat.
Proof. destruct k as [|c k]; cbn; [lia|]. apply nat_ascii_bounded. Qed.

Lemma index_shards es key n :
  n ∈ default [] (ix_shards (index_of es) !! key) ↔ ∃ k, first_at es k n ∧ shard_key k = key.
Proof.
  revert n. induction es as [|e es IH] using rev_ind; intros n.
  - change (ix_shards (index_of [])) with (replicate 256 (@nil nat)). split.
    + destruct (replicate 256 [] !! key) as [l|] eqn:E; [|by intros ?%not_elem_of_nil].
      apply lookup_replicate in E as [-> _]. by intros ?%not_elem_of_nil.
    + by intros (k & [(e & He & _) _] & _).
  - rewrite index_of_snoc. setoid_rewrite first_at_snoc. unfold index_entry. cbn [fst snd].
    destruct (mhas _ _) eqn:E.
    + rewrite IH. split; [intros (k & ? & ?); eauto|]. intros (k & [?|(_ & <- & Hn)] & ?); [eauto|]. destruct Hn.
      apply first_at_elem. apply mhas_get in E as [m E]. exists m. by apply index_names.
    + cbn [ix_shards].
      assert (e_capability e ∉ e_capability <$> es) as Hn.
      { intros [m Hm]%first_at_elem. apply index_names in Hm. unfold mhas in E. by rewrite Hm in E. }
      destruct (base.decide (shard_key (e_capability e) = key)) as [<-|Hne].
      * rewrite list_lookup_alter_eq.
        destruct (lookup_lt_is_Some_2 (ix_shards (index_of es)) (shard_key (e_capability e))) as [l Hl];
          [rewrite index_shards_length; apply shard_key_bound|].
        specialize (IH n). rewrite Hl in *. simpl in IH |- *.
        rewrite elem_of_app, IH, list_elem_of_singleton. split.
        -- intros [(k & ? & ?)| ->]; [eauto|]. exists (e_capability e). split; [|done]. right. done.
        -- intros (k & [?|(-> & <- & _)] & ?); [left; eauto|by right].
      * rewrite list_lookup_alter_ne by done. rewrite IH. split; [intros (k & ? & ?); eauto|].
        intros (k & [?|(_ & <- & _)] & ?); [eauto|done].
Qed.

(** The index finds exactly what a scan of the catalog finds: the first entry
    of the capability, and nothing where there is none; and the shard of a
    capability holds the positions of the first entries of the capabilities that
    start with the same byte. *)
Lemma index_equals_scan c k :
  Lookup (Some (BuildIndex c)) c k = List.find (λ e, String.eqb (e_capability e) k) (Entries c) ∧
  (k ≠ "" → ∀ n, n ∈ Shard (Some (BuildIndex c)) k ↔ ∃ k', first_at (Entries c) k' n ∧ shard_key k' = shard_key k).
Proof.
  change (BuildIndex c) with (index_of (Entries c)). unfold Lookup. cbn [mbind option_bind]. split.
  - destruct (find_first (Entries c) k) as [[E Hn]|(n & Hf & E)]; rewrite E.
    + destruct (mget k _) as [n|] eqn:Em; [|done]. apply index_names in Em. destruct Hn. apply first_at_elem. eauto.
    + apply index_names in Hf. by rewrite Hf.
  - intros Hk%String.eqb_neq n. unfold Shard. rewrite Hk. apply index_shards.
Qed.

(** ** Shards *)

(** The entries collected so far, by capability and in their order. *)
Definition collected (by_cap : gomap Entry) (out : list Entry) : Prop :=
  NoDup (e_capability <$> out) ∧ (∀ k e, mget k by_cap = Some e ↔ e ∈ out ∧ e_capability e = k).

(** The same capability with the same canonical text. *)
Definition represents (e' e : Entry) : Prop := e' = e ∨ (e_capability e' = e_capability e ∧ sameEntry e' e = true).

Lemma merge_entries_inl by_cap out es by_cap' out' :
  collected by_cap out → merge_entries by_cap out es = inl (by_cap', out') →
  collected by_cap' out' ∧ (∀ e, e ∈ out' → e ∈ out ∨ e ∈ es) ∧ (∀ e, e ∈ out → e ∈ out') ∧
  (∀ e, e ∈ es → ∃ e', e' ∈ out' ∧ represents e' e).
Proof.
  revert by_cap out. induction es as [|e es IH]; intros by_cap out Hc; cbn [merge_entries].
  - intros [= -> ->]. split_and!; [done|by left|done|]. by intros e ?%not_elem_of_nil.
  - destruct (mget (e_capability e) by_cap) as [prior|] eqn:Em.
    + destruct (sameEntry prior e) eqn:Es; [|done]. cbn [negb]. intros H. apply IH in H as (Hc' & H1 & H2 & H3); [|done].
      split_and!; [done| |done|].
      * intros x [?|?]%H1; [by left|right; by right].
      * intros x [->|Hx]%elem_of_cons; [|by apply H3]. apply Hc in Em as [Hp Hk]. exists prior. split; [by apply H2|].
        by right.
    + destruct Hc as [N Hb].
      assert (e_capability e ∉ e_capability <$> out) as Hn.
      { intros (x & Hx & Hin)%list_elem_of_fmap. assert (mget (e_capability e) by_cap = Some x) by (by apply Hb). congruence. }
      intros H. apply IH in H as (Hc' & H1 & H2 & H3).
      * split_and!; [done| | |].
        -- intros x [Hx|?]%H1; [|right; by right]. apply elem_of_app in Hx as [?|Hx]; [by left|].
           apply list_elem_of_singleton in Hx as ->. right. left.
        -- intros x Hx. apply H2, elem_of_app. by left.
        -- intros x [->|Hx]%elem_of_cons; [|by apply H3]. exists e. split; [|by left].
           apply H2, elem_of_app. right. by apply list_elem_of_singleton.
      * split.
        -- rewrite fmap_app. apply list.NoDup_app. split_and!; [done| |apply NoDup_singleton].
           intros k Hk ->%list_elem_of_singleton. done.
        -- intros k x. rewrite mget_mset, elem_of_app, list_elem_of_singleton.
           destruct (String.eqb_spec k (e_capability e)) as [->|Hne].
           ++ split; [intros [= <-]; auto|]. intros [[Hx| ->] Hk]; [|done]. destruct Hn. rewrite <- Hk.
              apply list_elem_of_fmap. eauto.
           ++ rewrite Hb. split; [intros [? ?]; auto|]. intros [[?| ->] ?]; [done|congruence].
Qed.

(** What the loop has established of the sources before it. *)
Record composed (done : list VerifiedSource) (seen : list string) (by_cap : gomap Entry) (o : CompositeCatalog) : Prop := {
  cp_seen : ∀ n, n ∈ seen ↔ n ∈ vs_name <$> done;
  cp_names : NoDup (vs_name <$> done);
  cp_sources : cc_sources o = vs_name <$> done;
  cp_verified : ∀ src, src ∈ done → vs_verified src = true ∧ ct_domain (vs_catalog src) = cc_domain o ∧
    ct_catalog_id (vs_catalog src) = cc_catalog_id o ∧ ct_generation (vs_catalog src) = cc_generation o ∧
    mget (vs_name src) (cc_source_digests o) = Some (rs_catalog_digest (vs_result src));
  cp_collected : collected by_cap (cc_entries o);
  cp_from : ∀ e, e ∈ cc_entries o → ∃ src, src ∈ done ∧ e ∈ Entries (vs_catalog src);
  cp_all : ∀ src e, src ∈ done → e ∈ Entries (vs_catalog src) → ∃ e', e' ∈ cc_entries o ∧ represents e' e
}.

Definition composing (done : list VerifiedSource) (seen : list string) (out : option CompositeCatalog) (by_cap : gomap Entry) : Prop :=
  match out with None => done = [] ∧ seen = [] ∧ by_cap = [] | Some o => composed done seen by_cap o end.

Lemma composite_of_inl done seen out by_cap c o :
  composing done seen out by_cap → composite_of out c = inl o →
  composed done seen by_cap o ∧ cc_domain o = ct_domain c ∧ cc_catalog_id o = ct_catalog_id c ∧ cc_generation o = ct_generation c.
Proof.
  destruct out as [o0|]; cbn [composing composite_of].
  - intros Hc. destruct (_ || _) eqn:E1; [done|]. apply orb_false_iff in E1 as [E1 E2]. go_bool.
    destruct (Z.eqb_spec (cc_generation o0) (ct_generation c)); [|done]. intros [= <-]. done.
  - intros (-> & -> & ->) [= <-]. split; [|done]. split; cbn; try done; try (by intros ? ?%not_elem_of_nil).
    + apply NoDup_nil_2.
    + split; [apply NoDup_nil_2|]. intros k e. cbn. rewrite elem_of_nil. naive_solver.
    + by intros ? ? ?%not_elem_of_nil.
Qed.

Lemma composed_step done seen by_cap o src by_cap' entries' :
  composed done seen by_cap o → vs_verified src = true → vs_name src ∉ seen →
  cc_domain o = ct_domain (vs_catalog src) → cc_catalog_id o = ct_catalog_id (vs_catalog src) →
  cc_generation o = ct_generation (vs_catalog src) →
  merge_entries by_cap (cc_entries o) (Entries (vs_catalog src)) = inl (by_cap', entries') →
  composed (done ++ [src]) (vs_name src :: seen) by_cap'
    (mkComposite (cc_domain o) (cc_catalog_id o) (cc_generation o) entries' (cc_sources o ++ [vs_name src])
       (mset (vs_name src) (rs_catalog_digest (vs_result src)) (cc_source_digests o))).
Proof.
  intros [C1 C2 C3 C4 C5 C6 C7] Hv Hn Hd Hi Hg Hm. rewrite C1 in Hn.
  apply merge_entries_inl in Hm as (Hc' & M1 & M2 & M3); [|done].
  split; cbn [cc_sources cc_domain cc_catalog_id cc_generation cc_entries cc_source_digests].
  - intros n. rewrite fmap_app, elem_of_app, elem_of_cons, C1. cbn. rewrite list_elem_of_singleton. tauto.
  - rewrite fmap_app. apply list.NoDup_app. split_and!; [done| |apply NoDup_singleton].
    intros n Hin ->%list_elem_of_singleton. done.
  - by rewrite fmap_app, C3.
  - intros s [Hs| ->%list_elem_of_singleton]%elem_of_app.
    + destruct (C4 s Hs) as (? & ? & ? & ? & ?). split_and!; try done. rewrite mget_mset.
      destruct (String.eqb_spec (vs_name s) (vs_name src)) as [E|]; [|done]. destruct Hn. rewrite <- E.
      apply list_elem_of_fmap. eauto.
    + split_and!; try done. by rewrite mget_mset, String.eqb_refl.
  - done.
  - intros e [He|He]%M1.
    + destruct (C6 e He) as (s & ? & ?). exists s. split; [apply elem_of_app; by left|done].
    + exists src. split; [apply elem_of_app; right; by apply list_elem_of_singleton|done].
  - intros s e [Hs| ->%list_elem_of_singleton]%elem_of_app He; [|by apply M3].
    destruct (C7 s e Hs He) as (e' & ? & ?). exists e'. split; [by apply M2|done].
Qed.

Lemma compose_loop_inl done seen out by_cap sources seen' o :
  composing done seen out by_cap → compose_loop seen out by_cap sources = inl (seen', Some o) →
  ∃ by_cap', composed (done ++ sources) seen' by_cap' o.
Proof.
  revert done seen out by_cap. induction sources as [|src sources IH]; intros done seen out by_cap Hc; cbn [compose_loop].
  - intros [= -> ->]. rewrite app_nil_r. by exists by_cap.
  - cbn zeta. intros [Hg (o1 & Ho & ([by_cap' entries'] & Hm & H)%rbind_inl)%rbind_inl]%rguard_inl.
    rewrite check_seq_None, !guard_None in Hg. destruct Hg as [Hv Hs]. go_bool.
    assert (vs_name src ∉ seen) as Hn by (intros ?%mem_key_true; congruence).
    apply (composite_of_inl done seen out by_cap) in Ho as (Hco & Hd & Hi & Hgen); [|done].
    rewrite (app_assoc done [src] sources : done ++ src :: sources = _). eapply IH; [|done].
    cbn [composing]. by apply (composed_step done seen by_cap).
Qed.

(** The order of entries by capability. *)
#[global] Instance entry_le_total : Total entry_le.
Proof. intros a b. unfold entry_le. apply (total String.le). Qed.

Lemma entry_le_sorted l : Sorted entry_le l → Sorted String.le (e_capability <$> l).
Proof.
  induction 1 as [|x l Hl IH Hx]; [constructor|]. rewrite fmap_cons. constructor; [done|].
  inversion Hx; subst; by constructor.
Qed.

(** A composition succeeds only on verified sources of distinct names and of
    one domain, catalog and generation, with every required source among them;
    its entries, in the order of their distinct capabilities, are those of the
    sources: each comes from a source, and each entry of a source is there, up to
    its canonical text, so no conflict is resolved by the order of the sources. *)
Lemma compose_union sources required o :
  ComposeVerified sources required = inl o →
  NoDup (vs_name <$> sources) ∧ cc_sources o ≡ₚ vs_name <$> sources ∧ (∀ n, n ∈ required → n ∈ cc_sources o) ∧
  (∀ src, src ∈ sources → vs_verified src = true ∧ ct_domain (vs_catalog src) = cc_domain o ∧
     ct_catalog_id (vs_catalog src) = cc_catalog_id o ∧ ct_generation (vs_catalog src) = cc_generation o ∧
     mget (vs_name src) (cc_source_digests o) = Some (rs_catalog_digest (vs_result src))) ∧
  sorted_caps (cc_entries o) ∧
  (∀ e, e ∈ cc_entries o → ∃ src, src ∈ sources ∧ e ∈ Entries (vs_catalog src)) ∧
  (∀ src e, src ∈ sources → e ∈ Entries (vs_catalog src) → ∃ e', e' ∈ cc_entries o ∧ represents e' e).
Proof.
  unfold ComposeVerified. destruct (_ =? 0)%nat; [done|].
  intros ([seen [o1|]] & Hl & H)%rbind_inl; [|done]. apply rguard_inl in H as [Hr [= <-]].
  apply (compose_loop_inl []) in Hl as (by_cap & [C1 C2 C3 C4 C5 C6 C7]); [|done]. rewrite app_nil_l in *.
  rewrite check_all_None in Hr. cbn [cc_sources cc_domain cc_catalog_id cc_generation cc_entries cc_source_digests].
  unfold sort_Strings. split_and!; [done| | |done| | |].
  - by rewrite merge_sort_Permutation, C3.
  - intros n Hn. rewrite merge_sort_Permutation, C3, <- C1. specialize (Hr n Hn). apply guard_None in Hr. go_bool.
    by apply mem_key_true.
  - split; [apply entry_le_sorted, (Sorted_merge_sort _)|]. rewrite merge_sort_Permutation. apply C5.
  - intros e. rewrite merge_sort_Permutation. apply C6.
  - intros s e Hs He. setoid_rewrite merge_sort_Permutation. by apply (C7 s).
Qed.

(** Two shards of the first generation, each verified on its own. *)
Definition shard (name : string) (limit : Z) : string :=
  text_of (catalog_any (mkCatalog CatalogVersion "acme.example" "pay" 1 "2026-01-01T00:00:00Z" "2026-02-01T00:00:00Z" ""
                          "principal:acme" (Some [pay_entry name limit]))).
Definition shard_source (name : string) (limit : Z) : result VerifiedSource :=
  VerifySource pay_lower pay_pki pay_extensions "1.3.6.1" name (shard name limit)
    (SchemeArtifacts.Digest (shard name limit)) [Some tt] pay_policy zero_state.
Definition no_source : VerifiedSource := mkSource "" zero_catalog (rejected "") false.
Definition left_source : VerifiedSource :=
  Eval vm_compute in match shard_source "transfer" 50 with inl s => s | inr _ => no_source end.
Definition right_source : VerifiedSource :=
  Eval vm_compute in match shard_source "orders" 10 with inl s => s | inr _ => no_source end.
Definition both_sources : CompositeCatalog :=
  Eval vm_compute in match ComposeVerified [left_source; right_source] ["orders"] with inl o => o
                     | inr _ => mkComposite "" "" 0 [] [] [] end.

(** Shards of one generation may have different digests. *)
Lemma shards_of_different_digests :
  rs_catalog_digest (vs_result left_source) ≠ rs_catalog_digest (vs_result right_source) ∧
  ComposeVerified [left_source; right_source] [] = inl both_sources.
Proof. split; [vm_compute; discriminate|vm_compute; reflexivity]. Qed.

(** ** Serving and fetching *)

Definition fits (s : string) : Prop := Z.of_nat (String.length s) <= maxArtifactBytes.

Lemma fetch_served client b base path :
  client (base +:+ path) = inl (Handler b path) → fits (served b path) → fetch_get client base path = inl (served b path).
Proof.
  intros Hc Hf. unfold fetch_get. rewrite Hc. cbn [rbind]. unfold Handler.
  destruct (String.eqb_spec (served b path) "") as [->|]; cbn [rp_status rp_body rbind]; [done|].
  rewrite (proj2 (Z.ltb_ge _ _) Hf). done.
Qed.

(** A bundle that carries a signed snapshot and whose parts are within the size
    limit is fetched back exactly as its handler serves it; a part that is empty is
    not found and stays empty. *)
Lemma served_bundle_fetched client b url :
  (∀ path, client (TrimRight "/"%char url +:+ path) = inl (Handler b path)) →
  fits (bd_snapshot b) → fits (bd_snapshot_signature b) → fits (bd_delta b) → fits (bd_delta_signature b) →
  bd_snapshot b ≠ "" → bd_snapshot_signature b ≠ "" → FetchDirectory client url = inl b.
Proof.
  intros Hc F1 F2 F3 F4 N1 N2. unfold FetchDirectory. cbn zeta.
  rewrite !(fetch_served client b) by done. cbn [rbind]. unfold served. cbn [String.eqb Ascii.eqb Bool.eqb].
  apply String.eqb_neq in N1, N2. cbn. rewrite N1, N2. by destruct b.
Qed.

Example served_bundle_fetched_sample :
  FetchDirectory (λ url, inl (Handler pay_bundle (sdrop (String.length "https://acme.example") url))) "https://acme.example//" =
  inl pay_bundle.
Proof.
  apply (served_bundle_fetched (λ url, inl (Handler pay_bundle (sdrop (String.length "https://acme.example") url)))
           pay_bundle "https://acme.example//").
  - intros path. change (TrimRight "/" "https://acme.example//") with "https://acme.example". by rewrite sdrop_app.
  - vm_compute. discriminate.
  - vm_compute. discriminate.
  - vm_compute. discriminate.
  - vm_compute. discriminate.
  - discriminate.
  - discriminate.
Defined.

(** ** The cache *)

(** A sequence of calls, each with the time and what a fetch would yield. *)
Fixpoint run_cache (c : DirectoryCache) (calls : list (Time * result DirectoryBundle)) :
    DirectoryCache * list (result (DirectoryBundle * bool * bool)) :=
  match calls with
  | [] => (c, [])
  | (now, fetch) :: calls' =>
      let '(c', r) := Fetch c fetch now in let '(c'', rs) := run_cache c' calls' in (c'', r :: rs)
  end.

(** The bundle was fetched at an earlier call of the sequence, within the bounds of
    the answer: less than the TTL ago, or, marked stale, no older than the limit. *)
Definition serves_recent (ttl max_stale : Z) (past : list (Time * result DirectoryBundle)) (now : Time)
    (r : result (DirectoryBundle * bool * bool)) : Prop :=
  match r with
  | inr _ => True
  | inl (b, cached, stale) =>
      ∃ t, (t, inl b) ∈ past ∧
        (if cached then (if stale then max_stale = 0 ∨ Sub now t <= max_stale else Sub now t < ttl) else t = now ∧ stale = false)
  end.

Definition cache_ok (ttl max_stale : Z) (past : list (Time * result DirectoryBundle)) (c : DirectoryCache) : Prop :=
  ca_ttl c = ttl ∧ ca_max_stale c = max_stale ∧ (ca_fetched c ≠ 0 → (ca_fetched c, inl (ca_bundle c)) ∈ past).

Lemma Fetch_ok ttl max_stale past c fetch now :
  cache_ok ttl max_stale past c →
  let past' := past ++ [(now, fetch)] in
  cache_ok ttl max_stale past' (Fetch c fetch now).1 ∧ serves_recent ttl max_stale past' now (Fetch c fetch now).2.
Proof.
  intros (<- & <- & Hf). cbn zeta. unfold Fetch, IsZero.
  assert (ca_fetched c ≠ 0 → (ca_fetched c, inl (ca_bundle c)) ∈ past ++ [(now, fetch)]) as Hf'.
  { intros H0. apply elem_of_app. left. by apply Hf. }
  destruct (negb _ && _ && _) eqn:E1; [|destruct fetch as [b|code]].
  - apply andb_true_iff in E1 as [[H0 _]%andb_true_iff Ht]. go_bool. apply Z.eqb_neq in H0. apply Z.ltb_lt in Ht.
    split; [done|]. exists (ca_fetched c). auto.
  - split; [split_and!; [done..|]|]; cbn; [|exists now]; intros; set_solver.
  - clear E1. destruct (negb _ && _) eqn:E2; [|split; [done|exact I]]. apply andb_true_iff in E2 as [H0 Hs]. go_bool. apply Z.eqb_neq in H0.
    split; [done|]. exists (ca_fetched c). split; [auto|]. apply orb_true_iff in Hs as [Hs|Hs]; [left|right].
    + by apply Z.eqb_eq.
    + by apply Z.leb_le.
Qed.

(** Over any sequence of calls the cache answers only with bundles that were
    fetched before, within its bounds. *)
Lemma cache_serves_fetched ttl max_stale past c calls :
  cache_ok ttl max_stale past c →
  ∀ i now fetch r, calls !! i = Some (now, fetch) → (run_cache c calls).2 !! i = Some r →
    serves_recent ttl max_stale (past ++ take (S i) calls) now r.
Proof.
  revert past c. induction calls as [|[t f] calls IH]; intros past c Hc i now fetch r; [done|].
  cbn [run_cache]. pose proof (Fetch_ok ttl max_stale past c f t Hc) as [Hc' Hr].
  destruct (Fetch c f t) as [c' r0]. cbn [fst snd] in *. specialize (IH _ _ Hc'). destruct (run_cache c' calls) as [c'' rs].
  cbn [snd] in *. destruct i as [|i]; cbn.
  - intros [= <- <-] [= <-]. by rewrite take_0.
  - intros Hi Hri. specialize (IH i now fetch r Hi Hri). rewrite <- app_assoc in IH. exact IH.
Qed.

(** ** Pointers *)

(** A parsed pointer carries no verdict, and a catalog it matches is exactly the
    one it names: its identity, generation and digest, its declarations among
    those listed, an entry of its provider, and no longer validity. *)
Lemma discovery_points_at raw d c :
  ParseDiscovery raw = inl d → Match d c = None →
  CatalogDigest c = inl (ds_catalog_digest d) ∧ ct_catalog_id c = ds_catalog_id d ∧ ct_generation c = ds_generation d ∧
  (ds_declarations d ≠ [] → ∀ e, e ∈ Entries c → e_declaration_digest e ∈ ds_declarations d) ∧
  (Entries c ≠ [] → ∃ e, e ∈ Entries c ∧ e_provider e = ds_provider d) ∧
  (∀ m k, read_document raw = Some (JObj m) → k ∈ verdictMembers → k ∉ mkeys m).
Proof.
  intros Hp Hm. unfold Match in Hm. destruct (CatalogDigest c) as [digest|]; [|done].
  rewrite !check_seq_None, !guard_None in Hm. destruct Hm as (H1 & H2 & H3 & H4 & H5 & _). go_bool. apply Z.eqb_eq in H2.
  split_and!; try congruence.
  - intros Hne e He. destruct (ds_declarations d) as [|x l] eqn:E; [done|]. cbn [length Nat.eqb] in H4.
    rewrite check_all_None in H4. specialize (H4 e He). apply guard_None in H4. go_bool. by apply mem_key_true.
  - intros Hne. destruct (Entries c) as [|x l] eqn:E; [done|]. cbn [length Nat.eqb negb andb] in H5.
    apply negb_false_iff, existsb_exists in H5 as (e & He & Hpr). go_bool. exists e. split; [by apply list_elem_of_In|done].
  - intros m k Hr Hk Hin. unfold ParseDiscovery in Hp. rewrite Hr in Hp. cbn [mbind option_bind] in Hp.
    assert (existsb (λ k, mem_key k (mkeys m)) verdictMembers = true) as E; [|by rewrite E in Hp].
    apply existsb_exists. exists k. split; [by apply list_elem_of_In|by apply mem_key_true].
Qed.
