(* ===== verification/SchemaDigest.v ===== *)
(** * The digest backfill (schema_digest.go)

    [BackfillParamsSchemaDigests] inserts a params_schema_digest behind every
    params_schema of a capability file, working on the bytes of the file; an entry
    that already has one is verified.  A byte slice that the code narrows from the
    front is the remaining text. *)

From S2P Require Import Prelude GoStrings GoFloat Json JsonText JsonStruct Sha256.

(** ** Skipping over JSON *)

(** Behind the opening quote. *)
Fixpoint skip_body (s : string) : option string :=
  match s with
  | EmptyString => None
  | String c s' =>
      if code c =? 92 then match s' with EmptyString => None | String _ t => skip_body t end
      else if code c =? 34 then Some s'
      else skip_body s'
  end.
Definition skipString (s : string) : result string :=
  match s with
  | String c s' =>
      if code c =? 34 then
        match skip_body s' with Some rest => inl rest | None => inr "unterminated string"%string end
      else inr "not a string"%string
  | EmptyString => inr "not a string"%string
  end.

(** The loop of [skipObject] and [skipArray]; each step consumes a byte. *)
Fixpoint skip_nested (opening closing : Z) (what : string) (fuel : nat) (depth : Z) (s : string) : result string :=
  match fuel, s with
  | S fuel', String c s' =>
      if code c =? opening then skip_nested opening closing what fuel' (depth + 1) s'
      else if code c =? closing then
        if depth - 1 =? 0 then inl s' else skip_nested opening closing what fuel' (depth - 1) s'
      else if code c =? 34 then
        let! rest := skipString s in skip_nested opening closing what fuel' depth rest
      else skip_nested opening closing what fuel' depth s'
  | _, _ => inr ("unterminated " +:+ what)%string
  end.
Definition skipObject (s : string) : result string := skip_nested 123 125 "object" (String.length s) 0 s.
Definition skipArray (s : string) : result string := skip_nested 91 93 "array" (String.length s) 0 s.

Definition skipLiteral (s lit : string) : result string :=
  if HasPrefix s lit then inl (sdrop (String.length lit) s) else inr "invalid literal"%string.

Definition skipNumber (s : string) : result string :=
  let '(l, rest) := span number_char s in
  if String.eqb l "" then inr "invalid number"%string else inl rest.

Definition skipJSONValue (s : string) : result string :=
  match s with
  | EmptyString => inr "unexpected end of input"%string
  | String c _ =>
      let z := code c in
      if z =? 123 then skipObject s else if z =? 91 then skipArray s else if z =? 34 then skipString s
      else if z =? 116 then skipLiteral s "true" else if z =? 102 then skipLiteral s "false"
      else if z =? 110 then skipLiteral s "null" else skipNumber s
  end.

(** What was consumed of [s] when [rest] remains. *)
Definition consumed (s rest : string) : string := stake (String.length s - String.length rest) s.

(** ** Digests *)

Definition paramsSchemaKey : string := "params_schema".
Definition paramsSchemaDigestKey : string := "params_schema_digest".
Definition digestKeyLiteral : string := quoted paramsSchemaDigestKey.

(** [json.Compact] on a valid document: the white space outside strings. *)
Fixpoint strip_ws (inString escaped : bool) (s : string) : string :=
  match s with
  | EmptyString => EmptyString
  | String c s' =>
      if inString then
        String c (strip_ws (escaped || negb (code c =? 34)) (negb escaped && (code c =? 92)) s')
      else if is_ws c then strip_ws false false s'
      else String c (strip_ws (code c =? 34) false s')
  end.
Definition compactJSON (raw : string) : option string :=
  match read_document raw with Some _ => Some (strip_ws false false raw) | None => None end.
Definition sha256HexOf (raw : string) : string := hex_text (Sum256 (default raw (compactJSON raw))).

(** ** The scan *)

(** [findParamsSchemaKey]: the text before and behind the colon of the next
    params_schema key, [inl None] when there is none. *)
Fixpoint find_key (fuel : nat) (before s : string) : result (option (string * string)) :=
  match fuel, s with
  | S fuel', String c s' =>
      if negb (code c =? 34) then find_key fuel' (before +:+ String c "") s'
      else
        let! rest := skipString s in
        let lit := consumed s rest in
        let go := find_key fuel' (before +:+ lit) rest in
        if String.eqb lit (quoted paramsSchemaKey) then
          match skip_ws rest with
          | String ":" t => inl (Some (before +:+ consumed s (String ":" t), t))
          | _ => go
          end%char
        else go
  | _, _ => inl None
  end.
Definition findParamsSchemaKey (s : string) : result (option (string * string)) :=
  find_key (S (String.length s)) "" s.

Definition digest_entry (digest : string) : string :=
  "," +:+ " " +:+ digestKeyLiteral +:+ ": " +:+ quoted digest.

(** The existing entry behind the comma: the stored digest and what remains. *)
Definition read_stored (afterComma : string) : result (string * string) :=
  match skip_ws (sdrop (String.length digestKeyLiteral) (skip_ws afterComma)) with
  | String ":" t =>
      let strVal := skip_ws t in
      let! strEnd := skipJSONValue strVal in
      match j ← read_document (consumed strVal strEnd); into_string j with
      | Some stored => inl (stored, strEnd)
      | None => inr "params_schema_digest"%string
      end
  | _ => inr "params_schema_digest: expected ':'"%string
  end%char.

(** One params_schema, from behind its colon: the bytes written and what remains. *)
Definition backfill_one (t : string) : result (string * string) :=
  let valStart := skip_ws t in
  if String.eqb valStart "" then inr "params_schema: unexpected end of input"%string
  else
    match skipJSONValue valStart with
    | inr e => inr ("params_schema value: " +:+ e)%string
    | inl valEnd =>
        let value := consumed valStart valEnd in
        let head := consumed t valStart +:+ value in
        let digest := sha256HexOf value in
        match skip_ws valEnd with
        | String c a =>
            let after := String c a in
            if (code c =? 44) && HasPrefix (skip_ws a) digestKeyLiteral then
              let! r := read_stored a in
              if String.eqb r.1 digest then inl (head +:+ consumed after r.2, r.2)
              else inr ("params_schema_digest drift: stored " +:+ Quote r.1 +:+ " != computed " +:+ Quote digest)%string
            else if code c =? 44 then inl (head +:+ digest_entry digest, after)
            else if code c =? 125 then inl (head +:+ digest_entry digest +:+ "}", skip_ws a)
            else inr "params_schema: unexpected character after value"%string
        | EmptyString => inr "params_schema: unexpected character after value"%string
        end
    end.

(** The loop; [None] when the fuel runs out.  Every round consumes a colon, so the
    length of the text is enough ([backfill_total]). *)
Fixpoint backfill (fuel : nat) (out rest : string) : option (result string) :=
  match fuel with
  | O => None
  | S fuel' =>
      match findParamsSchemaKey rest with
      | inr e => Some (inr e)
      | inl None => Some (inl (out +:+ rest))
      | inl (Some (before, t)) =>
          match backfill_one t with
          | inr e => Some (inr e)
          | inl (written, rest') => backfill fuel' (out +:+ before +:+ ":" +:+ written) rest'
          end
      end
  end.

Definition BackfillParamsSchemaDigests (data : string) : result string :=
  if Contains_str data (quoted paramsSchemaKey)
  then default (inr ""%string) (backfill (S (String.length data)) "" data)
  else inl data.

(** ** What the skips consume *)

Definition suffix (rest s : string) : Prop := ∃ p, s = p +:+ rest.

Lemma suffix_refl s : suffix s s.
Proof. by exists "". Qed.

Lemma suffix_cons c rest s : suffix rest s → suffix rest (String c s).
Proof. intros [p ->]. by exists (String c p). Qed.

Lemma suffix_trans a b c : suffix a b → suffix b c → suffix a c.
Proof. intros [p ->] [q ->]. exists (q +:+ p). apply str_app_assoc. Qed.

#[local] Hint Resolve suffix_refl suffix_cons : core.

Lemma suffix_length rest s : suffix rest s → (String.length rest <= String.length s)%nat.
Proof. intros [p ->]. rewrite str_length_app. lia. Qed.

Lemma consumed_app rest s : suffix rest s → s = consumed s rest +:+ rest.
Proof.
  intros [p ->]. unfold consumed. rewrite str_length_app.
  replace (String.length p + String.length rest - String.length rest)%nat with (String.length p) by lia.
  by rewrite stake_app.
Qed.

Lemma skip_ws_spaces s : ∃ w, s = w +:+ skip_ws s ∧ str_forallb is_ws w = true.
Proof.
  induction s as [|c s IH]; [by exists ""|]. simpl. destruct (is_ws c) eqn:E; [|by exists ""].
  destruct IH as (w & Hw & Hf). exists (String c w). rewrite append_cons. rewrite <- Hw. simpl. by rewrite E.
Qed.

Lemma skip_ws_suffix s : suffix (skip_ws s) s.
Proof. destruct (skip_ws_spaces s) as (w & Hw & _). by exists w. Qed.

Lemma skip_body_suffix n : ∀ s rest, (String.length s <= n)%nat → skip_body s = Some rest → suffix rest s.
Proof.
  induction n as [|n IH]; intros [|c s] rest Hn; simpl in *; try done; try lia.
  destruct (code c =? 92).
  - destruct s as [|d s]; [done|]. simpl in *. intros H%IH; [|lia]. auto.
  - destruct (code c =? 34); [intros [= ->]; auto|]. intros H%IH; [auto|lia].
Qed.

Lemma skipString_rest s rest : skipString s = inl rest → suffix rest s ∧ (String.length rest < String.length s)%nat.
Proof.
  destruct s as [|c s]; [done|]. simpl. destruct (code c =? 34); [|done].
  destruct (skip_body s) as [r|] eqn:E; [|done]. intros [= ->].
  assert (suffix rest s) as H by (by eapply skip_body_suffix). split; [auto|]. apply suffix_length in H. lia.
Qed.

Lemma skip_nested_suffix o c w fuel : ∀ depth s rest, skip_nested o c w fuel depth s = inl rest → suffix rest s.
Proof.
  induction fuel as [|fuel IH]; intros depth [|d s] rest; try done. cbn [skip_nested].
  destruct (code d =? o); [intros H%IH; auto|]. destruct (code d =? c).
  - destruct (depth - 1 =? 0); [intros [= ->]; auto|intros H%IH; auto].
  - destruct (code d =? 34); [|intros H%IH; auto].
    destruct (skipString (String d s)) as [r|] eqn:E; [|done]. simpl. intros H%IH.
    apply skipString_rest in E as [E _]. by eapply suffix_trans.
Qed.

Lemma span_split p s a b : span p s = (a, b) → s = a +:+ b.
Proof.
  revert a b. induction s as [|c s IH]; intros a b; simpl; [by intros [= <- <-]|].
  destruct (p c); [|by intros [= <- <-]]. destruct (span p s) as [a' b'] eqn:E. intros [= <- <-].
  rewrite append_cons. by rewrite <- (IH a' b').
Qed.

Lemma skipJSONValue_suffix s rest : skipJSONValue s = inl rest → suffix rest s.
Proof.
  destruct s as [|c s]; [done|]. unfold skipJSONValue, skipObject, skipArray. cbv zeta.
  assert (∀ lit, skipLiteral (String c s) lit = inl rest → suffix rest (String c s)) as Hl.
  { intros lit. unfold skipLiteral. destruct (HasPrefix _ lit); [|done]. intros [= <-].
    exists (stake (String.length lit) (String c s)). by rewrite stake_sdrop. }
  repeat (case_match; [first [apply skip_nested_suffix|by intros [? _]%skipString_rest|apply Hl]|]).
  unfold skipNumber. destruct (span number_char (String c s)) as [a b] eqn:E. destruct (String.eqb a ""); [done|].
  intros [= <-]. apply span_split in E. by exists a.
Qed.

(** The scan splits the text at the colon it found. *)
Lemma find_key_split fuel : ∀ acc s before t,
  find_key fuel acc s = inl (Some (before, t)) → acc +:+ s = before +:+ ":" +:+ t.
Proof.
  induction fuel as [|fuel IH]; intros acc [|c s] before t; try done. cbn [find_key].
  destruct (negb (code c =? 34)).
  { intros H%IH. rewrite <- H, <- str_app_assoc. done. }
  destruct (skipString (String c s)) as [rest|] eqn:E; [|done]. cbn [rbind]. cbv zeta.
  apply skipString_rest in E as [Hs _]. pose proof (consumed_app _ _ Hs) as Hc.
  assert (find_key fuel (acc +:+ consumed (String c s) rest) rest = inl (Some (before, t)) →
    acc +:+ String c s = before +:+ ":" +:+ t) as Hgo.
  { intros H%IH. rewrite <- H, <- str_app_assoc. by rewrite <- Hc. }
  destruct (String.eqb _ _); [|done]. destruct (skip_ws rest) as [|d u] eqn:Er; [done|].
  destruct (Ascii.ascii_dec d ":"%char) as [->|Hne].
  - intros [= <- <-]. assert (suffix (String ":" u) (String c s)) as Hsu.
    { eapply suffix_trans; [|exact Hs]. rewrite <- Er. apply skip_ws_suffix. }
    rewrite (consumed_app _ _ Hsu) at 1. apply str_app_assoc.
  - destruct d as [[] [] [] [] [] [] [] []]; try done; congruence.
Qed.

Lemma find_length s before t :
  findParamsSchemaKey s = inl (Some (before, t)) → (String.length t < String.length s)%nat.
Proof.
  intros H%find_key_split. change ("" +:+ s) with s in H. rewrite H, !str_length_app. simpl. lia.
Qed.

(** ** What the backfill keeps

    The output is the input with white space left out and digest entries put in,
    each directly behind the bytes it is the digest of. *)
Inductive kept : string → string → Prop :=
  | kept_nil : kept "" ""
  | kept_copy p d o : kept d o → kept (p +:+ d) (p +:+ o)
  | kept_space w d o : str_forallb is_ws w = true → kept d o → kept (w +:+ d) o
  | kept_digest value d o :
      kept d o → kept (value +:+ d) (value +:+ digest_entry (sha256HexOf value) +:+ o).

Lemma kept_refl s : kept s s.
Proof.
  assert (s = s +:+ "") as E by (induction s as [|c s IH]; [done|]; rewrite append_cons; by rewrite <- IH).
  rewrite E. apply kept_copy, kept_nil.
Qed.

(** The bytes of an existing entry up to the end of its digest. *)
Lemma read_stored_suffix a stored rest : read_stored a = inl (stored, rest) → suffix rest a.
Proof.
  unfold read_stored. destruct (skip_ws (sdrop _ (skip_ws a))) as [|c u] eqn:E; [done|].
  destruct (Ascii.ascii_dec c ":"%char) as [->|Hne];
    [|intros H; exfalso; revert H Hne; destruct c as [[] [] [] [] [] [] [] []]; try discriminate; congruence].
  cbv zeta. destruct (skipJSONValue (skip_ws u)) as [e|] eqn:Ev; [|done]. cbn [rbind].
  destruct (_ ≫= _); [|done]. intros [= _ <-]. apply skipJSONValue_suffix in Ev.
  assert (suffix (String ":" u) a) as Hu.
  { rewrite <- E. eapply suffix_trans; [apply skip_ws_suffix|].
    eapply suffix_trans; [exists (stake (String.length digestKeyLiteral) (skip_ws a)); by rewrite stake_sdrop|apply skip_ws_suffix]. }
  eapply suffix_trans; [exact Ev|]. eapply suffix_trans; [apply skip_ws_suffix|].
  eapply suffix_trans; [|exact Hu]. auto.
Qed.

Lemma backfill_one_kept t written rest :
  backfill_one t = inl (written, rest) →
  (String.length rest <= String.length t)%nat ∧ ∀ o, kept rest o → kept t (written +:+ o).
Proof.
  unfold backfill_one. cbv zeta. destruct (String.eqb (skip_ws t) ""); [done|].
  destruct (skipJSONValue (skip_ws t)) as [valEnd|] eqn:Ev; [|done]. apply skipJSONValue_suffix in Ev.
  pose proof (consumed_app _ _ (skip_ws_suffix t)) as Ht. pose proof (consumed_app _ _ Ev) as Hv.
  set (value := consumed (skip_ws t) valEnd) in *. set (lead := consumed t (skip_ws t)) in *.
  destruct (skip_ws_spaces valEnd) as (w & Hw & Hws).
  assert (t = lead +:+ value +:+ w +:+ skip_ws valEnd) as Hall by (rewrite Ht at 1; rewrite Hv at 1; by rewrite Hw at 1).
  destruct (skip_ws valEnd) as [|c a] eqn:Ea; [done|].
  assert (String.length (String c a) <= String.length t)%nat as Hlen.
  { rewrite Hall, !str_length_app. lia. }
  destruct ((code c =? 44) && HasPrefix (skip_ws a) digestKeyLiteral).
  - destruct (read_stored a) as [[stored r]|] eqn:Er; [|done]. cbn [rbind fst snd].
    destruct (String.eqb stored _); [|done]. intros [= <- <-]. apply read_stored_suffix in Er.
    assert (suffix r (String c a)) as Hr by auto. pose proof (consumed_app _ _ Hr) as Hc.
    split; [apply suffix_length in Hr; lia|]. intros o Ho. rewrite Hall.
    rewrite <- !str_app_assoc. do 2 apply kept_copy. apply kept_space; [done|]. rewrite Hc at 1. by apply kept_copy.
  - destruct (code c =? 44).
    + intros [= <- <-]. split; [done|]. intros o Ho. rewrite Hall, <- !str_app_assoc.
      apply kept_copy, kept_digest. by apply kept_space.
    + destruct (code c =? 125) eqn:E125; [|done]. intros [= <- <-]. split.
      { pose proof (suffix_length _ _ (skip_ws_suffix a)). simpl in Hlen. lia. }
      intros o Ho. rewrite Hall, <- !str_app_assoc. apply kept_copy, kept_digest. apply kept_space; [done|].
      assert (c = "}"%char) as ->.
      { apply Z.eqb_eq in E125. rewrite <- (chr_code c), E125. done. }
      destruct (skip_ws_spaces a) as (w' & Hw' & Hws'). rewrite Hw' at 1.
      change (String "}" (w' +:+ skip_ws a)) with ("}" +:+ (w' +:+ skip_ws a)). apply kept_copy. by apply kept_space.
Qed.

(** The loop ends, and keeps the rest of the text. *)
Lemma backfill_kept fuel : ∀ out rest,
  (String.length rest < fuel)%nat →
  ∃ r, backfill fuel out rest = Some r ∧ ∀ res, r = inl res → ∃ o, res = out +:+ o ∧ kept rest o.
Proof.
  induction fuel as [|fuel IH]; intros out rest Hf; [lia|]. cbn [backfill].
  destruct (findParamsSchemaKey rest) as [[[before t]|]|e] eqn:Ef; [| |by eexists].
  - pose proof (find_length _ _ _ Ef) as Hl. apply find_key_split in Ef. change ("" +:+ rest) with rest in Ef.
    destruct (backfill_one t) as [[written rest']|e] eqn:Eb; [|by eexists].
    apply backfill_one_kept in Eb as [Hl' Hk].
    destruct (IH (out +:+ before +:+ ":" +:+ written) rest') as (r & -> & Hr); [lia|]. exists r. split; [done|].
    intros res Hres. destruct (Hr res Hres) as (o & -> & Ho). exists (before +:+ ":" +:+ written +:+ o).
    rewrite <- !str_app_assoc. split; [done|]. rewrite Ef. do 2 apply kept_copy. by apply Hk.
  - eexists. split; [done|]. intros res [= <-]. exists rest. split; [done|apply kept_refl].
Qed.

(** The backfill always ends; where it succeeds, it has only left out white space
    and inserted digest entries, each behind the value it is the digest of. *)
Lemma backfill_keeps_bytes data :
  backfill (S (String.length data)) "" data ≠ None ∧
  ∀ out, BackfillParamsSchemaDigests data = inl out → kept data out.
Proof.
  destruct (backfill_kept (S (String.length data)) "" data) as (r & Hr & Hk); [lia|]. split; [by rewrite Hr|].
  intros out. unfold BackfillParamsSchemaDigests. rewrite Hr. simpl default.
  destruct (Contains_str data _); [|intros [= <-]; apply kept_refl].
  intros ->. destruct (Hk out eq_refl) as (o & -> & Ho). done.
Qed.

(** ** Examples *)

Definition quotes_of (s : string) : string :=
  (fix go s := match s with
   | EmptyString => EmptyString
   | String c s' => String (if Ascii.eqb c "'" then dquote else c) (go s')
   end) s.

Definition one_schema : string := quotes_of "{'id':'a','params_schema':{'type': 'object'} } , 1".

(** The white space around the closing brace is lost. *)
Example whitespace_dropped :
  BackfillParamsSchemaDigests one_schema =
  inl (quotes_of ("{'id':'a','params_schema':{'type': 'object'}, 'params_schema_digest': '" +:+
    sha256HexOf (quotes_of "{'type':'object'}") +:+ "'}, 1")).
Proof. vm_compute. reflexivity. Qed.

(** A second run verifies the digest and changes nothing; a stale one is refused. *)
Example backfill_again :
  (let! out := BackfillParamsSchemaDigests one_schema in BackfillParamsSchemaDigests out) =
    BackfillParamsSchemaDigests one_schema ∧
  ∃ e, BackfillParamsSchemaDigests (quotes_of "{'params_schema':{}, 'params_schema_digest': 'old'}") = inr e.
Proof. split; [vm_compute; reflexivity|]. vm_compute. by eexists. Qed.
