(* ===== verification/RuleRead.v ===== *)
(** * Reading rules and database parameters

    The decoders of ruleexec/rule.go ([LoadRuleBytes]), ruleexec/defaults.go
    ([LoadBudgetDefaults]), ruleexec/httpgateway.go ([ruleTables]) and of the two
    structs the database parameters are decoded into (params_validate.go and
    ruleexec/sqlgen.go).  A [json.RawMessage] member keeps the text of its value.
    The text of a decoding error is a parameter. *)

From S2P Require Import Prelude GoStrings GoFloat Json JsonText JsonStruct.
From S2P Require Import RecordJson ReportLifecycle ReportDecode.
From S2P Require Import SqlGen RuleExec SchemaDigest.

(** ** Loops over members and elements *)

Section members.
Context {A : Type} (names : list string) (upd : string → A → jtext → option A).
(** A closed struct: a member that resolves to no field is an error. *)
Fixpoint each_member (a : A) (m : list (string * jtext)) : option A :=
match m with
| [] => Some a
| (key, j) :: m' => n ← resolve names key; a' ← upd n a j; each_member a' m'
end.
End members.

Section elements.
Context {A : Type} (f : A → jtext → option A) (zero : A).
Fixpoint each_elem (old : list A) (l : list jtext) : option (list A) :=
match l with
| [] => Some []
| j :: l' => a ← f (hd zero old) j; rest ← each_elem (tl old) l'; Some (a :: rest)
end.
End elements.

(** ** Conditions and flows *)

Definition condition_names : list string := ["op"; "path"; "value"; "window"; "items"].
Definition zero_condition : Condition := mkCond "" "" ANil [] [].

Fixpoint into_condition (c : Condition) (j : jtext) {struct j} : option Condition :=
  match j with
  | JObj m =>
      each_member condition_names (λ n c j,
        let '(mkCond op path value window items) := c in
        if String.eqb n "op" then s ← in_string op j; Some (mkCond s path value window items)
        else if String.eqb n "path" then s ← in_string path j; Some (mkCond op s value window items)
        else if String.eqb n "value" then v ← unmarshal_any j; Some (mkCond op path v window items)
        else if String.eqb n "window" then w ← in_strings window j; Some (mkCond op path value w items)
        else match j with
             | JArr l => l ← each_elem into_condition zero_condition items l; Some (mkCond op path value window l)
             | JNull => Some (mkCond op path value window [])
             | _ => None
             end) c m
  | JNull => Some c
  | _ => None
  end.

Definition step_names : list string := ["name"; "kind"; "op"; "condition"; "then"; "else"; "steps"].
Definition zero_step : Step := mkStep "" "" "" None [] [] [].

Fixpoint into_step (s : Step) (j : jtext) {struct j} : option Step :=
  match j with
  | JObj m =>
      each_member step_names (λ n s j,
        let '(mkStep name kind op cond th el ss) := s in
        if String.eqb n "name" then x ← in_string name j; Some (mkStep x kind op cond th el ss)
        else if String.eqb n "kind" then x ← in_string kind j; Some (mkStep name x op cond th el ss)
        else if String.eqb n "op" then x ← in_string op j; Some (mkStep name kind x cond th el ss)
        else if String.eqb n "condition" then
          x ← in_ptr into_condition zero_condition cond j; Some (mkStep name kind op x th el ss)
        else
          let set (l : list Step) : Step :=
            if String.eqb n "then" then mkStep name kind op cond l el ss
            else if String.eqb n "else" then mkStep name kind op cond th l ss
            else mkStep name kind op cond th el l in
          let old := if String.eqb n "then" then th else if String.eqb n "else" then el else ss in
          match j with
          | JArr l => l ← each_elem into_step zero_step old l; Some (set l)
          | JNull => Some (set [])
          | _ => None
          end) s m
  | JNull => Some s
  | _ => None
  end.

Definition into_flow (f : Flow) (j : jtext) : option Flow :=
  match j with
  | JObj m => each_member ["steps"] (λ _ f j, mkFlow <$> in_elems into_step zero_step (fl_steps f) j) f m
  | JNull => Some f
  | _ => None
  end.

(** ** Raw messages

    The members of an object and the elements of an array, each with the text of
    its value.  A step consumes at least one byte, so the length is enough fuel. *)

Definition one_value (s : string) : option (jtext * string) := read_value (S (2 * String.length s)) 0 s.

(** The text of the value [s] starts with, and what follows it. *)
Definition raw_value (s : string) : option (string * string) :=
  let v := skip_ws s in '(_, rest) ← one_value v; Some (consumed v rest, rest).

Fixpoint raw_members (fuel : nat) (s : string) : option (list (string * string)) :=
  match fuel with
  | O => None
  | S fuel' =>
      match skip_ws s with
      | String q s' =>
          if code q =? 34 then
            '(k, rest) ← read_string (String.length s') s';
            match skip_ws rest with
            | String ":" t =>
                '(raw, rest) ← raw_value t;
                match skip_ws rest with
                | String "," t => l ← raw_members fuel' t; Some ((k, raw) :: l)
                | String "}" _ => Some [(k, raw)]
                | _ => None
                end%char
            | _ => None
            end%char
          else None
      | EmptyString => None
      end
  end.

Fixpoint raw_elems (fuel : nat) (s : string) : option (list string) :=
  match fuel with
  | O => None
  | S fuel' =>
      '(raw, rest) ← raw_value s;
      match skip_ws rest with
      | String "," t => l ← raw_elems fuel' t; Some (raw :: l)
      | String "]" _ => Some [raw]
      | _ => None
      end%char
  end.

(** The text after the opening bracket of a container. *)
Definition inside (raw : string) : string := sdrop 1 (skip_ws raw).
Definition members_of (raw : string) : option (list (string * string)) :=
  if HasPrefix (skip_ws (inside raw)) "}" then Some [] else raw_members (S (String.length raw)) (inside raw).
Definition elems_of (raw : string) : option (list string) :=
  if HasPrefix (skip_ws (inside raw)) "]" then Some [] else raw_elems (S (String.length raw)) (inside raw).

(** A reader of values as a reader of their text. *)
Definition from_text {A} (f : A → jtext → option A) (old : A) (raw : string) : option A :=
  j ← read_document raw; f old j.

Section raw_struct.
Context {A : Type} (names : list string) (upd : string → A → string → option A).
Fixpoint each_raw (a : A) (m : list (string * string)) : option A :=
match m with
| [] => Some a
| (key, raw) :: m' => n ← resolve names key; a' ← upd n a raw; each_raw a' m'
end.
Definition closed_raw (old : A) (raw : string) : option A :=
j ← read_document raw;
match j with
| JObj _ => m ← members_of raw; each_raw old m
| JNull => Some old
| _ => None
end.
End raw_struct.

Fixpoint raw_list {A} (f : A → string → option A) (zero : A) (old : list A) (l : list string) : option (list A) :=
  match l with
  | [] => Some []
  | raw :: l' => a ← f (hd zero old) raw; rest ← raw_list f zero (tl old) l'; Some (a :: rest)
  end.

(** ** The rule file (ruleexec/rule.go) *)

Definition rule_constraint_names : list string := ["scheme"; "id"; "params"].
Definition zero_rule_constraint : RuleConstraint := mkRuleConstraint "" "" "".
Definition into_rule_constraint : RuleConstraint → string → option RuleConstraint :=
  closed_raw rule_constraint_names (λ n c raw,
    let '(mkRuleConstraint scheme id params) := c in
    if String.eqb n "scheme" then s ← from_text in_string scheme raw; Some (mkRuleConstraint s id params)
    else if String.eqb n "id" then s ← from_text in_string id raw; Some (mkRuleConstraint scheme s params)
    else Some (mkRuleConstraint scheme id raw)).

Definition in_rule_constraints (old : list RuleConstraint) (raw : string) : option (list RuleConstraint) :=
  j ← read_document raw;
  match j with
  | JArr _ => l ← elems_of raw; raw_list into_rule_constraint zero_rule_constraint old l
  | JNull => Some []
  | _ => None
  end.

Definition rule_names : list string :=
  ["rule_id"; "version"; "scheme"; "capability"; "params"; "conditions"; "constraints"; "flow"].
Definition zero_rule : Rule := mkRule "" "" "" "" "" None [] None.
Definition into_rule : Rule → string → option Rule :=
  closed_raw rule_names (λ n r raw,
    let '(mkRule id version scheme capability params conditions constraints flow) := r in
    if String.eqb n "rule_id" then
      s ← from_text in_string id raw; Some (mkRule s version scheme capability params conditions constraints flow)
    else if String.eqb n "version" then
      s ← from_text in_string version raw; Some (mkRule id s scheme capability params conditions constraints flow)
    else if String.eqb n "scheme" then
      s ← from_text in_string scheme raw; Some (mkRule id version s capability params conditions constraints flow)
    else if String.eqb n "capability" then
      s ← from_text in_string capability raw; Some (mkRule id version scheme s params conditions constraints flow)
    else if String.eqb n "params" then
      Some (mkRule id version scheme capability raw conditions constraints flow)
    else if String.eqb n "conditions" then
      c ← from_text (in_ptr into_condition zero_condition) conditions raw;
      Some (mkRule id version scheme capability params c constraints flow)
    else if String.eqb n "constraints" then
      l ← in_rule_constraints constraints raw;
      Some (mkRule id version scheme capability params conditions l flow)
    else
      f ← from_text (in_ptr into_flow (mkFlow [])) flow raw;
      Some (mkRule id version scheme capability params conditions constraints f)).

(** [dec.Decode]: the first value of the text; what follows it is not read. *)
Definition decode_rule (data : string) : option Rule :=
  '(raw, _) ← raw_value data; into_rule zero_rule raw.

Inductive load_error :=
  | LParse
  | LRequired
  | LStructure (e : exec_error).

Definition LoadRuleBytes (data : string) : Rule + load_error :=
  match decode_rule data with
  | None => inr LParse
  | Some r =>
      if String.eqb (ru_id r) "" || String.eqb (ru_version r) "" || String.eqb (ru_scheme r) ""
         || String.eqb (ru_capability r) "" then inr LRequired
      else match ValidateStructure r with
           | Some e => inr (LStructure e)
           | None => inl r
           end
  end.

(** ** Budget defaults (ruleexec/defaults.go) *)

Definition defaults_names : list string := ["max_steps"; "max_depth"; "max_nesting"].
(** [read] is what the file holds; [None] when it cannot be read or decoded. *)
Definition LoadBudgetDefaults (read : option string) : option (result BudgetDefaults) :=
  data ← read;
  j ← read_document data;
  m ← match j with JObj m => Some m | JNull => Some [] | _ => None end;
  s ← field defaults_names "max_steps" in_int64 0 m;
  d ← field defaults_names "max_depth" in_int64 0 m;
  n ← field defaults_names "max_nesting" in_int64 0 m;
  let b := mkDefaults s d n in
  Some (match check_defaults b with Some e => inr e | None => inl b end).

(** ** Database parameters *)

(** [Limit]: a pointer to a struct with the one member [max]. *)
Definition in_limit : option Z → jtext → option (option Z) :=
  in_ptr (λ old j, match j with
                   | JObj m => field ["max"] "max" in_int64 old m
                   | JNull => Some old
                   | _ => None
                   end) 0.

(** [map[string][]string]: the value of a key is read afresh. *)
Definition in_columns (old : gomap (list string)) (j : jtext) : option (gomap (list string)) :=
  match j with
  | JObj m => l ← mapM (λ kv, x ← in_strings [] kv.2; Some (kv.1, x)) m;
              Some (fold_left (λ acc kv, mset kv.1 kv.2 acc) l old)
  | JNull => Some []
  | _ => None
  end.

(** The members of a document decoded into a struct that ignores unknown ones. *)
Definition struct_members (raw : string) : option (list (string * jtext)) :=
  j ← read_document raw;
  match j with JObj m => Some m | JNull => Some [] | _ => None end.

Definition table_names : list string :=
  ["tables"; "columns"; "filter_columns"; "row_filter"; "limit"; "aggregate"; "order_by"].
Definition read_table_params (raw : string) : option db_params :=
  m ← struct_members raw;
  tables ← field table_names "tables" in_strings [] m;
  columns ← field table_names "columns" in_any_map None m;
  filters ← field table_names "filter_columns" in_columns [] m;
  rows ← field table_names "row_filter" in_any_map None m;
  limit ← field table_names "limit" in_limit None m;
  _ ← field table_names "aggregate" (in_ptr in_bool false) None m;
  order ← field table_names "order_by" (in_ptr in_strings []) None m;
  Some (mkDb tables columns filters rows limit order).

Definition select_names : list string := ["tables"; "columns"; "row_filter"; "limit"].
Definition read_select_params (raw : string) : option db_params :=
  m ← struct_members raw;
  tables ← field select_names "tables" in_strings [] m;
  columns ← field select_names "columns" in_any_map None m;
  rows ← field select_names "row_filter" in_any_map None m;
  limit ← field select_names "limit" in_limit None m;
  Some (mkDb tables columns [] rows limit None).

Section errors.
Context (json_error : string → string).

Definition decode_table_params (raw : string) : result db_params :=
match read_table_params raw with Some p => inl p | None => inr (json_error raw) end.

(** [GenerateSelectSQL] on the raw parameters. *)
Definition GenerateSelectSQL_raw (raw : string) : fragment_result :=
match read_select_params raw with
| None => inr (wrap "params" (json_error raw))
| Some p => GenerateSelectSQL p
end.
End errors.

(** ** The tables of a rule (ruleexec/httpgateway.go)

    [ruleTables] ignores the error of [json.Unmarshal], which goes on after a
    value of the wrong type and leaves its target as it is. *)

Fixpoint soft_elems (old : list string) (l : list jtext) : list string :=
  match l with
  | [] => []
  | j :: l' => (match j with JStr s => s | _ => hd "" old end) :: soft_elems (tl old) l'
  end.
Definition soft_texts (old : list string) (j : jtext) : list string :=
  match j with JArr l => soft_elems old l | JNull => [] | _ => old end.

Fixpoint soft_tables (tables : list string) (m : list (string * jtext)) : list string :=
  match m with
  | [] => tables
  | (key, j) :: m' => soft_tables (if hits ["tables"] "tables" key then soft_texts tables j else tables) m'
  end.
Definition ruleTables (raw : string) : list string :=
  match read_document raw with Some (JObj m) => soft_tables [] m | _ => [] end.

(** ** What the readers agree on *)

Lemma soft_elems_read l : ∀ old r, elems_into in_string "" old l = Some r → soft_elems old l = r.
Proof.
  induction l as [|j l IH]; intros old r; simpl; [by intros [= <-]|].
  destruct (in_string (hd "" old) j) as [s|] eqn:Ej; [|done]. simpl.
  destruct (elems_into in_string "" (tl old) l) as [rest|] eqn:El; [|done]. intros [= <-].
  rewrite (IH _ _ El). by destruct j; simplify_eq/=.
Qed.

Lemma soft_texts_read old j r : in_strings old j = Some r → soft_texts old j = r.
Proof.
  destruct j; simpl; try done; intros H; [by simplify_eq|by apply soft_elems_read].
Qed.

(** The only field of [ruleTables] resolves as it does among the others. *)
Lemma hits_tables key : hits select_names "tables" key = hits ["tables"] "tables" key.
Proof.
  unfold hits, resolve, find_field, select_names. cbn [fmap list_fmap List.find fst].
  destruct (String.eqb "tables" key) eqn:E1; cbn [fst]; [done|].
  destruct (String.eqb "columns" key) eqn:E2; [apply String.eqb_eq in E2; subst; by vm_compute|].
  destruct (String.eqb "row_filter" key) eqn:E3; [apply String.eqb_eq in E3; subst; by vm_compute|].
  destruct (String.eqb "limit" key) eqn:E4; [apply String.eqb_eq in E4; subst; by vm_compute|].
  case_bool_decide as F1; [done|]. simpl.
  repeat (case_bool_decide; [done|]). done.
Qed.

Lemma soft_tables_read m : ∀ old r,
  field select_names "tables" in_strings old m = Some r → soft_tables old m = r.
Proof.
  induction m as [|[key j] m IH]; intros old r; simpl; [by intros [= <-]|]. rewrite hits_tables.
  destruct (hits ["tables"] "tables" key); [|by apply IH].
  destruct (in_strings old j) as [b|] eqn:Ej; [|done]. simpl. intros H. rewrite (soft_texts_read _ _ _ Ej). by apply IH.
Qed.

(** Where the generator can decode the parameters, the tables the gateway looks
    at are the tables the generator uses. *)
Lemma ruleTables_read raw p : read_select_params raw = Some p → ruleTables raw = p_tables p.
Proof.
  unfold read_select_params, struct_members, ruleTables.
  destruct (read_document raw) as [j|]; [|done]. destruct j; simpl; try done.
  - by intros [= <-].
  - destruct (field select_names "tables" in_strings [] _) as [ts|] eqn:Et; [|done]. simpl.
    intros H. rewrite (soft_tables_read _ _ _ Et).
    repeat match type of H with context [field select_names ?k ?f ?b ?m] =>
      destruct (field select_names k f b m); [simpl in H|done] end.
    by simplify_eq.
Qed.

(** A loaded rule has its required members and a valid structure. *)
Lemma LoadRuleBytes_inl data r :
  LoadRuleBytes data = inl r →
  decode_rule data = Some r ∧ ru_id r ≠ "" ∧ ru_version r ≠ "" ∧ ru_scheme r ≠ "" ∧ ru_capability r ≠ "" ∧
  ValidateStructure r = None.
Proof.
  unfold LoadRuleBytes. destruct (decode_rule data) as [r'|]; [|done].
  destruct (String.eqb_spec (ru_id r') ""); [done|]. destruct (String.eqb_spec (ru_version r') ""); [done|].
  destruct (String.eqb_spec (ru_scheme r') ""); [done|]. destruct (String.eqb_spec (ru_capability r') ""); [done|].
  simpl. destruct (ValidateStructure r') eqn:E; [done|]. intros [= <-]. done.
Qed.

(** ** Samples *)

Definition rule_text : string := quotes_of
  "{'rule_id':'r1','version':'1.0.0','scheme':'std/database-v1','capability':'query:SELECT',
    'params': {'tables':['users'],'columns':{'users':['id','name']},'limit':{'max':20}},
    'conditions':{'op':'and','items':[{'op':'eq','path':'request.method','value':'GET'}]},
    'constraints':[{'scheme':'constraint','id':'max_rows','params': 100}]}".
Definition rule_text_params : string := quotes_of
  "{'tables':['users'],'columns':{'users':['id','name']},'limit':{'max':20}}".

Definition sample_text_rule : Rule :=
  mkRule "r1" "1.0.0" "std/database-v1" "query:SELECT" rule_text_params
    (Some (mkCond "and" "" ANil [] [mkCond "eq" "request.method" (AStr "GET") [] []]))
    [mkRuleConstraint "constraint" "max_rows" "100"] None.

Example load_sample : LoadRuleBytes rule_text = inl sample_text_rule.
Proof. vm_compute. reflexivity. Qed.

(** A misspelled member is refused, text after the rule is not looked at. *)
Example load_misspelled :
  LoadRuleBytes (quotes_of
    "{'rule_id':'r1','version':'1.0.0','scheme':'a/b','capability':'c','condtions':{'op':'eq'}}") = inr LParse.
Proof. vm_compute. reflexivity. Qed.
Example load_trailing : LoadRuleBytes (rule_text +:+ " } not json") = inl sample_text_rule.
Proof. vm_compute. reflexivity. Qed.

(** A value of the wrong type is skipped by [ruleTables]; the generator refuses it. *)
Example soft_tables_sample :
  ruleTables (quotes_of "{'tables':['a',5,'b']}") = ["a"; ""; "b"] ∧
  read_select_params (quotes_of "{'tables':['a',5,'b']}") = None.
Proof. by vm_compute. Qed.
