(* ===== verification/CatalogFiles.v ===== *)
(** * Catalog and scheme files

    catalog/io.go: the readers of catalogs, deltas, policies and states, and the
    writer that replaces an artifact through a temporary file; [ParseState] of
    schemeadmin/state.go.  The file system is a directory
    of names over inodes; every operation may fail, and the machine may stop
    between any two of them. *)

From stdpp Require Import gmap.
From S2P Require Import Prelude GoStrings GoFloat Json Canonical JsonText JsonStruct Grants.
From S2P Require Import Values RecordJson ReportLifecycle ReportDecode Envelope.
From S2P Require Import SchemaDigest RuleRead SchemeArtifacts SchemeState Catalog CatalogTrust.

(** ** Readers

    [read] is what [os.ReadFile] returns.  With a file that cannot be parsed its
    bytes are returned too. *)

Definition LoadCatalog (read : result string) : result Catalog * string :=
  match read with
  | inr e => (inr e, "")
  | inl raw => (ParseCatalog raw, raw)
  end.
Definition LoadDelta (read : result string) : result Delta * string :=
  match read with
  | inr e => (inr e, "")
  | inl raw => (ParseDelta raw, raw)
  end.

(** A policy: the declaration of a scheme is a raw message. *)
Definition policy_names : list string :=
  ["domain"; "catalog_id"; "producer"; "schemes"; "max_staleness_seconds"; "max_status_staleness_seconds";
   "require_status"; "status_values"; "provider_bindings"; "observed_at"].
Definition into_scheme_policy : string → string → option string := closed_raw ["declaration"] (λ _ _ raw, Some raw).
Definition in_schemes (old : option (gomap string)) (raw : string) : option (option (gomap string)) :=
  j ← read_document raw;
  match j with
  | JObj _ => m ← members_of raw;
              l ← mapM (λ kv, d ← into_scheme_policy "" kv.2; Some (kv.1, d)) m;
              Some (Some (fold_left (λ acc kv, mset kv.1 kv.2 acc) l (entries old)))
  | JNull => Some None
  | _ => None
  end.
Definition zero_policy : TrustPolicy := mkTrust "" "" "" None 0 0 false [] None [] "".
Definition into_policy : TrustPolicy → string → option TrustPolicy :=
  closed_raw policy_names (λ n p raw,
    let '(mkTrust d c pr sc ms mss rs sv res pb oa) := p in
    if String.eqb n "domain" then x ← from_text in_string d raw; Some (mkTrust x c pr sc ms mss rs sv res pb oa)
    else if String.eqb n "catalog_id" then x ← from_text in_string c raw; Some (mkTrust d x pr sc ms mss rs sv res pb oa)
    else if String.eqb n "producer" then x ← from_text in_string pr raw; Some (mkTrust d c x sc ms mss rs sv res pb oa)
    else if String.eqb n "schemes" then x ← in_schemes sc raw; Some (mkTrust d c pr x ms mss rs sv res pb oa)
    else if String.eqb n "max_staleness_seconds" then
      x ← from_text in_int64 ms raw; Some (mkTrust d c pr sc x mss rs sv res pb oa)
    else if String.eqb n "max_status_staleness_seconds" then
      x ← from_text in_int64 mss raw; Some (mkTrust d c pr sc ms x rs sv res pb oa)
    else if String.eqb n "require_status" then x ← from_text in_bool rs raw; Some (mkTrust d c pr sc ms mss x sv res pb oa)
    else if String.eqb n "status_values" then x ← from_text in_meta sv raw; Some (mkTrust d c pr sc ms mss rs x res pb oa)
    else if String.eqb n "provider_bindings" then
      x ← from_text in_meta pb raw; Some (mkTrust d c pr sc ms mss rs sv res x oa)
    else x ← from_text in_string oa raw; Some (mkTrust d c pr sc ms mss rs sv res pb x)).

Inductive read_error := NoPath | Unreadable (e : error) | TooLarge | Malformed.

Definition decode_closed_raw {A} (into : A → string → option A) (zero : A) (raw : string) : option A :=
  if maxArtifactBytes <? Z.of_nat (String.length raw) then None
  else if negb (Check_dups raw) then None
  else into zero raw.

Definition LoadPolicy (path : string) (read : result string) : TrustPolicy + read_error :=
  if String.eqb path "" then inr NoPath
  else match read with
       | inr e => inr (Unreadable e)
       | inl raw =>
           if maxArtifactBytes <? Z.of_nat (String.length raw) then inr TooLarge
           else match decode_closed_raw into_policy zero_policy raw with Some p => inl p | None => inr Malformed end
       end.

(** A state. *)
Definition generation_names : list string := ["generation"; "digest"].
Definition into_generation (g : GenerationRecord) : jtext → option GenerationRecord :=
  closed_struct generation_names g (λ m,
    n ← field generation_names "generation" in_int64 (gr_generation g) m;
    d ← field generation_names "digest" in_string (gr_digest g) m;
    Some (mkGeneration n d)).
Definition registry_names : list string := ["domain"; "catalog_id"; "producer"; "generation"; "digest"; "history"].
Definition into_registry_state (s : RegistryState) : jtext → option RegistryState :=
  closed_struct registry_names s (λ m,
    d ← field registry_names "domain" in_string (rg_domain s) m;
    c ← field registry_names "catalog_id" in_string (rg_catalog_id s) m;
    p ← field registry_names "producer" in_string (rg_producer s) m;
    g ← field registry_names "generation" in_int64 (rg_generation s) m;
    x ← field registry_names "digest" in_string (rg_digest s) m;
    h ← field registry_names "history" (in_elems into_generation (mkGeneration 0 "")) (rg_history s) m;
    Some (mkRegistry d c p g x h)).

Definition LoadState (path : string) (read : result string) : RegistryState + read_error :=
  if String.eqb path "" then inl zero_state
  else match read with
       | inr e => inr (Unreadable e)
       | inl raw =>
           if maxArtifactBytes <? Z.of_nat (String.length raw) then inr TooLarge
           else match decode_closed into_registry_state zero_state raw with Some s => inl s | None => inr Malformed end
       end.

(** [CanonicalBytes]: the canonical form and a newline. *)
Definition CanonicalBytes (c : Catalog) : string + canon_error :=
  match CanonicalJSON (catalog_any c) with
  | inr e => inr e
  | inl raw => inl (raw +:+ String (chr 10) "")
  end.

(** ** The atomic writer *)

(** An inode: its bytes, and whether they have reached the disk. *)
Record inode := mkInode { nd_data : string; nd_synced : bool }.

(** The names of the directory, the inodes, and the states of the directory a
    machine that stops now may come up with. *)
Record disk := mkDisk {
  dk_dir : gmap string nat;
  dk_inodes : gmap nat inode;
  dk_past : list (gmap string nat)
}.

(** What a reader finds under a name. *)
Definition content (d : disk) (p : string) : option string :=
  i ← dk_dir d !! p; nd ← dk_inodes d !! i; Some (nd_data nd).

(** What may be found after a stop: the directory is the current or a past one,
    bytes that were not synced may be anything. *)
Definition after_stop (d : disk) (p : string) (c : option string) : Prop :=
  ∃ dir, dir ∈ dk_dir d :: dk_past d ∧
    match dir !! p with
    | None => c = None
    | Some i => ∃ nd s, dk_inodes d !! i = Some nd ∧ c = Some s ∧ (nd_synced nd = true → s = nd_data nd)
    end.

Definition set_dir (dir : gmap string nat) (d : disk) : disk := mkDisk dir (dk_inodes d) (dk_dir d :: dk_past d).
Definition set_inode (i : nat) (nd : inode) (d : disk) : disk := mkDisk (dk_dir d) (<[i := nd]> (dk_inodes d)) (dk_past d).

Inductive io_op := OCreate | OWrite | OSync | OChmod | OClose | OPlace | ORemove.
Definition ops : list io_op := [OCreate; OWrite; OSync; OChmod; OClose; OPlace].

Section write.
(** The name and the inode [os.CreateTemp] picks, and what a refused write may have
  left in the file. *)
Context (tmp : string) (ino : nat) (part : string).
Context (path raw : string) (replace : bool).

(** One operation.  [os.Link] fails when the name exists; [os.Rename] replaces. *)
Definition io_step (op : io_op) (d : disk) : option disk :=
match op with
| OCreate => Some (set_dir (<[tmp := ino]> (dk_dir d)) (set_inode ino (mkInode "" false) d))
| OWrite => Some (set_inode ino (mkInode raw false) d)
| OSync => Some (set_inode ino (mkInode raw true) d)
| OChmod | OClose => Some d
| OPlace =>
    if replace then Some (set_dir (<[path := ino]> (delete tmp (dk_dir d))) d)
    else match dk_dir d !! path with
         | Some _ => None
         | None => Some (set_dir (<[path := ino]> (dk_dir d)) d)
         end
| ORemove => Some (set_dir (delete tmp (dk_dir d)) d)
end.

(** A refused operation has no effect, except that a write may stop half way. *)
Definition io_refused (op : io_op) (d : disk) : disk :=
match op with OWrite => set_inode ino (mkInode part false) d | _ => d end.

Context (fails : io_op → bool).
Definition attempt (op : io_op) (d : disk) : option disk := if fails op then None else io_step op d.

(** [defer os.Remove(tmp)]: its error is dropped. *)
Definition deferred (d : disk) : list disk :=
match attempt ORemove d with Some d' => [d; d'] | None => [d] end.

(** [writeFileMode]: every disk it passes through, and whether it succeeds.
  [fails op] is an operation the system refuses; the deferred removal runs on
  every path on which the temporary file was created. *)
Fixpoint run_ops (todo : list io_op) (d : disk) : list disk * bool :=
match todo with
| [] => (deferred d, true)
| op :: todo' =>
    match attempt op d with
    | None => (d :: match op with OCreate => [] | _ => deferred (io_refused op d) end, false)
    | Some d' => let '(trace, ok) := run_ops todo' d' in (d :: trace, ok)
    end
end.
Definition writeFileMode (d : disk) : list disk * bool := run_ops ops d.
End write.

(** Every name of a directory that may come up leads to an inode. *)
Definition disk_wf (d : disk) : Prop :=
  ∀ dir p i, dir ∈ dk_dir d :: dk_past d → dir !! p = Some i → is_Some (dk_inodes d !! i).

Section atomic.
Context (d0 : disk) (tmp path part raw : string) (ino : nat) (replace : bool) (fails : io_op → bool).
(** [os.CreateTemp] picks a name that is not in the directory, and not the path of
  the artifact, with a new inode. *)
Hypothesis tmp_fresh : dk_dir d0 !! tmp = None.
Hypothesis tmp_path : tmp ≠ path.
Hypothesis ino_fresh : dk_inodes d0 !! ino = None.
Hypothesis d0_wf : disk_wf d0.

(** The states that keep the promise on a path: what is there is the old content or
  the whole new one, and what may come up there after a stop might have come up
  before the write began, or is the whole new content. *)
Definition intact (d : disk) : Prop :=
(content d path = content d0 path ∨ content d path = Some raw) ∧
∀ c, after_stop d path c → after_stop d0 path c ∨ c = Some raw.

(** Before and after the artifact is placed. *)
Definition same_inodes (d : disk) : Prop := ∀ i, i ≠ ino → dk_inodes d !! i = dk_inodes d0 !! i.
Definition old_entry (dir : gmap string nat) : Prop :=
∃ dir0, dir0 ∈ dk_dir d0 :: dk_past d0 ∧ dir !! path = dir0 !! path.
Definition unplaced (d : disk) : Prop :=
same_inodes d ∧ dk_dir d !! path = dk_dir d0 !! path ∧ ∀ dir, dir ∈ dk_dir d :: dk_past d → old_entry dir.
Definition placed (d : disk) : Prop :=
same_inodes d ∧ dk_inodes d !! ino = Some (mkInode raw true) ∧
(dk_dir d !! path = dk_dir d0 !! path ∨ dk_dir d !! path = Some ino) ∧
∀ dir, dir ∈ dk_dir d :: dk_past d → old_entry dir ∨ dir !! path = Some ino.

Lemma old_inode dir i : dir ∈ dk_dir d0 :: dk_past d0 → dir !! path = Some i → i ≠ ino.
Proof. intros Hin Hi ->. destruct (d0_wf dir path ino Hin Hi) as [nd Hn]. congruence. Qed.

Lemma content_old d : same_inodes d → dk_dir d !! path = dk_dir d0 !! path → content d path = content d0 path.
Proof.
intros Hs E. unfold content. rewrite E. destruct (dk_dir d0 !! path) as [i|] eqn:Ei in |- *; [|done]. simpl.
by rewrite Hs by (by eapply old_inode; [left|]).
Qed.

Lemma stop_old d (dir : gmap string nat) c :
same_inodes d → old_entry dir →
match dir !! path with
| None => c = None
| Some i => ∃ nd s, dk_inodes d !! i = Some nd ∧ c = Some s ∧ (nd_synced nd = true → s = nd_data nd)
end → after_stop d0 path c.
Proof.
intros Hs (dir0 & Hin & ->) Hc. exists dir0. split; [done|]. destruct (dir0 !! path) as [i|] eqn:E; [|done].
by rewrite Hs in Hc by (by eapply old_inode).
Qed.

Lemma unplaced_intact d : unplaced d → intact d.
Proof.
intros (Hs & He & Hd). split; [left; by apply content_old|].
intros c (dir & Hin & Hc). left. by eapply stop_old; [|apply Hd|].
Qed.

Lemma placed_intact d : placed d → intact d.
Proof.
intros (Hs & Hi & He & Hd). split.
- destruct He as [E|E]; [left; by apply content_old|]. right. unfold content. rewrite E. simpl. by rewrite Hi.
- intros c (dir & Hin & Hc). destruct (Hd dir Hin) as [E|E]; [left; by eapply stop_old|]. right.
  rewrite E in Hc. destruct Hc as (nd & s & Hn & -> & Hy). rewrite Hi in Hn. injection Hn as <-. by rewrite Hy.
Qed.

Lemma unplaced_dir dir d : unplaced d → dir !! path = dk_dir d0 !! path → unplaced (set_dir dir d).
Proof.
intros (Hs & He & Hd) E. split; [done|]. split; [done|]. simpl. intros dir'. rewrite elem_of_cons. intros [->|Hin].
- exists (dk_dir d0). split; [by left|done].
- by apply Hd.
Qed.
Lemma unplaced_inode nd d : unplaced d → unplaced (set_inode ino nd d).
Proof. intros (Hs & He & Hd). split; [|done]. intros i Hi. simpl. rewrite lookup_insert_ne by done. by apply Hs. Qed.
Lemma unplaced_refused op d : unplaced d → unplaced (io_refused ino part op d).
Proof. destruct op; try done. apply unplaced_inode. Qed.
Lemma placed_dir dir d :
placed d → (dir !! path = dk_dir d0 !! path ∨ dir !! path = Some ino) → placed (set_dir dir d).
Proof.
intros (Hs & Hi & He & Hd) E. split_and!; [done..|]. simpl. intros dir'. rewrite elem_of_cons. intros [->|Hin].
- destruct E as [E|E]; [left; exists (dk_dir d0); split; [by left|done]|by right].
- by apply Hd.
Qed.
Lemma unplaced_placed d : unplaced d → dk_inodes d !! ino = Some (mkInode raw true) → placed d.
Proof. intros (Hs & He & Hd) Hi. split_and!; [done|done|by left|]. intros dir Hin. left. by apply Hd. Qed.

Lemma unplaced_start : unplaced d0.
Proof. split; [by intros i|]. split; [done|]. intros dir Hin. by exists dir. Qed.

(** What a trace promises when it ends with or without success. *)
Definition promise (out : list disk * bool) : Prop :=
Forall intact out.1 ∧
(∃ final, list.last out.1 = Some final ∧ (fails ORemove = false → dk_dir final !! tmp = None) ∧
   content final path = if out.2 then Some raw else content d0 path) ∧
(replace = false → is_Some (dk_dir d0 !! path) → out.2 = false).

Lemma promise_cons d out : unplaced d → promise out → promise (d :: out.1, out.2).
Proof.
intros Hu (Hf & (final & Hl & Hr) & He). split_and!; [|exists final|done].
- constructor; [by apply unplaced_intact|done].
- split; [|done]. simpl. destruct out.1; [done|]. by rewrite last_cons_cons.
Qed.

Lemma deferred_removes d :
∃ final, list.last (deferred tmp ino path raw replace fails d) = Some final ∧
  (fails ORemove = false → dk_dir final !! tmp = None) ∧ content final path = content d path.
Proof.
unfold deferred, attempt. destruct (fails ORemove); cbn [io_step].
- by exists d.
- eexists. split; [done|]. split; [intros _; apply lookup_delete_eq|]. unfold content. simpl.
  by rewrite lookup_delete_ne.
Qed.

Lemma deferred_intact (P : disk → Prop) d :
(∀ d, P d → intact d) → (∀ d, P d → P (set_dir (delete tmp (dk_dir d)) d)) → P d →
Forall intact (deferred tmp ino path raw replace fails d).
Proof. intros HP Hr Hd. unfold deferred. case_match eqn:E; unfold attempt in E; repeat case_match; simplify_eq/=; auto. Qed.

Lemma unplaced_remove d : unplaced d → unplaced (set_dir (delete tmp (dk_dir d)) d).
Proof. intros Hu. apply unplaced_dir; [done|]. rewrite lookup_delete_ne by done. apply Hu. Qed.
Lemma placed_remove d : placed d → placed (set_dir (delete tmp (dk_dir d)) d).
Proof. intros Hp. apply placed_dir; [done|]. rewrite lookup_delete_ne by done. apply Hp. Qed.

Lemma promise_failed d :
unplaced d → promise (deferred tmp ino path raw replace fails d, false).
Proof.
intros Hu. destruct (deferred_removes d) as (final & Hl & Ht & Hc). split_and!; [|exists final|done].
- eapply deferred_intact; [apply unplaced_intact|apply unplaced_remove|done].
- split_and!; [done..|]. cbn [snd]. rewrite Hc. apply content_old; apply Hu.
Qed.

Lemma promise_placed d :
placed d → dk_dir d !! path = Some ino → (replace = false → dk_dir d0 !! path = None) →
promise (deferred tmp ino path raw replace fails d, true).
Proof.
intros Hp Hd Hr. destruct (deferred_removes d) as (final & Hl & Ht & Hc). split_and!; [|exists final|].
- eapply deferred_intact; [apply placed_intact|apply placed_remove|done].
- split_and!; [done..|]. cbn [snd]. rewrite Hc. unfold content. rewrite Hd. simpl. destruct Hp as (_ & -> & _). done.
- intros E [x Hx]. rewrite Hr in Hx by done. done.
Qed.

(** A step before the artifact is placed. *)
Lemma promise_step op todo d d' :
unplaced d → op ≠ OCreate → io_step tmp ino path raw replace op d = Some d' →
promise (run_ops tmp ino part path raw replace fails todo d') →
promise (run_ops tmp ino part path raw replace fails (op :: todo) d).
Proof.
intros Hu Hop Hd Hp. cbn [run_ops]. unfold attempt. rewrite Hd. destruct (fails op).
- apply (promise_cons d (_, false)); [done|].
  destruct op; [done|apply promise_failed; by apply unplaced_refused..].
- destruct (run_ops _ _ _ _ _ _ _ todo d') as [trace ok]. by apply (promise_cons d (trace, ok)).
Qed.

(** The last step, on a disk whose temporary file is complete and synced. *)
Lemma promise_place d :
unplaced d → dk_inodes d !! ino = Some (mkInode raw true) →
promise (run_ops tmp ino part path raw replace fails [OPlace] d).
Proof.
intros Hu Hi. cbn [run_ops]. unfold attempt.
assert (promise (d :: deferred tmp ino path raw replace fails (io_refused ino part OPlace d), false)) as Hf.
{ apply (promise_cons d (_, false)); [done|]. by apply promise_failed. }
destruct (fails OPlace); [done|]. cbn [io_step].
assert (dk_dir d !! path = dk_dir d0 !! path) as Hp by apply Hu.
pose proof (unplaced_placed d Hu Hi) as Hpl.
assert (∀ dir, dir !! path = Some ino → (replace = false → dk_dir d0 !! path = None) →
  promise (d :: deferred tmp ino path raw replace fails (set_dir dir d), true)) as Hok.
{ intros dir Hdir Hr. apply (promise_cons d (_, true)); [done|]. apply promise_placed; [|done|done].
  apply placed_dir; [done|by right]. }
destruct replace eqn:Er; [apply Hok; [apply lookup_insert_eq|done]|].
destruct (dk_dir d !! path) eqn:E; [done|]. apply Hok; [apply lookup_insert_eq|done].
Qed.

(** C16: an artifact is written completely or not at all.  Whatever operations the
  system refuses (a refused write may leave any bytes in the temporary file, and
  the removal of that file may be refused too) and wherever the machine stops,
  from any consistent disk, also one with unsynced directory changes of an earlier
  write: a reader finds under the path, at any moment, what was there before or
  the whole new artifact; after a stop it finds what it might have found had the
  machine stopped before the write, or the whole new artifact.  Success means that
  the new artifact is there and failure that the old content still is; the
  temporary file is gone at the end unless its removal was refused; and without
  [replace] an existing artifact is never exchanged.  The temporary file is fresh:
  its name is not in the directory and not the path, its inode is new. *)
Theorem artifact_write_atomic : promise (writeFileMode tmp ino part path raw replace fails d0).
Proof.
unfold writeFileMode, ops. cbn [run_ops]. unfold attempt at 1. destruct (fails OCreate).
{ split_and!; [|exists d0|done]; [|by split_and!]. constructor; [apply unplaced_intact, unplaced_start|constructor]. }
cbn [io_step]. set (d1 := set_dir _ _).
assert (unplaced d1) as U1.
{ apply unplaced_dir; [apply unplaced_inode, unplaced_start|]. simpl. by rewrite lookup_insert_ne. }
assert (promise (run_ops tmp ino part path raw replace fails [OWrite; OSync; OChmod; OClose; OPlace] d1)) as Hp.
{ eapply promise_step; [done|done|done|]. eapply promise_step; [by apply unplaced_inode|done|done|].
  assert (unplaced (set_inode ino (mkInode raw true) (set_inode ino (mkInode raw false) d1))) as U3
    by (by apply unplaced_inode, unplaced_inode).
  eapply promise_step; [done|done|done|]. eapply promise_step; [done|done|done|].
  apply promise_place; [done|]. simpl. apply lookup_insert_eq. }
cbn [run_ops] in Hp. destruct (match attempt _ _ _ _ _ _ OWrite d1 with
  | Some _ => _ | None => _ end) as [trace ok]. apply (promise_cons d0 (trace, ok)); [apply unplaced_start|done].
Qed.
End atomic.

(** ** Samples *)

(** A disk whose last rename has not reached the disk: an older, unsynced file may
    still come up under the name. *)
Definition sample_disk : disk :=
  mkDisk (<["catalog.json" := 1%nat]> ∅) (<[1%nat := mkInode "old" true]> (<[2%nat := mkInode "older" false]> ∅))
    [<["catalog.json" := 2%nat]> ∅].
Definition refuses (op : option io_op) (o : io_op) : bool :=
  match op, o with
  | Some OCreate, OCreate | Some OWrite, OWrite | Some OSync, OSync | Some OChmod, OChmod | Some OClose, OClose
  | Some OPlace, OPlace | Some ORemove, ORemove => true
  | _, _ => false
  end.
Definition sample_write (replace : bool) (op : option io_op) : list disk * bool :=
  writeFileMode ".artifact-1" 7 "ne" "catalog.json" "new" replace (refuses op) sample_disk.

Lemma sample_disk_wf : disk_wf sample_disk.
Proof.
  intros dir p i Hin Hi. assert (i = 1%nat ∨ i = 2%nat) as [->| ->]; [|eexists; vm_compute; reflexivity..].
  apply list_elem_of_In in Hin. destruct Hin as [E|[E|[]]]; subst dir; cbn [dk_dir sample_disk] in Hi;
    apply lookup_insert_Some in Hi as [[_ <-]|[_ Hi]]; auto; by rewrite lookup_empty in Hi.
Qed.

Lemma artifact_write_atomic_witness :
  promise sample_disk ".artifact-1" "catalog.json" "new" true (refuses (Some OWrite)) (sample_write true (Some OWrite)).
Proof.
  apply artifact_write_atomic; [vm_compute; reflexivity|discriminate|vm_compute; reflexivity|exact sample_disk_wf].
Defined.

Example write_outcomes :
  (λ out, (length out.1, (λ d, (content d "catalog.json", content d ".artifact-1")) <$> list.last out.1, out.2)) <$>
    [sample_write true None; sample_write false None; sample_write true (Some OWrite); sample_write false (Some ORemove)] =
  [(8%nat, Some (Some "new"%string, None), true); (8%nat, Some (Some "old"%string, None), false);
   (4%nat, Some (Some "old"%string, None), false); (7%nat, Some (Some "old"%string, Some "new"%string), false)].
Proof. vm_compute. reflexivity. Qed.

Example load_state_sample :
  LoadState "s.json" (inl (quotes_of
    "{'domain':'d','catalog_id':'c','generation':3,'digest':'x','history':[{'generation':2,'digest':'w'}]}")) =
  inl (mkRegistry "d" "c" "" 3 "x" [mkGeneration 2 "w"]).
Proof. vm_compute. reflexivity. Qed.

(** A state without a path is the empty state, a policy without a path an error. *)
Example no_path : LoadState "" (inr "") = inl zero_state ∧ LoadPolicy "" (inr "") = inr NoPath.
Proof. done. Qed.

Example load_policy_sample :
  LoadPolicy "p.json" (inl (quotes_of
    "{'domain':'d','catalog_id':'c','schemes':{'a/b-v1':{'declaration': {'x':1} }},'require_status':true,'observed_at':'t'}")) =
  inl (mkTrust "d" "c" "" (Some [("a/b-v1"%string, quotes_of "{'x':1}")]) 0 0 true [] None [] "t").
Proof. vm_compute. reflexivity. Qed.

(** ** The stored state of a scheme (schemeadmin/state.go)

    [ParseState]: the closed decoder on the state of one scheme namespace, with the
    tombstones and approvals it records. *)

(** A [[]byte] member, kept as text. *)
Definition in_bytes_text (_ : string) (j : jtext) : option string :=
  l ← in_bytes j; Some (String.string_of_list_ascii (map chr l)).

Definition registry_entry_names : list string := ["generation"; "package_digest"].
Definition into_registry_entry (e : RegistryEntry) : jtext → option RegistryEntry :=
  closed_struct registry_entry_names e (λ m,
    g ← field registry_entry_names "generation" in_int64 (re_generation e) m;
    d ← field registry_entry_names "package_digest" in_string (re_digest e) m;
    Some (mkEntry g d)).

Definition revocation_names : list string :=
  ["package_digest"; "generation"; "effective_time"; "reason"; "replacement_digest"; "tombstone"; "signature"].
Definition into_revocation (r : Revocation) : jtext → option Revocation :=
  closed_struct revocation_names r (λ m,
    d ← field revocation_names "package_digest" in_string (rv_digest r) m;
    g ← field revocation_names "generation" in_int64 (rv_generation r) m;
    e ← field revocation_names "effective_time" in_string (rv_effective_time r) m;
    w ← field revocation_names "reason" in_string (rv_reason r) m;
    p ← field revocation_names "replacement_digest" in_string (rv_replacement r) m;
    t ← field revocation_names "tombstone" in_bytes_text (rv_tombstone r) m;
    s ← field revocation_names "signature" in_bytes_text (rv_signature r) m;
    Some (mkRevocation d g e w p t s)).

Definition approval_names : list string := ["package_digest"; "transition_digest"; "approver"; "signature"].
Definition into_approval (a : Approval) : jtext → option Approval :=
  closed_struct approval_names a (λ m,
    d ← field approval_names "package_digest" in_string (ap_package a) m;
    t ← field approval_names "transition_digest" in_string (ap_transition a) m;
    p ← field approval_names "approver" in_string (ap_approver a) m;
    s ← field approval_names "signature" in_bytes_text (ap_signature a) m;
    Some (mkApproval d t p s)).

Definition state_names : list string :=
  ["scheme"; "revision"; "generation"; "package_digest"; "history"; "revoked"; "approvals"].
Definition empty_state : SchemeState.RegistryState := mkState "" "" 0 "" [] [] [].
Definition into_state (s : SchemeState.RegistryState) : jtext → option SchemeState.RegistryState :=
  closed_struct state_names s (λ m,
    n ← field state_names "scheme" in_string (st_scheme s) m;
    r ← field state_names "revision" in_string (st_revision s) m;
    g ← field state_names "generation" in_int64 (st_generation s) m;
    d ← field state_names "package_digest" in_string (st_digest s) m;
    h ← field state_names "history" (in_elems into_registry_entry (mkEntry 0 "")) (st_history s) m;
    v ← field state_names "revoked" (in_elems into_revocation (mkRevocation "" 0 "" "" "" "" "")) (st_revoked s) m;
    a ← field state_names "approvals" (in_elems into_approval (mkApproval "" "" "" "")) (st_approvals s) m;
    Some (mkState n r g d h v a)).

(** The size is checked before and by the closed decoder; every failure has the
    code of a malformed state. *)
Definition ParseState (raw : string) : result SchemeState.RegistryState :=
  match decode_closed into_state empty_state raw with
  | Some s => inl s
  | None => inr CodeStateShape
  end.

Example parse_state_sample :
  ParseState (quotes_of "{'scheme':'a/b','generation':2,'package_digest':'d','history':[{'generation':1,'package_digest':'c'}],
    'revoked':[{'package_digest':'c','generation':1,'effective_time':'','reason':'r','tombstone':'AQ=='}]}") =
  inl (mkState "a/b" "" 2 "d" [mkEntry 1 "c"] [mkRevocation "c" 1 "" "r" "" (String (chr 1) "") ""] []).
Proof. vm_compute. reflexivity. Qed.
(** A repeated member, an unknown one and trailing data are refused. *)
Example parse_state_refused :
  ParseState <$> [quotes_of "{'scheme':'a','scheme':'b'}"; quotes_of "{'schema':'a'}"; quotes_of "{} {}"] =
  [inr CodeStateShape; inr CodeStateShape; inr CodeStateShape].
Proof. vm_compute. reflexivity. Qed.
