(* ===== verification/JsonSchema.v ===== *)
(** * The parameter schema validator (jsonschema.go)

    [validate] interprets the supported subset of JSON Schema over decoded
    values.  A Go error is its text; the outer option tells an exhausted fuel
    from a verdict.  Every recursive call of the code increments the depth and a
    [$ref] is refused from depth 100 on, so the calls nest at most 100 levels
    plus the height of the schema: [schema_fuel]. *)

From S2P Require Import Prelude GoStrings GoFloat FloatInt Json JsonText JsonStruct.

(** ** Outcomes *)

(** A verdict: the nil error or an error text; [None] when the fuel ran out. *)
Abbreviation verdict := (option check) (only parsing).

(** [if err := c1; err != nil { return err }; c2]. *)
Definition vseq (c1 c2 : verdict) : verdict :=
  match c1 with Some None => c2 | _ => c1 end.
Notation "c1 ;;! c2" := (vseq c1 c2) (at level 100, right associativity) : go_scope.

(** [for _, x := range l { if err := f(x); err != nil { return err } }]. *)
Section vall.
Context {A : Type} (f : A → verdict).
Fixpoint vall (l : list A) : verdict :=
match l with
| [] => Some None
| x :: l' => f x ;;! vall l'
end.
End vall.

(** A refusal is reported under the place it occurred at. *)
Definition vwrap (at_ : string) (c : verdict) : verdict :=
  match c with Some (Some e) => Some (Some (at_ +:+ ": " +:+ e)%string) | _ => c end.

(** ** Error codes and paths *)

Record SchemaError := mkSchemaError { se_code : string; se_path : string; se_msg : string }.

Definition schemaErrorCode (m : string) : string :=
  if HasPrefix m "must be one of" then "not_in_enum"
  else if HasPrefix m "must be >=" || HasPrefix m "must be <=" then "params_out_of_range"
  else "invalid_params_binding".

(** [strings.Index] with the text after the match. *)
Fixpoint after_str (sub m : string) : option string :=
  if HasPrefix m sub then Some (sdrop (String.length sub) m)
  else match m with EmptyString => None | String _ m' => after_str sub m' end.

Definition property_mark : string := ("property " +:+ String dquote "")%string.

Fixpoint path_parts (fuel : nat) (m : string) : list string :=
  match fuel with
  | O => []
  | S fuel' =>
      match after_str property_mark m with
      | None => []
      | Some rest =>
          match IndexByte dquote rest with
          | None => []
          | Some j => stake j rest :: path_parts fuel' (sdrop j rest)
          end
      end
  end.
Definition schemaErrorPath (m : string) : string := Join "." (path_parts (S (String.length m)) m).

(** ** Keywords *)

Definition maxSchemaRefDepth : Z := 100.

Definition schemaDefs (schema : gomap any) : option (gomap any) :=
  match mget "$defs" schema with Some (AMap d) => Some d | _ => None end.

Definition ref_prefix : string := "#/$defs/".
Definition resolveRef (ref : string) (defs : option (gomap any)) : result (gomap any) :=
  if negb (HasPrefix ref ref_prefix) then
    inr ("unsupported $ref " +:+ Quote ref +:+ " (only #/$defs/...)")%string
  else match defs with
  | None => inr ("$defs not present for $ref " +:+ Quote ref)%string
  | Some d =>
      match mget (TrimPrefix ref ref_prefix) d with
      | Some (AMap target) => inl target
      | _ => inr ("$ref " +:+ Quote ref +:+ " not found in $defs")%string
      end
  end.

Definition asFloat (v : any) : option float64 :=
  match v with
  | AFloat f => Some f
  | AInt (KInt | KInt64) z => Some (of_Z z)
  | _ => None
  end.

Definition is_obj (v : any) : bool := match v with AMap _ => true | _ => false end.
Definition is_arr (v : any) : bool := match v with AList _ => true | _ => false end.
Definition is_str (v : any) : bool := match v with AStr _ => true | _ => false end.
Definition is_bool (v : any) : bool := match v with ABool _ => true | _ => false end.
Definition is_integral (v : any) : bool :=
  match asFloat v with Some n => feq (Trunc n) n | None => false end.
Definition is_number (v : any) : bool := match asFloat v with Some _ => true | None => false end.

Definition checkType (t : string) (v : any) : check :=
  if String.eqb t "object" then guard (negb (is_obj v)) "must be an object"
  else if String.eqb t "array" then guard (negb (is_arr v)) "must be an array"
  else if String.eqb t "string" then guard (negb (is_str v)) "must be a string"
  else if String.eqb t "integer" then guard (negb (is_integral v)) "must be an integer"
  else if String.eqb t "number" then guard (negb (is_number v)) "must be a number"
  else if String.eqb t "boolean" then guard (negb (is_bool v)) "must be a boolean"
  else Some ("unsupported schema type " +:+ Quote t)%string.

(** The typed reads of a schema member, [schema[k].(T)]. *)
Definition get_map (k : string) (s : gomap any) : option (gomap any) :=
  match mget k s with Some (AMap m) => Some m | _ => None end.
Definition get_arr (k : string) (s : gomap any) : option (list any) :=
  match mget k s with Some (AList l) => Some l | _ => None end.
Definition get_text (k : string) (s : gomap any) : option string :=
  match mget k s with Some (AStr t) => Some t | _ => None end.
Definition get_num (k : string) (s : gomap any) : option float64 :=
  match mget k s with Some (AFloat f) => Some f | _ => None end.
Definition get_flag (k : string) (s : gomap any) : bool :=
  match mget k s with Some (ABool b) => b | _ => false end.
Definition props_of (s : gomap any) : gomap any := default [] (get_map "properties" s).

(** The keywords that need no recursion come first.  [nilv] marks a value that
    is the nil map: it reads as an empty object and is deeply equal to no
    decoded value. *)
Definition same_value (nilv : bool) (c value : any) : bool := negb nilv && DeepEqual c value.

Definition check_const (nilv : bool) (s : gomap any) (value : any) : check :=
  match mget "const" s with
  | Some c => guard (negb (same_value nilv c value)) ("must equal " +:+ Sprint_v c)%string
  | None => None
  end.

Definition check_enum (nilv : bool) (s : gomap any) (value : any) : check :=
  match get_arr "enum" s with
  | Some e => guard (negb (existsb (λ c, same_value nilv c value) e)) ("must be one of " +:+ Sprint_v (AList e))%string
  | None => None
  end.

Definition check_type (s : gomap any) (value : any) : check :=
  match get_text "type" s with Some t => checkType t value | None => None end.

Definition bounded (k text : string) (outside : float64 → float64 → bool) (s : gomap any) (n : float64) : check :=
  match get_num k s with
  | Some b => guard (outside n b) (text +:+ Sprint_v (AFloat b))%string
  | None => None
  end.
Definition check_bounds (s : gomap any) (value : any) : check :=
  match asFloat value with
  | Some n => bounded "minimum" "must be >= " flt s n ;;? bounded "maximum" "must be <= " fgt s n
  | None => None
  end.

(** [name, _ := r.(string)]: another type reads as the empty name. *)
Definition name_of (r : any) : string := match r with AStr n => n | _ => "" end.
Definition check_required (s obj : gomap any) : check :=
  match get_arr "required" s with
  | Some req =>
      check_all (λ r, guard (negb (mhas (name_of r) obj)) ("missing required property " +:+ Quote (name_of r))%string) req
  | None => None
  end.

Definition no_extra (tail : string) (props obj : gomap any) : check :=
  check_all (λ kv, guard (negb (mhas kv.1 props)) ("additional property " +:+ Quote kv.1 +:+ tail)%string) obj.
Definition undeclared_tail : string :=
  " not allowed (declare it in params_schema, or set additionalProperties)".

(** The first pair of equal items, in the order of the two loops. *)
Fixpoint first_dup (i : nat) (arr : list any) : option nat :=
  match arr with
  | [] => None
  | x :: rest =>
      match list_find (λ y, DeepEqual x y = true) rest with
      | Some (k, _) => Some (i + 1 + k)%nat
      | None => first_dup (S i) rest
      end
  end.

Definition check_items (s : gomap any) (arr : list any) : check :=
  let n := of_Z (Z.of_nat (length arr)) in
  match get_num "minItems" s with
  | Some mn => guard (flt n mn) ("must have at least " +:+ Sprint_v (AFloat mn) +:+ " items")%string
  | None => None
  end ;;?
  match get_num "maxItems" s with
  | Some mx => guard (fgt n mx) ("must have at most " +:+ Sprint_v (AFloat mx) +:+ " items")%string
  | None => None
  end ;;?
  if get_flag "uniqueItems" s then
    match first_dup 0 arr with
    | Some j => Some ("items must be unique (duplicate at " +:+ Itoa (Z.of_nat j) +:+ ")")%string
    | None => None
    end
  else None.

(** ** Validation *)

Section keywords.
(** [child nilv schema value] is [v.child().validate(schema, value)]. *)
Context (child : bool → gomap any → any → verdict).

Definition check_property (obj : gomap any) (kv : string * any) : verdict :=
match mget kv.1 obj, kv.2 with
| Some pv, AMap sub => vwrap ("property " +:+ Quote kv.1)%string (child false sub pv)
| _, _ => Some None
end.

Definition check_additional (s obj : gomap any) : verdict :=
match mget "additionalProperties" s with
| None =>
    Some (if (0 <? length (props_of s))%nat then no_extra undeclared_tail (props_of s) obj else None)
| Some (ABool true) => Some None
| Some (ABool false) => Some (no_extra " not allowed" (props_of s) obj)
| Some (AMap sub) =>
    vall (λ kv, if mhas kv.1 (props_of s) then Some None
                else vwrap ("property " +:+ Quote kv.1)%string (child false sub kv.2)) obj
| Some _ => Some None
end.

Definition check_object (s obj : gomap any) : verdict :=
Some (check_required s obj) ;;!
vall (check_property obj) (props_of s) ;;!
check_additional s obj.

Fixpoint check_elems (i : nat) (sub : gomap any) (arr : list any) : verdict :=
match arr with
| [] => Some None
| it :: arr' => vwrap ("item " +:+ Itoa (Z.of_nat i))%string (child false sub it) ;;! check_elems (S i) sub arr'
end.

Definition check_array (s : gomap any) (arr : list any) : verdict :=
match get_map "items" s with Some sub => check_elems 0 sub arr | None => Some None end ;;!
Some (check_items s arr).

Fixpoint one_of (nilv : bool) (value : any) (last : string) (l : list any) : verdict :=
match l with
| [] => Some (Some ("must match one of the schemas: " +:+ last)%string)
| AMap sub :: l' =>
    match child nilv sub value with
    | Some None => Some None
    | Some (Some e) => one_of nilv value e l'
    | None => None
    end
| _ :: l' => one_of nilv value last l'
end.

Definition check_oneOf (nilv : bool) (s : gomap any) (value : any) : verdict :=
match get_arr "oneOf" s with Some l => one_of nilv value "<nil>" l | None => Some None end.

Definition check_not (nilv : bool) (s : gomap any) (value : any) : verdict :=
match get_map "not" s with
| Some n =>
    match child nilv n value with
    | Some None => Some (Some "must NOT match the schema"%string)
    | Some (Some _) => Some None
    | None => None
    end
| None => Some None
end.

Definition check_value (nilv : bool) (s : gomap any) (value : any) : check :=
check_const nilv s value ;;? check_enum nilv s value ;;? check_type s value ;;? check_bounds s value.

Definition check_shape (s : gomap any) (value : any) : verdict :=
match value with
| AMap obj => check_object s obj
| AList arr => check_array s arr
| _ => Some None
end.

Definition check_keywords (nilv : bool) (s : gomap any) (value : any) : verdict :=
Some (check_value nilv s value) ;;!
check_shape s value ;;!
check_oneOf nilv s value ;;!
check_not nilv s value.
End keywords.

Fixpoint validate (defs : option (gomap any)) (fuel : nat) (depth : Z) (nilv : bool)
    (s : gomap any) (value : any) : verdict :=
  match fuel with
  | O => None
  | S fuel' =>
      let child := validate defs fuel' (depth + 1) in
      match get_text "$ref" s with
      | Some ref =>
          match resolveRef ref defs with
          | inr e => Some (Some e)
          | inl target =>
              if maxSchemaRefDepth <=? depth then Some (Some "$ref nesting exceeds 100"%string)
              else child nilv target value
          end
      | None => check_keywords child nilv s value
      end
  end.

(** The nesting of a decoded value. *)
Fixpoint height (v : any) : nat :=
  match v with
  | AList l => S (foldr (λ x n, Nat.max (height x) n) 0%nat l)
  | AMap m => S (foldr (λ kv n, Nat.max (height kv.2) n) 0%nat m)
  | _ => 0%nat
  end.

Definition schema_fuel (s : gomap any) : nat := (100 + height (AMap s))%nat.

(** ** A claim's parameters

    The nil map is [None]. *)
Inductive schema_refusal :=
  | RefusedParse
  | RefusedSchema (e : SchemaError).

Definition validate_decoded (s : gomap any) (params : option (gomap any)) : check :=
  default None (validate (schemaDefs s) (schema_fuel s) 0
    (match params with None => true | Some _ => false end) s (AMap (default [] params))).

Definition schema_refused (m : string) : SchemaError := mkSchemaError (schemaErrorCode m) (schemaErrorPath m) m.

Definition validateParamsSchema (raw : string) (params : option (gomap any)) : option schema_refusal :=
  match unmarshal_object raw with
  | None => Some RefusedParse
  | Some schema =>
      match validate_decoded (default [] schema) params with
      | None => None
      | Some m => Some (RefusedSchema (schema_refused m))
      end
  end.

(** ** Termination *)

Lemma vseq_total c1 c2 : c1 ≠ None → c2 ≠ None → (c1 ;;! c2) ≠ None.
Proof. by destruct c1 as [[]|]. Qed.

Lemma vwrap_total p c : c ≠ None → vwrap p c ≠ None.
Proof. by destruct c as [[]|]. Qed.

Lemma vall_total {A} (f : A → verdict) l : (∀ x, x ∈ l → f x ≠ None) → vall f l ≠ None.
Proof.
  induction l as [|x l IH]; simpl; intros H; [done|].
  apply vseq_total; [|apply IH; intros]; apply H; set_solver.
Qed.

Lemma height_elem x l : x ∈ l → (height x < height (AList l))%nat.
Proof. simpl. induction l as [|y l IH]; simpl; set_solver by lia. Qed.

Lemma height_member k x m : (k, x) ∈ m → (height x < height (AMap m))%nat.
Proof.
  simpl. induction m as [|[k' y] m IH]; simpl; [set_solver|].
  intros [[= <- <-]|H]%elem_of_cons; [lia|]. specialize (IH H). lia.
Qed.

Lemma height_mget k x m : mget k m = Some x → (height x < height (AMap m))%nat.
Proof. intros H%mget_elem. by eapply height_member. Qed.

Lemma height_get_map k s m : get_map k s = Some m → (height (AMap m) < height (AMap s))%nat.
Proof.
  unfold get_map. destruct (mget k s) as [[]|] eqn:E; try done. intros [= ->]. by eapply height_mget.
Qed.

Lemma height_get_arr k s l x : get_arr k s = Some l → x ∈ l → (height x < height (AMap s))%nat.
Proof.
  unfold get_arr. destruct (mget k s) as [[]|] eqn:E; try done. intros [= ->] Hx.
  etrans; [by apply height_elem|by eapply height_mget].
Qed.

Lemma height_prop k x s : (k, x) ∈ props_of s → (height x < height (AMap s))%nat.
Proof.
  unfold props_of. destruct (get_map "properties" s) as [m|] eqn:E; simpl; [|set_solver].
  intros H. etrans; [by eapply height_member|by eapply height_get_map].
Qed.

Section totality.
Context (child : bool → gomap any → any → verdict) (s : gomap any).
Hypothesis child_total :
∀ nilv sub w, (height (AMap sub) < height (AMap s))%nat → child nilv sub w ≠ None.

Lemma check_object_total obj : check_object child s obj ≠ None.
Proof.
  apply vseq_total; [done|]. apply vseq_total.
  - apply vall_total. intros [k ps] Hin. unfold check_property. simpl.
    destruct (mget k obj); [|done]. destruct ps; try done.
    apply vwrap_total, child_total. by eapply height_prop.
  - unfold check_additional. destruct (mget "additionalProperties" s) as [ap|] eqn:E; [|done].
    destruct ap as [| [] | | | | | |sub]; try done.
    apply vall_total. intros [k w] _. simpl. destruct (mhas k (props_of s)); [done|].
    apply vwrap_total, child_total. by eapply height_mget.
Qed.

Lemma check_array_total arr : check_array child s arr ≠ None.
Proof.
  apply vseq_total; [|done]. destruct (get_map "items" s) as [sub|] eqn:E; [|done].
  generalize 0%nat. induction arr as [|x arr IH]; intros i; simpl; [done|].
  apply vseq_total; [|apply IH]. apply vwrap_total, child_total. by eapply height_get_map.
Qed.

Lemma check_oneOf_total nilv v : check_oneOf child nilv s v ≠ None.
Proof.
  unfold check_oneOf. destruct (get_arr "oneOf" s) as [l|] eqn:E; [|done].
  assert (∀ x, x ∈ l → (height x < height (AMap s))%nat) as Hl by (intros; by eapply height_get_arr).
  clear E. generalize "<nil>"%string. induction l as [|o l IH]; simpl; intros last; [done|].
  assert (∀ last', one_of child nilv v last' l ≠ None) as IH' by (apply IH; set_solver).
  destruct o; try done. destruct (child nilv m v) as [[]|] eqn:Ec; try done.
  by apply (child_total nilv m v) in Ec; [|apply Hl; set_solver].
Qed.

Lemma check_keywords_total nilv v : check_keywords child nilv s v ≠ None.
Proof.
  apply vseq_total; [done|]. apply vseq_total.
  - destruct v; try done; [apply check_array_total|apply check_object_total].
  - apply vseq_total; [apply check_oneOf_total|]. unfold check_not.
    destruct (get_map "not" s) as [n|] eqn:E; [|done].
    destruct (child nilv n v) as [[]|] eqn:Ec; try done.
    apply child_total in Ec; [done|by eapply height_get_map].
Qed.
End totality.

(** The targets of the references have a bounded height. *)
Definition defs_height (defs : option (gomap any)) : nat := height (AMap (default [] defs)).

Lemma resolveRef_inl ref defs t :
  resolveRef ref defs = inl t →
  HasPrefix ref ref_prefix = true ∧ ∃ d, defs = Some d ∧ mget (TrimPrefix ref ref_prefix) d = Some (AMap t).
Proof.
  unfold resolveRef. destruct (HasPrefix ref ref_prefix); [|done]. destruct defs as [d|]; [|done]. simpl.
  destruct (mget _ d) as [[]|] eqn:E; try done. intros [= ->]. split; [done|]. by exists d.
Qed.

Lemma validate_total defs hmax fuel : ∀ depth nilv s v,
  (defs_height defs ≤ hmax)%nat → (height (AMap s) ≤ hmax)%nat →
  (if depth <? maxSchemaRefDepth then (Z.to_nat (100 - depth) + hmax ≤ fuel)%nat
   else (height (AMap s) ≤ fuel)%nat) →
  validate defs fuel depth nilv s v ≠ None.
Proof.
  induction fuel as [|fuel IH]; intros depth nilv s v Hd Hs Hf; simpl.
  { destruct (Z.ltb_spec depth maxSchemaRefDepth) as [Hlt|]; [|simpl in Hf; lia].
    unfold maxSchemaRefDepth in Hlt. lia. }
  assert (∀ nilv' s' v', (height (AMap s') ≤ hmax)%nat →
    (depth <? maxSchemaRefDepth) = true ∨ (height (AMap s') < height (AMap s))%nat →
    validate defs fuel (depth + 1) nilv' s' v' ≠ None) as Hc.
  { intros nilv' s' v' Hh Hor. apply IH; [done|done|]. revert Hf Hor. unfold maxSchemaRefDepth.
    destruct (Z.ltb_spec depth 100), (Z.ltb_spec (depth + 1) 100); intros ? [?|?]; try done; lia. }
  destruct (get_text "$ref" s) as [ref|].
  - destruct (resolveRef ref defs) as [t|e] eqn:Er; [|done].
    destruct (Z.leb_spec maxSchemaRefDepth depth) as [|Hlt]; [done|]. apply Hc.
    + apply resolveRef_inl in Er as (_ & d & -> & Hg). apply height_mget in Hg.
      unfold defs_height in Hd. simpl default in Hd. lia.
    + left. by apply Z.ltb_lt.
  - apply check_keywords_total. intros nilv' sub w Hh. apply Hc; [lia|by right].
Qed.

Lemma defs_height_schema s : (defs_height (schemaDefs s) ≤ height (AMap s))%nat.
Proof.
  unfold schemaDefs, defs_height. destruct (mget "$defs" s) as [[]|] eqn:E; simpl; try lia.
  apply height_mget in E. simpl in E. lia.
Qed.

Lemma schema_fuel_enough s nilv v fuel :
  (schema_fuel s ≤ fuel)%nat → validate (schemaDefs s) fuel 0 nilv s v ≠ None.
Proof.
  intros Hf. apply (validate_total _ (height (AMap s))); [apply defs_height_schema|done|].
  unfold schema_fuel in Hf. change (0 <? maxSchemaRefDepth) with true. cbv iota. lia.
Qed.

(** ** More fuel does not change a verdict *)

Definition refines (c c' : verdict) : Prop := ∀ r, c = Some r → c' = Some r.

Lemma refines_vseq a a' b b' : refines a a' → refines b b' → refines (a ;;! b) (a' ;;! b').
Proof.
  intros Ha Hb r. destruct a as [o|]; [|done]. rewrite (Ha o) by done. destruct o; [done|apply Hb].
Qed.

Lemma refines_vwrap p c c' : refines c c' → refines (vwrap p c) (vwrap p c').
Proof. intros H r. destruct c as [o|]; [|done]. by rewrite (H o). Qed.

Lemma refines_vall {A} (f g : A → verdict) l :
  (∀ x, refines (f x) (g x)) → refines (vall f l) (vall g l).
Proof. intros H. induction l as [|x l IH]; simpl; [by intros r|]. by apply refines_vseq. Qed.

Section monotone.
Context (child child' : bool → gomap any → any → verdict).
Hypothesis child_refines : ∀ nilv s v, refines (child nilv s v) (child' nilv s v).

Lemma check_object_refines s obj : refines (check_object child s obj) (check_object child' s obj).
Proof.
  apply refines_vseq; [by intros r|]. apply refines_vseq.
  - apply refines_vall. intros [k ps]. unfold check_property. simpl.
    destruct (mget k obj); [|by intros r]. destruct ps; try by intros r. by apply refines_vwrap.
  - unfold check_additional. destruct (mget "additionalProperties" s) as [[|[]| | | | | |sub]|]; try by intros r.
    apply refines_vall. intros [k w]. simpl. destruct (mhas _ _); [by intros r|]. by apply refines_vwrap.
Qed.

Lemma check_array_refines s arr : refines (check_array child s arr) (check_array child' s arr).
Proof.
  apply refines_vseq; [|by intros r]. destruct (get_map "items" s) as [sub|]; [|by intros r].
  generalize 0%nat. induction arr as [|x arr IH]; intros i; simpl; [by intros r|].
  apply refines_vseq; [|apply IH]. by apply refines_vwrap.
Qed.

Lemma one_of_refines nilv v l : ∀ last, refines (one_of child nilv v last l) (one_of child' nilv v last l).
Proof.
  induction l as [|o l IH]; intros last; [by intros r|].
  destruct o; try apply IH. simpl. intros r. destruct (child nilv m v) as [c|] eqn:E; [|done].
  apply child_refines in E. rewrite E. destruct c; [apply IH|done].
Qed.

Lemma check_keywords_refines nilv s v :
  refines (check_keywords child nilv s v) (check_keywords child' nilv s v).
Proof.
  apply refines_vseq; [by intros r|]. apply refines_vseq.
  { destruct v; try by intros r.
    - apply check_array_refines.
    - apply check_object_refines. }
  apply refines_vseq.
  - unfold check_oneOf. destruct (get_arr "oneOf" s); [apply one_of_refines|by intros r].
  - unfold check_not. destruct (get_map "not" s) as [n|]; [|by intros r]. intros r.
    destruct (child nilv n v) as [c|] eqn:E; [|done]. apply child_refines in E. by rewrite E.
Qed.
End monotone.

Lemma validate_refines defs fuel : ∀ fuel' depth nilv s v,
  (fuel ≤ fuel')%nat → refines (validate defs fuel depth nilv s v) (validate defs fuel' depth nilv s v).
Proof.
  induction fuel as [|fuel IH]; intros [|fuel'] depth nilv s v Hf; try lia; try by intros r.
  simpl. destruct (get_text "$ref" s) as [ref|].
  - destruct (resolveRef ref defs); [|by intros r]. destruct (_ <=? _); [by intros r|]. apply IH. lia.
  - apply check_keywords_refines. intros. apply IH. lia.
Qed.

(** ** The meaning of a schema

    [accepts] and [refuses] are the two verdicts of the validator, whatever fuel
    it ran with; every run ends in exactly one of them. *)

Definition accepts (defs : option (gomap any)) (depth : Z) (nilv : bool) (s : gomap any) (v : any) : Prop :=
  ∃ fuel, validate defs fuel depth nilv s v = Some None.

Definition enough (defs : option (gomap any)) (depth : Z) (s : gomap any) : nat :=
  (Z.to_nat (100 - depth) + Nat.max (defs_height defs) (height (AMap s)))%nat.

Lemma enough_total defs depth nilv s v : validate defs (enough defs depth s) depth nilv s v ≠ None.
Proof.
  unfold enough. apply (validate_total _ (Nat.max (defs_height defs) (height (AMap s)))); [lia|lia|].
  destruct (_ <? _); lia.
Qed.

Lemma enough_refines defs fuel depth nilv s v :
  refines (validate defs fuel depth nilv s v) (validate defs (enough defs depth s) depth nilv s v).
Proof.
  intros c E. destruct (validate defs (enough defs depth s) depth nilv s v) as [c'|] eqn:E'.
  - eapply (validate_refines _ _ (fuel + enough defs depth s)) in E, E'; [|lia..]. congruence.
  - by destruct (enough_total defs depth nilv s v).
Qed.

Lemma accepts_enough defs depth nilv s v :
  accepts defs depth nilv s v ↔ validate defs (enough defs depth s) depth nilv s v = Some None.
Proof. split; [|by intros; eexists]. intros [fuel E]. by apply enough_refines in E. Qed.

Section meaning.
Context (acc : bool → gomap any → any → Prop).

(** A member that [properties] does not declare. *)
Definition undeclared_ok (s : gomap any) (w : any) : Prop :=
match mget "additionalProperties" s with
| None => props_of s = []
| Some (ABool open) => open = true
| Some (AMap sub) => acc false sub w
| Some _ => True
end.

Record object_ok (s obj : gomap any) : Prop := {
  ok_required : ∀ req r, get_arr "required" s = Some req → r ∈ req → mhas (name_of r) obj = true;
  ok_properties : ∀ name sub pv,
    (name, AMap sub) ∈ props_of s → mget name obj = Some pv → acc false sub pv;
  ok_undeclared : ∀ k w, (k, w) ∈ obj → mhas k (props_of s) = false → undeclared_ok s w }.

Record value_ok (nilv : bool) (s : gomap any) (v : any) : Prop := {
  ok_const : ∀ c, mget "const" s = Some c → same_value nilv c v = true;
  ok_enum : ∀ e, get_arr "enum" s = Some e → ∃ c, c ∈ e ∧ same_value nilv c v = true;
  ok_type : ∀ t, get_text "type" s = Some t → checkType t v = None;
  ok_minimum : ∀ n b, asFloat v = Some n → get_num "minimum" s = Some b → flt n b = false;
  ok_maximum : ∀ n b, asFloat v = Some n → get_num "maximum" s = Some b → fgt n b = false }.

Record schema_ok (nilv : bool) (s : gomap any) (v : any) : Prop := {
  ok_value : value_ok nilv s v;
  ok_object : ∀ obj, v = AMap obj → object_ok s obj;
  ok_array : ∀ arr, v = AList arr →
    (∀ sub it, get_map "items" s = Some sub → it ∈ arr → acc false sub it) ∧ check_items s arr = None;
  ok_oneOf : ∀ l, get_arr "oneOf" s = Some l → ∃ sub, AMap sub ∈ l ∧ acc nilv sub v;
  ok_not : ∀ n, get_map "not" s = Some n → ¬ acc nilv n v }.
End meaning.

Lemma check_value_None nilv s v : check_value nilv s v = None ↔ value_ok nilv s v.
Proof.
  unfold check_value, check_const, check_enum, check_type, check_bounds, bounded.
  rewrite !check_seq_None. split.
  - intros (H1 & H2 & H3 & H4). split.
    + intros c Ec. rewrite Ec, guard_None in H1. by go_bool.
    + intros e Ee. rewrite Ee, guard_None in H2. go_bool. apply existsb_exists in H2 as (c & Hc & ?).
      exists c. by rewrite list_elem_of_In.
    + intros t Et. by rewrite Et in H3.
    + intros n b En Eb. rewrite En, check_seq_None, Eb, guard_None in H4. naive_solver.
    + intros n b En Eb. rewrite En, check_seq_None, Eb, guard_None in H4. naive_solver.
  - intros [H1 H2 H3 H4 H5]. split_and!.
    + destruct (mget "const" s) as [c|]; [|done]. by rewrite guard_None, H1.
    + destruct (get_arr "enum" s) as [e|]; [|done]. rewrite guard_None. apply negb_false_iff, existsb_exists.
      destruct (H2 e eq_refl) as (c & Hc & ?). exists c. by rewrite <- list_elem_of_In.
    + destruct (get_text "type" s); [|done]. by apply H3.
    + destruct (asFloat v) as [n|]; [|done]. rewrite check_seq_None. split.
      * destruct (get_num "minimum" s) as [b|]; [|done]. rewrite guard_None. by eapply H4.
      * destruct (get_num "maximum" s) as [b|]; [|done]. rewrite guard_None. by eapply H5.
Qed.

(** A child that decides: [acc] is its nil verdict. *)
Lemma vseq_None c1 c2 : (c1 ;;! c2) = Some None ↔ c1 = Some None ∧ c2 = Some None.
Proof. destruct c1 as [[]|]; naive_solver. Qed.

Lemma vwrap_None p c : vwrap p c = Some None ↔ c = Some None.
Proof. destruct c as [[]|]; naive_solver. Qed.

Lemma vall_None {A} (f : A → verdict) l : vall f l = Some None ↔ ∀ x, x ∈ l → f x = Some None.
Proof.
  induction l as [|x l IH]; simpl; [set_solver|]. rewrite vseq_None, IH. set_solver.
Qed.

Section decided.
Context (child : bool → gomap any → any → verdict).
Abbreviation acc := (λ nilv s v, child nilv s v = Some None).

Lemma no_extra_None tail props obj :
  no_extra tail props obj = None ↔ ∀ k w, (k, w) ∈ obj → mhas k props = true.
Proof.
  unfold no_extra. rewrite check_all_None. split.
  - intros H k w Hin. specialize (H _ Hin). rewrite guard_None in H. by go_bool.
  - intros H [k w] Hin. rewrite guard_None. simpl. by erewrite H.
Qed.

Lemma check_additional_None s obj :
  check_additional child s obj = Some None ↔
  ∀ k w, (k, w) ∈ obj → mhas k (props_of s) = false → undeclared_ok acc s w.
Proof.
  unfold check_additional, undeclared_ok. destruct (mget "additionalProperties" s) as [ap|].
  - destruct ap as [|[]| | | | | |sub]; try by split.
    + split; [|intros H; f_equal; apply no_extra_None; intros k w Hin; destruct (mhas k _) eqn:E; naive_solver].
      intros [= H] k w Hin Hk. rewrite no_extra_None in H. specialize (H _ _ Hin). congruence.
    + rewrite vall_None. split.
      * intros H k w Hin Hk. specialize (H _ Hin). simpl in H. rewrite Hk, vwrap_None in H. done.
      * intros H [k w] Hin. simpl. destruct (mhas k _) eqn:Hk; [done|]. rewrite vwrap_None. by eapply H.
  - destruct (props_of s) as [|p ps] eqn:Ep; simpl; [by split|]. rewrite <- Ep. split.
    + intros [= H] k w Hin Hk. rewrite no_extra_None in H. specialize (H _ _ Hin). congruence.
    + intros H. f_equal. apply no_extra_None. intros k w Hin. destruct (mhas k _) eqn:Hk; [done|].
      specialize (H _ _ Hin Hk). congruence.
Qed.

Lemma check_object_None s obj : check_object child s obj = Some None ↔ object_ok acc s obj.
Proof.
  unfold check_object. rewrite !vseq_None, vall_None, check_additional_None. unfold check_required. split.
  - intros (H1 & H2 & H3). split; [|intros name sub pv Hin Hg|done].
    + intros req r Hreq Hr. rewrite Hreq in H1. injection H1 as H1. rewrite check_all_None in H1.
      specialize (H1 _ Hr). rewrite guard_None in H1. by go_bool.
    + specialize (H2 _ Hin). unfold check_property in H2. simpl in H2. by rewrite Hg, vwrap_None in H2.
  - intros [H1 H2 H3]. split_and!; [| |done].
    + destruct (get_arr "required" s) as [req|]; [|done]. f_equal. apply check_all_None.
      intros r Hr. rewrite guard_None. by erewrite H1.
    + intros [name ps] Hin. unfold check_property. simpl. destruct (mget name obj) as [pv|] eqn:Hg; [|done].
      destruct ps; try done. apply vwrap_None. by eapply H2.
Qed.

Lemma check_array_None s arr :
  check_array child s arr = Some None ↔
  (∀ sub it, get_map "items" s = Some sub → it ∈ arr → acc false sub it) ∧ check_items s arr = None.
Proof.
  unfold check_array. rewrite vseq_None. f_equiv; [|split; intros H; [by injection H|by rewrite H]].
  destruct (get_map "items" s) as [sub|]; [|naive_solver].
  trans (∀ it, it ∈ arr → child false sub it = Some None); [|naive_solver].
  generalize 0%nat. induction arr as [|x arr IH]; intros i; simpl; [set_solver|].
  rewrite vseq_None, vwrap_None, IH. set_solver.
Qed.

Lemma one_of_None nilv v l : ∀ last,
  (∀ sub, AMap sub ∈ l → child nilv sub v ≠ None) →
  one_of child nilv v last l = Some None ↔ ∃ sub, AMap sub ∈ l ∧ acc nilv sub v.
Proof.
  induction l as [|o l IH]; intros last Hd; simpl; [set_solver|].
  assert (∀ last', one_of child nilv v last' l = Some None ↔ ∃ sub, AMap sub ∈ l ∧ acc nilv sub v) as IH'.
  { intros. apply IH. set_solver. }
  assert ((∃ sub, AMap sub ∈ o :: l ∧ acc nilv sub v) ↔
    (∃ sub, o = AMap sub ∧ acc nilv sub v) ∨ ∃ sub, AMap sub ∈ l ∧ acc nilv sub v) as ->.
  { setoid_rewrite elem_of_cons. naive_solver. }
  destruct o; try (rewrite IH'; naive_solver).
  destruct (child nilv m v) as [[e|]|] eqn:E; [|naive_solver|].
  - rewrite IH'. naive_solver.
  - exfalso. eapply Hd; [left|done].
Qed.

Lemma check_keywords_None nilv s v :
  (∀ nilv sub w, child nilv sub w ≠ None) →
  check_keywords child nilv s v = Some None ↔ schema_ok acc nilv s v.
Proof.
  intros Hd. unfold check_keywords. rewrite !vseq_None.
  assert (Some (check_value nilv s v) = Some None ↔ value_ok nilv s v) as ->.
  { rewrite <- check_value_None. split; intros H; [by injection H|by rewrite H]. }
  assert (check_oneOf child nilv s v = Some None ↔
    ∀ l, get_arr "oneOf" s = Some l → ∃ sub, AMap sub ∈ l ∧ acc nilv sub v) as ->.
  { unfold check_oneOf. destruct (get_arr "oneOf" s) as [l|]; [|naive_solver].
    rewrite one_of_None by (intros; apply Hd). naive_solver. }
  assert (check_not child nilv s v = Some None ↔ ∀ n, get_map "not" s = Some n → ¬ acc nilv n v) as ->.
  { unfold check_not. destruct (get_map "not" s) as [n|]; [|naive_solver].
    specialize (Hd nilv n v). destruct (child nilv n v) as [[]|] eqn:E; [| |done].
    - split; [intros _ n0 [= <-]; congruence|done].
    - split; [done|]. intros H. by destruct (H n eq_refl). }
  split.
  - intros (H1 & H2 & H3 & H4). split; try done.
    + intros obj ->. by apply check_object_None.
    + intros arr ->. by apply check_array_None.
  - intros [H1 H2 H3 H4 H5]. split_and!; try done. unfold check_shape.
    destruct v; try done; [by apply check_array_None, H3|by apply check_object_None, H2].
Qed.
End decided.

Lemma schema_ok_iff (acc1 acc2 : bool → gomap any → any → Prop) nilv s v :
  (∀ nilv s v, acc1 nilv s v ↔ acc2 nilv s v) → schema_ok acc1 nilv s v ↔ schema_ok acc2 nilv s v.
Proof.
  intros H.
  assert (∀ a1 a2 : bool → gomap any → any → Prop, (∀ nilv s v, a1 nilv s v ↔ a2 nilv s v) →
    schema_ok a1 nilv s v → schema_ok a2 nilv s v) as Himp; [|by split; apply Himp; intros; rewrite H].
  clear H. intros a1 a2 H [H1 H2 H3 H4 H5]. split; [done| | | |].
  - intros obj Hobj. destruct (H2 obj Hobj) as [R1 R2 R3]. split; [done| |].
    + intros. apply H. by eapply R2.
    + intros k w Hin Hk. specialize (R3 k w Hin Hk). revert R3. unfold undeclared_ok.
      destruct (mget _ s) as [[]|]; try done. by rewrite H.
  - intros arr Harr. destruct (H3 arr Harr) as [R1 R2]. split; [|done]. intros. apply H. by apply R1.
  - intros l Hl. destruct (H4 l Hl) as (sub & ? & ?). exists sub. by rewrite <- H.
  - intros n Hn Ha. apply (H5 n Hn). by apply H.
Qed.

(** The verdict of one call from the verdicts of its recursive calls. *)
Lemma accepts_iff defs depth nilv s v :
  accepts defs depth nilv s v ↔
  match get_text "$ref" s with
  | Some ref => ∃ t, resolveRef ref defs = inl t ∧ depth < 100 ∧ accepts defs (depth + 1) nilv t v
  | None => schema_ok (accepts defs (depth + 1)) nilv s v
  end.
Proof.
  set (ideal := λ n t w, validate defs (enough defs (depth + 1) t) (depth + 1) n t w).
  assert (∀ n t w, accepts defs (depth + 1) n t w ↔ ideal n t w = Some None) as Hi by (intros; apply accepts_enough).
  destruct (get_text "$ref" s) as [ref|] eqn:Eref.
  - setoid_rewrite Hi. split.
    + intros [[|fuel] E]; [done|]. simpl in E. rewrite Eref in E.
      destruct (resolveRef ref defs) as [t|e]; [|done]. destruct (Z.leb_spec maxSchemaRefDepth depth) as [|Hlt]; [done|].
      exists t. split_and!; [done|done|]. by apply enough_refines in E.
    + intros (t & Er & Hlt & E). exists (S (enough defs (depth + 1) t)). simpl. rewrite Eref, Er.
      destruct (Z.leb_spec maxSchemaRefDepth depth) as [Hge|]; [unfold maxSchemaRefDepth in Hge; lia|done].
  - rewrite (schema_ok_iff _ _ _ _ _ Hi), <- check_keywords_None by (intros; apply enough_total).
    split.
    + intros [[|fuel] E]; [done|]. simpl in E. rewrite Eref in E. revert E.
      apply check_keywords_refines. intros. apply enough_refines.
    + intros E. destruct (validate defs (enough defs depth s) depth nilv s v) as [c|] eqn:Ec.
      * apply accepts_enough. rewrite Ec. destruct (enough defs depth s) as [|fuel]; [done|].
        simpl in Ec. rewrite Eref in Ec. rewrite <- E. symmetry. revert Ec.
        apply check_keywords_refines. intros. apply enough_refines.
      * by apply enough_total in Ec.
Qed.

(** C19: validation terminates on every schema and every value, cyclic
    references included: the calls nest at most 100 levels plus the height of
    the schema, and with that much fuel or more the verdict is the same. *)
Theorem schema_validation_terminates s nilv v :
  ∃ c, ∀ fuel, (schema_fuel s ≤ fuel)%nat → validate (schemaDefs s) fuel 0 nilv s v = Some c.
Proof.
  pose proof (schema_fuel_enough s nilv v (schema_fuel s) (le_n _)) as Ht.
  destruct (validate (schemaDefs s) (schema_fuel s) 0 nilv s v) as [c|] eqn:E; [|done].
  exists c. intros fuel Hf. revert E. by apply validate_refines.
Qed.

(** The parameters of a claim are accepted as the schema means it. *)
Lemma validate_decoded_accepts s params :
  validate_decoded s params = None ↔
  accepts (schemaDefs s) 0 (match params with None => true | Some _ => false end) s (AMap (default [] params)).
Proof.
  unfold validate_decoded. set (nilv := match params with None => true | Some _ => false end).
  set (v := AMap _). pose proof (schema_fuel_enough s nilv v (schema_fuel s) (le_n _)) as Ht.
  destruct (validate _ _ 0 nilv s v) as [c|] eqn:E; [|done]. simpl.
  rewrite accepts_enough. apply enough_refines in E. rewrite E. split; congruence.
Qed.

Lemma validateParamsSchema_accepts raw params :
  validateParamsSchema raw params = None ↔
  ∃ schema, unmarshal_object raw = Some schema ∧
    accepts (schemaDefs (default [] schema)) 0 (match params with None => true | Some _ => false end)
      (default [] schema) (AMap (default [] params)).
Proof.
  unfold validateParamsSchema. destruct (unmarshal_object raw) as [s|]; [|split; [discriminate|by intros (? & ? & _)]].
  trans (validate_decoded (default [] s) params = None).
  { destruct (validate_decoded _ _); split; congruence. }
  rewrite validate_decoded_accepts. split; [intros H; by exists s|]. by intros (? & [= <-] & ?).
Qed.

(** ** The specification of the schema language

    The meaning of the supported keywords, without reference to the validator: on
    the members of a schema as they are written, with JSON equality, types,
    counting and references defined here. *)

(** JSON equality; the carriers of numbers are kept apart. *)
Inductive same_json : any → any → Prop :=
  | same_null : same_json ANil ANil
  | same_bool b : same_json (ABool b) (ABool b)
  | same_text s : same_json (AStr s) (AStr s)
  | same_float x y : feq x y = true → same_json (AFloat x) (AFloat y)
  | same_float32 x y : feq x y = true → same_json (AFloat32 x) (AFloat32 y)
  | same_int k z : same_json (AInt k z) (AInt k z)
  | same_array l l' : Forall2 same_json l l' → same_json (AList l) (AList l')
  | same_object m m' :
      length m = length m' → (∀ k x, (k, x) ∈ m → ∃ y, mget k m' = Some y ∧ same_json x y) →
      same_json (AMap m) (AMap m').

(** The number a value is. *)
Inductive numeric : any → float64 → Prop :=
  | numeric_float f : numeric (AFloat f) f
  | numeric_int z : numeric (AInt KInt z) (of_Z z)
  | numeric_int64 z : numeric (AInt KInt64 z) (of_Z z).

(** The types. *)
Inductive has_type : string → any → Prop :=
  | type_object m : has_type "object" (AMap m)
  | type_array l : has_type "array" (AList l)
  | type_string s : has_type "string" (AStr s)
  | type_boolean b : has_type "boolean" (ABool b)
  | type_number v f : numeric v f → has_type "number" v
  | type_integer v f : numeric v f → integral f → has_type "integer" v.

(** The properties a schema declares. *)
Definition declares (s : gomap any) (k : string) : Prop :=
  ∃ props, mget "properties" s = Some (AMap props) ∧ k ∈ mkeys props.

(** The definition a reference names in the document. *)
Definition definition (root : gomap any) (ref : string) (t : gomap any) : Prop :=
  ∃ name defs, ref = "#/$defs/" +:+ name ∧ mget "$defs" root = Some (AMap defs) ∧ mget name defs = Some (AMap t).

Section language.
(** [sem nilv s v]: the sub-schema [s] admits [v]; [nilv] marks the nil map of a
  claim without parameters, which equals no value of a schema. *)
Context (sem : bool → gomap any → any → Prop).

Record constant_ok (nilv : bool) (s : gomap any) (v : any) : Prop := {
  sk_const : ∀ c, mget "const" s = Some c → nilv = false ∧ same_json c v;
  sk_enum : ∀ e, mget "enum" s = Some (AList e) → nilv = false ∧ ∃ c, c ∈ e ∧ same_json c v;
  sk_type : ∀ t, mget "type" s = Some (AStr t) → has_type t v;
  sk_minimum : ∀ n b, numeric v n → mget "minimum" s = Some (AFloat b) → flt n b = false;
  sk_maximum : ∀ n b, numeric v n → mget "maximum" s = Some (AFloat b) → flt b n = false }.

Record members_ok (s obj : gomap any) : Prop := {
  sk_required : ∀ req r, mget "required" s = Some (AList req) → r ∈ req →
    ∃ w, mget (match r with AStr name => name | _ => "" end) obj = Some w;
  sk_properties : ∀ props name sub w, mget "properties" s = Some (AMap props) → (name, AMap sub) ∈ props →
    mget name obj = Some w → sem false sub w;
  (** Undeclared members: closed when properties are declared and nothing is said. *)
  sk_undeclared : ∀ k w, (k, w) ∈ obj → ¬ declares s k →
    match mget "additionalProperties" s with
    | None => ∀ k', ¬ declares s k'
    | Some (ABool open) => open = true
    | Some (AMap sub) => sem false sub w
    | Some _ => True
    end }.

Record array_ok (s : gomap any) (arr : list any) : Prop := {
  sk_items : ∀ sub it, mget "items" s = Some (AMap sub) → it ∈ arr → sem false sub it;
  sk_minItems : ∀ b, mget "minItems" s = Some (AFloat b) → flt (of_Z (Z.of_nat (length arr))) b = false;
  sk_maxItems : ∀ b, mget "maxItems" s = Some (AFloat b) → flt b (of_Z (Z.of_nat (length arr))) = false;
  sk_uniqueItems : mget "uniqueItems" s = Some (ABool true) →
    ∀ i j x y, (i < j)%nat → arr !! i = Some x → arr !! j = Some y → ¬ same_json x y }.

(** The keywords other than [oneOf]. *)
Record plain_ok (nilv : bool) (s : gomap any) (v : any) : Prop := {
  sk_constant : constant_ok nilv s v;
  sk_members : ∀ obj, v = AMap obj → members_ok s obj;
  sk_array : ∀ arr, v = AList arr → array_ok s arr;
  sk_not : ∀ n, mget "not" s = Some (AMap n) → ¬ sem nilv n v }.

(** [oneOf]: exactly one branch admits the value. *)
Definition exactly_one (nilv : bool) (s : gomap any) (v : any) : Prop :=
∀ l, mget "oneOf" s = Some (AList l) →
  ∃ i sub, l !! i = Some (AMap sub) ∧ sem nilv sub v ∧
    ∀ j sub', l !! j = Some (AMap sub') → sem nilv sub' v → j = i.
(** What the validator asks of the branches, and where the two agree. *)
Definition at_least_one_of (nilv : bool) (s : gomap any) (v : any) : Prop :=
∀ l, mget "oneOf" s = Some (AList l) → ∃ sub, AMap sub ∈ l ∧ sem nilv sub v.
Definition exclusive (nilv : bool) (s : gomap any) (v : any) : Prop :=
∀ l i j sub sub', mget "oneOf" s = Some (AList l) → l !! i = Some (AMap sub) → l !! j = Some (AMap sub') →
  sem nilv sub v → sem nilv sub' v → i = j.
End language.

(** The meaning of the schemas of a document, as equations: a schema with a string
    [$ref] means what the definition it names means one level deeper, if the depth
    is below 100; any other schema admits what all of its keywords admit. *)
Definition means (root : gomap any) (sem : Z → bool → gomap any → any → Prop)
    (depth : Z) (nilv : bool) (s : gomap any) (v : any) : Prop :=
  match mget "$ref" s with
  | Some (AStr ref) => ∃ t, definition root ref t ∧ depth < 100 ∧ sem (depth + 1) nilv t v
  | _ => plain_ok (sem (depth + 1)) nilv s v ∧ exactly_one (sem (depth + 1)) nilv s v
  end.
Definition is_meaning (root : gomap any) (sem : Z → bool → gomap any → any → Prop) : Prop :=
  ∀ depth nilv s v, sem depth nilv s v ↔ means root sem depth nilv s v.

(** The schemas that occur in a document, and documents whose [oneOf] branches
    exclude each other. *)
Inductive occurs_in (x : any) : any → Prop :=
  | occurs_here : occurs_in x x
  | occurs_elem y l : y ∈ l → occurs_in x y → occurs_in x (AList l)
  | occurs_member k y m : (k, y) ∈ m → occurs_in x y → occurs_in x (AMap m).
Definition exclusive_branches (root : gomap any) (sem : Z → bool → gomap any → any → Prop) : Prop :=
  ∀ depth nilv s v, occurs_in (AMap s) (AMap root) → exclusive (sem depth) nilv s v.

(** *** The validator's helpers meet the specification *)

Lemma DeepEqual_same a : ∀ b, DeepEqual a b = true ↔ same_json a b.
Proof.
  induction a as [|x|x|x|x|k x|l IH|m IH] using any_nested_ind; intros b;
    try (destruct b; cbn [DeepEqual]; try (split; [done|by inversion 1])).
  - split; constructor.
  - rewrite eqb_true_iff. split; [intros ->; constructor|by inversion 1].
  - rewrite String.eqb_eq. split; [intros ->; constructor|by inversion 1].
  - split; [by constructor|by inversion 1].
  - split; [by constructor|by inversion 1].
  - rewrite andb_true_iff, bool_decide_eq_true, Z.eqb_eq. split; [intros [-> ->]; constructor|by inversion 1].
  - assert (deep_list DeepEqual l l0 = true ↔ Forall2 same_json l l0) as ->;
      [|split; [by constructor|by inversion 1]].
    revert l0. induction IH as [|x l Hx Hl IHl]; intros [|y l0]; cbn [deep_list].
    + split; [constructor|done].
    + split; [done|by inversion 1].
    + split; [done|by inversion 1].
    + rewrite andb_true_iff, Hx, IHl. split; [intros []; by constructor|by inversion 1].
  - rewrite andb_true_iff, Nat.eqb_eq, forallb_forall. rewrite list.Forall_forall in IH. split.
    + intros [Hl H]. constructor; [done|]. intros k x Hin. specialize (H (k, x) (proj1 (list_elem_of_In _ _) Hin)).
      cbn [fst snd] in H. destruct (mget k m0) as [y|]; [|done]. exists y. split; [done|]. by apply (IH (k, x) Hin).
    + inversion 1 as [| | | | | | |m1 m2 Hl Hm]; subst. split; [done|]. intros [k x] Hin%list_elem_of_In.
      cbn [fst snd]. destruct (Hm k x Hin) as (y & -> & Hy). by apply (IH (k, x) Hin).
Qed.

Lemma asFloat_numeric v n : asFloat v = Some n ↔ numeric v n.
Proof.
  split; [|by destruct 1]. destruct v as [| | | | |[] z| |]; cbn; intros; simplify_eq; constructor.
Qed.

Lemma checkType_has_type t v : checkType t v = None ↔ has_type t v.
Proof.
  unfold checkType, is_number, is_integral. repeat match goal with |- context [if String.eqb t ?x then _ else _] =>
    destruct (String.eqb_spec t x) as [->|] end; rewrite ?guard_None, ?negb_false_iff.
  1, 2, 3, 6: split; [destruct v; try done; intros; constructor|by inversion 1].
  - destruct (asFloat v) as [f|] eqn:E.
    + rewrite Trunc_integral. apply asFloat_numeric in E. split; [intros; by econstructor|].
      inversion 1 as [| | | | |? f' Hf Hi]; subst. apply asFloat_numeric in E, Hf. congruence.
    + split; [done|]. inversion 1 as [| | | | |? f' Hf Hi]; subst. apply asFloat_numeric in Hf. congruence.
  - destruct (asFloat v) as [f|] eqn:E.
    + split; [|done]. intros _. econstructor. by apply asFloat_numeric.
    + split; [done|]. inversion 1 as [| | | |? f' Hf|]; subst. apply asFloat_numeric in Hf. congruence.
  - split; [done|]. by inversion 1.
Qed.
(** Reading a member with a type. *)
Lemma get_map_Some k s m : get_map k s = Some m ↔ mget k s = Some (AMap m).
Proof. unfold get_map. destruct (mget k s) as [[]|]; naive_solver. Qed.
Lemma get_arr_Some k s l : get_arr k s = Some l ↔ mget k s = Some (AList l).
Proof. unfold get_arr. destruct (mget k s) as [[]|]; naive_solver. Qed.
Lemma get_text_Some k s t : get_text k s = Some t ↔ mget k s = Some (AStr t).
Proof. unfold get_text. destruct (mget k s) as [[]|]; naive_solver. Qed.
Lemma get_num_Some k s f : get_num k s = Some f ↔ mget k s = Some (AFloat f).
Proof. unfold get_num. destruct (mget k s) as [[]|]; naive_solver. Qed.
Lemma get_flag_true k s : get_flag k s = true ↔ mget k s = Some (ABool true).
Proof. unfold get_flag. destruct (mget k s) as [[]|]; naive_solver. Qed.

Lemma same_value_true nilv c v : same_value nilv c v = true ↔ nilv = false ∧ same_json c v.
Proof. unfold same_value. rewrite andb_true_iff, negb_true_iff, DeepEqual_same. done. Qed.

Lemma props_of_elem k x s : (k, x) ∈ props_of s ↔ ∃ props, mget "properties" s = Some (AMap props) ∧ (k, x) ∈ props.
Proof.
  unfold props_of. destruct (get_map "properties" s) as [props|] eqn:E; cbn [default].
  - apply get_map_Some in E. rewrite E. naive_solver.
  - split; [by intros ?%not_elem_of_nil|]. intros (props & H%get_map_Some & _). congruence.
Qed.

Lemma declares_props s k : mhas k (props_of s) = true ↔ declares s k.
Proof.
  rewrite mhas_true. unfold declares, mkeys. split.
  - intros ([k' x] & -> & (props & Hp & Hx)%props_of_elem)%list_elem_of_fmap. exists props. split; [done|].
    apply list_elem_of_fmap. by exists (k', x).
  - intros (props & Hp & ([k' x] & -> & Hx)%list_elem_of_fmap). apply list_elem_of_fmap. exists (k', x). split; [done|].
    apply props_of_elem. eauto.
Qed.

Lemma props_of_nil s : props_of s = [] ↔ ∀ k, ¬ declares s k.
Proof.
  split.
  - intros E k Hk%declares_props. by rewrite E in Hk.
  - intros H. destruct (props_of s) as [|[k x] ps] eqn:E; [done|]. destruct (H k). apply declares_props, mhas_true. rewrite E.
    unfold mkeys. rewrite fmap_cons. left.
Qed.

Lemma value_constant nilv s v : value_ok nilv s v ↔ constant_ok nilv s v.
Proof.
  split; intros [H1 H2 H3 H4 H5].
  - split.
    + intros c Hc. by apply same_value_true, H1.
    + intros e He%get_arr_Some. destruct (H2 e He) as (c & Hc & [Hn Hs]%same_value_true). eauto.
    + intros t Ht%get_text_Some. by apply checkType_has_type, H3.
    + intros n b Hn%asFloat_numeric Hb%get_num_Some. by eapply H4.
    + intros n b Hn%asFloat_numeric Hb%get_num_Some. by eapply H5.
  - split.
    + intros c Hc. by apply same_value_true, H1.
    + intros e He%get_arr_Some. destruct (H2 e He) as (Hn & c & Hc & Hs). exists c. split; [done|]. by apply same_value_true.
    + intros t Ht%get_text_Some. by apply checkType_has_type, H3.
    + intros n b Hn%asFloat_numeric Hb%get_num_Some. by eapply H4.
    + intros n b Hn%asFloat_numeric Hb%get_num_Some. by eapply H5.
Qed.

Lemma object_members acc s obj : object_ok acc s obj ↔ members_ok acc s obj.
Proof.
  assert (∀ w, undeclared_ok acc s w ↔
    match mget "additionalProperties" s with
    | None => ∀ k', ¬ declares s k' | Some (ABool open) => open = true
    | Some (AMap sub) => acc false sub w | Some _ => True end) as Hu.
  { intros w. unfold undeclared_ok. destruct (mget "additionalProperties" s) as [[]|]; try done. apply props_of_nil. }
  split; intros [H1 H2 H3].
  - split.
    + intros req r Hr%get_arr_Some Hin. specialize (H1 req r Hr Hin). unfold mhas in H1. destruct (mget (name_of r) obj) as [w|] eqn:E; [|done]. by exists w.
    + intros props name sub w Hp Hin Hw. eapply H2; [|done]. apply props_of_elem. eauto.
    + intros k w Hin Hd. apply Hu, (H3 k w Hin). apply not_true_iff_false. by rewrite declares_props.
  - split.
    + intros req r Hr%get_arr_Some Hin. destruct (H1 req r Hr Hin) as [w Hw]. unfold mhas, name_of. by rewrite Hw.
    + intros name sub w (props & Hp & Hin)%props_of_elem Hw. by eapply H2.
    + intros k w Hin Hd. apply Hu, (H3 k w Hin). rewrite <- declares_props. congruence.
Qed.

Lemma first_dup_None i arr :
  first_dup i arr = None ↔ ∀ a b x y, (a < b)%nat → arr !! a = Some x → arr !! b = Some y → ¬ same_json x y.
Proof.
  revert i. induction arr as [|x arr IH]; intros i; cbn [first_dup]; [split; [|done]; by intros _ []|].
  destruct (list_find (λ y, DeepEqual x y = true) arr) as [[k y]|] eqn:E.
  - split; [done|]. intros H. apply list_find_Some in E as (Hk & Heq & _).
    destruct (H 0%nat (S k) x y); [lia|done|done|]. by apply DeepEqual_same.
  - rewrite list_find_None, list.Forall_forall in E. rewrite IH. split.
    + intros H [|a] [|b] u w Hab Hu Hw; try lia; cbn in Hu, Hw.
      * simplify_eq. intros Hs%DeepEqual_same. by apply (E w); [by eapply list_elem_of_lookup_2|].
      * eapply (H a b); [lia|done|done].
    + intros H a b u w Hab Hu Hw. apply (H (S a) (S b)); [lia|done|done].
Qed.

Lemma array_items acc s arr :
  (∀ sub it, get_map "items" s = Some sub → it ∈ arr → acc false sub it) ∧ check_items s arr = None ↔ array_ok acc s arr.
Proof.
  unfold check_items. rewrite !check_seq_None. split.
  - intros (H1 & H2 & H3 & H4). split.
    + intros sub it Hs%get_map_Some. by apply H1.
    + intros b Hb%get_num_Some. rewrite Hb, guard_None in H2. done.
    + intros b Hb%get_num_Some. rewrite Hb, guard_None in H3. done.
    + intros Hu%get_flag_true. rewrite Hu in H4. destruct (first_dup 0 arr) eqn:E; [done|]. by eapply first_dup_None.
  - intros [H1 H2 H3 H4]. split_and!.
    + intros sub it Hs%get_map_Some. by apply H1.
    + destruct (get_num "minItems" s) as [b|] eqn:E; [|done]. apply get_num_Some in E. rewrite guard_None. by apply H2.
    + destruct (get_num "maxItems" s) as [b|] eqn:E; [|done]. apply get_num_Some in E. rewrite guard_None. by apply H3.
    + destruct (get_flag "uniqueItems" s) eqn:E; [|done]. apply get_flag_true in E. specialize (H4 E).
      by rewrite (proj2 (first_dup_None 0 arr) H4).
Qed.

(** The keyword checks are the specification with the weaker reading of [oneOf]. *)
Lemma schema_ok_plain acc nilv s v : schema_ok acc nilv s v ↔ plain_ok acc nilv s v ∧ at_least_one_of acc nilv s v.
Proof.
  split.
  - intros [H1 H2 H3 H4 H5]. split; [|intros l Hl%get_arr_Some; by apply H4]. split.
    + by apply value_constant.
    + intros obj Ho. by apply object_members, H2.
    + intros arr Ha. by apply array_items, H3.
    + intros n Hn%get_map_Some. by apply H5.
  - intros [[H1 H2 H3 H4] H5]. split.
    + by apply value_constant.
    + intros obj Ho. by apply object_members, H2.
    + intros arr Ha. by apply array_items, H3.
    + intros l Hl%get_arr_Some. by apply H5.
    + intros n Hn%get_map_Some. by apply H4.
Qed.

Lemma resolveRef_definition root ref t : resolveRef ref (schemaDefs root) = inl t ↔ definition root ref t.
Proof.
  unfold definition, schemaDefs. split.
  - intros (Hp & d & Hd & Ht)%resolveRef_inl. apply HasPrefix_app in Hp as [name ->]. unfold ref_prefix in Ht.
    rewrite TrimPrefix_app in Ht. exists name, d. destruct (mget "$defs" root) as [[]|]; try done. by simplify_eq.
  - intros (name & d & -> & Hd & Ht). unfold resolveRef. rewrite Hd.
    assert (HasPrefix ("#/$defs/" +:+ name) ref_prefix = true) as -> by (apply HasPrefix_app; eauto). cbn [negb].
    unfold ref_prefix. by rewrite TrimPrefix_app, Ht.
Qed.

(** *** The equations have exactly one solution *)

(** The sub-schemas a schema is checked with. *)
Definition child_of (sub s : gomap any) : Prop :=
  occurs_in (AMap sub) (AMap s) ∧ (height (AMap sub) < height (AMap s))%nat.

Lemma child_member k sub s : mget k s = Some (AMap sub) → child_of sub s.
Proof.
  intros H. split; [|by eapply height_mget]. apply mget_elem in H. eapply occurs_member; [done|constructor].
Qed.
Lemma child_prop k s props name sub : mget k s = Some (AMap props) → (name, AMap sub) ∈ props → child_of sub s.
Proof.
  intros H Hin. split.
  - apply mget_elem in H. eapply occurs_member; [done|]. eapply occurs_member; [done|constructor].
  - apply height_mget in H. apply height_member in Hin. lia.
Qed.
Lemma child_branch k s l sub : mget k s = Some (AList l) → AMap sub ∈ l → child_of sub s.
Proof.
  intros H Hin. split.
  - apply mget_elem in H. eapply occurs_member; [done|]. eapply occurs_elem; [done|constructor].
  - apply height_mget in H. apply height_elem in Hin. lia.
Qed.
#[local] Hint Resolve child_member child_prop child_branch list_elem_of_lookup_2 : core.

Section extension.
Context (sem1 sem2 : bool → gomap any → any → Prop) (s : gomap any).
Hypothesis agree : ∀ nilv sub w, child_of sub s → sem1 nilv sub w ↔ sem2 nilv sub w.

Lemma plain_ok_ext nilv v : plain_ok sem1 nilv s v → plain_ok sem2 nilv s v.
Proof.
  intros [H1 H2 H3 H4]. split; [done| | |].
  - intros obj Ho. destruct (H2 obj Ho) as [R1 R2 R3]. split; [done| |].
    + intros props name sub w Hp Hin Hw. apply agree; [eauto|]. by eapply R2.
    + intros k w Hin Hk. specialize (R3 k w Hin Hk). destruct (mget "additionalProperties" s) as [[]|] eqn:E; try done. apply agree; eauto.
  - intros arr Ha. destruct (H3 arr Ha) as [R1 R2 R3 R4]. split; [|done..]. intros sub it Hs Hin. apply agree; eauto.
  - intros n Hn Hs. apply (H4 n Hn). apply agree; eauto.
Qed.

Lemma at_least_one_of_ext nilv v : at_least_one_of sem1 nilv s v → at_least_one_of sem2 nilv s v.
Proof. intros H l Hl. destruct (H l Hl) as (sub & Hin & Hs). exists sub. split; [done|]. apply agree; eauto. Qed.

Lemma exactly_one_ext nilv v : exactly_one sem1 nilv s v → exactly_one sem2 nilv s v.
Proof.
  intros H l Hl. destruct (H l Hl) as (i & sub & Hi & Hs & Hu). exists i, sub. split; [done|]. split; [apply agree; eauto|].
  intros j sub' Hj Hs'. apply (Hu j sub' Hj). apply agree; eauto.
Qed.
End extension.

Lemma means_ext root (sem1 sem2 : Z → bool → gomap any → any → Prop) depth nilv s v :
  (∀ nilv sub w, child_of sub s ∨ (depth < 100 ∧ ∃ ref, definition root ref sub) →
     sem1 (depth + 1) nilv sub w ↔ sem2 (depth + 1) nilv sub w) →
  means root sem1 depth nilv s v ↔ means root sem2 depth nilv s v.
Proof.
  intros H. assert (∀ sem1 sem2 : Z → bool → gomap any → any → Prop,
    (∀ nilv sub w, child_of sub s ∨ (depth < 100 ∧ ∃ ref, definition root ref sub) →
       sem1 (depth + 1) nilv sub w ↔ sem2 (depth + 1) nilv sub w) →
    means root sem1 depth nilv s v → means root sem2 depth nilv s v) as Himp.
  { clear. intros sem1 sem2 H. unfold means. intros Hm.
    assert (plain_ok (sem1 (depth + 1)) nilv s v ∧ exactly_one (sem1 (depth + 1)) nilv s v →
      plain_ok (sem2 (depth + 1)) nilv s v ∧ exactly_one (sem2 (depth + 1)) nilv s v) as Hp.
    { intros [H1 H2]. split; [by eapply plain_ok_ext; [intros; apply H; left|]|by eapply exactly_one_ext; [intros; apply H; left|]]. }
    destruct (mget "$ref" s) as [[]|]; auto. destruct Hm as (t & Ht & Hd & Hs). exists t. split; [done|].
    split; [done|]. apply H; [right; eauto|done]. }
  split; apply Himp; [done|]. intros. symmetry. by apply H.
Qed.

(** The levels that are left are enough for a schema. *)
Definition fits (hmax n : nat) (depth : Z) (s : gomap any) : Prop :=
  (height (AMap s) ≤ hmax)%nat ∧
  (if depth <? 100 then (Z.to_nat (100 - depth) + hmax ≤ n)%nat else (height (AMap s) ≤ n)%nat).

Lemma fits_pos hmax n depth s : fits hmax n depth s → (0 < n)%nat.
Proof. intros [H1 H2]. cbn [height] in *. destruct (Z.ltb_spec depth 100); lia. Qed.

Lemma fits_next root hmax n depth s sub :
  (defs_height (schemaDefs root) ≤ hmax)%nat → fits hmax (S n) depth s →
  child_of sub s ∨ (depth < 100 ∧ ∃ ref, definition root ref sub) → fits hmax n (depth + 1) sub.
Proof.
  intros Hd [H1 H2] Hor.
  assert (height (AMap sub) ≤ hmax)%nat as Hh.
  { destruct Hor as [[_ Hc]|(_ & ref & name & defs & _ & Hdefs & Hs)]; [lia|]. unfold schemaDefs, defs_height in Hd.
    rewrite Hdefs in Hd. simpl default in Hd. apply height_mget in Hs. lia. }
  split; [done|]. destruct (Z.ltb_spec depth 100), (Z.ltb_spec (depth + 1) 100); try lia.
  destruct Hor as [[_ Hc]|[? _]]; lia.
Qed.

Lemma enough_fits root depth s hmax :
  (Nat.max (defs_height (schemaDefs root)) (height (AMap s)) ≤ hmax)%nat →
  fits hmax (Z.to_nat (100 - depth) + hmax) depth s.
Proof. intros H. split; [lia|]. destruct (_ <? _); lia. Qed.

(** Two solutions agree. *)
Lemma meaning_unique root sem1 sem2 depth nilv s v :
  is_meaning root sem1 → is_meaning root sem2 → sem1 depth nilv s v ↔ sem2 depth nilv s v.
Proof.
  intros M1 M2. set (hmax := Nat.max (defs_height (schemaDefs root)) (height (AMap s))).
  pose proof (enough_fits root depth s hmax (le_n _)) as Hf. revert Hf. generalize (Z.to_nat (100 - depth) + hmax)%nat.
  assert (defs_height (schemaDefs root) ≤ hmax)%nat as Hd by lia. clearbody hmax. intros n.
  revert depth nilv s v. induction n as [|n IH]; intros depth nilv s v Hf; [apply fits_pos in Hf; lia|].
  rewrite (M1 depth), (M2 depth). apply means_ext. intros nilv' sub w Hor. apply IH. by eapply fits_next.
Qed.

(** A solution, by the number of levels. *)
Fixpoint conforms (root : gomap any) (n : nat) (depth : Z) (nilv : bool) (s : gomap any) (v : any) : Prop :=
  match n with
  | O => False
  | S n' => means root (conforms root n') depth nilv s v
  end.

Lemma conforms_stable root hmax n : (defs_height (schemaDefs root) ≤ hmax)%nat → ∀ n' depth nilv s v,
  fits hmax n depth s → fits hmax n' depth s → conforms root n depth nilv s v ↔ conforms root n' depth nilv s v.
Proof.
  intros Hd. induction n as [|n IH]; intros n' depth nilv s v Hf Hf'; [apply fits_pos in Hf; lia|].
  destruct n' as [|n']; [apply fits_pos in Hf'; lia|]. cbn [conforms]. apply means_ext.
  intros nilv' sub w Hor. apply IH; by eapply fits_next.
Qed.

Definition meaning (root : gomap any) (depth : Z) (nilv : bool) (s : gomap any) (v : any) : Prop :=
  conforms root (enough (schemaDefs root) depth s) depth nilv s v.

Lemma meaning_is_meaning root : is_meaning root (meaning root).
Proof.
  intros depth nilv s v. unfold meaning at 1. set (hmax := Nat.max (defs_height (schemaDefs root)) (height (AMap s))).
  assert (fits hmax (enough (schemaDefs root) depth s) depth s) as Hf by (by apply (enough_fits root)).
  destruct (enough (schemaDefs root) depth s) as [|n]; [apply fits_pos in Hf; lia|]. cbn [conforms]. apply means_ext.
  intros nilv' sub w Hor. assert (defs_height (schemaDefs root) ≤ hmax)%nat as Hd by lia.
  pose proof (fits_next root hmax n depth s sub Hd Hf Hor) as Hn. unfold meaning.
  set (h' := Nat.max (defs_height (schemaDefs root)) (height (AMap sub))).
  apply (conforms_stable root h'); [lia| |by apply (enough_fits root)].
  destruct Hn as [N1 N2]. split; [lia|]. destruct (_ <? _); [|done]. lia.
Qed.

(** *** The validator computes the meaning *)

Lemma occurs_in_trans x y z : occurs_in x y → occurs_in y z → occurs_in x z.
Proof. intros Hxy Hyz. induction Hyz; [done|by eapply occurs_elem|by eapply occurs_member]. Qed.

Lemma exclusive_one sem nilv s v :
  exclusive sem nilv s v → at_least_one_of sem nilv s v ↔ exactly_one sem nilv s v.
Proof.
  intros He. split; intros H l Hl.
  - destruct (H l Hl) as (sub & Hin & Hs). apply list_elem_of_lookup_1 in Hin as [i Hi]. exists i, sub.
    split; [done|]. split; [done|]. intros j sub' Hj Hs'. by eapply (He l j i).
  - destruct (H l Hl) as (i & sub & Hi & Hs & _). exists sub. split; [by eapply list_elem_of_lookup_2|done].
Qed.

Lemma occurs_definition root ref t : definition root ref t → occurs_in (AMap t) (AMap root).
Proof.
  intros (name & defs & _ & Hd%mget_elem & Ht%mget_elem). eapply occurs_member; [done|].
  eapply occurs_member; [done|constructor].
Qed.

Lemma accepts_meaning root sem depth nilv s v :
  is_meaning root sem → exclusive_branches root sem → occurs_in (AMap s) (AMap root) →
  accepts (schemaDefs root) depth nilv s v ↔ sem depth nilv s v.
Proof.
  intros M He. set (hmax := Nat.max (defs_height (schemaDefs root)) (height (AMap s))).
  pose proof (enough_fits root depth s hmax (le_n _)) as Hf. revert Hf. generalize (Z.to_nat (100 - depth) + hmax)%nat.
  assert (defs_height (schemaDefs root) ≤ hmax)%nat as Hd by lia. clearbody hmax. intros n.
  revert depth nilv s v. induction n as [|n IH]; intros depth nilv s v Hf Ho; [apply fits_pos in Hf; lia|].
  assert (∀ nilv' sub w, child_of sub s ∨ (depth < 100 ∧ ∃ ref, definition root ref sub) →
    accepts (schemaDefs root) (depth + 1) nilv' sub w ↔ sem (depth + 1) nilv' sub w) as IH'.
  { intros nilv' sub w Hor. apply IH; [by eapply fits_next|]. destruct Hor as [[Hc _]|(_ & ref & Hr)].
    - by eapply occurs_in_trans.
    - by eapply occurs_definition. }
  assert (schema_ok (accepts (schemaDefs root) (depth + 1)) nilv s v ↔
    plain_ok (sem (depth + 1)) nilv s v ∧ exactly_one (sem (depth + 1)) nilv s v) as Hk.
  { rewrite schema_ok_plain, <- (exclusive_one (sem (depth + 1))) by by apply He.
    split; intros [H1 H2]; (split; [eapply plain_ok_ext; [|exact H1]|eapply at_least_one_of_ext; [|exact H2]]);
      intros nilv' sub w Hc; [apply IH'|apply IH'|symmetry; apply IH'|symmetry; apply IH']; by left. }
  rewrite accepts_iff, (M depth). unfold means, get_text. destruct (mget "$ref" s) as [[]|]; try exact Hk.
  setoid_rewrite resolveRef_definition.
  split; intros (t & Ht & Hlt & Hs); exists t; (split; [done|]); (split; [done|]); (apply IH'; [right; eauto|done]).
Qed.


(** ** The refusal code

    [schemaErrorCode] looks at the start of the message, and a refusal inside a
    member starts with the member's place. *)

Lemma vseq_err c1 c2 e : (c1 ;;! c2) = Some (Some e) → c1 = Some (Some e) ∨ c2 = Some (Some e).
Proof. destruct c1 as [[]|]; naive_solver. Qed.

Lemma vall_err {A} (f : A → verdict) l e : vall f l = Some (Some e) → ∃ x, x ∈ l ∧ f x = Some (Some e).
Proof.
  induction l as [|x l IH]; simpl; [done|]. intros [H|H]%vseq_err; [set_solver|].
  destruct (IH H) as (y & ? & ?). set_solver.
Qed.

Lemma vwrap_err p c e : vwrap p c = Some (Some e) → ∃ e', e = (p +:+ ": " +:+ e')%string.
Proof. destruct c as [[]|]; naive_solver. Qed.

(** A text that no range refusal starts with. *)
Definition not_range (e : string) : Prop :=
  HasPrefix e "must be >=" = false ∧ HasPrefix e "must be <=" = false.

Lemma check_object_message child s obj e : check_object child s obj = Some (Some e) → not_range e.
Proof.
  unfold check_object. intros [H|[H|H]%vseq_err]%vseq_err.
  - unfold check_required in H. destruct (get_arr "required" s); [|done]. injection H as H.
    apply check_all_Some in H as (r & _ & [_ ->]%guard_Some). by split.
  - apply vall_err in H as ([k ps] & _ & H). unfold check_property in H. simpl in H.
    destruct (mget k obj); [|done]. destruct ps; try done. apply vwrap_err in H as (e' & ->). by split.
  - unfold check_additional in H.
    destruct (mget "additionalProperties" s) as [[|[]| | | | | |sub]|]; try done.
    + injection H as H. apply check_all_Some in H as (r & _ & [_ ->]%guard_Some). by split.
    + apply vall_err in H as ([k w] & _ & H). simpl in H. destruct (mhas k _); [done|].
      apply vwrap_err in H as (e' & ->). by split.
    + destruct (0 <? length (props_of s))%nat; [|done]. injection H as H.
      apply check_all_Some in H as (r & _ & [_ ->]%guard_Some). by split.
Qed.

Lemma one_of_message child nilv v l e : ∀ last, one_of child nilv v last l = Some (Some e) → not_range e.
Proof.
  induction l as [|o l IH]; intros last; simpl; [intros [= <-]; by split|].
  destruct o; try apply IH. destruct (child nilv m v) as [[]|]; [apply IH|done|done].
Qed.

Lemma checkType_message t v e : checkType t v = Some e → not_range e.
Proof.
  unfold checkType. repeat case_match; try (intros [_ ->]%guard_Some; by split). intros [= <-]. by split.
Qed.

Lemma check_keywords_message child nilv s obj e :
  check_keywords child nilv s (AMap obj) = Some (Some e) → not_range e.
Proof.
  unfold check_keywords. intros [H|[H|[H|H]%vseq_err]%vseq_err]%vseq_err.
  - injection H as H. unfold check_value in H.
    apply check_seq_Some in H as [H|[_ [H|[_ [H|[_ H]]%check_seq_Some]]%check_seq_Some]].
    + unfold check_const in H. destruct (mget "const" s); [|done]. apply guard_Some in H as [_ ->]. by split.
    + unfold check_enum in H. destruct (get_arr "enum" s); [|done]. apply guard_Some in H as [_ ->]. by split.
    + unfold check_type in H. destruct (get_text "type" s); [|done]. by eapply checkType_message.
    + done.
  - by eapply check_object_message.
  - unfold check_oneOf in H. destruct (get_arr "oneOf" s); [|done]. by eapply one_of_message.
  - unfold check_not in H. destruct (get_map "not" s); [|done].
    destruct (child nilv l (AMap obj)) as [[]|]; simplify_eq. by split.
Qed.

Lemma resolveRef_message ref defs e : resolveRef ref defs = inr e → not_range e.
Proof.
  unfold resolveRef. destruct (negb _); [intros [= <-]; by split|].
  destruct defs as [d|]; [|intros [= <-]; by split].
  destruct (mget _ d) as [[]|]; intros [= <-]; by split.
Qed.

Lemma validate_message defs fuel : ∀ depth nilv s obj e,
  validate defs fuel depth nilv s (AMap obj) = Some (Some e) → not_range e.
Proof.
  induction fuel as [|fuel IH]; intros depth nilv s obj e; simpl; [done|].
  destruct (get_text "$ref" s) as [ref|]; [|apply check_keywords_message].
  destruct (resolveRef ref defs) as [t|e'] eqn:Er; [|intros [= <-]; by eapply resolveRef_message].
  destruct (_ <=? _); [intros [= <-]; by split|apply IH].
Qed.

Lemma verdict_message defs fuel depth nilv s obj m :
  default None (validate defs fuel depth nilv s (AMap obj)) = Some m → not_range m.
Proof.
  destruct (validate defs fuel depth nilv s (AMap obj)) as [c|] eqn:E; [|done].
  simpl. intros ->. by eapply validate_message.
Qed.

Lemma decoded_message s params m : validate_decoded s params = Some m → not_range m.
Proof. unfold validate_decoded. generalize (schema_fuel s). intros fuel. apply verdict_message. Qed.

Lemma code_in_range m : not_range m → schemaErrorCode m ≠ "params_out_of_range".
Proof. intros [H1 H2]. unfold schemaErrorCode. rewrite H1, H2. by case_match. Qed.

(** The code [params_out_of_range] is never reported on the schema path: the
    parameters are an object, and a bound of a member is reported under the
    member's name, which the code does not look past. *)
Lemma schema_code_never_out_of_range raw params e :
  validateParamsSchema raw params = Some (RefusedSchema e) → se_code e ≠ "params_out_of_range".
Proof.
  unfold validateParamsSchema. destruct (unmarshal_object raw) as [s|]; [|discriminate].
  destruct (validate_decoded (default [] s) params) as [m|] eqn:E; [|discriminate].
  intros H. assert (se_code e = schemaErrorCode m) as ->; [|by apply code_in_range, (decoded_message _ _ _ E)].
  injection H as <-. reflexivity.
Qed.

(** ** Examples *)

Definition jtext_of (s : string) : string :=
  (fix go s := match s with
   | EmptyString => EmptyString
   | String c s' => String (if Ascii.eqb c "'" then dquote else c) (go s')
   end) s.

Definition jparams (s : string) : option (gomap any) := default None (unmarshal_object (jtext_of s)).

Definition limit_schema : string := jtext_of
  "{'type':'object','properties':{'n':{'type':'integer','minimum':1,'maximum':9},'mode':{'enum':['a','b']}},'required':['n']}".
Definition cyclic_schema : string := jtext_of
  "{'$ref':'#/$defs/a','$defs':{'a':{'$ref':'#/$defs/b'},'b':{'$ref':'#/$defs/a'}}}".
Definition not_cyclic_schema : string := jtext_of
  "{'not':{'$ref':'#/$defs/a'},'$defs':{'a':{'$ref':'#/$defs/a'}}}".
Definition one_of_schema : string := jtext_of
  "{'oneOf':[{'properties':{'n':{'type':'number'}}},{'properties':{'n':{'type':'integer'}}}]}".

Example limit_accepted : validateParamsSchema limit_schema (jparams "{'n':3,'mode':'a'}") = None.
Proof. vm_compute. reflexivity. Qed.

Example limit_refused :
  (λ p, validateParamsSchema limit_schema (jparams p)) <$>
    ["{'n':12}"; "{'n':3,'mode':'c'}"; "{'mode':'a'}"; "{'n':3,'nn':4}"]%string =
  Some ∘ RefusedSchema <$>
    [mkSchemaError "invalid_params_binding" "n" (jtext_of "property 'n': must be <= 9");
     mkSchemaError "invalid_params_binding" "mode" (jtext_of "property 'mode': must be one of [a b]");
     mkSchemaError "invalid_params_binding" "n" (jtext_of "missing required property 'n'");
     mkSchemaError "invalid_params_binding" "nn"
       (jtext_of "additional property 'nn' not allowed (declare it in params_schema, or set additionalProperties)")]%string.
Proof. vm_compute. reflexivity. Qed.

Example cyclic_refused :
  validateParamsSchema cyclic_schema (Some []) =
  Some (RefusedSchema (mkSchemaError "invalid_params_binding" "" "$ref nesting exceeds 100")).
Proof. vm_compute. reflexivity. Qed.

(** A reference that cannot be followed refuses, so [not] over it accepts. *)
Example not_cyclic_accepted : validateParamsSchema not_cyclic_schema (jparams "{'n':1}") = None.
Proof. vm_compute. reflexivity. Qed.

(** [oneOf] stops at the first branch that accepts: two matching branches are
    accepted, where JSON Schema requires exactly one. *)
Example oneOf_is_anyOf : validateParamsSchema one_of_schema (jparams "{'n':1}") = None.
Proof. vm_compute. reflexivity. Qed.

(** A schema that is the JSON null admits every parameter. *)
Example null_schema_open : validateParamsSchema "null" (jparams "{'anything':1}") = None.
Proof. vm_compute. reflexivity. Qed.

(** A document with a [oneOf] whose branches exclude each other. *)
Definition union_schema : string := jtext_of "{'properties':{'x':{'oneOf':[{'type':'string'},{'type':'integer'}]}}}".
Definition union_x : gomap any :=
  [("oneOf", AList [AMap [("type", AStr "string")]; AMap [("type", AStr "integer")]])].
Definition union_root : gomap any := [("properties", AMap [("x", AMap union_x)])].

Lemma union_schema_root : unmarshal_object union_schema = Some (Some union_root).
Proof. vm_compute. reflexivity. Qed.

Lemma typed_only root sem depth nilv t v : is_meaning root sem → sem depth nilv [("type", AStr t)] v → has_type t v.
Proof. intros M [[[_ _ Ht _ _] _ _ _] _]%M. by apply Ht. Qed.

Fixpoint submaps (v : any) : list (gomap any) :=
  match v with
  | AMap m => m :: concat (map (λ kv, submaps kv.2) m)
  | AList l => concat (map submaps l)
  | _ => []
  end.

Lemma occurs_submaps s d : occurs_in (AMap s) d → In s (submaps d).
Proof.
  induction 1 as [|y l Hin _ IH|k y m Hin _ IH]; [by left|cbn|right; cbn]; apply in_concat.
  - exists (submaps y). split; [|done]. apply in_map. by apply list_elem_of_In.
  - exists (submaps y). split; [|done]. apply (in_map (λ kv : string * any, submaps kv.2) m (k, y)). by apply list_elem_of_In.
Qed.

Lemma union_exclusive sem : is_meaning union_root sem → exclusive_branches union_root sem.
Proof.
  intros M depth nilv s v Ho l i j sub sub' Hl Hi Hj Hs Hs'.
  assert (l = [AMap [("type", AStr "string")]; AMap [("type", AStr "integer")]]) as ->.
  { apply occurs_submaps in Ho. cbn in Ho.
    destruct Ho as [E|[E|[E|[E|[E|[]]]]]]; subst s; cbn in Hl; by simplify_eq. }
  assert (∀ v, has_type "string" v → has_type "integer" v → False) as Hno.
  { intros v'. inversion 1; subst. inversion 1 as [| | | | |? ? Hn]; subst. inversion Hn. }
  destruct i as [|[|i]], j as [|[|j]]; cbn in Hi, Hj; simplify_eq; try done;
    apply (typed_only union_root sem) in Hs, Hs'; try done; exfalso; eauto.
Qed.

