(* ===== verification/Registry.v ===== *)
(** * The scheme registry

    The data of schema.go, the registry of registry.go, the set checks of
    validator.go, the flat parameter contract of flatparams.go, the claim checks
    of mincap.go and the file selection of loader.go.  Reading and decoding a
    file is a parameter ([load]); a Go map is the list of its entries in
    iteration order. *)

From S2P Require Import Prelude GoStrings GoFloat Json JsonText JsonStruct JsonSchema.
From S2P Require Import Domains.

(** ** Data *)

Record ParameterDef := mkParameterDef {
  pd_type : string; pd_description : string; pd_default : any;
  pd_min : any; pd_max : any; pd_enum : list string; pd_required : bool }.

Record CapabilityEntry := mkCapabilityEntry {
  ce_id : string; ce_description : string;
  ce_parameters : gomap ParameterDef;
  ce_params_schema : string;
  ce_summary : string; ce_usage : string; ce_when_not : string;
  ce_examples : list string; ce_related : list string }.

Record RoleDef := mkRoleDef {
  rd_display_name : string; rd_profiles : list string; rd_grants : list string; rd_ous : list string }.

Record SchemeDefinition := mkSchemeDefinition {
  sd_scheme_id : string; sd_name : string; sd_version : string; sd_description : string;
  sd_vendor : string; sd_product : string; sd_author : string; sd_license : string; sd_homepage : string;
  sd_capabilities : list CapabilityEntry; sd_roles : gomap RoleDef }.

(** ** Names *)

(** [strings.SplitN(s, sep, 2)]. *)
Definition SplitN2 (sep : ascii) (s : string) : list string :=
  match IndexByte sep s with
  | Some i => [stake i s; sdrop (S i) s]
  | None => [s]
  end.

Definition ParseSchemeID (schemeID : string) : option (string * string) :=
  match SplitN2 "/" schemeID with
  | [v; p] => if String.eqb v "" || String.eqb p "" then None else Some (v, p)
  | _ => None
  end.

Definition FormatSchemeID (vendor product : string) : string := (vendor +:+ "/" +:+ product)%string.

Definition isAlphaHyphen (c : Z) : bool :=
  ((97 <=? c) && (c <=? 122)) || ((48 <=? c) && (c <=? 57)) || (c =? 45).

Definition ValidateSchemeID (schemeID : string) : check :=
  match ParseSchemeID schemeID with
  | None => Some ("invalid scheme_id format: " +:+ schemeID +:+ " (expected vendor/product)")%string
  | Some (vendor, product) =>
      check_all (λ rv, guard (negb (isAlphaHyphen rv.1))
        ("invalid vendor name: " +:+ vendor +:+ " (only lowercase letters, digits, hyphens)")%string) (runes vendor) ;;?
      check_all (λ rv, guard (negb (isAlphaHyphen rv.1))
        ("invalid product name: " +:+ product +:+ " (only lowercase letters, digits, hyphens)")%string) (runes product)
  end.

Definition FormatCapability (schemeID capID : string) : string := (schemeID +:+ ":" +:+ capID)%string.

(** The scheme ends at the first colon after the first slash. *)
Definition ParseCapability (s : string) : option (string * string) :=
  match IndexByte "/" s with
  | None => None
  | Some slashIdx =>
      match IndexByte ":" (sdrop slashIdx s) with
      | None => None
      | Some colonIdx =>
          let absColonIdx := (slashIdx + colonIdx)%nat in
          Some (stake absColonIdx s, sdrop (S absColonIdx) s)
      end
  end.

Definition ListCapabilities (def : SchemeDefinition) : list string :=
  sort_Strings (ce_id <$> sd_capabilities def).

(** [MatchCapability]: the exact identifier, or a trailing star segment. *)
Definition MatchCapability (id pattern : string) : bool :=
  String.eqb id pattern ||
  let parts := Split ":" pattern in
  (2 <=? length parts)%nat &&
  String.eqb (default "" (list.last parts)) "*" &&
  forallb (λ p, negb (contains_char "*" p)) (removelast parts) &&
  let prefix := stake (String.length pattern - 1) pattern in
  (String.length prefix <? String.length id)%nat && HasPrefix id prefix.

Definition covered_by (ids : list string) (g : string) : bool := existsb (λ id, MatchCapability id g) ids.

(** ** Scheme files *)

(** [LoadScheme] after the file is read and decoded. *)
Definition finish_scheme (path : string) (def : SchemeDefinition) : result SchemeDefinition :=
  if String.eqb (sd_scheme_id def) "" then inr ("scheme_id is required in " +:+ path)%string
  else match ValidateSchemeID (sd_scheme_id def) with
  | Some e => inr (path +:+ ": " +:+ e)%string
  | None =>
      match sd_capabilities def with
      | [] => inr ("at least one capability required in " +:+ path)%string
      | caps =>
          let '(v, p) := default ("", "") (ParseSchemeID (sd_scheme_id def)) in
          inl (mkSchemeDefinition (sd_scheme_id def) (sd_name def) (sd_version def) (sd_description def)
            (if String.eqb (sd_vendor def) "" then v else sd_vendor def)
            (if String.eqb (sd_product def) "" then p else sd_product def)
            (sd_author def) (sd_license def) (sd_homepage def) caps (sd_roles def))
      end
  end.

Definition role_errors (ids : list string) (sid : string) (kv : string * RoleDef) : list string * list string :=
  let role := kv.1 in
  if String.eqb role "" then (["roles: empty role name"]%string, [])
  else match rd_grants kv.2 with
  | [] => ([("roles[" +:+ role +:+ "]: grants must not be empty")%string], [])
  | grants =>
      let open_grants := List.filter (λ g, negb (covered_by ids g)) grants in
      ((λ g, ("roles[" +:+ role +:+ "]: grant " +:+ Quote g +:+ " not covered by any capability in " +:+ sid)%string) <$>
         List.filter (λ g, negb (contains_char "*" g)) open_grants,
       (λ g, ("roles[" +:+ role +:+ "]: grant " +:+ Quote g +:+ " not in local scheme (cross-scheme namespace wildcard)")%string) <$>
         List.filter (λ g, contains_char "*" g) open_grants)
  end.

(** The errors and the warnings, in the order of the roles. *)
Definition ValidateSchemeRoles (def : option SchemeDefinition) : list string * list string :=
  match def with
  | None => ([], [])
  | Some d =>
      let rs := role_errors (ListCapabilities d) (sd_scheme_id d) <$> sd_roles d in
      (concat rs.*1, concat rs.*2)
  end.

(** [LoadFromFS] after the file is read and decoded: no further check. *)
Definition finish_scheme_fs (path : string) (def : SchemeDefinition) : result SchemeDefinition :=
  if String.eqb (sd_scheme_id def) "" then inr ("scheme_id required in " +:+ path)%string
  else match ValidateSchemeID (sd_scheme_id def) with
  | Some e => inr (path +:+ ": " +:+ e)%string
  | None => inl def
  end.

(** File selection (loader.go): the separator is the slash. *)
Definition isIgnoredDataPath (path : string) : bool :=
  existsb (λ seg, match seg with String c _ => Ascii.eqb c "_" | EmptyString => false end) (Split "/" path).

Definition isVersionFileName (base : string) : bool :=
  match base with
  | String c0 (String c1 (String _ _)) => Ascii.eqb c0 "v" && is_digit c1
  | _ => false
  end.

(** [filepath.Base] and [filepath.Ext]. *)
Definition Base (path : string) : string :=
  if String.eqb path "" then "."
  else match TrimRight "/" path with
  | EmptyString => "/"
  | p => default "" (list.last (Split "/" p))
  end.
Definition Ext (path : string) : string :=
  let last := default "" (list.last (Split "/" path)) in
  match LastIndexByte "." last with Some i => sdrop i last | None => "" end.

Definition is_scheme_file (path : string) : bool :=
  negb (isIgnoredDataPath path) && String.eqb (Ext path) ".json" && isVersionFileName (Base path).

Section loading.
(** [LoadScheme(path)]: the disk and the decoder. *)
Context (load : string → result SchemeDefinition).

(** The walk over the files of the tree, in walk order. *)
Fixpoint walk_schemes (schemes : gomap SchemeDefinition) (files : list string) : result (gomap SchemeDefinition) :=
match files with
| [] => inl schemes
| path :: files' =>
    if is_scheme_file path then
      match load path with
      | inr e => inr e
      | inl def => walk_schemes (mset (sd_scheme_id def) def schemes) files'
      end
    else walk_schemes schemes files'
end.

Definition LoadFromDir (files : list string) : result (gomap SchemeDefinition) := walk_schemes [] files.

(** An empty directory name is refused. *)
Definition LoadFromBoth (diskDir : string) (files : list string) : result (gomap SchemeDefinition) :=
if String.eqb diskDir "" then inr "register: capability_schemes directory required (embedded schemes removed)"%string
else LoadFromDir files.

Definition LoadEmbedded : result (gomap SchemeDefinition) :=
inr "register: embedded schemes removed; configure capability_schemes to point at capability data directory"%string.
End loading.

(** ** The registry *)

Abbreviation registry := (gomap SchemeDefinition) (only parsing).

Definition NewRegistry : registry := [].

Definition Register (def : SchemeDefinition) (r : registry) : check * registry :=
  if mhas (sd_scheme_id def) r then (Some ("register: duplicate scheme_id " +:+ Quote (sd_scheme_id def))%string, r)
  else (None, mset (sd_scheme_id def) def r).

Definition Get (r : registry) (schemeID : string) : option SchemeDefinition := mget schemeID r.
Definition Has (r : registry) (schemeID : string) : bool := mhas schemeID r.

Definition find_capability (def : SchemeDefinition) (capID : string) : option CapabilityEntry :=
  List.find (λ c, String.eqb (ce_id c) capID) (sd_capabilities def).

Definition HasCapability (r : registry) (schemeID capID : string) : bool :=
  match mget schemeID r with
  | None => false
  | Some def => existsb (λ c, String.eqb (ce_id c) capID) (sd_capabilities def)
  end.

Definition ValidateCapability (r : registry) (formatted : string) : result (SchemeDefinition * CapabilityEntry) :=
  match ParseCapability formatted with
  | None => inr ("invalid format: " +:+ formatted +:+ " (expected scheme:capability_id)")%string
  | Some (schemeID, capID) =>
      match Get r schemeID with
      | None => inr ("unknown scheme: " +:+ schemeID)%string
      | Some def =>
          match find_capability def capID with
          | Some c => inl (def, c)
          | None => inr ("unknown capability: " +:+ capID +:+ " in scheme " +:+ schemeID)%string
          end
      end
  end.

Definition SchemeIDs (r : registry) : list string := sort_Strings (mkeys r).

Definition nl : string := String (chr 10) "".
Definition summary_line (r : registry) (id : string) : string :=
  match mget id r with
  | Some def =>
      ("  " +:+ sd_name def +:+ " (" +:+ id +:+ ") v" +:+ sd_version def +:+ " — " +:+
       Itoa (Z.of_nat (length (sd_capabilities def))) +:+ " capability(ies)" +:+ nl)%string
  | None => ""
  end.
Definition Summary (r : registry) : string :=
  let ids := SchemeIDs r in
  foldl (λ result id, (result +:+ summary_line r id)%string)
    ("Capability Register: " +:+ Itoa (Z.of_nat (length ids)) +:+ " scheme(s) registered" +:+ nl)%string ids.

(** The registration loop over the loaded schemes. *)
Fixpoint register_all (defs : list SchemeDefinition) (r : registry) : result registry :=
  match defs with
  | [] => inl r
  | def :: defs' =>
      match Register def r with
      | (Some e, _) => inr e
      | (None, r') => register_all defs' r'
      end
  end.

Definition NewRegistryFromDisk (load : string → result SchemeDefinition) (files : list string) : result registry :=
  let! schemes := LoadFromDir load files in register_all schemes.*2 NewRegistry.

Definition NewRegistryFromBoth (load : string → result SchemeDefinition) (diskDir : string) (files : list string) :
    result registry :=
  let! schemes := LoadFromBoth load diskDir files in register_all schemes.*2 NewRegistry.
