(* ===== verification/Claims.v ===== *)
(** * Capability sets and claims

    The set operations of validator.go, the flat parameter contract of
    flatparams.go and the claim validation and minimal privilege report of
    mincap.go, over the registry. *)

From S2P Require Import Prelude GoStrings GoFloat Json JsonText JsonStruct JsonSchema.
From S2P Require Import Domains Registry.

(** ** Capability sets (validator.go) *)

Record ValidationError := mkValidationError { ve_field : string; ve_message : string }.
Record ValidationResult := mkValidationResult {
  vr_valid : bool; vr_errors : list ValidationError; vr_warnings : list string; vr_checked : Z }.

Definition capability_error (r : registry) (cap : string) : option ValidationError :=
  match ParseCapability cap with
  | None => Some (mkValidationError cap "invalid format (expected scheme:capability_id)")
  | Some (schemeID, capID) =>
      match Get r schemeID with
      | None => Some (mkValidationError cap ("unknown scheme " +:+ Quote schemeID)%string)
      | Some def =>
          if existsb (λ c, String.eqb (ce_id c) capID) (sd_capabilities def) then None
          else Some (mkValidationError cap
                 ("unknown capability " +:+ Quote capID +:+ " in scheme " +:+ Quote schemeID)%string)
      end
  end.

Definition check_capability (r : registry) (res : ValidationResult) (cap : string) : ValidationResult :=
  match capability_error r cap with
  | None => mkValidationResult (vr_valid res) (vr_errors res) (vr_warnings res) (vr_checked res + 1)
  | Some e => mkValidationResult false (vr_errors res ++ [e]) (vr_warnings res) (vr_checked res + 1)
  end.
Definition ValidateCapabilities (r : registry) (caps : list string) : ValidationResult :=
  foldl (check_capability r) (mkValidationResult true [] [] 0) caps.

Section folding.
(** The case table of [unicode.ToLower] outside ASCII. *)
Context (lower_table : Z → Z).

Definition in_folded (l : list string) (s : string) : bool :=
existsb (λ a, String.eqb (ToLower lower_table a) (ToLower lower_table s)) l.

Definition CheckSubset (declared allowed : list string) : list string :=
List.filter (λ d, negb (in_folded allowed d)) declared.

Definition CheckIntersection (setA setB : list string) : list string :=
List.filter (in_folded setB) setA.

Definition FilterByScheme (caps : list string) (schemeID : string) : list string :=
List.filter (λ c, HasPrefix (ToLower lower_table c) (ToLower lower_table (schemeID +:+ ":")%string)) caps.

Fixpoint dedup_from (seen : list string) (caps : list string) : list string :=
match caps with
| [] => []
| c :: caps' =>
    let key := ToLower lower_table c in
    if existsb (String.eqb key) seen then dedup_from seen caps'
    else c :: dedup_from (key :: seen) caps'
end.
Definition Deduplicate (caps : list string) : list string := dedup_from [] caps.
End folding.

Definition role_uncovered (ids : list string) (kv : string * RoleDef) : list string :=
  (λ g, (kv.1 +:+ ":" +:+ g)%string) <$> List.filter (λ g, negb (covered_by ids g)) (rd_grants kv.2).
Definition ValidateRoles (r : registry) (schemeID : string) : result (list string) :=
  match Get r schemeID with
  | None => inr ("unknown scheme: " +:+ schemeID)%string
  | Some def => inl (sd_roles def ≫= role_uncovered (ListCapabilities def))
  end.

Definition RoleGrantCovered (r : registry) (schemeID grant : string) : bool :=
  match Get r schemeID with
  | None => false
  | Some def => covered_by (ListCapabilities def) grant
  end.

(** ** Flat parameters (flatparams.go) *)

Record FieldError := mkFieldError { fe_path : string; fe_code : string; fe_msg : string }.

(** [%T] of a decoded value. *)
Definition int_type_name (k : int_kind) : string :=
  match k with
  | KInt => "int" | KInt8 => "int8" | KInt16 => "int16" | KInt32 => "int32" | KInt64 => "int64"
  | KUint => "uint" | KUint8 => "uint8" | KUint16 => "uint16" | KUint32 => "uint32" | KUint64 => "uint64"
  end.
Definition type_name (v : any) : string :=
  match v with
  | ANil => "<nil>" | ABool _ => "bool" | AStr _ => "string" | AFloat _ => "float64" | AFloat32 _ => "float32"
  | AInt k _ => int_type_name k | AList _ => "[]interface {}" | AMap _ => "map[string]interface {}"
  end.

Definition asJSONNumber (v : any) : option float64 :=
  match v with
  | AFloat f => Some f
  | AInt (KInt | KInt64) z => Some (of_Z z)
  | _ => None
  end.

Definition containsString (l : list string) (s : string) : bool := existsb (λ e, String.eqb e s) l.

Definition field_error (key code msg : string) : FieldError :=
  mkFieldError key code ("parameter " +:+ Quote key +:+ ": " +:+ msg)%string.

Definition check_enum_value (pd : ParameterDef) (key s : string) : option FieldError :=
  guard ((0 <? length (pd_enum pd))%nat && negb (containsString (pd_enum pd) s))
    (field_error key "not_in_enum"
       (Quote s +:+ " not in allowed values " +:+ "[" +:+ Join " " (pd_enum pd) +:+ "]")%string).

Definition check_list_elem (pd : ParameterDef) (key : string) (e : any) : option FieldError :=
  match e with
  | AStr s => check_enum_value pd key s
  | _ => Some (field_error key "invalid_params_binding" ("list element must be a string, got " +:+ type_name e)%string)
  end.

Definition must_be (key what : string) (value : any) : option FieldError :=
  Some (field_error key "invalid_params_binding" ("must be " +:+ what +:+ ", got " +:+ type_name value)%string).

Definition check_int_value (pd : ParameterDef) (key : string) (value : any) : option FieldError :=
  match asJSONNumber value with
  | None => must_be key "an integer" value
  | Some n =>
      match asFloat (pd_min pd) with
      | Some mn => guard (flt n mn) (field_error key "params_out_of_range"
          (Sprint_v (AFloat n) +:+ " is below minimum " +:+ Sprint_v (AFloat mn))%string)
      | None => None
      end ;;?
      match asFloat (pd_max pd) with
      | Some mx => guard (fgt n mx) (field_error key "params_out_of_range"
          (Sprint_v (AFloat n) +:+ " exceeds maximum " +:+ Sprint_v (AFloat mx))%string)
      | None => None
      end
  end.

Definition validateFlatParamValue (pd : ParameterDef) (key : string) (value : any) : option FieldError :=
  if String.eqb (pd_type pd) "int" then check_int_value pd key value
  else if String.eqb (pd_type pd) "bool" then
    match value with ABool _ => None | _ => must_be key "a boolean" value end
  else if String.eqb (pd_type pd) "string" then
    match value with AStr s => check_enum_value pd key s | _ => must_be key "a string" value end
  else if String.eqb (pd_type pd) "list" then
    match value with AList arr => check_all (check_list_elem pd key) arr | _ => must_be key "a list" value end
  else if String.eqb (pd_type pd) "" then None
  else Some (field_error key "invalid_params_binding" ("unsupported ParameterDef type " +:+ Quote (pd_type pd))%string).

(** ** Claims (mincap.go) *)

Record CapabilityClaim := mkClaim {
  cl_scheme_id : string; cl_capability : string;
  cl_parameters : option (gomap any);
  cl_rationale : string; cl_scheme_version : string }.

Inductive params_error :=
  | PMissing (k id : string)
  | PUnknown (k cap : string) (allowed : list string)
  | PField (k cap : string) (e : FieldError)
  | PSchema (e : schema_refusal)
  | PCapability (cap : string).

Inductive claim_error :=
  | CUnknownScheme (id : string)
  | CNotInScheme (cap id : string) (available : list string)
  | CVersion (pinned have : string)
  | CParams (e : params_error)
  | CCovered.

Record ClaimResult := mkClaimResult { cr_claim : CapabilityClaim; cr_valid : bool; cr_error : option claim_error }.

Definition validateFlatParamRequired (entry : CapabilityEntry) (params : gomap any) : option params_error :=
  check_all (λ kv, guard (pd_required kv.2 && negb (mhas kv.1 params)) (PMissing kv.1 (ce_id entry)))
    (ce_parameters entry).

Definition check_flat_param (entry : CapabilityEntry) (cap : string) (kv : string * any) : option params_error :=
  match mget kv.1 (ce_parameters entry) with
  | None => Some (PUnknown kv.1 cap (sort_Strings (mkeys (ce_parameters entry))))
  | Some pd => PField kv.1 cap <$> validateFlatParamValue pd kv.1 kv.2
  end.

Definition validateClaimParams (def : SchemeDefinition) (c : CapabilityClaim) : option params_error :=
  let params := default [] (cl_parameters c) in
  match find_capability def (cl_capability c) with
  | None => guard (0 <? length params)%nat (PCapability (cl_capability c))
  | Some entry =>
      if (0 <? String.length (ce_params_schema entry))%nat then
        PSchema <$> validateParamsSchema (ce_params_schema entry) (cl_parameters c)
      else
        validateFlatParamRequired entry params ;;?
        check_all (check_flat_param entry (cl_capability c)) params
  end.

(** The one parameter contract; a nil map counts as empty. *)
Definition ValidateParams (r : registry) (scheme capability : string) (params : option (gomap any)) :
    option claim_error :=
  match Get r scheme with
  | None => Some (CUnknownScheme scheme)
  | Some def =>
      CParams <$> validateClaimParams def (mkClaim scheme capability (Some (default [] params)) "" "")
  end.

Definition claim_refusal (r : registry) (c : CapabilityClaim) : option claim_error :=
  match Get r (cl_scheme_id c) with
  | None => Some (CUnknownScheme (cl_scheme_id c))
  | Some def =>
      let ids := ListCapabilities def in
      guard (negb (covered_by ids (cl_capability c))) (CNotInScheme (cl_capability c) (cl_scheme_id c) ids) ;;?
      guard (negb (String.eqb (cl_scheme_version c) "") && negb (String.eqb (cl_scheme_version c) (sd_version def)))
        (CVersion (cl_scheme_version c) (sd_version def)) ;;?
      (CParams <$> validateClaimParams def c)
  end.
Definition validate_claim (r : registry) (c : CapabilityClaim) : ClaimResult :=
  match claim_refusal r c with
  | None => mkClaimResult c true None
  | Some e => mkClaimResult c false (Some e)
  end.
Definition ValidateClaims (r : registry) (claims : list CapabilityClaim) : list ClaimResult :=
  validate_claim r <$> claims.

Record MinSetReport := mkMinSetReport {
  ms_valid : list CapabilityClaim; ms_invalid : list ClaimResult; ms_redundant : list ClaimResult;
  ms_missing : list string; ms_allowed : list string; ms_minimal : bool }.

Definition isSubsetMatch (capability grant : string) : bool :=
  negb (String.eqb grant capability) && MatchCapability capability grant.

(** Claim [i] is covered by another claim of the same scheme. *)
Definition covered_by_other (valid : list CapabilityClaim) (i : nat) (v : CapabilityClaim) : bool :=
  existsb (λ jo, negb (i =? jo.1)%nat && String.eqb (cl_scheme_id jo.2) (cl_scheme_id v) &&
                 isSubsetMatch (cl_capability v) (cl_capability jo.2))
    (imap pair valid).

Definition claim_name (v : CapabilityClaim) : string := (cl_scheme_id v +:+ ":" +:+ cl_capability v)%string.

Definition granted_by (grants : list string) (v : CapabilityClaim) : bool :=
  existsb (λ g, MatchCapability (claim_name v) g || MatchCapability (cl_capability v) g) grants.

Definition CheckMinimalCapabilitySet (r : registry) (claims : list CapabilityClaim) (grantedPatterns : list string) :
    MinSetReport :=
  let validated := ValidateClaims r claims in
  let invalid := List.filter (λ v, negb (cr_valid v)) validated in
  let valid := cr_claim <$> List.filter cr_valid validated in
  let redundant :=
    (λ iv, mkClaimResult iv.2 false (Some CCovered)) <$>
      List.filter (λ iv, covered_by_other valid iv.1 iv.2) (imap pair valid) in
  let checked := (0 <? length grantedPatterns)%nat in
  let missing :=
    if checked then claim_name <$> List.filter (λ v, negb (granted_by grantedPatterns v)) valid else [] in
  mkMinSetReport valid invalid redundant missing (if checked then grantedPatterns else [])
    ((length invalid =? 0)%nat && (length redundant =? 0)%nat && (length missing =? 0)%nat).

(** [ParseCapabilityClaims] after decoding: both names are required. *)
Definition claims_named (claims : list CapabilityClaim) : check :=
  check_all (λ ic, guard (String.eqb (cl_scheme_id ic.2) "" || String.eqb (cl_capability ic.2) "")
    ("claim " +:+ Itoa (Z.of_nat ic.1) +:+ ": scheme_id and capability are required")%string) (imap pair claims).
