(* ===== verification/Clock.v ===== *)
(** * The observation clock (clock.go)

    The command-line tools refuse an observed_at that is far from the wall
    clock.  [time.Duration] is a 64-bit count of nanoseconds: [Sub] saturates and
    the negation wraps. *)

From S2P Require Import Prelude GoStrings GoTime.

Definition Minute : Z := 60 * Second.
Definition MaxObservedAtSkew : Z := 5 * Minute.

Inductive clock_error :=
  | NotRFC3339 (observedAt : string)
  | FarFromWallClock (observedAt : string) (delta : Z).

Definition CheckObservedAt (observedAt : string) (now : Time) : option clock_error :=
  match rfc3339_time observedAt with
  | None => Some (NotRFC3339 observedAt)
  | Some t =>
      let delta := Sub now t in
      let delta := if delta <? 0 then wrap64 (- delta) else delta in
      guard (MaxObservedAtSkew <? delta) (FarFromWallClock observedAt delta)
  end.

(** The absolute difference, as the code computes it: it saturates, and it is the
    least duration where the saturated difference has no negation. *)
Lemma skew_of (now t : Time) :
  (let delta := Sub now t in if delta <? 0 then wrap64 (- delta) else delta) =
  if t - now <? 2 ^ 63 then Z.min max_int64 (Z.abs (now - t)) else min_int64.
Proof.
  cbv zeta. assert (Sub now t = Z.min max_int64 (Z.max min_int64 (now - t))) as Hd by reflexivity.
  revert Hd. generalize (Sub now t). intros d Hd. unfold wrap64, max_int64, min_int64 in *.
  change (2 ^ 63) with 9223372036854775808. change (2 ^ 64) with 18446744073709551616.
  destruct (Z.ltb_spec (t - now) 9223372036854775808) as [Hsmall|Hbig].
  - destruct (Z.ltb_spec d 0) as [H|H]; [|lia]. assert (d = now - t) as -> by lia. rewrite Z.mod_small by lia. lia.
  - assert (d = -9223372036854775808) as -> by lia. reflexivity.
Qed.

(** C24: the check of a policy clock.  A text that is not an RFC 3339 instant is
    refused as such.  An instant that is less than 2^63 nanoseconds (about 292
    years) ahead of the wall clock is accepted exactly when it is within five
    minutes of it, in the past or in the future, and refused otherwise with the
    distance (cut at the largest duration). *)
Theorem observed_at_window observedAt now :
  (rfc3339_time observedAt = None → CheckObservedAt observedAt now = Some (NotRFC3339 observedAt)) ∧
  ∀ t, rfc3339_time observedAt = Some t → t - now < 2 ^ 63 →
    CheckObservedAt observedAt now =
      if Z.abs (now - t) <=? 5 * 60 * Second then None
      else Some (FarFromWallClock observedAt (Z.min max_int64 (Z.abs (now - t)))).
Proof.
  unfold CheckObservedAt. split; [by intros ->|]. intros t -> Ht. pose proof (skew_of now t) as Hs. cbv zeta in *.
  rewrite Hs, (proj2 (Z.ltb_lt _ _) Ht). unfold guard, MaxObservedAtSkew, Minute, Second, max_int64.
  destruct (Z.ltb_spec (5 * (60 * 1000000000)) (Z.min 9223372036854775807 (Z.abs (now - t)))),
    (Z.leb_spec (Z.abs (now - t)) (5 * 60 * 1000000000)); try done; lia.
Qed.

Lemma observed_at_window_witness :
  CheckObservedAt "2026-10-28T12:04:00Z" (default 0 (rfc3339_time "2026-10-28T12:00:00Z")) = None ∧
  CheckObservedAt "2026-10-28T12:10:00Z" (default 0 (rfc3339_time "2026-10-28T12:00:00Z")) =
    Some (FarFromWallClock "2026-10-28T12:10:00Z" (10 * Minute)).
Proof.
  pose proof (observed_at_window "2026-10-28T12:04:00Z" (default 0 (rfc3339_time "2026-10-28T12:00:00Z"))) as [_ H1].
  pose proof (observed_at_window "2026-10-28T12:10:00Z" (default 0 (rfc3339_time "2026-10-28T12:00:00Z"))) as [_ H2].
  split; [rewrite (H1 _ eq_refl)|rewrite (H2 _ eq_refl)]; vm_compute; reflexivity.
Defined.

(** Further ahead than that the check accepts: the negation of the saturated
    difference wraps to a negative duration. *)
Lemma far_ahead_accepted observedAt now t :
  rfc3339_time observedAt = Some t → 2 ^ 63 <= t - now → CheckObservedAt observedAt now = None.
Proof.
  intros E Ht. unfold CheckObservedAt. rewrite E. pose proof (skew_of now t) as Hs. cbv zeta in *.
  by rewrite Hs, (proj2 (Z.ltb_ge _ _) Ht).
Qed.

(** A policy clock in the year 9999 passes while the wall clock reads 2026. *)
Example far_future_accepted :
  CheckObservedAt "9999-12-31T00:00:00Z" (default 0 (rfc3339_time "2026-10-28T12:00:00Z")) = None ∧
  CheckObservedAt "2026-10-28T12:10:00Z" (default 0 (rfc3339_time "2026-10-28T12:00:00Z")) ≠ None.
Proof. split; vm_compute; congruence. Qed.
