(* ===== verification/RegistryProofs.v ===== *)
(** * Properties of the scheme registry

    The capability pattern grammar and its agreement with the authorization
    language, names, the registry loaded from disk, the parameter contract and
    the minimal privilege report. *)

From S2P Require Import Prelude GoStrings GoFloat Json JsonText JsonStruct Ids.
From S2P Require Import JsonSchema.
From S2P Require Import Domains DomainsProofs Utf Registry Claims.

(** ** Capability patterns *)

Lemma Join_snoc sep l x : l ≠ [] → Join sep (l ++ [x]) = Join sep l +:+ String sep x.
Proof.
  induction l as [|y l IH]; intros Hl; [done|]. destruct l as [|z l]; [done|].
  change ((y :: z :: l) ++ [x]) with (y :: ((z :: l) ++ [x])).
  rewrite (Join_cons sep y ((z :: l) ++ [x])) by done. rewrite (Join_cons sep y (z :: l)) by done.
  rewrite IH by done. by rewrite <- str_app_assoc.
Qed.

(** The prefix of a pattern that ends in a star segment. *)
Lemma star_prefix pattern segs :
  segs ≠ [] → Split ":" pattern = segs ++ ["*"] →
  stake (String.length pattern - 1) pattern = Join ":" segs +:+ ":".
Proof.
  intros Hs Hp. rewrite <- (Join_Split ":" pattern), Hp, Join_snoc by done.
  assert (Join ":" segs +:+ String ":" "*" = (Join ":" segs +:+ ":") +:+ "*") as ->.
  { by rewrite <- str_app_assoc. }
  rewrite str_length_app. simpl String.length.
  replace (String.length (Join ":" segs +:+ ":") + 1 - 1)%nat with (String.length (Join ":" segs +:+ ":")) by lia.
  apply stake_app.
Qed.

Lemma Split_star_parts pattern segs :
  Split ":" pattern = segs ++ ["*"] → Forall (no_sep ":") segs.
Proof.
  intros Hp. pose proof (Split_no_sep ":" pattern) as H. rewrite Hp in H.
  by apply list.Forall_app in H as [? _].
Qed.

(** An identifier with a given prefix of segments. *)
Lemma prefix_split id segs :
  segs ≠ [] → Forall (no_sep ":") segs →
  ((String.length (Join ":" segs +:+ ":") <? String.length id)%nat &&
    HasPrefix id (Join ":" segs +:+ ":") = true) ↔
  ∃ rest, Split ":" id = segs ++ rest ∧ rest ≠ [] ∧ rest ≠ [""].
Proof.
  intros Hs Hf. rewrite andb_true_iff, HasPrefix_app, Nat.ltb_lt. split.
  - intros [Hl [t ->]]. rewrite <- str_app_assoc. change (":" +:+ t) with (String ":" t).
    exists (Split ":" t). rewrite Split_app_sep, Split_Join by done. split_and!; [done|apply Split_not_nil|].
    intros Ht. assert (t = "") as ->; [by rewrite <- (Join_Split ":" t), Ht|].
    rewrite (str_length_app _ "") in Hl. simpl in Hl. lia.
  - intros (rest & Hid & Hr & Hr').
    assert (id = (Join ":" segs +:+ ":") +:+ Join ":" rest) as E.
    { apply (Split_inj ":"). rewrite Hid, <- str_app_assoc.
      change (":" +:+ Join ":" rest) with (String ":" (Join ":" rest)).
      rewrite Split_app_sep, !Split_Join; try done.
      pose proof (Split_no_sep ":" id) as H. rewrite Hid in H. by apply list.Forall_app in H as [_ ?]. }
    split; [|by exists (Join ":" rest)]. rewrite E, (str_length_app (Join ":" segs +:+ ":")).
    destruct rest as [|r [|r' rest]]; [done| |].
    + simpl. destruct r; [done|]. simpl. lia.
    + rewrite (Join_cons _ r), (str_length_app r) by done. cbn [String.length]. lia.
Qed.

(** The pattern grammar of the registry: a pattern matches itself, and a
    pattern whose last segment is the star, behind at least one segment and
    with no other star, matches exactly the identifiers that extend its prefix by
    one or more segments, not counting a single empty one. *)
Lemma match_capability_iff id pattern :
  MatchCapability id pattern = true ↔
  id = pattern ∨
  ∃ segs rest, segs ≠ [] ∧ Forall (no_sep "*") segs ∧ Split ":" pattern = segs ++ ["*"] ∧
    Split ":" id = segs ++ rest ∧ rest ≠ [] ∧ rest ≠ [""].
Proof.
  unfold MatchCapability. rewrite orb_true_iff, String.eqb_eq. f_equiv. cbv zeta.
  rewrite !andb_true_iff, Nat.leb_le, String.eqb_eq, forallb_forall. split.
  - intros [[[Hl Hstar] Hno] Hpre].
    destruct (Split ":" pattern) as [|p ps] eqn:Ep using rev_ind; [simpl in Hl; lia|]. 
    rewrite last_snoc in Hstar. simpl in Hstar. subst. rewrite removelast_last in Hno.
    assert (ps ≠ []) as Hps by (intros ->; simpl in Hl; lia).
    rewrite (star_prefix _ ps) in Hpre by done.
    rewrite <- andb_true_iff, prefix_split in Hpre by eauto using Split_star_parts.
    destruct Hpre as (rest & ? & ? & ?). exists ps, rest. split_and!; try done.
    apply list.Forall_forall. intros x Hx%list_elem_of_In. apply Hno in Hx. by go_bool.
  - intros (segs & rest & Hs & Hno & Ep & Hid & Hr & Hr').
    rewrite Ep, last_snoc, removelast_last, length_app. rewrite (star_prefix _ segs) by done.
    rewrite <- andb_true_iff, prefix_split by eauto using Split_star_parts.
    split_and!; [destruct segs; simpl; [done|lia]|done| |by exists rest].
    intros x Hx%list_elem_of_In. rewrite list.Forall_forall in Hno. apply Hno in Hx.
    unfold no_sep in Hx. by rewrite Hx.
Qed.

(** The segments before the final star of a valid identifier have none. *)
Lemma check_wildcards_plain p : check_wildcards (p ++ ["*"]) = None → Forall (no_sep "*") p.
Proof.
  induction p as [|x p IH]; [constructor|]. simpl. rewrite check_seq_None. intros [H1 H2].
  constructor; [|by apply IH]. unfold no_sep. destruct (contains_char "*" x); [|done].
  rewrite check_seq_None, !guard_None in H1. destruct H1 as [_ H1]. by destruct p.
Qed.

Lemma ValidateCapabilityID_wildcards id : ValidateCapabilityID id = None → check_wildcards (Split colon id) = None.
Proof. unfold ValidateCapabilityID. rewrite !check_seq_None. naive_solver. Qed.

(** C22: the registry's matcher and the matcher of the authorization language
    give the same answer on valid identifiers: a grant covers an operation for
    the one exactly when it does for the other, where the operation does not end
    in an empty segment and the grant is not a star directly behind the scheme. *)
Theorem match_capability_agrees g o :
  ValidateCapabilityID g = None → ValidateCapabilityID o = None →
  last_segment (Split colon o) ≠ "" →
  length (Split colon g) ≠ 2%nat ∨ last_segment (Split colon g) ≠ "*" →
  MatchCapability o g = true ↔ matchID g o = None.
Proof.
  intros Hg Ho Hlast Hlen. rewrite matchID_covers by done. rewrite match_capability_iff.
  pose proof (ValidateCapabilityID_parts g Hg) as [_ Hl2]. unfold colon in *. split.
  - intros [->|(segs & rest & Hs & _ & Eg & Eo & Hr & _)]; [apply covers_refl|].
    rewrite Eg, Eo in *. split; [|by constructor]. rewrite last_segment_snoc, length_app in *. simpl in *.
    destruct segs as [|a [|b segs]]; simpl in *; [done| |done]. by destruct Hlen.
  - intros [_ Hc]. inversion Hc as [p E1 E2|p rest Hr E1 E2].
    + left. apply (Split_inj ":"). congruence.
    + right. exists p, rest. apply ValidateCapabilityID_wildcards in Hg. unfold colon in Hg.
      rewrite <- E1 in Hg, Hl2. split_and!; try done.
      * intros ->. simpl in Hl2. lia.
      * by apply check_wildcards_plain.
      * intros ->. rewrite <- E2 in Hlast. unfold last_segment in Hlast. by rewrite last_snoc in Hlast.
Qed.

(** ** Names *)

Lemma IndexByte_spec c s i :
  IndexByte c s = Some i → s = stake i s +:+ String c (sdrop (S i) s) ∧ contains_char c (stake i s) = false.
Proof.
  revert i. induction s as [|d s IH]; intros i; simpl; [done|].
  destruct (Ascii.eqb_spec c d) as [->|Hne]; [by intros [= <-]|].
  destruct (IndexByte c s) as [j|] eqn:E; [|done]. intros [= <-].
  destruct (IH j eq_refl) as [H1 H2]. split.
  - cbn [stake sdrop]. rewrite append_cons. by f_equal.
  - cbn [stake]. unfold contains_char in *. simpl. by rewrite H2, (proj2 (Ascii.eqb_neq c d) Hne).
Qed.

Lemma IndexByte_app c s t : contains_char c s = false → IndexByte c (s +:+ String c t) = Some (String.length s).
Proof.
  unfold contains_char. induction s as [|d s IH]; intros H.
  - change ("" +:+ String c t) with (String c t). simpl. by rewrite Ascii.eqb_refl.
  - simpl in H. apply orb_false_iff in H as [H1 H2]. rewrite append_cons. simpl. rewrite H1. by rewrite IH.
Qed.

Lemma sdrop_add i j s : sdrop (i + j) s = sdrop j (sdrop i s).
Proof. revert s. induction i as [|i IH]; intros s; [done|]. destruct s; [by destruct j|]. apply IH. Qed.

Lemma stake_add i j s : stake (i + j) s = stake i s +:+ stake j (sdrop i s).
Proof.
  revert s. induction i as [|i IH]; intros s; [done|]. destruct s; [by destruct j|].
  cbn [stake sdrop Nat.add]. rewrite append_cons. by rewrite IH.
Qed.

(** Formatting what was parsed gives the text back. *)
Lemma ParseCapability_format s sid cap : ParseCapability s = Some (sid, cap) → FormatCapability sid cap = s.
Proof.
  unfold ParseCapability, FormatCapability. destruct (IndexByte "/" s) as [i|] eqn:Ei; [|done].
  destruct (IndexByte ":" (sdrop i s)) as [j|] eqn:Ej; [|done]. cbv zeta.
  replace (S (i + j)) with (i + S j)%nat by lia. rewrite sdrop_add, stake_add. intros [= <- <-].
  apply IndexByte_spec in Ej as [Ej _]. rewrite <- str_app_assoc.
  trans (stake i s +:+ (stake j (sdrop i s) +:+ String ":" (sdrop (S j) (sdrop i s)))); [done|].
  rewrite <- Ej. apply stake_sdrop.
Qed.

(** The characters of a valid scheme name. *)
Lemma alpha_rune s r n :
  decode_rune s = Some (r, n) → isAlphaHyphen r = true →
  ∃ c s', s = String c s' ∧ n = 1%nat ∧ code c = r.
Proof.
  intros E Ha. assert (r < 128) as Hr by (unfold isAlphaHyphen in Ha; lia).
  destruct (decode_rune_encode _ _ _ E) as (_ & He & Hn). destruct s as [|c s]; [done|].
  unfold encode_rune in He. rewrite (proj2 (Z.ltb_lt r 128) Hr) in He.
  destruct n as [|n]; [lia|]. cbn [stake] in He. injection He as Hc Hs.
  exists c, s. split; [done|]. cbn [decode_rune] in E.
  destruct (Z.ltb_spec (code c) 128) as [|Hge]; [by simplify_eq|].
  exfalso. subst c. unfold chr, code in Hge. rewrite N_ascii_embedding in Hge; unfold isAlphaHyphen in Ha; lia.
Qed.

Lemma alpha_no_char c s :
  isAlphaHyphen (code c) = false →
  Forall (λ rv, isAlphaHyphen rv.1 = true) (runes s) → contains_char c s = false.
Proof.
  intros Hc. unfold contains_char. induction s as [|d s IH]; [done|]. rewrite runes_cons.
  destruct (decode_rune (String d s)) as [[r n]|] eqn:E.
  - intros [Ha Hf]%list.Forall_cons. simpl in Ha.
    destruct (alpha_rune _ _ _ E Ha) as (c' & s' & [= <- <-] & -> & Hr). simpl in Hf |- *.
    rewrite (IH Hf). rewrite orb_false_r. apply Ascii.eqb_neq. intros ->. by rewrite Hr, Ha in Hc.
  - intros [Ha _]%list.Forall_cons. done.
Qed.

Lemma ValidateSchemeID_parts sid :
  ValidateSchemeID sid = None →
  ∃ v p, sid = v +:+ "/" +:+ p ∧ v ≠ "" ∧ p ≠ "" ∧
    ∀ c, isAlphaHyphen (code c) = false → contains_char c v = false ∧ contains_char c p = false.
Proof.
  unfold ValidateSchemeID, ParseSchemeID, SplitN2. destruct (IndexByte "/" sid) as [i|] eqn:E; [|done].
  destruct (_ || _) eqn:En; [done|]. go_bool. rewrite check_seq_None, !check_all_None. intros [Hv Hp].
  exists (stake i sid), (sdrop (S i) sid). apply IndexByte_spec in E as [E _].
  split_and!; try done. intros c Hc.
  split; apply alpha_no_char; try done; apply list.Forall_forall; intros rv Hin.
  - specialize (Hv rv Hin). rewrite guard_None in Hv. by go_bool.
  - specialize (Hp rv Hin). rewrite guard_None in Hp. by go_bool.
Qed.

Lemma contains_char_app c s t : contains_char c (s +:+ t) = contains_char c s || contains_char c t.
Proof.
  unfold contains_char. induction s as [|d s IH]; [done|]. rewrite append_cons. simpl. by rewrite IH, orb_assoc.
Qed.

(** The name of a capability of a valid scheme parses to the scheme and the
    capability, whatever separators the capability contains; the inverse is
    [ParseCapability_format]. *)
Lemma ParseCapability_scheme sid cap :
  ValidateSchemeID sid = None → ParseCapability (FormatCapability sid cap) = Some (sid, cap).
Proof.
  intros (v & p & -> & _ & _ & Hc)%ValidateSchemeID_parts.
  destruct (Hc "/"%char eq_refl) as [Hv _]. destruct (Hc ":"%char eq_refl) as [_ Hp].
  unfold ParseCapability, FormatCapability.
  assert ((v +:+ "/" +:+ p) +:+ ":" +:+ cap = v +:+ String "/" (p +:+ ":" +:+ cap)) as ->.
  { rewrite <- !str_app_assoc. done. }
  rewrite IndexByte_app by done. rewrite sdrop_app.
  assert (String "/" (p +:+ ":" +:+ cap) = String "/" p +:+ String ":" cap) as -> by done.
  rewrite IndexByte_app by (unfold contains_char in *; simpl; done). cbv zeta.
  assert (v +:+ String "/" p +:+ String ":" cap = (v +:+ "/" +:+ p) +:+ String ":" cap) as ->.
  { rewrite <- !str_app_assoc. done. }
  assert (String.length v + String.length (String "/" p) = String.length (v +:+ "/" +:+ p))%nat as ->.
  { rewrite !str_length_app. done. }
  rewrite stake_app. f_equal. f_equal.
  replace (S (String.length (v +:+ "/" +:+ p))) with (String.length (v +:+ "/" +:+ p) + 1)%nat by lia.
  by rewrite sdrop_add, sdrop_app.
Qed.

(** ** The registry loaded from disk *)

(** The definitions of the scheme files, in walk order. *)
Definition loaded (load : string → result SchemeDefinition) (files : list string) : list SchemeDefinition :=
  omap (λ path, if is_scheme_file path then match load path with inl d => Some d | inr _ => None end else None) files.

(** Every definition is stored under its own id. *)
Definition keyed (m : gomap SchemeDefinition) : Prop :=
  wf_map m ∧ ∀ k d, (k, d) ∈ m → sd_scheme_id d = k.

Definition last_of (id : string) (defs : list SchemeDefinition) : option SchemeDefinition :=
  list.last (filter (λ d, sd_scheme_id d = id) defs).

Lemma last_of_cons id d defs :
  last_of id (d :: defs) =
  match last_of id defs with Some d' => Some d' | None => if String.eqb id (sd_scheme_id d) then Some d else None end.
Proof.
  unfold last_of. rewrite filter_cons. destruct (String.eqb_spec id (sd_scheme_id d)) as [->|Hne].
  - rewrite decide_True by done. rewrite last_cons. by destruct (list.last _).
  - rewrite decide_False by congruence. by destruct (list.last _).
Qed.

Lemma mset_elem {A} k (v : A) m k' v' : (k', v') ∈ mset k v m → (k' = k ∧ v' = v) ∨ (k', v') ∈ m.
Proof.
  induction m as [|[k0 v0] m IH]; simpl; [set_solver|]. destruct (String.eqb_spec k k0); set_solver.
Qed.

Lemma keyed_mset d m : keyed m → keyed (mset (sd_scheme_id d) d m).
Proof.
  intros [Hwf Hk]. split; [by apply wf_mset|]. intros k v [[-> ->]|H]%mset_elem; [done|by apply Hk].
Qed.

Lemma walk_schemes_spec load files : ∀ m, keyed m →
  match walk_schemes load m files with
  | inl m' => keyed m' ∧
      ∀ id, mget id m' = match last_of id (loaded load files) with Some d => Some d | None => mget id m end
  | inr e => ∃ path, path ∈ files ∧ is_scheme_file path = true ∧ load path = inr e
  end.
Proof.
  induction files as [|path files IH]; intros m Hm; simpl; [done|]. unfold loaded. simpl.
  destruct (is_scheme_file path) eqn:Ef.
  - destruct (load path) as [d|e] eqn:El; [|by exists path; set_solver].
    specialize (IH _ (keyed_mset d m Hm)). destruct (walk_schemes _ _ files) as [m'|e].
    + destruct IH as [Hk Hget]. split; [done|]. intros id. rewrite Hget, last_of_cons, mget_mset.
      fold (loaded load files). destruct (last_of id (loaded load files)); [done|].
      by destruct (String.eqb id (sd_scheme_id d)).
    + destruct IH as (p & ? & ? & ?). exists p. set_solver.
  - specialize (IH m Hm). destruct (walk_schemes _ _ files) as [m'|e]; [done|].
    destruct IH as (p & ? & ? & ?). exists p. set_solver.
Qed.

Lemma register_all_keyed m : ∀ r, keyed m → (∀ k, k ∈ mkeys m → k ∉ mkeys r) →
  ∃ r', register_all m.*2 r = inl r' ∧
    ∀ id, mget id r' = match mget id m with Some d => Some d | None => mget id r end.
Proof.
  induction m as [|[k d] m IH]; intros r [Hwf Hk] Hd; [by exists r|].
  rewrite fmap_cons. cbn [register_all snd mget].
  assert (sd_scheme_id d = k) as <- by (apply Hk; left). unfold Register.
  rewrite (proj2 (mhas_false (sd_scheme_id d) r)) by (apply Hd; left). cbv iota beta.
  apply list.NoDup_cons in Hwf as [Hnk Hwf].
  destruct (IH (mset (sd_scheme_id d) d r)) as (r' & -> & Hget).
  - split; [done|]. intros. apply Hk. by right.
  - intros k' Hin. rewrite mkeys_mset. intros [->|Hr]; [done|]. revert Hr. apply Hd. by right.
  - exists r'. split; [done|]. intros id. rewrite Hget, mget_mset.
    destruct (String.eqb_spec id (sd_scheme_id d)) as [->|]; [|done].
    by rewrite (proj2 (mget_None (sd_scheme_id d) m) Hnk).
Qed.

(** A registry loaded from a directory never reports a duplicate: it fails
    only when one of the scheme files fails to load, and otherwise holds for
    every scheme id the definition of the last file in the walk that declares it.
    The refusal of duplicates by [Register] does not reach the files on disk. *)
Lemma registry_from_disk load files :
  match NewRegistryFromDisk load files with
  | inl r => ∀ id, Get r id = last_of id (loaded load files)
  | inr e => ∃ path, path ∈ files ∧ is_scheme_file path = true ∧ load path = inr e
  end.
Proof.
  unfold NewRegistryFromDisk, LoadFromDir. pose proof (walk_schemes_spec load files []) as H.
  destruct (walk_schemes load [] files) as [m|e]; simpl.
  - destruct H as [Hk Hget]; [by split; [constructor|set_solver]|].
    destruct (register_all_keyed m NewRegistry Hk) as (r & -> & Hr); [set_solver|].
    intros id. unfold Get. rewrite Hr, Hget. by destruct (last_of _ _).
  - apply H. split; [constructor|set_solver].
Qed.

(** ** The minimal privilege report *)

Lemma filter_nil_iff {A} (p : A → bool) l : List.filter p l = [] ↔ ∀ x, x ∈ l → p x = false.
Proof.
  induction l as [|x l IH]; simpl; [set_solver|]. destruct (p x) eqn:E.
  - split; [done|]. intros H. rewrite H in E; set_solver.
  - rewrite IH. set_solver.
Qed.

Lemma filter_all {A} (p : A → bool) l : (∀ x, x ∈ l → p x = true) → List.filter p l = l.
Proof. induction l as [|x l IH]; simpl; intros H; [done|]. rewrite H, IH by set_solver. done. Qed.

Lemma and_under (P Q R : Prop) : (P → (Q ↔ R)) → (P ∧ Q ↔ P ∧ R).
Proof. tauto. Qed.

Lemma fmap_nil {A B} (f : A → B) l : f <$> l = [] ↔ l = [].
Proof. by destruct l. Qed.

Lemma length_zero {A} (l : list A) : (length l =? 0)%nat = true ↔ l = [].
Proof. by destruct l. Qed.

Lemma validate_claim_valid r c : cr_valid (validate_claim r c) = true ↔ claim_refusal r c = None.
Proof. unfold validate_claim. by destruct (claim_refusal r c). Qed.

Lemma validate_claim_claim r c : cr_claim (validate_claim r c) = c.
Proof. unfold validate_claim. by destruct (claim_refusal r c). Qed.

Lemma imap_pair_elem {A} (l : list A) i x : (i, x) ∈ imap pair l ↔ l !! i = Some x.
Proof.
  rewrite list_elem_of_lookup. split.
  - intros [j Hj]. rewrite list_lookup_imap in Hj. destruct (l !! j) eqn:E; simplify_eq/=. done.
  - intros H. exists i. by rewrite list_lookup_imap, H.
Qed.

Lemma covered_by_other_false valid i v :
  covered_by_other valid i v = false ↔
  ∀ j d, valid !! j = Some d → i ≠ j → cl_scheme_id d = cl_scheme_id v →
    isSubsetMatch (cl_capability v) (cl_capability d) = false.
Proof.
  unfold covered_by_other. rewrite <- not_true_iff_false, existsb_exists. split.
  - intros H j d Hj Hne Hs. apply not_true_is_false. intros Hm. apply H. exists (j, d). split.
    + by apply list_elem_of_In, imap_pair_elem.
    + simpl. rewrite Hs, String.eqb_refl, Hm. by rewrite (proj2 (Nat.eqb_neq i j)).
  - intros H ([j d] & Hin & Hm). simpl in Hm. go_bool.
    apply list_elem_of_In, imap_pair_elem in Hin. rewrite (H j d) in *; try done.
    intros ->. by rewrite Nat.eqb_refl in *.
Qed.

(** A claim set is reported minimal exactly when every claim is legal, no
    claim is covered by the wildcard of another claim of the same scheme, and,
    where grants were given, every claim is covered by one of them. *)
Lemma minimal_set_iff r claims granted :
  ms_minimal (CheckMinimalCapabilitySet r claims granted) = true ↔
  (∀ c, c ∈ claims → claim_refusal r c = None) ∧
  (∀ i j c d, claims !! i = Some c → claims !! j = Some d → i ≠ j →
     cl_scheme_id d = cl_scheme_id c → isSubsetMatch (cl_capability c) (cl_capability d) = false) ∧
  (granted ≠ [] → ∀ c, c ∈ claims → granted_by granted c = true).
Proof.
  unfold CheckMinimalCapabilitySet. cbv zeta. cbn [ms_minimal]. rewrite !andb_true_iff, !length_zero, Logic.and_assoc.
  assert (List.filter (λ v, negb (cr_valid v)) (ValidateClaims r claims) = [] ↔
    ∀ c, c ∈ claims → claim_refusal r c = None) as ->.
  { rewrite filter_nil_iff. unfold ValidateClaims. split.
    - intros H c Hc. apply validate_claim_valid. apply negb_false_iff, H. by apply list_elem_of_fmap_2.
    - intros H v (c & -> & Hc)%list_elem_of_fmap. apply negb_false_iff, validate_claim_valid. by apply H. }
  apply and_under. intros Hv.
  assert (cr_claim <$> List.filter cr_valid (ValidateClaims r claims) = claims) as ->.
  { unfold ValidateClaims. rewrite filter_all.
    - rewrite <- list_fmap_compose. etrans; [|apply list_fmap_id].
      apply list_fmap_ext. intros ? c _. apply validate_claim_claim.
    - intros v (c & -> & Hc)%list_elem_of_fmap. apply validate_claim_valid. by apply Hv. }
  f_equiv.
  - rewrite fmap_nil, filter_nil_iff. split.
    + intros H i j c d Hi Hj. apply (proj1 (covered_by_other_false claims i c)); [|done].
      apply (H (i, c)). by apply imap_pair_elem.
    + intros H [i c] Hi%imap_pair_elem. apply covered_by_other_false. intros j d Hj. by apply (H i j).
  - destruct granted as [|g gs]; simpl; [by split|]. rewrite fmap_nil, filter_nil_iff.
    split; [intros H _ c Hc; by apply negb_false_iff, H|intros H c Hc; by apply negb_false_iff, H].
Qed.

(** ** The parameter contract *)

(** The names an entry declares: the properties of a closed schema, or the flat
    parameters. *)
Definition schema_of (entry : CapabilityEntry) : gomap any :=
  default [] (default None (unmarshal_object (ce_params_schema entry))).
Definition uses_schema (entry : CapabilityEntry) : bool := (0 <? String.length (ce_params_schema entry))%nat.
Definition declared_names (entry : CapabilityEntry) : list string :=
  if uses_schema entry then mkeys (props_of (schema_of entry)) else mkeys (ce_parameters entry).
Definition required_names (entry : CapabilityEntry) : list string :=
  if uses_schema entry then name_of <$> default [] (get_arr "required" (schema_of entry))
  else mkeys (filter (λ kv, pd_required kv.2 = true) (ce_parameters entry)).

(** A schema that states its object shape itself and is closed: it has no
    reference at its top, and either forbids additional properties or says nothing
    of them and declares at least one property. *)
Definition closed_entry (entry : CapabilityEntry) : Prop :=
  uses_schema entry = true →
  get_text "$ref" (schema_of entry) = None ∧
  (mget "additionalProperties" (schema_of entry) = Some (ABool false) ∨
   mget "additionalProperties" (schema_of entry) = None ∧ props_of (schema_of entry) ≠ []).

Lemma schema_contract entry params k :
  closed_entry entry → uses_schema entry = true →
  validateParamsSchema (ce_params_schema entry) params = None →
  (k ∈ mkeys (default [] params) → k ∈ declared_names entry) ∧
  (k ∈ required_names entry → k ∈ mkeys (default [] params)).
Proof.
  intros Hc Hu Hv. destruct (Hc Hu) as (Href & Hap). unfold declared_names, required_names. rewrite Hu.
  apply validateParamsSchema_accepts in Hv as (schema & Hs & Ha). unfold schema_of in *. rewrite Hs in *.
  simpl default in Href, Hap |- *. rewrite accepts_iff, Href in Ha. destruct Ha as [_ Hobj _ _ _].
  destruct (Hobj _ eq_refl) as [Hreq _ Hund]. split.
  - intros ([k' w] & -> & Hin)%list_elem_of_fmap. simpl. apply mhas_true, not_false_iff_true. intros Hk.
    specialize (Hund _ _ Hin Hk). unfold undeclared_ok in Hund. destruct Hap as [Hap|[Hap Hp]]; by rewrite Hap in Hund.
  - intros (r & -> & Hin)%list_elem_of_fmap. apply mhas_true.
    destruct (get_arr "required" (default [] schema)) as [req|]; [by eapply Hreq|by apply not_elem_of_nil in Hin].
Qed.

Lemma flat_contract entry cap params k :
  uses_schema entry = false →
  validateFlatParamRequired entry params = None → check_all (check_flat_param entry cap) params = None →
  (k ∈ mkeys params → k ∈ declared_names entry) ∧ (k ∈ required_names entry → k ∈ mkeys params).
Proof.
  unfold validateFlatParamRequired, declared_names, required_names. intros ->. rewrite !check_all_None. intros H1 H2. split.
  - intros ([k' w] & -> & Hin)%list_elem_of_fmap. specialize (H2 _ Hin). unfold check_flat_param in H2. simpl in *.
    destruct (mget k' (ce_parameters entry)) eqn:E; [|done]. apply mget_elem in E. by eapply mkeys_elem.
  - intros ([k' pd] & -> & [Hreq Hin]%list_elem_of_filter)%list_elem_of_fmap. simpl in *.
    specialize (H1 _ Hin). rewrite guard_None in H1. simpl in H1. rewrite Hreq in H1. simpl in H1.
    apply mhas_true. by go_bool.
Qed.

(** C20: the parameter contract is closed on both of its paths.  Take a concrete
    capability whose contract is its flat definitions, or a schema that has no
    [$ref] at its top and either sets [additionalProperties] to false or omits it
    and declares at least one property.  When the parameters of a claim are
    accepted, every parameter is one the capability declares and every required
    parameter is present.  Any other schema (one that is open, that leaves its shape
    to a reference, or that declares no property, such as a bare type or a oneOf)
    is outside the statement. *)
Theorem params_contract_closed def c entry k :
  find_capability def (cl_capability c) = Some entry → closed_entry entry →
  validateClaimParams def c = None →
  (k ∈ mkeys (default [] (cl_parameters c)) → k ∈ declared_names entry) ∧
  (k ∈ required_names entry → k ∈ mkeys (default [] (cl_parameters c))).
Proof.
  intros Hf Hc. unfold validateClaimParams. cbv zeta. rewrite Hf. fold (uses_schema entry).
  destruct (uses_schema entry) eqn:Hu.
  - intros Hv. apply schema_contract; [done|done|]. by destruct (validateParamsSchema _ _).
  - rewrite check_seq_None. intros [H1 H2]. by eapply flat_contract.
Qed.

(** ** Case folding of sets *)

(** Nothing is denied exactly when every declared capability is allowed, up to
    case. *)
Lemma CheckSubset_nil lower declared allowed :
  CheckSubset lower declared allowed = [] ↔
  ∀ d, d ∈ declared → ∃ a, a ∈ allowed ∧ ToLower lower a = ToLower lower d.
Proof.
  unfold CheckSubset. rewrite filter_nil_iff. split; intros H d Hd; specialize (H d Hd).
  - go_bool. unfold in_folded in H. apply existsb_exists in H as (a & Ha & He). go_bool.
    exists a. by rewrite list_elem_of_In.
  - destruct H as (a & Ha & He). apply negb_false_iff, existsb_exists. exists a.
    split; [by apply list_elem_of_In|]. by apply String.eqb_eq.
Qed.

Lemma dedup_from_spec lower caps : ∀ seen,
  NoDup (ToLower lower <$> dedup_from lower seen caps) ∧
  (∀ c, c ∈ dedup_from lower seen caps → ToLower lower c ∉ seen) ∧
  (∀ c, c ∈ caps → ToLower lower c ∈ seen ∨ ToLower lower c ∈ ToLower lower <$> dedup_from lower seen caps).
Proof.
  induction caps as [|c caps IH]; intros seen; simpl.
  { split_and!; [constructor|set_solver|set_solver]. }
  destruct (existsb (String.eqb (ToLower lower c)) seen) eqn:E.
  - destruct (IH seen) as (H1 & H2 & H3). split_and!; [done|done|].
    apply existsb_exists in E as (k & Hk & <-%String.eqb_eq). apply list_elem_of_In in Hk.
    intros c' [->|Hc]%elem_of_cons; [by left|by apply H3].
  - destruct (IH (ToLower lower c :: seen)) as (H1 & H2 & H3).
    assert (ToLower lower c ∉ seen) as Hn.
    { intros Hin. apply not_true_iff_false in E. apply E, existsb_exists. exists (ToLower lower c).
      split; [by apply list_elem_of_In|apply String.eqb_refl]. }
    rewrite fmap_cons. split_and!.
    + apply list.NoDup_cons. split; [|done]. intros (c' & Hc & Hin)%list_elem_of_fmap.
      apply H2 in Hin. set_solver.
    + intros c' [->|Hc]%elem_of_cons; [done|]. apply H2 in Hc. set_solver.
    + intros c' [->|Hc]%elem_of_cons; [set_solver|]. destruct (H3 c' Hc); set_solver.
Qed.

(** ** A sample registry *)

Definition flat_int : ParameterDef := mkParameterDef "int" "" ANil (jnum "1") (jnum "90") [] true.
Definition entry_of (id : string) (params : gomap ParameterDef) (schema : string) : CapabilityEntry :=
  mkCapabilityEntry id "" params schema "" "" "" [] [].
Definition sample_scheme : SchemeDefinition :=
  mkSchemeDefinition "acme/ca" "Acme CA" "1.0" "" "acme" "ca" "" "" ""
    [entry_of "cert:issue" [("days", flat_int)] ""; entry_of "cert:list" [] "";
     entry_of "cert:tune" [] limit_schema] [].
Definition sample_registry : registry := (Register sample_scheme NewRegistry).2.
Definition claim_of (cap : string) (params : option (gomap any)) : CapabilityClaim :=
  mkClaim "acme/ca" cap params "" "".

Lemma match_capability_agrees_witness :
  MatchCapability "acme/ca-v1:cert:issue" "acme/ca-v1:cert:*" = true ↔
  matchID "acme/ca-v1:cert:*" "acme/ca-v1:cert:issue" = None.
Proof.
  apply match_capability_agrees; [vm_compute; reflexivity..|vm_compute; discriminate|left; vm_compute; discriminate].
Defined.

(** A star directly behind the scheme covers the whole scheme here and nothing
    in the authorization language, where the action class is part of the
    namespace. *)
Example scheme_star_disagrees :
  ValidateCapabilityID "acme/ca-v1:*" = None ∧
  MatchCapability "acme/ca-v1:cert:issue" "acme/ca-v1:*" = true ∧
  matchID "acme/ca-v1:*" "acme/ca-v1:cert:issue" = Some ErrDifferentNamespace.
Proof. vm_compute. done. Qed.

Lemma params_contract_closed_witness :
  (("days" ∈ mkeys (default [] (Some [("days", jnum "3")])) →
      "days" ∈ declared_names (entry_of "cert:issue" [("days", flat_int)] "")) ∧
   ("days" ∈ required_names (entry_of "cert:issue" [("days", flat_int)] "") →
      "days" ∈ mkeys (default [] (Some [("days", jnum "3")])))) ∧
  (("n" ∈ mkeys (default [] (Some [("n", jnum "3")])) → "n" ∈ declared_names (entry_of "cert:tune" [] limit_schema)) ∧
   ("n" ∈ required_names (entry_of "cert:tune" [] limit_schema) → "n" ∈ mkeys (default [] (Some [("n", jnum "3")])))).
Proof.
  split.
  - apply (params_contract_closed sample_scheme (claim_of "cert:issue" (Some [("days", jnum "3")])));
      [vm_compute; reflexivity|intros H; discriminate H|vm_compute; reflexivity].
  - apply (params_contract_closed sample_scheme (claim_of "cert:tune" (Some [("n", jnum "3")])));
      [vm_compute; reflexivity| |vm_compute; reflexivity].
    intros _. split; [vm_compute; reflexivity|right; split; [vm_compute; reflexivity|vm_compute; discriminate]].
Defined.

Definition accepted (c : CapabilityClaim) : bool :=
  match claim_refusal sample_registry c with None => true | Some _ => false end.

(** The schema path refuses an undeclared parameter as the flat path does. *)
Example undeclared_refused :
  accepted <$> [claim_of "cert:issue" (jparams "{'days':3}"); claim_of "cert:issue" (jparams "{'days':3,'dayz':4}");
    claim_of "cert:tune" (jparams "{'n':3}"); claim_of "cert:tune" (jparams "{'n':3,'nn':4}");
    claim_of "cert:*" None]
  = [true; false; true; false; true].
Proof. vm_compute. reflexivity. Qed.

(** A flat parameter of type int takes a fraction. *)
Example flat_int_takes_fraction : accepted (claim_of "cert:issue" (jparams "{'days':2.5}")) = true.
Proof. vm_compute. reflexivity. Qed.

(** A claim made twice is minimal; a claim covered by a wildcard is not, and it
    stays among the valid ones. *)
Example duplicate_claims_minimal :
  let report l := CheckMinimalCapabilitySet sample_registry l ["cert:*"%string] in
  ms_minimal (report [claim_of "cert:list" None; claim_of "cert:list" None]) = true ∧
  ms_minimal (report [claim_of "cert:list" None; claim_of "cert:*" None]) = false ∧
  ms_valid (report [claim_of "cert:list" None; claim_of "cert:*" None]) =
    [claim_of "cert:list" None; claim_of "cert:*" None].
Proof. vm_compute. done. Qed.

(** Two files of one scheme: the second replaces the first without an error. *)
Definition two_versions (path : string) : result SchemeDefinition :=
  if String.eqb path "acme/ca/v1.json" then inl sample_scheme
  else inl (mkSchemeDefinition "acme/ca" "Acme CA" "2.0" "" "acme" "ca" "" "" "" [entry_of "cert:list" [] ""] []).

Example second_version_replaces :
  match NewRegistryFromDisk two_versions ["acme/ca/v1.json"; "acme/ca/v2.json"; "_vectors/v1.json"]%string with
  | inl r => (sd_version <$> Get r "acme/ca", SchemeIDs r)
  | inr _ => (None, [])
  end = (Some "2.0", ["acme/ca"])%string.
Proof. vm_compute. reflexivity. Qed.
