(* ===== verification/GenAuthz.v ===== *)
(** * Generating authz.json (genauthz.go)

    [GenAuthz] merges scheme files into one authorization document: the roles of
    the first scheme, the mapping from organizational units to roles, gateway
    namespaces and parameter defaults.  Reading a file, the presence of its
    signature and its verification are parameters; a Go map is the list of its
    entries in iteration order. *)

From S2P Require Import Prelude GoStrings Json Registry Claims RegistryProofs.

Record AuthzRoleDef := mkAuthzRole {
  az_display_name : string; az_profiles : list string; az_grants : list string; az_scope : list string }.
Record GatewayNSDef := mkGatewayNS { ns_display_name : string; ns_prefix : string; ns_grants : list string }.
Record AuthzDocument := mkAuthzDocument {
  ad_version : string;
  ad_roles : gomap AuthzRoleDef;
  ad_ou_mapping : gomap string;
  ad_gateway_namespaces : gomap GatewayNSDef;
  ad_capability_parameters : gomap (gomap any) }.

Record GenAuthzConfig := mkGenAuthzConfig {
  gc_scheme_paths : list string;
  gc_verify_signature : bool;
  gc_verify_required : bool;
  gc_trust_roots : list string;
  gc_version : string;
  gc_namespace_prefix : string }.

Section generation.
Context {Cert : Type}.
Context (load : string → result SchemeDefinition) (HasSignature : string → bool)
(LoadCertFile : string → result (list Cert)) (VerifyCapabilityPKCS7 : string → list Cert → check).

(** The trust roots, file by file. *)
Fixpoint load_roots (paths : list string) : result (list Cert) :=
match paths with
| [] => inl []
| rp :: paths' =>
    match LoadCertFile rp with
    | inr e => inr ("gen-authz: trust root " +:+ rp +:+ ": " +:+ e)%string
    | inl certs => let! rest := load_roots paths' in inl (certs ++ rest)
    end
end.

Definition check_signature (cfg : GenAuthzConfig) (p : string) : check :=
let hasSig := HasSignature p in
guard (gc_verify_required cfg && negb hasSig) ("gen-authz: " +:+ p +:+ " has no .p7s signature (verify-required)")%string ;;?
if hasSig && (gc_verify_signature cfg || gc_verify_required cfg) then
  match load_roots (gc_trust_roots cfg) with
  | inr e => Some e
  | inl roots =>
      match VerifyCapabilityPKCS7 p roots with
      | Some e => Some ("gen-authz: signature of " +:+ p +:+ ": " +:+ e)%string
      | None => None
      end
  end
else None.

Definition invalid_roles (p : string) (errs : list string) : string :=
("gen-authz: invalid roles in " +:+ p +:+ ":" +:+ foldr (λ e acc, nl +:+ "  - " +:+ e +:+ acc) "" errs)%string.

(** The parameter defaults of one scheme, added to the document. *)
Definition defaults_of (c : CapabilityEntry) : gomap any :=
omap (λ kv, if is_nil (pd_default kv.2) then None else Some (kv.1, pd_default kv.2)) (ce_parameters c).
Definition add_defaults (def : SchemeDefinition) (acc : gomap (gomap any)) : gomap (gomap any) :=
fold_left (λ acc c, match defaults_of c with
                    | [] => acc
                    | params => mset (sd_scheme_id def +:+ ":" +:+ ce_id c)%string params acc
                    end) (sd_capabilities def) acc.

(** The first pass over the files: the definitions in order, and the defaults. *)
Fixpoint load_schemes (cfg : GenAuthzConfig) (paths : list string) (acc : gomap (gomap any)) :
    result (list SchemeDefinition * gomap (gomap any)) :=
match paths with
| [] => inl ([], acc)
| p :: paths' =>
    match load p with
    | inr e => inr ("gen-authz: load " +:+ p +:+ ": " +:+ e)%string
    | inl def =>
        match check_signature cfg p with
        | Some e => inr e
        | None =>
            match (ValidateSchemeRoles (Some def)).1 with
            | [] =>
                let! r := load_schemes cfg paths' (add_defaults def acc) in
                inl (def :: r.1, r.2)
            | errs => inr (invalid_roles p errs)
            end
        end
    end
end.

(** The namespace prefix of a role name, colon included. *)
Definition role_prefix (role : string) : option string :=
match IndexByte ":" role with
| Some idx => if (0 <? idx)%nat then Some (stake (S idx) role) else None
| None => None
end.

Definition map_ous (acc : gomap string) (kv : string * RoleDef) : gomap string :=
fold_left (λ acc ou, mset ou kv.1 acc) (rd_ous kv.2) acc.

Definition namespace_of (prefix : string) : string * GatewayNSDef :=
(prefix, mkGatewayNS ("命名空间 " +:+ prefix)%string prefix [(prefix +:+ "*")%string]).

Definition GenAuthz (cfg : GenAuthzConfig) : result AuthzDocument :=
match gc_scheme_paths cfg with
| [] => inr "gen-authz: no scheme paths given"%string
| paths =>
    let! r := load_schemes cfg paths [] in
    match r.1 with
    | [] => inr "gen-authz: no scheme paths given"%string
    | main :: _ =>
        let prefixes := omap role_prefix (r.1 ≫= λ def, mkeys (sd_roles def)) ++
          (if String.eqb (gc_namespace_prefix cfg) "" then [] else [gc_namespace_prefix cfg]) in
        inl (mkAuthzDocument
          (if String.eqb (gc_version cfg) "" then "v2" else gc_version cfg)
          ((λ kv, (kv.1, mkAuthzRole (rd_display_name kv.2) (rd_profiles kv.2) (rd_grants kv.2) [])) <$> sd_roles main)
          (fold_left map_ous (sd_roles main) [])
          (namespace_of <$> sorted_dedup prefixes) r.2)
    end
end.

(** ** What a generated document grants *)

Lemma map_ous_elem acc kv ou role :
  mget ou (map_ous acc kv) = Some role → (ou ∈ rd_ous kv.2 ∧ role = kv.1) ∨ mget ou acc = Some role.
Proof.
  unfold map_ous. revert acc. induction (rd_ous kv.2) as [|o ous IH]; intros acc; simpl; [by right|].
  intros [[Hin ->]|H]%IH; [left; set_solver|]. rewrite mget_mset in H.
  destruct (String.eqb_spec ou o) as [->|]; [left; set_solver|by right].
Qed.

Lemma ou_mapping_elem roles : ∀ acc ou role,
  mget ou (fold_left map_ous roles acc) = Some role →
  (∃ rd, (role, rd) ∈ roles ∧ ou ∈ rd_ous rd) ∨ mget ou acc = Some role.
Proof.
  induction roles as [|[r rd] roles IH]; intros acc ou role; simpl; [by right|].
  intros [(rd' & Hin & Hou)|H]%IH; [left; exists rd'; set_solver|].
  apply map_ous_elem in H as [[Hin ->]|H]; [left; exists rd; set_solver|by right].
Qed.

(** A role of a scheme without role errors. *)
Lemma role_errors_none ids sid kv :
  (role_errors ids sid kv).1 = [] →
  kv.1 ≠ "" ∧ rd_grants kv.2 ≠ [] ∧
  ∀ g, g ∈ rd_grants kv.2 → covered_by ids g = true ∨ contains_char "*" g = true.
Proof.
  unfold role_errors. cbv zeta. destruct (String.eqb_spec kv.1 ""); [done|].
  destruct (rd_grants kv.2) as [|g0 gs] eqn:Eg; [done|]. rewrite <- Eg. cbn [fst].
  rewrite fmap_nil, filter_nil_iff. intros H. split_and!; [done|congruence|]. intros g Hg.
  destruct (covered_by ids g) eqn:Ec; [by left|right].
  apply negb_false_iff, H, list_elem_of_In, filter_In. rewrite Ec. split; [by apply list_elem_of_In|done].
Qed.

Lemma scheme_roles_none def kv :
  (ValidateSchemeRoles (Some def)).1 = [] → kv ∈ sd_roles def →
  (role_errors (ListCapabilities def) (sd_scheme_id def) kv).1 = [].
Proof.
  unfold ValidateSchemeRoles. cbn [fst]. intros H Hin.
  assert (∀ l : list (list string), concat l = [] → ∀ x, x ∈ l → x = []) as Hc.
  { induction l as [|y l IH]; simpl; [set_solver|]. intros [-> H']%app_eq_nil x [->|Hx]%elem_of_cons; [done|by apply IH]. }
  apply (Hc _ H). apply list_elem_of_fmap. eexists. split; [done|]. by apply list_elem_of_fmap_2.
Qed.

Lemma load_schemes_ok cfg paths : ∀ acc defs params,
  load_schemes cfg paths acc = inl (defs, params) →
  Forall2 (λ p def, load p = inl def ∧ check_signature cfg p = None ∧ (ValidateSchemeRoles (Some def)).1 = []) paths defs.
Proof.
  induction paths as [|p paths IH]; intros acc defs params; cbn [load_schemes]; [intros [= <- _]; constructor|].
  destruct (load p) as [def|] eqn:Elp; [|done]. destruct (check_signature cfg p) eqn:Ec; [done|].
  destruct (ValidateSchemeRoles (Some def)).1 eqn:Er; [|done].
  destruct (load_schemes cfg paths (add_defaults def acc)) as [[ds ps]|] eqn:El; [|done]. simpl.
  intros [= <- _]. constructor; [done|by eapply IH].
Qed.

(** A document is generated only from files that load, whose signature verifies
    where signatures are required, and whose roles are consistent; its roles are
    those of the first scheme, every grant of which is a capability of that scheme
    or a wildcard, and every organizational unit is mapped to a role that lists
    it. *)
Lemma gen_authz_sound cfg doc :
  GenAuthz cfg = inl doc →
  ∃ main rest, gc_scheme_paths cfg = main :: rest ∧ ∃ def, load main = inl def ∧
  (∀ p, p ∈ gc_scheme_paths cfg → gc_verify_required cfg = true →
     HasSignature p = true ∧ ∃ roots, load_roots (gc_trust_roots cfg) = inl roots ∧ VerifyCapabilityPKCS7 p roots = None) ∧
  (∀ role az, (role, az) ∈ ad_roles doc → ∃ rd, (role, rd) ∈ sd_roles def ∧ az_grants az = rd_grants rd ∧
     ∀ g, g ∈ az_grants az → covered_by (ListCapabilities def) g = true ∨ contains_char "*" g = true) ∧
  (∀ ou role, mget ou (ad_ou_mapping doc) = Some role → ∃ rd, (role, rd) ∈ sd_roles def ∧ ou ∈ rd_ous rd).
Proof.
  unfold GenAuthz. destruct (gc_scheme_paths cfg) as [|p ps] eqn:Ep; [done|].
  destruct (load_schemes cfg (p :: ps) []) as [[defs params]|] eqn:El; [|done]. cbn [rbind fst snd].
  apply load_schemes_ok in El. inversion El as [|? main ? defs' (Hl & Hs & Hr) Hrest]; subst. intros [= <-].
  exists p, ps. split; [done|]. exists main. split_and!; [done| | |].
  - intros q Hq Hreq.
    assert (check_signature cfg q = None) as Hsig.
    { apply list_elem_of_lookup in Hq as [i Hi]. destruct (Forall2_lookup_l _ _ _ _ _ El Hi) as (d & _ & _ & Hq' & _). done. }
    unfold check_signature in Hsig. cbv zeta in Hsig. rewrite Hreq, check_seq_None, guard_None in Hsig.
    destruct Hsig as [Hh Hv]. simpl in Hh. apply negb_false_iff in Hh. rewrite Hh, orb_true_r in Hv. simpl in Hv.
    split; [done|]. destruct (load_roots (gc_trust_roots cfg)) as [roots|]; [|done]. exists roots.
    split; [done|]. by destruct (VerifyCapabilityPKCS7 q roots).
  - cbn [ad_roles]. intros role az ([r rd] & [= -> ->] & Hin)%list_elem_of_fmap. exists rd. cbn [az_grants].
    split_and!; [done|done|]. by apply (role_errors_none _ _ (r, rd) (scheme_roles_none _ _ Hr Hin)).
  - cbn [ad_ou_mapping]. intros ou role [H|H]%ou_mapping_elem; [done|discriminate].
Qed.
End generation.

(** ** Two roles with one organizational unit

    The mapping keeps the role that the iteration visits last, and Go iterates
    over a map in any order: the generated document is not determined by the
    scheme. *)
Definition shared_ou_scheme (roles : gomap RoleDef) : SchemeDefinition :=
  mkSchemeDefinition "acme/ca" "" "1.0" "" "" "" "" "" "" [entry_of "cert:list" [] ""; entry_of "cert:issue" [] ""] roles.
Definition viewer : string * RoleDef := ("viewer", mkRoleDef "" [] ["cert:list"] ["ops"])%string.
Definition admin : string * RoleDef := ("admin", mkRoleDef "" [] ["cert:*"] ["ops"])%string.

Definition generated (roles : gomap RoleDef) : option string :=
  match GenAuthz (Cert := unit) (λ _, inl (shared_ou_scheme roles)) (λ _, false) (λ _, inl []) (λ _ _, None)
          (mkGenAuthzConfig ["acme/ca/v1.json"%string] false false [] "" "") with
  | inl doc => mget "ops" (ad_ou_mapping doc)
  | inr _ => None
  end.

Example ou_mapping_order :
  generated [viewer; admin] = Some "admin"%string ∧ generated [admin; viewer] = Some "viewer"%string.
Proof. vm_compute. done. Qed.
