(* ===== verification/RuleValidate.v ===== *)
(** * A rule against the registry (ruleexec/rule.go)

    [Rule.Validate]: the capability is registered, the constraint schemes are the
    known ones, the parameters decode, are valid capability parameters and meet
    the capability's contract.  The decoder of the database parameters is a
    parameter. *)

From S2P Require Import Prelude GoStrings GoFloat Json JsonText JsonStruct Ids Values Bounds.
From S2P Require Import SqlGen RuleExec.
From S2P Require Import JsonSchema Registry Claims RegistryProofs.

Inductive rule_refusal :=
  | RCapability (e : error)
  | RConstraint (scheme : string)
  | RNotObject
  | RParams (e : error)
  | RContract (e : claim_error)
  | RScheme (e : error).

Definition constraint_schemes : list string := ["varwof/constraint-v1"; "constraint"; "constraint-v1"].

Section validation.
Context (decode_db : string → result db_params).

(** The decoded parameters; [None] is the nil map of absent parameters. *)
Definition rule_params (r : Rule) : option (option (gomap any)) := raw_object (ru_params r).

Definition raw_db (r : Rule) : option (result db_params) :=
if (0 <? String.length (ru_params r))%nat then Some (decode_db (ru_params r)) else None.

Definition Validate_rule (r : Rule) (reg : registry) : option rule_refusal :=
match ValidateCapability reg (ru_scheme r +:+ ":" +:+ ru_capability r) with
| inr e => Some (RCapability e)
| inl _ =>
    check_all (λ c, guard (negb (mem_key (rc_scheme c) constraint_schemes)) (RConstraint (rc_scheme c)))
      (ru_constraints r) ;;?
    match rule_params r with
    | None => Some RNotObject
    | Some params =>
        (if (0 <? String.length (ru_params r))%nat
         then RParams <$> ValidateGrantParams (default [] params) else None) ;;?
        (RContract <$> ValidateParams reg (ru_scheme r) (ru_capability r) params) ;;?
        (RScheme <$> ValidateSchemeParams (ru_scheme r) (ru_capability r) (raw_db r))
    end
end.

(** The claim of the same capability with the same parameters. *)
Definition claim_of_rule (r : Rule) : CapabilityClaim :=
mkClaim (ru_scheme r) (ru_capability r) (Some (default [] (default None (rule_params r)))) "" "".

(** An identifier matches itself. *)
Lemma covered_by_self ids id : id ∈ ids → covered_by ids id = true.
Proof.
  intros H. apply existsb_exists. exists id. split; [by apply list_elem_of_In|].
  unfold MatchCapability. by rewrite String.eqb_refl.
Qed.

Lemma ListCapabilities_elem def id : id ∈ ListCapabilities def ↔ id ∈ ce_id <$> sd_capabilities def.
Proof. unfold ListCapabilities, sort_Strings. by rewrite merge_sort_Permutation. Qed.

Lemma find_capability_listed def cap c : find_capability def cap = Some c → cap ∈ ListCapabilities def.
Proof.
  intros H%List.find_some. destruct H as [Hin Heq]. go_bool. subst.
  apply ListCapabilities_elem, list_elem_of_fmap. exists c. by rewrite list_elem_of_In.
Qed.

(** C21: the rule path is no laxer than the claims path: when a rule with a valid
    scheme name passes validation, the claim of its capability with its parameters
    passes too, so a rule cannot omit a required parameter, add an undeclared one
    or name a capability the registry does not have. *)
Theorem rule_path_not_laxer r reg :
  ValidateSchemeID (ru_scheme r) = None → Validate_rule r reg = None →
  claim_refusal reg (claim_of_rule r) = None.
Proof.
  intros Hs. unfold Validate_rule, ValidateCapability.
  rewrite (ParseCapability_scheme (ru_scheme r) (ru_capability r) Hs : ParseCapability (ru_scheme r +:+ ":" +:+ ru_capability r) = _).
  destruct (Get reg (ru_scheme r)) as [def|] eqn:Eg; [|done].
  destruct (find_capability def (ru_capability r)) as [c|] eqn:Ef; [|done].
  rewrite check_seq_None. intros [_ H]. unfold claim_refusal, claim_of_rule.
  destruct (rule_params r) as [params|]; [|done]. simpl in *. rewrite Eg.
  rewrite !check_seq_None in H. destruct H as (_ & H & _).
  rewrite (covered_by_self _ _ (find_capability_listed _ _ _ Ef)). simpl.
  unfold ValidateParams in H. rewrite Eg in H. by destruct (validateClaimParams _ _).
Qed.
End validation.

Definition sample_rule : Rule :=
  mkRule "r1" "1.0.0" "acme/ca" "cert:issue" (jtext_of "{'days':3}") None
    [mkRuleConstraint "constraint" "max_rows" ""] None.
Definition no_db (raw : string) : result db_params := inr "not a database rule"%string.

Lemma rule_path_not_laxer_witness : claim_refusal sample_registry (claim_of_rule sample_rule) = None.
Proof. apply (rule_path_not_laxer no_db); vm_compute; reflexivity. Defined.

(** A rule that omits the required parameter is refused. *)
Example rule_missing_param :
  Validate_rule no_db (mkRule "r1" "1.0.0" "acme/ca" "cert:issue" "" None [] None) sample_registry
  = Some (RContract (CParams (PMissing "days" "cert:issue"))).
Proof. vm_compute. reflexivity. Qed.
