(* ===== verification/RulePublish.v ===== *)
(** * Signing, publishing and loading rules

    sign.go (detached signatures over files), ruleexec/publish.go (rules are
    validated, copied and signed into a published tree) and
    ruleexec/ruleplugin_load.go (published rules are verified and registered).

    A cleaned path is the list of its elements and the files are a map from paths
    to their bytes.  The files a directory walk visits, PEM, X.509, PKCS#7 and the
    plugin registry are code of other repositories or the operating system: they
    are parameters.  A failed operation returns its error; the files it leaves
    behind are not described. *)

From stdpp Require Import gmap.
From S2P Require Import Prelude GoStrings GoFloat Json Canonical Ids Values Bounds JsonText.
From S2P Require Import JsonStruct.
From S2P Require Import SqlGen RuleExec Gateway SchemaDigest JsonSchema Registry Claims.
From S2P Require Import RegistryProofs RuleValidate RuleRead.

(** ** Files *)

Abbreviation path := (list string) (only parsing).
Abbreviation store := (gmap (list string) string) (only parsing).

(** [path + ".p7s"]. *)
Definition p7s (p : path) : path :=
  match list.last p with Some b => removelast p ++ [b +:+ ".p7s"] | None => [".p7s"] end.

Inductive file_error :=
  | FRead (p : path)
  | FWrite (p : path)
  | FMkdir (p : path)
  | FPem (p : path)
  | FNoCerts (p : path)
  | FNotSigner
  | FKey (p : path)
  | FSign (e : error)
  | FRule (e : load_error)
  | FStructure (e : exec_error)
  | FContract (e : rule_refusal)
  | FNoRegistry
  | FSignature (e : error)
  | FNoRoots
  | FChain (e : error)
  | FGrant (e : error)
  | FPlugin (e : error).

Abbreviation fres A := (sum A file_error) (only parsing).

Definition ReadFile (fs : store) (p : path) : fres string :=
  match fs !! p with Some data => inl data | None => inr (FRead p) end.

(** ** Versions (ruleexec/publish.go) *)

Record RuleVersion := mkVersion { Major : Z; Minor : Z }.

Definition digits (s : string) : bool := negb (String.eqb s "") && str_forallb is_digit s.

(** [ruleVersionRe.FindStringSubmatch]; the errors of [strconv.Atoi] are ignored,
    so a number out of range is clipped. *)
Definition match_version (base : string) : option RuleVersion :=
  if HasPrefix base "v" && HasSuffix base ".json" then
    match Split "." (sdrop 1 (TrimSuffix base ".json")) with
    | [major; minor] =>
        if digits major && digits minor then Some (mkVersion (Atoi major).1 (Atoi minor).1) else None
    | _ => None
    end
  else None.

Definition version_name (v : RuleVersion) : string := "v" +:+ Itoa (Major v) +:+ "." +:+ Itoa (Minor v) +:+ ".json".
Definition version_le (a b : RuleVersion) : Prop :=
  Major a < Major b ∨ (Major a = Major b ∧ Minor a <= Minor b).
#[global] Instance version_le_dec a b : Decision (version_le a b).
Proof. unfold version_le. apply _. Defined.
#[global] Instance version_le_total : Total version_le.
Proof. intros a b. unfold version_le. lia. Qed.
#[global] Instance version_le_trans : Transitive version_le.
Proof. intros a b c. unfold version_le. lia. Qed.

Record SchemePublish := mkPublish { sp_latest : string; sp_files : list string }.
Record PublishManifest := mkManifest { pm_schemes : gomap SchemePublish }.

(** A relative path as text and back. *)
Definition ToSlash (rel : path) : string := match rel with [] => "." | _ => Join "/" rel end.
Definition FromSlash (s : string) : path := if String.eqb s "." then [] else Split "/" s.

(** A file a walk visits: its directory relative to the root and its name. *)
Record visit := mkVisit { vi_rel : list string; vi_base : string }.

(** The versions grouped by scheme. *)
Fixpoint collect (walk : list visit) (byScheme : gomap (list RuleVersion)) : gomap (list RuleVersion) :=
  match walk with
  | [] => byScheme
  | v :: walk' =>
      collect walk'
        match match_version (vi_base v) with
        | None => byScheme
        | Some ver =>
            let scheme := ToSlash (vi_rel v) in
            mset scheme (default [] (mget scheme byScheme) ++ [ver]) byScheme
        end
  end.

(** [listRuleVersions]: the versions among the entries of a directory, each with
    whether it is a directory itself. *)
Definition listRuleVersions (dir_entries : list (string * bool)) : list RuleVersion :=
  omap (λ e : string * bool, if e.2 then None else match_version e.1) dir_entries.

(** ** Names *)

Fixpoint last_char (s : string) : option ascii :=
  match s with
  | EmptyString => None
  | String c EmptyString => Some c
  | String _ s' => last_char s'
  end.
Lemma last_char_app a b : b ≠ "" → last_char (a +:+ b) = last_char b.
Proof.
  intros Hb. induction a as [|c a IH]; [done|]. rewrite append_cons. simpl. rewrite <- IH.
  destruct a; simpl; [by destruct b|done].
Qed.
Lemma str_app_inj_r a b t : a +:+ t = b +:+ t → a = b.
Proof.
  intros E. assert (String.length a = String.length b) as Hl.
  { apply (f_equal String.length) in E. rewrite !str_length_app in E. lia. }
  by rewrite <- (stake_app a t), E, Hl, stake_app.
Qed.

(** The name of a version up to its extension. *)
Definition version_stem (v : RuleVersion) : string := "v" +:+ Itoa (Major v) +:+ "." +:+ Itoa (Minor v).
Lemma version_name_json v : version_name v = version_stem v +:+ ".json".
Proof. unfold version_name, version_stem. by rewrite <- !str_app_assoc. Qed.

Lemma last_names vs v : list.last vs = Some v → List.last (version_name <$> vs) "" = version_name v.
Proof. intros [l ->]%last_Some. rewrite fmap_app. apply List.last_last. Qed.
Lemma last_greatest vs v w : StronglySorted version_le vs → list.last vs = Some v → w ∈ vs → version_le w v.
Proof.
  induction 1 as [|x vs Hss IH Hx]; [done|]. destruct vs as [|y vs].
  - intros [= ->] ->%list_elem_of_singleton. unfold version_le. lia.
  - rewrite last_cons_cons. intros Hl [->|Hw]%elem_of_cons; [|by apply IH].
    apply last_Some in Hl as [l Hl]. rewrite list.Forall_forall in Hx. apply Hx. rewrite Hl. set_solver.
Qed.

Lemma FromSlash_inj s t : FromSlash s = FromSlash t → s = t.
Proof.
  unfold FromSlash. destruct (String.eqb_spec s ".") as [->|]; destruct (String.eqb_spec t ".") as [->|]; try done.
  - intros E. by destruct (Split_not_nil "/" t).
  - intros E. by destruct (Split_not_nil "/" s).
  - apply Split_inj.
Qed.

(** ** The collected versions *)

Lemma sort_Strings_elem l x : x ∈ sort_Strings l ↔ x ∈ l.
Proof. unfold sort_Strings. by rewrite merge_sort_Permutation. Qed.
Lemma sort_Strings_NoDup l : NoDup l → NoDup (sort_Strings l).
Proof. unfold sort_Strings. by rewrite merge_sort_Permutation. Qed.

Lemma collect_inv (P : gomap (list RuleVersion) → Prop) walk :
  (∀ m s vs v, P m → P (mset s (vs ++ [v]) m)) → ∀ m, P m → P (collect walk m).
Proof.
  intros Hstep. induction walk as [|x walk IH]; intros m Hm; [done|]. cbn [collect].
  apply IH. destruct (match_version _); auto.
Qed.
Lemma collect_wf walk : NoDup (mkeys (collect walk [])).
Proof. apply (collect_inv wf_map); [intros; by apply wf_mset|constructor]. Qed.
Lemma collect_nonempty walk s : s ∈ mkeys (collect walk []) → default [] (mget s (collect walk [])) ≠ [].
Proof.
  rewrite <- mhas_true. unfold mhas.
  assert (∀ vs, mget s (collect walk []) = Some vs → vs ≠ []) as H; [|destruct (mget s _); naive_solver].
  apply (collect_inv (λ m, ∀ vs, mget s m = Some vs → vs ≠ [])); [|done].
  intros m t vs v Hm ws. rewrite mget_mset. destruct (String.eqb s t); [intros [= <-]; by destruct vs|apply Hm].
Qed.

Section signing.
Context {Cert Key : Type}.

(** PEM: the first block of the text with what follows it; the encoder writes a
  PKCS7 block. *)
Context (pem_Decode : string → option (string * string)) (pem_Encode : string → string).
(** X.509: certificates and private keys; a PKCS#8 key need not be a signer. *)
Context (ParseCertificate : string → option Cert) (ParsePKCS8 : string → option (option Key))
  (ParseEC ParsePKCS1 : string → option Key) (chain_verify : list Cert → Cert → check).
(** PKCS#7. *)
Context (BuildSignedData : string → Cert → Key → list Cert → result string)
  (VerifyDetached : string → string → result Cert).
(** The AIC extension of a certificate, and the texts of decoding errors. *)
Context (ParseAIC : Cert → result (option AIC)) (FullID : Capability → string) (json_error : string → string).
(** Whether the file system lets a file be written, a directory be made. *)
Context (may_write may_make : list string → bool).

Definition WriteFile (p : path) (data : string) (fs : store) : fres store :=
if may_write p then inl (<[p := data]> fs) else inr (FWrite p).

(** ** Signatures (sign.go) *)

(** The loop of [LoadCertFile].  A block that is no certificate is skipped. *)
Fixpoint cert_blocks (fuel : nat) (data : string) : list Cert :=
match fuel with
| O => []
| S fuel' =>
    match pem_Decode data with
    | None => []
    | Some (block, rest) =>
        match ParseCertificate block with
        | Some c => c :: cert_blocks fuel' rest
        | None => cert_blocks fuel' rest
        end
    end
end.

Definition LoadCertFile (fs : store) (p : path) : fres (list Cert) :=
match ReadFile fs p with
| inr e => inr e
| inl data => match cert_blocks (String.length data) data with [] => inr (FNoCerts p) | cs => inl cs end
end.

Definition loadPrivateKey (fs : store) (p : path) : fres Key :=
match ReadFile fs p with
| inr e => inr e
| inl data =>
    match pem_Decode data with
    | None => inr (FPem p)
    | Some (block, _) =>
        match ParsePKCS8 block with
        | Some (Some k) => inl k
        | Some None => inr FNotSigner
        | None =>
            match ParseEC block with
            | Some k => inl k
            | None => match ParsePKCS1 block with Some k => inl k | None => inr (FKey p) end
            end
        end
    end
end.

(** [SignCapability]; without an output path the signature goes beside the file. *)
Definition SignCapability (certPath keyPath capPath : path) (outputPath : option (list string)) (fs : store) :
  fres store :=
match ReadFile fs capPath with
| inr e => inr e
| inl capData =>
    match LoadCertFile fs certPath with
    | inr e => inr e
    | inl [] => inr (FNoCerts certPath)
    | inl (signerCert :: chain) =>
        match loadPrivateKey fs keyPath with
        | inr e => inr e
        | inl privKey =>
            match BuildSignedData capData signerCert privKey chain with
            | inr e => inr (FSign e)
            | inl der => WriteFile (default (p7s capPath) outputPath) (pem_Encode der) fs
            end
        end
    end
end.

(** [VerifyCapabilityPKCS7Cert]; [fs1] and [fs2] are the files at the two reads. *)
Definition VerifyCapabilityPKCS7Cert (capPath : path) (trustRoots : list Cert) (fs1 fs2 : store) : fres Cert :=
match ReadFile fs1 capPath, ReadFile fs2 (p7s capPath) with
| inr e, _ | inl _, inr e => inr e
| inl capData, inl sigPEM =>
    match pem_Decode sigPEM with
    | None => inr (FPem (p7s capPath))
    | Some (block, _) =>
        match VerifyDetached block capData with
        | inr e => inr (FSignature e)
        | inl signerCert =>
            match trustRoots with
            | [] => inr FNoRoots
            | _ => match chain_verify trustRoots signerCert with
                   | Some e => inr (FChain e)
                   | None => inl signerCert
                   end
            end
        end
    end
end.
Definition HasSignature (capPath : path) (fs : store) : bool := bool_decide (is_Some (fs !! p7s capPath)).

(** [LoadTrustRoots] on a file or on the files a directory walk visits; files of
  other names and files without certificates are passed over. *)
Definition LoadTrustRoots (p : path) (dir : option (list (list string))) (fs : store) : fres (list Cert) :=
match dir with
| None => LoadCertFile fs p
| Some files =>
    inl (mjoin ((λ q,
      let name := default "" (list.last q) in
      if HasSuffix name ".pem" || HasSuffix name ".crt" then
        match LoadCertFile fs q with inl cs => cs | inr _ => [] end
      else []) <$> files))
end.

(** ** Publishing (ruleexec/publish.go) *)

Definition Validate_text (rule : Rule) (reg : registry) : option rule_refusal :=
Validate_rule (decode_table_params json_error) rule reg.

Definition copyAndSign (certPath keyPath : path) (reg : registry) (src dst : path) (fs : store) : fres store :=
match ReadFile fs src with
| inr e => inr e
| inl data =>
    match LoadRuleBytes data with
    | inr e => inr (FRule e)
    | inl rule =>
        match ValidateStructure rule with
        | Some e => inr (FStructure e)
        | None =>
            match Validate_text rule reg with
            | Some e => inr (FContract e)
            | None =>
                match WriteFile dst data fs with
                | inr e => inr e
                | inl fs' => SignCapability certPath keyPath dst (Some (p7s dst)) fs'
                end
            end
        end
    end
end.

Section publish.
Context (rulesDir outDir certPath keyPath : list string) (reg : registry).

(** The versions of one scheme, in their order. *)
Fixpoint publish_versions (src dst : path) (versions : list RuleVersion) (fs : store) : fres store :=
match versions with
| [] => inl fs
| ver :: versions' =>
    let name := version_name ver in
    match copyAndSign certPath keyPath reg (src ++ [name]) (dst ++ [name]) fs with
    | inr e => inr e
    | inl fs' => publish_versions src dst versions' fs'
    end
end.

Definition publish_scheme (scheme : string) (versions : list RuleVersion) (fs : store) : fres (SchemePublish * store) :=
let src := rulesDir ++ FromSlash scheme in
let dst := outDir ++ FromSlash scheme in
let versions := merge_sort version_le versions in
if negb (may_make dst) then inr (FMkdir dst)
else
  match publish_versions src dst versions fs with
  | inr e => inr e
  | inl fs1 =>
      let files := version_name <$> versions in
      let latest := List.last files "" in
      match copyAndSign certPath keyPath reg (src ++ [latest]) (dst ++ ["default.json"]) fs1 with
      | inr e => inr e
      | inl fs2 => inl (mkPublish latest files, fs2)
      end
  end.

Fixpoint publish_schemes (byScheme : gomap (list RuleVersion)) (schemes : list string)
    (m : gomap SchemePublish) (fs : store) : fres (PublishManifest * store) :=
match schemes with
| [] => inl (mkManifest m, fs)
| scheme :: schemes' =>
    match publish_scheme scheme (default [] (mget scheme byScheme)) fs with
    | inr e => inr e
    | inl (sp, fs') => publish_schemes byScheme schemes' (mset scheme sp m) fs'
    end
end.
End publish.

Definition PublishRules (rulesDir outDir certPath keyPath : path) (reg : option registry) (walk : list visit)
  (fs : store) : fres (PublishManifest * store) :=
match reg with
| None => inr FNoRegistry
| Some reg =>
    let byScheme := collect walk [] in
    publish_schemes rulesDir outDir certPath keyPath reg byScheme (sort_Strings (mkeys byScheme)) [] fs
end.

(** ** Loading (ruleexec/ruleplugin_load.go) *)

(** [loadAuthorizedRule]; the rule file is read twice, its signature once:
  [fs1], [fs2] and [fs3] are the files when the rule is read for verification,
  when its signature is read and when it is read again to be decoded. *)
Definition loadAuthorizedRule (rulePath : path) (trustRoots : list Cert) (reg : option registry)
  (fs1 fs2 fs3 : store) : fres Rule :=
match reg with
| None => inr FNoRegistry
| Some reg =>
    match VerifyCapabilityPKCS7Cert rulePath trustRoots fs1 fs2 with
    | inr e => inr e
    | inl signer =>
        match ReadFile fs3 rulePath with
        | inr e => inr e
        | inl data =>
            match LoadRuleBytes data with
            | inr e => inr (FRule e)
            | inl rule =>
                match ValidateStructure rule with
                | Some e => inr (FStructure e)
                | None =>
                    match Validate_text rule reg with
                    | Some e => inr (FContract e)
                    | None =>
                        match RuleWithinSignerGrant ParseAIC FullID json_error (Some rule) (Some signer) with
                        | Some e => inr (FGrant e)
                        | None => inl rule
                        end
                    end
                end
            end
        end
    end
end.

(** [RulePlugin]: the scheme it serves, its rule and the budget of its executor. *)
Record RulePlugin := mkPlugin { pl_scheme : string; pl_rule : Rule; pl_budget : Budget }.
Definition NewRulePlugin (scheme : string) (rule : Rule) (budget : Budget) : RulePlugin := mkPlugin scheme rule budget.
Definition LoadRulePlugin (rulePath : path) (trustRoots : list Cert) (reg : option registry) (fs1 fs2 fs3 : store) :
  fres RulePlugin :=
match loadAuthorizedRule rulePath trustRoots reg fs1 fs2 fs3 with
| inr e => inr e
| inl rule => inl (NewRulePlugin (ru_scheme rule) rule NewBudget)
end.

Section register.
(** The gateway's plugin registry. *)
Context {PR : Type} (Find : PR → string → bool) (RegisterPlugin : PR → RulePlugin → result PR).

(** [RegisterRulePluginsFromDir]: the schemes registered, the error that ended
  the walk and the registry it leaves. *)
Fixpoint register_dir (dir : path) (trustRoots : list Cert) (sreg : registry) (fs : store)
    (walk : list visit) (schemes : list string) (pr : PR) : list string * option file_error * PR :=
match walk with
| [] => (schemes, None, pr)
| v :: walk' =>
    if negb (String.eqb (vi_base v) "default.json") then register_dir dir trustRoots sreg fs walk' schemes pr
    else
      let scheme := ToSlash (vi_rel v) in
      if Find pr scheme then register_dir dir trustRoots sreg fs walk' schemes pr
      else
        match LoadRulePlugin (dir ++ vi_rel v ++ [vi_base v]) trustRoots (Some sreg) fs fs fs with
        | inr e => (schemes, Some e, pr)
        | inl plugin =>
            match RegisterPlugin pr plugin with
            | inr e => (schemes, Some (FPlugin e), pr)
            | inl pr' => register_dir dir trustRoots sreg fs walk' (schemes ++ [scheme]) pr'
            end
        end
end.
Definition RegisterRulePluginsFromDir (pr : option PR) (dir : path) (trustRoots : list Cert)
    (sreg : option registry) (fs : store) (walk : list visit) : list string * option file_error * option PR :=
match pr, sreg with
| Some pr, Some sreg =>
    let '(schemes, err, pr') := register_dir dir trustRoots sreg fs walk [] pr in (schemes, err, Some pr')
| _, _ => ([], Some FNoRegistry, pr)
end.
End register.
(** ** What a published tree holds *)

Lemma p7s_app d n : p7s (d ++ [n]) = d ++ [n +:+ ".p7s"].
Proof. unfold p7s. by rewrite last_snoc, removelast_last. Qed.

(** Enough fuel reads every block, where a block is never empty. *)
Lemma cert_blocks_fuel :
(∀ data block rest, pem_Decode data = Some (block, rest) → (String.length rest < String.length data)%nat) →
∀ fuel data, (String.length data <= fuel)%nat → cert_blocks fuel data = cert_blocks (String.length data) data.
Proof.
intros Hp. assert (∀ n fuel fuel' data, (String.length data <= n)%nat → (String.length data <= fuel)%nat →
  (String.length data <= fuel')%nat → cert_blocks fuel data = cert_blocks fuel' data) as H; [|by intros; eapply H].
induction n as [|n IH]; intros fuel fuel' data Hn Hf Hf'.
- destruct (pem_Decode data) as [[b r]|] eqn:E; [apply Hp in E; lia|].
  destruct fuel, fuel'; simpl; by rewrite ?E.
- destruct fuel as [|fuel], fuel' as [|fuel']; cbn [cert_blocks]; [done| | |].
  1,2: destruct (pem_Decode data) as [[b r]|] eqn:E; [apply Hp in E; lia|done].
  destruct (pem_Decode data) as [[b r]|] eqn:E; [|done]. apply Hp in E.
  rewrite (IH fuel fuel' r) by lia. done.
Qed.

Section tree.
Context (certPath keyPath : list string) (reg : registry) (signer : Cert) (chain : list Cert) (key : Key).

(** The signer's files hold this certificate, chain and key. *)
Definition signs_with (fs : store) : Prop :=
LoadCertFile fs certPath = inl (signer :: chain) ∧ loadPrivateKey fs keyPath = inl key.

(** A file holds a valid rule and its signature lies beside it. *)
Definition signed_at (fs : store) (p : path) : Prop :=
∃ data rule der, fs !! p = Some data ∧ LoadRuleBytes data = inl rule ∧ Validate_text rule reg = None ∧
  BuildSignedData data signer key chain = inl der ∧ fs !! p7s p = Some (pem_Encode der).

Lemma signs_with_same fs fs' :
fs' !! certPath = fs !! certPath → fs' !! keyPath = fs !! keyPath → signs_with fs → signs_with fs'.
Proof. unfold signs_with, LoadCertFile, loadPrivateKey, ReadFile. by intros -> ->. Qed.

Lemma WriteFile_inl p data fs fs' : WriteFile p data fs = inl fs' → fs' = <[p := data]> fs.
Proof. unfold WriteFile. destruct (may_write p); naive_solver. Qed.

(** What a successful copy does to the files. *)
Lemma copyAndSign_inl src d n fs fs' :
certPath ≠ d ++ [n] → keyPath ≠ d ++ [n] → signs_with fs →
copyAndSign certPath keyPath reg src (d ++ [n]) fs = inl fs' →
∃ data rule der, fs !! src = Some data ∧ LoadRuleBytes data = inl rule ∧ Validate_text rule reg = None ∧
  BuildSignedData data signer key chain = inl der ∧
  fs' = <[d ++ [n +:+ ".p7s"] := pem_Encode der]> (<[d ++ [n] := data]> fs).
Proof.
intros Hc Hk Hs. unfold copyAndSign, ReadFile. destruct (fs !! src) as [data|] eqn:Ed; [|done].
destruct (LoadRuleBytes data) as [rule|] eqn:El; [|done]. destruct (ValidateStructure rule); [done|].
destruct (Validate_text rule reg) eqn:Ev; [done|]. destruct (WriteFile _ data fs) as [fs1|] eqn:Ew; [|done].
apply WriteFile_inl in Ew as ->. assert (signs_with (<[d ++ [n] := data]> fs)) as [Hcs Hks].
{ apply (signs_with_same fs); [by rewrite lookup_insert_ne..|done]. }
unfold SignCapability, ReadFile. rewrite lookup_insert_eq, Hcs, Hks.
destruct (BuildSignedData data signer key chain) as [der|] eqn:Eb; [|done].
cbn [default]. rewrite p7s_app. intros Hw%WriteFile_inl. naive_solver.
Qed.

(** A rule file is no signature file. *)
Lemma json_not_p7s (d d' : path) x n : d ++ [x +:+ ".json"] ≠ d' ++ [n +:+ ".p7s"].
Proof.
intros [_ E]%app_inj_tail. assert (last_char (x +:+ ".json") = last_char (n +:+ ".p7s")) as H by by rewrite E.
by rewrite !last_char_app in H.
Qed.

(** One copy: what it leaves, and that it keeps every signed file signed. *)
Lemma copyAndSign_step src d x fs fs' :
certPath ≠ d ++ [x +:+ ".json"] → keyPath ≠ d ++ [x +:+ ".json"] → signs_with fs →
copyAndSign certPath keyPath reg src (d ++ [x +:+ ".json"]) fs = inl fs' →
signed_at fs' (d ++ [x +:+ ".json"]) ∧ fs' !! (d ++ [x +:+ ".json"]) = fs !! src ∧
(∀ p, (∀ n, p ≠ d ++ [n]) → fs' !! p = fs !! p) ∧
(∀ d' y, d' ++ [y +:+ ".json"] ≠ d ++ [x +:+ ".json"] → fs' !! (d' ++ [y +:+ ".json"]) = fs !! (d' ++ [y +:+ ".json"])) ∧
(∀ d' y, signed_at fs (d' ++ [y +:+ ".json"]) → signed_at fs' (d' ++ [y +:+ ".json"])).
Proof.
intros Hc Hk Hs E. apply copyAndSign_inl in E as (data & rule & der & H1 & H2 & H3 & H4 & ->); [|done..].
set (n := x +:+ ".json") in *.
assert (signed_at (<[d ++ [n +:+ ".p7s"] := pem_Encode der]> (<[d ++ [n] := data]> fs)) (d ++ [n])) as Hn.
{ exists data, rule, der. rewrite p7s_app. split_and!; [|done..|by rewrite lookup_insert_eq].
  rewrite lookup_insert_ne by (symmetry; apply json_not_p7s). by rewrite lookup_insert_eq. }
assert (∀ d' y, d' ++ [y +:+ ".json"] ≠ d ++ [n] →
  <[d ++ [n +:+ ".p7s"] := pem_Encode der]> (<[d ++ [n] := data]> fs) !! (d' ++ [y +:+ ".json"])
  = fs !! (d' ++ [y +:+ ".json"])) as Hj.
{ intros d' y Hne. rewrite lookup_insert_ne by (symmetry; apply json_not_p7s). by rewrite lookup_insert_ne. }
split_and!; [done| | |done|].
- rewrite lookup_insert_ne by (symmetry; apply json_not_p7s). by rewrite lookup_insert_eq.
- intros p Hp. by rewrite !lookup_insert_ne by (intros Hx; by eapply Hp).
- intros d' y Hy. destruct (decide (d' ++ [y +:+ ".json"] = d ++ [n])) as [->|Hne]; [done|].
  destruct Hy as (data' & rule' & der' & G1 & G2 & G3 & G4 & G5). exists data', rule', der'.
  rewrite Hj by done. split_and!; [done..|]. rewrite p7s_app in *. rewrite !lookup_insert_ne; [done| |].
  + subst n. apply not_eq_sym, not_eq_sym, json_not_p7s.
  + intros [-> Ex%str_app_inj_r]%app_inj_tail. by rewrite Ex in Hne.
Qed.

Section directories.
Context (rulesDir outDir : list string).
Hypothesis cert_outside : ¬ outDir `prefix_of` certPath.
Hypothesis key_outside : ¬ outDir `prefix_of` keyPath.

Lemma outside_of p d n : ¬ outDir `prefix_of` p → p ≠ (outDir ++ d) ++ [n].
Proof. intros H ->. apply H. exists (d ++ [n]). by rewrite (assoc_L (++)). Qed.

Lemma publish_versions_inl src d versions : ∀ fs fs', signs_with fs →
publish_versions certPath keyPath reg src (outDir ++ d) versions fs = inl fs' →
signs_with fs' ∧ (∀ p, (∀ n, p ≠ (outDir ++ d) ++ [n]) → fs' !! p = fs !! p) ∧
(∀ d' y, signed_at fs (d' ++ [y +:+ ".json"]) → signed_at fs' (d' ++ [y +:+ ".json"])) ∧
(∀ v, v ∈ versions → signed_at fs' ((outDir ++ d) ++ [version_name v])) ∧
(∀ v, list.last versions = Some v → fs' !! ((outDir ++ d) ++ [version_name v]) = fs' !! (src ++ [version_name v])).
Proof.
induction versions as [|v versions IH]; intros fs fs' Hs; cbn [publish_versions].
{ intros [= <-]. split_and!; [done..|set_solver|done]. }
destruct (copyAndSign _ _ _ _ _ _) as [fs1|] eqn:Ec; [|done]. intros E. rewrite version_name_json in Ec.
apply copyAndSign_step in Ec as (S1 & S2 & S3 & S4 & S5); [|by apply outside_of..|done].
assert (signs_with fs1) as Hs1.
{ apply (signs_with_same fs); [apply S3; intros n; by apply outside_of..|done]. }
pose proof E as E1. apply IH in E as (I1 & I2 & I3 & I4 & I5); [|done]. split_and!; [done| | | |].
- intros p Hp. by rewrite I2, S3.
- auto.
- intros w [->|Hw]%elem_of_cons; [|by apply I4]. rewrite version_name_json. by apply I3.
- intros w. destruct versions as [|v' versions]; [|rewrite last_cons_cons; apply I5]. intros [= <-].
  injection E1 as <-. rewrite version_name_json in *.
  destruct (decide (src ++ [version_stem v +:+ ".json"] = (outDir ++ d) ++ [version_stem v +:+ ".json"])) as [->|Hne];
    [done|]. by rewrite S2, S4.
Qed.

(** The published form of a scheme: its versions in order, a signed and valid rule
  in every file, and the default a copy of the highest version. *)
Definition published (found : list RuleVersion) (fs : store) (scheme : string) (sp : SchemePublish) : Prop :=
∃ vs v, vs ≡ₚ found ∧ list.last vs = Some v ∧ (∀ w, w ∈ found → version_le w v) ∧
  sp = mkPublish (version_name v) (version_name <$> vs) ∧
  (∀ name, name ∈ "default.json" :: sp_files sp → signed_at fs ((outDir ++ FromSlash scheme) ++ [name])) ∧
  fs !! ((outDir ++ FromSlash scheme) ++ ["default.json"]) = fs !! ((outDir ++ FromSlash scheme) ++ [sp_latest sp]).

Lemma publish_scheme_inl scheme found fs sp fs' : signs_with fs → found ≠ [] →
publish_scheme rulesDir outDir certPath keyPath reg scheme found fs = inl (sp, fs') →
signs_with fs' ∧ published found fs' scheme sp ∧
(∀ p, (∀ n, p ≠ (outDir ++ FromSlash scheme) ++ [n]) → fs' !! p = fs !! p).
Proof.
intros Hs Hne. unfold publish_scheme. destruct (negb (may_make _)); [done|].
destruct (publish_versions _ _ _ _ _ _ _) as [fs1|] eqn:Ev; [|done].
destruct (list.last (merge_sort version_le found)) as [v|] eqn:El; [|apply last_None, (f_equal length) in El;
  rewrite merge_sort_Permutation in El; by destruct found].
rewrite (last_names _ _ El). destruct (copyAndSign _ _ _ _ _ _) as [fs2|] eqn:Ec; [|done]. intros [= <- <-].
apply publish_versions_inl in Ev as (V1 & V2 & V3 & V4 & V5); [|done].
change "default.json" with ("default" +:+ ".json") in Ec.
apply copyAndSign_step in Ec as (S1 & S2 & S3 & S4 & S5); [|by apply outside_of..|done].
split_and!.
- apply (signs_with_same fs1); [apply S3; intros n; by apply outside_of..|done].
- exists (merge_sort version_le found), v. split_and!; [apply merge_sort_Permutation|done| |done| |].
  + intros w Hw. eapply last_greatest; [|done|by rewrite merge_sort_Permutation]. apply (StronglySorted_merge_sort version_le).
  + intros name [->|Hn]%elem_of_cons; [done|]. cbn [sp_files] in Hn.
    apply list_elem_of_fmap in Hn as (w & -> & Hw). rewrite version_name_json. apply S5. rewrite <- version_name_json. by apply V4.
  + cbn [sp_latest]. change "default.json" with ("default" +:+ ".json"). rewrite S2. rewrite <- V5 by done.
    destruct (decide ((outDir ++ FromSlash scheme) ++ [version_name v] =
                      (outDir ++ FromSlash scheme) ++ ["default" +:+ ".json"])) as [Hd|Hd].
    * rewrite Hd, S2. rewrite <- V5 by done. by rewrite Hd.
    * rewrite version_name_json in *. by rewrite S4.
- intros p Hp. by rewrite S3, V2.
Qed.

Lemma published_frame found fs fs' scheme sp :
(∀ n, fs' !! ((outDir ++ FromSlash scheme) ++ [n]) = fs !! ((outDir ++ FromSlash scheme) ++ [n])) →
published found fs scheme sp → published found fs' scheme sp.
Proof.
intros Hf (vs & v & H1 & H2 & H3 & H4 & H5 & H6). exists vs, v. split_and!; [done..| |by rewrite !Hf].
intros name Hn. destruct (H5 name Hn) as (data & rule & der & G). exists data, rule, der.
rewrite p7s_app in *. by rewrite !Hf.
Qed.

Lemma publish_schemes_inl byScheme schemes : ∀ m fs mf fs',
NoDup schemes → (∀ s, s ∈ schemes → default [] (mget s byScheme) ≠ []) → signs_with fs →
(∀ s sp, mget s m = Some sp → s ∉ schemes ∧ published (default [] (mget s byScheme)) fs s sp) →
publish_schemes rulesDir outDir certPath keyPath reg byScheme schemes m fs = inl (mf, fs') →
(∀ s sp, mget s (pm_schemes mf) = Some sp → published (default [] (mget s byScheme)) fs' s sp) ∧
(∀ s, s ∈ schemes ∨ is_Some (mget s m) → is_Some (mget s (pm_schemes mf))).
Proof.
induction schemes as [|s0 schemes IH]; intros m fs mf fs' Hnd Hne Hs Hm; cbn [publish_schemes].
{ intros [= <- <-]. split; [naive_solver|]. intros s [?|?]; [set_solver|done]. }
destruct (publish_scheme _ _ _ _ _ _ _ _) as [[sp0 fs1]|] eqn:Ep; [|done]. intros E.
apply list.NoDup_cons in Hnd as [Hn0 Hnd].
apply publish_scheme_inl in Ep as (P1 & P2 & P3); [|done|apply Hne; set_solver].
apply IH in E as [E1 E2]; [|done|set_solver|done|].
- split; [done|]. intros s [[->|Hin]%elem_of_cons|Hin]; apply E2; [right|by left|right]; rewrite mget_mset;
    [by rewrite String.eqb_refl|by destruct (String.eqb s s0)].
- intros s sp. rewrite mget_mset. destruct (String.eqb_spec s s0) as [->|Hss]; [by intros [= <-]|].
  intros [Hns Hp]%Hm. split; [set_solver|]. eapply published_frame; [|done]. intros n. apply P3.
  intros n' [Hd _]%app_inj_tail. apply app_inv_head, FromSlash_inj in Hd. done.
Qed.
End directories.

(** A signed file passes the verification of the loader, which then answers with
  the check of the signer's own grant. *)
Lemma signed_at_loads roots fs p :
(∀ der, ∃ rest, pem_Decode (pem_Encode der) = Some (der, rest)) →
(∀ data der, BuildSignedData data signer key chain = inl der → VerifyDetached der data = inl signer) →
roots ≠ [] → chain_verify roots signer = None → signed_at fs p →
∃ data rule, fs !! p = Some data ∧ LoadRuleBytes data = inl rule ∧ Validate_text rule reg = None ∧
  loadAuthorizedRule p roots (Some reg) fs fs fs =
  match RuleWithinSignerGrant ParseAIC FullID json_error (Some rule) (Some signer) with
  | Some e => inr (FGrant e)
  | None => inl rule
  end.
Proof.
intros Hpem Hsig Hr Hch (data & rule & der & H1 & H2 & H3 & H4 & H5). exists data, rule. split_and!; [done..|].
unfold loadAuthorizedRule, VerifyCapabilityPKCS7Cert, ReadFile. rewrite H1, H5.
destruct (Hpem der) as [rest ->]. rewrite (Hsig _ _ H4). destruct roots as [|r roots]; [done|].
rewrite Hch, H2, H3. by apply LoadRuleBytes_inl in H2 as (_ & _ & _ & _ & _ & ->).
Qed.
End tree.

(** C27: publishing and loading fit together.  Assume that PEM text is decoded to the
  bytes it was encoded from, that verifying what this key and chain signed gives
  the signer's certificate, that the loader has roots and they accept that certificate,
  and that the signer's certificate and key files lie outside the output tree.  When
  publishing succeeds, every scheme the walk found is in the manifest with its
  versions; in every published file of it, the default included, lies a rule that
  decodes and meets the registry's contract; the default is byte for byte a version
  that has the highest minor number among the found versions of its major; and
  loading any of these files from the tree succeeds up to the last check: it
  answers with the rule or with the refusal of the signer's own grant, never with
  a broken signature or an invalid rule. *)
Theorem published_rules_load rulesDir outDir certPath keyPath reg walk fs m fs' signer chain key roots :
(∀ der, ∃ rest, pem_Decode (pem_Encode der) = Some (der, rest)) →
(∀ data der, BuildSignedData data signer key chain = inl der → VerifyDetached der data = inl signer) →
roots ≠ [] → chain_verify roots signer = None →
LoadCertFile fs certPath = inl (signer :: chain) → loadPrivateKey fs keyPath = inl key →
¬ outDir `prefix_of` certPath → ¬ outDir `prefix_of` keyPath →
PublishRules rulesDir outDir certPath keyPath (Some reg) walk fs = inl (m, fs') →
∀ scheme found, mget scheme (collect walk []) = Some found →
∃ vs v, vs ≡ₚ found ∧ v ∈ found ∧ (∀ w, w ∈ found → Major w = Major v → Minor w <= Minor v) ∧
  mget scheme (pm_schemes m) = Some (mkPublish (version_name v) (version_name <$> vs)) ∧
  fs' !! (outDir ++ FromSlash scheme ++ ["default.json"]) = fs' !! (outDir ++ FromSlash scheme ++ [version_name v]) ∧
  ∀ name, name ∈ "default.json" :: (version_name <$> vs) →
  ∃ data rule, fs' !! (outDir ++ FromSlash scheme ++ [name]) = Some data ∧
    LoadRuleBytes data = inl rule ∧ Validate_text rule reg = None ∧
    loadAuthorizedRule (outDir ++ FromSlash scheme ++ [name]) roots (Some reg) fs' fs' fs' =
    match RuleWithinSignerGrant ParseAIC FullID json_error (Some rule) (Some signer) with
    | Some e => inr (FGrant e)
    | None => inl rule
    end.
Proof.
intros Hpem Hsig Hr Hch Hcert Hkey Hco Hko E scheme found Hf. unfold PublishRules in E.
eapply (publish_schemes_inl certPath keyPath reg signer chain key) in E as [E1 E2]; [|done..|apply sort_Strings_NoDup, collect_wf| |done|done].
2: { intros s Hs Hn. eapply collect_nonempty; [|done]. by rewrite sort_Strings_elem in Hs. }
destruct (E2 scheme) as [sp Hsp]; [left; rewrite sort_Strings_elem; apply mhas_true; unfold mhas; by rewrite Hf|].
destruct (E1 _ _ Hsp) as (vs & v & H1 & H2 & H3 & -> & H5 & H6). rewrite Hf in *. cbn [default sp_latest sp_files] in *.
exists vs, v. rewrite <- !(assoc_L (++)) in H6. split_and!; [done| | |done..|].
- rewrite <- H1. apply last_Some in H2 as [l ->]. set_solver.
- intros w Hw Hm. specialize (H3 w Hw). unfold version_le in H3. lia.
- intros name Hn. specialize (H5 name Hn). rewrite <- (assoc_L (++)) in H5. by eapply signed_at_loads.
Qed.

(** What a loaded rule has passed.  The verified bytes and the decoded ones are
  those of two reads. *)
Lemma loadAuthorizedRule_inl p roots reg fs1 fs2 fs3 rule :
loadAuthorizedRule p roots reg fs1 fs2 fs3 = inl rule →
∃ reg0 signed sig block rest signer data, reg = Some reg0 ∧ fs1 !! p = Some signed ∧ fs2 !! p7s p = Some sig ∧
  pem_Decode sig = Some (block, rest) ∧ VerifyDetached block signed = inl signer ∧
  roots ≠ [] ∧ chain_verify roots signer = None ∧ fs3 !! p = Some data ∧ LoadRuleBytes data = inl rule ∧
  Validate_text rule reg0 = None ∧
  RuleWithinSignerGrant ParseAIC FullID json_error (Some rule) (Some signer) = None.
Proof.
unfold loadAuthorizedRule, VerifyCapabilityPKCS7Cert, ReadFile. destruct reg as [reg0|]; [|done].
destruct (fs1 !! p) as [signed|] eqn:E1; [|done]. destruct (fs2 !! p7s p) as [sig|] eqn:E2; [|done].
destruct (pem_Decode sig) as [[block rest]|] eqn:E3; [|done].
destruct (VerifyDetached block signed) as [signer|] eqn:E4; [|done]. destruct roots as [|r roots]; [done|].
destruct (chain_verify _ signer) eqn:E5; [done|]. destruct (fs3 !! p) as [data|] eqn:E6; [|done].
destruct (LoadRuleBytes data) as [rule'|] eqn:E7; [|done]. destruct (ValidateStructure rule'); [done|].
destruct (Validate_text rule' reg0) eqn:E8; [done|].
destruct (RuleWithinSignerGrant _ _ _ _ _) eqn:E9; [done|]. intros [= <-]. naive_solver.
Qed.

(** Every plugin a directory walk registers was loaded from a verified file of the
  tree, serves the scheme its rule names and starts with a fresh budget. *)
Lemma register_dir_inv {PR} (Find : PR → string → bool) RegisterPlugin (P : PR → Prop) dir roots sreg fs walk :
(∀ pr plugin pr' p, P pr → loadAuthorizedRule p roots (Some sreg) fs fs fs = inl (pl_rule plugin) →
   pl_scheme plugin = ru_scheme (pl_rule plugin) → pl_budget plugin = NewBudget →
   RegisterPlugin pr plugin = inl pr' → P pr') →
∀ schemes pr, P pr → P (register_dir Find RegisterPlugin dir roots sreg fs walk schemes pr).2.
Proof.
intros Hstep. induction walk as [|v walk IH]; intros schemes pr Hpr; cbn [register_dir]; [done|].
destruct (negb _); [by apply IH|]. destruct (Find pr _); [by apply IH|]. unfold LoadRulePlugin.
destruct (loadAuthorizedRule _ _ _ _ _ _) as [rule|] eqn:El; [|done].
destruct (RegisterPlugin pr _) as [pr'|] eqn:Er; [|done]. apply IH. exact (Hstep pr (NewRulePlugin (ru_scheme rule) rule NewBudget) pr' _ Hpr El eq_refl eq_refl Er).
Qed.
End signing.

(** ** A published tree *)

Definition jtext_rule (limit : string) : string := quotes_of
  ("{'rule_id':'r1','version':'1.0.0','scheme':'acme/ca-v1','capability':'cert:issue','params':{'days':" +:+ limit +:+ "}}").
Definition versioned_registry : registry :=
  (Register (mkSchemeDefinition "acme/ca-v1" "Acme CA" "1.0" "" "acme" "ca-v1" "" "" ""
     [entry_of "cert:issue" [("days", flat_int)] ""] []) NewRegistry).2.
Definition visits : list visit := [mkVisit ["acme"; "ca-v1"] "v1.10.json"; mkVisit ["acme"; "ca-v1"] "v1.2.json"].
Definition rule_files : store :=
  <[["rules"; "acme"; "ca-v1"; "v1.2.json"] := jtext_rule "3"]> (<[["rules"; "acme"; "ca-v1"; "v1.10.json"] := jtext_rule "5"]>
  (<[["pki"; "cert.pem"] := "Proot"]> (<[["pki"; "key.pem"] := "Pkey"]> ∅))).

(** A toy signature scheme: the block is the text behind a P, a signature names its
    signer before the data. *)
Definition toy_decode (s : string) : option (string * string) :=
  match s with String "P" rest => Some (rest, ""%string) | _ => None end%char.
Definition toy_encode (der : string) : string := String "P" der.
Definition toy_build (data cert : string) (key : string) (chain : list string) : result string :=
  inl (cert +:+ "|" +:+ data).
Definition toy_verify (der data : string) : result string :=
  if String.eqb der ("root|" +:+ data) then inl "root" else inr "signature".
Definition toy_chain (roots : list string) (c : string) : check := guard (negb (mem_key c roots)) "unknown authority".
Definition toy_aic (cert : string) : result (option AIC) :=
  inl (Some (mkAIC [mkCap "acme/ca-v1" "cert:issue" (quotes_of "{'days':30}")] [])).
Definition toy_fullid (c : Capability) : string := cap_scheme c +:+ ":" +:+ cap_id c.

Definition toy_publish : path → path → list visit → store → fres (PublishManifest * store) := λ rules out,
  PublishRules toy_decode toy_encode Some (λ b, Some (Some b)) Some Some toy_build id (λ _, true) (λ _, true)
    rules out ["pki"; "cert.pem"] ["pki"; "key.pem"] (Some versioned_registry).
Definition toy_load (p : path) (fs1 fs2 fs3 : store) : fres Rule :=
  loadAuthorizedRule toy_decode toy_chain toy_verify toy_aic toy_fullid id p ["root"] (Some versioned_registry) fs1 fs2 fs3.

Definition published_files : store :=
  match toy_publish ["rules"] ["out"] visits rule_files with inl (_, fs) => fs | inr _ => ∅ end.
Definition published_manifest : PublishManifest :=
  match toy_publish ["rules"] ["out"] visits rule_files with inl (m, _) => m | inr _ => mkManifest [] end.

Lemma toy_published : toy_publish ["rules"] ["out"] visits rule_files = inl (published_manifest, published_files).
Proof.
  assert (match toy_publish ["rules"] ["out"] visits rule_files with inl _ => true | inr _ => false end = true) as H
    by (vm_compute; reflexivity).
  unfold published_manifest, published_files. by destruct (toy_publish _ _ _ _) as [[m fs]|].
Qed.

Lemma published_rules_load_witness :
  ∃ vs v, vs ≡ₚ [mkVersion 1 10; mkVersion 1 2] ∧ v ∈ [mkVersion 1 10; mkVersion 1 2] ∧
    (∀ w, w ∈ [mkVersion 1 10; mkVersion 1 2] → Major w = Major v → Minor w <= Minor v) ∧
    mget "acme/ca-v1" (pm_schemes published_manifest) = Some (mkPublish (version_name v) (version_name <$> vs)) ∧
    published_files !! (["out"] ++ FromSlash "acme/ca-v1" ++ ["default.json"]) =
    published_files !! (["out"] ++ FromSlash "acme/ca-v1" ++ [version_name v]) ∧
    ∀ name, name ∈ "default.json" :: (version_name <$> vs) →
    ∃ data rule, published_files !! (["out"] ++ FromSlash "acme/ca-v1" ++ [name]) = Some data ∧
      LoadRuleBytes data = inl rule ∧ Validate_text id rule versioned_registry = None ∧
      loadAuthorizedRule toy_decode toy_chain toy_verify toy_aic toy_fullid id
        (["out"] ++ FromSlash "acme/ca-v1" ++ [name]) ["root"%string] (Some versioned_registry)
        published_files published_files published_files =
      match RuleWithinSignerGrant toy_aic toy_fullid id (Some rule) (Some "root"%string) with
      | Some e => inr (FGrant e)
      | None => inl rule
      end.
Proof.
  refine (published_rules_load toy_decode toy_encode Some (λ b, Some (Some b)) Some Some toy_chain toy_build toy_verify
    toy_aic toy_fullid id (λ _, true) (λ _, true) ["rules"] ["out"] ["pki"; "cert.pem"] ["pki"; "key.pem"] versioned_registry
    visits rule_files published_manifest published_files "root" [] "key" ["root"] _ _ _ _ _ _ _ _ toy_published "acme/ca-v1"
    [mkVersion 1 10; mkVersion 1 2] _); try (vm_compute; reflexivity).
  - intros der. by exists "".
  - intros data der [= <-]. unfold toy_verify. by rewrite String.eqb_refl.
  - done.
  - by intros [k Hk].
  - by intros [k Hk].
Defined.

(** The highest version is the default, by number and not by name. *)
Example default_is_latest :
  toy_load ["out"; "acme"; "ca-v1"; "default.json"] published_files published_files published_files =
  inl (mkRule "r1" "1.0.0" "acme/ca-v1" "cert:issue" (quotes_of "{'days':5}") None [] None).
Proof. vm_compute. reflexivity. Qed.

(** The loader reads a rule twice: a file exchanged after the first read is loaded
    although nobody signed it. *)
Example exchanged_after_verification :
  let p := ["out"; "acme"; "ca-v1"; "default.json"] in
  let exchanged := <[p := jtext_rule "29"]> published_files in
  toy_load p published_files published_files exchanged =
    inl (mkRule "r1" "1.0.0" "acme/ca-v1" "cert:issue" (quotes_of "{'days':29}") None [] None) ∧
  toy_load p exchanged exchanged exchanged = inr (FSignature "signature").
Proof. vm_compute. done. Qed.

(** A version written with a leading zero is collected under its number and then
    looked for under another name. *)
Example leading_zero_not_found :
  toy_publish ["rules"] ["out"] [mkVisit ["acme"; "ca-v1"] "v1.02.json"]
    (<[["rules"; "acme"; "ca-v1"; "v1.02.json"] := jtext_rule "3"]> (delete ["rules"; "acme"; "ca-v1"; "v1.2.json"] rule_files))
  = inr (FRead ["rules"; "acme"; "ca-v1"; "v1.2.json"]).
Proof. vm_compute. reflexivity. Qed.

(** A failed registration keeps the plugins registered before the failure, and the
    schemes it reports are directories: the plugin serves the scheme of its rule. *)
Example registration_keeps_earlier :
  let files := <[["out"; "zeta"; "default.json"] := "{}"]> published_files in
  RegisterRulePluginsFromDir toy_decode toy_chain toy_verify toy_aic toy_fullid id
    (λ pr s, mem_key s pr) (λ pr p, inl (pl_scheme p :: pr)) (Some []) ["out"] ["root"] (Some versioned_registry) files
    [mkVisit ["acme"; "ca-v1"] "default.json"; mkVisit ["zeta"] "default.json"]
  = (["acme/ca-v1"], Some (FRead ["out"; "zeta"; "default.json.p7s"]), Some ["acme/ca-v1"]).
Proof. vm_compute. reflexivity. Qed.
