(* ===== verification/HttpGateway.v ===== *)
(** * The rule gateway over HTTP

    ruleexec/request.go (the facts of a request as the map conditions read) and
    ruleexec/httpgateway.go (authenticate the client, run its rule, generate the
    statement, execute it).

    Routing, the TLS handshake and the database are parameters: a request carries
    the verified chains of its connection and the table of its path, the executor
    of statements is a function.  A [[]string] in an interface is not one of the
    values a rule can hold; how it is represented is the parameter [boxed]. *)

From S2P Require Import Prelude GoStrings GoTime GoFloat Json Canonical Ids Values Bounds.
From S2P Require Import JsonText JsonStruct.
From S2P Require Import SqlGen RuleExec Gateway SchemaDigest Registry RuleRead.
From S2P Require Import RulePublish.

(** ** Request facts (ruleexec/request.go) *)

(** [pki.PluginContext]; a nil map is [None]. *)
Record PluginContext := mkContext {
  pc_client_cn : string;
  pc_agent_id : string;
  pc_target : string;
  pc_roles : list string;
  pc_method : string;
  pc_path : string;
  pc_query : option (gomap (list string));
  pc_headers : option (gomap string)
}.

(** An HTTP request: the table is the path value of the route; the verified chains
    of the connection hold the common names of their certificates, a nil
    certificate is [None]. *)
Record Request := mkRequest {
  rq_method : string;
  rq_path : string;
  rq_table : string;
  rq_query : gomap (list string);
  rq_header : gomap (list string);
  rq_tls : option (list (list (option string)))
}.

(** What is sent back.  Reading the first certificate of an empty chain panics. *)
Inductive reply :=
  | Unauthorized (why : string)
  | RuleFailed (e : exec_error)
  | Forbidden (reason : string)
  | BadGateway (e : error)
  | Rows (rows : option (list (gomap any)))
  | Panicked.
Definition status (rep : reply) : option Z :=
  match rep with
  | Unauthorized _ => Some 401
  | RuleFailed _ | BadGateway _ => Some 502
  | Forbidden _ => Some 403
  | Rows _ => Some 200
  | Panicked => None
  end.

(** What was done on the way: operations of the rule's flow, SQL statements. *)
Record effects := mkEffects { ef_calls : list string; ef_sql : list (string * list any) }.
Definition nothing : effects := mkEffects [] [].

(** [clientCNFromMTLS]. *)
Inductive identity := NoIdentity | Client (cn : string) | IdentityPanic.
Definition clientCNFromMTLS (r : Request) : identity :=
  match rq_tls r with
  | None | Some [] => NoIdentity
  | Some ([] :: _) => IdentityPanic
  | Some ((None :: _) :: _) => NoIdentity
  | Some ((Some cn :: _) :: _) => Client cn
  end.

Definition headerMap (h : gomap (list string)) : gomap string :=
  omap (λ kv, match kv.2 with v :: _ => Some (kv.1, v) | [] => None end) h.

(** The gateway: clients point to plugins, which several clients may share. *)
Record HTTPGateway := mkGateway { gw_plugins : gomap nat; gw_heap : list RulePlugin }.

Section gateway.
Context (boxed : list string → any).
Context (clock : Z → Time)
(handler : string → gomap any → gomap any → (gomap any * gomap any) * result (gomap any)).
(** The executor of statements. *)
Context (exec : string → list any → result (option (list (gomap any)))).
(** The text of a decoding error. *)
Context (json_error : string → string).

Definition query_value (vs : list string) : any := match vs with [v] => AStr v | _ => boxed vs end.

Definition MapHTTPRequest (ctx : PluginContext) : gomap any :=
[("target", AStr (pc_target ctx)); ("client_cn", AStr (pc_client_cn ctx)); ("agent_id", AStr (pc_agent_id ctx));
 ("roles", boxed (pc_roles ctx))]
++ (if String.eqb (pc_method ctx) "" then [] else [("method", AStr (pc_method ctx))])
++ (if String.eqb (pc_path ctx) "" then [] else [("path", AStr (pc_path ctx))])
++ match pc_query ctx with Some q => [("query", AMap (prod_map id query_value <$> q))] | None => [] end
++ match pc_headers ctx with Some h => [("headers", AMap (prod_map id AStr <$> h))] | None => [] end.

(** The context [handleRows] builds. *)
Definition request_context (cn : string) (r : Request) : PluginContext :=
mkContext cn "" "query:SELECT" [] (rq_method r) (rq_path r) (Some (rq_query r)) (Some (headerMap (rq_header r))).

Definition set_budget (b : Budget) (p : RulePlugin) : RulePlugin := mkPlugin (pl_scheme p) (pl_rule p) b.

(** [handleRows]: the reply, what was done, and the gateway with the budget the
  plugin's executor is left with. *)
Definition handleRows (g : HTTPGateway) (r : Request) : reply * effects * HTTPGateway :=
match clientCNFromMTLS r with
| IdentityPanic => (Panicked, nothing, g)
| NoIdentity => (Unauthorized "no verified mTLS client identity", nothing, g)
| Client cn =>
    match loc ← mget cn (gw_plugins g); plugin ← gw_heap g !! loc; Some (loc, plugin) with
    | None => (Unauthorized "unknown client identity", nothing, g)
    | Some (loc, plugin) =>
        let rule := pl_rule plugin in
        let '(res, b, calls) :=
          Execute clock handler rule (MapHTTPRequest (request_context cn r)) (pl_budget plugin) in
        let g' := mkGateway (gw_plugins g) (<[loc := set_budget b plugin]> (gw_heap g)) in
        match res with
        | inr e => (RuleFailed e, mkEffects calls [], g')
        | inl (PluginDeny reason) => (Forbidden reason, mkEffects calls [], g')
        | inl (PluginAllow _ _) =>
            if negb (mem_key (rq_table r) (ruleTables (ru_params rule))) then
              (Forbidden ("table " +:+ Quote (rq_table r) +:+ " not in rule"), mkEffects calls [], g')
            else
              match GenerateSelectSQL_raw json_error (ru_params rule) with
              | inr e => (BadGateway e, mkEffects calls [], g')
              | inl (sql, args) =>
                  (match exec sql args with inr e => BadGateway e | inl rows => Rows rows end,
                   mkEffects calls [(sql, args)], g')
              end
        end
    end
end.

(** A sequence of requests. *)
Fixpoint serve_http (g : HTTPGateway) (rs : list Request) : list (reply * effects) * HTTPGateway :=
match rs with
| [] => ([], g)
| r :: rs' =>
    let '(rep, eff, g1) := handleRows g r in
    let '(outs, g2) := serve_http g1 rs' in
    ((rep, eff) :: outs, g2)
end.

(** The rules of a gateway do not change. *)
Definition rule_at (g : HTTPGateway) (cn : string) : option Rule :=
loc ← mget cn (gw_plugins g); plugin ← gw_heap g !! loc; Some (pl_rule plugin).

Lemma handleRows_rules g r cn : rule_at (handleRows g r).2 cn = rule_at g cn.
Proof.
unfold handleRows. destruct (clientCNFromMTLS r) as [|c|]; [done| |done].
destruct (mget c (gw_plugins g)) as [loc|] eqn:Em; [|done]. simpl.
destruct (gw_heap g !! loc) as [plugin|] eqn:El; [|done]. simpl.
destruct (Execute _ _ _ _ _) as [[res b] calls].
assert (rule_at (mkGateway (gw_plugins g) (<[loc := set_budget b plugin]> (gw_heap g))) cn = rule_at g cn) as H.
{ unfold rule_at. simpl. destruct (mget cn (gw_plugins g)) as [loc'|]; [|done]. simpl.
  destruct (decide (loc' = loc)) as [->|]; [|by rewrite list_lookup_insert_ne].
  by rewrite list_lookup_insert_eq, El by (eapply lookup_lt_Some; done). }
destruct res as [[|]|]; [done| |done]. destruct (negb _); [done|].
destruct (GenerateSelectSQL_raw _ _) as [[sql args]|]; done.
Qed.

Lemma GenerateSelectSQL_inl p sql args :
GenerateSelectSQL p = inl (sql, args) →
∃ tbl cols tail, p_tables p = [tbl] ∧ sql = "SELECT " +:+ cols +:+ " FROM " +:+ quoteIdent tbl +:+ tail.
Proof.
unfold GenerateSelectSQL. destruct (p_tables p) as [|tbl [|]]; [done| |done].
destruct (sqlColumnList _ _) as [cols|]; [|done]. simpl.
destruct (match mget tbl _ with Some _ => _ | None => _ end) as [wa|]; [|done]. simpl.
intros [= <- <-]. by eexists tbl, cols, _.
Qed.

Lemma GenerateSelectSQL_raw_inl raw sql args :
GenerateSelectSQL_raw json_error raw = inl (sql, args) →
∃ p, read_select_params raw = Some p ∧ GenerateSelectSQL p = inl (sql, args).
Proof. unfold GenerateSelectSQL_raw. destruct (read_select_params raw); naive_solver. Qed.

(** One request. *)
Lemma handleRows_sql g r rep eff g' sql args :
handleRows g r = (rep, eff, g') → (sql, args) ∈ ef_sql eff →
∃ cn rule b tail cols, clientCNFromMTLS r = Client cn ∧ rule_at g cn = Some rule ∧
  (∃ why steps b' calls, Execute clock handler rule (MapHTTPRequest (request_context cn r)) b
     = (inl (PluginAllow why steps), b', calls)) ∧
  ruleTables (ru_params rule) = [rq_table r] ∧
  GenerateSelectSQL_raw json_error (ru_params rule) = inl (sql, args) ∧ ef_sql eff = [(sql, args)] ∧
  sql = "SELECT " +:+ cols +:+ " FROM " +:+ quoteIdent (rq_table r) +:+ tail.
Proof.
unfold handleRows, rule_at. destruct (clientCNFromMTLS r) as [|cn|] eqn:Ec; [by intros [= <- <- <-] ?%elem_of_nil| |
  by intros [= <- <- <-] ?%elem_of_nil].
destruct (mget cn (gw_plugins g)) as [loc|] eqn:Em; [|by intros [= <- <- <-] ?%elem_of_nil]. simpl.
destruct (gw_heap g !! loc) as [plugin|] eqn:El; [|by intros [= <- <- <-] ?%elem_of_nil]. simpl.
destruct (Execute _ _ _ _ _) as [[res b] calls] eqn:Ex.
destruct res as [[|why steps]|]; [by intros [= <- <- <-] ?%elem_of_nil| |by intros [= <- <- <-] ?%elem_of_nil].
destruct (mem_key (rq_table r) _) eqn:Et; [|by intros [= <- <- <-] ?%elem_of_nil]. cbn [negb].
destruct (GenerateSelectSQL_raw _ _) as [[sql' args']|] eqn:Eg; [|by intros [= <- <- <-] ?%elem_of_nil].
intros [= <- <- <-] [= -> ->]%list_elem_of_singleton.
apply GenerateSelectSQL_raw_inl in Eg as Eg'. destruct Eg' as (p & Hp & Hg).
apply GenerateSelectSQL_inl in Hg as (tbl & cols & tail & Ht & Hs). rewrite (ruleTables_read _ _ Hp), Ht in *.
assert (rq_table r = tbl) as <- by (apply mem_key_true in Et; set_solver).
exists cn, (pl_rule plugin), (pl_budget plugin), tail, cols.
split_and!; [done|by rewrite Em; simpl; rewrite El|by eauto 8|by rewrite (ruleTables_read _ _ Hp), Ht|done..].
Qed.

(** C28: the gateway executes a statement only for a verified client whose rule
  allowed this request, at most one per request, and only on the table the request
  names.  Over any sequence of requests, a statement executed for a request is the
  one generated from the rule of the client that the verified certificate of that
  request's own connection names; that rule's only table is the requested one and
  the statement selects from it. *)
Theorem gateway_executes_allowed rs : ∀ g outs g' i rep eff sql args,
serve_http g rs = (outs, g') → outs !! i = Some (rep, eff) → (sql, args) ∈ ef_sql eff →
∃ r cn rule b tail cols, rs !! i = Some r ∧ clientCNFromMTLS r = Client cn ∧ rule_at g cn = Some rule ∧
  (∃ why steps b' calls, Execute clock handler rule (MapHTTPRequest (request_context cn r)) b
     = (inl (PluginAllow why steps), b', calls)) ∧
  ruleTables (ru_params rule) = [rq_table r] ∧
  GenerateSelectSQL_raw json_error (ru_params rule) = inl (sql, args) ∧ ef_sql eff = [(sql, args)] ∧
  sql = "SELECT " +:+ cols +:+ " FROM " +:+ quoteIdent (rq_table r) +:+ tail.
Proof.
induction rs as [|r rs IH]; intros g outs g' i rep eff sql args; cbn [serve_http]; [by intros [= <- <-]|].
destruct (handleRows g r) as [[rep1 eff1] g1] eqn:Eh. destruct (serve_http g1 rs) as [outs2 g2] eqn:Es.
intros [= <- <-]. destruct i as [|i]; simpl.
- intros [= <- <-] Hin. destruct (handleRows_sql _ _ _ _ _ _ _ Eh Hin) as (cn & rule & b & tail & cols & H).
  by exists r, cn, rule, b, tail, cols.
- intros Hi Hin. destruct (IH _ _ _ _ _ _ _ _ Es Hi Hin) as (r' & cn & rule & b & tail & cols & H1 & H2 & H3 & H).
  exists r', cn, rule, b, tail, cols. split_and!; [done..| |apply H|apply H|apply H|apply H|apply H].
  rewrite <- H3. pose proof (handleRows_rules g r cn) as Hr. by rewrite Eh in Hr.
Qed.
End gateway.

(** ** A gateway *)

(** A value of a Go type no rule holds. *)
Definition opaque (vs : list string) : any := AInt KUint (Z.of_nat (length vs)).
Definition no_ops (op : string) (vars req : gomap any) : (gomap any * gomap any) * result (gomap any) :=
  ((vars, req), inr "no operations").
Definition two_rows (sql : string) (args : list any) : result (option (list (gomap any))) :=
  inl (Some [[("id", jnum "1")]; [("id", jnum "2")]]).
Definition sample_gateway : HTTPGateway :=
  mkGateway [("alice", 0%nat)] [NewRulePlugin "std/database-v1" sample_text_rule NewBudget].
Definition get_rows (tls : option (list (list (option string)))) (meth table : string) : Request :=
  mkRequest meth ("/api/tables/" +:+ table +:+ "/rows") table [] [("X-Client-Cn", ["alice"])] tls.
Definition as_alice : option (list (list (option string))) := Some [[Some "alice"%string]].
Definition users_sql : string := "SELECT `id`, `name` FROM `users` LIMIT 20".

Definition sample_requests : list Request :=
  [get_rows as_alice "GET" "users"; get_rows None "GET" "users"; get_rows as_alice "DELETE" "users";
   get_rows as_alice "GET" "secrets"].
Definition sample_answers : list (reply * effects) :=
  (serve_http opaque (λ _, 0) no_ops two_rows id sample_gateway sample_requests).1.

(** The header that names a client does not authenticate it. *)
Example gateway_answers :
  (λ out, (status out.1, ef_sql out.2)) <$> sample_answers =
  [(Some 200, [(users_sql, [])]); (Some 401, []); (Some 403, []); (Some 403, [])].
Proof. vm_compute. reflexivity. Qed.

Lemma gateway_executes_allowed_witness :
  ∃ r cn rule b tail cols, sample_requests !! 0%nat = Some r ∧ clientCNFromMTLS r = Client cn ∧
    rule_at sample_gateway cn = Some rule ∧
    (∃ why steps b' calls, Execute (λ _, 0) no_ops rule (MapHTTPRequest opaque (request_context cn r)) b
       = (inl (PluginAllow why steps), b', calls)) ∧
    ruleTables (ru_params rule) = [rq_table r] ∧
    GenerateSelectSQL_raw id (ru_params rule) = inl (users_sql, []) ∧ [(users_sql, [])] = [(users_sql, @nil any)] ∧
    users_sql = "SELECT " +:+ cols +:+ " FROM " +:+ quoteIdent (rq_table r) +:+ tail.
Proof.
  refine (gateway_executes_allowed opaque (λ _, 0) no_ops two_rows id sample_requests sample_gateway sample_answers
    (serve_http opaque (λ _, 0) no_ops two_rows id sample_gateway sample_requests).2 0%nat
    (Rows (Some [[("id", jnum "1")]; [("id", jnum "2")]])) (mkEffects [] [(users_sql, [])]) users_sql [] _ _ _).
  - apply surjective_pairing.
  - vm_compute. reflexivity.
  - apply list_elem_of_singleton. reflexivity.
Defined.

(** A query parameter given twice is no string: it differs from every value a rule
    can name, so a condition that excludes a value lets it pass. *)
Definition not_admin : Rule :=
  mkRule "r2" "1.0.0" "std/database-v1" "query:SELECT" rule_text_params
    (Some (mkCond "neq" "request.query.mode" (AStr "admin") [] [])) [] None.
Definition with_mode (vs : list string) : Request :=
  mkRequest "GET" "/api/tables/users/rows" "users" [("mode", vs)] [] as_alice.
Example repeated_parameter_passes :
  (λ vs, status (handleRows opaque (λ _, 0) no_ops two_rows id
     (mkGateway [("alice", 0%nat)] [NewRulePlugin "std/database-v1" not_admin NewBudget]) (with_mode vs)).1.1)
  <$> [["admin"]; ["admin"; "admin"]; ["guest"]] = [Some 403; Some 200; Some 200].
Proof. vm_compute. reflexivity. Qed.
