(* ===== verification/Ocmp.v ===== *)
(** * Offline capability manifests (ocmp/ocmp.go)

    The rules R2 to R7 around a grant decision, in their fixed order.  The inputs
    are [int64]s that are only compared. *)

From S2P Require Import Prelude.

Record Status := mkStatus {
  st_present : bool;
  st_verified : bool;
  st_as_of : Z;
  st_valid_until : Z;
  st_version : Z;
  st_last_accepted : Z
}.

Record Inputs := mkInputs {
  in_grant_covers : bool;
  in_trust_anchor : bool;
  in_local_policy : bool;
  in_status : Status;
  in_credential_expired : bool;
  in_revoked : bool;
  in_replay_enabled : bool;
  in_counter : Z;
  in_last_consumed : Z;
  in_required_fact : bool;
  in_fact_available : bool;
  in_trusted_time : Z;
  in_clock_offset : Z;
  in_clock_tolerance : Z
}.

Record Result := mkResult { Verdict : string; Reason : string }.
Definition deny (reason : string) : Result := mkResult "deny" reason.
Definition allow : Result := mkResult "allow" "".

Definition Evaluate (i : Inputs) : Result :=
  let st := in_status i in
  if negb (in_grant_covers i) then deny "capability_not_authorized"
  else if negb (in_trust_anchor i) then deny "trust_anchor_missing"
  else if negb (in_local_policy i) then deny "local_policy_missing"
  else if negb (st_present st) || negb (st_verified st) then deny "status_snapshot_missing"
  else if (in_trusted_time i <? st_as_of st) || (st_valid_until st <? in_trusted_time i) then
    deny "status_snapshot_expired"
  else if st_version st <? st_last_accepted st then deny "status_snapshot_rollback"
  else if in_revoked i then deny "revoked"
  else if in_credential_expired i then deny "capability_not_authorized"
  else if in_replay_enabled i && (in_counter i =? in_last_consumed i) then deny "replay_detected"
  else if in_replay_enabled i && (in_counter i <? in_last_consumed i) then deny "replay_state_invalid"
  else if in_required_fact i && negb (in_fact_available i) then deny "fact_unavailable"
  else if in_clock_tolerance i <? in_clock_offset i then deny "clock_unsynchronized"
  else allow.

(** The profile, rule by rule. *)
Record permitted (i : Inputs) : Prop := mkPermitted {
  pm_inputs : in_grant_covers i = true ∧ in_trust_anchor i = true ∧ in_local_policy i = true ∧
              st_present (in_status i) = true ∧ st_verified (in_status i) = true;
  pm_window : st_as_of (in_status i) <= in_trusted_time i <= st_valid_until (in_status i);
  pm_version : st_last_accepted (in_status i) <= st_version (in_status i);
  pm_life : in_revoked i = false ∧ in_credential_expired i = false;
  pm_replay : in_replay_enabled i = true → in_last_consumed i < in_counter i;
  pm_fact : in_required_fact i = true → in_fact_available i = true;
  pm_clock : in_clock_offset i <= in_clock_tolerance i
}.

Lemma deny_else (b : bool) reason r : (if b then deny reason else r) = allow ↔ b = false ∧ r = allow.
Proof. destruct b; naive_solver. Qed.

(** The evaluation allows exactly what every rule of the profile permits. *)
Lemma Evaluate_allow_iff i : Evaluate i = allow ↔ permitted i.
Proof.
  unfold Evaluate. rewrite !deny_else, !orb_false_iff, !negb_false_iff, !Z.ltb_ge. split.
  - intros (? & ? & ? & ? & ? & ? & ? & ? & Hr1 & Hr2 & Hf & ? & _).
    split; [done|lia|lia|done| | |lia].
    + intros Hr. rewrite Hr in Hr1, Hr2. simpl in *. lia.
    + intros Hr. rewrite Hr in Hf. by destruct (in_fact_available i).
  - intros [(? & ? & ? & ? & ?) ? ? [? ?] Hr Hf ?]. split_and!; try done; try lia.
    + destruct (in_replay_enabled i); [|done]. specialize (Hr eq_refl). simpl. lia.
    + destruct (in_replay_enabled i); [|done]. specialize (Hr eq_refl). simpl. lia.
    + destruct (in_required_fact i); [|done]. by rewrite Hf.
Qed.

(** Every other answer is a denial with a reason. *)
Lemma Evaluate_denies i : Evaluate i = allow ∨ ∃ reason, reason ≠ ""%string ∧ Evaluate i = deny reason.
Proof.
  unfold Evaluate. repeat (match goal with |- context [if ?b then _ else _] => destruct b end;
    [right; eexists; split; [|reflexivity]; done|]). by left.
Qed.

(** ** Counters

    A holder that keeps the last consumed counter and replaces it with the counter
    of every allowed request. *)

Definition with_last (last : Z) (i : Inputs) : Inputs :=
  mkInputs (in_grant_covers i) (in_trust_anchor i) (in_local_policy i) (in_status i) (in_credential_expired i)
    (in_revoked i) (in_replay_enabled i) (in_counter i) last (in_required_fact i) (in_fact_available i)
    (in_trusted_time i) (in_clock_offset i) (in_clock_tolerance i).

(** The counters consumed, in their order. *)
Fixpoint consumed_counters (last : Z) (requests : list Inputs) : list Z :=
  match requests with
  | [] => []
  | i :: rest =>
      if String.eqb (Verdict (Evaluate (with_last last i))) "allow"
      then in_counter i :: consumed_counters (in_counter i) rest
      else consumed_counters last rest
  end.

Lemma Verdict_allow i : String.eqb (Verdict (Evaluate i)) "allow" = true ↔ permitted i.
Proof.
  rewrite <- Evaluate_allow_iff. destruct (Evaluate_denies i) as [->|(reason & _ & ->)]; [done|].
  split; [done|]. by intros [=].
Qed.

(** With replay protection every counter is consumed once: the consumed counters
    only grow, from the first one kept. *)
Lemma counters_increase requests : ∀ last,
  (∀ i, i ∈ requests → in_replay_enabled i = true) →
  StronglySorted Z.lt (last :: consumed_counters last requests).
Proof.
  induction requests as [|i requests IH]; intros last Hr; cbn [consumed_counters]; [repeat constructor|].
  destruct (String.eqb _ _) eqn:E; [|apply IH; set_solver].
  apply Verdict_allow in E as [_ _ _ _ H _ _]. simpl in H. specialize (H (Hr i ltac:(set_solver))).
  assert (StronglySorted Z.lt (in_counter i :: consumed_counters (in_counter i) requests)) as Hs by (apply IH; set_solver).
  constructor; [done|]. constructor; [done|]. apply StronglySorted_inv in Hs as [_ Hf].
  eapply list.Forall_impl; [done|]. intros z Hz. simpl in Hz. lia.
Qed.

Definition sample_inputs (counter : Z) : Inputs :=
  mkInputs true true true (mkStatus true true 100 200 4 4) false false true counter 0 false false 150 2 5.

(** A replayed and a stale counter are refused. *)
Example counters_sample : consumed_counters 0 (sample_inputs <$> [1; 1; 3; 2; 4]) = [1; 3; 4].
Proof. vm_compute. reflexivity. Qed.
Example reasons_sample :
  Reason ∘ Evaluate ∘ with_last 3 ∘ sample_inputs <$> [2; 3; 4] = ["replay_state_invalid"; "replay_detected"; ""]%string.
Proof. vm_compute. reflexivity. Qed.
