(* ===== verification/RawParams.v ===== *)
(** * Parameters as JSON text

    The input boundary of semantics.go: [ValidateRawParams] walks the text of a
    parameters object with the token reader, writes its canonical form to measure
    it, and looks for repeated members and unusable numbers; canonical.go refuses
    lone surrogate escapes before anything is decoded.  [walk] has the recursion of
    [read_value]: the token reader accepts the JSON grammar. *)

From S2P Require Import Prelude GoStrings GoFloat Regex Json JsonText JsonStruct Ids Values.
From S2P Require Import Constraints Grants Authorize.

(** ** Lone surrogates (canonical.go) *)

(** The loop of [scanRawUnicodeEscapes]; [None] is the nil error.  A malformed
    escape ends the scan: the decoder reports it. *)
Fixpoint scan_escapes (fuel : nat) (inString : bool) (s : string) : check :=
  match fuel, s with
  | S fuel', String c s' =>
      if negb inString then scan_escapes fuel' (code c =? 34) s'
      else if code c =? 34 then scan_escapes fuel' false s'
      else if code c =? 92 then
        match s' with
        | EmptyString => None
        | String "u" t =>
            match hex4 t with
            | None => None
            | Some (hi, rest) =>
                if is_low hi then Some "canonical_lone_surrogate: lone low surrogate escape"%string
                else if is_high hi then
                  match rest with
                  | String "\" (String "u" t') =>
                      if (String.length t' <? 4)%nat then
                        Some "canonical_lone_surrogate: high surrogate escape without a low surrogate"%string
                      else match hex4 t' with
                      | Some (lo, rest') =>
                          if is_low lo then scan_escapes fuel' true rest'
                          else Some "canonical_lone_surrogate: high surrogate escape not followed by a low surrogate"%string
                      | None => Some "canonical_lone_surrogate: high surrogate escape not followed by a low surrogate"%string
                      end
                  | _ => Some "canonical_lone_surrogate: high surrogate escape without a low surrogate"%string
                  end
                else scan_escapes fuel' true rest
            end
        | String _ t => scan_escapes fuel' true t
        end%char
      else scan_escapes fuel' true s'
  | _, _ => None
  end.
Definition scanRawUnicodeEscapes (raw : string) : check := scan_escapes (String.length raw) false raw.

(** ** Numbers *)

Definition significantDigits (lit : string) : nat :=
  let s := match IndexFunc (λ c, Ascii.eqb c "e" || Ascii.eqb c "E") lit with Some i => stake i lit | None => lit end in
  let s := TrimPrefix s "-" in
  let s := match IndexByte "." s with Some i => stake i s +:+ sdrop (S i) s | None => s end in
  String.length (TrimRight "0" (TrimLeft "0" s)).

Definition checkParamsNumber (lit : string) : check :=
  guard (negb (matches numericLiteralRE lit)) ErrInvalidParamsNumber ;;?
  match ParseFloat lit with
  | None => Some ErrInvalidParamsNumber
  | Some f => guard (negb (isFinite f)) ErrInvalidParamsNumber
  end ;;?
  guard (exceedsIJSONIntegerBound lit) ErrInvalidParamsNumber ;;?
  guard (17 <? significantDigits lit)%nat ErrInvalidParamsNumber.

(** The canonical spelling of a number token, the received one where it has no
    canonical form. *)
Definition number_text (lit : string) : string :=
  match ParseFloat lit with
  | Some f => if isFinite f then formatCanonicalFloat f else lit
  | None => lit
  end.

(** ** The walk *)

(** The first repeated member and the first unusable number so far. *)
Record marks := mkMarks { mk_dup : option error; mk_num : option error }.

Definition mark_dup (key : string) (seen : list string) (ms : marks) : marks :=
  match mk_dup ms with
  | None => if existsb (String.eqb key) seen
            then mkMarks (Some (wrap ErrInvalidParamsDupKey (Quote key))) (mk_num ms) else ms
  | Some _ => ms
  end.
Definition mark_num (lit : string) (ms : marks) : marks :=
  match mk_num ms, checkParamsNumber lit with
  | None, Some _ => mkMarks (mk_dup ms) (Some (wrap ErrInvalidParamsNumber lit))
  | _, _ => ms
  end.

(** What a walk ends in: the size error, another error, or the text written, the
    marks and the rest of the input. *)
Inductive walked :=
  | WSize
  | WBad
  | WOk (buf : string) (ms : marks) (rest : string).

Definition wbind (w : walked) (k : string → marks → string → walked) : walked :=
  match w with WOk buf ms rest => k buf ms rest | _ => w end.

Definition walk_scalar (s : string) (ms : marks) : walked :=
  match read_literal s with
  | Some (JNull, rest) => WOk "null" ms rest
  | Some (JBool b, rest) => WOk (if b then "true" else "false") ms rest
  | Some (JNum lit, rest) => WOk (number_text lit) (mark_num lit ms) rest
  | _ => WBad
  end.

Fixpoint walk (fuel : nat) (depth : Z) (s : string) (ms : marks) {struct fuel} : walked :=
  match fuel with
  | O => WBad
  | S fuel' =>
      match skip_ws s with
      | String c s' =>
          if code c =? 34 then
            match read_string (String.length s') s' with
            | Some (v, rest) => WOk (writeCanonicalString v) ms rest
            | None => WBad
            end
          else if code c =? 91 then
            if maxParamsNesting <? depth then WSize
            else match skip_ws s' with
                 | String "]" t => WOk "[]" ms t
                 | _ => wbind (walk_elems fuel' (depth + 1) s' ms) (λ buf ms rest, WOk ("[" +:+ buf +:+ "]") ms rest)
                 end%char
          else if code c =? 123 then
            if maxParamsNesting <? depth then WSize
            else match skip_ws s' with
                 | String "}" t => WOk "{}" ms t
                 | _ => wbind (walk_members fuel' (depth + 1) s' [] ms) (λ buf ms rest, WOk ("{" +:+ buf +:+ "}") ms rest)
                 end%char
          else walk_scalar (String c s') ms
      | EmptyString => WBad
      end
  end
with walk_elems (fuel : nat) (depth : Z) (s : string) (ms : marks) {struct fuel} : walked :=
  match fuel with
  | O => WBad
  | S fuel' =>
      wbind (walk fuel' depth s ms) (λ buf ms rest,
        match skip_ws rest with
        | String "," t => wbind (walk_elems fuel' depth t ms) (λ buf' ms rest, WOk (buf +:+ "," +:+ buf') ms rest)
        | String "]" t => WOk buf ms t
        | _ => WBad
        end%char)
  end
with walk_members (fuel : nat) (depth : Z) (s : string) (seen : list string) (ms : marks) {struct fuel} : walked :=
  match fuel with
  | O => WBad
  | S fuel' =>
      match skip_ws s with
      | String q s' =>
          if code q =? 34 then
            match read_string (String.length s') s' with
            | None => WBad
            | Some (key, rest) =>
                match skip_ws rest with
                | String ":" t =>
                    wbind (walk fuel' depth t (mark_dup key seen ms)) (λ buf ms rest,
                      let buf := writeCanonicalString key +:+ ":" +:+ buf in
                      match skip_ws rest with
                      | String "," t =>
                          wbind (walk_members fuel' depth t (key :: seen) ms) (λ buf' ms rest,
                            WOk (buf +:+ "," +:+ buf') ms rest)
                      | String "}" t => WOk buf ms t
                      | _ => WBad
                      end%char)
                | _ => WBad
                end%char
            end
          else WBad
      | EmptyString => WBad
      end
  end.

Definition ValidateRawParams (raw : string) : check :=
  match scanRawUnicodeEscapes raw with
  | Some e => Some (wrap ErrInvalidParamsNumber e)
  | None =>
      if negb (ValidString raw) then Some (wrap ErrInvalidParamsNumber "invalid UTF-8 bytes in raw text")
      else
        let trimmed := TrimSpace raw in
        if String.eqb trimmed "" || negb (HasPrefix trimmed "{") then Some ErrInvalidParamsNumber
        else match walk (S (2 * String.length trimmed)) 1 trimmed (mkMarks None None) with
        | WSize => Some ErrInvalidParamsSize
        | WBad => Some ErrInvalidParamsNumber
        | WOk buf ms rest =>
            guard (negb (String.eqb (skip_ws rest) "")) ErrInvalidParamsNumber ;;?
            guard (maxParamsSerializedBytes <? Z.of_nat (String.length buf)) ErrInvalidParamsSize ;;?
            mk_dup ms ;;? mk_num ms
        end
  end.

(** [AuthorizeJSONText]. *)
Definition AuthorizeJSONText (grants : list Grant) (opID rawParams : string) : Decision :=
  if String.eqb rawParams "" then AuthorizeSet grants (mkOp opID None)
  else match ValidateRawParams rawParams with
  | Some e => deny e
  | None =>
      match unmarshal_object rawParams with
      | None => deny ErrInvalidParamsNumber
      | Some params => AuthorizeSet grants (mkOp opID params)
      end
  end.
