(* ===== verification/RawParamsProofs.v ===== *)
(** * What the text check of the parameters establishes

    An accepted text denotes an object in which no object repeats a member and
    every number is usable, and whose decoded form passes the checks of the decoded
    path: the two paths measure the same canonical form. *)

From Stdlib Require Import Floats.SpecFloat.
From S2P Require Import Prelude GoStrings GoFloat Regex Json JsonText JsonStruct Utf.
From S2P Require Import CanonicalText.
From S2P Require Import Ids Values Constraints Grants Authorize RawParams.

(** ** Strings read from text are valid UTF-8 *)

Lemma ValidString_rune s r n :
  decode_rune s = Some (r, n) → ValidString s = ValidString (sdrop n s).
Proof. destruct s as [|c s]; [done|]. intros H. unfold ValidString at 1. rewrite runes_cons, H. done. Qed.

(** Bytes of a known value. *)
Lemma code_chr z : 0 <= z < 256 → code (chr z) = z.
Proof. intros H. unfold code, chr. rewrite N_ascii_embedding; lia. Qed.

Lemma in_range_chr lo hi z : 0 <= z < 256 → lo <= z <= hi → in_range lo hi (chr z) = true.
Proof. intros Hz H. unfold in_range. rewrite code_chr by done. lia. Qed.

Lemma cont_chr lo hi z : 0 <= z < 256 → lo <= z <= hi → cont lo hi (chr z) = Some (z mod 64).
Proof. intros Hz H. unfold cont. rewrite in_range_chr, code_chr, land_ones6 by done. done. Qed.

Lemma mod64_128 y : 0 <= y < 64 → (128 + y) mod 64 = y.
Proof. intros H. Z.to_euclidean_division_equations. lia. Qed.

Lemma decode_one r t : 0 <= r < 128 → decode_rune (encode_rune r +:+ t) = Some (r, 1%nat).
Proof.
  intros Hr. unfold encode_rune. cbv zeta. rewrite (proj2 (Z.ltb_lt r 128)) by lia. rewrite append_cons.
  cbn [decode_rune]. rewrite code_chr by lia. by rewrite (proj2 (Z.ltb_lt r 128)) by lia.
Qed.

Lemma decode_two r t : 128 <= r < 2048 → decode_rune (encode_rune r +:+ t) = Some (r, 2%nat).
Proof.
  intros Hr. unfold encode_rune. cbv zeta. rewrite (proj2 (Z.ltb_ge r 128)), (proj2 (Z.ltb_lt r 2048)) by lia.
  rewrite Z.shiftr_div_pow2, land_ones6, !append_cons by lia. change (2 ^ 6) with 64.
  assert (∃ q y, r / 64 = q ∧ r mod 64 = y ∧ r = 64 * q + y ∧ 2 <= q < 32 ∧ 0 <= y < 64)
    as (q & y & -> & -> & -> & Hq & Hy).
  { exists (r / 64), (r mod 64). Z.to_euclidean_division_equations. lia. }
  cbn [decode_rune]. rewrite code_chr by lia.
  rewrite (proj2 (Z.ltb_ge _ 128)), (proj2 (Z.ltb_ge _ 194)), (proj2 (Z.leb_le _ 223)) by lia.
  cbn [b2]. rewrite cont_chr by lia. cbn [mbind option_bind]. rewrite mod64_128, land_ones5, lor_shift6 by done.
  replace ((192 + q) mod 32) with q by (Z.to_euclidean_division_equations; lia). done.
Qed.

Lemma decode_three r t :
  2048 <= r < 65536 → scalar r → decode_rune (encode_rune r +:+ t) = Some (r, 3%nat).
Proof.
  intros Hr Hs. unfold encode_rune. cbv zeta.
  rewrite (proj2 (Z.ltb_ge r 128)), (proj2 (Z.ltb_ge r 2048)), (proj2 (Z.ltb_lt r 65536)) by lia.
  rewrite !Z.shiftr_div_pow2, !land_ones6, !append_cons by lia. change (2 ^ 6) with 64. change (2 ^ 12) with 4096.
  assert (∃ q x y, r / 4096 = q ∧ (r / 64) mod 64 = x ∧ r mod 64 = y ∧ r = 4096 * q + 64 * x + y ∧
    0 <= q < 16 ∧ 0 <= x < 64 ∧ 0 <= y < 64) as (q & x & y & -> & -> & -> & -> & Hq & Hx & Hy).
  { exists (r / 4096), ((r / 64) mod 64), (r mod 64). Z.to_euclidean_division_equations. lia. }
  cbn [decode_rune]. rewrite code_chr by lia.
  rewrite (proj2 (Z.ltb_ge _ 128)), (proj2 (Z.ltb_ge _ 194)), (proj2 (Z.leb_gt _ 223)) by lia.
  assert (∀ lo hi, lo <= 128 + x <= hi →
    b3 lo hi (Z.land (224 + q) 15) (String (chr (128 + x)) (String (chr (128 + y)) ("" +:+ t))) =
    Some (4096 * q + 64 * x + y, 3%nat)) as Hb.
  { intros lo hi Hlo. cbn [b3]. rewrite !cont_chr by lia. cbn [mbind option_bind].
    rewrite !mod64_128, land_ones4, !lor_shift6 by done.
    replace ((224 + q) mod 16) with q by (Z.to_euclidean_division_equations; lia). f_equal. f_equal. lia. }
  destruct Hs. 
  - destruct (Z.eqb_spec (224 + q) 224); [apply Hb; lia|]. destruct (Z.eqb_spec (224 + q) 237); [apply Hb; lia|].
    rewrite (proj2 (Z.leb_le _ 239)) by lia. apply Hb; lia.
  - destruct (Z.eqb_spec (224 + q) 224); [lia|]. destruct (Z.eqb_spec (224 + q) 237); [lia|].
    rewrite (proj2 (Z.leb_le _ 239)) by lia. apply Hb; lia.
Qed.

Lemma decode_four r t : 65536 <= r < 1114112 → decode_rune (encode_rune r +:+ t) = Some (r, 4%nat).
Proof.
  intros Hr. unfold encode_rune. cbv zeta.
  rewrite (proj2 (Z.ltb_ge r 128)), (proj2 (Z.ltb_ge r 2048)), (proj2 (Z.ltb_ge r 65536)) by lia.
  rewrite !Z.shiftr_div_pow2, !land_ones6, !append_cons by lia.
  change (2 ^ 6) with 64. change (2 ^ 12) with 4096. change (2 ^ 18) with 262144.
  assert (∃ q w x y, r / 262144 = q ∧ (r / 4096) mod 64 = w ∧ (r / 64) mod 64 = x ∧ r mod 64 = y ∧
    r = 262144 * q + 4096 * w + 64 * x + y ∧ 0 <= q < 5 ∧ 0 <= w < 64 ∧ 0 <= x < 64 ∧ 0 <= y < 64)
    as (q & w & x & y & -> & -> & -> & -> & -> & Hq & Hw & Hx & Hy).
  { exists (r / 262144), ((r / 4096) mod 64), ((r / 64) mod 64), (r mod 64). Z.to_euclidean_division_equations. lia. }
  cbn [decode_rune]. rewrite code_chr by lia.
  rewrite (proj2 (Z.ltb_ge _ 128)), (proj2 (Z.ltb_ge _ 194)), (proj2 (Z.leb_gt _ 223)),
    (proj2 (Z.eqb_neq _ 224)), (proj2 (Z.eqb_neq _ 237)), (proj2 (Z.leb_gt _ 239)) by lia.
  assert (∀ lo hi, lo <= 128 + w <= hi →
    b4 lo hi (Z.land (240 + q) 7) (String (chr (128 + w)) (String (chr (128 + x)) (String (chr (128 + y)) ("" +:+ t)))) =
    Some (262144 * q + 4096 * w + 64 * x + y, 4%nat)) as Hb.
  { intros lo hi Hlo. cbn [b4]. rewrite !cont_chr by lia. cbn [mbind option_bind].
    rewrite !mod64_128, land_ones3, !lor_shift6 by done.
    replace ((240 + q) mod 8) with q by (Z.to_euclidean_division_equations; lia). f_equal. f_equal. lia. }
  destruct (Z.eqb_spec (240 + q) 240); [apply Hb; lia|].
  destruct (Z.leb_spec (240 + q) 243); [apply Hb; lia|].
  rewrite (proj2 (Z.eqb_eq _ 244)) by lia. apply Hb; lia.
Qed.

(** A scalar value in front of a valid string. *)
Lemma valid_encode r t : scalar r → ValidString t = true → ValidString (encode_rune r +:+ t) = true.
Proof.
  intros Hr Ht.
  assert (decode_rune (encode_rune r +:+ t) = Some (r, String.length (encode_rune r))) as H.
  { assert (0 <= r < 128 ∨ 128 <= r < 2048 ∨ 2048 <= r < 65536 ∨ 65536 <= r < 1114112) as [H|[H|[H|H]]]
      by (destruct Hr; lia).
    - rewrite decode_one by done. unfold encode_rune. by rewrite (proj2 (Z.ltb_lt r 128)) by lia.
    - rewrite decode_two by done. unfold encode_rune.
      by rewrite (proj2 (Z.ltb_ge r 128)), (proj2 (Z.ltb_lt r 2048)) by lia.
    - rewrite decode_three by done. unfold encode_rune.
      by rewrite (proj2 (Z.ltb_ge r 128)), (proj2 (Z.ltb_ge r 2048)), (proj2 (Z.ltb_lt r 65536)) by lia.
    - rewrite decode_four by done. unfold encode_rune.
      by rewrite (proj2 (Z.ltb_ge r 128)), (proj2 (Z.ltb_ge r 2048)), (proj2 (Z.ltb_ge r 65536)) by lia. }
  by rewrite (ValidString_rune _ _ _ H), sdrop_app.
Qed.

Lemma hex_val_range c z : hex_val c = Some z → 0 <= z < 16.
Proof.
  unfold hex_val, is_digit, in_range. intros H. repeat case_match; simplify_eq; go_bool; lia.
Qed.

Lemma hex4_range s z rest : hex4 s = Some (z, rest) → 0 <= z < 65536.
Proof.
  destruct s as [|a [|b [|c [|d s]]]]; try done. cbn [hex4].
  destruct (hex_val a) eqn:Ea; [|done]. destruct (hex_val b) eqn:Eb; [|done].
  destruct (hex_val c) eqn:Ec; [|done]. destruct (hex_val d) eqn:Ed; [|done]. cbn. intros; simplify_eq.
  apply hex_val_range in Ea, Eb, Ec, Ed. lia.
Qed.

Lemma unicode_escape_scalar s r rest : unicode_escape s = Some (r, rest) → scalar r.
Proof.
  unfold unicode_escape. destruct (hex4 s) as [[z t]|] eqn:E; [|done]. cbn. apply hex4_range in E.
  assert (scalar RuneError) as HR by (right; unfold RuneError; lia).
  unfold is_high, is_low. destruct ((55296 <=? z) && (z <=? 56319)) eqn:Eh.
  - intros H. repeat case_match; simplify_eq; try done. go_bool. right. lia.
  - destruct ((56320 <=? z) && (z <=? 57343)) eqn:El; intros; simplify_eq; [done|].
    apply andb_false_iff in Eh, El. unfold scalar. lia.
Qed.

Lemma valid_char c t : code c < 128 → ValidString t = true → ValidString (String c t) = true.
Proof.
  intros Hc Ht. assert (decode_rune (String c t) = Some (code c, 1%nat)) as H.
  { cbn [decode_rune]. by rewrite (proj2 (Z.ltb_lt _ 128)). }
  by rewrite (ValidString_rune _ _ _ H).
Qed.

Lemma simple_escape_ascii c d : simple_escape c = Some d → code d < 128.
Proof.
  unfold simple_escape. intros H. repeat case_match; simplify_eq; try (vm_compute; reflexivity).
  apply orb_true_iff in H0 as [[H0|H0]%orb_true_iff|H0]; lia.
Qed.

Lemma read_string_valid fuel : ∀ s out rest, read_string fuel s = Some (out, rest) → ValidString out = true.
Proof.
  induction fuel as [|fuel IH]; intros [|c s] out rest; try done. cbn [read_string].
  destruct (code c =? 34); [by intros [= <- _]|]. destruct (code c =? 92).
  - destruct s as [|e t]; [done|].
    assert (∀ d, simple_escape e = Some d →
      ('(o, rest') ← read_string fuel t; Some (String d o, rest')) = Some (out, rest) → ValidString out = true) as Hs.
    { intros d Hd. destruct (read_string fuel t) as [[o r']|] eqn:E; [|done]. cbn. intros [= <- _].
      apply valid_char; [by eapply simple_escape_ascii|by eapply IH]. }
    assert (∀ r0 t0, unicode_escape t = Some (r0, t0) →
      ('(o, rest') ← read_string fuel t0; Some (encode_rune r0 +:+ o, rest')) = Some (out, rest) →
      ValidString out = true) as Hu.
    { intros r0 t0 Hd. destruct (read_string fuel t0) as [[o r']|] eqn:E; [|done]. cbn. intros [= <- _].
      apply valid_encode; [by eapply unicode_escape_scalar|by eapply IH]. }
    destruct (Ascii.ascii_dec e "u"%char) as [->|He].
    + destruct (unicode_escape t) as [[r0 t0]|]; [|done]. by apply (Hu r0 t0).
    + intros H. destruct (simple_escape e) as [d|] eqn:Ed; [|exfalso; revert H; destruct e as [[] [] [] [] [] [] [] []]; by cbn].
      apply (Hs d eq_refl). revert H. destruct e as [[] [] [] [] [] [] [] []]; cbn; by cbn.
  - destruct (code c <? 32); [done|]. destruct (decode_rune (String c s)) as [[r n]|] eqn:Ed.
    + destruct (read_string fuel (sdrop n (String c s))) as [[o r']|] eqn:E; [|done]. cbn. intros [= <- _].
      destruct (decode_rune_encode _ _ _ Ed) as (Hsc & Hst & _). rewrite Hst. apply valid_encode; [done|by eapply IH].
    + destruct (read_string fuel s) as [[o r']|] eqn:E; [|done]. cbn. intros [= <- _].
      apply (valid_encode RuneError o); [right; unfold RuneError; lia|by eapply IH].
Qed.

(** ** What the walk establishes *)

(** A value, its tree and the text the walk wrote for it. *)
Record item := mkItem { it_j : jtext; it_v : any; it_b : string }.

Fixpoint numbers_checked (j : jtext) : bool :=
  match j with
  | JNum l => match checkParamsNumber l with None => true | Some _ => false end
  | JArr l => forallb numbers_checked l
  | JObj m => forallb (λ kv, numbers_checked kv.2) m
  | _ => true
  end.

Record item_ok (depth : Z) (i : item) : Prop := {
  io_decodes : unmarshal_any (it_j i) = Some (it_v i);
  io_distinct : distinct_members (it_j i) = true;
  io_numbers : numbers_checked (it_j i) = true;
  io_size : String.length (writeCanonicalJSON (it_v i)) = String.length (it_b i);
  io_finite : encodable (it_v i) = true;
  io_depth : paramsDepth (it_v i) depth <= maxParamsNesting;
  io_strings : validateCanonicalStrings (it_v i) depth = None }.

Definition clean (ms : marks) : Prop := mk_dup ms = None ∧ mk_num ms = None.

Lemma clean_mark_dup key seen ms : clean (mark_dup key seen ms) → clean ms ∧ key ∉ seen.
Proof.
  unfold clean, mark_dup. destruct ms as [[d|] n]; simpl; [naive_solver|].
  destruct (existsb (String.eqb key) seen) eqn:E; simpl; [naive_solver|]. intros [_ Hn]. split; [done|].
  intros Hin. apply not_true_iff_false in E. apply E, existsb_exists. exists key.
  split; [by apply list_elem_of_In|apply String.eqb_refl].
Qed.

Lemma clean_mark_num lit ms : clean (mark_num lit ms) → clean ms ∧ checkParamsNumber lit = None.
Proof.
  unfold clean, mark_num. destruct ms as [d [n|]]; simpl; [naive_solver|].
  destruct (checkParamsNumber lit); simpl; naive_solver.
Qed.

(** Lengths of joined texts. *)
Lemma Join_length sep l :
  String.length (Join sep l) = (sum_list_with String.length l + (length l - 1))%nat.
Proof.
  induction l as [|x l IH]; [done|]. destruct l as [|y l]; [simpl; lia|].
  rewrite Join_cons, str_length_app by done. cbn [String.length sum_list_with length] in *. rewrite IH. simpl. lia.
Qed.

Lemma Join_length_perm sep l l' : l ≡ₚ l' → String.length (Join sep l) = String.length (Join sep l').
Proof.
  intros Hp. rewrite !Join_length. rewrite (Permutation_length Hp). f_equal.
  induction Hp; simpl in *; lia.
Qed.

Lemma Join_length_ext {A} sep (f g : A → string) l :
  (∀ x, x ∈ l → String.length (f x) = String.length (g x)) →
  String.length (Join sep (f <$> l)) = String.length (Join sep (g <$> l)).
Proof.
  intros H. rewrite !Join_length, !length_fmap. f_equal.
  induction l as [|x l IH]; [done|]. rewrite !fmap_cons. cbn [sum_list_with].
  rewrite H, IH by set_solver. done.
Qed.

Lemma fold_max_le {A} (f : A → Z) (b d : Z) l :
  d <= b → (∀ x, x ∈ l → f x <= b) → fold_right (λ x acc, Z.max (f x) acc) d l <= b.
Proof.
  intros Hd. induction l as [|x l IH]; simpl; intros H; [done|].
  apply Z.max_lub; [apply H; set_solver|apply IH; set_solver].
Qed.

Lemma unmarshal_list (items : list item) :
  (∀ i, i ∈ items → unmarshal_any (it_j i) = Some (it_v i)) →
  unmarshal_any (JArr (it_j <$> items)) = Some (AList (it_v <$> items)).
Proof.
  intros H. cbn [unmarshal_any].
  assert ((fix go (l : list jtext) : option (list any) :=
     match l with [] => Some [] | x :: l' => v ← unmarshal_any x; vs ← go l'; Some (v :: vs) end)
    (it_j <$> items) = Some (it_v <$> items)) as ->; [|done].
  induction items as [|i items IH]; [done|]. rewrite !fmap_cons, H by set_solver. cbn [mbind option_bind].
  by rewrite IH by set_solver.
Qed.

Lemma mset_fresh {A} k (v : A) acc : k ∉ mkeys acc → mset k v acc = acc ++ [(k, v)].
Proof.
  unfold mkeys. induction acc as [|[k0 v0] acc IH]; [done|]. rewrite fmap_cons. intros Hk. cbn [mset app fst] in *.
  destruct (String.eqb_spec k k0) as [->|]; [set_solver|]. rewrite IH by set_solver. done.
Qed.

Lemma unmarshal_object_items (ms : list (string * item)) : ∀ acc,
  (∀ k i, (k, i) ∈ ms → unmarshal_any (it_j i) = Some (it_v i)) → NoDup (mkeys acc ++ mkeys ms) →
  (fix go (acc : gomap any) (m : list (string * jtext)) : option (gomap any) :=
     match m with [] => Some acc | (k, x) :: m' => v ← unmarshal_any x; go (mset k v acc) m' end)
    acc ((λ ki, (ki.1, it_j ki.2)) <$> ms) = Some (acc ++ ((λ ki, (ki.1, it_v ki.2)) <$> ms)).
Proof.
  induction ms as [|[k i] ms IH]; intros acc H Hn; [by rewrite app_nil_r|].
  rewrite !fmap_cons. cbn [fst snd]. rewrite (H k i) by set_solver. cbn [mbind option_bind].
  assert (k ∉ mkeys acc) as Hk.
  { apply list.NoDup_app in Hn as (_ & Hn & _). intros Hin. apply (Hn k Hin). unfold mkeys. rewrite fmap_cons. set_solver. }
  rewrite mset_fresh, IH by (done || set_solver || (unfold mkeys in *; rewrite fmap_app, <- app_assoc; done)).
  by rewrite <- app_assoc.
Qed.

Lemma array_ok depth items :
  depth <= maxParamsNesting → Forall (item_ok (depth + 1)) items →
  item_ok depth (mkItem (JArr (it_j <$> items)) (AList (it_v <$> items)) ("[" +:+ Join "," (it_b <$> items) +:+ "]")).
Proof.
  intros Hd H. rewrite list.Forall_forall in H. split; cbn [it_j it_v it_b].
  - apply unmarshal_list. intros i Hi. apply (H i Hi).
  - cbn [distinct_members]. apply forallb_forall. intros j (i & -> & Hi)%list_elem_of_In%list_elem_of_fmap. apply (H i Hi).
  - cbn [numbers_checked]. apply forallb_forall. intros j (i & -> & Hi)%list_elem_of_In%list_elem_of_fmap. apply (H i Hi).
  - cbn [writeCanonicalJSON]. rewrite !str_length_app, <- list_fmap_compose. do 2 f_equal.
    apply Join_length_ext. intros i Hi. apply (H i Hi).
  - cbn [encodable]. apply forallb_forall. intros v (i & -> & Hi)%list_elem_of_In%list_elem_of_fmap. apply (H i Hi).
  - cbn [paramsDepth]. apply fold_max_le; [done|]. intros v (i & -> & Hi)%list_elem_of_fmap. apply (H i Hi).
  - cbn [validateCanonicalStrings]. rewrite check_seq_None, guard_None. split.
    + unfold maxCanonicalDepth, maxParamsNesting in *. lia.
    + apply check_all_None. intros v (i & -> & Hi)%list_elem_of_fmap. apply (H i Hi).
Qed.

Definition member_buf (ki : string * item) : string := (writeCanonicalString ki.1 +:+ ":" +:+ it_b ki.2)%string.

Lemma object_ok depth (ms : list (string * item)) :
  depth <= maxParamsNesting → Forall (λ ki, item_ok (depth + 1) ki.2 ∧ ValidString ki.1 = true) ms → NoDup (mkeys ms) →
  item_ok depth (mkItem (JObj ((λ ki, (ki.1, it_j ki.2)) <$> ms)) (AMap ((λ ki, (ki.1, it_v ki.2)) <$> ms))
    ("{" +:+ Join "," (member_buf <$> ms) +:+ "}")).
Proof.
  intros Hd H Hn. rewrite list.Forall_forall in H. split; cbn [it_j it_v it_b].
  - cbn [unmarshal_any]. rewrite (unmarshal_object_items ms []); [done| |done].
    intros k i Hi. apply (H _ Hi).
  - cbn [distinct_members]. apply andb_true_iff. split.
    + apply bool_decide_eq_true. unfold mkeys. rewrite <- list_fmap_compose. exact Hn.
    + apply forallb_forall. intros kv ([k i] & -> & Hi)%list_elem_of_In%list_elem_of_fmap. apply (H _ Hi).
  - cbn [numbers_checked]. apply forallb_forall. intros kv ([k i] & -> & Hi)%list_elem_of_In%list_elem_of_fmap. apply (H _ Hi).
  - cbn [writeCanonicalJSON]. cbv zeta. rewrite !str_length_app. do 2 f_equal.
    unfold sortMembersUTF16. rewrite (Join_length_perm _ _ _ (fmap_Permutation _ _ _ (merge_sort_Permutation _ _))).
    rewrite <- !list_fmap_compose. apply Join_length_ext. intros [k i] Hi. unfold member_buf. simpl.
    rewrite !str_length_app. do 2 f_equal. f_equal. apply (H _ Hi).
  - cbn [encodable]. apply forallb_forall. intros kv ([k i] & -> & Hi)%list_elem_of_In%list_elem_of_fmap. apply (H _ Hi).
  - cbn [paramsDepth]. apply fold_max_le; [done|]. intros kv ([k i] & -> & Hi)%list_elem_of_fmap. apply (H _ Hi).
  - cbn [validateCanonicalStrings]. rewrite check_seq_None, guard_None. split.
    + unfold maxCanonicalDepth, maxParamsNesting in *. lia.
    + apply check_all_None. intros kv ([k i] & -> & Hi)%list_elem_of_fmap. simpl.
      destruct (H _ Hi) as [Hi1 Hk]. rewrite check_seq_None. split; [by apply canonical_key_ok|apply Hi1].
Qed.

(** A scalar at most one level below the deepest container. *)
Lemma scalar_ok depth j v b :
  depth <= maxParamsNesting + 1 → unmarshal_any j = Some v → distinct_members j = true → numbers_checked j = true →
  writeCanonicalJSON v = b → encodable v = true → paramsDepth v depth = depth - 1 →
  (∀ d, d <= maxCanonicalDepth → validateCanonicalStrings v d = None) → item_ok depth (mkItem j v b).
Proof.
  intros Hd H1 H2 H3 <- H4 H5 H6. split; cbn; try done; [lia|]. apply H6.
  unfold maxCanonicalDepth, maxParamsNesting in *. lia.
Qed.

Lemma depth_guard d : d <= maxCanonicalDepth → (maxCanonicalDepth <? d) = false.
Proof. apply Z.ltb_ge. Qed.

Lemma string_ok depth s : depth <= maxParamsNesting + 1 → ValidString s = true →
  item_ok depth (mkItem (JStr s) (AStr s) (writeCanonicalString s)).
Proof.
  intros Hd Hs. apply scalar_ok; try done. intros d Hd'. cbn. rewrite depth_guard by done. cbn. by apply canonical_key_ok.
Qed.

Lemma checkParamsNumber_parses lit :
  checkParamsNumber lit = None → ∃ f, ParseFloat lit = Some f ∧ isFinite f = true.
Proof.
  unfold checkParamsNumber. rewrite !check_seq_None. intros (_ & H & _). destruct (ParseFloat lit) as [f|]; [|done].
  exists f. rewrite guard_None in H. by go_bool.
Qed.

Lemma walk_scalar_ok depth s ms buf ms' rest :
  depth <= maxParamsNesting + 1 → walk_scalar s ms = WOk buf ms' rest → clean ms' →
  clean ms ∧ ∃ i, it_b i = buf ∧ item_ok depth i ∧ read_literal s = Some (it_j i, rest).
Proof.
  intros Hd. unfold walk_scalar. destruct (read_literal s) as [[j t]|] eqn:E; [|done].
  destruct j as [|b|lit| | |]; try done; intros [= <- <- <-] Hc.
  - split; [done|]. exists (mkItem JNull ANil "null"). split_and!; [done| |done].
    apply scalar_ok; try done. intros d Hd'. cbn. by rewrite depth_guard.
  - split; [done|]. exists (mkItem (JBool b) (ABool b) (if b then "true" else "false")). split_and!; [done| |done].
    apply scalar_ok; try done. intros d Hd'. cbn. by rewrite depth_guard.
  - apply clean_mark_num in Hc as [Hc Hn]. split; [done|].
    destruct (checkParamsNumber_parses lit Hn) as (f & Hp & Hf).
    exists (mkItem (JNum lit) (AFloat f) (number_text lit)). split_and!; [done| |done].
    apply scalar_ok; try done.
    + cbn. by rewrite Hp.
    + cbn. by rewrite Hn.
    + unfold number_text. by rewrite Hp, Hf.
    + intros d Hd'. cbn. by rewrite depth_guard.
Qed.

(** The walk accepts what the reader reads. *)
Definition walks (fuel : nat) : Prop := ∀ depth s ms buf ms' rest,
  depth <= maxParamsNesting + 1 → walk fuel depth s ms = WOk buf ms' rest → clean ms' →
  clean ms ∧ ∃ i, it_b i = buf ∧ item_ok depth i ∧ read_value fuel (depth - 1) s = Some (it_j i, rest).

Definition walks_elems (fuel : nat) : Prop := ∀ depth s ms buf ms' rest,
  depth <= maxParamsNesting + 1 → walk_elems fuel depth s ms = WOk buf ms' rest → clean ms' →
  clean ms ∧ ∃ items, Join "," (it_b <$> items) = buf ∧ Forall (item_ok depth) items ∧ items ≠ [] ∧
    read_elems fuel (depth - 1) s = Some (it_j <$> items, rest).

Definition walks_members (fuel : nat) : Prop := ∀ depth s seen ms buf ms' rest,
  depth <= maxParamsNesting + 1 → walk_members fuel depth s seen ms = WOk buf ms' rest → clean ms' →
  clean ms ∧ ∃ mems : list (string * item), Join "," (member_buf <$> mems) = buf ∧
    Forall (λ ki, item_ok depth ki.2 ∧ ValidString ki.1 = true) mems ∧ mems ≠ [] ∧
    NoDup (mkeys mems) ∧ (∀ k, k ∈ mkeys mems → k ∉ seen) ∧
    read_members fuel (depth - 1) s = Some ((λ ki, (ki.1, it_j ki.2)) <$> mems, rest).

Lemma wbind_ok w k buf ms rest :
  wbind w k = WOk buf ms rest → ∃ b m r, w = WOk b m r ∧ k b m r = WOk buf ms rest.
Proof. destruct w; try done. intros H. by eexists _, _, _. Qed.

Lemma walk_elems_step fuel : walks fuel → walks_elems fuel → walks_elems (S fuel).
Proof.
  intros Hw He depth s ms buf ms' rest Hd H Hc. cbn [walk_elems] in H.
  apply wbind_ok in H as (b & m & r & Hwk & H).
  destruct (skip_ws r) as [|c t] eqn:Er; [done|].
  destruct (Ascii.ascii_dec c ","%char) as [->|Hcomma]; [|destruct (Ascii.ascii_dec c "]"%char) as [->|Hclose]].
  - apply wbind_ok in H as (b' & m' & r' & Hel & [= <- <- <-]).
    destruct (He _ _ _ _ _ _ Hd Hel Hc) as (Hcm & items & <- & Hitems & Hne & Hread).
    destruct (Hw _ _ _ _ _ _ Hd Hwk Hcm) as (Hcs & i & <- & Hi & Hrv). split; [done|].
    exists (i :: items). split_and!; [|by constructor|done|].
    + rewrite fmap_cons, Join_cons by (by destruct items). done.
    + cbn [read_elems]. rewrite Hrv. cbn [mbind option_bind]. rewrite Er, Hread. done.
  - injection H as <- <- <-. destruct (Hw _ _ _ _ _ _ Hd Hwk Hc) as (Hcs & i & <- & Hi & Hrv). split; [done|].
    exists [i]. split_and!; [done|by constructor|done|].
    cbn [read_elems]. rewrite Hrv. cbn [mbind option_bind]. by rewrite Er.
  - exfalso. revert H Hcomma Hclose. destruct c as [[] [] [] [] [] [] [] []]; try discriminate; congruence.
Qed.

(** The value behind the colon of a member. *)
Lemma walk_member_value fuel depth key t seen ms b m r :
  walks fuel → depth <= maxParamsNesting + 1 → ValidString key = true →
  walk fuel depth t (mark_dup key seen ms) = WOk b m r → clean m →
  clean ms ∧ key ∉ seen ∧ ∃ i, it_b i = b ∧ item_ok depth i ∧ read_value fuel (depth - 1) t = Some (it_j i, r).
Proof.
  intros Hw Hd Hk Hwk Hc. destruct (Hw _ _ _ _ _ _ Hd Hwk Hc) as (Hc' & Hi).
  apply clean_mark_dup in Hc' as [? ?]. done.
Qed.

Lemma walk_members_step fuel : walks fuel → walks_members fuel → walks_members (S fuel).
Proof.
  intros Hw Hm depth s seen ms buf ms' rest Hd H Hc. cbn [walk_members] in H.
  destruct (skip_ws s) as [|q s'] eqn:Es; [done|]. destruct (code q =? 34) eqn:Eq; [|done].
  destruct (read_string (String.length s') s') as [[key r0]|] eqn:Ek; [|done].
  pose proof (read_string_valid _ _ _ _ Ek) as Hkey.
  destruct (skip_ws r0) as [|c t] eqn:Ec; [done|].
  destruct (Ascii.ascii_dec c ":"%char) as [->|Hcolon];
    [|exfalso; revert H Hcolon; destruct c as [[] [] [] [] [] [] [] []]; try discriminate; congruence].
  apply wbind_ok in H as (b & m & r & Hwk & H). cbv zeta in H.
  destruct (skip_ws r) as [|e u] eqn:Er; [done|].
  destruct (Ascii.ascii_dec e ","%char) as [->|Hcomma]; [|destruct (Ascii.ascii_dec e "}"%char) as [->|Hclose]].
  - apply wbind_ok in H as (b' & m' & r' & Hms & [= <- <- <-]).
    destruct (Hm _ _ _ _ _ _ _ Hd Hms Hc) as (Hcm & mems & <- & Hf & Hne & Hnd & Hseen & Hread).
    destruct (walk_member_value _ _ _ _ _ _ _ _ _ Hw Hd Hkey Hwk Hcm) as (Hcs & Hks & i & <- & Hi & Hrv).
    split; [done|]. exists ((key, i) :: mems). split_and!; [|by constructor|done| | |].
    + rewrite fmap_cons, Join_cons by (by destruct mems). done.
    + unfold mkeys. rewrite fmap_cons. apply list.NoDup_cons. split; [|done]. intros Hin. apply (Hseen _ Hin). set_solver.
    + unfold mkeys. rewrite fmap_cons. intros k [->|Hin]%elem_of_cons; [done|]. specialize (Hseen _ Hin). set_solver.
    + cbn [read_members]. rewrite Es, Eq, Ek. cbn [mbind option_bind]. rewrite Ec, Hrv. cbn [mbind option_bind].
      rewrite Er, Hread. done.
  - injection H as <- <- <-.
    destruct (walk_member_value _ _ _ _ _ _ _ _ _ Hw Hd Hkey Hwk Hc) as (Hcs & Hks & i & <- & Hi & Hrv).
    split; [done|]. exists [(key, i)]. split_and!; [done|by constructor|done| | |].
    + apply list.NoDup_singleton.
    + intros k ->%list_elem_of_singleton. done.
    + cbn [read_members]. rewrite Es, Eq, Ek. cbn [mbind option_bind]. rewrite Ec, Hrv. cbn [mbind option_bind].
      by rewrite Er.
  - exfalso. revert H Hcomma Hclose. destruct e as [[] [] [] [] [] [] [] []]; try discriminate; congruence.
Qed.

Lemma walk_array_step fuel depth s' ms buf ms' rest :
  walks_elems fuel → depth <= maxParamsNesting → clean ms' →
  (match skip_ws s' with
   | String "]" t => WOk "[]" ms t
   | _ => wbind (walk_elems fuel (depth + 1) s' ms) (λ buf ms rest, WOk ("[" +:+ buf +:+ "]") ms rest)
   end)%char = WOk buf ms' rest →
  clean ms ∧ ∃ i, it_b i = buf ∧ item_ok depth i ∧
    (match skip_ws s' with
     | String "]" t => Some (JArr [], t)
     | _ => '(l, rest) ← read_elems fuel (depth - 1 + 1) s'; Some (JArr l, rest)
     end)%char = Some (it_j i, rest).
Proof.
  intros He Hd Hc H. replace (depth - 1 + 1) with (depth + 1 - 1) by lia.
  assert (wbind (walk_elems fuel (depth + 1) s' ms) (λ buf ms rest, WOk ("[" +:+ buf +:+ "]") ms rest) = WOk buf ms' rest →
    clean ms ∧ ∃ i, it_b i = buf ∧ item_ok depth i ∧
      ('(l, rest) ← read_elems fuel (depth + 1 - 1) s'; Some (JArr l, rest)) = Some (it_j i, rest)) as Hgo.
  { intros (b & m & r & Hel & [= <- <- <-])%wbind_ok.
    destruct (He (depth + 1) _ _ _ _ _ ltac:(lia) Hel Hc) as (Hcs & items & <- & Hf & _ & Hread). split; [done|].
    eexists. split; [|split; [by apply (array_ok depth items)|]]; [done|]. by rewrite Hread. }
  destruct (skip_ws s') as [|c t] eqn:E; [by apply Hgo|].
  destruct (Ascii.ascii_dec c "]"%char) as [->|Hne].
  - injection H as <- <- <-. split; [done|]. exists (mkItem (JArr []) (AList []) "[]").
    split_and!; [done|by apply (array_ok depth [])|done].
  - destruct c as [[] [] [] [] [] [] [] []]; try (by apply Hgo); congruence.
Qed.

Lemma walk_object_step fuel depth s' ms buf ms' rest :
  walks_members fuel → depth <= maxParamsNesting → clean ms' →
  (match skip_ws s' with
   | String "}" t => WOk "{}" ms t
   | _ => wbind (walk_members fuel (depth + 1) s' [] ms) (λ buf ms rest, WOk ("{" +:+ buf +:+ "}") ms rest)
   end)%char = WOk buf ms' rest →
  clean ms ∧ ∃ i, it_b i = buf ∧ item_ok depth i ∧
    (match skip_ws s' with
     | String "}" t => Some (JObj [], t)
     | _ => '(m, rest) ← read_members fuel (depth - 1 + 1) s'; Some (JObj m, rest)
     end)%char = Some (it_j i, rest).
Proof.
  intros He Hd Hc H. replace (depth - 1 + 1) with (depth + 1 - 1) by lia.
  assert (wbind (walk_members fuel (depth + 1) s' [] ms) (λ buf ms rest, WOk ("{" +:+ buf +:+ "}") ms rest) = WOk buf ms' rest →
    clean ms ∧ ∃ i, it_b i = buf ∧ item_ok depth i ∧
      ('(m, rest) ← read_members fuel (depth + 1 - 1) s'; Some (JObj m, rest)) = Some (it_j i, rest)) as Hgo.
  { intros (b & m & r & Hel & [= <- <- <-])%wbind_ok.
    destruct (He (depth + 1) _ _ _ _ _ _ ltac:(lia) Hel Hc) as (Hcs & mems & <- & Hf & _ & Hnd & _ & Hread). split; [done|].
    eexists. split; [|split; [by apply (object_ok depth mems)|]]; [done|]. by rewrite Hread. }
  destruct (skip_ws s') as [|c t] eqn:E; [by apply Hgo|].
  destruct (Ascii.ascii_dec c "}"%char) as [->|Hne].
  - injection H as <- <- <-. split; [done|]. exists (mkItem (JObj []) (AMap []) "{}").
    split_and!; [done|by apply (object_ok depth []); [..|constructor]|done].
  - destruct c as [[] [] [] [] [] [] [] []]; try (by apply Hgo); congruence.
Qed.

Lemma walk_step fuel : walks_elems fuel → walks_members fuel → walks (S fuel).
Proof.
  intros He Hm depth s ms buf ms' rest Hd H Hc. cbn [walk] in H. cbn [read_value].
  destruct (skip_ws s) as [|c s'] eqn:Es; [done|]. destruct (code c =? 34) eqn:E34.
  { destruct (read_string (String.length s') s') as [[v r]|] eqn:Er; [|done]. injection H as <- <- <-. split; [done|].
    exists (mkItem (JStr v) (AStr v) (writeCanonicalString v)). split_and!; [done| |done].
    apply string_ok; [done|]. by eapply read_string_valid. }
  assert (depth <= maxParamsNesting → (maxJSONDepth <? depth - 1 + 1) = false) as Hmax.
  { intros. apply Z.ltb_ge. unfold maxParamsNesting, maxJSONDepth in *. lia. }
  destruct (code c =? 91).
  { destruct (Z.ltb_spec maxParamsNesting depth); [done|]. rewrite Hmax by done. by eapply walk_array_step. }
  destruct (code c =? 123).
  { destruct (Z.ltb_spec maxParamsNesting depth); [done|]. rewrite Hmax by done. by eapply walk_object_step. }
  by eapply walk_scalar_ok.
Qed.

Lemma walk_all fuel : walks fuel ∧ walks_elems fuel ∧ walks_members fuel.
Proof.
  induction fuel as [|fuel (H1 & H2 & H3)]; [by split_and!; repeat intros ?|].
  split_and!; [by apply walk_step|by apply walk_elems_step|by apply walk_members_step].
Qed.

(** ** The input boundary *)

(** What the check of the text establishes about the document: it is one JSON
    object, no object in it repeats a member, its numbers are usable, and its
    decoded form passes the size and depth checks of the decoded path. *)
Definition conforms (text : string) (params : gomap any) : Prop :=
  ∃ tree, read_document text = Some tree ∧ unmarshal_any tree = Some (AMap params) ∧
    distinct_members tree = true ∧ numbers_checked tree = true ∧ validateObjectParams params = None.

Lemma read_value_brace fuel d t j rest :
  read_value fuel d (String "{" t) = Some (j, rest) → ∃ m, j = JObj m.
Proof.
  destruct fuel as [|fuel]; [done|]. cbn [read_value]. change (skip_ws (String "{" t)) with (String "{" t).
  cbn [code N_of_ascii]. change (code "{" =? 34) with false. change (code "{" =? 91) with false.
  change (code "{" =? 123) with true. cbv iota. destruct (_ <? _); [done|].
  destruct (skip_ws t) as [|c u]; [by destruct (read_members _ _ t) as [[m r]|]; simpl; naive_solver|].
  intros H. destruct (Ascii.ascii_dec c "}"%char) as [->|Hne]; [naive_solver|].
  destruct (read_members fuel (d + 1) t) as [[m r]|] eqn:E;
    destruct c as [[] [] [] [] [] [] [] []]; simpl in H; naive_solver.
Qed.

Lemma unmarshal_obj m v : unmarshal_any (JObj m) = Some v → ∃ params, v = AMap params.
Proof. cbn [unmarshal_any]. match goal with |- AMap <$> ?x = _ → _ => destruct x as [p|] end; naive_solver. Qed.

Lemma decoded_checks tree params buf :
  item_ok 1 (mkItem tree (AMap params) buf) →
  Z.of_nat (String.length buf) <= maxParamsSerializedBytes → validateObjectParams params = None.
Proof.
  intros [_ _ _ Hl He Hd Hs] Hb. cbn [it_v it_b] in *.
  unfold validateObjectParams, CanonicalJSON. rewrite check_seq_None, guard_None. split; [by apply Z.ltb_ge|].
  rewrite (validate_shallower _ 1 0 ltac:(lia) Hs), He, guard_None, Hl. by apply Z.ltb_ge.
Qed.

Lemma ValidateRawParams_conforms raw :
  ValidateRawParams raw = None → ∃ params, conforms (TrimSpace raw) params.
Proof.
  unfold ValidateRawParams. destruct (scanRawUnicodeEscapes raw); [done|]. destruct (negb (ValidString raw)); [done|].
  cbv zeta. set (text := TrimSpace raw). destruct (String.eqb text "" || negb (HasPrefix text "{")) eqn:Ep; [done|].
  destruct (walk _ 1 text _) as [| |buf ms rest] eqn:Ew; try done. rewrite !check_seq_None, !guard_None.
  intros (Hrest & Hsize & Hdup & Hnum). go_bool.
  destruct (walk_all (S (2 * String.length text))) as (Hw & _ & _).
  destruct (Hw 1 _ _ _ _ _ ltac:(unfold maxParamsNesting; lia) Ew (conj Hdup Hnum)) as (_ & [j v b] & <- & Hi & Hr).
  cbn [it_j it_b] in *. change (1 - 1) with 0 in Hr.
  assert (∃ m, j = JObj m) as [m ->].
  { destruct text as [|c t]; [done|]. unfold HasPrefix in H0. cbn [String.prefix] in H0.
    destruct (ascii_dec "{" c) as [<-|]; [|done]. by eapply read_value_brace. }
  destruct (unmarshal_obj m v (io_decodes _ _ Hi)) as [params ->]. exists params. exists (JObj m). split_and!.
  - unfold read_document. rewrite Hr. cbn [mbind option_bind]. by rewrite Hrest, String.eqb_refl.
  - apply Hi.
  - apply Hi.
  - apply Hi.
  - eapply decoded_checks; [exact Hi|]. by apply Z.ltb_ge in Hsize.
Qed.

(** C7: an operation with parameter text is admitted only when the text passes
    the input boundary: it has no lone surrogate escape and no invalid byte, it is
    one JSON object in which no object repeats a member at any depth and every
    number is usable, and the decoded parameters are within the size and depth
    limits of the decoded path, which measure the same canonical form.  The
    decision is then that of the grants on the decoded parameters; without white
    space around the text these are the parameters that were checked. *)
Theorem json_text_boundary grants opID raw :
  raw ≠ "" → d_verdict (AuthorizeJSONText grants opID raw) ≠ VerdictDeny →
  scanRawUnicodeEscapes raw = None ∧ ValidString raw = true ∧
  ∃ params decoded, conforms (TrimSpace raw) params ∧ unmarshal_object raw = Some decoded ∧
    (TrimSpace raw = raw → decoded = Some params) ∧
    AuthorizeJSONText grants opID raw = AuthorizeSet grants (mkOp opID decoded).
Proof.
  intros Hne. unfold AuthorizeJSONText. rewrite (proj2 (String.eqb_neq raw "") Hne).
  destruct (ValidateRawParams raw) as [e|] eqn:Ev; [done|].
  destruct (unmarshal_object raw) as [decoded|] eqn:Ed; [|done]. intros _.
  assert (scanRawUnicodeEscapes raw = None ∧ ValidString raw = true) as [Hs Hv].
  { unfold ValidateRawParams in Ev. destruct (scanRawUnicodeEscapes raw); [done|]. destruct (ValidString raw); done. }
  do 2 (split; [done|]). destruct (ValidateRawParams_conforms raw Ev) as [params Hc]. exists params, decoded.
  split_and!; [done|done| |done]. intros Ht. rewrite Ht in Hc. destruct Hc as (tree & Hr & Hu & _).
  unfold unmarshal_object, unmarshal_value in Ed. rewrite Hr in Ed. cbn [mbind option_bind] in Ed.
  rewrite Hu in Ed. cbn in Ed. by injection Ed.
Qed.

(** ** Examples *)

Definition quotes (s : string) : string :=
  (fix go s := match s with
   | EmptyString => EmptyString
   | String c s' => String (if Ascii.eqb c "'" then dquote else c) (go s')
   end) s.

Example raw_verdicts :
  ValidateRawParams ∘ quotes <$>
    ["{'a':1,'b':[true,null]}"; "{'a':1,'a':2}"; "{'a':9007199254740993}"; "[1]"; "{'a':1} x";
     "{'a':'\ud800'}"; "{'a':'\ud83d\ude00'}"]%string
  = [None; Some (wrap ErrInvalidParamsDupKey (quoted "a")); Some (wrap ErrInvalidParamsNumber "9007199254740993");
     Some ErrInvalidParamsNumber; Some ErrInvalidParamsNumber;
     Some (wrap ErrInvalidParamsNumber "canonical_lone_surrogate: high surrogate escape without a low surrogate"); None].
Proof. vm_compute. reflexivity. Qed.

(** The size error comes before the repeated member, and before text that is not
    JSON where the nesting is already too deep. *)
Example size_first :
  ValidateRawParams (quotes ("{'a':1,'a':'" +:+ repeat_char "x" 600 +:+ "'}")) = Some ErrInvalidParamsSize ∧
  ValidateRawParams (quotes ("{'a':" +:+ repeat_char "[" 40)) = Some ErrInvalidParamsSize.
Proof. vm_compute. done. Qed.

(** The trimmed text is not the text: a no-break space around the object passes
    this check although no JSON reader accepts it. *)
Example trim_accepts_non_json :
  ValidateRawParams (String (chr 194) (String (chr 160) "{}")) = None ∧
  read_document (String (chr 194) (String (chr 160) "{}")) = None.
Proof. vm_compute. done. Qed.

Definition text_grant : Grant := mkGrant "acme/shop-v1:order:*" (Some [("n", jnum "5")]) None [].
Definition text_params : string := quotes "{'n':3}".

Lemma json_text_boundary_witness :
  scanRawUnicodeEscapes text_params = None ∧ ValidString text_params = true ∧
  ∃ params decoded, conforms (TrimSpace text_params) params ∧ unmarshal_object text_params = Some decoded ∧
    (TrimSpace text_params = text_params → decoded = Some params) ∧
    AuthorizeJSONText [text_grant] "acme/shop-v1:order:list" text_params =
    AuthorizeSet [text_grant] (mkOp "acme/shop-v1:order:list" decoded).
Proof. apply json_text_boundary; vm_compute; discriminate. Defined.
