(* ===== verification/RegistryLock.v ===== *)
(** * The lock of the registry

    The registry guards its map with a [sync.RWMutex].  A method is the sequence
    of its lock calls; goroutines interleave them.  The mutex is that of the Go
    documentation: a call of [Lock] first excludes other writers and announces
    itself, which blocks every later [RLock], and then waits for the readers that
    are in; a goroutine whose call cannot proceed makes no step. *)

From stdpp Require Import relations.
From S2P Require Import Prelude.

(** ** The mutex *)

Inductive writer := WIdle | WPending | WActive.
Record rwmutex := mkRW { rw_readers : nat; rw_writer : writer }.

(** The call of [Lock] is its announcement followed by the wait. *)
Inductive call := RLock | RUnlock | Announce | Acquire | Unlock.

#[global] Instance call_eq_dec : EqDecision call.
Proof. solve_decision. Defined.

(** [None]: the goroutine is blocked. *)
Definition exec (i : call) (m : rwmutex) : option rwmutex :=
  match i, m with
  | RLock, mkRW n WIdle => Some (mkRW (S n) WIdle)
  | RUnlock, mkRW (S n) w => Some (mkRW n w)
  | Announce, mkRW n WIdle => Some (mkRW n WPending)
  | Acquire, mkRW 0 WPending => Some (mkRW 0 WActive)
  | Unlock, mkRW n WActive => Some (mkRW n WIdle)
  | _, _ => None
  end.

(** ** The methods of registry.go *)

Inductive method := MRegister | MGet | MHas | MHasCapability | MValidateCapability | MSchemeIDs | MSummary.

Definition program (m : method) : list call :=
  match m with
  | MRegister => [Announce; Acquire; Unlock]
  | MGet | MHas | MHasCapability | MSchemeIDs => [RLock; RUnlock]
  | MValidateCapability => [RLock; RUnlock]
  | MSummary => [RLock; RLock; RUnlock; RUnlock]
  end.

(** ** Interleaving *)

Record config := mkConfig { cf_mutex : rwmutex; cf_threads : list (list call) }.

Inductive step : config → config → Prop :=
  | step_call l1 i rest l2 m m' :
      exec i m = Some m' →
      step (mkConfig m (l1 ++ (i :: rest) :: l2)) (mkConfig m' (l1 ++ rest :: l2)).

(** Every goroutine runs a sequence of methods on a free mutex. *)
Definition start (runs : list (list method)) : config :=
  mkConfig (mkRW 0 WIdle) ((λ ms, ms ≫= program) <$> runs).

Definition finished (c : config) : Prop := Forall (λ t, t = []) (cf_threads c).
Definition remaining (c : config) : nat := sum_list_with length (cf_threads c).

Lemma step_remaining c c' : step c c' → remaining c = S (remaining c').
Proof.
  destruct 1 as [l1 i rest l2 m m' _]. unfold remaining. simpl.
  rewrite !sum_list_with_app. simpl. lia.
Qed.

Lemma steps_remaining n c c' : nsteps step n c c' → remaining c = (n + remaining c')%nat.
Proof. induction 1 as [|n c c1 c2 H _ IH]; [done|]. apply step_remaining in H. lia. Qed.

(** ** Methods that take the lock once *)

Definition takes_once (m : method) : Prop := m ≠ MSummary.

(** Where a goroutine can stand between two calls. *)
Inductive at_rest : list call → Prop :=
  | rest_nil : at_rest []
  | rest_read t : at_rest t → at_rest (RLock :: RUnlock :: t)
  | rest_write t : at_rest t → at_rest (Announce :: Acquire :: Unlock :: t).

Inductive standing : list call → Prop :=
  | stand_rest t : at_rest t → standing t
  | stand_reading t : at_rest t → standing (RUnlock :: t)
  | stand_waiting t : at_rest t → standing (Acquire :: Unlock :: t)
  | stand_writing t : at_rest t → standing (Unlock :: t).

#[local] Hint Constructors at_rest standing : core.

Lemma programs_at_rest ms : Forall takes_once ms → at_rest (ms ≫= program).
Proof.
  induction 1 as [|m ms Hm _ IH]; [constructor|]. change ((m :: ms) ≫= program) with (program m ++ ms ≫= program).
  destruct m; simpl; auto. by destruct Hm.
Qed.

(** The goroutines that stand before a given call. *)
Definition before (i : call) (t : list call) : nat := if decide (head t = Some i) then 1%nat else 0%nat.
Definition waiting (i : call) (c : config) : nat := sum_list_with (before i) (cf_threads c).

Definition expects (w : writer) (w' : writer) : nat :=
  match w, w' with WPending, WPending | WActive, WActive => 1%nat | _, _ => 0%nat end.

(** The mutex counts what the goroutines hold. *)
Record lock_inv (c : config) : Prop := {
  inv_standing : Forall standing (cf_threads c);
  inv_readers : waiting RUnlock c = rw_readers (cf_mutex c);
  inv_pending : waiting Acquire c = expects WPending (rw_writer (cf_mutex c));
  inv_active : waiting Unlock c = expects WActive (rw_writer (cf_mutex c)) }.

Lemma standing_next i t : standing (i :: t) → standing t.
Proof.
  inversion 1 as [t' Ht|t' Ht|t' Ht|t' Ht]; subst; auto.
  inversion Ht; subst; auto.
Qed.

(** What the rest of a goroutine stands before, once it made the call. *)
Lemma standing_after i t j : standing (i :: t) →
  before j t = match i, j with
               | RLock, RUnlock | Announce, Acquire | Acquire, Unlock => 1%nat
               | _, (RUnlock | Acquire | Unlock) => 0%nat
               | _, _ => before j t
               end.
Proof.
  unfold before. inversion 1 as [t' Ht|t' Ht|t' Ht|t' Ht]; subst;
    inversion Ht; subst; destruct j; done.
Qed.

Lemma waiting_split i m l1 t l2 :
  waiting i (mkConfig m (l1 ++ t :: l2)) =
  (before i t + (sum_list_with (before i) l1 + sum_list_with (before i) l2))%nat.
Proof. unfold waiting. simpl. rewrite sum_list_with_app. simpl. lia. Qed.

Lemma lock_step_inv c c' : step c c' → lock_inv c → lock_inv c'.
Proof.
  destruct 1 as [l1 i rest l2 m m' He]. intros [Hs Hr Hp Ha]. simpl in *.
  apply Forall_app in Hs as [Hs1 [Ht Hs2]%list.Forall_cons].
  rewrite waiting_split in Hr, Hp, Ha. cbn [cf_mutex] in *.
  split; cbn [cf_threads cf_mutex].
  - apply Forall_app. split; [done|]. apply list.Forall_cons. split; [|done]. by eapply standing_next.
  - rewrite waiting_split, (standing_after i rest RUnlock Ht).
    destruct m as [[|n] []], i; simplify_eq/=; unfold before in *; simpl in *; lia.
  - rewrite waiting_split, (standing_after i rest Acquire Ht).
    destruct m as [[|n] []], i; simplify_eq/=; unfold before in *; simpl in *; lia.
  - rewrite waiting_split, (standing_after i rest Unlock Ht).
    destruct m as [[|n] []], i; simplify_eq/=; unfold before in *; simpl in *; lia.
Qed.

Lemma start_inv runs : Forall (Forall takes_once) runs → lock_inv (start runs).
Proof.
  intros H.
  assert (∀ i, i ≠ RLock → i ≠ Announce →
    sum_list_with (before i) ((λ ms, ms ≫= program) <$> runs) = 0%nat) as Hz.
  { intros i H1 H2. induction H as [|ms runs Hms _ IH]; [done|]. rewrite fmap_cons. cbn [sum_list_with]. rewrite IH.
    destruct (programs_at_rest ms Hms); unfold before; simpl; repeat case_decide; simplify_eq; done. }
  split; simpl; try by apply Hz.
  apply list.Forall_forall. intros t (ms & -> & Hms)%list_elem_of_fmap.
  rewrite list.Forall_forall in H. by apply stand_rest, programs_at_rest, H.
Qed.

(** ** Progress *)

Lemma waiting_step i m threads m' :
  (0 < waiting i (mkConfig m threads))%nat → exec i m = Some m' → ∃ c', step (mkConfig m threads) c'.
Proof.
  unfold waiting. simpl. intros Hw He.
  assert (∃ t, t ∈ threads ∧ head t = Some i) as (t & Ht & Hh).
  { induction threads as [|t ts IH]; simpl in Hw; [lia|]. unfold before in Hw at 1. case_decide.
    - exists t. set_solver.
    - destruct IH as (u & ? & ?); [done|]. exists u. set_solver. }
  apply list_elem_of_split in Ht as (l1 & l2 & ->). destruct t as [|j rest]; simplify_eq/=.
  eexists. by constructor.
Qed.

Lemma inv_progress c : lock_inv c → finished c ∨ ∃ c', step c c'.
Proof.
  destruct c as [[n w] threads]. intros [Hs Hr Hp Ha]. cbn [cf_mutex rw_readers rw_writer] in *.
  destruct w; simpl in *.
  - (* no writer: the head of any unfinished goroutine can run *)
    destruct (decide (Forall (λ t, t = []) threads)) as [Hd|Hd]; [by left|]. right.
    apply not_Forall_Exists in Hd; [|apply _]. apply list.Exists_exists in Hd as (t & Ht & Hne).
    rewrite list.Forall_forall in Hs. pose proof (Hs t Ht) as Hst.
    apply list_elem_of_split in Ht as (l1 & l2 & ->). destruct t as [|i rest]; [by exfalso; apply Hne|].
    rewrite !waiting_split in *.
    unfold before in Hr at 1, Hp at 1, Ha at 1.
    destruct i; simpl in *; [eexists; by constructor| |eexists; by constructor|lia..].
    destruct n as [|n]; [lia|]. eexists. by constructor.
  - right. destruct n as [|n].
    + eapply (waiting_step Acquire); [lia|done].
    + eapply (waiting_step RUnlock); [lia|done].
  - right. eapply (waiting_step Unlock); [lia|done].
Qed.

(** C23: goroutines that call any sequence of methods other than [Summary] never
    deadlock: in every reachable configuration either all have finished or some
    goroutine can proceed, and since every step completes one lock call, a run has
    exactly as many steps as there are lock calls and ends with all of them
    finished. *)
Theorem single_lock_methods_finish runs c n :
  Forall (Forall takes_once) runs → nsteps step n (start runs) c →
  remaining (start runs) = (n + remaining c)%nat ∧
  ((∃ c', step c c') ∨ finished c).
Proof.
  intros Hruns Hn. split; [by apply steps_remaining|].
  assert (lock_inv c) as Hi.
  { pose proof (start_inv runs Hruns) as Hinv. clear Hruns. induction Hn as [|n c c1 c2 H _ IH]; [done|].
    apply IH. by eapply lock_step_inv. }
  destruct (inv_progress c Hi); auto.
Qed.

Lemma single_lock_methods_finish_witness :
  remaining (start [[MRegister]; [MGet]]) = (1 + 4)%nat ∧
  ((∃ c', step (mkConfig (mkRW 0 WPending) [[Acquire; Unlock]; [RLock; RUnlock]]) c') ∨
   finished (mkConfig (mkRW 0 WPending) [[Acquire; Unlock]; [RLock; RUnlock]])).
Proof.
  apply (single_lock_methods_finish [[MRegister]; [MGet]]
    (mkConfig (mkRW 0 WPending) [[Acquire; Unlock]; [RLock; RUnlock]]) 1).
  - repeat constructor; discriminate.
  - eapply nsteps_l; [|apply nsteps_O]. apply (step_call [] Announce [Acquire; Unlock] [[RLock; RUnlock]]). reflexivity.
Defined.

(** ** [Summary] takes the read lock twice *)

Definition stuck_summary : config := mkConfig (mkRW 1 WPending) [[RLock; RUnlock; RUnlock]; [Acquire; Unlock]].

(** One [Summary] and one [Register] reach a configuration in which neither can
    proceed: the nested [RLock] waits for the announced writer, which waits for
    the outer read lock. *)
Lemma summary_deadlocks :
  rtc step (start [[MSummary]; [MRegister]]) stuck_summary ∧
  ¬ finished stuck_summary ∧ ∀ c, ¬ step stuck_summary c.
Proof.
  split_and!.
  - eapply rtc_l; [apply (step_call [] RLock [RLock; RUnlock; RUnlock] [[Announce; Acquire; Unlock]]); reflexivity|].
    eapply rtc_l; [apply (step_call [[RLock; RUnlock; RUnlock]] Announce [Acquire; Unlock] []); reflexivity|].
    apply rtc_refl.
  - intros H. apply list.Forall_cons in H as [H _]. done.
  - intros c H. inversion H as [l1 i rest l2 m m' He Hm Ht]. subst.
    destruct l1 as [|t [|u l1]]; simplify_eq/=; try discriminate He. by destruct l1.
Qed.
